(* ===== verification/_CoqProject ===== *)
-Q . S2P
Prelude.v
RustStd.v
Simd.v
SimdProofs.v
ByteKernel.v
ByteKernelProofs.v
Source.v
Token.v
LexStrings.v
Lexer.v
LexerCursor.v
LexerSteps.v
LexerProofs.v
LexerTokens.v
LexerLines.v
LexerUtf8.v
SyntaxTree.v
Parser.v
GrammarBase.v
GrammarCode.v
Grammar.v
ParserLogic.v
GrammarProofs.v
ParserProofs.v
RecoveryLoops.v
RustNum.v
RustFloat.v
RustText.v
FloatText.v
PhpString.v
NumericString.v
NumericStringProofs.v
PhpArray.v
PhpArrayProofs.v
PhpArraySpec.v
PhpArrayClaims.v
RecordShapes.v
LiteralText.v
LiteralTextProofs.v
LiteralScan.v
LiteralClaims.v
Output.v
Convert.v
ConvertProofs.v
Compare.v
CompareProofs.v
CompareClaims.v
NativeOps.v
NativeOpsProofs.v
NativeOpsClaims.v
Names.v
NamesProofs.v
NamesClaims.v
UseClaims.v
IrConst.v
IrConstProofs.v
IrConstClaims.v
IrLiterals.v
IrDefines.v
Objects.v
ObjectProofs.v
ObjectLayouts.v
ObjectClaims.v
ObjectNative.v
ObjectNativeClaims.v
Serialization.v
SerializationProofs.v
SerializationParse.v
SerializationClaims.v
SerializationSafety.v
Tokenizer.v
TokenizerClaims.v
