(* ===== verification/Prelude.v ===== *)
(** * A verification of the phrust front end and runtime core

    phrust ([crates/] of the repository) is a PHP engine in Rust.  A request
    passes its source text through [php_source] (byte positions, line index and
    the byte kernel of vectorised searches), [php_lexer] (a lossless lexer with
    a stack of modes), [php_syntax] (an event-based parser that builds a
    lossless tree), [php_semantics], [php_ir], [php_optimizer] and [php_vm];
    [php_runtime] holds values, strings, arrays and the built-in functions, some
    of which call the byte kernel and the lexer again.  This development models
    the front end up to the syntax tree; of the analysis the names, imports and
    declarations; of the lowering the string literals and the constants that are
    folded; and of the runtime the data that every PHP program works on: strings,
    numeric strings, arrays, values with their conversions, comparisons and
    operators, objects, output buffers and the serialization format.

    ** Files and the code they model

    Foundations:
    - [Prelude]: bytes, the outcome type ([Ret], [Panic], [Timeout]), the state
      monad over it, fuelled loops, the weakest preconditions [wp] by which the
      stateful code is reasoned about, and their tactics and hints.
    - [RustStd]: the methods of [u8], slices and [str] that the code calls.
    - [RustNum]: [i64] with parsing and printing, [f64] as correctly rounded
      binary64 of the Standard Library's [SpecFloat], and the casts between them.
      [RustFloat] has the operators of [f64] with exactness lemmas, [RustText]
      functions of [str] and [char]: trimming, UTF-8 encoding, lossy decoding.

    Source text and lexer:
    - [Simd] and [SimdProofs]: the modules [scalar] and [arch] of
      [php_source/src/byte_kernel.rs]: the SSE2, AVX2 and NEON routines lane by
      lane, and that each computes what the scalar routine computes.
    - [ByteKernel] and [ByteKernelProofs]: the public functions of
      [byte_kernel.rs] and their reference definitions.
    - [Source]: [php_source/src/span.rs], [line_index.rs], [lib.rs].
    - [Token]: [php_lexer/src/token.rs] and the token ids of
      [php_runtime/src/tokenizer.rs].
    - [LexStrings]: [php_lexer/src/strings.rs], [keywords.rs], [modes.rs].
    - [Lexer]: [php_lexer/src/cursor.rs], [diagnostics.rs], [lexer.rs], one
      definition per method; the struct [Lexer] is the record of the same
      fields.
    - [LexerCursor], [LexerSteps], [LexerProofs]: the state invariant
      [lexer_ok], a specification of every method, and the theorems about
      [next_token] and [lex_all].  [LexerTokens] says what the recognisers
      accept, [LexerLines] relates the lexer's lines to the line index,
      [LexerUtf8] shows that tokens of valid UTF-8 end between characters.

    Parser ([php_syntax]):
    - [SyntaxTree]: [syntax_kind.rs], [syntax_node.rs], [event.rs],
      [tree_sink.rs] and the parse diagnostics.
    - [Parser]: [token_source.rs], [core.rs], [marker.rs], [recovery.rs],
      [precedence.rs]: the parser state, its markers and events.
    - [GrammarBase], [GrammarCode], [Grammar]: the files of
      [php_syntax/src/grammar], one Module per file and one definition per
      grammar function; the functions on cycles of the call graph are called
      through the class [Grammar], which [Grammar.grammar] ties together.
    - [ParserLogic]: what every grammar function does to tokens, events and
      markers, as a relation between states; [GrammarProofs] proves it of every
      function; [ParserProofs] draws the conclusions for [parse_source_file];
      [RecoveryLoops] is about the loops: which end, and which never do.

    Runtime ([php_runtime/src]):
    - [PhpString]: [CompactBytes] of [runtime_memory.rs] as blocks of an explicit
      heap (reference count, cached hash, symbol, bytes), [string.rs] with the
      symbol interner, and programs of string operations as a step relation.
    - [NumericString] and [NumericStringProofs]: [numeric_string.rs] with its
      cache, and the grammar of numeric strings.
    - [PhpArray]: the packed, record and mixed storage of [array.rs] with
      cached metadata, append key and internal pointer, one definition per
      operation.  [PhpArrayProofs] has the invariant of a storage and what the
      changes of layout preserve, [PhpArraySpec] the ordered map that an array
      implements and a refinement lemma per operation, [PhpArrayClaims] the
      theorems about sequences of operations, [RecordShapes] the caches of
      record shapes.
    - [FloatText]: [float_to_php_string] of [convert.rs] with its fixed buffer.
    - [Convert] and [ConvertProofs]: the type [Value] of [value.rs] and the
      conversions of [convert.rs].  [Compare], [CompareProofs], [CompareClaims]:
      [identical], [equal] and [compare] of [convert.rs].
    - [NativeOps], [NativeOpsProofs], [NativeOpsClaims]: the operators,
      comparisons, casts and echo of [native_ops.rs] that compiled code calls,
      with their context of failures, over [Compare], [Convert], [PhpArray] and
      [Output].
    - [Output]: [output.rs], the stack of output buffers.
    - [Objects]: [object/storage.rs], [class.rs], [member.rs], [debug.rs],
      [mod.rs] (Module [Obj]), and the moves between the Rust and the native
      representation of properties of [php_vm/src/vm/jit_abi/
      cold_object_materialization.rs].  [ObjectProofs] has the ordered map that
      the storage implements, [ObjectLayouts] the invariant of the layout caches,
      [ObjectClaims] the theorems, [ObjectNative] and [ObjectNativeClaims] the
      native representation.
    - [Serialization]: [serialization.rs], writer and parser.
      [SerializationProofs] has the trees of data that texts carry and the
      writer, [SerializationParse] the parser on printed trees,
      [SerializationClaims] the round trip, [SerializationSafety] the parser on
      any text.
    - [Tokenizer] and [TokenizerClaims]: [tokenizer.rs], [token_get_all] over the
      lexer and, for [TOKEN_PARSE], the parser, as values of the interpreter and
      as published to compiled code.

    Analysis and lowering:
    - [Names]: [php_semantics/src/hir/names.rs] and [symbols/]: qualified names,
      the interner, imports with the reading of [use] declarations from the tree,
      declarations, the resolver.  [NamesProofs], [NamesClaims], [UseClaims].
    - [LiteralText]: [php_ir/src/literal_text.rs], quoted, heredoc and
      interpolated literals.  [LiteralTextProofs], [LiteralScan],
      [LiteralClaims].
    - [IrConst]: the constants of [php_ir/src/lower/mod.rs] with their types of
      [php_ir] and [php_semantics], and [ir_constant_value] of [php_vm].
      [IrConstProofs] compares folding with [NativeOps], [IrConstClaims] is about
      termination, [IrLiterals] about integer literals, [IrDefines] about the
      constants of [define] calls.

    ** How the code is modelled

    A [u8] is a [byte], a slice a list of bytes, a [usize] offset a [nat]; the
    places where machine width matters (the mask arithmetic of the vector
    code, the unchecked subtraction of the SSE2 trim, the 32-bit line number
    of the lexer, 63-bit integer literals, [i64] keys and sums, reference counts,
    hashes and symbol numbers) are written out with their width.  A fallible or
    looping function returns an [outcome]: [Panic] is a Rust panic (slice out of
    range, checked overflow, [expect], a dangling pointer in the heap model) and
    [Timeout] a loop that used up its fuel.  A method with [&mut self] is a
    computation of the state monad over the record of its fields.

    Code that is not part of the repository enters through type classes with
    laws: [Memchr] with the contract [MemchrLaws] of the [memchr] crate, and
    [Allocator], whose law is that a new block is at an unused address.
    Likewise the array model takes its values through [ArrayValue] (which values
    are references, integers or nested) and the classification of string keys
    through [KeyClassifier]; [numeric_classifier] discharges the latter with the
    model of [numeric_string.rs].  The decimal logarithm of the platform is
    [FloatEnv], of which [FloatEnvLaws] assumes a range, the equality of callables
    is [CallableEq], and the codec that the virtual machine encodes values with is
    an argument of [promote] and [demote], of which [native_trip] assumes that
    decoding inverts encoding; the sink of published tokens is [Publisher].  Every
    class has a concrete instance
    ([memchr_naive], [bump_allocator], ...) on which the witnesses run.  The
    choice of vector backend is an argument.

    Shared objects are explicit: string blocks live in a heap with reference
    counts, reference cells and the objects of the conversions in a [Store],
    objects with their layouts and numbers in an [Obj.Heap]; a handle is an
    address, and theorems say which other addresses keep their contents.

    Fuel: a [while] loop of the lexer gets one more than the length of the
    source, which suffices because each round moves the cursor; [lex_all] gets
    two more, since every token but the last has a byte of its own; the chunk
    loops of the byte kernel get the length of their input, those of arrays the
    number of slots.  No theorem assumes that such fuel suffices: that the
    functions return is part of what is stated.  The grammar is different: it
    takes a bound on loop rounds and one on call depth, since some of its loops
    do not end.  [parse_never_panics] holds for all bounds,
    [parse_lossless], [parser_events_balanced] and [parse_spans] say what a
    parse that returns has returned, and [parser_hangs] shows inputs on which no
    bound suffices.  The model was run on the 26 snapshot tests of
    [php_syntax/tests/snapshots] and reproduces every tree and every diagnostic.
    Recursion through data takes a bound on its depth: twice the sizes of both
    values and one for comparisons, the depth limit of the code for
    serialization, the number of declarations times the height of expressions
    for constants, the number of classes for the search of a class constant; the
    interpolation scanner gets the length of the text, the cursor over a [use]
    declaration the number of its elements, the passes over [define] calls one
    more than there are calls.  Where these do not suffice, because the code loops
    ([use_group_hangs], [define_passes]), the theorem says so for every bound.

    Bounds assumed by name: sources of fewer than [2^32] lines, at most [2^32]
    interned names, fewer than [2^64 - 1] string handles, fewer than [2^64]
    record shapes, layouts and objects.

    ** What the theorems show

    - Lexer: [lex_all] returns on every input below the 32-bit line limit, the
      tokens tile the source and spell it out again, carry the right lines, and
      nothing depends on the vector backend.  Words, operators, integer
      literals, comments, inline HTML and quoted strings are recognised as
      specified.
    - Byte kernel: every backend agrees with the scalar code, every search with
      its reference; the SSE2 trim subtracts below zero, which panics in builds
      with overflow checks.
    - Line index: construction and lookup are right for CR, LF and CRLF.
    - Parser: no source makes it panic; the tree spells out the source whatever
      errors were met; events are balanced, spans lie within the source; the
      tree sink inverts the walk over a tree; recovery stops at the first
      boundary; three loops hang at a close tag.
    - Strings: memory safety of every program of string operations, copy on
      write, equality and hashing by content.
    - Numeric strings: the classifier decides the grammar, integer keys are
      exactly the decimal spellings of [i64], the cache is transparent as long
      as fingerprints differ, and they need not.
    - Arrays: every sequence of operations behaves as on an ordered map, in all
      three storages; reads and iteration, metadata, append overflow, shapes.
    - Values: the cast of a double is its truncation modulo [2^64]; loose
      equality is the zero of the loose order; every native operation returns a
      value in range or a diagnostic; integer arithmetic is exact or the double
      that the language prescribes; float texts fit their buffer.
    - Objects: properties are an ordered map; layouts have the same number exactly
      when they have the same shape; no two live objects share a number; a trip
      through the native representation is not visible.
    - Serialization: what is written is read back with the same data and text;
      the parser returns on every text without twenty digits in a row, and a
      length of twenty digits makes it panic.
    - Tokenizer: the tokens tile the source with the right texts, positions,
      lines and numbers; interpreter and compiled code see the same tokens;
      [TOKEN_PARSE] renames the words it should, except the later names of a
      constant declaration.
    - Names: interning and resolution follow the rules of the manual; a misspelt
      group import hangs the analysis.
    - Literals and constants: quoted and interpolated literals are decoded as a
      left-to-right scan specifies; folding agrees with the run time for operators
      and differs in the listed cases; evaluation of constants ends; integer
      literals have the value of their digits; the passes over [define] calls can
      go on for ever.
    - Output: nested buffers are a stack of texts that loses nothing.

    ** Not modelled

    JSON rendering of diagnostics; typed views of the tree; of the analysis the
    lowering to HIR and the checks; of the intermediate representation its
    builder and verifier; the optimizer; the dispatch, inline caches and tiering
    of the virtual machine.  These are large and their correctness rests on a
    semantics of the whole language, which is not written down in the repository.
    Of the runtime: the shared handles of arrays with copy on write, views of
    objects for debugging and comparison in compiled code, streams, sessions and the extension modules.  Tables that the build generates
    ([php_std/src/generated]) carry no logic.  Code generation ([php_jit]) rests on
    a third-party library, the server and the command line tools are input and
    output.  In the parts that are modelled, counters of statistics and errors of
    nested borrows are left out. *)

From Stdlib Require Import Strings.String Strings.Byte.
From stdpp Require Import base list option numbers sets.

(** ** Bytes

    A Rust [u8] is [Init.Byte.byte]; [u8] is its unsigned value.  A byte slice
    or string is a list of bytes, and a [usize] offset into it is a [nat]: the
    length of a Rust slice is below [isize::MAX], so offsets never wrap. *)

Abbreviation byte := Init.Byte.byte.
Abbreviation bytes := (list Init.Byte.byte).

Declare Scope php_scope.
Delimit Scope php_scope with php.
Open Scope php_scope.

Definition u8 (b : byte) : N := Byte.to_N b.

(** The byte-string literal [b"..."] of the source. *)
Definition lit (s : string) : bytes := list_byte_of_string s.
Arguments lit s%_string_scope.

Notation "x =b y" := (Byte.eqb x y) (at level 70, no associativity) : php_scope.

#[export] Instance byte_eq_dec : EqDecision byte := Byte.byte_eq_dec.

(** [o == Some(x)] and [o.is_some_and(p)] on an optional byte. *)
Definition opt_is (o : option byte) (x : byte) : bool :=
  match o with Some y => y =b x | None => false end.

Definition is_some_and {A} (o : option A) (p : A -> bool) : bool :=
  match o with Some y => p y | None => false end.

(** [matches!(o, Some(x1 | x2 | ...))] *)
Definition opt_in (o : option byte) (xs : list byte) : bool :=
  is_some_and o (fun y => existsb (Byte.eqb y) xs).

Lemma u8_bound x : (u8 x < 256)%N.
Proof. by destruct x. Qed.

(** A statement about every byte value, decided by enumeration. *)
Definition all_bytes : list byte :=
  omap (fun n => Byte.of_N (N.of_nat n)) (seq 0 256).

Lemma elem_of_all_bytes x : x ∈ all_bytes.
Proof.
  apply list_elem_of_omap. exists (N.to_nat (u8 x)). split.
  - apply elem_of_seq. pose proof (u8_bound x). lia.
  - rewrite N2Nat.id. apply Byte.of_to_N.
Qed.

Lemma byte_forall (P : byte -> bool) : forallb P all_bytes = true -> forall x, P x = true.
Proof.
  rewrite forallb_forall. intros H x.
  apply H, list_elem_of_In, elem_of_all_bytes.
Qed.

Ltac byte_cases x := revert x; apply byte_forall; vm_compute; reflexivity.

Lemma beq_eq x y : (x =b y) = true <-> x = y.
Proof. split; [apply Byte.byte_dec_bl | apply Byte.byte_dec_lb]. Qed.

Lemma beq_neq x y : (x =b y) = false <-> x <> y.
Proof. rewrite <- not_true_iff_false, beq_eq. done. Qed.

Lemma beq_refl x : (x =b x) = true.
Proof. by apply beq_eq. Qed.

Lemma opt_is_Some o x : opt_is o x = true <-> o = Some x.
Proof.
  destruct o as [y|]; cbn; [rewrite beq_eq | ]; split; congruence.
Qed.

(** ** Outcomes

    Code that can stop early: [Ret] is a value, [Panic] is a Rust panic (an
    index or slice out of range, an arithmetic overflow caught by the overflow
    checks), [Timeout] is a loop that has used up the fuel of the model. *)

Inductive outcome (A : Type) : Type :=
| Ret (a : A)
| Panic
| Timeout.
Arguments Ret {A} a.
Arguments Panic {A}.
Arguments Timeout {A}.

Definition obind {A B} (m : outcome A) (k : A -> outcome B) : outcome B :=
  match m with Ret a => k a | Panic => Panic | Timeout => Timeout end.

Notation "'olet' x := m 'in' k" := (obind m (fun x => k))
  (at level 10, x pattern, m at level 100, k at level 200) : php_scope.

(** [bytes[i]], [&bytes[i..]] and [&bytes[i..j]]. *)
Definition index {A} (l : list A) (i : nat) : outcome A :=
  match l !! i with Some x => Ret x | None => Panic end.

Definition slice_from {A} (l : list A) (i : nat) : outcome (list A) :=
  if i <=? length l then Ret (drop i l) else Panic.

Definition slice {A} (l : list A) (i j : nat) : outcome (list A) :=
  if (i <=? j) && (j <=? length l) then Ret (drop i (take j l)) else Panic.

(** [bytes.get(i..j)] *)
Definition get_range {A} (l : list A) (i j : nat) : option (list A) :=
  if (i <=? j) && (j <=? length l) then Some (drop i (take j l)) else None.

(** [a - b] on [usize] with overflow checks. *)
Definition usize_sub (a c : nat) : outcome nat :=
  if c <=? a then Ret (a - c) else Panic.

(** ** Stateful code

    [SM S A] is a method with [&mut self] on a state [S]. *)

Definition SM (S A : Type) : Type := S -> outcome (A * S).

Section Monad.
Context {S : Type}.

Definition ret {A} (a : A) : SM S A := fun s => Ret (a, s).
Definition bind {A B} (m : SM S A) (k : A -> SM S B) : SM S B :=
  fun s => obind (m s) (fun '(a, s') => k a s').
Definition gets {A} (f : S -> A) : SM S A := fun s => Ret (f s, s).
Definition modify (f : S -> S) : SM S unit := fun s => Ret (tt, f s).
Definition lift {A} (o : outcome A) : SM S A := fun s => obind o (fun a => Ret (a, s)).

(** A [while]/[loop]: the body yields the next loop variables or the value
    the loop leaves with. *)
Fixpoint loop {A R} (fuel : nat) (body : A -> SM S (A + R)) (a : A) : SM S R :=
  match fuel with
  | O => fun _ => Timeout
  | Datatypes.S fuel =>
      bind (body a) (fun r => match r with
                              | inl a' => loop fuel body a'
                              | inr v => ret v
                              end)
  end.

(** Total correctness: [m] run in [s] returns, and its result satisfies [Q]. *)
Definition owp {A} (o : outcome (A * S)) (Q : A -> S -> Prop) : Prop :=
  exists a s', o = Ret (a, s') /\ Q a s'.
Definition wp {A} (m : SM S A) (s : S) (Q : A -> S -> Prop) : Prop := owp (m s) Q.

Lemma owp_run {A} (m : SM S A) s (Q : A -> S -> Prop) : wp m s Q -> owp (m s) Q.
Proof. done. Qed.

Lemma owp_Ret {A} (a : A) s (Q : A -> S -> Prop) : Q a s -> owp (Ret (a, s)) Q.
Proof. intros H. by exists a, s. Qed.

(** Run a computation in the middle of code that has the state at hand. *)
Lemma owp_obind {A B} (m : SM S A) s (k : A * S -> outcome (B * S)) (Q : B -> S -> Prop) :
  wp m s (fun a s' => owp (k (a, s')) Q) -> owp (obind (m s) k) Q.
Proof. intros (a & s' & E & H). by rewrite E. Qed.

Lemma wp_ret {A} (a : A) s (Q : A -> S -> Prop) : Q a s -> wp (ret a) s Q.
Proof. intros H. by exists a, s. Qed.

Lemma wp_bind {A B} (m : SM S A) (k : A -> SM S B) s Q :
  wp m s (fun a s' => wp (k a) s' Q) -> wp (bind m k) s Q.
Proof.
  intros (a & s' & E & c & s'' & E' & HQ). exists c, s''. split; [|done].
  unfold bind. by rewrite E.
Qed.

Lemma wp_gets {A} (f : S -> A) s (Q : A -> S -> Prop) : Q (f s) s -> wp (gets f) s Q.
Proof. intros H. by exists (f s), s. Qed.

Lemma wp_modify f s (Q : unit -> S -> Prop) : Q tt (f s) -> wp (modify f) s Q.
Proof. intros H. by exists tt, (f s). Qed.

Lemma wp_lift {A} (o : outcome A) a s (Q : A -> S -> Prop) :
  o = Ret a -> Q a s -> wp (lift o) s Q.
Proof. intros -> H. by exists a, s. Qed.

Lemma wp_conseq {A} (m : SM S A) s (P Q : A -> S -> Prop) :
  wp m s P -> (forall a s', P a s' -> Q a s') -> wp m s Q.
Proof. intros (a & s' & E & HP) HPQ. exists a, s'. auto. Qed.

(** The rule for loops: an invariant, and a measure that the body decreases
    on every iteration that continues; a measure below the fuel suffices. *)
Lemma wp_loop {A R} (I : A -> S -> Prop) (mu : A -> S -> nat)
    (body : A -> SM S (A + R)) (Q : R -> S -> Prop) fuel a s :
  (forall a s, I a s ->
     wp (body a) s (fun r s' => match r with
                                | inl a' => I a' s' /\ mu a' s' < mu a s
                                | inr v => Q v s'
                                end)) ->
  I a s -> mu a s < fuel -> wp (loop fuel body a) s Q.
Proof.
  intros Hbody. revert a s. induction fuel as [|fuel IH]; intros a s HI Hmu; [lia|].
  cbn. apply wp_bind. eapply wp_conseq; [by apply Hbody|].
  intros [a'|v] s' H; [|by apply wp_ret].
  destruct H as [HI' Hlt]. apply IH; [done | lia].
Qed.
End Monad.
Arguments SM S A : clear implicits.

Notation "'let*' x := m 'in' k" := (bind m (fun x => k))
  (at level 10, x pattern, m at level 100, k at level 200) : php_scope.
Notation "m1 ;;; m2" := (bind m1 (fun _ => m2)) (at level 100, right associativity) : php_scope.
