(* ===== verification/RustStd.v ===== *)
(** * RustStd: the parts of Rust's [core] library the sources use

    The [u8] classification and case methods, slice iterators ([position],
    [rposition], [windows], [starts_with]) and UTF-8 validation, each as an
    executable function, with the lemmas that characterise the searches. *)

From Stdlib Require Import Strings.String Strings.Byte.
From stdpp Require Import base list option numbers sets.
From S2P Require Import Prelude.

(** ** [u8] methods *)

Definition in_range (x : byte) (lo hi : N) : bool := ((lo <=? u8 x) && (u8 x <=? hi))%N.

Definition is_ascii (x : byte) : bool := (u8 x <? 128)%N.
Definition is_ascii_uppercase (x : byte) : bool := in_range x 65 90.
Definition is_ascii_lowercase (x : byte) : bool := in_range x 97 122.
Definition is_ascii_alphabetic (x : byte) : bool := is_ascii_uppercase x || is_ascii_lowercase x.
Definition is_ascii_digit (x : byte) : bool := in_range x 48 57.
Definition is_ascii_hexdigit (x : byte) : bool :=
  is_ascii_digit x || in_range x 65 70 || in_range x 97 102.
(** Space, tab, line feed, form feed and carriage return. *)
Definition is_ascii_whitespace (x : byte) : bool :=
  existsb (Byte.eqb x) [x20; x09; x0a; x0c; x0d].

Definition byte_of_N (n : N) : byte := default x00 (Byte.of_N n).

Definition to_ascii_lowercase (x : byte) : byte :=
  if is_ascii_uppercase x then byte_of_N (u8 x + 32) else x.
Definition to_ascii_uppercase (x : byte) : byte :=
  if is_ascii_lowercase x then byte_of_N (u8 x - 32) else x.

Definition byte_eq_ignore_ascii_case (x y : byte) : bool :=
  to_ascii_lowercase x =b to_ascii_lowercase y.

(** ** Slices *)

Section Slices.
Context {A : Type}.
Implicit Types (p : A -> bool) (l : list A).

(** [iter().position(p)] and [iter().rposition(p)] *)
Fixpoint position p l : option nat :=
  match l with
  | [] => None
  | x :: l => if p x then Some 0 else S <$> position p l
  end.

Fixpoint rposition p l : option nat :=
  match l with
  | [] => None
  | x :: l => match rposition p l with
              | Some i => Some (S i)
              | None => if p x then Some 0 else None
              end
  end.

(** The number of leading elements that satisfy [p]. *)
Fixpoint run_len p l : nat :=
  match l with
  | [] => 0
  | x :: l => if p x then S (run_len p l) else 0
  end.

(** [while l.get(off).is_some_and(p) { off += 1 }] *)
Definition skip_while p l (off : nat) : nat := off + run_len p (drop off l).

(** [windows(w)] for [w > 0] *)
Definition windows (w : nat) l : list (list A) :=
  (fun i => take w (drop i l)) <$> seq 0 (S (length l) - w).

(** [min]/first index of two searches *)
Definition is_first p l i : Prop :=
  (exists x, l !! i = Some x /\ p x = true) /\
  forall j x, j < i -> l !! j = Some x -> p x = false.
Definition is_last p l i : Prop :=
  (exists x, l !! i = Some x /\ p x = true) /\
  forall j x, i < j -> l !! j = Some x -> p x = false.
Definition none_is p l : Prop := Forall (fun x => p x = false) l.

Lemma position_Some p l i : position p l = Some i <-> is_first p l i.
Proof.
  unfold is_first. revert i. induction l as [|x l IH]; intros i; cbn.
  - split; [done|]. by intros [(x & H & _) _].
  - destruct (p x) eqn:Hx.
    + split.
      * intros [= <-]. split; [by exists x | lia].
      * intros [_ H]. destruct i as [|i]; [done|].
        specialize (H 0 x ltac:(lia) eq_refl). congruence.
    + split.
      * intros (k & Hk & ->)%fmap_Some. apply IH in Hk as [Hk1 Hk2].
        split; [done|]. intros [|j] y Hj; cbn; [congruence|].
        apply Hk2. lia.
      * intros [(y & Hy & Hp) Hlt]. destruct i as [|i]; cbn in Hy; [congruence|].
        apply fmap_Some. exists i. split; [|done]. apply IH. split; [eauto|].
        intros j z Hj. apply (Hlt (S j)). lia.
Qed.

Lemma position_None p l : position p l = None <-> none_is p l.
Proof.
  unfold none_is. induction l as [|x l IH]; cbn; [done|].
  rewrite Forall_cons. destruct (p x); [naive_solver|].
  rewrite fmap_None, IH. naive_solver.
Qed.

Lemma rposition_None p l : rposition p l = None <-> none_is p l.
Proof.
  unfold none_is. induction l as [|x l IH]; cbn; [done|].
  rewrite Forall_cons, <- IH. destruct (rposition p l), (p x); naive_solver.
Qed.

Lemma rposition_Some p l i : rposition p l = Some i <-> is_last p l i.
Proof.
  unfold is_last. revert i. induction l as [|x l IH]; intros i; cbn.
  - split; [done|]. by intros [(x & H & _) _].
  - destruct (rposition p l) as [k|] eqn:Hr.
    + destruct (proj1 (IH k) eq_refl) as [(y & Hy & Hp) Hlt]. split.
      * intros [= <-]. split; [eauto|]. intros [|j] z Hj; [lia|]. apply Hlt. lia.
      * intros [(z & Hz & Hpz) Hlt']. f_equal.
        destruct (decide (i < S k)) as [Hi|Hi].
        { specialize (Hlt' (S k) y Hi Hy). congruence. }
        destruct i as [|i]; [lia|]. destruct (decide (i = k)) as [->|]; [done|].
        specialize (Hlt i z ltac:(lia) Hz). congruence.
    + apply rposition_None in Hr. unfold none_is in Hr. rewrite Forall_lookup in Hr.
      destruct (p x) eqn:Hx; split; try done.
      * intros [= <-]. split; [eauto|]. intros [|j] z Hj; [lia|]. apply Hr.
      * intros [(z & Hz & Hpz) _]. destruct i as [|i]; [done|].
        cbn in Hz. specialize (Hr i z Hz). cbn in Hr. congruence.
      * intros [(z & Hz & Hpz) _]. destruct i as [|i]; cbn in Hz; [congruence|].
        specialize (Hr i z Hz). cbn in Hr. congruence.
Qed.

Lemma position_ext p q l : (forall x, p x = q x) -> position p l = position q l.
Proof. intros H. induction l as [|x l IH]; cbn; [done|]. by rewrite H, IH. Qed.

Lemma rposition_ext p q l : (forall x, p x = q x) -> rposition p l = rposition q l.
Proof. intros H. induction l as [|x l IH]; cbn; [done|]. by rewrite H, IH. Qed.

Lemma position_app p l1 l2 :
  position p (l1 ++ l2) =
  match position p l1 with
  | Some i => Some i
  | None => (fun i => length l1 + i) <$> position p l2
  end.
Proof.
  induction l1 as [|x l1 IH]; cbn.
  - by destruct (position p l2).
  - destruct (p x); [done|]. rewrite IH.
    destruct (position p l1); cbn; [done|]. by destruct (position p l2).
Qed.

Lemma rposition_app p l1 l2 :
  rposition p (l1 ++ l2) =
  match rposition p l2 with
  | Some i => Some (length l1 + i)
  | None => rposition p l1
  end.
Proof.
  induction l1 as [|x l1 IH]; cbn.
  - by destruct (rposition p l2).
  - rewrite IH. by destruct (rposition p l2).
Qed.

Lemma position_lt p l i : position p l = Some i -> i < length l.
Proof. intros [(x & Hx & _) _]%position_Some. by eapply lookup_lt_Some. Qed.

Lemma rposition_lt p l i : rposition p l = Some i -> i < length l.
Proof. intros [(x & Hx & _) _]%rposition_Some. by eapply lookup_lt_Some. Qed.

Lemma run_len_le p l : run_len p l <= length l.
Proof. induction l as [|x l IH]; cbn; [done|]. destruct (p x); lia. Qed.

Lemma run_len_position p l : run_len p l = default (length l) (position (fun x => negb (p x)) l).
Proof.
  induction l as [|x l IH]; cbn; [done|]. destruct (p x); cbn; [|done].
  rewrite IH. by destruct (position _ l).
Qed.

Lemma run_len_app p l1 l2 :
  run_len p (l1 ++ l2) =
  if run_len p l1 =? length l1 then length l1 + run_len p l2 else run_len p l1.
Proof.
  induction l1 as [|x l1 IH]; cbn; [done|]. destruct (p x); [|done].
  rewrite IH. cbn. by destruct (run_len p l1 =? length l1).
Qed.

Lemma run_len_all p l i x : i < run_len p l -> l !! i = Some x -> p x = true.
Proof.
  revert i. induction l as [|y l IH]; intros i; cbn; [lia|].
  destruct (p y) eqn:Hy; [|lia]. destruct i as [|i]; cbn; [naive_solver|].
  intros. apply (IH i); [lia | done].
Qed.

Lemma run_len_stop p l x : l !! run_len p l = Some x -> p x = false.
Proof.
  induction l as [|y l IH]; cbn; [done|].
  destruct (p y) eqn:Hy; cbn; [done | naive_solver].
Qed.

(** [is_first] and [is_last] determine their index. *)
Lemma is_first_position p l i : is_first p l i -> position p l = Some i.
Proof. apply position_Some. Qed.
End Slices.

(** [slice.starts_with(needle)] *)
Fixpoint starts_with (l needle : bytes) {struct needle} : bool :=
  match needle, l with
  | [], _ => true
  | x :: needle, y :: l => (y =b x) && starts_with l needle
  | _ :: _, [] => false
  end.

(** [left.eq_ignore_ascii_case(right)] on byte slices *)
Fixpoint eq_ignore_ascii_case (l r : bytes) : bool :=
  match l, r with
  | [], [] => true
  | x :: l, y :: r => byte_eq_ignore_ascii_case x y && eq_ignore_ascii_case l r
  | _, _ => false
  end.

Fixpoint bytes_eqb (l r : bytes) : bool :=
  match l, r with
  | [], [] => true
  | x :: l, y :: r => (x =b y) && bytes_eqb l r
  | _, _ => false
  end.

(** [a > b] on byte slices: lexicographic order *)
Fixpoint bytes_gtb (l r : bytes) : bool :=
  match l, r with
  | [], _ => false
  | _ :: _, [] => true
  | x :: l, y :: r =>
      if (u8 x =? u8 y)%N then bytes_gtb l r else (u8 y <? u8 x)%N
  end.

Lemma bytes_eqb_eq l r : bytes_eqb l r = true <-> l = r.
Proof.
  revert r. induction l as [|x l IH]; intros [|y r]; cbn; try done.
  rewrite andb_true_iff, beq_eq, IH. naive_solver.
Qed.

Lemma starts_with_spec l needle :
  starts_with l needle = true <-> exists rest, l = needle ++ rest.
Proof.
  revert l. induction needle as [|x needle IH]; intros l; cbn.
  - split; [intros _; by exists l | done].
  - destruct l as [|y l]; [naive_solver|].
    rewrite andb_true_iff, beq_eq, IH. naive_solver.
Qed.

Lemma starts_with_length l needle : starts_with l needle = true -> length needle <= length l.
Proof. intros [rest ->]%starts_with_spec. rewrite length_app. lia. Qed.

Lemma eq_ignore_ascii_case_length l r :
  eq_ignore_ascii_case l r = true -> length l = length r.
Proof.
  revert r. induction l as [|x l IH]; intros [|y r]; cbn; try done.
  intros [_ H]%andb_true_iff. by rewrite (IH r).
Qed.

Lemma eq_ignore_ascii_case_map l r :
  eq_ignore_ascii_case l r = bytes_eqb (to_ascii_lowercase <$> l) (to_ascii_lowercase <$> r).
Proof.
  revert r. induction l as [|x l IH]; intros [|y r]; cbn; try done. by rewrite IH.
Qed.

Lemma to_ascii_lowercase_idemp x : to_ascii_lowercase (to_ascii_lowercase x) = to_ascii_lowercase x.
Proof. apply beq_eq. byte_cases x. Qed.

(** ** UTF-8 validation ([core::str::from_utf8])

    The well-formed byte sequences of the Unicode standard: no overlong
    encodings, no surrogates, nothing above U+10FFFF. *)

Definition utf8_cont (x : byte) : bool := in_range x 128 191.

Fixpoint utf8_valid (l : bytes) : bool :=
  match l with
  | [] => true
  | a :: l1 =>
    if (u8 a <? 128)%N then utf8_valid l1 else
    match l1 with
    | [] => false
    | c1 :: l2 =>
      if in_range a 194 223 then utf8_cont c1 && utf8_valid l2 else
      match l2 with
      | [] => false
      | c2 :: l3 =>
        if in_range a 224 239 then
          (if (u8 a =? 224)%N then in_range c1 160 191
           else if (u8 a =? 237)%N then in_range c1 128 159
           else utf8_cont c1) && utf8_cont c2 && utf8_valid l3
        else
        match l3 with
        | [] => false
        | c3 :: l4 =>
          in_range a 240 244 &&
          (if (u8 a =? 240)%N then in_range c1 144 191
           else if (u8 a =? 244)%N then in_range c1 128 143
           else utf8_cont c1) && utf8_cont c2 && utf8_cont c3 && utf8_valid l4
        end
      end
    end
  end.

(** [str::is_char_boundary] *)
Definition is_char_boundary (l : bytes) (i : nat) : bool :=
  if (i =? 0) then true
  else if i <? length l then match l !! i with Some x => negb (utf8_cont x) | None => false end
  else i =? length l.

(** [str::get(i..j)] *)
Definition str_get (l : bytes) (i j : nat) : option bytes :=
  if (i <=? j) && is_char_boundary l i && is_char_boundary l j
  then Some (drop i (take j l)) else None.

(** ASCII text passes [from_utf8]. *)
Lemma utf8_ascii l : forallb is_ascii l = true -> utf8_valid l = true.
Proof.
  induction l as [|x l IH]; [done|]. cbn. unfold is_ascii. intros [-> H]%andb_true_iff. auto.
Qed.
