(* ===== verification/Simd.v ===== *)
(** * Simd: the vector backends of [byte_kernel.rs]

    The [scalar] module, and the [arch] modules for x86_64 (SSE2 and AVX2) and
    aarch64 (NEON) of [crates/php_source/src/byte_kernel.rs].  A vector is the
    list of its byte lanes and an intrinsic works lane by lane; the SSE2 and
    AVX2 routines of the source differ in the number of lanes (16 or 32) and
    share one definition with the lane count [W] as argument. *)

From Stdlib Require Import Strings.String Strings.Byte.
From stdpp Require Import base list option numbers.
From S2P Require Import Prelude RustStd.

(** ** 32-bit masks *)

Definition u32_max : N := 4294967295.

Fixpoint pos_trailing_zeros (m : positive) : nat :=
  match m with xO m => S (pos_trailing_zeros m) | _ => 0 end.
Definition trailing_zeros (m : N) : nat :=
  match m with N0 => 32 | Npos m => pos_trailing_zeros m end.
Definition leading_zeros (m : N) : nat := 32 - N.to_nat (N.size m).
(** [!m] on [u32] *)
Definition u32_not (m : N) : N := N.lxor m u32_max.

(** ** Intrinsics *)

Definition i8 (x : byte) : Z :=
  if (u8 x <? 128)%N then Z.of_N (u8 x) else (Z.of_N (u8 x) - 256)%Z.
Definition lane_mask (c : bool) : byte := if c then xff else x00.
Definition msb (x : byte) : bool := (128 <=? u8 x)%N.
Definition byte_and (x y : byte) : byte := byte_of_N (N.land (u8 x) (u8 y)).
Definition byte_or (x y : byte) : byte := byte_of_N (N.lor (u8 x) (u8 y)).
Definition byte_not (x : byte) : byte := byte_of_N (N.lxor (u8 x) 255).

(** [_mm_set1_epi8], [_mm_cmpeq_epi8], [_mm_cmpgt_epi8] (signed), [_mm_and_si128],
    [_mm_or_si128], [_mm_andnot_si128] and their 256-bit versions. *)
Definition mm_set1 (W : nat) (x : byte) : list byte := replicate W x.
Definition mm_cmpeq (v w : list byte) : list byte := zip_with (fun x y => lane_mask (x =b y)) v w.
Definition mm_cmpgt (v w : list byte) : list byte :=
  zip_with (fun x y => lane_mask (i8 y <? i8 x)%Z) v w.
Definition mm_and (v w : list byte) : list byte := zip_with byte_and v w.
Definition mm_or (v w : list byte) : list byte := zip_with byte_or v w.
Definition mm_andnot (v w : list byte) : list byte :=
  zip_with (fun x y => byte_and (byte_not x) y) v w.
(** [_mm_movemask_epi8]: bit [i] is the top bit of lane [i]. *)
Fixpoint bits_mask (l : list bool) : N :=
  match l with [] => 0 | c :: l => N.b2n c + 2 * bits_mask l end.
Definition mm_movemask (v : list byte) : N := bits_mask (msb <$> v).

(** [vdupq_n_u8], [vceqq_u8], [vcgeq_u8], [vcleq_u8], [vcltq_u8] (unsigned). *)
Definition vdupq (x : byte) : list byte := replicate 16 x.
Definition vceqq (v w : list byte) : list byte := zip_with (fun x y => lane_mask (x =b y)) v w.
Definition vcgeq (v w : list byte) : list byte :=
  zip_with (fun x y => lane_mask (u8 y <=? u8 x)%N) v w.
Definition vcleq (v w : list byte) : list byte :=
  zip_with (fun x y => lane_mask (u8 x <=? u8 y)%N) v w.
Definition vcltq (v w : list byte) : list byte :=
  zip_with (fun x y => lane_mask (u8 x <? u8 y)%N) v w.
Definition vandq (v w : list byte) : list byte := zip_with byte_and v w.
Definition vorrq (v w : list byte) : list byte := zip_with byte_or v w.
Definition vmvnq (v : list byte) : list byte := byte_not <$> v.

(** ** Loops over full chunks

    [while offset + W <= len { ..load.. ; offset += W }] followed by the code
    after the loop, and the loop from the end of [last_not_trim]. *)

Fixpoint chunk_loop {R} (W : nat) (l : bytes) (body : nat -> bytes -> option R)
    (after : nat -> outcome R) (fuel offset : nat) : outcome R :=
  match fuel with
  | O => Timeout
  | S fuel =>
      if offset + W <=? length l then
        match body offset (take W (drop offset l)) with
        | Some r => Ret r
        | None => chunk_loop W l body after fuel (offset + W)
        end
      else after offset
  end.

Fixpoint rchunk_loop {R} (W : nat) (l : bytes) (body : nat -> bytes -> option (outcome R))
    (after : nat -> outcome R) (fuel e : nat) : outcome R :=
  match fuel with
  | O => Timeout
  | S fuel =>
      if W <=? e then
        match body (e - W) (take W (drop (e - W) l)) with
        | Some r => r
        | None => rchunk_loop W l body after fuel (e - W)
        end
      else after e
  end.

Definition loop_fuel (l : bytes) : nat := S (length l).

(** ** Scalar code shared by the backends *)

Definition is_ascii_identifier_start (x : byte) : bool := (x =b x5f) || is_ascii_alphabetic x.
Definition is_ascii_identifier_continue (x : byte) : bool :=
  is_ascii_identifier_start x || is_ascii_digit x.
Definition is_default_trim_byte (x : byte) : bool :=
  existsb (Byte.eqb x) [x20; x09; x0a; x0d; x00; x0b].

Definition find_json_escape_byte_scalar (l : bytes) : option nat :=
  position (fun x => existsb (Byte.eqb x) [x22; x5c; x2f] || (u8 x <? 32)%N || (128 <=? u8 x)%N) l.
Definition find_html_escape_byte_scalar (l : bytes) : option nat :=
  position (fun x => existsb (Byte.eqb x) [x26; x3c; x3e; x22; x27]) l.

Fixpoint identifier_chunk_loop (fuel : nat) (l : bytes) (len : nat) : outcome nat :=
  match fuel with
  | O => Timeout
  | S fuel =>
      if len <? length l then
        olet x := index l len in
        if is_ascii_identifier_continue x then identifier_chunk_loop fuel l (len + 1) else Ret len
      else Ret len
  end.
Definition ascii_identifier_continue_chunk_len_scalar (l : bytes) : outcome nat :=
  identifier_chunk_loop (loop_fuel l) l 0.

Definition ascii_digit_run_len_scalar (l : bytes) : nat :=
  default (length l) (position (fun x => negb (is_ascii_digit x)) l).
Definition find_non_ascii_whitespace_scalar (l : bytes) : option nat :=
  position (fun x => negb (is_ascii_whitespace x)) l.
Definition contains_ascii_lowercase_scalar (l : bytes) : bool := existsb is_ascii_lowercase l.
Definition contains_ascii_uppercase_scalar (l : bytes) : bool := existsb is_ascii_uppercase l.
Definition ascii_uppercase_in_place_scalar (l : bytes) : bytes := to_ascii_uppercase <$> l.
Definition ascii_lowercase_in_place_scalar (l : bytes) : bytes := to_ascii_lowercase <$> l.

Definition trim_default_bounds_scalar (l : bytes) : nat * nat :=
  let start := default (length l) (position (fun x => negb (is_default_trim_byte x)) l) in
  let e := match rposition (fun x => negb (is_default_trim_byte x)) l with
           | Some i => i + 1
           | None => start
           end in
  (start, e).

Definition scalar_tail_escape (l : bytes) (offset : nat) (needles : bytes) (reject : bool)
    : outcome (option nat) :=
  olet rest := slice_from l offset in
  Ret ((fun i => i + offset) <$>
       position (fun x => existsb (Byte.eqb x) needles
                          || (reject && ((u8 x <? 32)%N || (128 <=? u8 x)%N))) rest).

(** ** x86_64 *)

Module X86.
Section X86.
(** 16 lanes for SSE2, 32 for AVX2. *)
Variable W : nat.

(** [0xffff] for SSE2 and [u32::MAX] for AVX2. *)
Definition full_mask : N := N.ones (N.of_nat W).

Definition ascii_range_mask (chunk : bytes) (low high : byte) : bytes :=
  let above_low := mm_cmpgt chunk (mm_set1 W (byte_of_N ((u8 low + 255) mod 256))) in
  let below_high := mm_cmpgt (mm_set1 W (byte_of_N ((u8 high + 1) mod 256))) chunk in
  mm_and above_low below_high.

Definition identifier_mask (chunk : bytes) : bytes :=
  let upper := ascii_range_mask chunk x41 x5a in
  let lower := ascii_range_mask chunk x61 x7a in
  let digit := ascii_range_mask chunk x30 x39 in
  let underscore := mm_cmpeq chunk (mm_set1 W x5f) in
  mm_or (mm_or upper lower) (mm_or digit underscore).

(** The loop [for byte in [...] { mask = or(mask, cmpeq(chunk, byte)) }]. *)
Definition or_cmpeq (chunk : bytes) (mask : bytes) (xs : list byte) : bytes :=
  fold_left (fun mask x => mm_or mask (mm_cmpeq chunk (mm_set1 W x))) xs mask.

Definition default_trim_mask (chunk : bytes) : bytes :=
  or_cmpeq chunk (mm_cmpeq chunk (mm_set1 W x20)) [x09; x0a; x0d; x00; x0b].
Definition ascii_whitespace_mask (chunk : bytes) : bytes :=
  or_cmpeq chunk (mm_cmpeq chunk (mm_set1 W x20)) [x09; x0a; x0c; x0d].

Definition find_escape (l needles : bytes) (reject : bool) : outcome (option nat) :=
  chunk_loop W l
    (fun offset chunk =>
       let mask := fold_left
         (fun mask needle => N.lor mask (mm_movemask (mm_cmpeq chunk (mm_set1 W needle))))
         needles 0%N in
       let mask := if reject
                   then N.lor mask (mm_movemask (mm_cmpgt (mm_set1 W x20) chunk))
                   else mask in
       if (mask =? 0)%N then None else Some (Some (offset + trailing_zeros mask)))
    (fun offset => scalar_tail_escape l offset needles reject)
    (loop_fuel l) 0.

(** [(mask as u32) != full], then [(!mask).trailing_zeros()] *)
Definition first_unset (mask : N) : option nat :=
  if (mask =? full_mask)%N then None else Some (trailing_zeros (u32_not mask)).

Definition ascii_identifier_continue_chunk_len (l : bytes) : outcome nat :=
  chunk_loop W l
    (fun offset chunk => (fun i => offset + i) <$> first_unset (mm_movemask (identifier_mask chunk)))
    (fun offset => olet rest := slice_from l offset in
                   olet n := ascii_identifier_continue_chunk_len_scalar rest in
                   Ret (offset + n))
    (loop_fuel l) 0.

Definition ascii_digit_run_len (l : bytes) : outcome nat :=
  chunk_loop W l
    (fun offset chunk =>
       (fun i => offset + i) <$> first_unset (mm_movemask (ascii_range_mask chunk x30 x39)))
    (fun offset => olet rest := slice_from l offset in
                   Ret (offset + ascii_digit_run_len_scalar rest))
    (loop_fuel l) 0.

Definition find_non_ascii_whitespace (l : bytes) : outcome (option nat) :=
  chunk_loop W l
    (fun offset chunk =>
       (fun i => Some (offset + i)) <$> first_unset (mm_movemask (ascii_whitespace_mask chunk)))
    (fun offset => olet rest := slice_from l offset in
                   Ret ((fun i => offset + i) <$> find_non_ascii_whitespace_scalar rest))
    (loop_fuel l) 0.

Definition contains_ascii_range (l : bytes) (low high : byte) : outcome bool :=
  chunk_loop W l
    (fun _ chunk =>
       if (mm_movemask (ascii_range_mask chunk low high) =? 0)%N then None else Some true)
    (fun offset => olet rest := slice_from l offset in
                   Ret (existsb (fun x => in_range x (u8 low) (u8 high)) rest))
    (loop_fuel l) 0.

(** The chunk [ascii_case_in_place] stores back. *)
Definition case_chunk (chunk : bytes) (low high bit_byte : byte) : bytes :=
  let bit := mm_set1 W bit_byte in
  let mask := ascii_range_mask chunk low high in
  if bit_byte =b x20 then mm_or chunk (mm_and mask bit)
  else
    let unchanged := mm_andnot mask chunk in
    let uppercased := mm_and (mm_and chunk bit) mask in
    mm_or unchanged uppercased.

Fixpoint ascii_case_loop (fuel : nat) (l : bytes) (low high bit_byte : byte) (offset : nat)
    : outcome bytes :=
  match fuel with
  | O => Timeout
  | S fuel =>
      if offset + W <=? length l then
        let changed := case_chunk (take W (drop offset l)) low high bit_byte in
        ascii_case_loop fuel (take offset l ++ changed ++ drop (offset + W) l)
          low high bit_byte (offset + W)
      else
        Ret (take offset l ++
             ((if bit_byte =b x20 then to_ascii_lowercase else to_ascii_uppercase)
                <$> drop offset l))
  end.
Definition ascii_case_in_place (l : bytes) (low high bit_byte : byte) : outcome bytes :=
  ascii_case_loop (loop_fuel l) l low high bit_byte 0.

Definition first_not_trim (l : bytes) : outcome nat :=
  chunk_loop W l
    (fun offset chunk =>
       (fun i => offset + i) <$> first_unset (mm_movemask (default_trim_mask chunk)))
    (fun offset =>
       olet rest := slice_from l offset in
       olet d := usize_sub (length l) offset in
       Ret (offset + default d (position (fun x => negb (is_default_trim_byte x)) rest)))
    (loop_fuel l) 0.

(** [last] gives the lane of the last zero bit of a mask that is not full. *)
Definition last_not_trim (last : N -> outcome nat) (l : bytes) : outcome (option nat) :=
  rchunk_loop W l
    (fun offset chunk =>
       let mask := mm_movemask (default_trim_mask chunk) in
       if (mask =? full_mask)%N then None
       else Some (olet i := last mask in Ret (Some (offset + i))))
    (fun e => olet head := slice l 0 e in
              Ret (rposition (fun x => negb (is_default_trim_byte x)) head))
    (loop_fuel l) (length l).

Definition trim_default_bounds (last : N -> outcome nat) (l : bytes) : outcome (nat * nat) :=
  olet start := first_not_trim l in
  if start =? length l then Ret (start, start)
  else
    olet r := last_not_trim last l in
    Ret (start, match r with Some i => i + 1 | None => start end).
End X86.

(** [31 - inverse.leading_zeros()] of [last_not_trim_avx2] *)
Definition last_lane_avx2 (mask : N) : outcome nat :=
  let inverse := u32_not mask in
  usize_sub 31 (leading_zeros inverse).

(** [15 - inverse.leading_zeros() as usize + 16] of [last_not_trim_sse2]: the
    subtraction comes first.  [checks] says whether the build has overflow
    checks (the dev and test profiles); without them [usize] wraps at 2^64. *)
Definition last_lane_sse2 (checks : bool) (mask : N) : outcome nat :=
  let inverse := N.land (u32_not mask) 65535 in
  let lz := Z.of_nat (leading_zeros inverse) in
  if (lz <=? 15)%Z then Ret (Z.to_nat (15 - lz + 16))
  else if checks then Panic
  else Ret (Z.to_nat (((15 - lz) mod 2 ^ 64 + 16) mod 2 ^ 64)).
End X86.

(** The two instances of each routine in the source. *)
Module Sse2.
Definition find_escape_sse2 := X86.find_escape 16.
Definition find_json_escape_byte_sse2 (l : bytes) := find_escape_sse2 l [x22; x5c; x2f] true.
Definition find_html_escape_byte_sse2 (l : bytes) :=
  find_escape_sse2 l [x26; x3c; x3e; x22; x27] false.
Definition ascii_identifier_continue_chunk_len_sse2 := X86.ascii_identifier_continue_chunk_len 16.
Definition ascii_digit_run_len_sse2 := X86.ascii_digit_run_len 16.
Definition find_non_ascii_whitespace_sse2 := X86.find_non_ascii_whitespace 16.
Definition contains_ascii_range_sse2 := X86.contains_ascii_range 16.
Definition ascii_case_in_place_sse2 := X86.ascii_case_in_place 16.
Definition first_not_trim_sse2 := X86.first_not_trim 16.
Definition last_not_trim_sse2 (checks : bool) := X86.last_not_trim 16 (X86.last_lane_sse2 checks).
Definition trim_default_bounds_sse2 (checks : bool) :=
  X86.trim_default_bounds 16 (X86.last_lane_sse2 checks).
End Sse2.

Module Avx2.
Definition find_escape_avx2 := X86.find_escape 32.
Definition find_json_escape_byte_avx2 (l : bytes) := find_escape_avx2 l [x22; x5c; x2f] true.
Definition find_html_escape_byte_avx2 (l : bytes) :=
  find_escape_avx2 l [x26; x3c; x3e; x22; x27] false.
Definition ascii_identifier_continue_chunk_len_avx2 := X86.ascii_identifier_continue_chunk_len 32.
Definition ascii_digit_run_len_avx2 := X86.ascii_digit_run_len 32.
Definition find_non_ascii_whitespace_avx2 := X86.find_non_ascii_whitespace 32.
Definition contains_ascii_range_avx2 := X86.contains_ascii_range 32.
Definition ascii_case_in_place_avx2 := X86.ascii_case_in_place 32.
Definition first_not_trim_avx2 := X86.first_not_trim 32.
Definition last_not_trim_avx2 := X86.last_not_trim 32 X86.last_lane_avx2.
Definition trim_default_bounds_avx2 := X86.trim_default_bounds 32 X86.last_lane_avx2.
End Avx2.

(** ** aarch64 *)

Module Neon.
Definition first_mask_lane (mask : bytes) : option nat := position (fun x => negb (x =b x00)) mask.

Definition ascii_range_mask_neon (chunk : bytes) (low high : byte) : bytes :=
  vandq (vcgeq chunk (vdupq low)) (vcleq chunk (vdupq high)).
Definition identifier_mask_neon (chunk : bytes) : bytes :=
  let upper := ascii_range_mask_neon chunk x41 x5a in
  let lower := ascii_range_mask_neon chunk x61 x7a in
  let digit := ascii_range_mask_neon chunk x30 x39 in
  let underscore := vceqq chunk (vdupq x5f) in
  vorrq (vorrq upper lower) (vorrq digit underscore).
Definition or_vceqq (chunk mask : bytes) (xs : list byte) : bytes :=
  fold_left (fun mask x => vorrq mask (vceqq chunk (vdupq x))) xs mask.
Definition default_trim_mask_neon (chunk : bytes) : bytes :=
  or_vceqq chunk (vceqq chunk (vdupq x20)) [x09; x0a; x0d; x00; x0b].
Definition ascii_whitespace_mask_neon (chunk : bytes) : bytes :=
  or_vceqq chunk (vceqq chunk (vdupq x20)) [x09; x0a; x0c; x0d].

(** [lanes.iter().position(|lane| *lane == 0)] after [vst1q_u8] *)
Definition first_zero_lane (mask : bytes) : option nat := position (fun x => x =b x00) mask.
Definition last_zero_lane (mask : bytes) : option nat := rposition (fun x => x =b x00) mask.

Definition find_escape_neon (l needles : bytes) (reject : bool) : outcome (option nat) :=
  chunk_loop 16 l
    (fun offset chunk =>
       let mask := or_vceqq chunk (vdupq x00) needles in
       let mask := if reject then
                     vorrq (vorrq mask (vcltq chunk (vdupq x20))) (vcgeq chunk (vdupq x80))
                   else mask in
       (fun i => Some (offset + i)) <$> first_mask_lane mask)
    (fun offset => scalar_tail_escape l offset needles reject)
    (loop_fuel l) 0.

Definition ascii_identifier_continue_chunk_len_neon (l : bytes) : outcome nat :=
  chunk_loop 16 l
    (fun offset chunk => (fun i => offset + i) <$> first_zero_lane (identifier_mask_neon chunk))
    (fun offset => olet rest := slice_from l offset in
                   olet n := ascii_identifier_continue_chunk_len_scalar rest in
                   Ret (offset + n))
    (loop_fuel l) 0.

Definition ascii_digit_run_len_neon (l : bytes) : outcome nat :=
  chunk_loop 16 l
    (fun offset chunk =>
       (fun i => offset + i) <$> first_zero_lane (ascii_range_mask_neon chunk x30 x39))
    (fun offset => olet rest := slice_from l offset in
                   Ret (offset + ascii_digit_run_len_scalar rest))
    (loop_fuel l) 0.

Definition find_non_ascii_whitespace_neon (l : bytes) : outcome (option nat) :=
  chunk_loop 16 l
    (fun offset chunk =>
       (fun i => Some (offset + i)) <$> first_zero_lane (ascii_whitespace_mask_neon chunk))
    (fun offset => olet rest := slice_from l offset in
                   Ret ((fun i => offset + i) <$> find_non_ascii_whitespace_scalar rest))
    (loop_fuel l) 0.

Definition contains_ascii_range_neon (l : bytes) (low high : byte) : outcome bool :=
  chunk_loop 16 l
    (fun _ chunk => match first_mask_lane (ascii_range_mask_neon chunk low high) with
                    | Some _ => Some true
                    | None => None
                    end)
    (fun offset => olet rest := slice_from l offset in
                   Ret (existsb (fun x => in_range x (u8 low) (u8 high)) rest))
    (loop_fuel l) 0.

Definition case_chunk_neon (chunk : bytes) (low high bit : byte) : bytes :=
  let mask := ascii_range_mask_neon chunk low high in
  if bit =b x20 then vorrq chunk (vandq mask (vdupq bit))
  else
    let unchanged := vandq chunk (vmvnq mask) in
    let uppercased := vandq (vandq chunk (vdupq bit)) mask in
    vorrq unchanged uppercased.

Fixpoint ascii_case_loop_neon (fuel : nat) (l : bytes) (low high bit : byte) (offset : nat)
    : outcome bytes :=
  match fuel with
  | O => Timeout
  | S fuel =>
      if offset + 16 <=? length l then
        let changed := case_chunk_neon (take 16 (drop offset l)) low high bit in
        ascii_case_loop_neon fuel (take offset l ++ changed ++ drop (offset + 16) l)
          low high bit (offset + 16)
      else
        Ret (take offset l ++
             ((if bit =b x20 then to_ascii_lowercase else to_ascii_uppercase) <$> drop offset l))
  end.
Definition ascii_case_in_place_neon (l : bytes) (low high bit : byte) : outcome bytes :=
  ascii_case_loop_neon (loop_fuel l) l low high bit 0.

Definition first_not_trim_neon (l : bytes) : outcome nat :=
  chunk_loop 16 l
    (fun offset chunk => (fun i => offset + i) <$> first_zero_lane (default_trim_mask_neon chunk))
    (fun offset =>
       olet rest := slice_from l offset in
       olet d := usize_sub (length l) offset in
       Ret (offset + default d (position (fun x => negb (is_default_trim_byte x)) rest)))
    (loop_fuel l) 0.

Definition last_not_trim_neon (l : bytes) : outcome (option nat) :=
  rchunk_loop 16 l
    (fun offset chunk =>
       match last_zero_lane (default_trim_mask_neon chunk) with
       | Some i => Some (Ret (Some (offset + i)))
       | None => None
       end)
    (fun e => olet head := slice l 0 e in
              Ret (rposition (fun x => negb (is_default_trim_byte x)) head))
    (loop_fuel l) (length l).

Definition trim_default_bounds_neon (l : bytes) : outcome (nat * nat) :=
  olet start := first_not_trim_neon l in
  if start =? length l then Ret (start, start)
  else
    olet r := last_not_trim_neon l in
    Ret (start, match r with Some i => i + 1 | None => start end).
End Neon.

(** ** Dispatch

    The backend is chosen by the target architecture and, on x86_64, by
    [is_x86_feature_detected!("avx2")]; [checks] is the overflow-check setting
    of the build. *)

Inductive backend :=
| BScalar
| BSse2 (checks : bool)
| BAvx2
| BNeon.

Module Arch.
Definition active_backend_name (bk : backend) : bytes :=
  match bk with
  | BScalar => lit "scalar"
  | BSse2 _ => lit "amd64-sse2"
  | BAvx2 => lit "amd64-avx2"
  | BNeon => lit "arm64-neon"
  end.

Definition find_json_escape_byte (bk : backend) (l : bytes) : outcome (option nat) :=
  match bk with
  | BScalar => Ret (find_json_escape_byte_scalar l)
  | BSse2 _ => Sse2.find_json_escape_byte_sse2 l
  | BAvx2 => Avx2.find_json_escape_byte_avx2 l
  | BNeon => Neon.find_escape_neon l [x22; x5c; x2f] true
  end.

Definition find_html_escape_byte (bk : backend) (l : bytes) : outcome (option nat) :=
  match bk with
  | BScalar => Ret (find_html_escape_byte_scalar l)
  | BSse2 _ => Sse2.find_html_escape_byte_sse2 l
  | BAvx2 => Avx2.find_html_escape_byte_avx2 l
  | BNeon => Neon.find_escape_neon l [x26; x3c; x3e; x22; x27] false
  end.

Definition ascii_identifier_continue_chunk_len (bk : backend) (l : bytes) : outcome nat :=
  match bk with
  | BScalar => ascii_identifier_continue_chunk_len_scalar l
  | BSse2 _ => Sse2.ascii_identifier_continue_chunk_len_sse2 l
  | BAvx2 => Avx2.ascii_identifier_continue_chunk_len_avx2 l
  | BNeon => Neon.ascii_identifier_continue_chunk_len_neon l
  end.

Definition ascii_digit_run_len (bk : backend) (l : bytes) : outcome nat :=
  match bk with
  | BScalar => Ret (ascii_digit_run_len_scalar l)
  | BSse2 _ => Sse2.ascii_digit_run_len_sse2 l
  | BAvx2 => Avx2.ascii_digit_run_len_avx2 l
  | BNeon => Neon.ascii_digit_run_len_neon l
  end.

Definition find_non_ascii_whitespace (bk : backend) (l : bytes) : outcome (option nat) :=
  match bk with
  | BScalar => Ret (find_non_ascii_whitespace_scalar l)
  | BSse2 _ => Sse2.find_non_ascii_whitespace_sse2 l
  | BAvx2 => Avx2.find_non_ascii_whitespace_avx2 l
  | BNeon => Neon.find_non_ascii_whitespace_neon l
  end.

Definition contains_ascii_lowercase (bk : backend) (l : bytes) : outcome bool :=
  match bk with
  | BScalar => Ret (contains_ascii_lowercase_scalar l)
  | BSse2 _ => Sse2.contains_ascii_range_sse2 l x61 x7a
  | BAvx2 => Avx2.contains_ascii_range_avx2 l x61 x7a
  | BNeon => Neon.contains_ascii_range_neon l x61 x7a
  end.

Definition contains_ascii_uppercase (bk : backend) (l : bytes) : outcome bool :=
  match bk with
  | BScalar => Ret (contains_ascii_uppercase_scalar l)
  | BSse2 _ => Sse2.contains_ascii_range_sse2 l x41 x5a
  | BAvx2 => Avx2.contains_ascii_range_avx2 l x41 x5a
  | BNeon => Neon.contains_ascii_range_neon l x41 x5a
  end.

Definition ascii_uppercase_in_place (bk : backend) (l : bytes) : outcome bytes :=
  match bk with
  | BScalar => Ret (ascii_uppercase_in_place_scalar l)
  | BSse2 _ => Sse2.ascii_case_in_place_sse2 l x61 x7a xdf
  | BAvx2 => Avx2.ascii_case_in_place_avx2 l x61 x7a xdf
  | BNeon => Neon.ascii_case_in_place_neon l x61 x7a xdf
  end.

Definition ascii_lowercase_in_place (bk : backend) (l : bytes) : outcome bytes :=
  match bk with
  | BScalar => Ret (ascii_lowercase_in_place_scalar l)
  | BSse2 _ => Sse2.ascii_case_in_place_sse2 l x41 x5a x20
  | BAvx2 => Avx2.ascii_case_in_place_avx2 l x41 x5a x20
  | BNeon => Neon.ascii_case_in_place_neon l x41 x5a x20
  end.

Definition trim_default_bounds (bk : backend) (l : bytes) : outcome (nat * nat) :=
  match bk with
  | BScalar => Ret (trim_default_bounds_scalar l)
  | BSse2 checks => Sse2.trim_default_bounds_sse2 checks l
  | BAvx2 => Avx2.trim_default_bounds_avx2 l
  | BNeon => Neon.trim_default_bounds_neon l
  end.
End Arch.
