(* ===== verification/SimdProofs.v ===== *)
(** * SimdProofs: every vector backend computes what the scalar code computes *)

From Stdlib Require Import Strings.Byte.
From stdpp Require Import base list option numbers.
From S2P Require Import Prelude RustStd Simd.

(** ** Bit masks *)

Lemma bits_mask_cons c l : bits_mask (c :: l) = (N.b2n c + 2 * bits_mask l)%N.
Proof. done. Qed.

Lemma bits_mask_zero l : bits_mask l = 0%N <-> position id l = None.
Proof.
  induction l as [|[] l IH]; cbn [bits_mask position id N.b2n]; [done| |].
  - split; [lia | done].
  - rewrite fmap_None, <- IH. lia.
Qed.

Lemma trailing_zeros_double m : (m <> 0)%N -> trailing_zeros (2 * m) = S (trailing_zeros m).
Proof. by destruct m. Qed.

Lemma trailing_zeros_mask l i : position id l = Some i -> trailing_zeros (bits_mask l) = i.
Proof.
  revert i. induction l as [|[] l IH]; intros i; cbn [bits_mask position id N.b2n]; [done| |].
  - intros [= <-]. by destruct (bits_mask l).
  - intros (k & Hk & ->)%fmap_Some. rewrite N.add_0_l, trailing_zeros_double.
    + by rewrite (IH k).
    + rewrite bits_mask_zero. congruence.
Qed.

Lemma testbit_bits_mask l n : N.testbit (bits_mask l) n = default false (l !! N.to_nat n).
Proof.
  revert n. induction l as [|c l IH]; intros n; [by destruct n|].
  rewrite bits_mask_cons, N.add_comm. destruct (decide (n = 0%N)) as [->|Hn].
  - by rewrite N.testbit_0_r.
  - rewrite <- (N.succ_pred n Hn), N.testbit_succ_r, IH by lia.
    by rewrite N2Nat.inj_succ.
Qed.

Lemma lor_bits_mask l1 l2 :
  length l1 = length l2 ->
  N.lor (bits_mask l1) (bits_mask l2) = bits_mask (zip_with orb l1 l2).
Proof.
  intros Hl. apply N.bits_inj. intros n.
  rewrite N.lor_spec, !testbit_bits_mask, lookup_zip_with.
  destruct (l1 !! N.to_nat n) eqn:E1, (l2 !! N.to_nat n) eqn:E2; try done; exfalso.
  - apply lookup_lt_Some in E1. apply lookup_ge_None in E2. lia.
  - apply lookup_lt_Some in E2. apply lookup_ge_None in E1. lia.
Qed.

Lemma bits_mask_full l :
  bits_mask l = N.ones (N.of_nat (length l)) <-> position negb l = None.
Proof.
  induction l as [|c l IH]; [done|].
  rewrite bits_mask_cons. cbn [length position].
  rewrite Nat2N.inj_succ, N.ones_succ.
  destruct c; cbn [negb N.b2n].
  - rewrite fmap_None, <- IH. lia.
  - split; [lia | done].
Qed.

Lemma bits_mask_pad l n : bits_mask (l ++ replicate n false) = bits_mask l.
Proof.
  induction l as [|c l IH]; cbn [app].
  - induction n as [|n IHn]; [done|]. cbn [replicate]. rewrite bits_mask_cons, IHn. done.
  - by rewrite !bits_mask_cons, IH.
Qed.

Lemma lxor_ones_mask l :
  N.lxor (bits_mask l) (N.ones (N.of_nat (length l))) = bits_mask (negb <$> l).
Proof.
  apply N.bits_inj. intros n.
  rewrite N.lxor_spec, !testbit_bits_mask, list_lookup_fmap.
  destruct (l !! N.to_nat n) as [c|] eqn:E; cbn.
  - apply lookup_lt_Some in E. rewrite N.ones_spec_low by lia. by destruct c.
  - apply lookup_ge_None in E. by rewrite N.ones_spec_high by lia.
Qed.

Lemma u32_not_mask l :
  length l <= 32 ->
  u32_not (bits_mask l) = bits_mask (negb <$> (l ++ replicate (32 - length l) false)).
Proof.
  intros Hl. unfold u32_not. rewrite <- lxor_ones_mask, bits_mask_pad.
  rewrite length_app, length_replicate. by replace (length l + (32 - length l)) with 32 by lia.
Qed.

Lemma size_bits_mask l :
  N.to_nat (N.size (bits_mask l)) = match rposition id l with Some i => S i | None => 0 end.
Proof.
  induction l as [|c l IH]; [done|].
  rewrite bits_mask_cons. cbn [rposition id].
  destruct (bits_mask l) as [|m] eqn:Hm.
  - assert (rposition id l = None) as -> by (destruct (rposition id l); cbn in IH; [lia | done]).
    by destruct c.
  - assert (exists i, rposition id l = Some i) as [i Hi]
      by (destruct (rposition id l); [eauto | cbn in IH; lia]).
    rewrite Hi in IH |- *.
    replace (N.b2n c + 2 * N.pos m)%N with (N.pos (if c then m~1 else m~0)) by (by destruct c).
    destruct c; cbn [N.size N.to_nat Pos.size] in *; lia.
Qed.

(** ** The masks the searches test *)

Section Masks.
Implicit Type l : list bool.

Lemma position_negb_pad l n i :
  position negb l = Some i -> position negb (l ++ replicate n false) = Some i.
Proof. intros H. by rewrite position_app, H. Qed.

Lemma position_fmap {A B} (f : A -> B) p (l : list A) :
  position p (f <$> l) = position (fun x => p (f x)) l.
Proof. induction l as [|x l IH]; cbn; [done|]. by rewrite IH. Qed.

Lemma rposition_fmap {A B} (f : A -> B) p (l : list A) :
  rposition p (f <$> l) = rposition (fun x => p (f x)) l.
Proof. induction l as [|x l IH]; cbn; [done|]. by rewrite IH. Qed.

Lemma first_unset_spec W l :
  length l = W -> W <= 32 -> X86.first_unset W (bits_mask l) = position negb l.
Proof.
  intros <- Hl. unfold X86.first_unset, X86.full_mask.
  destruct (N.eqb_spec (bits_mask l) (N.ones (N.of_nat (length l)))) as [E|E];
    rewrite bits_mask_full in E; [done|].
  destruct (position negb l) as [i|] eqn:Hp; [|done]. f_equal.
  rewrite u32_not_mask by done. apply trailing_zeros_mask.
  rewrite position_fmap. by apply position_negb_pad.
Qed.

(** The last zero bit of a 32-lane mask, and of a 16-lane mask. *)
Lemma last_lane_avx2_spec l i :
  length l = 32 -> rposition negb l = Some i -> X86.last_lane_avx2 (bits_mask l) = Ret i.
Proof.
  intros Hl Hi. unfold X86.last_lane_avx2, leading_zeros, usize_sub.
  rewrite u32_not_mask, size_bits_mask, rposition_fmap by lia.
  rewrite Hl. cbn [replicate Nat.sub]. rewrite app_nil_r.
  rewrite (rposition_ext _ negb) by done. rewrite Hi.
  apply rposition_lt in Hi. destruct (Nat.leb_spec (32 - S i) 31); [|lia]. f_equal. lia.
Qed.

Lemma last_lane_sse2_inverse l :
  length l = 16 -> N.land (u32_not (bits_mask l)) 65535 = bits_mask (negb <$> l).
Proof.
  intros Hl. rewrite u32_not_mask by lia. apply N.bits_inj. intros n.
  change 65535%N with (N.ones 16).
  rewrite N.land_spec, !testbit_bits_mask, fmap_app, lookup_app.
  rewrite !list_lookup_fmap. destruct (l !! N.to_nat n) as [c|] eqn:E; cbn.
  - apply lookup_lt_Some in E. rewrite N.ones_spec_low by lia. by rewrite andb_true_r.
  - apply lookup_ge_None in E. rewrite N.ones_spec_high by lia. by rewrite andb_false_r.
Qed.

Lemma last_lane_sse2_spec checks l i :
  length l = 16 -> rposition negb l = Some i ->
  X86.last_lane_sse2 checks (bits_mask l) = if checks then Panic else Ret i.
Proof.
  intros Hl Hi. unfold X86.last_lane_sse2, leading_zeros.
  rewrite last_lane_sse2_inverse, size_bits_mask, rposition_fmap by done.
  rewrite (rposition_ext _ negb) by done. rewrite Hi.
  apply rposition_lt in Hi. destruct (Z.leb_spec (Z.of_nat (32 - S i)) 15); [lia|].
  destruct checks; [done|]. f_equal.
  replace (15 - Z.of_nat (32 - S i))%Z with (Z.of_nat i - 16)%Z by lia.
  rewrite <- (Z_mod_plus_full (Z.of_nat i - 16) 1 (2 ^ 64)).
  rewrite (Z.mod_small (Z.of_nat i - 16 + 1 * 2 ^ 64)) by lia.
  replace (Z.of_nat i - 16 + 1 * 2 ^ 64 + 16)%Z with (Z.of_nat i + 1 * 2 ^ 64)%Z by lia.
  rewrite Z_mod_plus_full, Z.mod_small by lia. lia.
Qed.
End Masks.

(** ** Loops over chunks *)

Lemma chunk_loop_search {R} W l body after p (found : nat -> R) (notfound : R) :
  0 < W ->
  (forall off chunk, length chunk = W -> body off chunk = (fun i => found (off + i)) <$> position p chunk) ->
  (forall off, off <= length l ->
     after off = Ret (match position p (drop off l) with
                      | Some i => found (off + i)
                      | None => notfound
                      end)) ->
  chunk_loop W l body after (loop_fuel l) 0 =
  Ret (match position p l with Some i => found i | None => notfound end).
Proof.
  intros HW Hbody Hafter.
  enough (H : forall fuel off, off <= length l -> length l - off < fuel ->
    chunk_loop W l body after fuel off =
    Ret (match position p (drop off l) with Some i => found (off + i) | None => notfound end)).
  { rewrite H by (unfold loop_fuel; lia). done. }
  induction fuel as [|fuel IH]; intros off Hoff Hfuel; [lia|]. cbn.
  destruct (Nat.leb_spec (off + W) (length l)) as [Hle|Hgt]; [|by apply Hafter].
  rewrite Hbody by (rewrite length_take, length_drop; lia).
  rewrite <- (take_drop W (drop off l)) at 2. rewrite position_app.
  destruct (position p (take W (drop off l))) as [i|]; cbn; [done|].
  rewrite IH by lia. rewrite drop_drop, length_take, length_drop, Nat.min_l by lia.
  destruct (position p (drop (off + W) l)) as [i|]; cbn; [|done].
  by rewrite Nat.add_assoc.
Qed.

Lemma rchunk_loop_search W l body p last :
  0 < W ->
  (forall off chunk, length chunk = W ->
     body off chunk = (fun i => olet j := last i in Ret (Some (off + j))) <$> rposition p chunk) ->
  forall fuel e, e <= length l -> e < fuel ->
  rchunk_loop W l body
    (fun e => olet head := slice l 0 e in Ret (rposition p head)) fuel e =
  match rposition p (take e l) with
  | Some i => if e mod W <=? i
              then olet j := last ((i - e mod W) mod W) in Ret (Some (i - (i - e mod W) mod W + j))
              else Ret (Some i)
  | None => Ret None
  end.
Proof.
  intros HW Hbody. induction fuel as [|fuel IH]; intros e He Hfuel; [lia|]. cbn.
  destruct (Nat.leb_spec W e) as [Hle|Hgt].
  - rewrite Hbody by (rewrite length_take, length_drop; lia).
    assert (Hsplit : take e l = take (e - W) l ++ take W (drop (e - W) l)).
    { rewrite take_drop_commute. replace (e - W + W) with e by lia.
      rewrite <- (take_drop (e - W) (take e l)) at 1. by rewrite take_take, Nat.min_l by lia. }
    rewrite Hsplit, rposition_app.
    destruct (rposition p (take W (drop (e - W) l))) as [i|] eqn:Hi; cbn.
    + apply rposition_lt in Hi. rewrite !length_take, length_drop in Hi.
      rewrite length_take, Nat.min_l by lia.
      assert (Hm : (e - W + i - e mod W) mod W = i).
      { rewrite (Nat.div_mod_eq e W) at 1.
        assert (1 <= e / W) by (apply Nat.div_le_lower_bound; lia).
        replace (W * (e / W) + e mod W - W + i - e mod W) with (i + (e / W - 1) * W) by nia.
        rewrite Nat.Div0.mod_add. apply Nat.mod_small. lia. }
      assert (e mod W <= e - W).
      { rewrite (Nat.div_mod_eq e W) at 2.
        assert (1 <= e / W) by (apply Nat.div_le_lower_bound; lia). nia. }
      destruct (Nat.leb_spec (e mod W) (e - W + i)); [|lia]. rewrite Hm.
      destruct (last i); cbn; try done. f_equal. f_equal. lia.
    + rewrite IH by lia.
      replace ((e - W) mod W) with (e mod W); [done|].
      replace e with (e - W + 1 * W) at 1 by lia. apply Nat.Div0.mod_add.
  - unfold slice. cbn. destruct (Nat.leb_spec e (length l)); [|lia]. cbn. rewrite drop_0.
    destruct (rposition p (take e l)) as [i|] eqn:Hi; [|done].
    apply rposition_lt in Hi. rewrite length_take in Hi. rewrite Nat.mod_small by lia.
    destruct (Nat.leb_spec e i); [lia | done].
Qed.

(** ** Lanes: an intrinsic on lanewise images of one chunk is a lanewise image *)

Section Lanes.
Context (W : nat) (l : bytes) (HW : length l = W).

Lemma zip_set1_r (f : byte -> byte -> byte) x :
  zip_with f l (mm_set1 W x) = (fun y => f y x) <$> l.
Proof. unfold mm_set1. rewrite <- HW. apply zip_with_replicate_r_eq. done. Qed.

Lemma zip_set1_l (f : byte -> byte -> byte) x :
  zip_with f (mm_set1 W x) l = (fun y => f x y) <$> l.
Proof.
  unfold mm_set1. rewrite <- HW. clear HW. induction l as [|y l' IH]; cbn; [done|]. by rewrite IH.
Qed.
End Lanes.

Lemma zip_with_fmap2 {A B C D} (h : B -> C -> D) (f : A -> B) (g : A -> C) (l : list A) :
  zip_with h (f <$> l) (g <$> l) = (fun x => h (f x) (g x)) <$> l.
Proof. induction l as [|x l IH]; cbn; [done|]. by rewrite IH. Qed.

Lemma zip_with_fmap_id_l {A B D} (h : A -> B -> D) (g : A -> B) (l : list A) :
  zip_with h l (g <$> l) = (fun x => h x (g x)) <$> l.
Proof. induction l as [|x l IH]; cbn; [done|]. by rewrite IH. Qed.

Lemma zip_with_fmap_id_r {A B D} (h : B -> A -> D) (g : A -> B) (l : list A) :
  zip_with h (g <$> l) l = (fun x => h (g x) x) <$> l.
Proof. induction l as [|x l IH]; cbn; [done|]. by rewrite IH. Qed.

Lemma zip_fmap_set1 {A} W (h : byte -> byte -> byte) (f : A -> byte) x (l : list A) :
  length l = W -> zip_with h (f <$> l) (mm_set1 W x) = (fun y => h (f y) x) <$> l.
Proof.
  intros <-. unfold mm_set1. rewrite zip_with_replicate_r_eq by apply length_fmap.
  by rewrite <- list_fmap_compose.
Qed.

Lemma movemask_fmap f (l : bytes) : mm_movemask (f <$> l) = bits_mask ((fun x => msb (f x)) <$> l).
Proof. unfold mm_movemask. by rewrite <- list_fmap_compose. Qed.

(** Push every intrinsic of the goal to one lanewise map over the chunk. *)
Ltac lanes HW :=
  unfold mm_cmpeq, mm_cmpgt, mm_and, mm_or, mm_andnot,
    vceqq, vcgeq, vcleq, vcltq, vandq, vorrq, vmvnq;
  change vdupq with (mm_set1 16);
  repeat first
    [ rewrite (zip_set1_r _ _ HW) | rewrite (zip_set1_l _ _ HW)
    | rewrite zip_with_fmap2 | rewrite zip_with_fmap_id_l | rewrite zip_with_fmap_id_r
    | rewrite (zip_fmap_set1 _ _ _ _ _ HW)
    | rewrite movemask_fmap | rewrite <- list_fmap_compose ].

Lemma msb_lane_mask c : msb (lane_mask c) = c.
Proof. by destruct c. Qed.

Ltac by_bytes := let x := fresh "x" in intros x; apply eqb_prop; byte_cases x.

Section X86Masks.
Context (W : nat) (HW32 : W <= 32).
Implicit Types chunk : bytes.

Lemma first_unset_map f chunk :
  length chunk = W ->
  X86.first_unset W (mm_movemask (f <$> chunk)) = position (fun x => negb (msb (f x))) chunk.
Proof.
  intros Hc. rewrite movemask_fmap, first_unset_spec, position_fmap; [done| |done].
  by rewrite length_fmap.
Qed.

Lemma identifier_mask_first chunk :
  length chunk = W ->
  X86.first_unset W (mm_movemask (X86.identifier_mask W chunk)) =
  position (fun x => negb (is_ascii_identifier_continue x)) chunk.
Proof.
  intros Hc. unfold X86.identifier_mask, X86.ascii_range_mask. lanes Hc.
  rewrite <- movemask_fmap, first_unset_map by done. apply position_ext. by_bytes.
Qed.

Lemma digit_mask_first chunk :
  length chunk = W ->
  X86.first_unset W (mm_movemask (X86.ascii_range_mask W chunk x30 x39)) =
  position (fun x => negb (is_ascii_digit x)) chunk.
Proof.
  intros Hc. unfold X86.ascii_range_mask. lanes Hc.
  rewrite <- movemask_fmap, first_unset_map by done. apply position_ext. by_bytes.
Qed.

Lemma whitespace_mask_first chunk :
  length chunk = W ->
  X86.first_unset W (mm_movemask (X86.ascii_whitespace_mask W chunk)) =
  position (fun x => negb (is_ascii_whitespace x)) chunk.
Proof.
  intros Hc. unfold X86.ascii_whitespace_mask, X86.or_cmpeq. cbn [fold_left]. lanes Hc.
  rewrite <- movemask_fmap, first_unset_map by done. apply position_ext. by_bytes.
Qed.

Lemma trim_mask_lanes chunk :
  length chunk = W ->
  mm_movemask (X86.default_trim_mask W chunk) = bits_mask (is_default_trim_byte <$> chunk).
Proof.
  intros Hc. unfold X86.default_trim_mask, X86.or_cmpeq. cbn [fold_left]. lanes Hc.
  f_equal. apply list_fmap_ext. intros _ x _. revert x. by_bytes.
Qed.
End X86Masks.

(** ** The scalar identifier loop *)

Lemma identifier_chunk_loop_spec l fuel len :
  len <= length l -> length l - len < fuel ->
  identifier_chunk_loop fuel l len =
  Ret (len + run_len is_ascii_identifier_continue (drop len l)).
Proof.
  revert len. induction fuel as [|fuel IH]; intros len Hlen Hfuel; [lia|].
  cbn [identifier_chunk_loop]. destruct (Nat.ltb_spec len (length l)) as [Hlt|Hge].
  - destruct (lookup_lt_is_Some_2 l len Hlt) as [x Hx].
    rewrite (drop_S _ _ _ Hx). unfold index. rewrite Hx. cbn.
    cbn [run_len]. destruct (is_ascii_identifier_continue x); [|by rewrite Nat.add_0_r].
    rewrite IH by lia. rewrite Nat.add_1_r. f_equal. lia.
  - rewrite drop_ge by lia. cbn. by rewrite Nat.add_0_r.
Qed.

Lemma identifier_chunk_len_scalar_spec l :
  ascii_identifier_continue_chunk_len_scalar l = Ret (run_len is_ascii_identifier_continue l).
Proof.
  unfold ascii_identifier_continue_chunk_len_scalar.
  rewrite identifier_chunk_loop_spec; unfold loop_fuel; [by rewrite drop_0 | lia | lia].
Qed.

Lemma slice_from_ok {A} (l : list A) off : off <= length l -> slice_from l off = Ret (drop off l).
Proof. intros H. unfold slice_from. by destruct (Nat.leb_spec off (length l)); [|lia]. Qed.

Lemma run_len_match p (l : bytes) :
  run_len p l = match position (fun x => negb (p x)) l with Some i => i | None => length l end.
Proof. rewrite run_len_position. by destruct (position _ l). Qed.

(** A search for the end of a run, and a search for an index. *)
Lemma chunk_loop_run W l body after p :
  0 < W ->
  (forall off chunk, length chunk = W ->
     body off chunk = (fun i => off + i) <$> position (fun x => negb (p x)) chunk) ->
  (forall off, off <= length l -> after off = Ret (off + run_len p (drop off l))) ->
  chunk_loop W l body after (loop_fuel l) 0 = Ret (run_len p l).
Proof.
  intros HW Hb Ha. rewrite run_len_match.
  apply (chunk_loop_search W l body after (fun x => negb (p x)) (fun i => i) (length l)); [done| |].
  - intros off chunk Hc. by rewrite Hb.
  - intros off Hoff. rewrite Ha, run_len_match by done. f_equal.
    destruct (position _ (drop off l)); [done|]. rewrite length_drop. lia.
Qed.

Lemma chunk_loop_find W l body after p :
  0 < W ->
  (forall off chunk, length chunk = W -> body off chunk = (fun i => Some (off + i)) <$> position p chunk) ->
  (forall off, off <= length l -> after off = Ret ((fun i => off + i) <$> position p (drop off l))) ->
  chunk_loop W l body after (loop_fuel l) 0 = Ret (position p l).
Proof.
  intros HW Hb Ha.
  rewrite (chunk_loop_search W l body after p Some None); [by destruct (position p l) | done | done |].
  intros off Hoff. rewrite Ha by done. by destruct (position p (drop off l)).
Qed.

Definition escape_byte (needles : bytes) (reject : bool) (x : byte) : bool :=
  existsb (Byte.eqb x) needles || (reject && ((u8 x <? 32)%N || (128 <=? u8 x)%N)).

Lemma scalar_tail_escape_spec l off needles reject :
  off <= length l ->
  scalar_tail_escape l off needles reject =
  Ret ((fun i => off + i) <$> position (escape_byte needles reject) (drop off l)).
Proof.
  intros H. unfold scalar_tail_escape. rewrite slice_from_ok by done. cbn. f_equal.
  change (position _ (drop off l)) with (position (escape_byte needles reject) (drop off l)).
  destruct (position _ _); cbn; [|done]. f_equal. lia.
Qed.

Section X86Search.
Context (W : nat) (HW0 : 0 < W) (HW32 : W <= 32).

Lemma needle_masks (chunk needles : bytes) (q : byte -> bool) :
  length chunk = W ->
  fold_left (fun mask needle => N.lor mask (mm_movemask (mm_cmpeq chunk (mm_set1 W needle))))
    needles (bits_mask (q <$> chunk)) =
  bits_mask ((fun x => q x || existsb (Byte.eqb x) needles) <$> chunk).
Proof.
  intros Hc. revert q. induction needles as [|n needles IH]; intros q; cbn.
  - f_equal. apply list_fmap_ext. intros _ x _. by rewrite orb_false_r.
  - lanes Hc. rewrite lor_bits_mask by by rewrite !length_fmap.
    rewrite zip_with_fmap2, IH. f_equal. apply list_fmap_ext. intros _ x _. cbn.
    by rewrite msb_lane_mask, orb_assoc.
Qed.

Lemma zero_mask (chunk : bytes) : 0%N = bits_mask ((fun _ => false) <$> chunk).
Proof. induction chunk as [|x chunk IH]; cbn; [done|]. by rewrite <- IH. Qed.

Lemma mask_search {R} (p : byte -> bool) (chunk : bytes) (f : nat -> R) :
  (let mask := bits_mask (p <$> chunk) in
   if (mask =? 0)%N then None else Some (f (trailing_zeros mask))) =
  f <$> position p chunk.
Proof.
  cbn zeta.
  assert (Hp : position p chunk = position id (p <$> chunk)) by by rewrite position_fmap.
  rewrite Hp.
  destruct (N.eqb_spec (bits_mask (p <$> chunk)) 0) as [E|E]; rewrite bits_mask_zero in E.
  - by rewrite E.
  - destruct (position id (p <$> chunk)) as [i|] eqn:Hi; [|done].
    by rewrite (trailing_zeros_mask _ _ Hi).
Qed.

Lemma find_escape_spec l needles reject :
  X86.find_escape W l needles reject = Ret (position (escape_byte needles reject) l).
Proof.
  apply chunk_loop_find; [done| |intros; by apply scalar_tail_escape_spec].
  intros off chunk Hc. cbn zeta. rewrite (zero_mask chunk), needle_masks by done.
  rewrite <- (mask_search _ _ (fun i => Some (off + i))). cbn zeta.
  assert (E : (if reject
     then N.lor (bits_mask ((fun x => false || existsb (Byte.eqb x) needles) <$> chunk))
            (mm_movemask (mm_cmpgt (mm_set1 W x20) chunk))
     else bits_mask ((fun x => false || existsb (Byte.eqb x) needles) <$> chunk)) =
    bits_mask (escape_byte needles reject <$> chunk)); [|by rewrite E, <- zero_mask].
  unfold escape_byte. destruct reject.
  - lanes Hc. rewrite lor_bits_mask by by rewrite !length_fmap.
    rewrite zip_with_fmap2. f_equal. apply list_fmap_ext. intros _ x _. cbn. f_equal.
    revert x. by_bytes.
  - f_equal. apply list_fmap_ext. intros _ x _. by rewrite orb_false_r.
Qed.

Lemma chunk_len_spec l :
  X86.ascii_identifier_continue_chunk_len W l = Ret (run_len is_ascii_identifier_continue l).
Proof.
  apply chunk_loop_run; [done| |].
  - intros off chunk Hc. by rewrite identifier_mask_first.
  - intros off Hoff. rewrite slice_from_ok by done. cbn [obind].
    by rewrite identifier_chunk_len_scalar_spec.
Qed.

Lemma digit_run_spec l : X86.ascii_digit_run_len W l = Ret (run_len is_ascii_digit l).
Proof.
  apply chunk_loop_run; [done| |].
  - intros off chunk Hc. by rewrite digit_mask_first.
  - intros off Hoff. rewrite slice_from_ok by done. cbn. by rewrite run_len_position.
Qed.

Lemma non_whitespace_spec l :
  X86.find_non_ascii_whitespace W l = Ret (position (fun x => negb (is_ascii_whitespace x)) l).
Proof.
  apply chunk_loop_find; [done| |].
  - intros off chunk Hc. by rewrite whitespace_mask_first.
  - intros off Hoff. by rewrite slice_from_ok.
Qed.

Lemma existsb_position {A} p (l : list A) :
  existsb p l = match position p l with Some _ => true | None => false end.
Proof. induction l as [|x l IH]; cbn; [done|]. destruct (p x); cbn; [done|]. rewrite IH. by destruct (position p l). Qed.

(** The hypothesis on [low] and [high] says that the signed comparisons of a
    lane compute the range test; it holds for the ranges the code uses. *)
Definition range_lane (low high x : byte) : bool :=
  msb (byte_and (lane_mask (i8 (byte_of_N ((u8 low + 255) mod 256)) <? i8 x)%Z)
                (lane_mask (i8 x <? i8 (byte_of_N ((u8 high + 1) mod 256)))%Z)).

Lemma contains_range_spec l low high :
  (forall x, range_lane low high x = in_range x (u8 low) (u8 high)) ->
  X86.contains_ascii_range W l low high =
  Ret (existsb (fun x => in_range x (u8 low) (u8 high)) l).
Proof.
  intros Hlane. rewrite existsb_position.
  apply (chunk_loop_search W l _ _ _ (fun _ => true) false); [done| |].
  - intros off chunk Hc. rewrite <- mask_search. cbn zeta.
    unfold X86.ascii_range_mask. lanes Hc.
    pose proof (list_fmap_ext _ _ chunk (fun _ x _ => Hlane x)) as E.
    unfold range_lane in E. by rewrite E.
  - intros off Hoff. rewrite slice_from_ok by done. cbn. by rewrite existsb_position.
Qed.
End X86Search.

(** ** Case conversion *)

Lemma take_fmap_drop_step {A} (f : A -> A) W off (l : list A) :
  off + W <= length l ->
  let l' := take off l ++ (f <$> take W (drop off l)) ++ drop (off + W) l in
  length l' = length l /\
  take (off + W) l' ++ (f <$> drop (off + W) l') = take off l ++ (f <$> drop off l).
Proof.
  intros Hle l'.
  assert (Hlen : length l' = length l).
  { unfold l'. rewrite !length_app, length_fmap, !length_take, !length_drop. lia. }
  split; [done|].
  assert (Hpre : length (take off l ++ (f <$> take W (drop off l))) = off + W).
  { rewrite length_app, length_fmap, !length_take, length_drop. lia. }
  unfold l'. rewrite app_assoc, take_app_length', drop_app_length' by done.
  rewrite <- app_assoc, <- fmap_app. f_equal. f_equal.
  rewrite <- drop_drop. apply take_drop.
Qed.

Section CaseLoop.
Context (W : nat) (HW0 : 0 < W) (low high bit : byte).
Let conv := if bit =b x20 then to_ascii_lowercase else to_ascii_uppercase.
Context (Hchunk : forall chunk, length chunk = W ->
           X86.case_chunk W chunk low high bit = conv <$> chunk).

Lemma ascii_case_loop_spec fuel l off :
  off <= length l -> length l - off < fuel ->
  X86.ascii_case_loop W fuel l low high bit off = Ret (take off l ++ (conv <$> drop off l)).
Proof.
  revert l off. induction fuel as [|fuel IH]; intros l off Hoff Hfuel; [lia|].
  cbn [X86.ascii_case_loop]. destruct (Nat.leb_spec (off + W) (length l)) as [Hle|Hgt]; [|done].
  rewrite Hchunk by (rewrite length_take, length_drop; lia).
  destruct (take_fmap_drop_step conv W off l Hle) as [Hlen <-].
  apply IH; rewrite Hlen; lia.
Qed.

Lemma ascii_case_in_place_spec l :
  X86.ascii_case_in_place W l low high bit = Ret (conv <$> l).
Proof.
  unfold X86.ascii_case_in_place. rewrite ascii_case_loop_spec by (unfold loop_fuel; lia).
  by rewrite drop_0.
Qed.
End CaseLoop.

Lemma case_chunk_lower W chunk :
  length chunk = W -> X86.case_chunk W chunk x41 x5a x20 = to_ascii_lowercase <$> chunk.
Proof.
  intros Hc. unfold X86.case_chunk, X86.ascii_range_mask. cbn [Byte.eqb]. lanes Hc.
  apply list_fmap_ext. intros _ x _. apply beq_eq. byte_cases x.
Qed.

Lemma case_chunk_upper W chunk :
  length chunk = W -> X86.case_chunk W chunk x61 x7a xdf = to_ascii_uppercase <$> chunk.
Proof.
  intros Hc. unfold X86.case_chunk, X86.ascii_range_mask. change (xdf =b x20) with false.
  cbn iota zeta. lanes Hc. apply list_fmap_ext. intros _ x _. apply beq_eq. byte_cases x.
Qed.

(** ** Trimming *)

Section X86Trim.
Context (W : nat) (HW0 : 0 < W) (HW32 : W <= 32).
Let keep := (fun x => negb (is_default_trim_byte x)).

Lemma first_not_trim_spec l : X86.first_not_trim W l = Ret (run_len is_default_trim_byte l).
Proof.
  apply chunk_loop_run; [done| |].
  - intros off chunk Hc. rewrite trim_mask_lanes, first_unset_spec, position_fmap; [done|..].
    + by rewrite length_fmap.
    + done.
    + done.
  - intros off Hoff. rewrite slice_from_ok by done. unfold usize_sub.
    destruct (Nat.leb_spec off (length l)); [|lia]. cbn [obind].
    by rewrite run_len_position, length_drop.
Qed.

Lemma last_not_trim_spec last f l :
  (forall bits i, length bits = W -> rposition negb bits = Some i -> last (bits_mask bits) = f i) ->
  X86.last_not_trim W last l =
  match rposition keep l with
  | Some i => if length l mod W <=? i
              then olet j := f ((i - length l mod W) mod W) in
                   Ret (Some (i - (i - length l mod W) mod W + j))
              else Ret (Some i)
  | None => Ret None
  end.
Proof.
  intros Hlast. unfold X86.last_not_trim.
  rewrite (rchunk_loop_search W l _ keep f); [by rewrite firstn_all | done | |done|unfold loop_fuel; lia].
  intros off chunk Hc. rewrite trim_mask_lanes by done. cbn zeta.
  assert (Hr : rposition keep chunk = rposition negb (is_default_trim_byte <$> chunk))
    by by rewrite rposition_fmap.
  rewrite Hr. unfold X86.full_mask.
  assert (Hl : length (is_default_trim_byte <$> chunk) = W) by by rewrite length_fmap.
  rewrite <- Hl at 1.
  destruct (N.eqb_spec (bits_mask (is_default_trim_byte <$> chunk))
              (N.ones (N.of_nat (length (is_default_trim_byte <$> chunk))))) as [E|E];
    rewrite bits_mask_full, position_None, <- rposition_None in E.
  - by rewrite E.
  - destruct (rposition negb (is_default_trim_byte <$> chunk)) as [i|] eqn:Hi; [|done].
    cbn. by rewrite (Hlast _ i).
Qed.
End X86Trim.

(** ** NEON *)

Section NeonMasks.
Implicit Types chunk : bytes.

Lemma first_zero_lane_map f chunk :
  Neon.first_zero_lane (f <$> chunk) = position (fun x => f x =b x00) chunk.
Proof. apply position_fmap. Qed.

Lemma neon_identifier_first chunk :
  length chunk = 16 ->
  Neon.first_zero_lane (Neon.identifier_mask_neon chunk) =
  position (fun x => negb (is_ascii_identifier_continue x)) chunk.
Proof.
  intros Hc. unfold Neon.identifier_mask_neon, Neon.ascii_range_mask_neon. lanes Hc.
  rewrite first_zero_lane_map. apply position_ext. by_bytes.
Qed.

Lemma neon_digit_first chunk :
  length chunk = 16 ->
  Neon.first_zero_lane (Neon.ascii_range_mask_neon chunk x30 x39) =
  position (fun x => negb (is_ascii_digit x)) chunk.
Proof.
  intros Hc. unfold Neon.ascii_range_mask_neon. lanes Hc.
  rewrite first_zero_lane_map. apply position_ext. by_bytes.
Qed.

Lemma neon_whitespace_first chunk :
  length chunk = 16 ->
  Neon.first_zero_lane (Neon.ascii_whitespace_mask_neon chunk) =
  position (fun x => negb (is_ascii_whitespace x)) chunk.
Proof.
  intros Hc. unfold Neon.ascii_whitespace_mask_neon, Neon.or_vceqq. cbn [fold_left]. lanes Hc.
  rewrite first_zero_lane_map. apply position_ext. by_bytes.
Qed.

Lemma neon_trim_lanes chunk :
  length chunk = 16 ->
  Neon.default_trim_mask_neon chunk = (fun x => lane_mask (is_default_trim_byte x)) <$> chunk.
Proof.
  intros Hc. unfold Neon.default_trim_mask_neon, Neon.or_vceqq. cbn [fold_left]. lanes Hc.
  apply list_fmap_ext. intros _ x _. apply beq_eq. byte_cases x.
Qed.

Lemma neon_needles chunk needles q :
  length chunk = 16 ->
  Neon.or_vceqq chunk ((fun x => lane_mask (q x)) <$> chunk) needles =
  (fun x => lane_mask (q x || existsb (Byte.eqb x) needles)) <$> chunk.
Proof.
  intros Hc. unfold Neon.or_vceqq. revert q. induction needles as [|n needles IH]; intros q;
    cbn [fold_left existsb].
  - apply list_fmap_ext. intros _ x _. by rewrite orb_false_r.
  - assert (E : vorrq ((fun x => lane_mask (q x)) <$> chunk) (vceqq chunk (vdupq n)) =
                (fun x => lane_mask (q x || (x =b n))) <$> chunk).
    { lanes Hc. apply list_fmap_ext. intros _ x _. by destruct (q x), (x =b n). }
    rewrite E, IH. apply list_fmap_ext. intros _ x _. cbn. by rewrite orb_assoc.
Qed.

Lemma neon_find_escape l needles reject :
  Neon.find_escape_neon l needles reject = Ret (position (escape_byte needles reject) l).
Proof.
  apply chunk_loop_find; [lia| |intros; by apply scalar_tail_escape_spec].
  intros off chunk Hc. cbn zeta. f_equal.
  replace (vdupq x00) with ((fun _ => lane_mask false) <$> chunk : bytes); cycle 1.
  { unfold vdupq. rewrite <- Hc. clear Hc. induction chunk; cbn; [done|]. by f_equal. }
  rewrite (neon_needles _ _ (fun _ => false)) by done.
  unfold Neon.first_mask_lane, escape_byte. destruct reject; lanes Hc; rewrite position_fmap;
    apply position_ext; intros x.
  - destruct (existsb (Byte.eqb x) needles); revert x; by_bytes.
  - by destruct (existsb (Byte.eqb x) needles).
Qed.

Lemma neon_chunk_len l :
  Neon.ascii_identifier_continue_chunk_len_neon l = Ret (run_len is_ascii_identifier_continue l).
Proof.
  apply chunk_loop_run; [lia| |].
  - intros off chunk Hc. by rewrite neon_identifier_first.
  - intros off Hoff. rewrite slice_from_ok by done. cbn [obind].
    by rewrite identifier_chunk_len_scalar_spec.
Qed.

Lemma neon_digit_run l : Neon.ascii_digit_run_len_neon l = Ret (run_len is_ascii_digit l).
Proof.
  apply chunk_loop_run; [lia| |].
  - intros off chunk Hc. by rewrite neon_digit_first.
  - intros off Hoff. rewrite slice_from_ok by done. cbn. by rewrite run_len_position.
Qed.

Lemma neon_non_whitespace l :
  Neon.find_non_ascii_whitespace_neon l = Ret (position (fun x => negb (is_ascii_whitespace x)) l).
Proof.
  apply chunk_loop_find; [lia| |].
  - intros off chunk Hc. by rewrite neon_whitespace_first.
  - intros off Hoff. by rewrite slice_from_ok.
Qed.

Lemma neon_contains_range l low high :
  Neon.contains_ascii_range_neon l low high =
  Ret (existsb (fun x => in_range x (u8 low) (u8 high)) l).
Proof.
  rewrite existsb_position.
  apply (chunk_loop_search 16 l _ _ _ (fun _ => true) false); [lia| |].
  - intros off chunk Hc. unfold Neon.ascii_range_mask_neon, Neon.first_mask_lane. lanes Hc.
    rewrite position_fmap.
    rewrite (position_ext _ (fun x => in_range x (u8 low) (u8 high))).
    + by destruct (position _ chunk).
    + intros x. unfold in_range. by destruct (u8 low <=? u8 x)%N, (u8 x <=? u8 high)%N.
  - intros off Hoff. rewrite slice_from_ok by done. cbn. by rewrite existsb_position.
Qed.

Lemma neon_case_loop low high bit fuel l off :
  let conv := if bit =b x20 then to_ascii_lowercase else to_ascii_uppercase in
  (forall chunk, length chunk = 16 -> Neon.case_chunk_neon chunk low high bit = conv <$> chunk) ->
  off <= length l -> length l - off < fuel ->
  Neon.ascii_case_loop_neon fuel l low high bit off = Ret (take off l ++ (conv <$> drop off l)).
Proof.
  intros conv Hchunk. revert l off.
  induction fuel as [|fuel IH]; intros l off Hoff Hfuel; [lia|].
  cbn [Neon.ascii_case_loop_neon].
  destruct (Nat.leb_spec (off + 16) (length l)) as [Hle|Hgt]; [|done].
  rewrite Hchunk by (rewrite length_take, length_drop; lia).
  destruct (take_fmap_drop_step conv 16 off l Hle) as [Hlen <-].
  apply IH; rewrite Hlen; lia.
Qed.

Lemma neon_lower l : Neon.ascii_case_in_place_neon l x41 x5a x20 = Ret (to_ascii_lowercase <$> l).
Proof.
  unfold Neon.ascii_case_in_place_neon. rewrite neon_case_loop; unfold loop_fuel; [|..|lia|lia].
  - by rewrite drop_0.
  - intros chunk Hc. unfold Neon.case_chunk_neon, Neon.ascii_range_mask_neon. cbn [Byte.eqb].
    lanes Hc. apply list_fmap_ext. intros _ x _. apply beq_eq. byte_cases x.
Qed.

Lemma neon_upper l : Neon.ascii_case_in_place_neon l x61 x7a xdf = Ret (to_ascii_uppercase <$> l).
Proof.
  unfold Neon.ascii_case_in_place_neon. rewrite neon_case_loop; unfold loop_fuel; [|..|lia|lia].
  - by rewrite drop_0.
  - intros chunk Hc. unfold Neon.case_chunk_neon, Neon.ascii_range_mask_neon.
    change (xdf =b x20) with false. cbn iota zeta.
    lanes Hc. apply list_fmap_ext. intros _ x _. apply beq_eq. byte_cases x.
Qed.

Lemma neon_first_not_trim l : Neon.first_not_trim_neon l = Ret (run_len is_default_trim_byte l).
Proof.
  apply chunk_loop_run; [lia| |].
  - intros off chunk Hc. rewrite neon_trim_lanes, first_zero_lane_map by done. f_equal.
    apply position_ext. by_bytes.
  - intros off Hoff. rewrite slice_from_ok by done. unfold usize_sub.
    destruct (Nat.leb_spec off (length l)); [|lia]. cbn [obind].
    by rewrite run_len_position, length_drop.
Qed.

Lemma neon_last_not_trim l :
  Neon.last_not_trim_neon l = Ret (rposition (fun x => negb (is_default_trim_byte x)) l).
Proof.
  unfold Neon.last_not_trim_neon.
  rewrite (rchunk_loop_search 16 l _ (fun x => negb (is_default_trim_byte x)) Ret);
    [|lia| |done|unfold loop_fuel; lia].
  - rewrite firstn_all. destruct (rposition _ l) as [i|]; [|done]. cbn [obind].
    destruct (Nat.leb_spec (length l mod 16) i); [|done].
    pose proof (Nat.Div0.mod_le (i - length l mod 16) 16). repeat f_equal. lia.
  - intros off chunk Hc. rewrite neon_trim_lanes by done. unfold Neon.last_zero_lane.
    rewrite rposition_fmap, (rposition_ext _ (fun x => negb (is_default_trim_byte x))).
    + by destruct (rposition _ chunk).
    + by_bytes.
Qed.
End NeonMasks.

(** ** The backends against the scalar reference *)

Ltac dispatch :=
  cbn [Arch.find_json_escape_byte Arch.find_html_escape_byte
       Arch.ascii_identifier_continue_chunk_len Arch.ascii_digit_run_len
       Arch.find_non_ascii_whitespace Arch.contains_ascii_lowercase
       Arch.contains_ascii_uppercase Arch.ascii_uppercase_in_place
       Arch.ascii_lowercase_in_place].

Lemma range_lane_lower x : range_lane x61 x7a x = in_range x (u8 x61) (u8 x7a).
Proof. revert x. by_bytes. Qed.

Lemma range_lane_upper x : range_lane x41 x5a x = in_range x (u8 x41) (u8 x5a).
Proof. revert x. by_bytes. Qed.

Lemma json_escape_position l :
  find_json_escape_byte_scalar l = position (escape_byte [x22; x5c; x2f] true) l.
Proof. apply position_ext. intros x. unfold escape_byte. rewrite andb_true_l. by rewrite orb_assoc. Qed.

Lemma html_escape_position l :
  find_html_escape_byte_scalar l = position (escape_byte [x26; x3c; x3e; x22; x27] false) l.
Proof. apply position_ext. intros x. unfold escape_byte. by rewrite orb_false_r. Qed.

Lemma arch_chunk_len bk l :
  Arch.ascii_identifier_continue_chunk_len bk l = Ret (run_len is_ascii_identifier_continue l).
Proof.
  destruct bk; dispatch.
  - apply identifier_chunk_len_scalar_spec.
  - apply chunk_len_spec; lia.
  - apply chunk_len_spec; lia.
  - apply neon_chunk_len.
Qed.

Lemma arch_digit_run bk l : Arch.ascii_digit_run_len bk l = Ret (run_len is_ascii_digit l).
Proof.
  destruct bk; dispatch.
  - by rewrite run_len_position.
  - apply digit_run_spec; lia.
  - apply digit_run_spec; lia.
  - apply neon_digit_run.
Qed.

Lemma arch_non_whitespace bk l :
  Arch.find_non_ascii_whitespace bk l = Ret (find_non_ascii_whitespace_scalar l).
Proof.
  destruct bk; dispatch; [done| apply non_whitespace_spec; lia.. | apply neon_non_whitespace].
Qed.

(** On every backend (SSE2, AVX2, NEON, scalar) and for every input the
    JSON and HTML escape searches return, without a panic, the index the
    scalar reference finds. *)
Theorem escape_search_backends bk l :
  Arch.find_json_escape_byte bk l = Ret (find_json_escape_byte_scalar l) /\
  Arch.find_html_escape_byte bk l = Ret (find_html_escape_byte_scalar l).
Proof.
  rewrite json_escape_position, html_escape_position. split; destruct bk; dispatch.
  all: first [ by rewrite json_escape_position | by rewrite html_escape_position
             | apply find_escape_spec; lia | apply neon_find_escape ].
Qed.

(** On every backend the identifier, digit and whitespace scanners and
    the case tests agree with their scalar references. *)
Theorem class_scan_backends bk l :
  Arch.ascii_identifier_continue_chunk_len bk l = ascii_identifier_continue_chunk_len_scalar l /\
  Arch.ascii_digit_run_len bk l = Ret (ascii_digit_run_len_scalar l) /\
  Arch.find_non_ascii_whitespace bk l = Ret (find_non_ascii_whitespace_scalar l) /\
  Arch.contains_ascii_lowercase bk l = Ret (contains_ascii_lowercase_scalar l) /\
  Arch.contains_ascii_uppercase bk l = Ret (contains_ascii_uppercase_scalar l).
Proof.
  rewrite arch_chunk_len, identifier_chunk_len_scalar_spec, arch_digit_run, arch_non_whitespace.
  unfold ascii_digit_run_len_scalar.
  split; [done|]. split; [by rewrite run_len_position|]. split; [done|].
  split; destruct bk; dispatch; [done|..|done| | |].
  all: first [ apply contains_range_spec; [lia..|] | apply neon_contains_range ].
  all: first [ apply range_lane_lower | apply range_lane_upper ].
Qed.

(** On every backend in-place ASCII case conversion maps exactly the
    letters, byte by byte, as [u8::make_ascii_uppercase] and
    [make_ascii_lowercase] do. *)
Theorem case_conversion_backends bk l :
  Arch.ascii_uppercase_in_place bk l = Ret (to_ascii_uppercase <$> l) /\
  Arch.ascii_lowercase_in_place bk l = Ret (to_ascii_lowercase <$> l).
Proof.
  split; destruct bk; dispatch; [done|..|done| | |].
  all: first [ apply neon_upper | apply neon_lower
             | apply (ascii_case_in_place_spec 16 ltac:(lia) x61 x7a xdf)
             | apply (ascii_case_in_place_spec 16 ltac:(lia) x41 x5a x20)
             | apply (ascii_case_in_place_spec 32 ltac:(lia) x61 x7a xdf)
             | apply (ascii_case_in_place_spec 32 ltac:(lia) x41 x5a x20) ].
  all: first [ apply case_chunk_upper | apply case_chunk_lower ].
Qed.

Lemma trim_default_bounds_of l :
  (if run_len is_default_trim_byte l =? length l
   then (run_len is_default_trim_byte l, run_len is_default_trim_byte l)
   else (run_len is_default_trim_byte l,
         match rposition (fun x => negb (is_default_trim_byte x)) l with
         | Some i => i + 1
         | None => run_len is_default_trim_byte l
         end)) = trim_default_bounds_scalar l.
Proof.
  unfold trim_default_bounds_scalar. rewrite <- run_len_position.
  destruct (Nat.eqb_spec (run_len is_default_trim_byte l) (length l)) as [E|E]; [|done].
  destruct (rposition _ l) as [i|] eqn:Hi; [|done].
  rewrite run_len_position in E.
  destruct (position (fun x => negb (is_default_trim_byte x)) l) as [j|] eqn:Hj.
  - apply position_lt in Hj. cbn in E. lia.
  - rewrite position_None, <- rposition_None in Hj. congruence.
Qed.

Lemma x86_trim_spec W last f l :
  0 < W -> W <= 32 ->
  (forall bits i, length bits = W -> rposition negb bits = Some i -> last (bits_mask bits) = f i) ->
  X86.trim_default_bounds W last l =
  match rposition (fun x => negb (is_default_trim_byte x)) l with
  | Some i => if length l mod W <=? i
              then olet j := f ((i - length l mod W) mod W) in
                   Ret ((trim_default_bounds_scalar l).1, i - (i - length l mod W) mod W + j + 1)
              else Ret (trim_default_bounds_scalar l)
  | None => Ret (trim_default_bounds_scalar l)
  end.
Proof.
  intros HW0 HW32 Hlast. unfold X86.trim_default_bounds.
  rewrite first_not_trim_spec, (last_not_trim_spec W HW0 HW32 last f) by done. cbn [obind].
  pose proof (trim_default_bounds_of l) as H.
  destruct (Nat.eqb_spec (run_len is_default_trim_byte l) (length l)) as [E|E].
  - assert (Hn : rposition (fun x => negb (is_default_trim_byte x)) l = None).
    { rewrite run_len_position in E. rewrite rposition_None, <- position_None.
      destruct (position _ l) as [j|] eqn:Hj; [|done].
      apply position_lt in Hj. cbn in E. lia. }
    rewrite Hn. by rewrite <- H.
  - rewrite <- H. destruct (rposition _ l) as [i|]; [|done].
    destruct (length l mod W <=? i); [|done]. by destruct (f _).
Qed.

Lemma trim_found l i W :
  0 < W ->
  rposition (fun x => negb (is_default_trim_byte x)) l = Some i -> length l mod W <= i ->
  ((trim_default_bounds_scalar l).1, i - (i - length l mod W) mod W + (i - length l mod W) mod W + 1)
  = trim_default_bounds_scalar l.
Proof.
  intros HW Hi Hle. unfold trim_default_bounds_scalar. rewrite Hi. cbn [fst]. f_equal.
  pose proof (Nat.Div0.mod_le (i - length l mod W) W). lia.
Qed.

(** Trimming with the default mask gives the bounds of the scalar
    reference on every backend, except SSE2 built with overflow checks. *)
Theorem trim_backends bk l (Hbk : bk <> BSse2 true) :
  Arch.trim_default_bounds bk l = Ret (trim_default_bounds_scalar l).
Proof.
  destruct bk as [|[]| |]; cbn [Arch.trim_default_bounds]; [done|done| | |].
  - unfold Sse2.trim_default_bounds_sse2.
    rewrite (x86_trim_spec 16 _ Ret) by (try lia; apply last_lane_sse2_spec).
    destruct (rposition _ l) as [i|] eqn:Hi; [|done].
    destruct (Nat.leb_spec (length l mod 16) i); [|done].
    cbn [obind]. by rewrite (trim_found l i 16) by (done || lia).
  - unfold Avx2.trim_default_bounds_avx2.
    rewrite (x86_trim_spec 32 _ Ret) by (try lia; apply last_lane_avx2_spec).
    destruct (rposition _ l) as [i|] eqn:Hi; [|done].
    destruct (Nat.leb_spec (length l mod 32) i); [|done].
    cbn [obind]. by rewrite (trim_found l i 32) by (done || lia).
  - unfold Neon.trim_default_bounds_neon.
    rewrite neon_first_not_trim, neon_last_not_trim. cbn [obind].
    rewrite <- trim_default_bounds_of.
    by destruct (run_len is_default_trim_byte l =? length l).
Qed.

(** C14: every vector routine (SSE2, AVX2, NEON) returns, without a panic, what
    the scalar routine returns: escape searches, identifier, digit and whitespace
    scans, case tests and conversions, and trimming; except the SSE2 trim built
    with overflow checks. *)
Theorem simd_backends_agree bk l (Hbk : bk <> BSse2 true) :
  (Arch.find_json_escape_byte bk l = Ret (find_json_escape_byte_scalar l) /\
   Arch.find_html_escape_byte bk l = Ret (find_html_escape_byte_scalar l)) /\
  (Arch.ascii_identifier_continue_chunk_len bk l = ascii_identifier_continue_chunk_len_scalar l /\
   Arch.ascii_digit_run_len bk l = Ret (ascii_digit_run_len_scalar l) /\
   Arch.find_non_ascii_whitespace bk l = Ret (find_non_ascii_whitespace_scalar l) /\
   Arch.contains_ascii_lowercase bk l = Ret (contains_ascii_lowercase_scalar l) /\
   Arch.contains_ascii_uppercase bk l = Ret (contains_ascii_uppercase_scalar l)) /\
  (Arch.ascii_uppercase_in_place bk l = Ret (to_ascii_uppercase <$> l) /\
   Arch.ascii_lowercase_in_place bk l = Ret (to_ascii_lowercase <$> l)) /\
  Arch.trim_default_bounds bk l = Ret (trim_default_bounds_scalar l).
Proof.
  split; [apply escape_search_backends|]. split; [apply class_scan_backends|].
  split; [apply case_conversion_backends|]. by apply trim_backends.
Qed.

Lemma simd_backends_agree_witness :
  BAvx2 <> BSse2 true /\
  Arch.trim_default_bounds BAvx2 [x20; x61; x20] = Ret (trim_default_bounds_scalar [x20; x61; x20]).
Proof. split; [discriminate | apply (simd_backends_agree BAvx2 [x20; x61; x20]); discriminate]. Defined.

(** Built with overflow checks, SSE2 trimming panics exactly when the last
    byte to keep lies in the part of the input the 16-lane loop reads: the
    expression [15 - leading_zeros + 16] subtracts first, and the leading
    zeros of a 16-bit mask held in 32 bits number at least 16. *)
Theorem trim_sse2_checked_panics l :
  Arch.trim_default_bounds (BSse2 true) l =
  match rposition (fun x => negb (is_default_trim_byte x)) l with
  | Some i => if length l mod 16 <=? i then Panic else Ret (trim_default_bounds_scalar l)
  | None => Ret (trim_default_bounds_scalar l)
  end.
Proof.
  cbn [Arch.trim_default_bounds]. unfold Sse2.trim_default_bounds_sse2.
  rewrite (x86_trim_spec 16 _ (fun _ => Panic)) by (try lia; apply last_lane_sse2_spec).
  destruct (rposition _ l) as [i|]; [|done]. by destruct (length l mod 16 <=? i).
Qed.
