(* ===== verification/ByteKernel.v ===== *)
(** * ByteKernel: the public byte searches of [byte_kernel.rs]

    The functions of [crates/php_source/src/byte_kernel.rs] that the source
    map, the lexer and the runtime call.  Single-byte and substring searches
    go through the [memchr] crate, which is a parameter here: [Memchr] has the
    functions the code calls and [MemchrLaws] states what the crate documents
    of them. *)

From Stdlib Require Import Strings.Byte.
From stdpp Require Import base list option numbers.
From S2P Require Import Prelude RustStd Simd SimdProofs.

(** ** The [memchr] crate *)

Class Memchr := {
  memchr : byte -> bytes -> option nat;
  memchr2 : byte -> byte -> bytes -> option nat;
  memchr3 : byte -> byte -> byte -> bytes -> option nat;
  memrchr : byte -> bytes -> option nat;
  memrchr2 : byte -> byte -> bytes -> option nat;
  memrchr3 : byte -> byte -> byte -> bytes -> option nat;
  memmem_find : bytes -> bytes -> option nat;
  memmem_rfind : bytes -> bytes -> option nat;
  memchr_iter_count : byte -> bytes -> nat;
}.

(** A forward search returns the index of the first match or nothing. *)
Definition finds_first {A} (p : A -> bool) (l : list A) (r : option nat) : Prop :=
  match r with Some i => is_first p l i | None => none_is p l end.
Definition finds_last {A} (p : A -> bool) (l : list A) (r : option nat) : Prop :=
  match r with Some i => is_last p l i | None => none_is p l end.

Class MemchrLaws (mc : Memchr) : Prop := {
  memchr_law n l : finds_first (fun x => x =b n) l (memchr n l);
  memchr2_law n1 n2 l : finds_first (fun x => (x =b n1) || (x =b n2)) l (memchr2 n1 n2 l);
  memchr3_law n1 n2 n3 l :
    finds_first (fun x => (x =b n1) || (x =b n2) || (x =b n3)) l (memchr3 n1 n2 n3 l);
  memrchr_law n l : finds_last (fun x => x =b n) l (memrchr n l);
  memrchr2_law n1 n2 l : finds_last (fun x => (x =b n1) || (x =b n2)) l (memrchr2 n1 n2 l);
  memrchr3_law n1 n2 n3 l :
    finds_last (fun x => (x =b n1) || (x =b n2) || (x =b n3)) l (memrchr3 n1 n2 n3 l);
  memmem_find_law l needle :
    needle <> [] ->
    finds_first (fun w => bytes_eqb w needle) (windows (length needle) l) (memmem_find l needle);
  memmem_rfind_law l needle :
    needle <> [] ->
    finds_last (fun w => bytes_eqb w needle) (windows (length needle) l) (memmem_rfind l needle);
  memchr_iter_law n l : memchr_iter_count n l = length (filter (fun x => x = n) l);
}.

Lemma finds_first_position {A} p (l : list A) r : finds_first p l r -> r = position p l.
Proof.
  destruct r as [i|]; cbn; intros H; symmetry; [by apply position_Some | by apply position_None].
Qed.

Lemma finds_last_rposition {A} p (l : list A) r : finds_last p l r -> r = rposition p l.
Proof.
  destruct r as [i|]; cbn; intros H; symmetry; [by apply rposition_Some | by apply rposition_None].
Qed.

Lemma position_finds_first {A} p (l : list A) : finds_first p l (position p l).
Proof.
  destruct (position p l) eqn:E; [by apply position_Some | by apply position_None].
Qed.

Lemma rposition_finds_last {A} p (l : list A) : finds_last p l (rposition p l).
Proof.
  destruct (rposition p l) eqn:E; [by apply rposition_Some | by apply rposition_None].
Qed.

(** A concrete implementation of the crate's functions. *)
#[export] Instance memchr_naive : Memchr := {|
  memchr n := position (fun x => x =b n);
  memchr2 n1 n2 := position (fun x => (x =b n1) || (x =b n2));
  memchr3 n1 n2 n3 := position (fun x => (x =b n1) || (x =b n2) || (x =b n3));
  memrchr n := rposition (fun x => x =b n);
  memrchr2 n1 n2 := rposition (fun x => (x =b n1) || (x =b n2));
  memrchr3 n1 n2 n3 := rposition (fun x => (x =b n1) || (x =b n2) || (x =b n3));
  memmem_find l needle := position (fun w => bytes_eqb w needle) (windows (length needle) l);
  memmem_rfind l needle := rposition (fun w => bytes_eqb w needle) (windows (length needle) l);
  memchr_iter_count n l := length (filter (fun x => x = n) l);
|}.

#[export] Instance memchr_naive_laws : MemchrLaws memchr_naive.
Proof.
  split; intros; cbn; first [apply position_finds_first | apply rposition_finds_last | done].
Qed.

(** ** Searches for one byte *)

Section Kernel.
Context {mc : Memchr} (bk : backend).

Definition find_byte (l : bytes) (needle : byte) : option nat := memchr needle l.
Definition rfind_byte (l : bytes) (needle : byte) : option nat := memrchr needle l.
Definition find_byte_scalar (l : bytes) (needle : byte) : option nat :=
  position (fun x => x =b needle) l.
Definition rfind_byte_scalar (l : bytes) (needle : byte) : option nat :=
  rposition (fun x => x =b needle) l.
Definition find_any2 (l : bytes) (first second : byte) : option nat := memchr2 first second l.
Definition find_any2_scalar (l : bytes) (first second : byte) : option nat :=
  position (fun x => (x =b first) || (x =b second)) l.
Definition find_any3 (l : bytes) (first second third : byte) : option nat :=
  memchr3 first second third l.
Definition find_any3_scalar (l : bytes) (first second third : byte) : option nat :=
  position (fun x => (x =b first) || (x =b second) || (x =b third)) l.

Definition find_ascii_folded_byte (l : bytes) (needle : byte) : option nat :=
  if is_ascii_alphabetic needle
  then memchr2 (to_ascii_lowercase needle) (to_ascii_uppercase needle) l
  else find_byte l needle.
Definition rfind_ascii_folded_byte (l : bytes) (needle : byte) : option nat :=
  if is_ascii_alphabetic needle
  then memrchr2 (to_ascii_lowercase needle) (to_ascii_uppercase needle) l
  else rfind_byte l needle.

(** ** Substring searches *)

Definition find_bytes_from (haystack needle : bytes) (start : nat) : outcome (option nat) :=
  match needle with
  | [] => Ret (Some (start `min` length haystack))
  | _ =>
    if (length haystack <? start) || (length haystack - start <? length needle) then Ret None
    else
      olet rest := slice_from haystack start in
      Ret (match needle with
           | [single] => (fun off => start + off) <$> find_byte rest single
           | _ => (fun off => start + off) <$> memmem_find rest needle
           end)
  end.
Definition find_bytes (haystack needle : bytes) : outcome (option nat) :=
  find_bytes_from haystack needle 0.

Definition rfind_bytes_before (haystack needle : bytes) (e : nat) : outcome (option nat) :=
  let e := e `min` length haystack in
  match needle with
  | [] => Ret (Some e)
  | _ =>
    if e <? length needle then Ret None
    else
      olet head := slice haystack 0 e in
      Ret (match needle with
           | [single] => rfind_byte head single
           | _ => memmem_rfind head needle
           end)
  end.

(** The reference searches, with the comparison of a window as argument. *)
Definition find_window_from (same : bytes -> bytes -> bool) (haystack needle : bytes)
    (start : nat) : outcome (option nat) :=
  match needle with
  | [] => Ret (Some (start `min` length haystack))
  | _ =>
    if (length haystack <? start) || (length haystack - start <? length needle) then Ret None
    else
      olet rest := slice_from haystack start in
      Ret ((fun off => start + off) <$>
           position (fun w => same w needle) (windows (length needle) rest))
  end.
Definition find_bytes_from_scalar := find_window_from bytes_eqb.
Definition find_bytes_ascii_case_insensitive_from_scalar := find_window_from eq_ignore_ascii_case.

Definition rfind_window_before (same : bytes -> bytes -> bool) (haystack needle : bytes)
    (e : nat) : outcome (option nat) :=
  let e := e `min` length haystack in
  match needle with
  | [] => Ret (Some e)
  | _ =>
    if e <? length needle then Ret None
    else
      olet head := slice haystack 0 e in
      Ret (rposition (fun w => same w needle) (windows (length needle) head))
  end.
Definition rfind_bytes_before_scalar := rfind_window_before bytes_eqb.
Definition rfind_bytes_ascii_case_insensitive_before_scalar :=
  rfind_window_before eq_ignore_ascii_case.

Fixpoint find_ci_loop (fuel : nat) (haystack needle : bytes) (first : byte) (search : nat)
    : outcome (option nat) :=
  match fuel with
  | O => Timeout
  | S fuel =>
    if search <=? length haystack - length needle then
      olet rest := slice_from haystack search in
      match (fun off => search + off) <$> find_ascii_folded_byte rest first with
      | None => Ret None
      | Some i =>
        if length haystack <? i + length needle then Ret None
        else
          olet w := slice haystack i (i + length needle) in
          if eq_ignore_ascii_case w needle then Ret (Some i)
          else find_ci_loop fuel haystack needle first (i + 1)
      end
    else Ret None
  end.

Definition find_bytes_ascii_case_insensitive_from (haystack needle : bytes) (start : nat)
    : outcome (option nat) :=
  match needle with
  | [] => Ret (Some (start `min` length haystack))
  | first :: _ =>
    if (length haystack <? start) || (length haystack - start <? length needle) then Ret None
    else if length needle =? 1 then
      olet rest := slice_from haystack start in
      Ret ((fun off => start + off) <$> find_ascii_folded_byte rest first)
    else find_ci_loop (loop_fuel haystack) haystack needle first start
  end.

Fixpoint rfind_ci_loop (fuel : nat) (haystack needle : bytes) (first : byte) (search_end : nat)
    : outcome (option nat) :=
  match fuel with
  | O => Timeout
  | S fuel =>
    if 0 <? search_end then
      olet head := slice haystack 0 search_end in
      match rfind_ascii_folded_byte head first with
      | None => Ret None
      | Some i =>
          olet w := slice haystack i (i + length needle) in
          if eq_ignore_ascii_case w needle then Ret (Some i)
          else rfind_ci_loop fuel haystack needle first i
      end
    else Ret None
  end.

Definition rfind_bytes_ascii_case_insensitive_before (haystack needle : bytes) (e : nat)
    : outcome (option nat) :=
  let e := e `min` length haystack in
  match needle with
  | [] => Ret (Some e)
  | first :: _ =>
    if e <? length needle then Ret None
    else if length needle =? 1 then
      olet head := slice haystack 0 e in
      Ret (rfind_ascii_folded_byte head first)
    else
      olet d := usize_sub e (length needle) in
      rfind_ci_loop (loop_fuel haystack) haystack needle first (d + 1)
  end.

(** ** Counting *)

Definition count_byte (l : bytes) (needle : byte) : nat := memchr_iter_count needle l.
Definition count_byte_scalar (l : bytes) (needle : byte) : nat :=
  length (List.filter (fun x => x =b needle) l).

Fixpoint count_newlines_loop (fuel : nat) (l : bytes) (count offset : nat) : outcome nat :=
  match fuel with
  | O => Timeout
  | S fuel =>
    if offset <? length l then
      olet rest := slice_from l offset in
      match memchr2 x0a x0d rest with
      | None => Ret count
      | Some relative =>
        let offset := offset + relative in
        let count := count + 1 in
        olet x := index l offset in
        if (x =b x0d) && opt_is (l !! (offset + 1)) x0a
        then count_newlines_loop fuel l count (offset + 2)
        else count_newlines_loop fuel l count (offset + 1)
      end
    else Ret count
  end.
Definition count_newlines (l : bytes) : outcome nat := count_newlines_loop (loop_fuel l) l 0 0.

Fixpoint count_newlines_scalar_loop (fuel : nat) (l : bytes) (count offset : nat) : outcome nat :=
  match fuel with
  | O => Timeout
  | S fuel =>
    if offset <? length l then
      olet x := index l offset in
      if x =b x0a then count_newlines_scalar_loop fuel l (count + 1) (offset + 1)
      else if (x =b x0d) && opt_is (l !! (offset + 1)) x0a
      then count_newlines_scalar_loop fuel l (count + 1) (offset + 2)
      else if x =b x0d then count_newlines_scalar_loop fuel l (count + 1) (offset + 1)
      else count_newlines_scalar_loop fuel l count (offset + 1)
    else Ret count
  end.
Definition count_newlines_scalar (l : bytes) : outcome nat :=
  count_newlines_scalar_loop (loop_fuel l) l 0 0.

(** ** Character classes *)

Definition is_all_ascii (l : bytes) : bool := forallb is_ascii l.
Definition is_all_ascii_scalar (l : bytes) : bool := forallb is_ascii l.

Definition min_index (left right : option nat) : option nat :=
  match left, right with
  | Some i, Some j => if i <? j then Some i else Some j
  | Some i, None => Some i
  | None, Some j => Some j
  | None, None => None
  end.
Definition max_index (left right : option nat) : option nat :=
  match left, right with
  | Some i, Some j => if j <? i then Some i else Some j
  | Some i, None => Some i
  | None, Some j => Some j
  | None, None => None
  end.

Definition find_ascii_whitespace (l : bytes) : option nat :=
  min_index (memchr3 x20 x09 x0a l) (memchr2 x0d x0c l).
Definition rfind_ascii_whitespace (l : bytes) : option nat :=
  max_index (memrchr3 x20 x09 x0a l) (memrchr2 x0d x0c l).
Definition find_ascii_whitespace_scalar (l : bytes) : option nat := position is_ascii_whitespace l.
Definition rfind_ascii_whitespace_scalar (l : bytes) : option nat :=
  rposition is_ascii_whitespace l.
Definition contains_ascii_whitespace (l : bytes) : bool :=
  match find_ascii_whitespace l with Some _ => true | None => false end.
Definition contains_ascii_whitespace_scalar (l : bytes) : bool := existsb is_ascii_whitespace l.

Definition all_ascii_digits (l : bytes) : outcome bool :=
  olet n := Arch.ascii_digit_run_len bk l in Ret (n =? length l).
Definition all_ascii_digits_scalar (l : bytes) : bool := forallb is_ascii_digit l.
Definition all_ascii_whitespace (l : bytes) : outcome bool :=
  olet r := Arch.find_non_ascii_whitespace bk l in
  Ret (match r with Some _ => false | None => true end).
Definition all_ascii_whitespace_scalar (l : bytes) : bool := forallb is_ascii_whitespace l.

Definition ascii_uppercase_copy (l : bytes) : outcome bytes := Arch.ascii_uppercase_in_place bk l.
Definition ascii_lowercase_copy (l : bytes) : outcome bytes := Arch.ascii_lowercase_in_place bk l.
End Kernel.
