(* ===== verification/ByteKernelProofs.v ===== *)
(** * ByteKernelProofs: the accelerated searches against their references *)

From Stdlib Require Import Strings.Byte.
From stdpp Require Import base list option numbers.
From S2P Require Import Prelude RustStd Simd SimdProofs ByteKernel.

(** ** Windows *)

Definition window (w : nat) (l : bytes) (i : nat) : bytes := take w (drop i l).

Lemma lookup_windows w (l : bytes) i :
  windows w l !! i = if decide (i + w <= length l) then Some (window w l i) else None.
Proof.
  unfold windows. rewrite list_lookup_fmap. case_decide as H.
  - rewrite lookup_seq_lt by lia. done.
  - rewrite lookup_seq_ge by lia. done.
Qed.

(** [r] is the first (last) index in [lo, hi) whose window satisfies [q]. *)
Definition first_window (q : bytes -> bool) (w : nat) (l : bytes) (lo : nat) (r : option nat) : Prop :=
  match r with
  | Some i => lo <= i /\ i + w <= length l /\ q (window w l i) = true /\
              forall j, lo <= j < i -> q (window w l j) = false
  | None => forall j, lo <= j -> j + w <= length l -> q (window w l j) = false
  end.

Definition last_window (q : bytes -> bool) (w : nat) (l : bytes) (hi : nat) (r : option nat) : Prop :=
  match r with
  | Some i => i < hi /\ q (window w l i) = true /\
              forall j, i < j < hi -> q (window w l j) = false
  | None => forall j, j < hi -> q (window w l j) = false
  end.

Lemma first_window_unique q w l lo r1 r2 :
  first_window q w l lo r1 -> first_window q w l lo r2 -> r1 = r2.
Proof.
  destruct r1 as [i|], r2 as [j|]; cbn; [| | |done].
  - intros (Hi1 & Hi2 & Hi3 & Hi4) (Hj1 & Hj2 & Hj3 & Hj4).
    destruct (lt_eq_lt_dec i j) as [[H| ->]|H]; [|done|].
    + specialize (Hj4 i ltac:(lia)). congruence.
    + specialize (Hi4 j ltac:(lia)). congruence.
  - intros (Hi1 & Hi2 & Hi3 & _) H. specialize (H i Hi1 Hi2). congruence.
  - intros H (Hi1 & Hi2 & Hi3 & _). specialize (H j Hi1 Hi2). congruence.
Qed.

Lemma last_window_unique q w l hi r1 r2 :
  last_window q w l hi r1 -> last_window q w l hi r2 -> r1 = r2.
Proof.
  destruct r1 as [i|], r2 as [j|]; cbn; [| | |done].
  - intros (Hi1 & Hi3 & Hi4) (Hj1 & Hj3 & Hj4).
    destruct (lt_eq_lt_dec i j) as [[H| ->]|H]; [|done|].
    + specialize (Hi4 j ltac:(lia)). congruence.
    + specialize (Hj4 i ltac:(lia)). congruence.
  - intros (Hi1 & Hi3 & _) H. specialize (H i Hi1). congruence.
  - intros H (Hi1 & Hi3 & _). specialize (H j Hi1). congruence.
Qed.

Lemma window_drop w l lo i : window w (drop lo l) i = window w l (lo + i).
Proof. unfold window. by rewrite drop_drop. Qed.

Lemma window_take w l e i : i + w <= e -> window w (take e l) i = window w l i.
Proof.
  intros H. unfold window. rewrite !take_drop_commute, take_take. by rewrite Nat.min_l by lia.
Qed.

Lemma position_windows q w l lo :
  lo <= length l ->
  first_window q w l lo ((fun off => lo + off) <$> position q (windows w (drop lo l))).
Proof.
  intros Hlo. destruct (position q (windows w (drop lo l))) as [i|] eqn:E; cbn.
  - apply position_Some in E as [(x & Hx & Hq) Hlt].
    rewrite lookup_windows in Hx. case_decide as Hi; [|done]. rewrite length_drop in Hi.
    simplify_eq. rewrite window_drop in Hq. do 3 (split; [done || lia|]).
    intros j Hj. specialize (Hlt (j - lo) (window w l j) ltac:(lia)). apply Hlt.
    rewrite lookup_windows, decide_True by (rewrite length_drop; lia).
    rewrite window_drop. repeat f_equal. lia.
  - apply position_None in E. unfold none_is in E. rewrite Forall_lookup in E.
    intros j Hj Hle. apply (E (j - lo)). rewrite lookup_windows, decide_True by (rewrite length_drop; lia).
    rewrite window_drop. repeat f_equal. lia.
Qed.

Lemma rposition_windows q w l e :
  w <= e -> e <= length l ->
  last_window q w l (e - w + 1) (rposition q (windows w (take e l))).
Proof.
  intros Hw He.
  assert (Hlk : forall j, windows w (take e l) !! j =
                if decide (j < e - w + 1) then Some (window w l j) else None).
  { intros j. rewrite lookup_windows, length_take, Nat.min_l by lia.
    do 2 case_decide; try lia; [|done]. f_equal. apply window_take. lia. }
  destruct (rposition q (windows w (take e l))) as [i|] eqn:E; cbn.
  - apply rposition_Some in E as [(x & Hx & Hq) Hlt]. rewrite Hlk in Hx.
    case_decide as Hi; [|done]. simplify_eq. do 2 (split; [done|]).
    intros j Hj. apply (Hlt j); [lia|]. rewrite Hlk, decide_True by lia. done.
  - apply rposition_None in E. unfold none_is in E. rewrite Forall_lookup in E.
    intros j Hj. apply (E j). rewrite Hlk, decide_True by lia. done.
Qed.

Lemma windows_1 (l : bytes) : windows 1 l = (fun x => [x]) <$> l.
Proof.
  apply list_eq. intros i. rewrite lookup_windows, list_lookup_fmap.
  destruct (l !! i) as [x|] eqn:E; cbn.
  - rewrite decide_True by (apply lookup_lt_Some in E; lia).
    unfold window. by rewrite (drop_S _ _ _ E).
  - apply lookup_ge_None in E. rewrite decide_False by lia. done.
Qed.

(** ** Line breaks

    The number of line breaks of a text: a line feed, a carriage return with
    the line feed that follows it, or a carriage return alone. *)

Fixpoint line_breaks (l : bytes) : nat :=
  match l with
  | [] => 0
  | x :: t =>
    if x =b x0a then S (line_breaks t)
    else if x =b x0d then
      match t with
      | y :: t' => if y =b x0a then S (line_breaks t') else S (line_breaks t)
      | [] => 1
      end
    else line_breaks t
  end.

Definition is_newline (x : byte) : bool := (x =b x0a) || (x =b x0d).

Lemma line_breaks_skip l1 l2 :
  none_is is_newline l1 -> line_breaks (l1 ++ l2) = line_breaks l2.
Proof.
  induction 1 as [|x l1 Hx _ IH]; [done|]. cbn [app line_breaks].
  unfold is_newline in Hx. apply orb_false_iff in Hx as [-> ->]. done.
Qed.

Lemma line_breaks_none l : none_is is_newline l -> line_breaks l = 0.
Proof. intros H. rewrite <- (app_nil_r l). by rewrite line_breaks_skip. Qed.

Lemma is_first_split {A} (p : A -> bool) (l : list A) i :
  is_first p l i -> exists x, l !! i = Some x /\ p x = true /\ none_is p (take i l).
Proof.
  intros [(x & Hx & Hp) Hlt]. exists x. do 2 (split; [done|]).
  apply Forall_lookup. intros j y Hj. apply lookup_take_Some in Hj as [Hj Hji]. by apply (Hlt j).
Qed.

(** ** Single bytes through [memchr] *)

Section Proofs.
Context {mc : Memchr} {laws : MemchrLaws mc} (bk : backend).

Lemma find_byte_position l n : find_byte l n = position (fun x => x =b n) l.
Proof. apply finds_first_position, memchr_law. Qed.

Lemma rfind_byte_rposition l n : rfind_byte l n = rposition (fun x => x =b n) l.
Proof. apply finds_last_rposition, memrchr_law. Qed.

Lemma find_any2_position l n1 n2 : find_any2 l n1 n2 = position (fun x => (x =b n1) || (x =b n2)) l.
Proof. apply finds_first_position, memchr2_law. Qed.

Lemma find_any3_position l n1 n2 n3 :
  find_any3 l n1 n2 n3 = position (fun x => (x =b n1) || (x =b n2) || (x =b n3)) l.
Proof. apply finds_first_position, memchr3_law. Qed.

(** Folding one needle byte, decided over all pairs of bytes. *)
Lemma fold_byte_cases n x :
  (if is_ascii_alphabetic n
   then (x =b to_ascii_lowercase n) || (x =b to_ascii_uppercase n) else x =b n)
  = byte_eq_ignore_ascii_case x n.
Proof.
  apply eqb_prop. revert x. apply byte_forall. revert n. apply byte_forall.
  vm_compute. reflexivity.
Qed.

Lemma find_folded_position l n :
  find_ascii_folded_byte l n = position (fun x => byte_eq_ignore_ascii_case x n) l.
Proof.
  unfold find_ascii_folded_byte. destruct (is_ascii_alphabetic n) eqn:Hn.
  - rewrite (finds_first_position _ _ _ (memchr2_law _ _ l)). apply position_ext.
    intros x. rewrite <- fold_byte_cases. by rewrite Hn.
  - rewrite find_byte_position. apply position_ext.
    intros x. rewrite <- fold_byte_cases. by rewrite Hn.
Qed.

Lemma rfind_folded_rposition l n :
  rfind_ascii_folded_byte l n = rposition (fun x => byte_eq_ignore_ascii_case x n) l.
Proof.
  unfold rfind_ascii_folded_byte. destruct (is_ascii_alphabetic n) eqn:Hn.
  - rewrite (finds_last_rposition _ _ _ (memrchr2_law _ _ l)). apply rposition_ext.
    intros x. rewrite <- fold_byte_cases. by rewrite Hn.
  - rewrite rfind_byte_rposition. apply rposition_ext.
    intros x. rewrite <- fold_byte_cases. by rewrite Hn.
Qed.

(** ** Case-insensitive substring search *)

Section CaseInsensitive.
Context (haystack : bytes) (first : byte) (rest : bytes).
Let needle := first :: rest.
Let w := length needle.
Let q (x : bytes) := eq_ignore_ascii_case x needle.
Let fold1 (x : byte) := byte_eq_ignore_ascii_case x first.

(** A matching window starts with a byte that folds to the first needle byte. *)
Lemma window_first_byte i :
  q (window w haystack i) = true ->
  exists x, haystack !! i = Some x /\ fold1 x = true.
Proof.
  unfold q, window, w, needle. destruct (drop i haystack) as [|x t] eqn:E; [done|].
  intros H. exists x. cbn in H. apply andb_true_iff in H as [H _]. split; [|done].
  rewrite <- (Nat.add_0_r i), <- lookup_drop, E. done.
Qed.

Lemma slice_window i : i + w <= length haystack -> slice haystack i (i + w) = Ret (window w haystack i).
Proof.
  intros H. unfold slice. rewrite (proj2 (Nat.leb_le _ _)) by lia.
  rewrite (proj2 (Nat.leb_le _ _)) by lia. cbn. unfold window. by rewrite take_drop_commute.
Qed.

Lemma find_ci_loop_spec fuel lo search :
  (forall j, lo <= j < search -> j + w <= length haystack -> q (window w haystack j) = false) ->
  lo <= search -> w <= length haystack -> length haystack - search < fuel ->
  exists r, find_ci_loop fuel haystack needle first search = Ret r /\ first_window q w haystack lo r.
Proof.
  revert search. induction fuel as [|fuel IH]; intros search Hno Hlo Hw Hfuel; [lia|].
  cbn [find_ci_loop]. fold w.
  destruct (Nat.leb_spec search (length haystack - w)) as [Hle|Hgt].
  - rewrite slice_from_ok by lia. cbn [obind]. rewrite find_folded_position. fold fold1.
    destruct (position fold1 (drop search haystack)) as [off|] eqn:Hp; cbn [fmap option_fmap option_map].
    + apply position_Some in Hp as [(x & Hx & _) Hlt]. rewrite lookup_drop in Hx.
      assert (Hskip : forall j, lo <= j < search + off -> j + w <= length haystack ->
                      q (window w haystack j) = false).
      { intros j Hj Hjw. destruct (decide (j < search)); [apply Hno; [lia | done]|].
        destruct (q (window w haystack j)) eqn:Hq; [|done].
        apply window_first_byte in Hq as (y & Hy & Hf).
        specialize (Hlt (j - search) y ltac:(lia)). rewrite lookup_drop in Hlt.
        replace (search + (j - search)) with j in Hlt by lia. rewrite Hlt in Hf; done. }
      destruct (Nat.ltb_spec (length haystack) (search + off + w)) as [Hout|Hin].
      * exists None. split; [done|]. intros j Hj Hjw. apply Hskip; [lia | done].
      * rewrite slice_window by lia. cbn [obind].
        destruct (eq_ignore_ascii_case (window w haystack (search + off)) needle) eqn:Hq.
        { exists (Some (search + off)). split; [done|]. repeat split; try done; try lia.
          intros j Hj. apply Hskip; lia. }
        apply lookup_lt_Some in Hx. apply IH; [|lia|done|lia].
        intros j Hj Hjw. destruct (decide (j = search + off)) as [->|]; [done|].
        apply Hskip; [lia | done].
    + exists None. split; [done|]. intros j Hj Hjw.
      destruct (decide (j < search)); [apply Hno; [lia | done]|].
      destruct (q (window w haystack j)) eqn:Hq; [|done].
      apply window_first_byte in Hq as (y & Hy & Hf).
      apply position_None in Hp. unfold none_is in Hp. rewrite Forall_lookup in Hp.
      specialize (Hp (j - search) y). rewrite lookup_drop in Hp.
      replace (search + (j - search)) with j in Hp by lia. cbn in Hp. rewrite Hp in Hf; done.
  - exists None. split; [done|]. intros j Hj Hjw. apply Hno; [|done]. lia.
Qed.

Lemma rfind_ci_loop_spec fuel hi search_end :
  (forall j, search_end <= j < hi -> q (window w haystack j) = false) ->
  search_end <= hi -> hi + w <= length haystack + 1 -> search_end < fuel ->
  exists r, rfind_ci_loop fuel haystack needle first search_end = Ret r /\
            last_window q w haystack hi r.
Proof.
  revert search_end. induction fuel as [|fuel IH]; intros se Hno Hse Hhi Hfuel; [lia|].
  cbn [rfind_ci_loop]. fold w. destruct (Nat.ltb_spec 0 se) as [Hpos|Hz].
  - assert (1 <= w) by (unfold w, needle; cbn; lia).
    unfold slice at 1. cbn [Nat.leb andb]. rewrite (proj2 (Nat.leb_le se _)) by lia.
    cbn [obind]. rewrite drop_0, rfind_folded_rposition. fold fold1.
    destruct (rposition fold1 (take se haystack)) as [i|] eqn:Hp.
    + pose proof (rposition_lt _ _ _ Hp) as Hi. rewrite length_take in Hi.
      apply rposition_Some in Hp as [_ Hlt].
      assert (Hskip : forall j, i < j < hi -> q (window w haystack j) = false).
      { intros j Hj. destruct (decide (se <= j)); [apply Hno; lia|].
        destruct (q (window w haystack j)) eqn:Hq; [|done].
        apply window_first_byte in Hq as (y & Hy & Hf).
        specialize (Hlt j y ltac:(lia)). rewrite lookup_take_lt in Hlt by lia.
        rewrite Hlt in Hf; done. }
      rewrite slice_window by lia. cbn [obind].
      destruct (eq_ignore_ascii_case (window w haystack i) needle) eqn:Hq.
      { exists (Some i). split; [done|]. repeat split; try done; lia. }
      apply IH; [|lia|lia|lia]. intros j Hj.
      destruct (decide (j = i)) as [->|]; [done|]. apply Hskip. lia.
    + exists None. split; [done|]. intros j Hj.
      destruct (decide (se <= j)); [apply Hno; lia|].
      destruct (q (window w haystack j)) eqn:Hq; [|done].
      apply window_first_byte in Hq as (y & Hy & Hf).
      apply rposition_None in Hp. unfold none_is in Hp. rewrite Forall_lookup in Hp.
      specialize (Hp j y). rewrite lookup_take_lt in Hp by lia. cbn in Hp.
      rewrite Hp in Hf; done.
  - exists None. split; [done|]. intros j Hj. apply Hno. lia.
Qed.
End CaseInsensitive.

Lemma single_byte_window l lo n :
  lo <= length l ->
  first_window (fun x => eq_ignore_ascii_case x [n]) 1 l lo
    ((fun off => lo + off) <$> position (fun x => byte_eq_ignore_ascii_case x n) (drop lo l)).
Proof.
  intros Hlo.
  replace (position _ (drop lo l))
    with (position (fun x => eq_ignore_ascii_case x [n]) (windows 1 (drop lo l)));
    [by apply position_windows|].
  rewrite (windows_1 (drop lo l)), position_fmap. apply position_ext.
  intros x. cbn. by rewrite andb_true_r.
Qed.

End Proofs.

(** ** The accelerated functions against their references *)

(** The case-insensitive substring searches, forwards and backwards, return
    what the window-by-window reference returns, for every haystack, needle and
    start offset: the skip loop over the first needle byte misses no match, and
    neither loop panics. *)
Theorem case_insensitive_search_reference {mc : Memchr} {laws : MemchrLaws mc} haystack needle at_ :
  find_bytes_ascii_case_insensitive_from haystack needle at_ =
    find_bytes_ascii_case_insensitive_from_scalar haystack needle at_ /\
  rfind_bytes_ascii_case_insensitive_before haystack needle at_ =
    rfind_bytes_ascii_case_insensitive_before_scalar haystack needle at_.
Proof.
  unfold find_bytes_ascii_case_insensitive_from, find_bytes_ascii_case_insensitive_from_scalar,
    find_window_from, rfind_bytes_ascii_case_insensitive_before,
    rfind_bytes_ascii_case_insensitive_before_scalar, rfind_window_before.
  destruct needle as [|first rest]; [done|]. set (needle := first :: rest). split.
  - destruct ((length haystack <? at_) || _) eqn:Hg; [done|].
    apply orb_false_iff in Hg as [Hg1%Nat.ltb_ge Hg2%Nat.ltb_ge].
    pose proof (position_windows (fun w => eq_ignore_ascii_case w needle) (length needle)
                  haystack at_ Hg1) as Href.
    rewrite slice_from_ok by done. cbn [obind].
    destruct (Nat.eqb_spec (length needle) 1) as [H1|H1].
    + destruct rest; [|done]. f_equal. rewrite find_folded_position.
      by eapply first_window_unique; [apply single_byte_window | apply Href].
    + destruct (find_ci_loop_spec haystack first rest (loop_fuel haystack) at_ at_)
        as (r & E & Hr); [lia|lia|fold needle; lia|unfold loop_fuel; lia|].
      fold needle in E. rewrite E. f_equal. by eapply first_window_unique.
  - destruct (_ <? length needle) eqn:Hg; [done|]. apply Nat.ltb_ge in Hg.
    set (e := at_ `min` length haystack) in *. assert (He : e <= length haystack) by lia.
    unfold slice, usize_sub. cbn [Nat.leb andb]. rewrite !(proj2 (Nat.leb_le _ _)) by lia.
    cbn [obind]. rewrite drop_0.
    pose proof (rposition_windows (fun w => eq_ignore_ascii_case w needle) (length needle)
                  haystack e Hg He) as Href.
    destruct (Nat.eqb_spec (length needle) 1) as [H1|H1].
    + destruct rest; [|done]. f_equal. rewrite rfind_folded_rposition, windows_1, rposition_fmap.
      apply rposition_ext. intros x. cbn. by rewrite andb_true_r.
    + destruct (rfind_ci_loop_spec haystack first rest (loop_fuel haystack)
                  (e - length needle + 1) (e - length needle + 1))
        as (r & E & Hr); [lia|lia|fold needle; lia|unfold loop_fuel, needle in *; cbn [length] in *; lia|].
      fold needle in E. rewrite E. f_equal. by eapply last_window_unique.
Qed.

Lemma case_insensitive_search_reference_witness :
  find_bytes_ascii_case_insensitive_from (mc := memchr_naive) [x61; x41; x62; x43] [x42; x63] 0 = Ret (Some 2)
  /\ rfind_bytes_ascii_case_insensitive_before (mc := memchr_naive) [x61; x41; x62; x43] [x61; x62] 4
     = Ret (Some 1).
Proof.
  split.
  - rewrite (proj1 (case_insensitive_search_reference (laws := memchr_naive_laws)
                      [x61; x41; x62; x43] [x42; x63] 0)). reflexivity.
  - rewrite (proj2 (case_insensitive_search_reference (laws := memchr_naive_laws)
                      [x61; x41; x62; x43] [x61; x62] 4)). reflexivity.
Defined.

(** Exact substring search through [memchr] (with its one-byte special case
    and its guards on the start offset) agrees with the window-by-window
    reference in both directions. *)
Theorem substring_search_reference {mc : Memchr} {laws : MemchrLaws mc} haystack needle at_ :
  find_bytes_from haystack needle at_ = find_bytes_from_scalar haystack needle at_ /\
  rfind_bytes_before haystack needle at_ = rfind_bytes_before_scalar haystack needle at_.
Proof.
  unfold find_bytes_from, find_bytes_from_scalar, find_window_from,
    rfind_bytes_before, rfind_bytes_before_scalar, rfind_window_before.
  assert (Hone : forall n (x : byte), bytes_eqb [x] [n] = (x =b n))
    by (intros; cbn; by rewrite andb_true_r).
  destruct needle as [|n [|n2 needle]]; [done| |].
  - split.
    + destruct ((length haystack <? at_) || _); [done|].
      destruct (slice_from haystack at_) as [rest| |]; [|done..]. cbn [obind].
      change (length [n]) with 1. rewrite find_byte_position, windows_1, position_fmap.
      by rewrite (position_ext _ _ rest (Hone n)).
    + destruct (_ <? length [n]); [done|].
      destruct (slice haystack 0 _) as [head| |]; [|done..]. cbn [obind].
      change (length [n]) with 1. rewrite rfind_byte_rposition, windows_1, rposition_fmap.
      by rewrite (rposition_ext _ _ head (Hone n)).
  - split.
    + destruct ((length haystack <? at_) || _); [done|].
      destruct (slice_from haystack at_) as [rest| |]; [|done..]. cbn [obind].
      by rewrite (finds_first_position _ _ _ (memmem_find_law rest (n :: n2 :: needle) ltac:(done))).
    + destruct (_ <? length (n :: n2 :: needle)); [done|].
      destruct (slice haystack 0 _) as [head| |]; [|done..]. cbn [obind].
      by rewrite (finds_last_rposition _ _ _ (memmem_rfind_law head (n :: n2 :: needle) ltac:(done))).
Qed.

Lemma substring_search_reference_witness :
  find_bytes_from (mc := memchr_naive) [x61; x62; x61; x62] [x61; x62] 1 = Ret (Some 2) /\
  rfind_bytes_before (mc := memchr_naive) [x61; x62; x61; x62] [x61; x62] 3 = Ret (Some 0).
Proof.
  split.
  - rewrite (proj1 (substring_search_reference (laws := memchr_naive_laws)
                      [x61; x62; x61; x62] [x61; x62] 1)). reflexivity.
  - rewrite (proj2 (substring_search_reference (laws := memchr_naive_laws)
                      [x61; x62; x61; x62] [x61; x62] 3)). reflexivity.
Defined.

(** ** Counting line breaks *)

Lemma line_breaks_at l off x :
  l !! off = Some x ->
  line_breaks (drop off l) =
  if x =b x0a then S (line_breaks (drop (off + 1) l))
  else if x =b x0d then
    if opt_is (l !! (off + 1)) x0a then S (line_breaks (drop (off + 2) l))
    else S (line_breaks (drop (off + 1) l))
  else line_breaks (drop (off + 1) l).
Proof.
  intros Hx. rewrite (drop_S _ _ _ Hx). cbn [line_breaks].
  replace (S off) with (off + 1) by lia.
  destruct (x =b x0a); [done|]. destruct (x =b x0d); [|done].
  destruct (l !! (off + 1)) as [y|] eqn:Hy; cbn [opt_is].
  - rewrite (drop_S _ _ _ Hy). by replace (S (off + 1)) with (off + 2) by lia.
  - apply lookup_ge_None in Hy. by rewrite drop_ge by lia.
Qed.

Lemma count_newlines_scalar_loop_spec l fuel count off :
  length l - off < fuel ->
  count_newlines_scalar_loop fuel l count off = Ret (count + line_breaks (drop off l)).
Proof.
  revert count off. induction fuel as [|fuel IH]; intros count off Hfuel; [lia|].
  cbn [count_newlines_scalar_loop]. destruct (Nat.ltb_spec off (length l)) as [Hlt|Hge].
  - destruct (lookup_lt_is_Some_2 l off Hlt) as [x Hx]. unfold index. rewrite Hx. cbn [obind].
    rewrite (line_breaks_at _ _ _ Hx).
    destruct (x =b x0a); [rewrite IH by lia; f_equal; lia|].
    destruct (x =b x0d); cbn [andb]; [|by rewrite IH by lia].
    destruct (opt_is (l !! (off + 1)) x0a); rewrite IH by lia; f_equal; lia.
  - rewrite drop_ge by lia. cbn. f_equal. lia.
Qed.

Lemma count_newlines_loop_spec {mc : Memchr} {laws : MemchrLaws mc} l fuel count off :
  length l - off < fuel ->
  count_newlines_loop fuel l count off = Ret (count + line_breaks (drop off l)).
Proof.
  revert count off. induction fuel as [|fuel IH]; intros count off Hfuel; [lia|].
  cbn [count_newlines_loop]. destruct (Nat.ltb_spec off (length l)) as [Hlt|Hge].
  - rewrite slice_from_ok by lia. cbn [obind].
    rewrite (finds_first_position _ _ _ (memchr2_law x0a x0d (drop off l))). fold is_newline.
    destruct (position is_newline (drop off l)) as [rel|] eqn:Hp.
    + apply position_Some, is_first_split in Hp as (x & Hx & Hnl & Hnone).
      assert (E : line_breaks (drop off l) = line_breaks (drop (off + rel) l)).
      { rewrite <- (take_drop rel (drop off l)), line_breaks_skip, drop_drop by done. done. }
      rewrite lookup_drop in Hx. rewrite E, (line_breaks_at _ _ _ Hx).
      unfold index. rewrite Hx. cbn [obind]. unfold is_newline in Hnl.
      destruct (x =b x0a) eqn:Ha.
      * apply beq_eq in Ha as ->. cbn [Byte.eqb andb]. change (x0a =b x0d) with false.
        cbn [andb]. rewrite IH by lia. f_equal. lia.
      * cbn [orb] in Hnl. rewrite Hnl. cbn [andb].
        destruct (opt_is (l !! (off + rel + 1)) x0a); rewrite IH by lia; f_equal; lia.
    + apply position_None in Hp. rewrite line_breaks_none by done. f_equal. lia.
  - rewrite drop_ge by lia. cbn. f_equal. lia.
Qed.

(** Both line-break counters terminate without a panic and return the number
    of line breaks of the text ([\n], [\r\n] and a lone [\r] count once each). *)
Theorem count_newlines_correct {mc : Memchr} {laws : MemchrLaws mc} l :
  count_newlines l = Ret (line_breaks l) /\ count_newlines_scalar l = Ret (line_breaks l).
Proof.
  unfold count_newlines, count_newlines_scalar, loop_fuel.
  rewrite count_newlines_loop_spec, count_newlines_scalar_loop_spec by lia.
  by rewrite drop_0.
Qed.

Lemma count_newlines_correct_witness :
  count_newlines (mc := memchr_naive) [x61; x0d; x0a; x0a; x0d; x62] = Ret 3.
Proof.
  rewrite (proj1 (count_newlines_correct (laws := memchr_naive_laws) [x61; x0d; x0a; x0a; x0d; x62])).
  reflexivity.
Defined.

(** ** Whitespace *)

Lemma forallb_position {A} (p : A -> bool) l :
  forallb p l = match position (fun x => negb (p x)) l with Some _ => false | None => true end.
Proof.
  induction l as [|x l IH]; cbn; [done|]. destruct (p x); cbn; [|done].
  rewrite IH. by destruct (position _ l).
Qed.

Lemma min_index_position {A} (p q : A -> bool) l :
  min_index (position p l) (position q l) = position (fun x => p x || q x) l.
Proof.
  induction l as [|x l IH]; cbn [position]; [done|].
  destruct (p x), (q x); cbn [orb].
  - done.
  - by destruct (position q l).
  - by destruct (position p l).
  - rewrite <- IH. destruct (position p l) as [i|], (position q l) as [j|];
      cbn [min_index fmap option_fmap option_map]; try done.
    by destruct (Nat.ltb_spec (S i) (S j)), (Nat.ltb_spec i j); try lia.
Qed.

Lemma max_index_rposition {A} (p q : A -> bool) l :
  max_index (rposition p l) (rposition q l) = rposition (fun x => p x || q x) l.
Proof.
  induction l as [|x l IH]; cbn [rposition]; [done|]. rewrite <- IH.
  destruct (rposition p l) as [i|], (rposition q l) as [j|]; cbn [max_index].
  - by destruct (Nat.ltb_spec (S j) (S i)), (Nat.ltb_spec j i); try lia.
  - by destruct (q x).
  - by destruct (p x).
  - by destruct (p x), (q x).
Qed.

(** Searching whitespace in two [memchr] passes and taking the nearer (or
    farther) hit finds the first (last) ASCII whitespace byte, and the derived
    predicates agree with their references on every backend. *)
Theorem whitespace_search_reference {mc : Memchr} {laws : MemchrLaws mc} bk l :
  find_ascii_whitespace l = find_ascii_whitespace_scalar l /\
  rfind_ascii_whitespace l = rfind_ascii_whitespace_scalar l /\
  contains_ascii_whitespace l = contains_ascii_whitespace_scalar l /\
  all_ascii_whitespace bk l = Ret (all_ascii_whitespace_scalar l) /\
  all_ascii_digits bk l = Ret (all_ascii_digits_scalar l).
Proof.
  assert (Hf : find_ascii_whitespace l = find_ascii_whitespace_scalar l).
  { unfold find_ascii_whitespace.
    rewrite (finds_first_position _ _ _ (memchr3_law _ _ _ l)),
      (finds_first_position _ _ _ (memchr2_law _ _ l)), min_index_position.
    apply position_ext. by_bytes. }
  split; [done|]. split; [|split; [|split]].
  - unfold rfind_ascii_whitespace.
    rewrite (finds_last_rposition _ _ _ (memrchr3_law _ _ _ l)),
      (finds_last_rposition _ _ _ (memrchr2_law _ _ l)), max_index_rposition.
    apply rposition_ext. by_bytes.
  - unfold contains_ascii_whitespace, contains_ascii_whitespace_scalar.
    by rewrite Hf, existsb_position.
  - unfold all_ascii_whitespace, all_ascii_whitespace_scalar. rewrite arch_non_whitespace.
    by rewrite forallb_position.
  - unfold all_ascii_digits, all_ascii_digits_scalar. rewrite arch_digit_run. cbn [obind].
    rewrite forallb_position, run_len_match. f_equal.
    destruct (position _ l) as [i|] eqn:Hi; [|apply Nat.eqb_refl].
    apply position_lt in Hi. apply Nat.eqb_neq. lia.
Qed.

Lemma whitespace_search_reference_witness :
  find_ascii_whitespace (mc := memchr_naive) [x61; x0c; x20] = Some 1.
Proof.
  rewrite (proj1 (whitespace_search_reference (laws := memchr_naive_laws) BScalar [x61; x0c; x20])).
  reflexivity.
Defined.
