(* ===== verification/Source.v ===== *)
(** * Source: byte positions, ranges and the line index

    [crates/php_source/src/span.rs], [line_index.rs] and [lib.rs]. *)

From Stdlib Require Import Strings.String Strings.Byte.
From stdpp Require Import base list option numbers sorting.
From S2P Require Import Prelude RustStd Simd SimdProofs ByteKernel ByteKernelProofs.

(** ** Spans *)

Record BytePos := BytePos_new { to_usize : nat }.

Record TextRange := mkTextRange { start : BytePos; end_ : BytePos }.

#[export] Instance BytePos_eq_dec : EqDecision BytePos.
Proof. solve_decision. Defined.
#[export] Instance TextRange_eq_dec : EqDecision TextRange.
Proof. solve_decision. Defined.

Definition TextRange_new (s e : nat) : TextRange :=
  let s := BytePos_new s in
  let e := if e <? to_usize s then s else BytePos_new e in
  mkTextRange s e.

Definition TextRange_try_new (s e : nat) : option TextRange :=
  if s <=? e then Some (mkTextRange (BytePos_new s) (BytePos_new e)) else None.

Definition TextRange_empty (pos : nat) : TextRange :=
  let pos := BytePos_new pos in mkTextRange pos pos.

Definition TextRange_len (r : TextRange) : outcome nat :=
  usize_sub (to_usize (end_ r)) (to_usize (start r)).

Definition TextRange_is_empty (r : TextRange) : bool :=
  to_usize (start r) =? to_usize (end_ r).

(** ** The line index *)

Record LineCol := LineCol_new { line : nat; column : nat }.

Record LineIndex := mkLineIndex { line_starts : list nat; source_len : nat }.

Section LineIndex.
Context {mc : Memchr}.

Fixpoint line_index_loop (fuel : nat) (l : bytes) (starts : list nat) (i : nat)
    : outcome (list nat) :=
  match fuel with
  | O => Timeout
  | S fuel =>
    if i <? length l then
      olet rest := slice_from l i in
      match find_any2 rest x0a x0d with
      | None => Ret starts
      | Some relative =>
        let i := i + relative in
        olet x := index l i in
        if x =b x0a then line_index_loop fuel l (starts ++ [i + 1]) (i + 1)
        else if (x =b x0d) && opt_is (l !! (i + 1)) x0a
        then line_index_loop fuel l (starts ++ [i + 2]) (i + 2)
        else if x =b x0d then line_index_loop fuel l (starts ++ [i + 1]) (i + 1)
        else line_index_loop fuel l starts (i + 1)
      end
    else Ret starts
  end.

Definition LineIndex_new (source : bytes) : outcome LineIndex :=
  olet starts := line_index_loop (loop_fuel source) source [0] 0 in
  Ret (mkLineIndex starts (length source)).
End LineIndex.

Definition line_count (ix : LineIndex) : nat := length (line_starts ix).

(** [slice::binary_search] on a sorted slice without duplicates: [Ok] is the
    index of the element, [Err] the index where it would be inserted. *)
Definition binary_search (l : list nat) (x : nat) : nat + nat :=
  let i := length (List.filter (fun y => y <? x) l) in
  match l !! i with
  | Some y => if y =? x then inl i else inr i
  | None => inr i
  end.

Definition line_col (ix : LineIndex) (pos : BytePos) : outcome LineCol :=
  let pos := to_usize pos `min` source_len ix in
  let line_index := match binary_search (line_starts ix) pos with
                    | inl i => i
                    | inr O => 0
                    | inr (S i) => i
                    end in
  olet line_start := index (line_starts ix) line_index in
  olet c := usize_sub pos line_start in
  Ret (LineCol_new (line_index + 1) (c + 1)).

(** ** Source text *)

Record SourceText := mkSourceText { text : bytes; line_index : LineIndex }.

Definition SourceText_new {mc : Memchr} (t : bytes) : outcome SourceText :=
  olet ix := LineIndex_new t in Ret (mkSourceText t ix).

Definition SourceText_line_col (s : SourceText) (pos : BytePos) : outcome LineCol :=
  line_col (line_index s) pos.

(** [str::get]: nothing unless both ends are character boundaries. *)
Definition SourceText_slice (s : SourceText) (r : TextRange) : option bytes :=
  str_get (text s) (to_usize (start r)) (to_usize (end_ r)).

(** ** Ranges are ordered *)

Definition TextRange_wf (r : TextRange) : Prop := to_usize (start r) <= to_usize (end_ r).

Lemma TextRange_new_wf s e : TextRange_wf (TextRange_new s e).
Proof.
  unfold TextRange_new, TextRange_wf. cbn [to_usize].
  destruct (Nat.ltb_spec e s); cbn; lia.
Qed.

Lemma TextRange_new_ok s e :
  s <= e -> TextRange_new s e = mkTextRange (BytePos_new s) (BytePos_new e).
Proof.
  intros H. unfold TextRange_new. cbn [to_usize]. by destruct (Nat.ltb_spec e s); [lia|].
Qed.

(** [TextRange::new] always yields an ordered range: it agrees with
    [try_new] where that accepts, and is the empty range at [start] where
    [try_new] rejects; [len] then never underflows. *)
Theorem text_range_construction s e :
  TextRange_new s e = default (TextRange_empty s) (TextRange_try_new s e) /\
  TextRange_len (TextRange_new s e) = Ret (e - s) /\
  TextRange_is_empty (TextRange_new s e) = (e <=? s).
Proof.
  unfold TextRange_new, TextRange_try_new, TextRange_empty, TextRange_len, TextRange_is_empty, usize_sub.
  cbn [to_usize].
  destruct (Nat.ltb_spec e s) as [H|H]; cbn [start end_ to_usize].
  - rewrite (proj2 (Nat.leb_gt s e)), Nat.leb_refl, Nat.eqb_refl by done.
    rewrite (proj2 (Nat.leb_le e s)) by lia. repeat split; f_equal; lia.
  - rewrite !(proj2 (Nat.leb_le s e)) by done. repeat split.
    destruct (Nat.eqb_spec s e), (Nat.leb_spec e s); try lia; done.
Qed.

(** ** The line starts *)

(** The offsets just after each line break of [l], which sits at [off]. *)
Fixpoint break_ends (off : nat) (l : bytes) : list nat :=
  match l with
  | [] => []
  | x :: t =>
    if x =b x0a then (off + 1) :: break_ends (off + 1) t
    else if x =b x0d then
      match t with
      | y :: t' => if y =b x0a then (off + 2) :: break_ends (off + 2) t'
                   else (off + 1) :: break_ends (off + 1) t
      | [] => [off + 1]
      end
    else break_ends (off + 1) t
  end.

Lemma break_ends_skip off l1 l2 :
  none_is is_newline l1 -> break_ends off (l1 ++ l2) = break_ends (off + length l1) l2.
Proof.
  intros H. revert off. induction H as [|x l1 Hx _ IH]; intros off; cbn [app break_ends length].
  - by rewrite Nat.add_0_r.
  - unfold is_newline in Hx. apply orb_false_iff in Hx as [-> ->]. rewrite IH. f_equal. lia.
Qed.

Lemma break_ends_none off l : none_is is_newline l -> break_ends off l = [].
Proof. intros H. rewrite <- (app_nil_r l). by rewrite break_ends_skip. Qed.

Lemma break_ends_at l off x :
  l !! off = Some x ->
  break_ends off (drop off l) =
  if x =b x0a then (off + 1) :: break_ends (off + 1) (drop (off + 1) l)
  else if x =b x0d then
    if opt_is (l !! (off + 1)) x0a then (off + 2) :: break_ends (off + 2) (drop (off + 2) l)
    else (off + 1) :: break_ends (off + 1) (drop (off + 1) l)
  else break_ends (off + 1) (drop (off + 1) l).
Proof.
  intros Hx. rewrite (drop_S _ _ _ Hx). cbn [break_ends].
  replace (S off) with (off + 1) by lia.
  destruct (x =b x0a); [done|]. destruct (x =b x0d); [|done].
  destruct (l !! (off + 1)) as [y|] eqn:Hy; cbn [opt_is].
  - rewrite (drop_S _ _ _ Hy). by replace (S (off + 1)) with (off + 2) by lia.
  - apply lookup_ge_None in Hy. by rewrite drop_ge by lia.
Qed.

Lemma line_index_loop_spec {mc : Memchr} {laws : MemchrLaws mc} l fuel starts i :
  length l - i < fuel ->
  line_index_loop fuel l starts i = Ret (starts ++ break_ends i (drop i l)).
Proof.
  revert starts i. induction fuel as [|fuel IH]; intros starts i Hfuel; [lia|].
  cbn [line_index_loop]. destruct (Nat.ltb_spec i (length l)) as [Hlt|Hge].
  - rewrite slice_from_ok by lia. cbn [obind]. rewrite find_any2_position. fold is_newline.
    destruct (position is_newline (drop i l)) as [rel|] eqn:Hp.
    + pose proof (position_lt _ _ _ Hp) as Hrel. rewrite length_drop in Hrel.
      apply position_Some, is_first_split in Hp as (x & Hx & Hnl & Hnone).
      assert (E : break_ends i (drop i l) = break_ends (i + rel) (drop (i + rel) l)).
      { rewrite <- (take_drop rel (drop i l)) at 1. rewrite break_ends_skip, drop_drop by done.
        by rewrite length_take, length_drop, Nat.min_l by lia. }
      rewrite lookup_drop in Hx. rewrite E, (break_ends_at _ _ _ Hx).
      unfold index. rewrite Hx. cbn [obind].
      destruct (x =b x0a); [rewrite IH, <- app_assoc by lia; done|].
      destruct (x =b x0d); cbn [andb].
      * destruct (opt_is (l !! (i + rel + 1)) x0a); rewrite IH, <- app_assoc by lia; done.
      * by rewrite IH by lia.
    + apply position_None in Hp. by rewrite break_ends_none, app_nil_r by done.
  - by rewrite drop_ge, app_nil_r by lia.
Qed.

Lemma line_index_new_spec {mc : Memchr} {laws : MemchrLaws mc} l :
  LineIndex_new l = Ret (mkLineIndex (0 :: break_ends 0 l) (length l)).
Proof.
  unfold LineIndex_new, loop_fuel. rewrite line_index_loop_spec by lia. by rewrite drop_0.
Qed.

(** Induction that follows the line breaks of a text. *)
Lemma breaks_ind (P : nat -> bytes -> Prop) :
  (forall off, P off []) ->
  (forall off x t, (forall off' t', length t' <= length t -> P off' t') -> P off (x :: t)) ->
  forall off l, P off l.
Proof.
  intros Hnil Hcons off l.
  enough (H : forall n l off, length l <= n -> P off l) by (by apply (H (length l))).
  clear off l. induction n as [|n IH]; intros [|x t] off Hl; cbn in Hl; try apply Hnil; [lia|].
  apply Hcons. intros off' t' Ht. apply IH. lia.
Qed.

Lemma length_break_ends off l : length (break_ends off l) = line_breaks l.
Proof.
  revert off l. apply breaks_ind; [done|]. intros off x t IH. cbn [break_ends line_breaks].
  destruct (x =b x0a); [cbn; by rewrite IH|]. destruct (x =b x0d); [|by apply IH].
  destruct t as [|y t']; [done|].
  destruct (y =b x0a); cbn [length]; by rewrite IH by (cbn; lia).
Qed.

Lemma break_ends_bounds off l :
  Forall (fun s => off < s /\ s <= off + length l) (break_ends off l).
Proof.
  revert off l. apply breaks_ind; [by constructor|]. intros off x t IH.
  assert (Hw : forall off' t', length t' <= length t -> off < off' ->
    off' + length t' <= off + S (length t) ->
    Forall (fun s => off < s /\ s <= off + S (length t)) (break_ends off' t')).
  { intros off' t' Ht Ho Hl. eapply Forall_impl; [by apply IH|]. cbn. intros s. lia. }
  cbn [break_ends length].
  destruct (x =b x0a); [constructor; [lia | apply Hw; lia]|].
  destruct (x =b x0d); [|apply Hw; lia].
  destruct t as [|y t']; cbn [length] in *; [by repeat constructor; lia|].
  destruct (y =b x0a); constructor; try lia; apply Hw; cbn; lia.
Qed.

Lemma break_ends_sorted off l : StronglySorted lt (break_ends off l).
Proof.
  revert off l. apply breaks_ind; [constructor|]. intros off x t IH. cbn [break_ends].
  assert (Hb : forall off' t', Forall (lt off') (break_ends off' t')).
  { intros off' t'. eapply Forall_impl; [apply break_ends_bounds|]. cbn. lia. }
  destruct (x =b x0a); [constructor; auto|].
  destruct (x =b x0d); [|by apply IH].
  destruct t as [|y t']; [by repeat constructor|].
  destruct (y =b x0a); constructor; try apply Hb; apply IH; cbn; lia.
Qed.

Lemma line_starts_sorted l : StronglySorted lt (0 :: break_ends 0 l).
Proof.
  constructor; [apply break_ends_sorted|].
  eapply Forall_impl; [apply break_ends_bounds|]. cbn. lia.
Qed.

(** ** Binary search *)

Lemma StronglySorted_lookup_lt l i j x y :
  StronglySorted lt l -> l !! i = Some x -> l !! j = Some y -> i < j -> x < y.
Proof.
  intros Hs. revert i j. induction Hs as [|a l Hs IH Hf]; intros i j Hi Hj Hij; [done|].
  destruct j as [|j]; [lia|]. cbn in Hj. destruct i as [|i]; cbn in Hi.
  - simplify_eq. rewrite Forall_lookup in Hf. by apply (Hf j).
  - apply (IH i j); [done|done|lia].
Qed.

(** The elements below [x] are a prefix of a sorted list. *)
Lemma sorted_filter_lt l x i y :
  StronglySorted lt l -> l !! i = Some y ->
  (y < x <-> i < length (List.filter (fun z => z <? x) l)).
Proof.
  intros Hs. revert i. induction Hs as [|a l Hs IH Hf]; intros i Hi; [done|].
  cbn [List.filter]. destruct (Nat.ltb_spec a x) as [Ha|Ha].
  - destruct i as [|i]; cbn in Hi; cbn [length]; [simplify_eq; lia|].
    rewrite (IH i) by done. lia.
  - assert (Hnil : List.filter (fun z => z <? x) l = []).
    { clear IH Hs Hi. induction Hf as [|z l Hz Hf IHf]; [done|]. cbn [List.filter].
      destruct (Nat.ltb_spec z x); [lia | done]. }
    rewrite Hnil. cbn [length]. split; [|lia]. intros Hy. exfalso.
    destruct i as [|i]; cbn in Hi; [simplify_eq; lia|].
    rewrite Forall_lookup in Hf. specialize (Hf i y Hi). cbn in Hf. lia.
Qed.

(** The greatest index whose start is at most [pos]. *)
Definition containing_line (starts : list nat) (pos k : nat) : Prop :=
  (exists s, starts !! k = Some s /\ s <= pos) /\
  forall k' s', k < k' -> starts !! k' = Some s' -> pos < s'.

Lemma binary_search_containing l pos :
  StronglySorted lt l -> l !! 0 = Some 0 ->
  containing_line l pos
    (match binary_search l pos with inl i => i | inr O => 0 | inr (S i) => i end).
Proof.
  intros Hs H0. unfold binary_search.
  set (n := length (List.filter (fun z => z <? pos) l)).
  assert (Hn : forall i y, l !! i = Some y -> (y < pos <-> i < n)) by (intros; by apply sorted_filter_lt).
  assert (Hle : n <= length l) by apply List.filter_length_le.
  destruct (l !! n) as [y|] eqn:Hy; [destruct (Nat.eqb_spec y pos) as [->|Hne]|].
  - split; [eauto|]. intros k' s' Hk Hs'. by apply (StronglySorted_lookup_lt l n k').
  - assert (Hgt : pos < y) by (specialize (Hn n y Hy); lia).
    destruct n as [|m] eqn:En; [simplify_eq; lia|].
    destruct (lookup_lt_is_Some_2 l m) as [z Hz]; [lia|]. split.
    + exists z. split; [done|]. specialize (Hn m z Hz). lia.
    + intros k' s' Hk Hs'. destruct (decide (k' = S m)) as [->|]; [by simplify_eq|].
      assert (y < s') by (apply (StronglySorted_lookup_lt l (S m) k'); [done..|lia]). lia.
  - apply lookup_ge_None in Hy. pose proof (lookup_lt_Some _ _ _ H0).
    destruct n as [|m] eqn:En; [lia|].
    destruct (lookup_lt_is_Some_2 l m) as [z Hz]; [lia|]. split.
    + exists z. split; [done|]. specialize (Hn m z Hz). lia.
    + intros k' s' Hk Hs'. apply lookup_lt_Some in Hs'. lia.
Qed.

(** Building the line index never panics and terminates; the starts begin
    with 0, strictly increase, stay within the text, and there is one line more
    than there are line breaks. *)
Theorem line_index_new_correct {mc : Memchr} {laws : MemchrLaws mc} l :
  exists ix, LineIndex_new l = Ret ix /\
    source_len ix = length l /\
    line_starts ix !! 0 = Some 0 /\
    StronglySorted lt (line_starts ix) /\
    Forall (fun s => s <= length l) (line_starts ix) /\
    line_count ix = 1 + line_breaks l.
Proof.
  eexists. split; [apply line_index_new_spec|]. cbn [source_len line_starts].
  do 2 (split; [done|]). split; [apply line_starts_sorted|]. split.
  - constructor; [lia|]. eapply Forall_impl; [apply break_ends_bounds|]. cbn. lia.
  - unfold line_count. cbn [line_starts length]. by rewrite length_break_ends.
Qed.

Lemma line_index_new_correct_witness :
  exists ix, LineIndex_new (mc := memchr_naive) [x61; x0d; x0a; x62] = Ret ix /\ line_count ix = 2.
Proof.
  destruct (line_index_new_correct (laws := memchr_naive_laws) [x61; x0d; x0a; x62])
    as (ix & E & _ & _ & _ & _ & Hc).
  exists ix. split; [exact E|]. rewrite Hc. reflexivity.
Defined.

(** For a built index, [line_col] never panics; it reports the last line
    that starts at or before the position (clamped to the end of the text) and
    the one-based distance to that line's start. *)
Theorem line_col_correct {mc : Memchr} {laws : MemchrLaws mc} l ix pos
    (Hix : LineIndex_new l = Ret ix) :
  exists lc s, line_col ix pos = Ret lc /\
    1 <= line lc /\
    line_starts ix !! (line lc - 1) = Some s /\
    s + (column lc - 1) = to_usize pos `min` length l /\
    1 <= column lc /\
    containing_line (line_starts ix) (to_usize pos `min` length l) (line lc - 1).
Proof.
  rewrite line_index_new_spec in Hix. injection Hix as <-. unfold line_col.
  cbn [line_starts source_len].
  set (p := to_usize pos `min` length l). set (starts := 0 :: break_ends 0 l).
  pose proof (binary_search_containing starts p (line_starts_sorted l) eq_refl) as Hk.
  set (k := match binary_search starts p with inl i => i | inr 0 => 0 | inr (S i) => i end) in *.
  pose proof Hk as [(s & Hs & Hle) _].
  unfold index. rewrite Hs. cbn [obind]. unfold usize_sub.
  rewrite (proj2 (Nat.leb_le s p)) by done. cbn [obind].
  eexists _, s. split; [done|]. cbn [line column]. rewrite Nat.add_sub.
  split; [lia|]. split; [done|]. split; [lia|]. split; [lia|done].
Qed.

Lemma line_col_correct_witness :
  line_col (mkLineIndex [0; 3] 4) (BytePos_new 3) = Ret (LineCol_new 2 1) /\
  exists lc s, line_col (mkLineIndex [0; 3] 4) (BytePos_new 3) = Ret lc /\
    line_starts (mkLineIndex [0; 3] 4) !! (line lc - 1) = Some s.
Proof.
  split; [reflexivity|].
  destruct (line_col_correct (laws := memchr_naive_laws) [x61; x0d; x0a; x62] (mkLineIndex [0; 3] 4)
              (BytePos_new 3) ltac:(vm_compute; reflexivity)) as (lc & s & E & _ & Hs & _).
  exists lc, s. split; [exact E | exact Hs].
Defined.
