(* ===== verification/Token.v ===== *)
(** * Token: token names, kinds and tokens

    [crates/php_lexer/src/token.rs]. *)

From Stdlib Require Import Strings.String Strings.Byte.
From stdpp Require Import base list option numbers.
From S2P Require Import Prelude RustStd Source.

Module TokenName.
Inductive t : Set :=
| InlineHtml | OpenTag | OpenTagWithEcho | CloseTag | Whitespace | Comment | DocComment
| BadCharacter | String | If | Else | ElseIf | EndIf | Function | Class | Abstract | Final
| Interface | Trait | Enum | Namespace | Use | As | InsteadOf | Match | Readonly | Fn | Yield
| YieldFrom | Case | Default | Echo | Print | Return | Break | Continue | Extends | Implements
| Public | Protected | Private | Static | Const | Var | Declare_ | EndDeclare | Global
| Callable | Clone | New | While | EndWhile | Do | For | EndFor | Foreach | EndForeach | Switch
| EndSwitch | Try | Throw | Catch | Finally | Include | IncludeOnce | Require | RequireOnce
| Eval | Isset | Empty | Unset | List | Array | Instanceof | Goto | Exit | HaltCompiler
| Variable_ | NsSeparator | NameFullyQualified | NameQualified | NameRelative | LNumber
| DNumber | IsEqual | IsNotEqual | IsIdentical | IsNotIdentical | IsSmallerOrEqual
| IsGreaterOrEqual | Spaceship | BooleanAnd | BooleanOr | LogicalAnd | LogicalOr | LogicalXor
| Sl | Sr | SlEqual | SrEqual | PlusEqual | MinusEqual | MulEqual | DivEqual | ModEqual
| ConcatEqual | AndEqual | OrEqual | XorEqual | Coalesce | CoalesceEqual | ObjectOperator
| NullsafeObjectOperator | DoubleColon | DoubleArrow | Inc | Dec | Ellipsis | Pow | PowEqual
| Attribute | IntCast | DoubleCast | StringCast | ArrayCast | ObjectCast | BoolCast | UnsetCast
| AmpersandFollowedByVarOrVararg | AmpersandNotFollowedByVarOrVararg | PublicSet | ProtectedSet
| PrivateSet | ConstantEncapsedString | EncapsedAndWhitespace | NumString | StringVarName
| CurlyOpen | DollarOpenCurlyBraces | StartHeredoc | EndHeredoc | Line | File | Dir | ClassC
| TraitC | MethodC | FuncC | NamespaceC | PropertyC | Pipe | VoidCast.

Definition as_php_name (n : t) : string :=
  match n with
  | InlineHtml => "T_INLINE_HTML"
  | OpenTag => "T_OPEN_TAG"
  | OpenTagWithEcho => "T_OPEN_TAG_WITH_ECHO"
  | CloseTag => "T_CLOSE_TAG"
  | Whitespace => "T_WHITESPACE"
  | Comment => "T_COMMENT"
  | DocComment => "T_DOC_COMMENT"
  | BadCharacter => "T_BAD_CHARACTER"
  | String => "T_STRING"
  | If => "T_IF"
  | Else => "T_ELSE"
  | ElseIf => "T_ELSEIF"
  | EndIf => "T_ENDIF"
  | Function => "T_FUNCTION"
  | Class => "T_CLASS"
  | Abstract => "T_ABSTRACT"
  | Final => "T_FINAL"
  | Interface => "T_INTERFACE"
  | Trait => "T_TRAIT"
  | Enum => "T_ENUM"
  | Namespace => "T_NAMESPACE"
  | Use => "T_USE"
  | As => "T_AS"
  | InsteadOf => "T_INSTEADOF"
  | Match => "T_MATCH"
  | Readonly => "T_READONLY"
  | Fn => "T_FN"
  | Yield => "T_YIELD"
  | YieldFrom => "T_YIELD_FROM"
  | Case => "T_CASE"
  | Default => "T_DEFAULT"
  | Echo => "T_ECHO"
  | Print => "T_PRINT"
  | Return => "T_RETURN"
  | Break => "T_BREAK"
  | Continue => "T_CONTINUE"
  | Extends => "T_EXTENDS"
  | Implements => "T_IMPLEMENTS"
  | Public => "T_PUBLIC"
  | Protected => "T_PROTECTED"
  | Private => "T_PRIVATE"
  | Static => "T_STATIC"
  | Const => "T_CONST"
  | Var => "T_VAR"
  | Declare_ => "T_DECLARE"
  | EndDeclare => "T_ENDDECLARE"
  | Global => "T_GLOBAL"
  | Callable => "T_CALLABLE"
  | Clone => "T_CLONE"
  | New => "T_NEW"
  | While => "T_WHILE"
  | EndWhile => "T_ENDWHILE"
  | Do => "T_DO"
  | For => "T_FOR"
  | EndFor => "T_ENDFOR"
  | Foreach => "T_FOREACH"
  | EndForeach => "T_ENDFOREACH"
  | Switch => "T_SWITCH"
  | EndSwitch => "T_ENDSWITCH"
  | Try => "T_TRY"
  | Throw => "T_THROW"
  | Catch => "T_CATCH"
  | Finally => "T_FINALLY"
  | Include => "T_INCLUDE"
  | IncludeOnce => "T_INCLUDE_ONCE"
  | Require => "T_REQUIRE"
  | RequireOnce => "T_REQUIRE_ONCE"
  | Eval => "T_EVAL"
  | Isset => "T_ISSET"
  | Empty => "T_EMPTY"
  | Unset => "T_UNSET"
  | List => "T_LIST"
  | Array => "T_ARRAY"
  | Instanceof => "T_INSTANCEOF"
  | Goto => "T_GOTO"
  | Exit => "T_EXIT"
  | HaltCompiler => "T_HALT_COMPILER"
  | Variable_ => "T_VARIABLE"
  | NsSeparator => "T_NS_SEPARATOR"
  | NameFullyQualified => "T_NAME_FULLY_QUALIFIED"
  | NameQualified => "T_NAME_QUALIFIED"
  | NameRelative => "T_NAME_RELATIVE"
  | LNumber => "T_LNUMBER"
  | DNumber => "T_DNUMBER"
  | IsEqual => "T_IS_EQUAL"
  | IsNotEqual => "T_IS_NOT_EQUAL"
  | IsIdentical => "T_IS_IDENTICAL"
  | IsNotIdentical => "T_IS_NOT_IDENTICAL"
  | IsSmallerOrEqual => "T_IS_SMALLER_OR_EQUAL"
  | IsGreaterOrEqual => "T_IS_GREATER_OR_EQUAL"
  | Spaceship => "T_SPACESHIP"
  | BooleanAnd => "T_BOOLEAN_AND"
  | BooleanOr => "T_BOOLEAN_OR"
  | LogicalAnd => "T_LOGICAL_AND"
  | LogicalOr => "T_LOGICAL_OR"
  | LogicalXor => "T_LOGICAL_XOR"
  | Sl => "T_SL"
  | Sr => "T_SR"
  | SlEqual => "T_SL_EQUAL"
  | SrEqual => "T_SR_EQUAL"
  | PlusEqual => "T_PLUS_EQUAL"
  | MinusEqual => "T_MINUS_EQUAL"
  | MulEqual => "T_MUL_EQUAL"
  | DivEqual => "T_DIV_EQUAL"
  | ModEqual => "T_MOD_EQUAL"
  | ConcatEqual => "T_CONCAT_EQUAL"
  | AndEqual => "T_AND_EQUAL"
  | OrEqual => "T_OR_EQUAL"
  | XorEqual => "T_XOR_EQUAL"
  | Coalesce => "T_COALESCE"
  | CoalesceEqual => "T_COALESCE_EQUAL"
  | ObjectOperator => "T_OBJECT_OPERATOR"
  | NullsafeObjectOperator => "T_NULLSAFE_OBJECT_OPERATOR"
  | DoubleColon => "T_DOUBLE_COLON"
  | DoubleArrow => "T_DOUBLE_ARROW"
  | Inc => "T_INC"
  | Dec => "T_DEC"
  | Ellipsis => "T_ELLIPSIS"
  | Pow => "T_POW"
  | PowEqual => "T_POW_EQUAL"
  | Attribute => "T_ATTRIBUTE"
  | IntCast => "T_INT_CAST"
  | DoubleCast => "T_DOUBLE_CAST"
  | StringCast => "T_STRING_CAST"
  | ArrayCast => "T_ARRAY_CAST"
  | ObjectCast => "T_OBJECT_CAST"
  | BoolCast => "T_BOOL_CAST"
  | UnsetCast => "T_UNSET_CAST"
  | AmpersandFollowedByVarOrVararg => "T_AMPERSAND_FOLLOWED_BY_VAR_OR_VARARG"
  | AmpersandNotFollowedByVarOrVararg => "T_AMPERSAND_NOT_FOLLOWED_BY_VAR_OR_VARARG"
  | PublicSet => "T_PUBLIC_SET"
  | ProtectedSet => "T_PROTECTED_SET"
  | PrivateSet => "T_PRIVATE_SET"
  | ConstantEncapsedString => "T_CONSTANT_ENCAPSED_STRING"
  | EncapsedAndWhitespace => "T_ENCAPSED_AND_WHITESPACE"
  | NumString => "T_NUM_STRING"
  | StringVarName => "T_STRING_VARNAME"
  | CurlyOpen => "T_CURLY_OPEN"
  | DollarOpenCurlyBraces => "T_DOLLAR_OPEN_CURLY_BRACES"
  | StartHeredoc => "T_START_HEREDOC"
  | EndHeredoc => "T_END_HEREDOC"
  | Line => "T_LINE"
  | File => "T_FILE"
  | Dir => "T_DIR"
  | ClassC => "T_CLASS_C"
  | TraitC => "T_TRAIT_C"
  | MethodC => "T_METHOD_C"
  | FuncC => "T_FUNC_C"
  | NamespaceC => "T_NS_C"
  | PropertyC => "T_PROPERTY_C"
  | Pipe => "T_PIPE"
  | VoidCast => "T_VOID_CAST"
  end%string.

(** The discriminant of a variant; the derived [PartialEq] compares it. *)
Definition discriminant (n : t) : N :=
  match n with
  | InlineHtml => 0 | OpenTag => 1 | OpenTagWithEcho => 2 | CloseTag => 3 | Whitespace => 4
  | Comment => 5 | DocComment => 6 | BadCharacter => 7 | String => 8 | If => 9 | Else => 10
  | ElseIf => 11 | EndIf => 12 | Function => 13 | Class => 14 | Abstract => 15 | Final => 16
  | Interface => 17 | Trait => 18 | Enum => 19 | Namespace => 20 | Use => 21 | As => 22
  | InsteadOf => 23 | Match => 24 | Readonly => 25 | Fn => 26 | Yield => 27 | YieldFrom => 28
  | Case => 29 | Default => 30 | Echo => 31 | Print => 32 | Return => 33 | Break => 34
  | Continue => 35 | Extends => 36 | Implements => 37 | Public => 38 | Protected => 39
  | Private => 40 | Static => 41 | Const => 42 | Var => 43 | Declare_ => 44 | EndDeclare => 45
  | Global => 46 | Callable => 47 | Clone => 48 | New => 49 | While => 50 | EndWhile => 51
  | Do => 52 | For => 53 | EndFor => 54 | Foreach => 55 | EndForeach => 56 | Switch => 57
  | EndSwitch => 58 | Try => 59 | Throw => 60 | Catch => 61 | Finally => 62 | Include => 63
  | IncludeOnce => 64 | Require => 65 | RequireOnce => 66 | Eval => 67 | Isset => 68
  | Empty => 69 | Unset => 70 | List => 71 | Array => 72 | Instanceof => 73 | Goto => 74
  | Exit => 75 | HaltCompiler => 76 | Variable_ => 77 | NsSeparator => 78
  | NameFullyQualified => 79 | NameQualified => 80 | NameRelative => 81 | LNumber => 82
  | DNumber => 83 | IsEqual => 84 | IsNotEqual => 85 | IsIdentical => 86 | IsNotIdentical => 87
  | IsSmallerOrEqual => 88 | IsGreaterOrEqual => 89 | Spaceship => 90 | BooleanAnd => 91
  | BooleanOr => 92 | LogicalAnd => 93 | LogicalOr => 94 | LogicalXor => 95 | Sl => 96
  | Sr => 97 | SlEqual => 98 | SrEqual => 99 | PlusEqual => 100 | MinusEqual => 101
  | MulEqual => 102 | DivEqual => 103 | ModEqual => 104 | ConcatEqual => 105 | AndEqual => 106
  | OrEqual => 107 | XorEqual => 108 | Coalesce => 109 | CoalesceEqual => 110
  | ObjectOperator => 111 | NullsafeObjectOperator => 112 | DoubleColon => 113
  | DoubleArrow => 114 | Inc => 115 | Dec => 116 | Ellipsis => 117 | Pow => 118
  | PowEqual => 119 | Attribute => 120 | IntCast => 121 | DoubleCast => 122 | StringCast => 123
  | ArrayCast => 124 | ObjectCast => 125 | BoolCast => 126 | UnsetCast => 127
  | AmpersandFollowedByVarOrVararg => 128 | AmpersandNotFollowedByVarOrVararg => 129
  | PublicSet => 130 | ProtectedSet => 131 | PrivateSet => 132 | ConstantEncapsedString => 133
  | EncapsedAndWhitespace => 134 | NumString => 135 | StringVarName => 136 | CurlyOpen => 137
  | DollarOpenCurlyBraces => 138 | StartHeredoc => 139 | EndHeredoc => 140 | Line => 141
  | File => 142 | Dir => 143 | ClassC => 144 | TraitC => 145 | MethodC => 146 | FuncC => 147
  | NamespaceC => 148 | PropertyC => 149 | Pipe => 150 | VoidCast => 151
  end%N.

Definition variants : list t :=
  [InlineHtml; OpenTag; OpenTagWithEcho; CloseTag; Whitespace; Comment; DocComment;
   BadCharacter; String; If; Else; ElseIf; EndIf; Function; Class; Abstract; Final; Interface;
   Trait; Enum; Namespace; Use; As; InsteadOf; Match; Readonly; Fn; Yield; YieldFrom; Case;
   Default; Echo; Print; Return; Break; Continue; Extends; Implements; Public; Protected;
   Private; Static; Const; Var; Declare_; EndDeclare; Global; Callable; Clone; New; While;
   EndWhile; Do; For; EndFor; Foreach; EndForeach; Switch; EndSwitch; Try; Throw; Catch;
   Finally; Include; IncludeOnce; Require; RequireOnce; Eval; Isset; Empty; Unset; List; Array;
   Instanceof; Goto; Exit; HaltCompiler; Variable_; NsSeparator; NameFullyQualified;
   NameQualified; NameRelative; LNumber; DNumber; IsEqual; IsNotEqual; IsIdentical;
   IsNotIdentical; IsSmallerOrEqual; IsGreaterOrEqual; Spaceship; BooleanAnd; BooleanOr;
   LogicalAnd; LogicalOr; LogicalXor; Sl; Sr; SlEqual; SrEqual; PlusEqual; MinusEqual;
   MulEqual; DivEqual; ModEqual; ConcatEqual; AndEqual; OrEqual; XorEqual; Coalesce;
   CoalesceEqual; ObjectOperator; NullsafeObjectOperator; DoubleColon; DoubleArrow; Inc; Dec;
   Ellipsis; Pow; PowEqual; Attribute; IntCast; DoubleCast; StringCast; ArrayCast; ObjectCast;
   BoolCast; UnsetCast; AmpersandFollowedByVarOrVararg; AmpersandNotFollowedByVarOrVararg;
   PublicSet; ProtectedSet; PrivateSet; ConstantEncapsedString; EncapsedAndWhitespace;
   NumString; StringVarName; CurlyOpen; DollarOpenCurlyBraces; StartHeredoc; EndHeredoc; Line;
   File; Dir; ClassC; TraitC; MethodC; FuncC; NamespaceC; PropertyC; Pipe; VoidCast].

Definition eqb (a c : t) : bool := (discriminant a =? discriminant c)%N.

Lemma variants_discriminant n : variants !! N.to_nat (discriminant n) = Some n.
Proof. by destruct n. Qed.

Lemma eqb_eq a c : eqb a c = true <-> a = c.
Proof.
  unfold eqb. rewrite N.eqb_eq. split; [|by intros ->]. intros H.
  pose proof (variants_discriminant a) as Ha. rewrite H, variants_discriminant in Ha. congruence.
Qed.

#[global] Instance eq_dec : EqDecision t.
Proof.
  intros a c. destruct (eqb a c) eqn:E; [left; by apply eqb_eq|].
  right. intros H%eqb_eq. congruence.
Defined.
End TokenName.

Module SymbolKind.
Inductive t : Set := Char (x : byte).

Definition hex_digit (n : N) : byte := byte_of_N (if n <? 10 then 48 + n else 55 + n)%N.

Definition reference_name (s : t) : bytes :=
  match s with
  | Char x =>
      if is_ascii x then [x]
      else lit "\x" ++ [hex_digit (u8 x / 16)%N; hex_digit (u8 x mod 16)%N]
  end.
End SymbolKind.

Module TokenKind.
Inductive t : Set :=
| Named (n : TokenName.t)
| Symbol (s : SymbolKind.t)
| Eof.

Definition reference_name (k : t) : bytes :=
  match k with
  | Named n => lit (TokenName.as_php_name n)
  | Symbol s => SymbolKind.reference_name s
  | Eof => lit "EOF"
  end.

#[global] Instance eq_dec : EqDecision t.
Proof.
  intros [n|[x]|] [m|[y]|]; try (right; discriminate); try (left; reflexivity).
  - destruct (decide (n = m)) as [H|H]; [left; by rewrite H | right; congruence].
  - destruct (decide (x = y)) as [H|H]; [left; by rewrite H | right; congruence].
Defined.
End TokenKind.

(** The symbol token of one byte, as the lexer writes it. *)
Abbreviation SymChar x := (TokenKind.Symbol (SymbolKind.Char x)).

Definition TOKENIZER_TOKEN_ID_BASE : Z := 260.

Definition TOKENIZER_TOKEN_NAMES : list TokenName.t :=
  [TokenName.LNumber; TokenName.DNumber; TokenName.String; TokenName.NameFullyQualified;
   TokenName.NameRelative; TokenName.NameQualified; TokenName.Variable_; TokenName.InlineHtml;
   TokenName.EncapsedAndWhitespace; TokenName.ConstantEncapsedString; TokenName.StringVarName;
   TokenName.NumString; TokenName.Include; TokenName.IncludeOnce; TokenName.Eval;
   TokenName.Require; TokenName.RequireOnce; TokenName.LogicalOr; TokenName.LogicalXor;
   TokenName.LogicalAnd; TokenName.Print; TokenName.Yield; TokenName.YieldFrom;
   TokenName.Instanceof; TokenName.New; TokenName.Clone; TokenName.Exit; TokenName.If;
   TokenName.ElseIf; TokenName.Else; TokenName.EndIf; TokenName.Echo; TokenName.Do;
   TokenName.While; TokenName.EndWhile; TokenName.For; TokenName.EndFor; TokenName.Foreach;
   TokenName.EndForeach; TokenName.Declare_; TokenName.EndDeclare; TokenName.As;
   TokenName.Switch; TokenName.EndSwitch; TokenName.Case; TokenName.Default; TokenName.Match;
   TokenName.Break; TokenName.Continue; TokenName.Goto; TokenName.Function; TokenName.Fn;
   TokenName.Const; TokenName.Return; TokenName.Try; TokenName.Catch; TokenName.Finally;
   TokenName.Throw; TokenName.Use; TokenName.InsteadOf; TokenName.Global; TokenName.Static;
   TokenName.Abstract; TokenName.Final; TokenName.Private; TokenName.Protected;
   TokenName.Public; TokenName.PrivateSet; TokenName.ProtectedSet; TokenName.PublicSet;
   TokenName.Readonly; TokenName.Var; TokenName.Unset; TokenName.Isset; TokenName.Empty;
   TokenName.HaltCompiler; TokenName.Class; TokenName.Trait; TokenName.Interface;
   TokenName.Enum; TokenName.Extends; TokenName.Implements; TokenName.Namespace;
   TokenName.List; TokenName.Array; TokenName.Callable; TokenName.Line; TokenName.File;
   TokenName.Dir; TokenName.ClassC; TokenName.TraitC; TokenName.MethodC; TokenName.FuncC;
   TokenName.PropertyC; TokenName.NamespaceC; TokenName.Attribute; TokenName.PlusEqual;
   TokenName.MinusEqual; TokenName.MulEqual; TokenName.DivEqual; TokenName.ConcatEqual;
   TokenName.ModEqual; TokenName.AndEqual; TokenName.OrEqual; TokenName.XorEqual;
   TokenName.SlEqual; TokenName.SrEqual; TokenName.CoalesceEqual; TokenName.BooleanOr;
   TokenName.BooleanAnd; TokenName.IsEqual; TokenName.IsNotEqual; TokenName.IsIdentical;
   TokenName.IsNotIdentical; TokenName.IsSmallerOrEqual; TokenName.IsGreaterOrEqual;
   TokenName.Spaceship; TokenName.Sl; TokenName.Sr; TokenName.Inc; TokenName.Dec;
   TokenName.IntCast; TokenName.DoubleCast; TokenName.StringCast; TokenName.ArrayCast;
   TokenName.ObjectCast; TokenName.BoolCast; TokenName.UnsetCast; TokenName.VoidCast;
   TokenName.ObjectOperator; TokenName.NullsafeObjectOperator; TokenName.DoubleArrow;
   TokenName.Comment; TokenName.DocComment; TokenName.OpenTag; TokenName.OpenTagWithEcho;
   TokenName.CloseTag; TokenName.Whitespace; TokenName.StartHeredoc; TokenName.EndHeredoc;
   TokenName.DollarOpenCurlyBraces; TokenName.CurlyOpen; TokenName.DoubleColon;
   TokenName.NsSeparator; TokenName.Ellipsis; TokenName.Coalesce; TokenName.Pow;
   TokenName.PowEqual; TokenName.Pipe; TokenName.AmpersandFollowedByVarOrVararg;
   TokenName.AmpersandNotFollowedByVarOrVararg; TokenName.BadCharacter].

Record Token := mkToken {
  token_kind : TokenKind.t;
  token_range : TextRange;
  token_line : N  (** [u32] *)
}.

#[export] Instance Token_eq_dec : EqDecision Token.
Proof. solve_decision. Defined.

Definition token_text (t : Token) (source : bytes) : option bytes :=
  str_get source (to_usize (start (token_range t))) (to_usize (end_ (token_range t))).

Definition token_reference_name (t : Token) : bytes := TokenKind.reference_name (token_kind t).

(** ** Tokenizer identifiers ([crates/php_runtime/src/tokenizer.rs]) *)

Definition token_name_id (name : TokenName.t) : Z :=
  match position (fun candidate => TokenName.eqb candidate name) TOKENIZER_TOKEN_NAMES with
  | Some i => TOKENIZER_TOKEN_ID_BASE + Z.of_nat i
  | None => TOKENIZER_TOKEN_ID_BASE
  end%Z.

Definition token_name_kind_for_id (id : Z) : option TokenName.t :=
  if (id <? TOKENIZER_TOKEN_ID_BASE)%Z then None
  else TOKENIZER_TOKEN_NAMES !! Z.to_nat (id - TOKENIZER_TOKEN_ID_BASE).

Definition token_name_for_id (id : Z) : option string :=
  TokenName.as_php_name <$> token_name_kind_for_id id.

(** ** Theorems *)

Lemma token_table_complete n :
  exists i, position (fun candidate => TokenName.eqb candidate n) TOKENIZER_TOKEN_NAMES = Some i.
Proof. destruct n; eexists; vm_compute; reflexivity. Qed.

Lemma token_table_positions :
  forallb (fun i => match TOKENIZER_TOKEN_NAMES !! i with
                    | Some n => Z.eqb (token_name_id n) (260 + Z.of_nat i)
                    | None => false
                    end) (seq 0 152) = true.
Proof. vm_compute. reflexivity. Qed.

(** The PHP names are pairwise different, checked over all pairs. *)
Lemma php_names_distinct :
  forallb (fun a => forallb (fun c => implb (String.eqb (TokenName.as_php_name a) (TokenName.as_php_name c))
                                            (TokenName.eqb a c)) TokenName.variants)
    TokenName.variants = true.
Proof. vm_compute. reflexivity. Qed.

Lemma as_php_name_inj a c : TokenName.as_php_name a = TokenName.as_php_name c -> a = c.
Proof.
  intros H. pose proof php_names_distinct as Hd. rewrite forallb_forall in Hd.
  assert (Hin : forall n, In n TokenName.variants)
    by (intros n; apply list_elem_of_In, list_elem_of_lookup; eexists; apply TokenName.variants_discriminant).
  specialize (Hd a (Hin a)). cbn beta in Hd. rewrite forallb_forall in Hd.
  specialize (Hd c (Hin c)). rewrite H, String.eqb_refl in Hd. by apply TokenName.eqb_eq.
Qed.

Lemma token_id_of_lookup i n :
  TOKENIZER_TOKEN_NAMES !! i = Some n -> token_name_id n = (260 + Z.of_nat i)%Z.
Proof.
  intros Hi. assert (i < 152) by (apply lookup_lt_Some in Hi; exact Hi).
  pose proof token_table_positions as Ht. rewrite forallb_forall in Ht.
  specialize (Ht i). cbn beta in Ht. rewrite Hi in Ht. apply Z.eqb_eq, Ht.
  apply in_seq. lia.
Qed.

(** The tokenizer identifiers are a bijection between the 152 token names
    and the range [260, 412): looking up the identifier of a name gives the
    name back, an identifier that resolves is the identifier of its name, and
    two identifiers with the same PHP name are equal. *)
Theorem tokenizer_ids_bijective n id m :
  token_name_kind_for_id (token_name_id n) = Some n /\
  (260 <= token_name_id n < 412)%Z /\
  (token_name_kind_for_id id = Some m -> token_name_id m = id) /\
  (token_name_for_id id = token_name_for_id (token_name_id n) -> id = token_name_id n).
Proof.
  assert (Hrt : token_name_kind_for_id (token_name_id n) = Some n).
  { by destruct n. }
  assert (Hinv : forall id m, token_name_kind_for_id id = Some m -> token_name_id m = id).
  { intros id' m'. unfold token_name_kind_for_id, TOKENIZER_TOKEN_ID_BASE.
    destruct (Z.ltb_spec id' 260); [done|]. intros Hi%token_id_of_lookup. lia. }
  split; [done|]. split; [|split; [apply Hinv|]].
  - by destruct n.
  - unfold token_name_for_id. rewrite Hrt. intros (m' & Hm & Heq)%fmap_Some.
    apply as_php_name_inj in Heq as ->. symmetry. by apply Hinv.
Qed.
