(* ===== verification/LexStrings.v ===== *)
(** * LexStrings: quoted strings, keywords and scanner modes

    [crates/php_lexer/src/strings.rs], [keywords.rs] and [modes.rs]. *)

From Stdlib Require Import Strings.String Strings.Byte.
From stdpp Require Import base list option numbers.
From S2P Require Import Prelude RustStd Simd SimdProofs ByteKernel ByteKernelProofs Source.
From S2P Require Import Token.

(** ** Scanner modes *)

Module LexerMode.
Inductive t : Set :=
| InlineHtml | Scripting | DoubleQuote | Backtick | Heredoc | Nowdoc
| StringVarOffset | LookingForVarName.

Definition as_str (m : t) : string :=
  match m with
  | InlineHtml => "inline_html"
  | Scripting => "scripting"
  | DoubleQuote => "double_quote"
  | Backtick => "backtick"
  | Heredoc => "heredoc"
  | Nowdoc => "nowdoc"
  | StringVarOffset => "string_var_offset"
  | LookingForVarName => "looking_for_var_name"
  end%string.

#[global] Instance eq_dec : EqDecision t.
Proof. solve_decision. Defined.
End LexerMode.

(** ** Quoted strings *)

Module StringScan.
Inductive t : Set :=
| Constant (len : nat) (terminated : bool)
| Interpolated.
End StringScan.

Section Strings.
Context {mc : Memchr}.

Fixpoint scan_single_quoted_loop (fuel : nat) (l : bytes) (start offset : nat)
    : outcome StringScan.t :=
  match fuel with
  | O => Timeout
  | S fuel =>
    let unterminated := olet n := usize_sub (length l) start in
                        Ret (StringScan.Constant n false) in
    if offset <? length l then
      olet rest := slice_from l offset in
      match find_any2 rest x5c x27 with
      | None => unterminated
      | Some relative =>
        let offset := offset + relative in
        olet x := index l offset in
        if (x =b x5c) && opt_in (l !! (offset + 1)) [x5c; x27]
        then scan_single_quoted_loop fuel l start (offset + 2)
        else if x =b x27 then
          olet n := usize_sub (offset + 1) start in Ret (StringScan.Constant n true)
        else scan_single_quoted_loop fuel l start (offset + 1)
      end
    else unterminated
  end.
Definition scan_single_quoted (l : bytes) (start : nat) : outcome StringScan.t :=
  scan_single_quoted_loop (loop_fuel l) l start (start + 1).

Definition nearest_found (first second : option nat) : option nat :=
  match first, second with
  | Some i, Some j => Some (i `min` j)
  | Some i, None => Some i
  | None, Some j => Some j
  | None, None => None
  end.

Definition starts_interpolation_after_dollar (l : bytes) (offset : nat) : bool :=
  opt_in (l !! offset) [x7b; x5f] ||
  is_some_and (l !! offset) (fun x => is_ascii_alphabetic x || (128 <=? u8 x)%N).

Fixpoint scan_double_quoted_loop (fuel : nat) (l : bytes) (start offset : nat)
    : outcome StringScan.t :=
  match fuel with
  | O => Timeout
  | S fuel =>
    let unterminated := olet n := usize_sub (length l) start in
                        Ret (StringScan.Constant n false) in
    if offset <? length l then
      olet rest := slice_from l offset in
      let next_escape_quote_or_dollar := find_any3 rest x5c x22 x24 in
      let next_open_brace := find_byte rest x7b in
      match nearest_found next_escape_quote_or_dollar next_open_brace with
      | None => unterminated
      | Some relative =>
        let offset := offset + relative in
        olet x := index l offset in
        if x =b x5c then
          let offset := offset + 1 in
          let offset := if offset <? length l then offset + 1 else offset in
          scan_double_quoted_loop fuel l start offset
        else if x =b x22 then
          olet n := usize_sub (offset + 1) start in Ret (StringScan.Constant n true)
        else if (x =b x24) && starts_interpolation_after_dollar l (offset + 1) then
          Ret StringScan.Interpolated
        else if (x =b x7b) && opt_is (l !! (offset + 1)) x24 then
          Ret StringScan.Interpolated
        else scan_double_quoted_loop fuel l start (offset + 1)
      end
    else unterminated
  end.
Definition scan_double_quoted (l : bytes) (start : nat) : outcome StringScan.t :=
  scan_double_quoted_loop (loop_fuel l) l start (start + 1).

Definition add_string_prefix_len (scan : StringScan.t) (prefix_len : nat) : StringScan.t :=
  match scan with
  | StringScan.Constant len terminated => StringScan.Constant (len + prefix_len) terminated
  | StringScan.Interpolated => StringScan.Interpolated
  end.

Definition scan_constant_encapsed_string (l : bytes) (start : nat)
    : outcome (option StringScan.t) :=
  let '(quote_start, prefix_len) :=
    if opt_in (l !! start) [x62; x42] && opt_in (l !! (start + 1)) [x27; x22]
    then (start + 1, 1) else (start, 0) in
  if opt_is (l !! quote_start) x27 then
    olet s := scan_single_quoted l quote_start in
    Ret (Some (add_string_prefix_len s prefix_len))
  else if opt_is (l !! quote_start) x22 then
    olet s := scan_double_quoted l quote_start in
    Ret (match s with
         | StringScan.Constant len terminated =>
             Some (StringScan.Constant (len + prefix_len) terminated)
         | StringScan.Interpolated =>
             if prefix_len =? 0 then Some StringScan.Interpolated else None
         end)
  else Ret None.
End Strings.

(** ** Keywords *)

Definition KEYWORDS : list (bytes * TokenName.t) :=
  [(lit "abstract", TokenName.Abstract);
   (lit "and", TokenName.LogicalAnd);
   (lit "array", TokenName.Array);
   (lit "as", TokenName.As);
   (lit "break", TokenName.Break);
   (lit "callable", TokenName.Callable);
   (lit "case", TokenName.Case);
   (lit "catch", TokenName.Catch);
   (lit "class", TokenName.Class);
   (lit "clone", TokenName.Clone);
   (lit "const", TokenName.Const);
   (lit "continue", TokenName.Continue);
   (lit "declare", TokenName.Declare_);
   (lit "default", TokenName.Default);
   (lit "die", TokenName.Exit);
   (lit "do", TokenName.Do);
   (lit "echo", TokenName.Echo);
   (lit "else", TokenName.Else);
   (lit "elseif", TokenName.ElseIf);
   (lit "empty", TokenName.Empty);
   (lit "enddeclare", TokenName.EndDeclare);
   (lit "endfor", TokenName.EndFor);
   (lit "endforeach", TokenName.EndForeach);
   (lit "endif", TokenName.EndIf);
   (lit "endswitch", TokenName.EndSwitch);
   (lit "endwhile", TokenName.EndWhile);
   (lit "enum", TokenName.Enum);
   (lit "eval", TokenName.Eval);
   (lit "exit", TokenName.Exit);
   (lit "extends", TokenName.Extends);
   (lit "final", TokenName.Final);
   (lit "finally", TokenName.Finally);
   (lit "fn", TokenName.Fn);
   (lit "for", TokenName.For);
   (lit "foreach", TokenName.Foreach);
   (lit "function", TokenName.Function);
   (lit "global", TokenName.Global);
   (lit "goto", TokenName.Goto);
   (lit "if", TokenName.If);
   (lit "implements", TokenName.Implements);
   (lit "include", TokenName.Include);
   (lit "include_once", TokenName.IncludeOnce);
   (lit "instanceof", TokenName.Instanceof);
   (lit "insteadof", TokenName.InsteadOf);
   (lit "interface", TokenName.Interface);
   (lit "isset", TokenName.Isset);
   (lit "list", TokenName.List);
   (lit "match", TokenName.Match);
   (lit "namespace", TokenName.Namespace);
   (lit "new", TokenName.New);
   (lit "or", TokenName.LogicalOr);
   (lit "print", TokenName.Print);
   (lit "private", TokenName.Private);
   (lit "protected", TokenName.Protected);
   (lit "public", TokenName.Public);
   (lit "readonly", TokenName.Readonly);
   (lit "require", TokenName.Require);
   (lit "require_once", TokenName.RequireOnce);
   (lit "return", TokenName.Return);
   (lit "static", TokenName.Static);
   (lit "switch", TokenName.Switch);
   (lit "throw", TokenName.Throw);
   (lit "trait", TokenName.Trait);
   (lit "try", TokenName.Try);
   (lit "unset", TokenName.Unset);
   (lit "use", TokenName.Use);
   (lit "var", TokenName.Var);
   (lit "while", TokenName.While);
   (lit "xor", TokenName.LogicalXor);
   (lit "yield", TokenName.Yield);
   (lit "__halt_compiler", TokenName.HaltCompiler)].

Fixpoint find_keyword (l : bytes) (table : list (bytes * TokenName.t)) : option TokenName.t :=
  match table with
  | [] => None
  | (keyword, token) :: table =>
      if eq_ignore_ascii_case l keyword then Some token else find_keyword l table
  end.

Definition MAGIC : list (bytes * TokenName.t) :=
  [(lit "__LINE__", TokenName.Line);
   (lit "__FILE__", TokenName.File);
   (lit "__DIR__", TokenName.Dir);
   (lit "__CLASS__", TokenName.ClassC);
   (lit "__TRAIT__", TokenName.TraitC);
   (lit "__METHOD__", TokenName.MethodC);
   (lit "__FUNCTION__", TokenName.FuncC);
   (lit "__NAMESPACE__", TokenName.NamespaceC);
   (lit "__PROPERTY__", TokenName.PropertyC)].

(** The keyword table first, then the chain of magic-constant tests. *)
Definition keyword_or_magic_token (l : bytes) : option TokenName.t :=
  match find_keyword l KEYWORDS with
  | Some token => Some token
  | None => find_keyword l MAGIC
  end.

(** ** Reference scanners: one byte at a time *)

(** The length of the body of a single-quoted string with its closing quote,
    and whether the quote was found; [l] follows the opening quote. *)
Fixpoint single_quoted_body (l : bytes) : nat * bool :=
  match l with
  | [] => (0, false)
  | x :: t =>
    if x =b x27 then (1, true)
    else if x =b x5c then
      match t with
      | y :: t' =>
        if (y =b x5c) || (y =b x27)
        then let '(n, c) := single_quoted_body t' in (2 + n, c)
        else let '(n, c) := single_quoted_body t in (1 + n, c)
      | [] => (1, false)
      end
    else let '(n, c) := single_quoted_body t in (1 + n, c)
  end.

(** The same for a double-quoted string; [None] when an interpolation starts
    before the closing quote. *)
Fixpoint double_quoted_body (l : bytes) : option (nat * bool) :=
  match l with
  | [] => Some (0, false)
  | x :: t =>
    if x =b x22 then Some (1, true)
    else if x =b x5c then
      match t with
      | _ :: t' => (fun '(n, c) => (2 + n, c)) <$> double_quoted_body t'
      | [] => Some (1, false)
      end
    else if (x =b x24) && starts_interpolation_after_dollar t 0 then None
    else if (x =b x7b) && opt_is (t !! 0) x24 then None
    else (fun '(n, c) => (1 + n, c)) <$> double_quoted_body t
  end.

Definition sq_stop (x : byte) : bool := (x =b x5c) || (x =b x27).
Definition dq_stop (x : byte) : bool := (x =b x5c) || (x =b x22) || (x =b x24) || (x =b x7b).

Lemma single_quoted_body_skip l1 l2 :
  none_is sq_stop l1 ->
  single_quoted_body (l1 ++ l2) =
  let '(n, c) := single_quoted_body l2 in (length l1 + n, c).
Proof.
  induction 1 as [|x l1 Hx _ IH]; cbn [app length]; [by destruct (single_quoted_body l2)|].
  cbn [single_quoted_body]. unfold sq_stop in Hx. apply orb_false_iff in Hx as [-> ->].
  rewrite IH. by destruct (single_quoted_body l2).
Qed.

Lemma double_quoted_body_skip l1 l2 :
  none_is dq_stop l1 ->
  double_quoted_body (l1 ++ l2) = (fun '(n, c) => (length l1 + n, c)) <$> double_quoted_body l2.
Proof.
  induction 1 as [|x l1 Hx _ IH]; cbn [app length]; [by destruct (double_quoted_body l2) as [[]|]|].
  cbn [double_quoted_body]. unfold dq_stop in Hx.
  apply orb_false_iff in Hx as [[[-> ->]%orb_false_iff ->]%orb_false_iff ->]. cbn [andb].
  rewrite IH. by destruct (double_quoted_body l2) as [[]|].
Qed.

Lemma opt_in_two o x y : opt_in o [x; y] = is_some_and o (fun z => (z =b x) || (z =b y)).
Proof. destruct o as [z|]; [|done]. cbn. by rewrite orb_false_r. Qed.

Lemma single_quoted_body_at l off x :
  l !! off = Some x ->
  single_quoted_body (drop off l) =
  if (x =b x5c) && opt_in (l !! (off + 1)) [x5c; x27] then
    let '(n, c) := single_quoted_body (drop (off + 2) l) in (2 + n, c)
  else if x =b x27 then (1, true)
  else let '(n, c) := single_quoted_body (drop (off + 1) l) in (1 + n, c).
Proof.
  intros Hx. rewrite (drop_S _ _ _ Hx), opt_in_two. cbn [single_quoted_body].
  replace (S off) with (off + 1) by lia.
  destruct (x =b x27) eqn:Hq.
  { apply beq_eq in Hq as ->. done. }
  destruct (x =b x5c); cbn [andb]; [|done].
  destruct (l !! (off + 1)) as [y|] eqn:Hy; cbn [is_some_and].
  - rewrite (drop_S _ _ _ Hy). by replace (S (off + 1)) with (off + 2) by lia.
  - apply lookup_ge_None in Hy. by rewrite drop_ge by lia.
Qed.

Lemma double_quoted_body_at l off x :
  l !! off = Some x ->
  double_quoted_body (drop off l) =
  if x =b x5c then
    if off + 1 <? length l
    then (fun '(n, c) => (2 + n, c)) <$> double_quoted_body (drop (off + 2) l)
    else Some (1, false)
  else if x =b x22 then Some (1, true)
  else if (x =b x24) && starts_interpolation_after_dollar l (off + 1) then None
  else if (x =b x7b) && opt_is (l !! (off + 1)) x24 then None
  else (fun '(n, c) => (1 + n, c)) <$> double_quoted_body (drop (off + 1) l).
Proof.
  intros Hx. rewrite (drop_S _ _ _ Hx). cbn [double_quoted_body].
  replace (S off) with (off + 1) by lia.
  assert (Hl : drop (off + 1) l !! 0 = l !! (off + 1)) by by rewrite lookup_drop, Nat.add_0_r.
  unfold starts_interpolation_after_dollar. rewrite Hl.
  destruct (x =b x5c) eqn:Hb.
  - apply beq_eq in Hb as ->. change (x5c =b x22) with false. cbn iota.
    destruct (Nat.ltb_spec (off + 1) (length l)) as [H|H].
    + destruct (lookup_lt_is_Some_2 l (off + 1) H) as [y Hy].
      rewrite (drop_S _ _ _ Hy). by replace (S (off + 1)) with (off + 2) by lia.
    + by rewrite drop_ge by lia.
  - by destruct (x =b x22).
Qed.

Section Proofs.
Context {mc : Memchr} {laws : MemchrLaws mc}.

Definition sq_result (l : bytes) (start off : nat) : StringScan.t :=
  let '(n, c) := single_quoted_body (drop off l) in StringScan.Constant (off + n - start) c.

Definition dq_result (l : bytes) (start off : nat) : StringScan.t :=
  match double_quoted_body (drop off l) with
  | Some (n, c) => StringScan.Constant (off + n - start) c
  | None => StringScan.Interpolated
  end.

Lemma usize_sub_ok a c : c <= a -> usize_sub a c = Ret (a - c).
Proof. intros H. unfold usize_sub. by rewrite (proj2 (Nat.leb_le c a)). Qed.

Lemma single_quoted_body_unterminated l : none_is sq_stop l -> single_quoted_body l = (length l, false).
Proof.
  intros H. rewrite <- (app_nil_r l) at 1. rewrite single_quoted_body_skip by done. cbn.
  by rewrite Nat.add_0_r.
Qed.

Lemma double_quoted_body_unterminated l :
  none_is dq_stop l -> double_quoted_body l = Some (length l, false).
Proof.
  intros H. rewrite <- (app_nil_r l) at 1. rewrite double_quoted_body_skip by done. cbn.
  by rewrite Nat.add_0_r.
Qed.

Lemma scan_single_quoted_loop_spec l start fuel off :
  start <= off -> off <= length l -> length l - off < fuel ->
  scan_single_quoted_loop fuel l start off = Ret (sq_result l start off).
Proof.
  revert off. induction fuel as [|fuel IH]; intros off Hs Hoff Hfuel; [lia|].
  cbn [scan_single_quoted_loop]. rewrite usize_sub_ok by lia. cbn [obind].
  destruct (Nat.ltb_spec off (length l)) as [Hlt|Hge].
  - rewrite slice_from_ok by lia. cbn [obind]. rewrite find_any2_position. fold sq_stop.
    destruct (position sq_stop (drop off l)) as [rel|] eqn:Hp.
    + pose proof (position_lt _ _ _ Hp) as Hrel. rewrite length_drop in Hrel.
      apply position_Some, is_first_split in Hp as (x & Hx & Hst & Hnone).
      assert (E : sq_result l start off = sq_result l start (off + rel)).
      { unfold sq_result. rewrite <- (take_drop rel (drop off l)).
        rewrite single_quoted_body_skip, drop_drop by done.
        rewrite length_take, length_drop, Nat.min_l by lia.
        destruct (single_quoted_body (drop (off + rel) l)). f_equal. lia. }
      rewrite lookup_drop in Hx. rewrite E. unfold sq_result.
      rewrite (single_quoted_body_at _ _ _ Hx). unfold index. rewrite Hx. cbn [obind].
      destruct ((x =b x5c) && opt_in (l !! (off + rel + 1)) [x5c; x27]) eqn:Hesc.
      * assert (off + rel + 1 < length l).
        { apply andb_true_iff in Hesc as [_ Hesc]. rewrite opt_in_two in Hesc.
          destruct (l !! (off + rel + 1)) eqn:Hy; [|done]. by eapply lookup_lt_Some. }
        rewrite IH by lia. unfold sq_result.
        destruct (single_quoted_body (drop (off + rel + 2) l)). do 2 f_equal. lia.
      * destruct (x =b x27); [by rewrite usize_sub_ok by lia|].
        rewrite IH by lia. unfold sq_result.
        destruct (single_quoted_body (drop (off + rel + 1) l)). do 2 f_equal. lia.
    + apply position_None in Hp. unfold sq_result.
      rewrite single_quoted_body_unterminated by done. rewrite length_drop. do 2 f_equal. lia.
  - unfold sq_result. rewrite drop_ge by lia. cbn. do 2 f_equal. lia.
Qed.

Lemma nearest_found_position p q (l : bytes) :
  nearest_found (position p l) (position q l) = position (fun x => p x || q x) l.
Proof.
  rewrite <- min_index_position.
  destruct (position p l) as [i|], (position q l) as [j|]; cbn [nearest_found min_index]; try done.
  destruct (Nat.ltb_spec i j); f_equal; lia.
Qed.

Lemma scan_double_quoted_loop_spec l start fuel off :
  start <= off -> off <= length l -> length l - off < fuel ->
  scan_double_quoted_loop fuel l start off = Ret (dq_result l start off).
Proof.
  revert off. induction fuel as [|fuel IH]; intros off Hs Hoff Hfuel; [lia|].
  cbn [scan_double_quoted_loop]. rewrite usize_sub_ok by lia. cbn [obind].
  destruct (Nat.ltb_spec off (length l)) as [Hlt|Hge].
  - rewrite slice_from_ok by lia. cbn [obind].
    rewrite find_any3_position, find_byte_position, nearest_found_position. fold dq_stop.
    destruct (position dq_stop (drop off l)) as [rel|] eqn:Hp.
    + pose proof (position_lt _ _ _ Hp) as Hrel. rewrite length_drop in Hrel.
      apply position_Some, is_first_split in Hp as (x & Hx & Hst & Hnone).
      assert (E : dq_result l start off = dq_result l start (off + rel)).
      { unfold dq_result. rewrite <- (take_drop rel (drop off l)).
        rewrite double_quoted_body_skip, drop_drop by done.
        rewrite length_take, length_drop, Nat.min_l by lia.
        destruct (double_quoted_body (drop (off + rel) l)) as [[]|]; cbn; [|done]. f_equal. lia. }
      rewrite lookup_drop in Hx. rewrite E. unfold dq_result.
      rewrite (double_quoted_body_at _ _ _ Hx). unfold index. rewrite Hx. cbn [obind].
      destruct (x =b x5c).
      { destruct (Nat.ltb_spec (off + rel + 1) (length l)) as [H1|H1].
        - rewrite IH by lia. unfold dq_result. replace (off + rel + 1 + 1) with (off + rel + 2) by lia.
          destruct (double_quoted_body (drop (off + rel + 2) l)) as [[]|]; cbn; [|done].
          do 2 f_equal. lia.
        - rewrite IH by lia. unfold dq_result. rewrite drop_ge by lia. cbn. do 2 f_equal. lia. }
      destruct (x =b x22); [by rewrite usize_sub_ok by lia|].
      destruct ((x =b x24) && _); [done|]. destruct ((x =b x7b) && _); [done|].
      rewrite IH by lia. unfold dq_result.
      destruct (double_quoted_body (drop (off + rel + 1) l)) as [[]|]; cbn; [|done]. do 2 f_equal. lia.
    + apply position_None in Hp. unfold dq_result.
      rewrite double_quoted_body_unterminated by done. rewrite length_drop. do 2 f_equal. lia.
  - unfold dq_result. rewrite drop_ge by lia. cbn. do 2 f_equal. lia.
Qed.
End Proofs.

Lemma single_quoted_body_le l : (single_quoted_body l).1 <= length l.
Proof.
  enough (H : forall (off : nat) l, (single_quoted_body l).1 <= length l) by apply (H 0).
  apply breaks_ind; [done|]. intros _ x t IH. cbn [single_quoted_body length].
  assert (Hs : forall t', length t' <= length t -> (single_quoted_body t').1 <= length t')
    by (intros; by apply (IH 0)).
  destruct (x =b x27); [cbn; lia|].
  pose proof (Hs t ltac:(done)) as Ht. destruct (x =b x5c).
  - destruct t as [|y t']; [cbn; lia|]. pose proof (Hs t' ltac:(cbn; lia)) as Ht'.
    destruct ((y =b x5c) || (y =b x27)).
    + destruct (single_quoted_body t'). cbn in *. lia.
    + destruct (single_quoted_body (y :: t')). cbn in *. lia.
  - destruct (single_quoted_body t). cbn in *. lia.
Qed.

Lemma double_quoted_body_le l n c : double_quoted_body l = Some (n, c) -> n <= length l.
Proof.
  enough (H : forall (off : nat) l n c, double_quoted_body l = Some (n, c) -> n <= length l)
    by apply (H 0).
  apply (breaks_ind (fun _ l => forall n c, double_quoted_body l = Some (n, c) -> n <= length l)).
  { intros _ n' c' [= <- <-]. lia. }
  intros _ x t IH n' c'. cbn [double_quoted_body length].
  assert (Hs : forall t' n c, length t' <= length t -> double_quoted_body t' = Some (n, c) -> n <= length t')
    by (intros; by eapply (IH 0)).
  destruct (x =b x22); [intros [= <- <-]; lia|]. destruct (x =b x5c).
  - destruct t as [|y t']; [intros [= <- <-]; lia|].
    intros ([k d] & Hk & [= -> ->])%fmap_Some. apply Hs in Hk; cbn in *; lia.
  - destruct ((x =b x24) && _); [done|]. destruct ((x =b x7b) && _); [done|].
    intros ([k d] & Hk & [= -> ->])%fmap_Some. apply Hs in Hk; cbn in *; lia.
Qed.

(** The string scanners, which jump from one interesting byte to the next,
    terminate without a panic and return what the byte-at-a-time reference
    scanners return on the text after the opening quote. *)
Theorem string_scan_reference {mc : Memchr} {laws : MemchrLaws mc} l start
    (Hstart : start < length l) :
  scan_single_quoted l start =
    Ret (StringScan.Constant (1 + (single_quoted_body (drop (start + 1) l)).1)
                             (single_quoted_body (drop (start + 1) l)).2) /\
  scan_double_quoted l start =
    Ret (match double_quoted_body (drop (start + 1) l) with
         | Some (n, c) => StringScan.Constant (1 + n) c
         | None => StringScan.Interpolated
         end).
Proof.
  unfold scan_single_quoted, scan_double_quoted, loop_fuel.
  rewrite scan_single_quoted_loop_spec, scan_double_quoted_loop_spec by lia.
  unfold sq_result, dq_result. split.
  - destruct (single_quoted_body (drop (start + 1) l)). cbn [fst snd]. do 2 f_equal. lia.
  - destruct (double_quoted_body (drop (start + 1) l)) as [[]|]; [|done]. do 2 f_equal. lia.
Qed.

Lemma string_scan_reference_witness :
  0 < length (lit "'it\'s'") /\
  scan_single_quoted (mc := memchr_naive) (lit "'it\'s'") 0 = Ret (StringScan.Constant 7 true).
Proof.
  split; [vm_compute; lia|].
  rewrite (proj1 (string_scan_reference (laws := memchr_naive_laws) (lit "'it\'s'") 0
                    ltac:(vm_compute; lia))).
  reflexivity.
Defined.

(** What the lexer relies on: the scan is total, and a constant string is not
    empty and ends within the source. *)
Lemma scan_constant_encapsed_string_ok {mc : Memchr} {laws : MemchrLaws mc} l start :
  exists r, scan_constant_encapsed_string l start = Ret r /\
    match r with
    | Some (StringScan.Constant len _) => 1 <= len /\ start + len <= length l
    | Some StringScan.Interpolated => l !! start = Some x22
    | None => True
    end.
Proof.
  unfold scan_constant_encapsed_string.
  set (pre := opt_in (l !! start) [x62; x42] && opt_in (l !! (start + 1)) [x27; x22]).
  assert (Hcommon : forall q p, (q = start /\ p = 0) \/ (q = start + 1 /\ p = 1) ->
    exists r, (if opt_is (l !! q) x27
      then olet s := scan_single_quoted l q in Ret (Some (add_string_prefix_len s p))
      else if opt_is (l !! q) x22 then
        olet s := scan_double_quoted l q in
        Ret (match s with
             | StringScan.Constant len t => Some (StringScan.Constant (len + p) t)
             | StringScan.Interpolated => if p =? 0 then Some StringScan.Interpolated else None
             end)
      else Ret None) = Ret r /\
    match r with
    | Some (StringScan.Constant len _) => 1 <= len /\ start + len <= length l
    | Some StringScan.Interpolated => l !! start = Some x22
    | None => True
    end).
  { intros q p Hqp. destruct (opt_is (l !! q) x27) eqn:H1.
    - apply opt_is_Some in H1. pose proof (lookup_lt_Some _ _ _ H1) as Hq.
      unfold scan_single_quoted, loop_fuel. rewrite scan_single_quoted_loop_spec by lia.
      cbn [obind]. eexists. split; [done|]. unfold sq_result.
      pose proof (single_quoted_body_le (drop (q + 1) l)) as Hn. rewrite length_drop in Hn.
      destruct (single_quoted_body (drop (q + 1) l)). cbn in *. lia.
    - destruct (opt_is (l !! q) x22) eqn:H2; [|eexists; split; done].
      apply opt_is_Some in H2. pose proof (lookup_lt_Some _ _ _ H2) as Hq.
      unfold scan_double_quoted, loop_fuel. rewrite scan_double_quoted_loop_spec by lia.
      cbn [obind]. eexists. split; [done|]. unfold dq_result.
      destruct (double_quoted_body (drop (q + 1) l)) as [[n c]|] eqn:Hd.
      + apply double_quoted_body_le in Hd. rewrite length_drop in Hd. lia.
      + destruct Hqp as [[-> ->]|[-> ->]]; done. }
  destruct pre; apply Hcommon; lia.
Qed.

(** ** Keywords *)

Lemma find_keyword_ext l1 l2 table :
  (to_ascii_lowercase <$> l1) = (to_ascii_lowercase <$> l2) ->
  find_keyword l1 table = find_keyword l2 table.
Proof.
  intros H. induction table as [|[k tok] table IH]; cbn; [done|].
  by rewrite !eq_ignore_ascii_case_map, H, IH.
Qed.

Lemma find_keyword_Some l table tok :
  find_keyword l table = Some tok ->
  exists k, (k, tok) ∈ table /\ eq_ignore_ascii_case l k = true.
Proof.
  induction table as [|[k t] table IH]; cbn; [done|].
  destruct (eq_ignore_ascii_case l k) eqn:E.
  - intros [= <-]. exists k. split; [by left | done].
  - intros (k' & Hk & He)%IH. exists k'. split; [by right | done].
Qed.

(** Every spelling of the tables is found, and under its own token. *)
Lemma keywords_found :
  forallb (fun '(k, tok) => match keyword_or_magic_token k with
                            | Some tok' => TokenName.eqb tok' tok
                            | None => false
                            end) (KEYWORDS ++ MAGIC) = true.
Proof. vm_compute. reflexivity. Qed.

(** Keyword lookup is exactly the case-insensitive table lookup: a word is
    the keyword or magic constant [tok] if and only if some table entry for
    [tok] equals it up to ASCII case (no entry is shadowed by an earlier one). *)
Theorem keyword_lookup_exact l tok :
  keyword_or_magic_token l = Some tok <->
  exists k, (k, tok) ∈ KEYWORDS ++ MAGIC /\
            (to_ascii_lowercase <$> l) = (to_ascii_lowercase <$> k).
Proof.
  split.
  - unfold keyword_or_magic_token. intros H.
    assert (Hk : exists k, (k, tok) ∈ KEYWORDS ++ MAGIC /\ eq_ignore_ascii_case l k = true).
    { destruct (find_keyword l KEYWORDS) as [t|] eqn:E.
      - injection H as ->. apply find_keyword_Some in E as (k & Hk & He).
        exists k. split; [|done]. apply elem_of_app. by left.
      - apply find_keyword_Some in H as (k & Hk & He).
        exists k. split; [|done]. apply elem_of_app. by right. }
    destruct Hk as (k & Hk & He). exists k. split; [done|].
    rewrite eq_ignore_ascii_case_map in He. by apply bytes_eqb_eq.
  - intros (k & Hk & He).
    assert (Heq : keyword_or_magic_token l = keyword_or_magic_token k).
    { unfold keyword_or_magic_token. by rewrite !(find_keyword_ext l k _ He). }
    rewrite Heq. pose proof keywords_found as Hf. rewrite forallb_forall in Hf.
    specialize (Hf (k, tok) (proj1 (list_elem_of_In _ _) Hk)). cbn beta iota in Hf.
    destruct (keyword_or_magic_token k) as [t|]; [|done].
    by apply TokenName.eqb_eq in Hf as ->.
Qed.
