(* ===== verification/Lexer.v ===== *)
(** * Lexer: the byte-oriented PHP lexer

    [crates/php_lexer/src/cursor.rs], [diagnostics.rs] and [lexer.rs].  The
    lexer is a record with the fields of the Rust struct and a method is a
    stateful computation on it.  A [while] loop that moves the cursor is a
    [loop] whose fuel is one more than the length of the source; LexerProofs
    shows that this is always enough and that no method panics. *)

From Stdlib Require Import Strings.String Strings.Byte.
From stdpp Require Import base list option numbers.
From S2P Require Import Prelude RustStd Simd ByteKernel Source Token LexStrings.

(** ** Cursor *)

Module Cursor.
Record t := mk { source : bytes; offset : nat }.

Definition new (source : bytes) : t := mk source 0.
Definition position (c : t) : nat := offset c.
Definition len (c : t) : nat := length (source c).
Definition is_eof (c : t) : bool := length (source c) <=? offset c.
Definition peek (c : t) : option byte := source c !! offset c.
Definition peek_n (c : t) (lookahead : nat) : option byte := source c !! (offset c + lookahead).
Definition starts_with (c : t) (needle : bytes) : outcome bool :=
  olet rest := slice_from (source c) (offset c) in Ret (RustStd.starts_with rest needle).
Definition bump (c : t) : option byte * t :=
  match peek c with
  | Some x => (Some x, mk (source c) (offset c + 1))
  | None => (None, c)
  end.
Definition advance_by (c : t) (n : nat) : t :=
  mk (source c) ((offset c + n) `min` length (source c)).
End Cursor.

(** ** Diagnostics *)

Module LexDiagnosticKind.
Inductive t : Set :=
| InvalidInput | UnterminatedBlockComment | UnterminatedString | UnterminatedHeredoc | BadCharacter.

Definition code (k : t) : string :=
  match k with
  | InvalidInput => "E_PHP_LEXER_INVALID_INPUT"
  | UnterminatedBlockComment => "E_PHP_LEXER_UNTERMINATED_BLOCK_COMMENT"
  | UnterminatedString => "E_PHP_LEXER_UNTERMINATED_STRING"
  | UnterminatedHeredoc => "E_PHP_LEXER_UNTERMINATED_HEREDOC"
  | BadCharacter => "E_PHP_LEXER_BAD_CHARACTER"
  end%string.
End LexDiagnosticKind.

Record LexDiagnostic := mkLexDiagnostic {
  diag_kind : LexDiagnosticKind.t;
  diag_message : string;
  diag_span : TextRange;
  diag_line : N
}.

(** ** State *)

Record LexerConfig := mkLexerConfig {
  short_open_tag : bool;
  token_parse : bool;
  emit_eof : bool
}.

Record LexResult := mkLexResult {
  tokens : list Token;
  diagnostics : list LexDiagnostic
}.

Record EncapsedSnapshot := mkEncapsedSnapshot {
  snap_mode : LexerMode.t;
  snap_mode_start : nat;
  snap_mode_start_line : N;
  snap_expecting_object_property : bool;
  snap_expecting_string_varname : bool;
  snap_in_string_var_offset : bool;
  snap_in_braced_interpolation : bool;
  snap_last_encapsed_variable : bool;
  snap_heredoc_label : option bytes;
  snap_heredoc_nowdoc : bool
}.

(** The [encapsed_stack] has its top, the end of the [Vec], at the head; the
    diagnostics are in the order in which they were pushed. *)
Record Lexer := mkLexer {
  lx_source : bytes;
  lx_cursor : Cursor.t;
  lx_config : LexerConfig;
  lx_mode : LexerMode.t;
  lx_mode_start : nat;
  lx_mode_start_line : N;
  lx_line : N;
  lx_emitted_placeholder : bool;
  lx_emitted_eof : bool;
  lx_expecting_object_property : bool;
  lx_expecting_string_varname : bool;
  lx_in_string_var_offset : bool;
  lx_in_braced_interpolation : bool;
  lx_last_encapsed_variable : bool;
  lx_last_significant_name : option TokenName.t;
  lx_halt_compiler_seen : bool;
  lx_halt_compiler_significant_tokens : N;
  lx_heredoc_label : option bytes;
  lx_heredoc_nowdoc : bool;
  lx_encapsed_stack : list EncapsedSnapshot;
  lx_diagnostics : list LexDiagnostic
}.

Definition set_cursor (v : Cursor.t) (s : Lexer) : Lexer :=
  mkLexer (lx_source s) v (lx_config s) (lx_mode s)
       (lx_mode_start s) (lx_mode_start_line s) (lx_line s) (lx_emitted_placeholder s)
       (lx_emitted_eof s) (lx_expecting_object_property s) (lx_expecting_string_varname s) (lx_in_string_var_offset s)
       (lx_in_braced_interpolation s) (lx_last_encapsed_variable s) (lx_last_significant_name s) (lx_halt_compiler_seen s)
       (lx_halt_compiler_significant_tokens s) (lx_heredoc_label s) (lx_heredoc_nowdoc s) (lx_encapsed_stack s)
       (lx_diagnostics s).
Definition set_mode (v : LexerMode.t) (s : Lexer) : Lexer :=
  mkLexer (lx_source s) (lx_cursor s) (lx_config s) v
       (lx_mode_start s) (lx_mode_start_line s) (lx_line s) (lx_emitted_placeholder s)
       (lx_emitted_eof s) (lx_expecting_object_property s) (lx_expecting_string_varname s) (lx_in_string_var_offset s)
       (lx_in_braced_interpolation s) (lx_last_encapsed_variable s) (lx_last_significant_name s) (lx_halt_compiler_seen s)
       (lx_halt_compiler_significant_tokens s) (lx_heredoc_label s) (lx_heredoc_nowdoc s) (lx_encapsed_stack s)
       (lx_diagnostics s).
Definition set_mode_start (v : nat) (s : Lexer) : Lexer :=
  mkLexer (lx_source s) (lx_cursor s) (lx_config s) (lx_mode s)
       v (lx_mode_start_line s) (lx_line s) (lx_emitted_placeholder s)
       (lx_emitted_eof s) (lx_expecting_object_property s) (lx_expecting_string_varname s) (lx_in_string_var_offset s)
       (lx_in_braced_interpolation s) (lx_last_encapsed_variable s) (lx_last_significant_name s) (lx_halt_compiler_seen s)
       (lx_halt_compiler_significant_tokens s) (lx_heredoc_label s) (lx_heredoc_nowdoc s) (lx_encapsed_stack s)
       (lx_diagnostics s).
Definition set_mode_start_line (v : N) (s : Lexer) : Lexer :=
  mkLexer (lx_source s) (lx_cursor s) (lx_config s) (lx_mode s)
       (lx_mode_start s) v (lx_line s) (lx_emitted_placeholder s)
       (lx_emitted_eof s) (lx_expecting_object_property s) (lx_expecting_string_varname s) (lx_in_string_var_offset s)
       (lx_in_braced_interpolation s) (lx_last_encapsed_variable s) (lx_last_significant_name s) (lx_halt_compiler_seen s)
       (lx_halt_compiler_significant_tokens s) (lx_heredoc_label s) (lx_heredoc_nowdoc s) (lx_encapsed_stack s)
       (lx_diagnostics s).
Definition set_line (v : N) (s : Lexer) : Lexer :=
  mkLexer (lx_source s) (lx_cursor s) (lx_config s) (lx_mode s)
       (lx_mode_start s) (lx_mode_start_line s) v (lx_emitted_placeholder s)
       (lx_emitted_eof s) (lx_expecting_object_property s) (lx_expecting_string_varname s) (lx_in_string_var_offset s)
       (lx_in_braced_interpolation s) (lx_last_encapsed_variable s) (lx_last_significant_name s) (lx_halt_compiler_seen s)
       (lx_halt_compiler_significant_tokens s) (lx_heredoc_label s) (lx_heredoc_nowdoc s) (lx_encapsed_stack s)
       (lx_diagnostics s).
Definition set_emitted_placeholder (v : bool) (s : Lexer) : Lexer :=
  mkLexer (lx_source s) (lx_cursor s) (lx_config s) (lx_mode s)
       (lx_mode_start s) (lx_mode_start_line s) (lx_line s) v
       (lx_emitted_eof s) (lx_expecting_object_property s) (lx_expecting_string_varname s) (lx_in_string_var_offset s)
       (lx_in_braced_interpolation s) (lx_last_encapsed_variable s) (lx_last_significant_name s) (lx_halt_compiler_seen s)
       (lx_halt_compiler_significant_tokens s) (lx_heredoc_label s) (lx_heredoc_nowdoc s) (lx_encapsed_stack s)
       (lx_diagnostics s).
Definition set_emitted_eof (v : bool) (s : Lexer) : Lexer :=
  mkLexer (lx_source s) (lx_cursor s) (lx_config s) (lx_mode s)
       (lx_mode_start s) (lx_mode_start_line s) (lx_line s) (lx_emitted_placeholder s)
       v (lx_expecting_object_property s) (lx_expecting_string_varname s) (lx_in_string_var_offset s)
       (lx_in_braced_interpolation s) (lx_last_encapsed_variable s) (lx_last_significant_name s) (lx_halt_compiler_seen s)
       (lx_halt_compiler_significant_tokens s) (lx_heredoc_label s) (lx_heredoc_nowdoc s) (lx_encapsed_stack s)
       (lx_diagnostics s).
Definition set_expecting_object_property (v : bool) (s : Lexer) : Lexer :=
  mkLexer (lx_source s) (lx_cursor s) (lx_config s) (lx_mode s)
       (lx_mode_start s) (lx_mode_start_line s) (lx_line s) (lx_emitted_placeholder s)
       (lx_emitted_eof s) v (lx_expecting_string_varname s) (lx_in_string_var_offset s)
       (lx_in_braced_interpolation s) (lx_last_encapsed_variable s) (lx_last_significant_name s) (lx_halt_compiler_seen s)
       (lx_halt_compiler_significant_tokens s) (lx_heredoc_label s) (lx_heredoc_nowdoc s) (lx_encapsed_stack s)
       (lx_diagnostics s).
Definition set_expecting_string_varname (v : bool) (s : Lexer) : Lexer :=
  mkLexer (lx_source s) (lx_cursor s) (lx_config s) (lx_mode s)
       (lx_mode_start s) (lx_mode_start_line s) (lx_line s) (lx_emitted_placeholder s)
       (lx_emitted_eof s) (lx_expecting_object_property s) v (lx_in_string_var_offset s)
       (lx_in_braced_interpolation s) (lx_last_encapsed_variable s) (lx_last_significant_name s) (lx_halt_compiler_seen s)
       (lx_halt_compiler_significant_tokens s) (lx_heredoc_label s) (lx_heredoc_nowdoc s) (lx_encapsed_stack s)
       (lx_diagnostics s).
Definition set_in_string_var_offset (v : bool) (s : Lexer) : Lexer :=
  mkLexer (lx_source s) (lx_cursor s) (lx_config s) (lx_mode s)
       (lx_mode_start s) (lx_mode_start_line s) (lx_line s) (lx_emitted_placeholder s)
       (lx_emitted_eof s) (lx_expecting_object_property s) (lx_expecting_string_varname s) v
       (lx_in_braced_interpolation s) (lx_last_encapsed_variable s) (lx_last_significant_name s) (lx_halt_compiler_seen s)
       (lx_halt_compiler_significant_tokens s) (lx_heredoc_label s) (lx_heredoc_nowdoc s) (lx_encapsed_stack s)
       (lx_diagnostics s).
Definition set_in_braced_interpolation (v : bool) (s : Lexer) : Lexer :=
  mkLexer (lx_source s) (lx_cursor s) (lx_config s) (lx_mode s)
       (lx_mode_start s) (lx_mode_start_line s) (lx_line s) (lx_emitted_placeholder s)
       (lx_emitted_eof s) (lx_expecting_object_property s) (lx_expecting_string_varname s) (lx_in_string_var_offset s)
       v (lx_last_encapsed_variable s) (lx_last_significant_name s) (lx_halt_compiler_seen s)
       (lx_halt_compiler_significant_tokens s) (lx_heredoc_label s) (lx_heredoc_nowdoc s) (lx_encapsed_stack s)
       (lx_diagnostics s).
Definition set_last_encapsed_variable (v : bool) (s : Lexer) : Lexer :=
  mkLexer (lx_source s) (lx_cursor s) (lx_config s) (lx_mode s)
       (lx_mode_start s) (lx_mode_start_line s) (lx_line s) (lx_emitted_placeholder s)
       (lx_emitted_eof s) (lx_expecting_object_property s) (lx_expecting_string_varname s) (lx_in_string_var_offset s)
       (lx_in_braced_interpolation s) v (lx_last_significant_name s) (lx_halt_compiler_seen s)
       (lx_halt_compiler_significant_tokens s) (lx_heredoc_label s) (lx_heredoc_nowdoc s) (lx_encapsed_stack s)
       (lx_diagnostics s).
Definition set_last_significant_name (v : option TokenName.t) (s : Lexer) : Lexer :=
  mkLexer (lx_source s) (lx_cursor s) (lx_config s) (lx_mode s)
       (lx_mode_start s) (lx_mode_start_line s) (lx_line s) (lx_emitted_placeholder s)
       (lx_emitted_eof s) (lx_expecting_object_property s) (lx_expecting_string_varname s) (lx_in_string_var_offset s)
       (lx_in_braced_interpolation s) (lx_last_encapsed_variable s) v (lx_halt_compiler_seen s)
       (lx_halt_compiler_significant_tokens s) (lx_heredoc_label s) (lx_heredoc_nowdoc s) (lx_encapsed_stack s)
       (lx_diagnostics s).
Definition set_halt_compiler_seen (v : bool) (s : Lexer) : Lexer :=
  mkLexer (lx_source s) (lx_cursor s) (lx_config s) (lx_mode s)
       (lx_mode_start s) (lx_mode_start_line s) (lx_line s) (lx_emitted_placeholder s)
       (lx_emitted_eof s) (lx_expecting_object_property s) (lx_expecting_string_varname s) (lx_in_string_var_offset s)
       (lx_in_braced_interpolation s) (lx_last_encapsed_variable s) (lx_last_significant_name s) v
       (lx_halt_compiler_significant_tokens s) (lx_heredoc_label s) (lx_heredoc_nowdoc s) (lx_encapsed_stack s)
       (lx_diagnostics s).
Definition set_halt_compiler_significant_tokens (v : N) (s : Lexer) : Lexer :=
  mkLexer (lx_source s) (lx_cursor s) (lx_config s) (lx_mode s)
       (lx_mode_start s) (lx_mode_start_line s) (lx_line s) (lx_emitted_placeholder s)
       (lx_emitted_eof s) (lx_expecting_object_property s) (lx_expecting_string_varname s) (lx_in_string_var_offset s)
       (lx_in_braced_interpolation s) (lx_last_encapsed_variable s) (lx_last_significant_name s) (lx_halt_compiler_seen s)
       v (lx_heredoc_label s) (lx_heredoc_nowdoc s) (lx_encapsed_stack s)
       (lx_diagnostics s).
Definition set_heredoc_label (v : option bytes) (s : Lexer) : Lexer :=
  mkLexer (lx_source s) (lx_cursor s) (lx_config s) (lx_mode s)
       (lx_mode_start s) (lx_mode_start_line s) (lx_line s) (lx_emitted_placeholder s)
       (lx_emitted_eof s) (lx_expecting_object_property s) (lx_expecting_string_varname s) (lx_in_string_var_offset s)
       (lx_in_braced_interpolation s) (lx_last_encapsed_variable s) (lx_last_significant_name s) (lx_halt_compiler_seen s)
       (lx_halt_compiler_significant_tokens s) v (lx_heredoc_nowdoc s) (lx_encapsed_stack s)
       (lx_diagnostics s).
Definition set_heredoc_nowdoc (v : bool) (s : Lexer) : Lexer :=
  mkLexer (lx_source s) (lx_cursor s) (lx_config s) (lx_mode s)
       (lx_mode_start s) (lx_mode_start_line s) (lx_line s) (lx_emitted_placeholder s)
       (lx_emitted_eof s) (lx_expecting_object_property s) (lx_expecting_string_varname s) (lx_in_string_var_offset s)
       (lx_in_braced_interpolation s) (lx_last_encapsed_variable s) (lx_last_significant_name s) (lx_halt_compiler_seen s)
       (lx_halt_compiler_significant_tokens s) (lx_heredoc_label s) v (lx_encapsed_stack s)
       (lx_diagnostics s).
Definition set_encapsed_stack (v : list EncapsedSnapshot) (s : Lexer) : Lexer :=
  mkLexer (lx_source s) (lx_cursor s) (lx_config s) (lx_mode s)
       (lx_mode_start s) (lx_mode_start_line s) (lx_line s) (lx_emitted_placeholder s)
       (lx_emitted_eof s) (lx_expecting_object_property s) (lx_expecting_string_varname s) (lx_in_string_var_offset s)
       (lx_in_braced_interpolation s) (lx_last_encapsed_variable s) (lx_last_significant_name s) (lx_halt_compiler_seen s)
       (lx_halt_compiler_significant_tokens s) (lx_heredoc_label s) (lx_heredoc_nowdoc s) v
       (lx_diagnostics s).
Definition set_diagnostics (v : list LexDiagnostic) (s : Lexer) : Lexer :=
  mkLexer (lx_source s) (lx_cursor s) (lx_config s) (lx_mode s)
       (lx_mode_start s) (lx_mode_start_line s) (lx_line s) (lx_emitted_placeholder s)
       (lx_emitted_eof s) (lx_expecting_object_property s) (lx_expecting_string_varname s) (lx_in_string_var_offset s)
       (lx_in_braced_interpolation s) (lx_last_encapsed_variable s) (lx_last_significant_name s) (lx_halt_compiler_seen s)
       (lx_halt_compiler_significant_tokens s) (lx_heredoc_label s) (lx_heredoc_nowdoc s) (lx_encapsed_stack s)
       v.

Definition Lexer_new (source : bytes) (config : LexerConfig) : Lexer :=
  mkLexer source (Cursor.new source) config LexerMode.InlineHtml
    0 1 1 false false
    false false false
    false false None
    false 0 None
    false [] [].

(** ** Character classes *)

Definition is_php_whitespace (x : byte) : bool := existsb (Byte.eqb x) [x20; x09; x0a; x0d; x0c].
Definition is_bad_character (x : byte) : bool :=
  (u8 x <=? 8)%N || (x =b x0b) || in_range x 14 31 || (x =b x7f).
Definition is_identifier_start (x : byte) : bool :=
  (x =b x5f) || is_ascii_alphabetic x || (128 <=? u8 x)%N.
Definition is_identifier_continue (x : byte) : bool := is_identifier_start x || is_ascii_digit x.
Definition is_decimal_digit (x : byte) : bool := is_ascii_digit x.
Definition is_hex_digit (x : byte) : bool := is_ascii_hexdigit x.
Definition is_binary_digit (x : byte) : bool := (x =b x30) || (x =b x31).
Definition is_octal_digit (x : byte) : bool := in_range x 48 55.

(** ** Integer literals *)

Definition digit_sequence_exceeds (digits max : bytes) : bool :=
  let significant := match RustStd.position (fun x => negb (x =b x30)) digits with
                     | Some i => drop i digits
                     | None => []
                     end in
  (length max <? length significant) ||
  ((length significant =? length max) && bytes_gtb significant max).

Definition integer_literal_overflows (l : bytes) : bool :=
  if starts_with l (lit "0") && (1 <? length l) then
    let digits := List.filter (fun x => negb (x =b x5f)) (drop 1 l) in
    if forallb is_octal_digit digits
    then digit_sequence_exceeds digits (lit "777777777777777777777")
    else 22 <? length digits
  else
    let digits := List.filter (fun x => negb (x =b x5f)) l in
    digit_sequence_exceeds digits (lit "9223372036854775807").

(** ** Methods *)

Abbreviation M := (SM Lexer).

Section Methods.
Context {mc : Memchr} (bk : backend).

Definition offset (s : Lexer) : nat := Cursor.position (lx_cursor s).
Definition is_eof (s : Lexer) : bool := Cursor.is_eof (lx_cursor s).
Definition peek (s : Lexer) : option byte := Cursor.peek (lx_cursor s).
Definition peek_n (s : Lexer) (n : nat) : option byte := Cursor.peek_n (lx_cursor s) n.
Definition at_cursor (s : Lexer) (needle : bytes) : outcome bool :=
  Cursor.starts_with (lx_cursor s) needle.

Definition lexer_fuel (s : Lexer) : nat := S (length (lx_source s)).

(** [while cond { body }] on the lexer. *)
Definition while (cond : Lexer -> outcome bool) (body : M unit) : M unit := fun s =>
  loop (lexer_fuel s)
    (fun _ : unit => fun s => olet c := cond s in
       if c then (body ;;; ret (inl tt)) s else ret (inr tt) s) tt s.

(** [self.line += 1] on [u32], with overflow checks. *)
Definition increment_line : M unit := fun s =>
  if (lx_line s + 1 <? 2 ^ 32)%N then Ret (tt, set_line (lx_line s + 1) s) else Panic.

Definition advance_line_for_range (start e : nat) : M unit := fun s =>
  loop (lexer_fuel s)
    (fun i : nat =>
       if i <? e then
         let* l := gets lx_source in
         let* rest := lift (slice l i e) in
         match find_any2 rest x0d x0a with
         | None => ret (inr tt)
         | Some relative =>
           let i := i + relative in
           let* x := lift (index l i) in
           if x =b x0d then increment_line ;;; ret (inl (i + 1))
           else if x =b x0a then
             let* fresh := if i =? 0 then ret true
                           else let* y := lift (index l (i - 1)) in ret (negb (y =b x0d)) in
             if fresh then increment_line ;;; ret (inl (i + 1)) else ret (inl (i + 1))
           else ret (inl (i + 1))
         end
       else ret (inr tt)) start s.

Definition consume_len (len : nat) : M unit := fun s =>
  let start := offset s in
  let e := (start + len) `min` Cursor.len (lx_cursor s) in
  (advance_line_for_range start e ;;;
   let* d := lift (usize_sub e start) in
   if d =? 1 then modify (fun s => set_cursor (Cursor.bump (lx_cursor s)).2 s)
   else modify (fun s => set_cursor (Cursor.advance_by (lx_cursor s) d) s)) s.

(** [Token::new(kind, TextRange::new(start, self.cursor.position()), line)] *)
Definition token_from (kind : TokenKind.t) (start : nat) (line : N) : M Token := fun s =>
  Ret (mkToken kind (TextRange_new start (offset s)) line, s).

Definition push_diagnostic (kind : LexDiagnosticKind.t) (message : string) (span : TextRange)
    (line : N) : M unit :=
  modify (fun s => set_diagnostics (lx_diagnostics s ++ [mkLexDiagnostic kind message span line]) s).

Definition consume_fixed_token (kind : TokenKind.t) (len : nat) : M Token := fun s =>
  let start := offset s in let line := lx_line s in
  (consume_len len ;;; token_from kind start line) s.

Definition consume_while_token (kind : TokenKind.t) (predicate : Lexer -> bool) : M Token := fun s =>
  let start := offset s in let line := lx_line s in
  (while (fun s => Ret (negb (is_eof s) && predicate s)) (consume_len 1) ;;;
   token_from kind start line) s.

(** ** Tags *)

Definition php_tag_space_len (c : Cursor.t) (off : nat) : nat :=
  if opt_is (Cursor.peek_n c off) x0d && opt_is (Cursor.peek_n c (off + 1)) x0a then 2
  else if is_some_and (Cursor.peek_n c off) is_ascii_whitespace then 1
  else 0.

Definition cursor_starts_with_at (s : Lexer) (off : nat) (needle : bytes) : bool :=
  forallb (fun '(i, expected) => opt_is (peek_n s (off + i)) expected)
    (zip (seq 0 (length needle)) needle).

Definition open_tag_at_offset (s : Lexer) (off : nat) : option (TokenKind.t * nat) :=
  if cursor_starts_with_at s off (lit "<?=")
  then Some (TokenKind.Named TokenName.OpenTagWithEcho, 3)
  else if (cursor_starts_with_at s off (lit "<?php") || cursor_starts_with_at s off (lit "<?PHP"))
          && match peek_n s (off + 5) with None => true | Some x => is_ascii_whitespace x end
  then Some (TokenKind.Named TokenName.OpenTag, 5 + php_tag_space_len (lx_cursor s) (off + 5))
  else if short_open_tag (lx_config s) && cursor_starts_with_at s off (lit "<?")
  then Some (TokenKind.Named TokenName.OpenTag, 2 + php_tag_space_len (lx_cursor s) (off + 2))
  else None.

Definition open_tag_at_cursor (s : Lexer) : option (TokenKind.t * nat) := open_tag_at_offset s 0.

Definition close_tag_len (s : Lexer) : nat :=
  if opt_is (peek_n s 2) x0d && opt_is (peek_n s 3) x0a then 4
  else if opt_in (peek_n s 2) [x0a; x0d] then 3
  else 2.

Definition is_none {A} (o : option A) : bool := match o with None => true | Some _ => false end.

Definition next_inline_html_token : M (option Token) := fun s =>
  if is_eof s then Ret (None, s)
  else
    olet bom := if offset s =? 0 then at_cursor s [xef; xbb; xbf] else Ret false in
    ((if bom && negb (is_none (open_tag_at_offset s 3)) then consume_len 3 else ret tt) ;;;
     fun s =>
     match open_tag_at_cursor s with
     | Some (kind, len) =>
         let start := offset s in let line := lx_line s in
         (consume_len len ;;;
          modify (set_mode LexerMode.Scripting) ;;;
          let* t := token_from kind start line in ret (Some t)) s
     | None =>
         let start := offset s in let line := lx_line s in
         (loop (lexer_fuel s) (fun _ : unit => fun s =>
            if negb (is_eof s) && is_none (open_tag_at_cursor s) then
              olet rest := slice_from (lx_source s) (offset s) in
              match find_byte rest x3c with
              | None => (consume_len (length rest) ;;; ret (inr tt)) s
              | Some relative =>
                  if relative =? 0 then (consume_len 1 ;;; ret (inl tt)) s
                  else (consume_len relative ;;; ret (inl tt)) s
              end
            else ret (inr tt) s) tt ;;;
          let* t := token_from (TokenKind.Named TokenName.InlineHtml) start line in
          ret (Some t)) s
     end) s.

(** ** Comments *)

Definition consume_line_comment : M Token := fun s =>
  let start := offset s in let line := lx_line s in
  (loop (lexer_fuel s) (fun _ : unit => fun s =>
     if negb (is_eof s) then
       olet rest := slice_from (lx_source s) (offset s) in
       let next_line_break := find_any2 rest x0d x0a in
       let next_question := find_byte rest x3f in
       match nearest_found next_line_break next_question with
       | None => (consume_len (length rest) ;;; ret (inr tt)) s
       | Some relative =>
           if 0 <? relative then (consume_len relative ;;; ret (inl tt)) s
           else
             olet close := at_cursor s (lit "?>") in
             if close || opt_in (peek s) [x0d; x0a] then ret (inr tt) s
             else (consume_len 1 ;;; ret (inl tt)) s
       end
     else ret (inr tt) s) tt ;;;
   token_from (TokenKind.Named TokenName.Comment) start line) s.

(** The loop leaves with [true] at [*/] and with [false] at the end of input. *)
Definition consume_block_comment : M Token := fun s =>
  let start := offset s in let line := lx_line s in
  olet doc := at_cursor s (lit "/**") in
  let kind := if doc then TokenKind.Named TokenName.DocComment
              else TokenKind.Named TokenName.Comment in
  (consume_len 2 ;;;
   let* closed := loop (lexer_fuel s) (fun _ : unit => fun s =>
     if negb (is_eof s) then
       olet rest := slice_from (lx_source s) (offset s) in
       match find_byte rest x2a with
       | None => (consume_len (length rest) ;;; ret (inr false)) s
       | Some relative =>
           if 0 <? relative then (consume_len relative ;;; ret (inl tt)) s
           else
             olet close := at_cursor s (lit "*/") in
             if close then (consume_len 2 ;;; ret (inr true)) s
             else (consume_len 1 ;;; ret (inl tt)) s
       end
     else ret (inr false) s) tt in
   if closed then token_from kind start line
   else
     let* range := gets (fun s => TextRange_new start (offset s)) in
     push_diagnostic LexDiagnosticKind.UnterminatedBlockComment "unterminated block comment"
       range line ;;;
     ret (mkToken kind range line)) s.

(** ** Words *)

Fixpoint word_bytes_match (s : Lexer) (off : nat) (word : bytes) : bool :=
  match word with
  | [] => true
  | expected :: word =>
      match peek_n s off with
      | None => false
      | Some actual => byte_eq_ignore_ascii_case actual expected && word_bytes_match s (off + 1) word
      end
  end.
Definition word_at_offset (s : Lexer) (off : nat) (word : bytes) : bool :=
  word_bytes_match s off word &&
  negb (is_some_and (peek_n s (off + length word)) is_identifier_continue).
Definition word_at_cursor (s : Lexer) (word : bytes) : bool := word_at_offset s 0 word.
Definition bytes_at_cursor_eq_ignore_ascii_case (s : Lexer) (expected : bytes) : bool :=
  word_bytes_match s 0 expected.

(** [while self.cursor.peek_n(off).is_some_and(p) { off += 1 }] *)
Definition peek_skip (s : Lexer) (p : byte -> bool) (off : nat) : nat :=
  skip_while p (Cursor.source (lx_cursor s)) (offset s + off) - offset s.

Definition consume_yield_from : M (option Token) := fun s =>
  if negb (word_at_cursor s (lit "yield")) then Ret (None, s)
  else
    let off := peek_skip s is_php_whitespace 5 in
    let saw_whitespace := 5 <? off in
    if negb saw_whitespace || negb (word_at_offset s off (lit "from")) then Ret (None, s)
    else
      let len := off + 4 in
      if is_some_and (peek_n s len) is_identifier_continue then Ret (None, s)
      else
        let start := offset s in let line := lx_line s in
        (consume_len len ;;;
         let* t := token_from (TokenKind.Named TokenName.YieldFrom) start line in ret (Some t)) s.

Definition consume_variable_or_dollar : M Token := fun s =>
  let start := offset s in let line := lx_line s in
  (consume_len 1 ;;;
   fun s =>
   if is_some_and (peek s) is_identifier_start then
     (while (fun s => Ret (is_some_and (peek s) is_identifier_continue)) (consume_len 1) ;;;
      token_from (TokenKind.Named TokenName.Variable_) start line) s
   else token_from (SymChar x24) start line s) s.

Definition ampersand_is_followed_by_var_or_vararg (s : Lexer) : bool :=
  let off := peek_skip s is_php_whitespace 1 in
  opt_is (peek_n s off) x24 ||
  (opt_is (peek_n s off) x2e && opt_is (peek_n s (off + 1)) x2e && opt_is (peek_n s (off + 2)) x2e).

Definition consume_ampersand : M Token := fun s =>
  let kind := if ampersand_is_followed_by_var_or_vararg s
              then TokenName.AmpersandFollowedByVarOrVararg
              else TokenName.AmpersandNotFollowedByVarOrVararg in
  consume_fixed_token (TokenKind.Named kind) 1 s.

Definition consume_identifier_bytes : M unit := fun s =>
  ((if is_some_and (peek s) is_identifier_start then consume_len 1 else ret tt) ;;;
   loop (lexer_fuel s) (fun _ : unit => fun s =>
     match peek s with
     | None => ret (inr tt) s
     | Some x =>
         olet rest := slice_from (lx_source s) (offset s) in
         olet ascii_len := Arch.ascii_identifier_continue_chunk_len bk rest in
         if 0 <? ascii_len then (consume_len ascii_len ;;; ret (inl tt)) s
         else if (128 <=? u8 x)%N then (consume_len 1 ;;; ret (inl tt)) s
         else ret (inr tt) s
     end) tt) s.

Definition consume_identifier_token (name : TokenName.t) : M Token := fun s =>
  let start := offset s in let line := lx_line s in
  (consume_identifier_bytes ;;; token_from (TokenKind.Named name) start line) s.

Definition at_name_separator (s : Lexer) : bool :=
  opt_is (peek s) x5c && is_some_and (peek_n s 1) is_identifier_start.

Definition consume_qualified_name (kind : TokenKind.t) (leading_backslash : bool) : M Token := fun s =>
  let start := offset s in let line := lx_line s in
  ((if leading_backslash then consume_len 1 else ret tt) ;;;
   consume_identifier_bytes ;;;
   while (fun s => Ret (at_name_separator s)) (consume_len 1 ;;; consume_identifier_bytes) ;;;
   token_from kind start line) s.

Definition previous_token_was_member_access (s : Lexer) : bool :=
  match lx_last_significant_name s with
  | Some TokenName.DoubleColon | Some TokenName.ObjectOperator
  | Some TokenName.NullsafeObjectOperator => true
  | _ => false
  end.

Definition consume_identifier_or_name : M Token := fun s =>
  let start := offset s in let line := lx_line s in
  (consume_identifier_bytes ;;;
   fun s =>
   olet word := slice (lx_source s) start (offset s) in
   if eq_ignore_ascii_case word (lit "namespace") && at_name_separator s then
     (while (fun s => Ret (at_name_separator s)) (consume_len 1 ;;; consume_identifier_bytes) ;;;
      token_from (TokenKind.Named TokenName.NameRelative) start line) s
   else
     (* the loop variable is [qualified] *)
     (let* qualified := loop (lexer_fuel s) (fun qualified : bool => fun s =>
        if at_name_separator s
        then (consume_len 1 ;;; consume_identifier_bytes ;;; ret (inl true)) s
        else ret (inr qualified) s) false in
      fun s =>
      let range := TextRange_new start (offset s) in
      if qualified then Ret (mkToken (TokenKind.Named TokenName.NameQualified) range line, s)
      else
        olet text := slice (lx_source s) (to_usize (Source.start range)) (to_usize (end_ range)) in
        let name := default TokenName.String (keyword_or_magic_token text) in
        ((if TokenName.eqb name TokenName.HaltCompiler && negb (previous_token_was_member_access s)
          then modify (set_halt_compiler_seen true) ;;;
               modify (set_halt_compiler_significant_tokens 0)
          else ret tt) ;;;
         ret (mkToken (TokenKind.Named name) range line)) s) s) s.

(** ** Numbers *)

Definition consume_digit_sequence (predicate : byte -> bool) : M unit := fun s =>
  ((if is_some_and (peek s) predicate then consume_len 1 else ret tt) ;;;
   loop (lexer_fuel s) (fun _ : unit => fun s =>
     match peek s with
     | None => ret (inr tt) s
     | Some x =>
         if predicate x then (consume_len 1 ;;; ret (inl tt)) s
         else if (x =b x5f) && is_some_and (peek_n s 1) predicate
         then (consume_len 2 ;;; ret (inl tt)) s
         else ret (inr tt) s
     end) tt) s.

Definition consume_exponent_if_present : M bool := fun s =>
  if negb (opt_in (peek s) [x65; x45]) then Ret (false, s)
  else
    let digit_offset := if opt_in (peek_n s 1) [x2b; x2d] then 2 else 1 in
    if negb (is_some_and (peek_n s digit_offset) is_decimal_digit) then Ret (false, s)
    else (consume_len digit_offset ;;; consume_digit_sequence is_decimal_digit ;;; ret true) s.

Definition consume_number : M Token := fun s =>
  let start := offset s in let line := lx_line s in
  let radix (p : byte -> bool) : M Token :=
    consume_len 2 ;;; consume_digit_sequence p ;;;
    token_from (TokenKind.Named TokenName.LNumber) start line in
  if opt_is (peek s) x2e then
    (consume_len 1 ;;; consume_digit_sequence is_decimal_digit ;;;
     consume_exponent_if_present ;;;
     token_from (TokenKind.Named TokenName.DNumber) start line) s
  else if opt_is (peek s) x30 && opt_in (peek_n s 1) [x78; x58]
          && is_some_and (peek_n s 2) is_hex_digit
  then radix is_hex_digit s
  else if opt_is (peek s) x30 && opt_in (peek_n s 1) [x62; x42]
          && is_some_and (peek_n s 2) is_binary_digit
  then radix is_binary_digit s
  else if opt_is (peek s) x30 && opt_in (peek_n s 1) [x6f; x4f]
          && is_some_and (peek_n s 2) is_octal_digit
  then radix is_octal_digit s
  else
    (consume_digit_sequence is_decimal_digit ;;;
     fun s =>
     olet digits := slice (lx_source s) start (offset s) in
     let kind := if integer_literal_overflows digits then TokenName.DNumber else TokenName.LNumber in
     (let* kind := (if opt_is (peek s) x2e
                    then consume_len 1 ;;; consume_digit_sequence is_decimal_digit ;;;
                         ret TokenName.DNumber
                    else ret kind) in
      let* exponent := consume_exponent_if_present in
      let kind := if exponent then TokenName.DNumber else kind in
      token_from (TokenKind.Named kind) start line) s) s.

(** ** Casts, visibilities and operators *)

Definition cast_at_cursor (s : Lexer) : outcome (option (TokenKind.t * nat)) :=
  if negb (opt_is (peek s) x28) then Ret None
  else
    let l := lx_source s in
    let name_start := skip_while is_php_whitespace l (offset s + 1) in
    let name_end := skip_while is_ascii_alphabetic l name_start in
    if name_end =? name_start then Ret None
    else
      olet name := slice l name_start name_end in
      let off := skip_while is_php_whitespace l name_end in
      if negb (opt_is (l !! off) x29) then Ret None
      else
        let named (w : bytes) := eq_ignore_ascii_case name w in
        let token :=
          if named (lit "int") || named (lit "integer") then Some TokenName.IntCast
          else if named (lit "float") || named (lit "double") || named (lit "real") then Some TokenName.DoubleCast
          else if named (lit "string") then Some TokenName.StringCast
          else if named (lit "array") then Some TokenName.ArrayCast
          else if named (lit "object") then Some TokenName.ObjectCast
          else if named (lit "bool") || named (lit "boolean") then Some TokenName.BoolCast
          else if named (lit "unset") then Some TokenName.UnsetCast
          else if named (lit "void") then Some TokenName.VoidCast
          else None in
        match token with
        | None => Ret None
        | Some name =>
            olet len := usize_sub (off + 1) (offset s) in
            Ret (Some (TokenKind.Named name, len))
        end.

Definition VISIBILITIES : list (bytes * TokenName.t) :=
  [(lit "protected(set)", TokenName.ProtectedSet);
   (lit "private(set)", TokenName.PrivateSet);
   (lit "public(set)", TokenName.PublicSet)].

Fixpoint first_entry (accept : bytes -> bool) (table : list (bytes * TokenName.t))
    : option (TokenKind.t * nat) :=
  match table with
  | [] => None
  | (text, name) :: table =>
      if accept text then Some (TokenKind.Named name, length text) else first_entry accept table
  end.

Definition property_hook_visibility_at_cursor (s : Lexer) : option (TokenKind.t * nat) :=
  first_entry (bytes_at_cursor_eq_ignore_ascii_case s) VISIBILITIES.

Definition OPERATORS : list (bytes * TokenName.t) :=
  [(lit "??=", TokenName.CoalesceEqual);
   (lit "?->", TokenName.NullsafeObjectOperator);
   (lit "===", TokenName.IsIdentical);
   (lit "!==", TokenName.IsNotIdentical);
   (lit "<=>", TokenName.Spaceship);
   (lit "<<=", TokenName.SlEqual);
   (lit ">>=", TokenName.SrEqual);
   (lit "**=", TokenName.PowEqual);
   (lit "|>", TokenName.Pipe);
   (lit "==", TokenName.IsEqual);
   (lit "!=", TokenName.IsNotEqual);
   (lit "<>", TokenName.IsNotEqual);
   (lit "<=", TokenName.IsSmallerOrEqual);
   (lit ">=", TokenName.IsGreaterOrEqual);
   (lit "&&", TokenName.BooleanAnd);
   (lit "||", TokenName.BooleanOr);
   (lit "<<", TokenName.Sl);
   (lit ">>", TokenName.Sr);
   (lit "+=", TokenName.PlusEqual);
   (lit "-=", TokenName.MinusEqual);
   (lit "*=", TokenName.MulEqual);
   (lit "/=", TokenName.DivEqual);
   (lit "%=", TokenName.ModEqual);
   (lit ".=", TokenName.ConcatEqual);
   (lit "&=", TokenName.AndEqual);
   (lit "|=", TokenName.OrEqual);
   (lit "^=", TokenName.XorEqual);
   (lit "??", TokenName.Coalesce);
   (lit "->", TokenName.ObjectOperator);
   (lit "::", TokenName.DoubleColon);
   (lit "=>", TokenName.DoubleArrow);
   (lit "++", TokenName.Inc);
   (lit "--", TokenName.Dec);
   (lit "...", TokenName.Ellipsis);
   (lit "**", TokenName.Pow)].

(** The loop over [OPERATORS]; every test slices at the cursor. *)
Definition operator_at_cursor (s : Lexer) : outcome (option (TokenKind.t * nat)) :=
  olet rest := slice_from (lx_source s) (offset s) in
  Ret (first_entry (starts_with rest) OPERATORS).

(** ** Heredocs *)

Definition heredoc_start_at_cursor (s : Lexer) : outcome (option (nat * bytes * bool)) :=
  olet arrows := at_cursor s (lit "<<<") in
  if negb arrows then Ret None
  else
    let l := lx_source s in
    let start := offset s in
    let off := skip_while (fun x => (x =b x20) || (x =b x09)) l (start + 3) in
    let quote := if opt_in (l !! off) [x27; x22] then l !! off else None in
    let nowdoc := opt_is (l !! off) x27 in
    let off := match quote with Some _ => off + 1 | None => off end in
    let label_start := off in
    if negb (is_some_and (l !! off) is_identifier_start) then Ret None
    else
      let off := skip_while is_identifier_continue l (off + 1) in
      let label_end := off in
      let closed := match quote with
                    | Some q => if opt_is (l !! off) q then Some (off + 1) else None
                    | None => Some off
                    end in
      match closed with
      | None => Ret None
      | Some off =>
          let newline_len :=
            if opt_is (l !! off) x0d && opt_is (l !! (off + 1)) x0a then 2
            else if opt_in (l !! off) [x0a; x0d] then 1
            else 0 in
          if newline_len =? 0 then Ret None
          else
            olet label := slice l label_start label_end in
            if utf8_valid label then
              olet len := usize_sub (off + newline_len) start in
              Ret (Some (len, label, nowdoc))
            else Ret None
      end.

Definition heredoc_end_len_at_cursor (s : Lexer) : outcome (option nat) :=
  match lx_heredoc_label s with
  | None => Ret None
  | Some label =>
      let l := lx_source s in
      let start := offset s in
      if (0 <? start) && negb (opt_in (l !! (start - 1)) [x0a; x0d]) then Ret None
      else
        let off := skip_while (fun x => (x =b x20) || (x =b x09)) l start in
        match get_range l off (off + length label) with
        | Some w =>
            if bytes_eqb w label then
              let off := off + length label in
              match l !! off with
              | None => olet n := usize_sub off start in Ret (Some n)
              | Some x => if negb (is_identifier_continue x)
                          then olet n := usize_sub off start in Ret (Some n)
                          else Ret None
              end
            else Ret None
        | None => Ret None
        end
  end.

(** ** Modes *)

Definition clear_encapsed_state (s : Lexer) : Lexer :=
  set_expecting_object_property false (set_expecting_string_varname false
    (set_in_string_var_offset false (set_in_braced_interpolation false
      (set_last_encapsed_variable false s)))).

Definition clear_heredoc_state (s : Lexer) : Lexer :=
  set_heredoc_label None (set_heredoc_nowdoc false s).

Definition enter_encapsed_mode (mode : LexerMode.t) (start : nat) (line : N) (s : Lexer) : Lexer :=
  clear_encapsed_state (set_mode_start_line line (set_mode_start start (set_mode mode s))).

Definition save_encapsed_snapshot (s : Lexer) : Lexer :=
  set_encapsed_stack
    (mkEncapsedSnapshot (lx_mode s) (lx_mode_start s) (lx_mode_start_line s)
       (lx_expecting_object_property s) (lx_expecting_string_varname s)
       (lx_in_string_var_offset s) (lx_in_braced_interpolation s)
       (lx_last_encapsed_variable s) (lx_heredoc_label s) (lx_heredoc_nowdoc s)
     :: lx_encapsed_stack s) s.

Definition restore_encapsed_snapshot : M bool := fun s =>
  match lx_encapsed_stack s with
  | [] => Ret (false, s)
  | snapshot :: stack =>
      Ret (true,
        set_heredoc_nowdoc (snap_heredoc_nowdoc snapshot)
        (set_heredoc_label (snap_heredoc_label snapshot)
        (set_last_encapsed_variable (snap_last_encapsed_variable snapshot)
        (set_in_braced_interpolation (snap_in_braced_interpolation snapshot)
        (set_in_string_var_offset (snap_in_string_var_offset snapshot)
        (set_expecting_string_varname (snap_expecting_string_varname snapshot)
        (set_expecting_object_property (snap_expecting_object_property snapshot)
        (set_mode_start_line (snap_mode_start_line snapshot)
        (set_mode_start (snap_mode_start snapshot)
        (set_mode (snap_mode snapshot)
        (set_encapsed_stack stack s)))))))))))
  end.

(** ** Strings and heredocs in the scripting scanner *)

Definition consume_constant_string_if_available : M (option Token) := fun s =>
  olet scan := scan_constant_encapsed_string (lx_source s) (offset s) in
  match scan with
  | None => Ret (None, s)
  | Some StringScan.Interpolated =>
      let start := offset s in let line := lx_line s in
      (modify (enter_encapsed_mode LexerMode.DoubleQuote start line) ;;;
       let* t := consume_fixed_token (SymChar x22) 1 in ret (Some t)) s
  | Some (StringScan.Constant len terminated) =>
      let start := offset s in let line := lx_line s in
      (consume_len len ;;;
       let* range := gets (fun s => TextRange_new start (offset s)) in
       (if negb terminated
        then push_diagnostic LexDiagnosticKind.UnterminatedString "unterminated string literal"
               range line
        else ret tt) ;;;
       ret (Some (mkToken (TokenKind.Named TokenName.ConstantEncapsedString) range line))) s
  end.

Definition in_heredoc_mode (s : Lexer) : bool :=
  match lx_mode s with LexerMode.Heredoc | LexerMode.Nowdoc => true | _ => false end.

Definition consume_heredoc_start_if_available : M (option Token) := fun s =>
  olet found := heredoc_start_at_cursor s in
  match found with
  | None => Ret (None, s)
  | Some (len, label, nowdoc) =>
      let start := offset s in let line := lx_line s in
      ((if in_heredoc_mode s then modify save_encapsed_snapshot else ret tt) ;;;
       modify (set_heredoc_label (Some label)) ;;;
       modify (set_heredoc_nowdoc nowdoc) ;;;
       modify (enter_encapsed_mode (if nowdoc then LexerMode.Nowdoc else LexerMode.Heredoc)
                 start line) ;;;
       modify (set_heredoc_nowdoc nowdoc) ;;;
       let* t := consume_fixed_token (TokenKind.Named TokenName.StartHeredoc) len in
       ret (Some t)) s
  end.

Definition consume_remaining_inline_html : M Token := fun s =>
  let start := offset s in let line := lx_line s in
  (let* n := lift (usize_sub (length (lx_source s)) start) in
   consume_len n ;;;
   modify (set_halt_compiler_seen false) ;;;
   modify (set_halt_compiler_significant_tokens 0) ;;;
   token_from (TokenKind.Named TokenName.InlineHtml) start line) s.

Definition some_token (m : M Token) : M (option Token) := let* t := m in ret (Some t).

Definition next_scripting_token : M (option Token) := fun s =>
  if is_eof s then Ret (None, s)
  else if lx_halt_compiler_seen s && opt_is (peek s) x3b then
    (let* token := consume_fixed_token (SymChar x3b) 1 in
     modify (set_mode LexerMode.InlineHtml) ;;;
     modify (set_halt_compiler_seen false) ;;;
     modify (set_halt_compiler_significant_tokens 0) ;;;
     ret (Some token)) s
  else if lx_halt_compiler_seen s && (3 <=? lx_halt_compiler_significant_tokens s)%N then
    some_token consume_remaining_inline_html s
  else
  olet close := at_cursor s (lit "?>") in
  if close then
    let start := offset s in let line := lx_line s in
    (consume_len (close_tag_len s) ;;;
     modify (set_mode LexerMode.InlineHtml) ;;;
     some_token (token_from (TokenKind.Named TokenName.CloseTag) start line)) s
  else if is_php_whitespace (default x00 (peek s)) then
    some_token (consume_while_token (TokenKind.Named TokenName.Whitespace)
                  (fun s => is_some_and (peek s) is_php_whitespace)) s
  else
  olet attribute := at_cursor s (lit "#[") in
  if attribute then
    some_token (consume_fixed_token (TokenKind.Named TokenName.Attribute) 2) s
  else
  olet slashes := at_cursor s (lit "//") in
  if slashes then some_token consume_line_comment s
  else
  olet hash := at_cursor s (lit "#") in
  if hash then some_token consume_line_comment s
  else
  olet block := at_cursor s (lit "/*") in
  if block then some_token consume_block_comment s
  else if is_bad_character (default x00 (peek s)) then
    let start := offset s in let line := lx_line s in
    (consume_len 1 ;;;
     let* range := gets (fun s => TextRange_new start (offset s)) in
     push_diagnostic LexDiagnosticKind.BadCharacter "bad control character in scripting mode"
       range line ;;;
     ret (Some (mkToken (TokenKind.Named TokenName.BadCharacter) range line))) s
  else if is_some_and (peek s) is_ascii_digit
          || (opt_is (peek s) x2e && is_some_and (peek_n s 1) is_ascii_digit) then
    some_token consume_number s
  else
  olet str := consume_constant_string_if_available s in
  match str with (Some token, s) => Ret (Some token, s) | (None, s) =>
  olet heredoc := consume_heredoc_start_if_available s in
  match heredoc with (Some token, s) => Ret (Some token, s) | (None, s) =>
  if opt_is (peek s) x60 then
    let start := offset s in let line := lx_line s in
    (modify (enter_encapsed_mode LexerMode.Backtick start line) ;;;
     some_token (consume_fixed_token (SymChar x60) 1)) s
  else
  olet cast := cast_at_cursor s in
  match cast with Some (kind, len) => some_token (consume_fixed_token kind len) s | None =>
  olet yield_from := consume_yield_from s in
  match yield_from with (Some token, s) => Ret (Some token, s) | (None, s) =>
  if opt_is (peek s) x24 then some_token consume_variable_or_dollar s
  else
  match property_hook_visibility_at_cursor s with
  | Some (kind, len) => some_token (consume_fixed_token kind len) s
  | None =>
  if opt_is (peek s) x5c && is_some_and (peek_n s 1) is_identifier_start then
    some_token (consume_qualified_name (TokenKind.Named TokenName.NameFullyQualified) true) s
  else if opt_is (peek s) x5c then
    some_token (consume_fixed_token (TokenKind.Named TokenName.NsSeparator) 1) s
  else if is_some_and (peek s) is_identifier_start then
    some_token consume_identifier_or_name s
  else
  olet operator := operator_at_cursor s in
  match operator with Some (kind, len) => some_token (consume_fixed_token kind len) s | None =>
  if opt_is (peek s) x26 then some_token consume_ampersand s
  else
    let start := offset s in let line := lx_line s in
    let x := default x00 (peek s) in
    (consume_len 1 ;;; some_token (token_from (SymChar x) start line)) s
  end end end end end end.

(** ** Interpolated strings *)

Definition consume_num_string : M Token := fun s =>
  let start := offset s in let line := lx_line s in
  (while (fun s => Ret (is_some_and (peek s) is_decimal_digit)) (consume_len 1) ;;;
   token_from (TokenKind.Named TokenName.NumString) start line) s.

Definition at_variable (s : Lexer) : bool :=
  opt_is (peek s) x24 && is_some_and (peek_n s 1) is_identifier_start.

(** [if peek == '\\' { consume 1; if !eof { consume 1 }; continue } consume 1] *)
Definition consume_escaped_or_byte (escapes : bool) : M unit := fun s =>
  if escapes && opt_is (peek s) x5c then
    (consume_len 1 ;;; fun s => if negb (is_eof s) then consume_len 1 s else ret tt s) s
  else consume_len 1 s.

Definition consume_encapsed_text (delimiter : byte) : M Token := fun s =>
  let start := offset s in let line := lx_line s in
  (while (fun s =>
     if is_eof s then Ret false
     else if opt_is (peek s) delimiter then Ret false
     else
       olet curly := at_cursor s (lit "{$") in
       olet dollar_curly := at_cursor s (lit "${") in
       Ret (negb (curly || dollar_curly || at_variable s
                  || (lx_in_braced_interpolation s && opt_is (peek s) x7d))))
     (consume_escaped_or_byte true) ;;;
   modify (set_last_encapsed_variable false) ;;;
   token_from (TokenKind.Named TokenName.EncapsedAndWhitespace) start line) s.

Definition consume_heredoc_text : M Token := fun s =>
  let start := offset s in let line := lx_line s in
  (loop (lexer_fuel s) (fun _ : unit => fun s =>
     if is_eof s then ret (inr tt) s
     else
       olet e := heredoc_end_len_at_cursor s in
       olet curly := at_cursor s (lit "{$") in
       olet dollar_curly := at_cursor s (lit "${") in
       if negb (is_none e)
          || (negb (lx_heredoc_nowdoc s)
              && (curly || dollar_curly || at_variable s
                  || (lx_in_braced_interpolation s && opt_is (peek s) x7d)))
       then ret (inr tt) s
       else (consume_escaped_or_byte (negb (lx_heredoc_nowdoc s)) ;;; ret (inl tt)) s) tt ;;;
   modify (set_last_encapsed_variable false) ;;;
   token_from (TokenKind.Named TokenName.EncapsedAndWhitespace) start line) s.

Definition set_after_variable (b : bool) : M unit := modify (set_last_encapsed_variable b).

(** The tests that [next_encapsed_token] and
    [next_interpolation_token_without_delimiter] have in common, in order. *)
Definition interpolation_token : M (option Token) := fun s =>
  if lx_expecting_object_property s && is_some_and (peek s) is_identifier_start then
    (modify (set_expecting_object_property false) ;;; set_after_variable false ;;;
     some_token (consume_identifier_token TokenName.String)) s
  else if lx_expecting_string_varname s && is_some_and (peek s) is_identifier_start then
    (modify (set_expecting_string_varname false) ;;; set_after_variable false ;;;
     some_token (consume_identifier_token TokenName.StringVarName)) s
  else if lx_in_string_var_offset s && is_some_and (peek s) is_decimal_digit then
    some_token consume_num_string s
  else if lx_in_string_var_offset s && opt_is (peek s) x5d then
    (modify (set_in_string_var_offset false) ;;;
     some_token (consume_fixed_token (SymChar x5d) 1)) s
  else if lx_in_braced_interpolation s && opt_is (peek s) x7d then
    (modify (set_in_braced_interpolation false) ;;; set_after_variable false ;;;
     some_token (consume_fixed_token (SymChar x7d) 1)) s
  else
  olet curly := at_cursor s (lit "{$") in
  if curly then
    (modify (set_in_braced_interpolation true) ;;; set_after_variable false ;;;
     some_token (consume_fixed_token (TokenKind.Named TokenName.CurlyOpen) 1)) s
  else
  olet dollar_curly := at_cursor s (lit "${") in
  if dollar_curly then
    (modify (set_expecting_string_varname true) ;;; modify (set_in_braced_interpolation true) ;;;
     set_after_variable false ;;;
     some_token (consume_fixed_token (TokenKind.Named TokenName.DollarOpenCurlyBraces) 2)) s
  else if at_variable s then
    (let* token := consume_variable_or_dollar in
     set_after_variable (bool_decide (token_kind token = TokenKind.Named TokenName.Variable_)) ;;;
     ret (Some token)) s
  else
  olet arrow := if lx_last_encapsed_variable s then at_cursor s (lit "->") else Ret false in
  if arrow then
    (modify (set_expecting_object_property true) ;;; set_after_variable false ;;;
     some_token (consume_fixed_token (TokenKind.Named TokenName.ObjectOperator) 2)) s
  else if lx_last_encapsed_variable s && opt_is (peek s) x5b then
    (modify (set_in_string_var_offset true) ;;; set_after_variable false ;;;
     some_token (consume_fixed_token (SymChar x5b) 1)) s
  else Ret (None, s).

Definition next_interpolation_token_without_delimiter : M (option Token) := interpolation_token.

Definition next_encapsed_token (delimiter : byte) : M (option Token) := fun s =>
  if is_eof s then
    (push_diagnostic LexDiagnosticKind.UnterminatedString "unterminated encapsed string literal"
       (TextRange_new (lx_mode_start s) (offset s)) (lx_mode_start_line s) ;;;
     modify (set_mode LexerMode.Scripting) ;;;
     modify clear_encapsed_state ;;;
     ret None) s
  else if opt_is (peek s) delimiter then
    (modify (set_mode LexerMode.Scripting) ;;;
     modify clear_encapsed_state ;;;
     some_token (consume_fixed_token (SymChar delimiter) 1)) s
  else
  olet r := interpolation_token s in
  match r with
  | (Some token, s) => Ret (Some token, s)
  | (None, s) => some_token (consume_encapsed_text delimiter) s
  end.

Definition next_heredoc_token : M (option Token) := fun s =>
  if is_eof s then
    (push_diagnostic LexDiagnosticKind.UnterminatedHeredoc "unterminated heredoc/nowdoc literal"
       (TextRange_new (lx_mode_start s) (offset s)) (lx_mode_start_line s) ;;;
     modify (set_mode LexerMode.Scripting) ;;;
     modify clear_heredoc_state ;;;
     modify clear_encapsed_state ;;;
     ret None) s
  else
  olet e := heredoc_end_len_at_cursor s in
  match e with
  | Some len =>
      (let* token := consume_fixed_token (TokenKind.Named TokenName.EndHeredoc) len in
       let* restored := restore_encapsed_snapshot in
       (if negb restored
        then modify (set_mode LexerMode.Scripting) ;;;
             modify clear_heredoc_state ;;;
             modify clear_encapsed_state
        else ret tt) ;;;
       ret (Some token)) s
  | None =>
      if negb (lx_heredoc_nowdoc s) && lx_in_braced_interpolation s then
        if opt_is (peek s) x7d then
          (modify (set_in_braced_interpolation false) ;;; set_after_variable false ;;;
           some_token (consume_fixed_token (SymChar x7d) 1)) s
        else next_scripting_token s
      else
        olet r := if negb (lx_heredoc_nowdoc s)
                  then next_interpolation_token_without_delimiter s
                  else Ret (None, s) in
        match r with
        | (Some token, s) => Ret (Some token, s)
        | (None, s) => some_token consume_heredoc_text s
        end
  end.

(** ** Whole sources *)

Definition saturating_add_u8 (n : N) : N := if (n <? 255)%N then (n + 1)%N else 255%N.

Definition remember_significant_token (kind : TokenKind.t) (s : Lexer) : Lexer :=
  match kind with
  | TokenKind.Named TokenName.Whitespace
  | TokenKind.Named TokenName.Comment
  | TokenKind.Named TokenName.DocComment => s
  | TokenKind.Named name =>
      let s := if lx_halt_compiler_seen s && negb (TokenName.eqb name TokenName.HaltCompiler)
               then set_halt_compiler_significant_tokens
                      (saturating_add_u8 (lx_halt_compiler_significant_tokens s)) s
               else s in
      set_last_significant_name (Some name) s
  | TokenKind.Symbol _ =>
      let s := if lx_halt_compiler_seen s
               then set_halt_compiler_significant_tokens
                      (saturating_add_u8 (lx_halt_compiler_significant_tokens s)) s
               else s in
      set_last_significant_name None s
  | TokenKind.Eof => s
  end.

Definition next_token : M (option Token) := fun s =>
  let s := if negb (lx_emitted_placeholder s) then set_emitted_placeholder true s else s in
  (let* token := match lx_mode s with
                 | LexerMode.InlineHtml => next_inline_html_token
                 | LexerMode.Scripting => next_scripting_token
                 | LexerMode.DoubleQuote => next_encapsed_token x22
                 | LexerMode.Backtick => next_encapsed_token x60
                 | LexerMode.Heredoc | LexerMode.Nowdoc => next_heredoc_token
                 | _ => next_scripting_token
                 end in
   match token with
   | Some token =>
       modify (remember_significant_token (token_kind token)) ;;; ret (Some token)
   | None => fun s =>
       if emit_eof (lx_config s) && negb (lx_emitted_eof s) then
         (modify (set_emitted_eof true) ;;;
          let* off := gets offset in
          ret (Some (mkToken TokenKind.Eof (TextRange_new off off) 1))) s
       else Ret (None, s)
   end) s.

(** The [while let] loop of [lex_all]; each token consumes at least one byte,
    so the length of the source and two more rounds (the end-of-file token
    and the final [None]) suffice. *)
Definition lex_all (source : bytes) (config : LexerConfig) : outcome LexResult :=
  let lexer := Lexer_new source config in
  olet r := loop (2 + lexer_fuel lexer) (fun acc : list Token =>
              let* token := next_token in
              ret (match token with
                   | Some token => inl (acc ++ [token])
                   | None => inr acc
                   end)) [] lexer in
  let '(tokens, lexer) := r in
  Ret (mkLexResult tokens (lx_diagnostics lexer)).
End Methods.
