(* ===== verification/LexerCursor.v ===== *)
(** * LexerCursor: the lexer's state invariant and the methods that move the cursor

    [lexer_ok] is the invariant of every state the lexer reaches.  Moving the
    cursor keeps the line number in step with it, and the loops that move it
    end within their fuel. *)

From Stdlib Require Import Strings.String Strings.Byte.
From stdpp Require Import base list option numbers.
From S2P Require Import Prelude RustStd Simd SimdProofs ByteKernel ByteKernelProofs Source.
From S2P Require Import Token LexStrings Lexer.

(** ** Line numbers *)

(** Byte [i] ends a line: a carriage return, or a line feed that does not
    follow a carriage return. *)
Definition is_break (src : bytes) (i : nat) : bool :=
  opt_is (src !! i) x0d ||
  (opt_is (src !! i) x0a && ((i =? 0) || negb (opt_is (src !! (i - 1)) x0d))).

Definition breaks_before (src : bytes) (n : nat) : nat :=
  length (List.filter (is_break src) (seq 0 n)).

(** The one-based line of offset [n]. *)
Definition line_at (src : bytes) (n : nat) : N := (1 + N.of_nat (breaks_before src n))%N.

Lemma breaks_before_S src n :
  breaks_before src (S n) = breaks_before src n + (if is_break src n then 1 else 0).
Proof.
  unfold breaks_before. rewrite seq_S, List.filter_app, length_app. cbn [List.filter plus].
  by destruct (is_break src n).
Qed.

Lemma breaks_before_le src n : breaks_before src n <= n.
Proof.
  unfold breaks_before. pose proof (List.filter_length_le (is_break src) (seq 0 n)) as H.
  by rewrite length_seq in H.
Qed.

Lemma breaks_before_skip src a n :
  (forall i, a <= i < n -> is_break src i = false) -> a <= n ->
  breaks_before src n = breaks_before src a.
Proof.
  intros Hno Hle. induction Hle as [|n Hle IH]; [done|].
  rewrite breaks_before_S, IH by (intros; apply Hno; lia). rewrite Hno by lia. lia.
Qed.

(** ** The cursor position as a state change *)

Definition with_pos (s : Lexer) (o : nat) : Lexer :=
  set_line (line_at (lx_source s) o) (set_cursor (Cursor.mk (lx_source s) o) s).

Lemma with_pos_twice s a c : with_pos (with_pos s a) c = with_pos s c.
Proof. done. Qed.

Lemma with_pos_offset s o : offset (with_pos s o) = o.
Proof. done. Qed.

Lemma with_pos_source s o : lx_source (with_pos s o) = lx_source s.
Proof. done. Qed.

(** The invariant of every state the lexer reaches: the cursor reads the
    lexer's source and is within it, the line is that of the cursor, a heredoc
    label, current or saved, is not empty, the mode is one of the six the lexer
    uses and agrees with the heredoc fields, and the diagnostics point into the
    source. *)
Definition span_within (r : TextRange) (n : nat) : Prop :=
  to_usize (start r) <= to_usize (end_ r) /\ to_usize (end_ r) <= n.

Definition label_ok (o : option bytes) : Prop := match o with Some l => l <> [] | None => True end.

(** In the heredoc and nowdoc modes there is a label to look for, and the flag
    tells the two apart; the modes [StringVarOffset] and [LookingForVarName]
    are never entered. *)
Definition mode_ok (mode : LexerMode.t) (label : option bytes) (nowdoc : bool) : Prop :=
  match mode with
  | LexerMode.InlineHtml | LexerMode.Scripting | LexerMode.DoubleQuote | LexerMode.Backtick => True
  | LexerMode.Heredoc => label <> None /\ nowdoc = false
  | LexerMode.Nowdoc => label <> None /\ nowdoc = true
  | _ => False
  end.

Definition snapshot_ok (n : nat) (snap : EncapsedSnapshot) : Prop :=
  label_ok (snap_heredoc_label snap) /\ snap_mode_start snap <= n /\
  mode_ok (snap_mode snap) (snap_heredoc_label snap) (snap_heredoc_nowdoc snap).

Record lexer_ok (s : Lexer) : Prop := {
  ok_cursor : Cursor.source (lx_cursor s) = lx_source s;
  ok_offset : offset s <= length (lx_source s);
  ok_line : lx_line s = line_at (lx_source s) (offset s);
  ok_label : label_ok (lx_heredoc_label s);
  ok_mode : mode_ok (lx_mode s) (lx_heredoc_label s) (lx_heredoc_nowdoc s);
  ok_stack : Forall (snapshot_ok (length (lx_source s))) (lx_encapsed_stack s);
  ok_mode_start : lx_mode_start s <= length (lx_source s);
  ok_diagnostics : Forall (fun d => span_within (diag_span d) (length (lx_source s)))
                     (lx_diagnostics s);
  ok_size : (N.of_nat (length (lx_source s)) + 1 < 2 ^ 32)%N;
}.

Lemma with_pos_id s : lexer_ok s -> with_pos s (offset s) = s.
Proof.
  intros Hok. unfold with_pos. pose proof (ok_cursor s Hok) as Hc. pose proof (ok_line s Hok) as Hl.
  rewrite <- Hl, <- Hc.
  destruct s as [? [? ?]]. done.
Qed.

Lemma with_pos_ok s o : lexer_ok s -> o <= length (lx_source s) -> lexer_ok (with_pos s o).
Proof. intros [] Ho. split; done. Qed.

(** ** Reading at the cursor *)

Section Reading.
Context (s : Lexer) (Hok : lexer_ok s).

Lemma peek_lookup : peek s = lx_source s !! offset s.
Proof. unfold peek, Cursor.peek. by rewrite (ok_cursor s Hok). Qed.

Lemma peek_n_lookup n : peek_n s n = lx_source s !! (offset s + n).
Proof. unfold peek_n, Cursor.peek_n. by rewrite (ok_cursor s Hok). Qed.

Lemma is_eof_spec : is_eof s = (length (lx_source s) <=? offset s).
Proof. unfold is_eof, Cursor.is_eof. by rewrite (ok_cursor s Hok). Qed.

Lemma at_cursor_spec needle :
  at_cursor s needle = Ret (starts_with (drop (offset s) (lx_source s)) needle).
Proof.
  unfold at_cursor, Cursor.starts_with. rewrite (ok_cursor s Hok).
  change (Cursor.offset (lx_cursor s)) with (offset s).
  by rewrite slice_from_ok by apply (ok_offset s Hok).
Qed.

Lemma peek_some_lt p : is_some_and (peek s) p = true -> offset s < length (lx_source s).
Proof.
  rewrite peek_lookup. destruct (lx_source s !! offset s) eqn:E; [|done].
  intros _. by eapply lookup_lt_Some.
Qed.

Lemma not_eof_lt : is_eof s = false -> offset s < length (lx_source s).
Proof. rewrite is_eof_spec. by intros ?%Nat.leb_gt. Qed.

Lemma opt_is_lt x : opt_is (peek s) x = true -> offset s < length (lx_source s).
Proof.
  rewrite peek_lookup. intros H%opt_is_Some. by eapply lookup_lt_Some.
Qed.

Lemma prefix_le needle :
  starts_with (drop (offset s) (lx_source s)) needle = true ->
  offset s + length needle <= length (lx_source s).
Proof.
  intros H%starts_with_length. rewrite length_drop in H.
  pose proof (ok_offset s Hok). lia.
Qed.
End Reading.

(** ** Specifications *)

(** Expose the body of a method written with its state. *)
Ltac wp_state := unfold wp; cbv beta; cbn [obind].
(** Go back to the rules for methods. *)
Ltac wp_run := apply owp_run.

Lemma wp_det {S A} (m : SM S A) s a s' (Q : A -> S -> Prop) :
  m s = Ret (a, s') -> Q a s' -> wp m s Q.
Proof. intros E HQ. exists a, s'. done. Qed.

Lemma wp_eq {S A} (m : SM S A) s a s' :
  wp m s (fun a1 s1 => a1 = a /\ s1 = s') -> m s = Ret (a, s').
Proof. by intros (? & ? & -> & -> & ->). Qed.

Lemma line_break_not_newline src i x :
  src !! i = Some x -> (x =b x0d) || (x =b x0a) = false -> is_break src i = false.
Proof.
  intros Hx [H1 H2]%orb_false_iff. unfold is_break. rewrite Hx. cbn. by rewrite H1, H2.
Qed.

Section LexerCursor.
Context {mc : Memchr} {laws : MemchrLaws mc} (bk : backend).

(** *** Moving the cursor *)

Lemma increment_line_spec s :
  (lx_line s + 1 < 2 ^ 32)%N -> increment_line s = Ret (tt, set_line (lx_line s + 1) s).
Proof. intros H. unfold increment_line. by rewrite (proj2 (N.ltb_lt _ _) H). Qed.

Lemma line_at_skip src a n :
  a <= n -> (forall i, a <= i < n -> is_break src i = false) -> line_at src n = line_at src a.
Proof. intros. unfold line_at. by rewrite (breaks_before_skip src a n). Qed.

Lemma line_at_S src n :
  line_at src (n + 1) = (line_at src n + if is_break src n then 1 else 0)%N.
Proof.
  unfold line_at. rewrite Nat.add_1_r, breaks_before_S. destruct (is_break src n); lia.
Qed.

Lemma slice_ok {A} (l : list A) i j : i <= j -> j <= length l -> slice l i j = Ret (drop i (take j l)).
Proof.
  intros. unfold slice. rewrite !(proj2 (Nat.leb_le _ _)) by done. done.
Qed.

(** The line does not change over bytes that are no line breaks. *)
Lemma line_at_no_newline src i n :
  i <= n -> n <= length src ->
  (forall k x, i <= k < n -> src !! k = Some x -> (x =b x0d) || (x =b x0a) = false) ->
  line_at src n = line_at src i.
Proof.
  intros Hin Hn Hno. apply line_at_skip; [done|]. intros k Hk.
  destruct (lookup_lt_is_Some_2 src k) as [x Hx]; [lia|].
  apply (line_break_not_newline _ _ x Hx). by apply (Hno k).
Qed.

Lemma lookup_range (src : bytes) i e k : i <= k < e -> drop i (take e src) !! (k - i) = src !! k.
Proof.
  intros Hk. rewrite lookup_drop, lookup_take_lt by lia. by replace (i + (k - i)) with k by lia.
Qed.

(** At the byte that the search found, the line number is brought up to date. *)
Lemma line_break_step s j x :
  let src := lx_source s in
  src !! j = Some x -> (x =b x0d) || (x =b x0a) = true -> (line_at src j + 1 < 2 ^ 32)%N ->
  wp (if x =b x0d then increment_line ;;; ret (inl (j + 1))
      else if x =b x0a then
        let* fresh := if j =? 0 then ret true
                      else let* y := lift (index src (j - 1)) in ret (negb (y =b x0d)) in
        if fresh then increment_line ;;; ret (inl (j + 1)) else ret (inl (j + 1))
      else ret (@inl nat unit (j + 1))) (set_line (line_at src j) s)
    (fun r s' => r = inl (j + 1) /\ s' = set_line (line_at src (j + 1)) s).
Proof.
  intros src Hx Hnl Hbound. pose proof (line_at_S src j) as HS.
  assert (Hinc : is_break src j = true ->
    wp (increment_line ;;; ret (@inl nat unit (j + 1))) (set_line (line_at src j) s)
      (fun r s' => r = inl (j + 1) /\ s' = set_line (line_at src (j + 1)) s)).
  { intros Hb. apply wp_bind. eapply wp_det; [by apply increment_line_spec|].
    apply wp_ret. by rewrite HS, Hb. }
  assert (Hbr : is_break src j =
    (x =b x0d) || ((x =b x0a) && ((j =? 0) || negb (opt_is (src !! (j - 1)) x0d)))).
  { unfold is_break. by rewrite Hx. }
  destruct (x =b x0d); [by apply Hinc|]. cbn [orb] in Hnl, Hbr. rewrite Hnl in *. apply wp_bind.
  apply (wp_conseq _ _ (fun fresh s' => fresh = is_break src j /\ s' = set_line (line_at src j) s)).
  { destruct (Nat.eqb_spec j 0) as [H0|H0]; [apply wp_ret; by rewrite Hbr|].
    destruct (lookup_lt_is_Some_2 src (j - 1)) as [y Hy].
    { apply lookup_lt_Some in Hx. lia. }
    apply wp_bind. eapply wp_lift; [unfold index; by rewrite Hy|].
    apply wp_ret. by rewrite Hbr, Hy. }
  intros fresh s' [-> ->]. destruct (is_break src j) eqn:Hb; [by apply Hinc|].
  apply wp_ret. by rewrite HS, N.add_0_r.
Qed.

Lemma advance_line_spec s start e :
  (N.of_nat (length (lx_source s)) + 1 < 2 ^ 32)%N ->
  start <= e -> e <= length (lx_source s) -> lx_line s = line_at (lx_source s) start ->
  advance_line_for_range start e s = Ret (tt, set_line (line_at (lx_source s) e) s).
Proof.
  intros Hsize Hse He Hline. apply wp_eq. unfold advance_line_for_range.
  set (src := lx_source s) in *.
  eapply (wp_loop (fun i s' => start <= i <= e /\ s' = set_line (line_at src i) s) (fun i _ => e - i)).
  - intros i s' [Hi ->]. destruct (Nat.ltb_spec i e) as [Hlt|Hge]; cycle 1.
    { apply wp_ret. by replace i with e by lia. }
    apply wp_bind, wp_gets, wp_bind. change (lx_source (set_line _ s)) with src.
    eapply wp_lift; [apply slice_ok; lia|]. rewrite find_any2_position.
    destruct (position _ (drop i (take e src))) as [rel|] eqn:Hp.
    + pose proof (position_lt _ _ _ Hp) as Hrel. rewrite length_drop, length_take in Hrel.
      apply position_Some in Hp as [(x & Hx & Hpx) Hno].
      replace rel with (i + rel - i) in Hx by lia. rewrite lookup_range in Hx by lia.
      assert (Hskip : line_at src (i + rel) = line_at src i).
      { apply line_at_no_newline; [lia | lia |]. intros k y Hk Hy. apply (Hno (k - i)); [lia|].
        by rewrite lookup_range by lia. }
      apply wp_bind. eapply wp_lift; [unfold index; by rewrite Hx|]. rewrite <- Hskip.
      eapply wp_conseq; [apply line_break_step; [done | done |]|].
      { unfold line_at. pose proof (breaks_before_le src (i + rel)). unfold src in *. lia. }
      intros r s1 [-> ->]. split; [split; [lia | done] | lia].
    + apply wp_ret. split; [done|]. f_equal. symmetry. apply line_at_no_newline; [lia | done |].
      intros k x Hk Hx. apply position_None in Hp. unfold none_is in Hp.
      rewrite Forall_lookup in Hp. apply (Hp (k - i)). by rewrite lookup_range by lia.
  - split; [lia|]. rewrite <- Hline. by destruct s.
  - unfold lexer_fuel. fold src. lia.
Qed.

Lemma consume_len_spec s n :
  lexer_ok s -> consume_len n s = Ret (tt, with_pos s ((offset s + n) `min` length (lx_source s))).
Proof.
  intros Hok. pose proof (ok_offset s Hok) as Ho. pose proof (ok_cursor s Hok) as Hc.
  unfold consume_len, Cursor.len. rewrite Hc.
  set (e := (offset s + n) `min` length (lx_source s)).
  unfold bind at 1. rewrite advance_line_spec; [|by apply (ok_size s Hok)|lia|lia|by apply (ok_line s Hok)].
  cbn [obind]. unfold bind, lift. rewrite usize_sub_ok by lia. cbn [obind].
  destruct (Nat.eqb_spec (e - offset s) 1) as [H1|H1]; unfold modify; f_equal; f_equal;
    unfold with_pos, Cursor.bump, Cursor.peek, Cursor.advance_by.
  - cbn [lx_cursor set_line]. rewrite Hc. change (Cursor.offset (lx_cursor s)) with (offset s).
    destruct (lookup_lt_is_Some_2 (lx_source s) (offset s)) as [x ->]; [lia|]. cbn [snd].
    replace (offset s + 1) with e by lia. by destruct s.
  - cbn [lx_cursor set_line]. rewrite Hc. change (Cursor.offset (lx_cursor s)) with (offset s).
    replace ((offset s + (e - offset s)) `min` length (lx_source s)) with e by lia. by destruct s.
Qed.

Lemma wp_consume_len s n (Q : unit -> Lexer -> Prop) :
  lexer_ok s -> Q tt (with_pos s ((offset s + n) `min` length (lx_source s))) ->
  wp (consume_len n) s Q.
Proof. intros Hok HQ. eapply wp_det; [by apply consume_len_spec | done]. Qed.

(** *** Methods that only move the cursor *)

(** [s'] is [s] with the cursor moved forward within the source. *)
Definition moved (s s' : Lexer) : Prop :=
  exists o, offset s <= o <= length (lx_source s) /\ s' = with_pos s o.

Lemma moved_refl s : lexer_ok s -> moved s s.
Proof.
  intros Hok. exists (offset s). pose proof (ok_offset s Hok).
  split; [lia|]. by rewrite with_pos_id.
Qed.

Lemma moved_trans s1 s2 s3 : moved s1 s2 -> moved s2 s3 -> moved s1 s3.
Proof.
  intros (o2 & H2 & ->) (o3 & H3 & ->). exists o3.
  rewrite with_pos_offset, with_pos_source in H3. split; [lia | done].
Qed.

Lemma moved_ok s s' : lexer_ok s -> moved s s' -> lexer_ok s'.
Proof. intros Hok (o & Ho & ->). apply with_pos_ok; [done | lia]. Qed.

Lemma moved_offset s s' : moved s s' -> offset s <= offset s'.
Proof. intros (o & Ho & ->). rewrite with_pos_offset. lia. Qed.

Lemma moved_same s s' : lexer_ok s -> moved s s' -> offset s' = offset s -> s' = s.
Proof.
  intros Hok (o & _ & ->). rewrite with_pos_offset. intros ->. by apply with_pos_id.
Qed.

Lemma moved_source s s' : moved s s' -> lx_source s' = lx_source s.
Proof. by intros (o & Ho & ->). Qed.

Lemma moved_with_pos s o : offset s <= o <= length (lx_source s) -> moved s (with_pos s o).
Proof. intros. by exists o. Qed.

(** A loop whose body moves the cursor strictly forward before it goes on. *)
Lemma wp_moving_loop {A R} (body : A -> M (A + R)) (I : A -> Lexer -> Prop)
    (Q : R -> Lexer -> Prop) s a n :
  lexer_ok s -> n = lexer_fuel s -> I a s ->
  (forall a s1, lexer_ok s1 -> moved s s1 -> I a s1 ->
     wp (body a) s1 (fun r s2 => match r with
                                 | inl a' => moved s1 s2 /\ offset s1 < offset s2 /\ I a' s2
                                 | inr v => Q v s2
                                 end)) ->
  wp (loop n body a) s Q.
Proof.
  intros Hok -> HI Hbody.
  apply (wp_loop (fun a s1 => moved s s1 /\ I a s1) (fun _ s1 => length (lx_source s) - offset s1)).
  - intros a1 s1 [Hm HI1]. pose proof (moved_ok _ _ Hok Hm) as Hok1.
    eapply wp_conseq; [by apply Hbody|]. intros [a2|v] s2; [|done].
    intros (Hm2 & Hlt & HI2). split; [split; [by eapply moved_trans | done]|].
    destruct Hm2 as (o & Ho & ->). rewrite with_pos_offset in *.
    rewrite (moved_source _ _ Hm) in Ho. lia.
  - split; [by apply moved_refl | done].
  - unfold lexer_fuel. lia.
Qed.

Lemma wp_moves_consume s n :
  lexer_ok s ->
  wp (consume_len n) s (fun _ s' => moved s s' /\
    offset s' = (offset s + n) `min` length (lx_source s)).
Proof.
  intros Hok. apply wp_consume_len; [done|]. pose proof (ok_offset s Hok).
  split; [apply moved_with_pos; lia | done].
Qed.

(** [while peek().is_some_and(p) { consume_len(1) }] stops at the first byte
    that fails [p]. *)
Lemma wp_while_peek s p :
  lexer_ok s ->
  while (fun s => Ret (is_some_and (peek s) p)) (consume_len 1) s =
  Ret (tt, with_pos s (skip_while p (lx_source s) (offset s))).
Proof.
  intros Hok. apply wp_eq. unfold while.
  apply (wp_moving_loop _ (fun _ s1 => skip_while p (lx_source s) (offset s1) =
                                       skip_while p (lx_source s) (offset s))); try done.
  intros _ s1 Hok1 Hm HI. wp_state.
  pose proof (moved_source _ _ Hm) as Hsrc. rewrite (peek_lookup s1 Hok1), Hsrc.
  destruct (lx_source s !! offset s1) as [x|] eqn:Hx; cbn [is_some_and].
  - pose proof (lookup_lt_Some _ _ _ Hx) as Hlt. destruct (p x) eqn:Hp; wp_run.
    + apply wp_bind. eapply wp_conseq; [by apply wp_moves_consume|].
      intros _ s2 [Hm2 Ho]. apply wp_ret. rewrite Hsrc in Ho. split; [done|]. split; [lia|].
      rewrite <- HI, Ho. unfold skip_while. rewrite (drop_S _ _ _ Hx). cbn [run_len].
      rewrite Hp. replace ((offset s1 + 1) `min` length (lx_source s)) with (S (offset s1)) by lia. lia.
    + apply wp_ret. split; [done|]. rewrite <- HI. destruct Hm as (o & Ho & ->).
      rewrite with_pos_offset in *. f_equal. unfold skip_while. rewrite (drop_S _ _ _ Hx).
      cbn [run_len]. rewrite Hp. lia.
  - wp_run. apply wp_ret. split; [done|]. rewrite <- HI. destruct Hm as (o & Ho & ->).
    rewrite with_pos_offset in *. f_equal. unfold skip_while.
    apply lookup_ge_None in Hx. rewrite drop_ge by lia. cbn. lia.
Qed.

Lemma run_len_split p q (l : bytes) :
  (forall x, p x = true -> q x = true) ->
  run_len q l = run_len p l + run_len q (drop (run_len p l) l).
Proof.
  intros Hpq. induction l as [|x l IH]; cbn [run_len]; [done|].
  destruct (p x) eqn:Hp; [|done]. rewrite (Hpq x Hp). cbn [drop]. rewrite IH at 1. lia.
Qed.

Lemma skip_while_split p q (l : bytes) off :
  (forall x, p x = true -> q x = true) ->
  skip_while q l (off + run_len p (drop off l)) = skip_while q l off.
Proof.
  intros Hpq. unfold skip_while.
  rewrite (run_len_split p q (drop off l) Hpq), drop_drop. lia.
Qed.

Lemma skip_while_step q (l : bytes) off x :
  l !! off = Some x -> q x = true -> skip_while q l (off + 1) = skip_while q l off.
Proof.
  intros Hx Hq. unfold skip_while. rewrite (drop_S _ _ _ Hx), Nat.add_1_r. cbn [run_len].
  rewrite Hq. lia.
Qed.

Lemma skip_while_stop q (l : bytes) off :
  match l !! off with Some x => q x = false | None => True end -> off <= length l ->
  skip_while q l off = off.
Proof.
  intros H Hoff. unfold skip_while. destruct (l !! off) as [x|] eqn:Hx.
  - rewrite (drop_S _ _ _ Hx). cbn [run_len]. rewrite H. lia.
  - apply lookup_ge_None in Hx. rewrite drop_ge by lia. cbn. lia.
Qed.

Lemma skip_while_bounds q (l : bytes) off :
  off <= length l -> off <= skip_while q l off <= length l.
Proof.
  intros H. unfold skip_while. pose proof (run_len_le q (drop off l)) as Hr.
  rewrite length_drop in Hr. lia.
Qed.

Lemma identifier_continue_split x :
  is_identifier_continue x = is_ascii_identifier_continue x || (128 <=? u8 x)%N.
Proof. revert x. by_bytes. Qed.

Lemma ascii_continue_is_continue x :
  is_ascii_identifier_continue x = true -> is_identifier_continue x = true.
Proof. rewrite identifier_continue_split. by intros ->. Qed.

Lemma identifier_loop s n :
  lexer_ok s -> n = lexer_fuel s ->
  wp (loop n (fun _ : unit => fun s =>
     match peek s with
     | None => ret (inr tt) s
     | Some x =>
         olet rest := slice_from (lx_source s) (offset s) in
         olet ascii_len := Arch.ascii_identifier_continue_chunk_len bk rest in
         if 0 <? ascii_len then (consume_len ascii_len ;;; ret (inl tt)) s
         else if (128 <=? u8 x)%N then (consume_len 1 ;;; ret (inl tt)) s
         else ret (inr tt) s
     end) tt) s
    (fun a s' => a = tt /\ s' = with_pos s (skip_while is_identifier_continue (lx_source s) (offset s))).
Proof.
  intros Hok Hn. set (src := lx_source s). set (q := is_identifier_continue).
  apply (wp_moving_loop _ (fun _ s1 => skip_while q src (offset s1) = skip_while q src (offset s)));
    try done.
  intros _ s1 Hok1 Hm HI. wp_state. pose proof (moved_source _ _ Hm) as Hsrc.
  rewrite (peek_lookup s1 Hok1), Hsrc. fold src.
  assert (Hdone : match src !! offset s1 with Some x => q x = false | None => True end ->
    tt = tt /\ s1 = with_pos s (skip_while q src (offset s))).
  { intros Hst. split; [done|]. rewrite <- HI, skip_while_stop; [| done |].
    - destruct Hm as (o & Ho & ->). done.
    - pose proof (ok_offset s1 Hok1). unfold src. rewrite <- Hsrc. done. }
  destruct (src !! offset s1) as [x|] eqn:Hx; [|wp_run; by apply wp_ret, Hdone].
  pose proof (lookup_lt_Some _ _ _ Hx) as Hlt.
  rewrite slice_from_ok by lia. cbn [obind]. rewrite arch_chunk_len. cbn [obind].
  destruct (Nat.ltb_spec 0 (run_len is_ascii_identifier_continue (drop (offset s1) src))) as [Hr|Hr].
  - wp_run. apply wp_bind. eapply wp_conseq; [by apply wp_moves_consume|].
    intros _ s2 [Hm2 Ho]. apply wp_ret. rewrite Hsrc in Ho. fold src in Ho.
    pose proof (run_len_le is_ascii_identifier_continue (drop (offset s1) src)) as Hle.
    rewrite length_drop in Hle. split; [done|]. split; [lia|]. rewrite <- HI, Ho.
    rewrite Nat.min_l by lia. apply skip_while_split, ascii_continue_is_continue.
  - assert (Hna : is_ascii_identifier_continue x = false).
    { rewrite (drop_S _ _ _ Hx) in Hr. cbn [run_len] in Hr.
      destruct (is_ascii_identifier_continue x); [lia | done]. }
    assert (Hq : q x = (128 <=? u8 x)%N).
    { unfold q. by rewrite identifier_continue_split, Hna. }
    destruct (128 <=? u8 x)%N; wp_run; [|by apply wp_ret, Hdone].
    apply wp_bind. eapply wp_conseq; [by apply wp_moves_consume|].
    intros _ s2 [Hm2 Ho]. apply wp_ret. rewrite Hsrc in Ho. fold src in Ho.
    split; [done|]. split; [lia|]. rewrite <- HI, Ho, Nat.min_l by lia.
    by apply (skip_while_step _ _ _ x).
Qed.

Lemma identifier_start_continue x : is_identifier_start x = true -> is_identifier_continue x = true.
Proof. unfold is_identifier_continue. by intros ->. Qed.

(** The cursor ends after the longest run of identifier bytes. *)
Lemma consume_identifier_bytes_spec s :
  lexer_ok s ->
  consume_identifier_bytes bk s =
  Ret (tt, with_pos s (skip_while is_identifier_continue (lx_source s) (offset s))).
Proof.
  intros Hok. apply wp_eq. unfold consume_identifier_bytes, wp.
  wp_run. apply wp_bind. rewrite (peek_lookup s Hok).
  destruct (lx_source s !! offset s) as [x|] eqn:Hx; cbn [is_some_and].
  - destruct (is_identifier_start x) eqn:Hst; [|apply wp_ret; by apply identifier_loop].
    eapply wp_det; [by apply consume_len_spec|].
    pose proof (lookup_lt_Some _ _ _ Hx) as Hlt. rewrite Nat.min_l by lia.
    eapply wp_conseq; [apply identifier_loop; [apply with_pos_ok; [done | lia] | done]|].
    intros a s' [-> ->]. split; [done|].
    rewrite with_pos_source, with_pos_offset, with_pos_twice.
    by rewrite (skip_while_step _ _ _ x Hx (identifier_start_continue x Hst)).
  - apply wp_ret. by apply identifier_loop.
Qed.

Lemma wp_identifier_bytes s (Q : unit -> Lexer -> Prop) :
  lexer_ok s ->
  (forall s', moved s s' ->
     (is_some_and (peek s) is_identifier_continue = true -> offset s < offset s') -> Q tt s') ->
  wp (consume_identifier_bytes bk) s Q.
Proof.
  intros Hok HQ. eapply wp_det; [by apply consume_identifier_bytes_spec|].
  pose proof (ok_offset s Hok) as Ho.
  pose proof (skip_while_bounds is_identifier_continue (lx_source s) (offset s) Ho) as Hb.
  apply HQ; [by apply moved_with_pos|]. rewrite with_pos_offset, (peek_lookup s Hok).
  destruct (lx_source s !! offset s) as [x|] eqn:Hx; [|done]. cbn [is_some_and]. intros Hc.
  pose proof (skip_while_bounds is_identifier_continue (lx_source s) (offset s + 1)) as Hb'.
  rewrite (skip_while_step _ _ _ x Hx Hc) in Hb'. apply lookup_lt_Some in Hx. lia.
Qed.

(** Move by [n >= 1] bytes when there is at least one left. *)
Lemma wp_consume_forward s n (Q : unit -> Lexer -> Prop) :
  lexer_ok s -> 1 <= n -> offset s < length (lx_source s) ->
  (forall s', moved s s' -> offset s < offset s' -> lexer_ok s' ->
     offset s' = (offset s + n) `min` length (lx_source s) -> Q tt s') ->
  wp (consume_len n) s Q.
Proof.
  intros Hok Hn Hlt HQ. eapply wp_conseq; [by apply wp_moves_consume|].
  intros [] s' [Hm Ho]. apply HQ; [done | lia | by eapply moved_ok | done].
Qed.

Lemma wp_digit_sequence s p (Q : unit -> Lexer -> Prop) :
  lexer_ok s ->
  (forall s', moved s s' -> (is_some_and (peek s) p = true -> offset s < offset s') -> Q tt s') ->
  wp (consume_digit_sequence p) s Q.
Proof.
  intros Hok HQ. unfold consume_digit_sequence, wp. wp_run.
  assert (Hloop : forall s1, lexer_ok s1 -> lexer_fuel s = lexer_fuel s1 ->
    wp (loop (lexer_fuel s) (fun _ : unit => fun s =>
          match peek s with
          | None => ret (inr tt) s
          | Some x =>
              if p x then (consume_len 1 ;;; ret (inl tt)) s
              else if (x =b x5f) && is_some_and (peek_n s 1) p
              then (consume_len 2 ;;; ret (inl tt)) s
              else ret (inr tt) s
          end) tt) s1 (fun a s' => a = tt /\ moved s1 s')).
  { intros s1 Hok1 Hfuel. apply (wp_moving_loop _ (fun _ _ => True)); [done|done|done|].
    intros _ s2 Hok2 Hm _. wp_state. destruct (peek s2) as [x|] eqn:Hx; [|wp_run; by apply wp_ret].
    rewrite (peek_lookup s2 Hok2) in Hx. pose proof (lookup_lt_Some _ _ _ Hx) as Hlt.
    destruct (p x); [|destruct ((x =b x5f) && _); [|wp_run; by apply wp_ret]]; wp_run;
      apply wp_bind, wp_consume_forward; try done; try lia; intros; by apply wp_ret. }
  apply wp_bind. destruct (is_some_and (peek s) p) eqn:Hp.
  - apply wp_consume_forward; [done|lia|by apply (peek_some_lt s Hok p)|].
    intros s1 Hm Hlt Hok1 _. eapply wp_conseq; [apply Hloop; [done|]|].
    { unfold lexer_fuel. by rewrite (moved_source _ _ Hm). }
    intros [] s2 [_ Hm2]. apply HQ; [by eapply moved_trans|]. apply moved_offset in Hm2. lia.
  - apply wp_ret. eapply wp_conseq; [by apply Hloop|]. intros [] s2 [_ Hm2]. by apply HQ.
Qed.

Lemma wp_exponent s (Q : bool -> Lexer -> Prop) :
  lexer_ok s -> (forall c s', moved s s' -> Q c s') -> wp consume_exponent_if_present s Q.
Proof.
  intros Hok HQ. unfold consume_exponent_if_present, wp.
  destruct (negb (opt_in (peek s) _)) eqn:He; [by apply owp_Ret, HQ, moved_refl|].
  cbv zeta. set (d := if opt_in (peek_n s 1) _ then 2 else 1).
  destruct (negb (is_some_and (peek_n s d) _)); [by apply owp_Ret, HQ, moved_refl|].
  apply negb_false_iff in He. wp_run.
  apply wp_bind, wp_consume_forward; [done|unfold d; case_match; lia|by eapply peek_some_lt|].
  intros s1 Hm _ Hok1 _. apply wp_bind, wp_digit_sequence; [done|].
  intros s2 Hm2 _. apply wp_ret, HQ. by eapply moved_trans.
Qed.
End LexerCursor.
