(* ===== verification/LexerSteps.v ===== *)
(** * LexerSteps: every lexer method returns and covers the bytes it moves over

    For each method of [crates/php_lexer/src/lexer.rs] that produces a token: it
    neither panics nor runs for ever, the token it produces spans exactly the
    bytes the cursor moved over (at least one), it carries the line the cursor
    was on, and the state invariant is kept. *)

From Stdlib Require Import Strings.String Strings.Byte.
From stdpp Require Import base list option numbers.
From S2P Require Import Prelude RustStd Simd SimdProofs ByteKernel ByteKernelProofs Source.
From S2P Require Import Token LexStrings Lexer LexerCursor.

(** ** The contract of a method *)

(** What no method but [next_token] changes. *)
Definition framed (s s' : Lexer) : Prop :=
  lx_source s' = lx_source s /\ lx_config s' = lx_config s /\ lx_emitted_eof s' = lx_emitted_eof s.

(** A change of modes and flags at the same place. *)
Definition here (s s' : Lexer) : Prop :=
  lexer_ok s' /\ framed s s' /\ offset s' = offset s /\ lx_line s' = lx_line s.

(** The token [t] was read between the states [s] and [s']. *)
Record step (s : Lexer) (t : Token) (s' : Lexer) : Prop := {
  step_ok : lexer_ok s';
  step_framed : framed s s';
  step_forward : offset s < offset s';
  step_range : token_range t = TextRange_new (offset s) (offset s');
  step_line : token_line t = lx_line s;
  step_not_eof : token_kind t <> TokenKind.Eof;
}.

(** A method that may decline leaves the state as it was. *)
Definition maybe_step (s : Lexer) (r : option Token) (s' : Lexer) : Prop :=
  match r with Some t => step s t s' | None => s' = s end.

(** A scanner of a mode declines only at the end of the input. *)
Definition scan_step (s : Lexer) (r : option Token) (s' : Lexer) : Prop :=
  match r with
  | Some t => step s t s'
  | None => here s s' /\ offset s = length (lx_source s)
  end.

Lemma framed_refl s : framed s s.
Proof. done. Qed.

Lemma framed_trans s1 s2 s3 : framed s1 s2 -> framed s2 s3 -> framed s1 s3.
Proof. intros (? & ? & ?) (? & ? & ?). repeat split; congruence. Qed.

Lemma moved_framed s s' : moved s s' -> framed s s'.
Proof. by intros (o & _ & ->). Qed.

Lemma here_refl s : lexer_ok s -> here s s.
Proof. done. Qed.

Lemma here_ok s s' : here s s' -> lexer_ok s'.
Proof. by intros []. Qed.

(** Flags may change before and after the token is read. *)
Lemma step_before s s1 t s' : here s s1 -> step s1 t s' -> step s t s'.
Proof.
  intros (_ & Hf & Ho & Hl) []. rewrite Ho in *. rewrite Hl in *.
  split; try done. by eapply framed_trans.
Qed.

Lemma step_after s t s1 s' : step s t s1 -> here s1 s' -> step s t s'.
Proof.
  intros [] (Hok & Hf & Ho & Hl). rewrite <- Ho in *. split; try done. by eapply framed_trans.
Qed.

Lemma step_moved s s' kind :
  lexer_ok s -> moved s s' -> offset s < offset s' -> kind <> TokenKind.Eof ->
  step s (mkToken kind (TextRange_new (offset s) (offset s')) (lx_line s)) s'.
Proof.
  intros Hok Hm Hlt Hk. split; try done; [by eapply moved_ok | by apply moved_framed].
Qed.

(** [here s (f s)] for an update of flags. *)
Ltac solve_here :=
  match goal with
  | Hok : lexer_ok ?s |- here ?s _ =>
      split; [destruct Hok; split; cbn in *; try done; naive_solver | done]
  end.

Create HintDb lexer.
#[export] Hint Resolve here_refl moved_refl : lexer.

Section Steps.
Context {mc : Memchr} {laws : MemchrLaws mc} (bk : backend).

Lemma wp_token_from s s0 kind :
  lexer_ok s0 -> moved s0 s -> offset s0 < offset s -> kind <> TokenKind.Eof ->
  wp (token_from kind (offset s0) (lx_line s0)) s (step s0).
Proof. intros. apply owp_Ret. by apply step_moved. Qed.

Lemma wp_token_from_here s s1 s0 kind :
  lexer_ok s0 -> moved s0 s1 -> offset s0 < offset s1 -> kind <> TokenKind.Eof -> here s1 s ->
  wp (token_from kind (offset s0) (lx_line s0)) s (step s0).
Proof.
  intros Hok Hm Hlt Hk Hh. apply owp_Ret. eapply step_after; [|done].
  destruct Hh as (_ & _ & -> & _). by apply step_moved.
Qed.

Lemma wp_some_token (m : M Token) s s0 :
  wp m s (step s0) ->
  wp (some_token m) s (fun r s' => exists t, r = Some t /\ step s0 t s').
Proof.
  intros H. apply wp_bind. eapply wp_conseq; [apply H|]. intros t s' Ht. apply wp_ret. eauto.
Qed.

Lemma wp_some_maybe (m : M Token) s s0 :
  wp m s (step s0) -> wp (some_token m) s (maybe_step s0).
Proof.
  intros H. eapply wp_conseq; [by apply wp_some_token|]. by intros r s' (t & -> & Ht).
Qed.

Lemma wp_some_scan (m : M Token) s s0 :
  wp m s (step s0) -> wp (some_token m) s (scan_step s0).
Proof.
  intros H. eapply wp_conseq; [by apply wp_some_token|]. by intros r s' (t & -> & Ht).
Qed.

(** The token may start in an earlier state that only differs in its flags. *)
Lemma wp_step_before (m : M Token) s0 s : here s0 s -> wp m s (step s) -> wp m s (step s0).
Proof.
  intros Hh H. eapply wp_conseq; [apply H|]. intros t s'. by apply step_before.
Qed.

Lemma wp_fixed_token s kind n :
  lexer_ok s -> 1 <= n -> offset s < length (lx_source s) -> kind <> TokenKind.Eof ->
  wp (consume_fixed_token kind n) s (step s).
Proof.
  intros Hok Hn Hlt Hk. unfold consume_fixed_token. wp_state. wp_run.
  apply wp_bind, wp_consume_forward; try done.
  intros s1 Hm Ho _ _. by apply wp_token_from.
Qed.

(** A [while] loop that moves the cursor ends where its condition fails, and
    moves if the condition holds at first. *)
Lemma wp_while s cond body (Q : unit -> Lexer -> Prop) :
  lexer_ok s ->
  (forall s1, lexer_ok s1 -> moved s s1 ->
     exists c, cond s1 = Ret c /\
       (c = true -> wp body s1 (fun _ s2 => moved s1 s2 /\ offset s1 < offset s2))) ->
  (forall s', moved s s' -> cond s' = Ret false ->
     (cond s = Ret true -> offset s < offset s') -> Q tt s') ->
  wp (while cond body) s Q.
Proof.
  intros Hok Hbody HQ. unfold while.
  apply (wp_moving_loop _ (fun _ s1 => moved s s1)); auto with lexer.
  intros _ s1 Hok1 Hm _. wp_state. destruct (Hbody s1 Hok1 Hm) as (c & Hc & Hrun).
  rewrite Hc. cbn [obind]. destruct c; wp_run.
  - apply wp_bind. eapply wp_conseq; [by apply Hrun|]. intros _ s2 [Hm2 Hlt]. apply wp_ret.
    split; [done|]. split; [done|]. by eapply moved_trans.
  - apply wp_ret, HQ; [done | done |]. intros Htrue.
    destruct (decide (offset s1 = offset s)) as [He|He].
    + rewrite (moved_same s s1 Hok Hm He) in Hc. congruence.
    + apply moved_offset in Hm. lia.
Qed.

Lemma wp_consume_one s :
  lexer_ok s -> offset s < length (lx_source s) ->
  wp (consume_len 1) s (fun _ s2 => moved s s2 /\ offset s < offset s2).
Proof. intros Hok Hlt. by apply wp_consume_forward. Qed.

Lemma wp_while_token s kind p :
  lexer_ok s -> is_some_and (peek s) p = true -> kind <> TokenKind.Eof ->
  wp (consume_while_token kind (fun s => is_some_and (peek s) p)) s (step s).
Proof.
  intros Hok Hp Hk. unfold consume_while_token. wp_state. wp_run. apply wp_bind, wp_while; [done| |].
  - intros s1 Hok1 Hm. eexists. split; [done|]. intros [Heof%negb_true_iff _]%andb_true_iff.
    apply wp_consume_one; [done | by apply not_eof_lt].
  - intros s1 Hm _ Hlt. apply wp_token_from; try done. apply Hlt. rewrite Hp.
    rewrite is_eof_spec by done. by rewrite (proj2 (Nat.leb_gt _ _) (peek_some_lt s Hok p Hp)).
Qed.

(** *** Words *)

Lemma word_bytes_lt s word :
  lexer_ok s -> word_bytes_match s 0 word = true -> word <> [] ->
  offset s < length (lx_source s).
Proof.
  intros Hok Hw Hne. destruct word as [|x word]; [done|]. cbn in Hw.
  rewrite peek_n_lookup, Nat.add_0_r in Hw by done.
  destruct (lx_source s !! offset s) eqn:E; [by eapply lookup_lt_Some | done].
Qed.

Lemma wp_yield_from s : lexer_ok s -> wp consume_yield_from s (maybe_step s).
Proof.
  intros Hok. unfold consume_yield_from, wp. cbv zeta.
  destruct (negb (word_at_cursor s _)) eqn:Hw; [by apply owp_Ret|].
  destruct (negb (5 <? _) || _); [by apply owp_Ret|].
  destruct (is_some_and _ _); [by apply owp_Ret|]. wp_run.
  assert (Hlt : offset s < length (lx_source s)).
  { apply negb_false_iff in Hw. unfold word_at_cursor, word_at_offset in Hw.
    apply andb_true_iff in Hw as [Hw _]. by eapply word_bytes_lt. }
  apply wp_bind, wp_consume_forward; [done | lia | done |].
  intros s1 Hm Ho _ _. apply wp_bind. eapply wp_conseq; [by apply wp_token_from|].
  intros t s' Ht. by apply wp_ret.
Qed.
Lemma wp_variable_or_dollar s :
  lexer_ok s -> offset s < length (lx_source s) -> wp consume_variable_or_dollar s (step s).
Proof.
  intros Hok Hlt. unfold consume_variable_or_dollar. wp_state. wp_run.
  apply wp_bind, wp_consume_forward; [done | done | done |]. intros s1 Hm Ho Hok1 _. wp_state.
  destruct (is_some_and (peek s1) is_identifier_start); wp_run; [|by apply wp_token_from].
  apply wp_bind, wp_while; [done| |].
  - intros s2 Hok2 Hm2. eexists. split; [done|]. intros Hp.
    apply wp_consume_one; [done | by eapply peek_some_lt].
  - intros s2 Hm2 _ _. apply wp_token_from; [done | by eapply moved_trans | | done].
    apply moved_offset in Hm2. lia.
Qed.

Lemma wp_ampersand s :
  lexer_ok s -> offset s < length (lx_source s) -> wp consume_ampersand s (step s).
Proof. intros Hok Hlt. by apply wp_fixed_token. Qed.

Lemma start_is_continue (o : option byte) :
  is_some_and o is_identifier_start = true -> is_some_and o is_identifier_continue = true.
Proof. destruct o; [apply identifier_start_continue | done]. Qed.

Lemma wp_identifier_token s name :
  lexer_ok s -> is_some_and (peek s) is_identifier_start = true ->
  wp (consume_identifier_token bk name) s (step s).
Proof.
  intros Hok Hst. unfold consume_identifier_token. wp_state. wp_run.
  apply wp_bind, wp_identifier_bytes; [done|]. intros s1 Hm Hlt.
  apply wp_token_from; try done. by apply Hlt, start_is_continue.
Qed.

(** A separator and the identifier after it. *)
Lemma wp_name_part s :
  lexer_ok s -> at_name_separator s = true ->
  wp (consume_len 1 ;;; consume_identifier_bytes bk) s
    (fun _ s2 => moved s s2 /\ offset s < offset s2).
Proof.
  intros Hok [Hsep _]%andb_true_iff.
  apply wp_bind, wp_consume_forward; [done | done | by eapply opt_is_lt |].
  intros s1 Hm Hlt Hok1 _. apply wp_identifier_bytes; [done|]. intros s2 Hm2 _.
  split; [by eapply moved_trans|]. apply moved_offset in Hm2. lia.
Qed.

Lemma wp_name_parts s (Q : unit -> Lexer -> Prop) :
  lexer_ok s -> (forall s', moved s s' -> Q tt s') ->
  wp (while (fun s => Ret (at_name_separator s)) (consume_len 1 ;;; consume_identifier_bytes bk)) s Q.
Proof.
  intros Hok HQ. apply wp_while; [done| |by auto].
  intros s1 Hok1 Hm. eexists. split; [done|]. by apply wp_name_part.
Qed.

Lemma wp_qualified_name s kind :
  lexer_ok s -> offset s < length (lx_source s) -> kind <> TokenKind.Eof ->
  wp (consume_qualified_name bk kind true) s (step s).
Proof.
  intros Hok Hlt Hk. unfold consume_qualified_name. wp_state. wp_run.
  apply wp_bind, wp_consume_forward; [done | done | done |]. intros s1 Hm Ho Hok1 _.
  apply wp_bind, wp_identifier_bytes; [done|]. intros s2 Hm2 _.
  apply wp_bind, wp_name_parts; [by eapply moved_ok|]. intros s3 Hm3.
  pose proof (moved_offset _ _ Hm2). pose proof (moved_offset _ _ Hm3).
  apply wp_token_from; [done | | lia | done]. eapply moved_trans; [done|]. by eapply moved_trans.
Qed.

Lemma word_slice s start :
  start <= offset s -> lexer_ok s ->
  slice (lx_source s) start (offset s) = Ret (drop start (take (offset s) (lx_source s))).
Proof. intros Hs Hok. apply slice_ok; [done | by apply ok_offset]. Qed.

Lemma wp_qualified_loop s n (Q : bool -> Lexer -> Prop) :
  lexer_ok s -> n = lexer_fuel s -> (forall q s', moved s s' -> Q q s') ->
  wp (loop n (fun qualified : bool => fun s =>
        if at_name_separator s
        then (consume_len 1 ;;; consume_identifier_bytes bk ;;; ret (inl true)) s
        else ret (inr qualified) s) false) s Q.
Proof.
  intros Hok Hn HQ. apply (wp_moving_loop _ (fun _ _ => True)); [done | done | done |].
  intros q s1 Hok1 Hm _. wp_state.
  destruct (at_name_separator s1) eqn:Hsep; wp_run; [|by apply wp_ret, HQ].
  assert (Hassoc : forall A B C (m : M A) (k : A -> M B) (h : B -> M C) s,
    bind (bind m k) h s = bind m (fun a => bind (k a) h) s).
  { intros. unfold bind. by destruct (m s0) as [[? ?]| |]. }
  unfold wp. rewrite <- (Hassoc _ _ _ (consume_len 1) (fun _ => consume_identifier_bytes bk)
    (fun _ => ret (inl true))). wp_run. apply wp_bind.
  eapply wp_conseq; [by apply wp_name_part|]. intros _ s2 [Hm2 Hlt]. by apply wp_ret.
Qed.

Lemma wp_identifier_or_name s :
  lexer_ok s -> is_some_and (peek s) is_identifier_start = true ->
  wp (consume_identifier_or_name bk) s (step s).
Proof.
  intros Hok Hst. unfold consume_identifier_or_name. wp_state. wp_run.
  apply wp_bind, wp_identifier_bytes; [done|]. intros s1 Hm Hlt.
  specialize (Hlt (start_is_continue _ Hst)). pose proof (moved_ok _ _ Hok Hm) as Hok1.
  wp_state. rewrite word_slice by (lia || done). cbn [obind].
  destruct (eq_ignore_ascii_case _ _ && _); wp_run; apply wp_bind.
  { apply wp_name_parts; [done|]. intros s2 Hm2. pose proof (moved_offset _ _ Hm2).
    apply wp_token_from; [done | by eapply moved_trans | lia | done]. }
  apply wp_qualified_loop; [done | done |]. intros q s2 Hm2.
  assert (Hm' : moved s s2) by (by eapply moved_trans).
  pose proof (moved_ok _ _ Hok Hm') as Hok2. pose proof (moved_offset _ _ Hm2) as Ho2.
  wp_state. destruct q; [apply owp_Ret; by apply step_moved; [.. | lia | done]|].
  assert (Hr : to_usize (end_ (TextRange_new (offset s) (offset s2))) = offset s2).
  { unfold TextRange_new. cbn [to_usize]. rewrite (proj2 (Nat.ltb_ge _ _)) by lia. done. }
  rewrite Hr. cbn [TextRange_new Source.start to_usize]. rewrite word_slice by (lia || done).
  cbn [obind]. wp_run. apply wp_bind.
  set (halt := TokenName.eqb _ _ && _).
  set (t := mkToken _ _ _).
  assert (Ht : step s t s2) by (apply step_moved; [done | done | lia | done]).
  destruct halt; [|by apply wp_ret, wp_ret].
  apply wp_bind, wp_modify, wp_modify, wp_ret. apply (step_after _ _ s2); [done|].
  solve_here.
Qed.

(** *** Numbers *)

Lemma wp_radix_number s p kind :
  lexer_ok s -> offset s < length (lx_source s) -> kind <> TokenKind.Eof ->
  wp (consume_len 2 ;;; consume_digit_sequence p ;;; token_from kind (offset s) (lx_line s)) s
    (step s).
Proof.
  intros Hok Hlt Hk. apply wp_bind, wp_consume_forward; [done | lia | done |].
  intros s1 Hm Ho Hok1 _. apply wp_bind, wp_digit_sequence; [done|]. intros s2 Hm2 _.
  pose proof (moved_offset _ _ Hm2). apply wp_token_from; [done | by eapply moved_trans | lia | done].
Qed.

Lemma wp_number s :
  lexer_ok s ->
  is_some_and (peek s) is_ascii_digit
    || (opt_is (peek s) x2e && is_some_and (peek_n s 1) is_ascii_digit) = true ->
  wp consume_number s (step s).
Proof.
  intros Hok Hfirst. unfold consume_number, wp. cbv beta zeta.
  destruct (opt_is (peek s) x2e) eqn:Hdot.
  { wp_run. apply wp_bind, wp_consume_forward; [done | lia | by eapply opt_is_lt |].
    intros s1 Hm Ho Hok1 _. apply wp_bind, wp_digit_sequence; [done|]. intros s2 Hm2 _.
    apply wp_bind, wp_exponent; [by eapply moved_ok|]. intros _ s3 Hm3.
    pose proof (moved_offset _ _ Hm2). pose proof (moved_offset _ _ Hm3).
    apply wp_token_from; [done | | lia | done]. eapply moved_trans; [done|]. by eapply moved_trans. }
  rewrite andb_false_l, orb_false_r in Hfirst. pose proof (peek_some_lt s Hok _ Hfirst) as Hlt.
  repeat (destruct (opt_is (peek s) x30 && _ && _); [wp_run; by apply wp_radix_number|]).
  wp_run. apply wp_bind, wp_digit_sequence; [done|]. intros s1 Hm Hlt1. specialize (Hlt1 Hfirst).
  pose proof (moved_ok _ _ Hok Hm) as Hok1. wp_state. rewrite word_slice by (lia || done).
  cbn [obind]. wp_run. apply wp_bind.
  apply (wp_conseq _ _ (fun _ s2 => moved s s2 /\ offset s < offset s2)).
  { destruct (opt_is (peek s1) x2e) eqn:Hdot1; [|by apply wp_ret].
    apply wp_bind, wp_consume_forward; [done | lia | by eapply opt_is_lt |].
    intros s2 Hm2 Ho2 Hok2 _. apply wp_bind, wp_digit_sequence; [done|]. intros s3 Hm3 _.
    apply wp_ret. pose proof (moved_offset _ _ Hm3). split; [|lia].
    eapply moved_trans; [done|]. by eapply moved_trans. }
  intros kind s2 [Hm2 Ho2]. apply wp_bind, wp_exponent; [by apply (moved_ok s)|].
  intros e s3 Hm3. pose proof (moved_offset _ _ Hm3).
  apply wp_token_from; [done | by eapply moved_trans | lia | done].
Qed.

(** *** Comments *)

Lemma rest_ok s :
  lexer_ok s -> slice_from (lx_source s) (offset s) = Ret (drop (offset s) (lx_source s)).
Proof. intros Hok. apply slice_from_ok, (ok_offset s Hok). Qed.

Lemma rest_length s : length (drop (offset s) (lx_source s)) = length (lx_source s) - offset s.
Proof. apply length_drop. Qed.

(** What an iteration of a scanning loop guarantees: it moves on, or it
    leaves with [Q]. *)
Definition scan_post {R} (s : Lexer) (Q : R -> Lexer -> Prop) (r : unit + R) (s2 : Lexer) : Prop :=
  match r with
  | inl _ => moved s s2 /\ offset s < offset s2
  | inr v => Q v s2
  end.

Lemma wp_scan_loop {R} s n (body : unit -> M (unit + R)) (Q : R -> Lexer -> Prop) :
  lexer_ok s -> n = lexer_fuel s ->
  (forall s1, lexer_ok s1 -> moved s s1 -> wp (body tt) s1 (scan_post s1 Q)) ->
  wp (loop n body tt) s Q.
Proof.
  intros Hok Hn Hbody. apply (wp_moving_loop _ (fun _ _ => True)); try done.
  intros [] s1 Hok1 Hm _. eapply wp_conseq; [by apply Hbody|].
  intros [[]|r] s2; cbn; [|done]. by intros [? ?].
Qed.

Lemma wp_continue {R} s n (Q : R -> Lexer -> Prop) :
  lexer_ok s -> 1 <= n -> offset s < length (lx_source s) ->
  wp (consume_len n ;;; ret (inl tt)) s (scan_post s Q).
Proof.
  intros Hok Hn Hlt. apply wp_bind, wp_consume_forward; [done | done | done |].
  intros. by apply wp_ret.
Qed.

Lemma wp_stop {R} s n (r : R) (Q : R -> Lexer -> Prop) :
  lexer_ok s -> 1 <= n -> offset s < length (lx_source s) ->
  (forall s2, moved s s2 -> offset s < offset s2 -> Q r s2) ->
  wp (consume_len n ;;; ret (inr r)) s (scan_post s Q).
Proof.
  intros Hok Hn Hlt HQ. apply wp_bind, wp_consume_forward; [done | done | done |].
  intros. by apply wp_ret, HQ.
Qed.

Lemma wp_leave {R} s (r : R) (Q : R -> Lexer -> Prop) :
  Q r s -> wp (ret (inr r)) s (scan_post s Q).
Proof. intros HQ. by apply wp_ret. Qed.

(** A scanning loop that ends after at least one byte of [s]. *)
Definition covers {R} (s : Lexer) (_ : R) (s' : Lexer) : Prop := moved s s' /\ offset s < offset s'.

Lemma covers_step {R} s s1 s2 (r : R) :
  moved s s1 -> moved s1 s2 -> offset s < offset s1 \/ offset s1 < offset s2 -> covers s r s2.
Proof.
  intros Hm Hm2 Hlt. split; [by eapply moved_trans|]. apply moved_offset in Hm, Hm2. lia.
Qed.

Lemma moved_lt s s1 : lexer_ok s -> moved s s1 -> s1 <> s -> offset s < offset s1.
Proof.
  intros Hok Hm Hne. pose proof (moved_offset _ _ Hm).
  destruct (decide (offset s1 = offset s)) as [He|]; [|lia].
  by destruct Hne; apply moved_same.
Qed.

Lemma wp_line_comment s x :
  lexer_ok s -> peek s = Some x -> existsb (Byte.eqb x) [x23; x2f] = true ->
  wp consume_line_comment s (step s).
Proof.
  intros Hok Hx Hc. unfold consume_line_comment. wp_state. wp_run. apply wp_bind.
  assert (Hlt : offset s < length (lx_source s)).
  { apply lookup_lt_Some with x. by rewrite <- peek_lookup. }
  apply (wp_conseq _ _ (covers s)); [|intros _ s1 [Hm Ho]; by apply wp_token_from].
  apply wp_scan_loop; [done | done |]. intros s1 Hok1 Hm. wp_state.
  destruct (is_eof s1) eqn:Heof; cbn [negb].
  { wp_run. apply wp_leave. eapply covers_step; [done | by apply moved_refl |]. left.
    rewrite is_eof_spec in Heof by done. apply Nat.leb_le in Heof.
    rewrite (moved_source _ _ Hm) in Heof. lia. }
  apply (not_eof_lt s1 Hok1) in Heof. rewrite rest_ok by done. cbn [obind].
  destruct (nearest_found _ _) as [relative|]; cycle 1.
  { wp_run. apply wp_stop; [done | rewrite rest_length; lia | done |].
    intros s2 Hm2 Ho2. eapply covers_step; [done | done | by right]. }
  destruct (Nat.ltb_spec 0 relative) as [Hrel|_]; [by wp_run; apply wp_continue|].
  rewrite at_cursor_spec by done. cbn [obind].
  destruct (starts_with _ _ || _) eqn:Hend; wp_run; [|by apply wp_continue].
  apply wp_leave. eapply covers_step; [done | by apply moved_refl |]. left.
  apply moved_lt; [done | done |]. intros ->. rewrite Hx in Hend.
  rewrite peek_lookup in Hx by done. rewrite (drop_S _ _ _ Hx) in Hend.
  clear -Hc Hend. cbn in Hc, Hend. destruct x; done.
Qed.

Lemma diagnostic_here s d :
  lexer_ok s -> span_within (diag_span d) (length (lx_source s)) ->
  here s (set_diagnostics (lx_diagnostics s ++ [d]) s).
Proof.
  intros Hok Hd. split; [|done]. destruct Hok. split; try done.
  apply Forall_app. by rewrite Forall_singleton.
Qed.

Lemma range_within a c n : a <= n -> c <= n -> span_within (TextRange_new a c) n.
Proof.
  intros Ha Hc. unfold span_within, TextRange_new. cbn [to_usize Source.start end_].
  destruct (Nat.ltb_spec c a); cbn [to_usize]; lia.
Qed.

(** A token whose span is also reported. *)
Lemma wp_reported_token s s1 kind k m :
  lexer_ok s -> moved s s1 -> offset s < offset s1 -> k <> TokenKind.Eof ->
  wp (let* range := gets (fun s' => TextRange_new (offset s) (offset s')) in
      push_diagnostic kind m range (lx_line s) ;;; ret (mkToken k range (lx_line s))) s1 (step s).
Proof.
  intros Hok Hm Hlt Hk. pose proof (moved_ok _ _ Hok Hm) as Hok1.
  apply wp_bind, wp_gets, wp_bind, wp_modify, wp_ret. apply (step_after _ _ s1).
  - by apply step_moved.
  - apply diagnostic_here; [done|]. cbn [diag_span]. rewrite (moved_source _ _ Hm).
    pose proof (ok_offset s Hok). pose proof (ok_offset s1 Hok1) as H1.
    rewrite (moved_source _ _ Hm) in H1. by apply range_within.
Qed.

Lemma wp_block_comment s :
  lexer_ok s -> offset s < length (lx_source s) -> wp consume_block_comment s (step s).
Proof.
  intros Hok Hlt. unfold consume_block_comment. wp_state. rewrite at_cursor_spec by done.
  cbn [obind]. set (kind := if starts_with _ _ then _ else _).
  assert (Hk : kind <> TokenKind.Eof) by (unfold kind; by case_match).
  clearbody kind. wp_run.
  apply wp_bind, wp_consume_forward; [done | lia | done |]. intros s1 Hm1 Ho1 Hok1 _.
  apply wp_bind. apply (wp_conseq _ _ (covers s)).
  2: { intros closed s2 [Hm2 Ho2].
       destruct closed; [by apply wp_token_from | by apply wp_reported_token]. }
  apply wp_scan_loop; [done | unfold lexer_fuel; by rewrite (moved_source _ _ Hm1) |].
  intros s2 Hok2 Hm2. assert (Hm : moved s s2) by (by eapply moved_trans).
  assert (Ho : offset s < offset s2) by (apply moved_offset in Hm2; lia).
  wp_state. destruct (is_eof s2) eqn:Heof; cbn [negb]; [by wp_run; apply wp_leave|].
  apply (not_eof_lt s2 Hok2) in Heof. rewrite rest_ok by done. cbn [obind].
  assert (Hleave : forall (r : bool) s3, moved s2 s3 -> offset s2 < offset s3 -> covers s r s3).
  { intros r s3 Hm3 Ho3. eapply covers_step; [done | done | by right]. }
  destruct (find_byte _ _) as [relative|]; cycle 1.
  { wp_run. apply wp_stop; [done | rewrite rest_length; lia | done | auto]. }
  destruct (Nat.ltb_spec 0 relative) as [Hrel|_]; [by wp_run; apply wp_continue|].
  rewrite at_cursor_spec by done. cbn [obind].
  destruct (starts_with _ _); wp_run; [apply wp_stop; [done | lia | done | auto] | by apply wp_continue].
Qed.

(** *** Recognisers: what they find is a token that takes at least a byte *)

Definition found_ok (r : option (TokenKind.t * nat)) : Prop :=
  match r with Some (kind, len) => kind <> TokenKind.Eof /\ 1 <= len | None => True end.

Lemma first_entry_ok accept table :
  Forall (fun e => e.1 <> []) table -> found_ok (first_entry accept table).
Proof.
  induction 1 as [|[w name] table Hne _ IH]; cbn [first_entry]; [done|].
  destruct (accept w); [|done]. split; [done|]. destruct w; [done | cbn; lia].
Qed.

Lemma visibility_ok s : found_ok (property_hook_visibility_at_cursor s).
Proof. apply first_entry_ok. repeat constructor; done. Qed.

Lemma operator_at_cursor_ok s :
  lexer_ok s -> exists r, operator_at_cursor s = Ret r /\ found_ok r.
Proof.
  intros Hok. unfold operator_at_cursor. rewrite rest_ok by done. eexists. split; [done|].
  apply first_entry_ok. repeat constructor; done.
Qed.

Lemma skip_while_ge p (l : bytes) o : o <= skip_while p l o.
Proof. unfold skip_while. lia. Qed.

Lemma skip_while_le p (l : bytes) o : o <= length l -> skip_while p l o <= length l.
Proof. apply skip_while_bounds. Qed.

Lemma cast_at_cursor_ok s :
  lexer_ok s -> exists r, cast_at_cursor s = Ret r /\ found_ok r.
Proof.
  intros Hok. unfold cast_at_cursor. destruct (opt_is (peek s) x28) eqn:Hp; cbn [negb]; [|by eexists].
  apply (opt_is_lt s Hok) in Hp. cbv zeta.
  set (l := lx_source s) in *.
  set (a := skip_while is_php_whitespace l (offset s + 1)).
  set (e := skip_while is_ascii_alphabetic l a).
  set (o := skip_while is_php_whitespace l e).
  assert (Ha : offset s + 1 <= a <= length l) by (apply skip_while_bounds; lia).
  assert (He : a <= e <= length l) by (apply skip_while_bounds; lia).
  assert (Ho : e <= o <= length l) by (apply skip_while_bounds; lia).
  destruct (e =? a); [by eexists|]. rewrite slice_ok by lia. cbn [obind].
  destruct (opt_is (l !! o) x29); cbn [negb]; [|by eexists].
  match goal with |- context [match ?t with Some _ => _ | None => _ end] =>
    destruct t as [name|] end; [|by eexists].
  rewrite usize_sub_ok by lia. cbn [obind]. eexists. split; [done|]. split; [done | lia].
Qed.

Lemma wp_found_token s kind n :
  lexer_ok s -> offset s < length (lx_source s) -> found_ok (Some (kind, n)) ->
  wp (some_token (consume_fixed_token kind n)) s (scan_step s).
Proof. intros Hok Hlt [Hk Hn]. apply wp_some_scan. by apply wp_fixed_token. Qed.

(** *** Strings and heredocs *)

Lemma enter_encapsed_here s mode :
  lexer_ok s -> mode_ok mode (lx_heredoc_label s) (lx_heredoc_nowdoc s) ->
  here s (enter_encapsed_mode mode (offset s) (lx_line s) s).
Proof. intros [] Hm. by split. Qed.

Lemma wp_constant_string s :
  lexer_ok s -> wp consume_constant_string_if_available s (maybe_step s).
Proof.
  intros Hok. unfold consume_constant_string_if_available. wp_state.
  destruct (scan_constant_encapsed_string_ok (lx_source s) (offset s)) as (r & -> & Hr). cbn [obind].
  destruct r as [[len terminated|]|]; [| |by apply owp_Ret]; wp_run.
  - destruct Hr as [H1 Hlen]. apply wp_bind, wp_consume_forward; [done | done | lia |].
    intros s1 Hm Ho Hok1 _. apply wp_bind, wp_gets, wp_bind.
    destruct terminated; cbn [negb].
    + apply wp_ret, wp_ret. by apply step_moved.
    + apply wp_modify, wp_ret. apply (step_after _ _ s1); [by apply step_moved|].
      pose proof (moved_source _ _ Hm) as Hs. pose proof (ok_offset s1 Hok1).
      apply diagnostic_here; [done|]. apply range_within; rewrite Hs in *; lia.
  - apply wp_bind, wp_modify, wp_bind.
    apply lookup_lt_Some in Hr.
    assert (Hh := enter_encapsed_here s LexerMode.DoubleQuote Hok I).
    eapply wp_conseq; [by apply wp_fixed_token; [apply Hh | ..]|].
    intros t s1 Ht. apply wp_ret. by apply (step_before _ _ _ _ Hh).
Qed.

Lemma heredoc_start_ok s :
  lexer_ok s ->
  exists r, heredoc_start_at_cursor s = Ret r /\
    match r with
    | Some (len, label, _) => 1 <= len /\ label <> [] /\ offset s < length (lx_source s)
    | None => True
    end.
Proof.
  intros Hok. unfold heredoc_start_at_cursor. rewrite at_cursor_spec by done. cbn [obind].
  destruct (starts_with _ _) eqn:Hsw; cbn [negb]; [|by eexists].
  apply (prefix_le s Hok) in Hsw. cbn [lit length String.list_byte_of_string] in Hsw.
  change (length (lit "<<<")) with 3 in Hsw. cbv zeta.
  set (l := lx_source s) in *. set (a := skip_while _ l (offset s + 3)).
  assert (Ha : offset s + 3 <= a) by apply skip_while_ge.
  set (quote := if opt_in (l !! a) _ then _ else _).
  set (o := match quote with Some _ => a + 1 | None => a end).
  assert (Ho : a <= o) by (unfold o; case_match; lia).
  destruct (is_some_and (l !! o) is_identifier_start) eqn:Hst; cbn [negb]; [|by eexists].
  assert (Hol : o < length l).
  { destruct (l !! o) eqn:E; [by eapply lookup_lt_Some | done]. }
  set (e := skip_while is_identifier_continue l (o + 1)).
  assert (He : o + 1 <= e <= length l) by (apply skip_while_bounds; lia).
  set (closed := match quote with Some q => _ | None => _ end).
  assert (Hcl : forall c, closed = Some c -> e <= c).
  { intros c. unfold closed. destruct quote; [case_match; [|done]|]; intros [= <-]; lia. }
  clearbody closed. destruct closed as [c|]; [|by eexists]. specialize (Hcl c eq_refl).
  match goal with |- context [?n =? 0] => destruct (Nat.eqb_spec n 0) end; [by eexists|].
  rewrite slice_ok by lia. cbn [obind]. destruct (utf8_valid _); [|by eexists].
  rewrite usize_sub_ok by lia. cbn [obind]. eexists. split; [done|]. split; [lia|].
  split; [|lia]. intros Hnil%(f_equal length). rewrite length_drop, length_take in Hnil.
  cbn in Hnil. lia.
Qed.

Lemma save_snapshot_here s : lexer_ok s -> here s (save_encapsed_snapshot s).
Proof.
  intros Hok. split; [|done]. destruct Hok. split; try done.
  cbn. constructor; [|done]. done.
Qed.

Lemma enter_heredoc_here s label nowdoc :
  lexer_ok s -> label <> [] ->
  here s (set_heredoc_nowdoc nowdoc
    (enter_encapsed_mode (if nowdoc then LexerMode.Nowdoc else LexerMode.Heredoc)
       (offset s) (lx_line s) (set_heredoc_nowdoc nowdoc (set_heredoc_label (Some label) s)))).
Proof.
  intros Hok Hl. split; [|done]. destruct Hok. split; try done. cbn. by destruct nowdoc.
Qed.

Lemma here_trans s1 s2 s3 : here s1 s2 -> here s2 s3 -> here s1 s3.
Proof.
  intros (_ & Hf & Ho & Hl) (Hok & Hf' & Ho' & Hl'). split; [done|].
  split; [by eapply framed_trans|]. split; congruence.
Qed.

Lemma wp_heredoc_start s :
  lexer_ok s -> wp consume_heredoc_start_if_available s (maybe_step s).
Proof.
  intros Hok. unfold consume_heredoc_start_if_available. wp_state.
  destruct (heredoc_start_ok s Hok) as (r & -> & Hr). cbn [obind].
  destruct r as [[[len label] nowdoc]|]; [|by apply owp_Ret]. destruct Hr as (H1 & Hl & Hlt).
  wp_run. apply wp_bind.
  apply (wp_conseq _ _ (fun _ s1 => here s s1)).
  { case_match; [by apply wp_modify, save_snapshot_here | by apply wp_ret, here_refl]. }
  intros _ s1 Hh1. do 4 apply wp_bind, wp_modify. apply wp_bind.
  assert (Hh : here s1 (set_heredoc_nowdoc nowdoc
    (enter_encapsed_mode (if nowdoc then LexerMode.Nowdoc else LexerMode.Heredoc)
       (offset s) (lx_line s) (set_heredoc_nowdoc nowdoc (set_heredoc_label (Some label) s1))))).
  { destruct Hh1 as (Hok1 & _ & Ho & Hline). rewrite <- Ho, <- Hline.
    by apply enter_heredoc_here. }
  eapply wp_conseq.
  - apply wp_fixed_token; [apply Hh | done | | done].
    destruct Hh1 as (_ & (Hs & _) & Ho & _). destruct Hh as (_ & (Hs' & _) & Ho' & _).
    rewrite Ho', Hs', Ho, Hs. done.
  - intros t s2 Ht. apply wp_ret. eapply step_before; [|done]. by eapply here_trans.
Qed.

(** *** The scripting scanner *)

Lemma wp_step_after (m : M Token) (k : Token -> M (option Token)) s s0 :
  wp m s (step s0) ->
  (forall t s1, step s0 t s1 -> wp (k t) s1 (fun r s2 => r = Some t /\ here s1 s2)) ->
  wp (let* t := m in k t) s (scan_step s0).
Proof.
  intros Hm Hk. apply wp_bind. eapply wp_conseq; [apply Hm|]. intros t s1 Ht.
  eapply wp_conseq; [by apply Hk|]. intros r s2 [-> Hh]. by eapply step_after.
Qed.

(** Try [m], and go on with [k] when it declines. *)
Lemma owp_or_else (m : M (option Token)) s (k : Lexer -> outcome (option Token * Lexer)) :
  wp m s (maybe_step s) -> owp (k s) (scan_step s) ->
  owp (olet r := m s in
       match r with (Some token, s) => Ret (Some token, s) | (None, s) => k s end) (scan_step s).
Proof.
  intros Hm Hk. apply owp_obind. eapply wp_conseq; [apply Hm|].
  intros [t|] s'; cbn; [intros Ht; by apply owp_Ret | by intros ->].
Qed.

Lemma wp_remaining_inline_html s :
  lexer_ok s -> offset s < length (lx_source s) -> wp consume_remaining_inline_html s (step s).
Proof.
  intros Hok Hlt. unfold consume_remaining_inline_html. wp_state. wp_run.
  apply wp_bind. eapply wp_lift; [apply usize_sub_ok; lia|].
  apply wp_bind, wp_consume_forward; [done | lia | done |]. intros s1 Hm Ho Hok1 _.
  apply wp_bind, wp_modify, wp_bind, wp_modify.
  apply (wp_token_from_here _ s1); [done | done | done | done | solve_here].
Qed.

Lemma default_peek s : lexer_ok s -> offset s < length (lx_source s) ->
  exists x, peek s = Some x.
Proof. intros Hok Hlt. rewrite peek_lookup by done. by apply lookup_lt_is_Some. Qed.

Lemma at_cursor_peek s x needle :
  lexer_ok s -> starts_with (drop (offset s) (lx_source s)) (x :: needle) = true ->
  peek s = Some x.
Proof.
  intros Hok [rest Hr]%starts_with_spec. rewrite peek_lookup by done.
  rewrite <- (Nat.add_0_r (offset s)), <- lookup_drop, Hr. done.
Qed.

Lemma wp_reported_some s s1 kind k m :
  lexer_ok s -> moved s s1 -> offset s < offset s1 -> k <> TokenKind.Eof ->
  wp (let* range := gets (fun s' => TextRange_new (offset s) (offset s')) in
      push_diagnostic kind m range (lx_line s) ;;;
      ret (Some (mkToken k range (lx_line s)))) s1 (scan_step s).
Proof.
  intros Hok Hm Hlt Hk. pose proof (wp_reported_token s s1 kind k m Hok Hm Hlt Hk) as H.
  apply wp_bind, wp_gets, wp_bind, wp_modify, wp_ret.
  destruct H as (t & s2 & [= <- <-] & H). apply H.
Qed.

Lemma wp_scripting_symbol s :
  lexer_ok s -> offset s < length (lx_source s) ->
  wp (fun s => (consume_len 1 ;;; some_token (token_from (SymChar (default x00 (peek s)))
                  (offset s) (lx_line s))) s) s (scan_step s).
Proof.
  intros Hok Hlt. wp_state. wp_run. apply wp_bind, wp_consume_forward; [done | done | done |].
  intros s1 Hm Ho _ _. by apply wp_some_scan, wp_token_from.
Qed.

Lemma wp_halt_semicolon s :
  lexer_ok s -> offset s < length (lx_source s) ->
  wp (let* token := consume_fixed_token (SymChar x3b) 1 in
      modify (set_mode LexerMode.InlineHtml) ;;;
      modify (set_halt_compiler_seen false) ;;;
      modify (set_halt_compiler_significant_tokens 0) ;;;
      ret (Some token)) s (scan_step s).
Proof.
  intros Hok Hlt. apply wp_step_after; [by apply wp_fixed_token|]. intros t s1 [Hok1 ? ? ? ? ?].
  do 3 apply wp_bind, wp_modify. apply wp_ret. split; [done | solve_here].
Qed.

Lemma wp_close_tag s :
  lexer_ok s -> offset s < length (lx_source s) ->
  wp (consume_len (close_tag_len s) ;;; modify (set_mode LexerMode.InlineHtml) ;;;
      some_token (token_from (TokenKind.Named TokenName.CloseTag) (offset s) (lx_line s))) s (scan_step s).
Proof.
  intros Hok Hlt.
  apply wp_bind, wp_consume_forward; [done | unfold close_tag_len; repeat case_match; lia | done |].
  intros s1 Hm Ho Hok1 _. apply wp_bind, wp_modify, wp_some_scan.
  apply (wp_token_from_here _ s1); [done | done | done | done | solve_here].
Qed.

Lemma wp_bad_character s message :
  lexer_ok s -> offset s < length (lx_source s) ->
  wp (consume_len 1 ;;;
      let* range := gets (fun s' => TextRange_new (offset s) (offset s')) in
      push_diagnostic LexDiagnosticKind.BadCharacter message range (lx_line s) ;;;
      ret (Some (mkToken (TokenKind.Named TokenName.BadCharacter) range (lx_line s)))) s (scan_step s).
Proof.
  intros Hok Hlt. apply wp_bind, wp_consume_forward; [done | done | done |]. intros s1 Hm Ho _ _.
  by apply wp_reported_some.
Qed.

Lemma wp_scripting s : lexer_ok s -> wp (next_scripting_token bk) s (scan_step s).
Proof.
  intros Hok. unfold next_scripting_token, wp.
  destruct (is_eof s) eqn:Heof.
  { apply owp_Ret. split; [by apply here_refl|]. rewrite is_eof_spec in Heof by done.
    apply Nat.leb_le in Heof. pose proof (ok_offset s Hok). lia. }
  apply (not_eof_lt s Hok) in Heof. destruct (default_peek s Hok Heof) as [x Hx].
  destruct (lx_halt_compiler_seen s && opt_is (peek s) x3b).
  { wp_run. by apply wp_halt_semicolon. }
  destruct (lx_halt_compiler_seen s && _); [by apply wp_some_scan, wp_remaining_inline_html|].
  rewrite !(at_cursor_spec _ Hok). cbn [obind].
  destruct (starts_with _ (lit "?>")).
  { wp_run. by apply wp_close_tag. }
  rewrite Hx. change (default x00 (Some x)) with x. cbv zeta.
  destruct (is_php_whitespace x) eqn:Hws.
  { apply wp_some_scan, wp_while_token; [done | by rewrite Hx | done]. }
  destruct (starts_with _ (lit "#[")); [apply wp_found_token; [done | done | split; [done | lia]]|].
  destruct (starts_with _ (lit "//")) eqn:Hsl.
  { apply wp_some_scan, (wp_line_comment _ x2f); [done | by apply (at_cursor_peek _ _ (lit "/")) | done]. }
  destruct (starts_with _ (lit "#")) eqn:Hsh.
  { apply wp_some_scan, (wp_line_comment _ x23); [done | by apply (at_cursor_peek _ _ []) | done]. }
  destruct (starts_with _ (lit "/*")); [by apply wp_some_scan, wp_block_comment|].
  destruct (is_bad_character x).
  { wp_run. by apply wp_bad_character. }
  rewrite <- Hx. destruct (is_some_and (peek s) is_ascii_digit || _) eqn:Hnum.
  { by apply wp_some_scan, wp_number. }
  apply (owp_or_else _ _ (fun s => _)); [by apply wp_constant_string|]. cbv beta.
  apply (owp_or_else _ _ (fun s => _)); [by apply wp_heredoc_start|]. cbv beta.
  destruct (opt_is (peek s) x60).
  { wp_run. apply wp_bind, wp_modify, wp_some_scan.
    assert (Hh := enter_encapsed_here s LexerMode.Backtick Hok I).
    apply (wp_step_before _ _ _ Hh). apply wp_fixed_token; [apply Hh | done | done | done]. }
  destruct (cast_at_cursor_ok s Hok) as ([[kind n]|] & -> & Hcast); cbn [obind];
    [by apply wp_found_token|].
  apply (owp_or_else _ _ (fun s => _)); [by apply wp_yield_from|]. cbv beta.
  destruct (opt_is (peek s) x24); [by apply wp_some_scan, wp_variable_or_dollar|].
  pose proof (visibility_ok s) as Hvis.
  destruct (property_hook_visibility_at_cursor s) as [[kind n]|]; [by apply wp_found_token|].
  destruct (opt_is (peek s) x5c && _); [by apply wp_some_scan, wp_qualified_name|].
  destruct (opt_is (peek s) x5c); [apply wp_found_token; [done | done | split; [done | lia]]|].
  destruct (is_some_and (peek s) is_identifier_start) eqn:Hid;
    [by apply wp_some_scan, wp_identifier_or_name|].
  destruct (operator_at_cursor_ok s Hok) as ([[kind n]|] & -> & Hop); cbn [obind];
    [by apply wp_found_token|].
  destruct (opt_is (peek s) x26); [by apply wp_some_scan, wp_ampersand|].
  by apply wp_scripting_symbol.
Qed.

(** *** Interpolated strings *)

Lemma wp_num_string s :
  lexer_ok s -> is_some_and (peek s) is_decimal_digit = true -> wp consume_num_string s (step s).
Proof.
  intros Hok Hd. unfold consume_num_string. wp_state. wp_run. apply wp_bind, wp_while; [done| |].
  - intros s1 Hok1 Hm. eexists. split; [done|]. intros Hp.
    apply wp_consume_one; [done | by eapply peek_some_lt].
  - intros s1 Hm _ Hlt. apply wp_token_from; try done. apply Hlt. by rewrite Hd.
Qed.

Lemma wp_escaped_or_byte s escapes :
  lexer_ok s -> offset s < length (lx_source s) ->
  wp (consume_escaped_or_byte escapes) s (fun _ s2 => moved s s2 /\ offset s < offset s2).
Proof.
  intros Hok Hlt. unfold consume_escaped_or_byte. wp_state.
  destruct (escapes && _); wp_run; [|by apply wp_consume_one].
  apply wp_bind, wp_consume_forward; [done | done | done |]. intros s1 Hm Ho Hok1 _. wp_state.
  destruct (is_eof s1); cbn [negb]; wp_run; [by apply wp_ret|].
  eapply wp_conseq; [by apply wp_moves_consume|]. intros _ s2 [Hm2 _].
  split; [by eapply moved_trans|]. apply moved_offset in Hm2. lia.
Qed.

(** Nothing at the cursor ends a piece of literal text. *)
Definition no_interpolation (s : Lexer) : Prop :=
  starts_with (drop (offset s) (lx_source s)) (lit "{$") = false /\
  starts_with (drop (offset s) (lx_source s)) (lit "${") = false /\
  at_variable s = false /\
  lx_in_braced_interpolation s && opt_is (peek s) x7d = false.

Lemma wp_encapsed_text s delimiter :
  lexer_ok s -> offset s < length (lx_source s) -> opt_is (peek s) delimiter = false ->
  no_interpolation s -> wp (consume_encapsed_text delimiter) s (step s).
Proof.
  intros Hok Hlt Hd (H1 & H2 & H3 & H4). unfold consume_encapsed_text. wp_state. wp_run.
  apply wp_bind, wp_while; [done| |].
  - intros s1 Hok1 Hm. rewrite !at_cursor_spec by done. cbn [obind].
    destruct (is_eof s1) eqn:Heof; [by eexists|]. destruct (opt_is (peek s1) delimiter); [by eexists|].
    eexists. split; [done|]. intros _. apply wp_escaped_or_byte; [done | by apply not_eof_lt].
  - intros s1 Hm _ Hlt1. apply wp_bind, wp_modify.
    assert (Hok1 : lexer_ok s1) by (by eapply moved_ok).
    apply (wp_token_from_here _ s1); [done | done | | done | solve_here]. apply Hlt1.
    rewrite is_eof_spec by done. rewrite (proj2 (Nat.leb_gt _ _) Hlt), Hd.
    rewrite !at_cursor_spec by done. cbn [obind]. by rewrite H1, H2, H3, H4.
Qed.

Lemma heredoc_end_ok s :
  lexer_ok s -> exists r, heredoc_end_len_at_cursor s = Ret r /\
    match r with Some n => 1 <= n /\ offset s < length (lx_source s) | None => True end.
Proof.
  intros Hok. unfold heredoc_end_len_at_cursor. pose proof (ok_label s Hok) as Hl.
  destruct (lx_heredoc_label s) as [label|]; [|by eexists]. cbn in Hl. cbv zeta.
  destruct ((0 <? offset s) && _); [by eexists|].
  set (o := skip_while _ _ _). assert (Ho : offset s <= o) by apply skip_while_ge.
  unfold get_range. destruct ((o <=? o + length label) && (o + length label <=? length (lx_source s)))
    eqn:Hb; [|by eexists].
  apply andb_true_iff in Hb as [_ Hb%Nat.leb_le].
  assert (Hlen : 1 <= length label) by (destruct label; [done | cbn; lia]).
  destruct (bytes_eqb _ _); [|by eexists].
  assert (Hsub : usize_sub (o + length label) (offset s) = Ret (o + length label - offset s)).
  { apply usize_sub_ok. lia. }
  rewrite Hsub. cbn [obind]. destruct (lx_source s !! (o + length label)); [case_match; [|by eexists]|];
    eexists; (split; [done|]); split; lia.
Qed.

Lemma wp_heredoc_text s :
  lexer_ok s -> offset s < length (lx_source s) -> heredoc_end_len_at_cursor s = Ret None ->
  (lx_heredoc_nowdoc s = false -> no_interpolation s) -> wp consume_heredoc_text s (step s).
Proof.
  intros Hok Hlt He Hno. unfold consume_heredoc_text. wp_state. wp_run. apply wp_bind.
  apply (wp_conseq _ _ (covers s)); cycle 1.
  { intros _ s1 [Hm Ho]. apply wp_bind, wp_modify. pose proof (moved_ok _ _ Hok Hm) as Hok1.
    apply (wp_token_from_here _ s1); [done | done | done | done | solve_here]. }
  apply wp_scan_loop; [done | done |]. intros s1 Hok1 Hm. wp_state.
  destruct (is_eof s1) eqn:Heof.
  { wp_run. apply wp_leave. split; [done|]. rewrite is_eof_spec in Heof by done.
    apply Nat.leb_le in Heof. rewrite (moved_source _ _ Hm) in Heof. lia. }
  apply (not_eof_lt s1 Hok1) in Heof.
  destruct (heredoc_end_ok s1 Hok1) as (e & Hes & _). rewrite Hes, !at_cursor_spec by done.
  cbn [obind]. destruct (negb (is_none e) || _) eqn:Hstop; wp_run.
  - apply wp_leave. split; [done|]. apply moved_lt; [done | done |]. intros ->.
    rewrite He in Hes. injection Hes as <-. cbn [is_none negb orb] in Hstop.
    apply andb_true_iff in Hstop as [Hnow%negb_true_iff Hstop].
    destruct (Hno Hnow) as (H1 & H2 & H3 & H4). by rewrite H1, H2, H3, H4 in Hstop.
  - apply wp_bind. eapply wp_conseq; [by apply wp_escaped_or_byte|].
    intros [] s2 Hm2. by apply wp_ret.
Qed.

Definition interpolation_post (s : Lexer) (r : option Token) (s' : Lexer) : Prop :=
  match r with Some t => step s t s' | None => s' = s /\ no_interpolation s end.

(** Flags are set, then a token is read. *)
Lemma wp_flags_then (m : M Token) s s1 :
  here s s1 -> (lexer_ok s1 -> wp m s1 (step s1)) ->
  wp (some_token m) s1 (interpolation_post s).
Proof.
  intros Hh Hm. eapply wp_conseq; [apply wp_some_token|].
  - apply (wp_step_before _ _ _ Hh), Hm, Hh.
  - by intros r s' (t & -> & Ht).
Qed.

Lemma wp_flags_fixed s s1 kind n :
  lexer_ok s -> offset s < length (lx_source s) -> here s s1 -> 1 <= n -> kind <> TokenKind.Eof ->
  wp (some_token (consume_fixed_token kind n)) s1 (interpolation_post s).
Proof.
  intros Hok Hlt Hh Hn Hk. apply wp_flags_then; [done|]. intros Hok1.
  destruct Hh as (_ & (Hs & _) & Ho & _). apply wp_fixed_token; try done. by rewrite Ho, Hs.
Qed.

Ltac flags_then := wp_run; repeat (apply wp_bind, wp_modify); apply wp_flags_then; [solve_here|].
Ltac flags_fixed :=
  wp_run; repeat (apply wp_bind, wp_modify);
  apply wp_flags_fixed; [done | done | solve_here | lia | done].

Lemma wp_interpolation s :
  lexer_ok s -> offset s < length (lx_source s) ->
  wp (interpolation_token bk) s (interpolation_post s).
Proof.
  intros Hok Hlt. unfold interpolation_token, set_after_variable, wp.
  destruct (lx_expecting_object_property s && _) eqn:H1.
  { apply andb_true_iff in H1 as [_ H1]. flags_then. intros. by apply wp_identifier_token. }
  destruct (lx_expecting_string_varname s && _) eqn:H2.
  { apply andb_true_iff in H2 as [_ H2]. flags_then. intros. by apply wp_identifier_token. }
  destruct (lx_in_string_var_offset s && is_some_and _ _) eqn:H3.
  { apply andb_true_iff in H3 as [_ H3]. flags_then. intros. by apply wp_num_string. }
  destruct (lx_in_string_var_offset s && opt_is _ _); [flags_fixed|].
  destruct (lx_in_braced_interpolation s && _) eqn:H4; [flags_fixed|].
  rewrite !(at_cursor_spec s Hok). cbn [obind].
  destruct (starts_with _ (lit "{$")) eqn:H5; [flags_fixed|].
  destruct (starts_with _ (lit "${")) eqn:H6; [flags_fixed|].
  destruct (at_variable s) eqn:H7.
  { wp_run. apply wp_bind. eapply wp_conseq; [by apply wp_variable_or_dollar|].
    intros t s1 Ht. apply wp_bind, wp_modify, wp_ret. destruct Ht as [Hok1 ? ? ? ? ?].
    apply (step_after _ _ s1); [by split | solve_here]. }
  assert (Hno : no_interpolation s) by done.
  set (arrow := if lx_last_encapsed_variable s then _ else _).
  assert (Ha : exists a, arrow = Ret a) by (unfold arrow; case_match; by eexists).
  destruct Ha as [[] ->]; cbn [obind]; [flags_fixed|].
  destruct (lx_last_encapsed_variable s && _); [flags_fixed|]. by apply owp_Ret.
Qed.

Lemma clear_encapsed_here s : lexer_ok s -> here s (clear_encapsed_state (set_mode LexerMode.Scripting s)).
Proof. intros Hok. solve_here. Qed.

Lemma clear_heredoc_here s :
  lexer_ok s ->
  here s (clear_encapsed_state (clear_heredoc_state (set_mode LexerMode.Scripting s))).
Proof. intros Hok. solve_here. Qed.

Lemma eof_offset s : lexer_ok s -> is_eof s = true -> offset s = length (lx_source s).
Proof.
  intros Hok He. rewrite is_eof_spec in He by done. apply Nat.leb_le in He.
  pose proof (ok_offset s Hok). lia.
Qed.

(** The diagnostic for an unterminated literal spans from its start. *)
Lemma unterminated_here s d :
  lexer_ok s -> diag_span d = TextRange_new (lx_mode_start s) (offset s) ->
  here s (set_diagnostics (lx_diagnostics s ++ [d]) s).
Proof.
  intros Hok Hd. apply diagnostic_here; [done|]. rewrite Hd. apply range_within.
  - by apply ok_mode_start.
  - by apply ok_offset.
Qed.

Lemma wp_encapsed s delimiter :
  lexer_ok s -> wp (next_encapsed_token bk delimiter) s (scan_step s).
Proof.
  intros Hok. unfold next_encapsed_token, wp. destruct (is_eof s) eqn:Heof.
  { wp_run. do 3 apply wp_bind, wp_modify. apply wp_ret. split; [|by apply eof_offset].
    eapply here_trans; [|apply clear_encapsed_here]; [|eapply here_ok]; by apply unterminated_here. }
  apply (not_eof_lt s Hok) in Heof. destruct (opt_is (peek s) delimiter) eqn:Hd.
  { wp_run. do 2 apply wp_bind, wp_modify. apply wp_some_scan.
    pose proof (clear_encapsed_here s Hok) as Hh. apply (wp_step_before _ _ _ Hh).
    apply wp_fixed_token; [apply Hh | done | done | done]. }
  apply owp_obind. eapply wp_conseq; [by apply wp_interpolation|].
  intros [t|] s1; cbn [interpolation_post]; [intros Ht; by apply owp_Ret|].
  intros [-> Hno]. by apply wp_some_scan, wp_encapsed_text.
Qed.

Lemma restore_here s : lexer_ok s -> wp restore_encapsed_snapshot s (fun _ s' => here s s').
Proof.
  intros Hok. unfold restore_encapsed_snapshot, wp.
  destruct (lx_encapsed_stack s) as [|snap stack] eqn:Hst; apply owp_Ret; [by apply here_refl|].
  split; [|done]. pose proof (ok_stack s Hok) as Hstack. rewrite Hst in Hstack.
  apply Forall_cons_1 in Hstack as [(? & ? & ?) ?]. destruct Hok. by split.
Qed.

Lemma wp_heredoc s : lexer_ok s -> wp (next_heredoc_token bk) s (scan_step s).
Proof.
  intros Hok. unfold next_heredoc_token, wp. destruct (is_eof s) eqn:Heof.
  { wp_run. do 4 apply wp_bind, wp_modify. apply wp_ret. split; [|by apply eof_offset].
    eapply here_trans; [|apply clear_heredoc_here]; [|eapply here_ok]; by apply unterminated_here. }
  apply (not_eof_lt s Hok) in Heof. destruct (heredoc_end_ok s Hok) as ([n|] & He & Hn);
    rewrite He; cbn [obind].
  { destruct Hn as [Hn _]. wp_run. apply wp_step_after; [by apply wp_fixed_token|]. intros t s1 [Hok1 ? ? ? ? ?].
    apply wp_bind. eapply wp_conseq; [by apply restore_here|]. intros restored s2 Hh.
    pose proof (here_ok _ _ Hh) as Hok2. apply wp_bind. destruct restored; cbn [negb].
    - by apply wp_ret, wp_ret.
    - apply wp_bind, wp_modify, wp_bind, wp_modify, wp_modify, wp_ret. split; [done|].
      eapply here_trans; [done|]. by apply clear_heredoc_here. }
  destruct (negb (lx_heredoc_nowdoc s) && lx_in_braced_interpolation s).
  { destruct (opt_is (peek s) x7d); [|by apply wp_scripting].
    wp_run. do 2 apply wp_bind, wp_modify.
    assert (Hh : here s (set_last_encapsed_variable false (set_in_braced_interpolation false s)))
      by solve_here.
    apply wp_some_scan, (wp_step_before _ _ _ Hh), wp_fixed_token; [apply Hh | done | done | done]. }
  set (r := if negb (lx_heredoc_nowdoc s) then _ else _).
  assert (Hr : owp r (fun o s1 => match o with
                                  | Some t => step s t s1
                                  | None => s1 = s /\ (lx_heredoc_nowdoc s = false -> no_interpolation s)
                                  end)).
  { unfold r. destruct (lx_heredoc_nowdoc s); cbn [negb]; [by apply owp_Ret|].
    wp_run. eapply wp_conseq; [by apply wp_interpolation|].
    intros [t|] s1; cbn; [done|]. by intros [? ?]. }
  clearbody r. destruct Hr as (o & s1 & -> & Ho). cbn [obind].
  destruct o as [t|]; [by apply owp_Ret|]. destruct Ho as [-> Hno].
  by apply wp_some_scan, wp_heredoc_text.
Qed.

(** *** Inline HTML *)

Lemma open_tag_len s off kind n :
  open_tag_at_offset s off = Some (kind, n) -> kind <> TokenKind.Eof /\ 1 <= n.
Proof.
  unfold open_tag_at_offset. repeat case_match; intros; simplify_eq; split; try done; lia.
Qed.

Lemma cursor_starts_lt s off needle :
  lexer_ok s -> needle <> [] -> cursor_starts_with_at s off needle = true ->
  offset s + off < length (lx_source s).
Proof.
  intros Hok Hne Hc. destruct needle as [|x needle]; [done|].
  unfold cursor_starts_with_at in Hc. cbn [length seq zip_with forallb] in Hc.
  apply andb_true_iff in Hc as [Hc _]. rewrite peek_n_lookup in Hc by done.
  apply opt_is_Some, lookup_lt_Some in Hc. lia.
Qed.

Lemma open_tag_lt s off :
  lexer_ok s -> is_none (open_tag_at_offset s off) = false -> offset s + off < length (lx_source s).
Proof.
  intros Hok. unfold open_tag_at_offset.
  destruct (cursor_starts_with_at s off (lit "<?=")) eqn:H1.
  { intros _. by refine (cursor_starts_lt s _ _ Hok _ H1). }
  destruct ((_ || _) && _) eqn:H2; [intros _|].
  { apply andb_true_iff in H2 as [[H2|H2]%orb_true_iff _]; by refine (cursor_starts_lt s _ _ Hok _ H2). }
  destruct (short_open_tag _ && _) eqn:H3; [intros _|done].
  apply andb_true_iff in H3 as [_ H3]. by refine (cursor_starts_lt s _ _ Hok _ H3).
Qed.

(** The bytes before the first open tag are one token. *)
Lemma wp_inline_text s :
  lexer_ok s -> offset s < length (lx_source s) -> open_tag_at_cursor s = None ->
  wp (loop (lexer_fuel s) (fun _ : unit => fun s =>
        if negb (is_eof s) && is_none (open_tag_at_cursor s) then
          olet rest := slice_from (lx_source s) (offset s) in
          match find_byte rest x3c with
          | None => (consume_len (length rest) ;;; ret (inr tt)) s
          | Some relative =>
              if relative =? 0 then (consume_len 1 ;;; ret (inl tt)) s
              else (consume_len relative ;;; ret (inl tt)) s
          end
        else ret (inr tt) s) tt) s (covers s).
Proof.
  intros Hok Hlt Htag. apply wp_scan_loop; [done | done |]. intros s1 Hok1 Hm. wp_state.
  destruct (is_eof s1) eqn:Heof; cbn [negb andb].
  { wp_run. apply wp_leave. split; [done|]. apply eof_offset in Heof; [|done].
    rewrite (moved_source _ _ Hm) in Heof. lia. }
  apply (not_eof_lt s1 Hok1) in Heof. destruct (open_tag_at_cursor s1) eqn:Ht; cbn [is_none].
  { wp_run. apply wp_leave. split; [done|]. apply moved_lt; [done | done |]. intros ->. congruence. }
  rewrite rest_ok by done. cbn [obind]. destruct (find_byte _ _) as [relative|].
  - destruct (Nat.eqb_spec relative 0); wp_run; apply wp_continue; (done || lia).
  - wp_run. apply wp_stop; [done | rewrite rest_length; lia | done |].
    intros s2 Hm2 Ho2. eapply covers_step; [done | done | by right].
Qed.

(** The token starts at the cursor, or after a byte order mark that an open
    tag follows. *)
Definition bom_skipped (s : Lexer) : bool :=
  (offset s =? 0) && starts_with (lx_source s) [xef; xbb; xbf]
  && negb (is_none (open_tag_at_offset s 3)).

Lemma wp_inline_at_cursor s :
  lexer_ok s -> offset s < length (lx_source s) ->
  wp (fun s =>
     match open_tag_at_cursor s with
     | Some (kind, len) =>
         let start := offset s in let line := lx_line s in
         (consume_len len ;;;
          modify (set_mode LexerMode.Scripting) ;;;
          let* t := token_from kind start line in ret (Some t)) s
     | None =>
         let start := offset s in let line := lx_line s in
         (loop (lexer_fuel s) (fun _ : unit => fun s =>
            if negb (is_eof s) && is_none (open_tag_at_cursor s) then
              olet rest := slice_from (lx_source s) (offset s) in
              match find_byte rest x3c with
              | None => (consume_len (length rest) ;;; ret (inr tt)) s
              | Some relative =>
                  if relative =? 0 then (consume_len 1 ;;; ret (inl tt)) s
                  else (consume_len relative ;;; ret (inl tt)) s
              end
            else ret (inr tt) s) tt ;;;
          let* t := token_from (TokenKind.Named TokenName.InlineHtml) start line in
          ret (Some t)) s
     end) s (scan_step s).
Proof.
  intros Hok Hlt. wp_state. destruct (open_tag_at_cursor s) as [[kind n]|] eqn:Htag; wp_run.
  - destruct (open_tag_len _ _ _ _ Htag) as [Hk Hn].
    apply wp_bind, wp_consume_forward; [done | done | done |]. intros s1 Hm Ho Hok1 _.
    apply wp_bind, wp_modify, (wp_some_scan (token_from kind _ _)).
    apply (wp_token_from_here _ s1); [done | done | done | done | solve_here].
  - apply wp_bind. eapply wp_conseq; [by apply wp_inline_text|]. intros [] s1 [Hm Ho].
    apply (wp_some_scan (token_from _ _ _)). by apply wp_token_from.
Qed.

(** The contract of the inline HTML scanner: after a byte order mark it is
    the contract in the state three bytes on. *)
Definition inline_step (s : Lexer) (r : option Token) (s' : Lexer) : Prop :=
  if bom_skipped s
  then offset s = 0 /\ starts_with (lx_source s) [xef; xbb; xbf] = true /\
       scan_step (with_pos s 3) r s'
  else scan_step s r s'.

Lemma wp_inline_html s :
  lexer_ok s ->
  wp next_inline_html_token s (fun r s' =>
    if is_eof s then r = None /\ s' = s else inline_step s r s').
Proof.
  intros Hok. unfold next_inline_html_token, wp. destruct (is_eof s) eqn:Heof; [by apply owp_Ret|].
  apply (not_eof_lt s Hok) in Heof.
  set (bom := if offset s =? 0 then _ else _).
  assert (Hbom : bom = Ret ((offset s =? 0) && starts_with (lx_source s) [xef; xbb; xbf])).
  { unfold bom. destruct (Nat.eqb_spec (offset s) 0) as [H0|]; [|done].
    rewrite at_cursor_spec by done. by rewrite H0. }
  rewrite Hbom. cbn [obind]. fold (bom_skipped s). wp_run. apply wp_bind. unfold inline_step.
  destruct (bom_skipped s) eqn:Hb; [|by apply wp_ret, wp_inline_at_cursor].
  unfold bom_skipped in Hb. apply andb_true_iff in Hb as [[H0%Nat.eqb_eq Hsw]%andb_true_iff Ht].
  apply negb_true_iff, open_tag_lt in Ht; [|done].
  apply wp_consume_len; [done|]. rewrite Nat.min_l by lia. rewrite H0 in *.
  eapply wp_conseq; [apply wp_inline_at_cursor|].
  - apply with_pos_ok; [done | lia].
  - rewrite with_pos_offset, with_pos_source. lia.
  - by intros r s' H.
Qed.
End Steps.
