(* ===== verification/LexerProofs.v ===== *)
(** * LexerProofs: the lexer is total, lossless and tracks lines

    The theorems about [Lexer::next_token] and [lex_all]
    ([crates/php_lexer/src/lexer.rs]). *)

From Stdlib Require Import Strings.String Strings.Byte.
From Stdlib Require Import Logic.FunctionalExtensionality.
From stdpp Require Import base list option numbers.
From S2P Require Import Prelude RustStd Simd SimdProofs ByteKernel ByteKernelProofs Source.
From S2P Require Import Token LexStrings Lexer LexerCursor LexerSteps.

(** ** One token *)

(** Where the next token starts: at the cursor, or after a byte order mark
    that an open tag follows at the start of the source. *)
Definition next_start (s : Lexer) : nat :=
  match lx_mode s with
  | LexerMode.InlineHtml => if negb (is_eof s) && bom_skipped s then 3 else offset s
  | _ => offset s
  end.

(** A call of [next_token] that returns a token of the source. *)
Record reads (s : Lexer) (t : Token) (s' : Lexer) : Prop := {
  reads_ok : lexer_ok s';
  reads_framed : framed s s';
  reads_start : offset s <= next_start s < offset s';
  reads_range : token_range t = TextRange_new (next_start s) (offset s');
  reads_line : token_line t = line_at (lx_source s) (next_start s);
  reads_not_eof : token_kind t <> TokenKind.Eof;
}.

(** A call of [next_token] at the end of the source. *)
Definition ends (s : Lexer) (r : option Token) (s' : Lexer) : Prop :=
  lexer_ok s' /\ lx_source s' = lx_source s /\ lx_config s' = lx_config s /\
  offset s' = offset s /\ offset s = length (lx_source s) /\
  if emit_eof (lx_config s) && negb (lx_emitted_eof s)
  then r = Some (mkToken TokenKind.Eof (TextRange_new (offset s) (offset s)) 1) /\
       lx_emitted_eof s' = true
  else r = None /\ lx_emitted_eof s' = lx_emitted_eof s.

Definition reads_or_ends (s : Lexer) (r : option Token) (s' : Lexer) : Prop :=
  (exists t, r = Some t /\ reads s t s') \/ ends s r s'.

Section NextToken.
Context {mc : Memchr} {laws : MemchrLaws mc} (bk : backend).

Lemma remember_here kind s : lexer_ok s -> here s (remember_significant_token kind s).
Proof.
  intros Hok. unfold remember_significant_token. repeat case_match; solve_here.
Qed.

Lemma step_reads s t s' : lexer_ok s -> next_start s = offset s -> step s t s' -> reads s t s'.
Proof.
  intros Hok Hns []. split; rewrite ?Hns; try done. rewrite step_line. by apply ok_line.
Qed.

Lemma scan_reads s r s' :
  lexer_ok s -> next_start s = offset s -> scan_step s r s' ->
  match r with
  | Some t => reads s t s'
  | None => here s s' /\ offset s = length (lx_source s)
  end.
Proof. intros Hok Hns. destruct r; [by apply step_reads | done]. Qed.

Lemma inline_reads s :
  lexer_ok s -> lx_mode s = LexerMode.InlineHtml ->
  wp next_inline_html_token s (fun r s' =>
    match r with
    | Some t => reads s t s'
    | None => here s s' /\ offset s = length (lx_source s)
    end).
Proof.
  intros Hok Hmode. eapply wp_conseq; [by apply wp_inline_html|]. intros r s'.
  destruct (is_eof s) eqn:Heof.
  { intros [-> ->]. split; [by apply here_refl | by apply eof_offset]. }
  unfold inline_step. destruct (bom_skipped s) eqn:Hb.
  - intros (H0 & _ & Hstep).
    assert (Hns : next_start s = 3) by (unfold next_start; by rewrite Hmode, Heof, Hb).
    destruct r as [t|]; cbn [scan_step] in Hstep.
    + destruct Hstep. split; rewrite ?Hns, ?H0; try done. rewrite with_pos_offset in *. lia.
    + destruct Hstep as [(Hok' & Hf & Ho & Hl) Hlen]. exfalso.
      unfold bom_skipped in Hb. apply andb_true_iff in Hb as [_ Ht%negb_true_iff].
      apply open_tag_lt in Ht; [|done]. rewrite with_pos_offset, with_pos_source in Hlen. lia.
  - apply scan_reads; [done|]. unfold next_start. by rewrite Hmode, Heof, Hb.
Qed.

Lemma mode_reads s :
  lexer_ok s ->
  wp (match lx_mode s with
      | LexerMode.InlineHtml => next_inline_html_token
      | LexerMode.Scripting => next_scripting_token bk
      | LexerMode.DoubleQuote => next_encapsed_token bk x22
      | LexerMode.Backtick => next_encapsed_token bk x60
      | LexerMode.Heredoc | LexerMode.Nowdoc => next_heredoc_token bk
      | _ => next_scripting_token bk
      end) s (fun r s' =>
    match r with
    | Some t => reads s t s'
    | None => here s s' /\ offset s = length (lx_source s)
    end).
Proof.
  intros Hok. destruct (lx_mode s) eqn:Hmode; [by apply inline_reads|..];
    (eapply wp_conseq; [|intros r s'; apply scan_reads; [done|]; unfold next_start; by rewrite Hmode]);
    first [by apply wp_scripting | by apply wp_encapsed | by apply wp_heredoc].
Qed.

Lemma reads_after s t s1 s' : reads s t s1 -> here s1 s' -> reads s t s'.
Proof.
  intros [] (Hok & Hf & Ho & Hl). split; rewrite ?Ho; try done. by eapply framed_trans.
Qed.

(** Nothing depends on [emitted_placeholder]. *)
Lemma placeholder_reads_or_ends s r s' :
  reads_or_ends (set_emitted_placeholder true s) r s' -> reads_or_ends s r s'.
Proof.
  intros [(t & -> & [])|H]; [left | by right]. eexists. split; [done|]. by split.
Qed.

Lemma next_token_reads s : lexer_ok s -> wp (next_token bk) s (reads_or_ends s).
Proof.
  intros Hok. unfold next_token, wp.
  assert (Hmain : forall s, lexer_ok s ->
    wp (let* token := match lx_mode s with
                 | LexerMode.InlineHtml => next_inline_html_token
                 | LexerMode.Scripting => next_scripting_token bk
                 | LexerMode.DoubleQuote => next_encapsed_token bk x22
                 | LexerMode.Backtick => next_encapsed_token bk x60
                 | LexerMode.Heredoc | LexerMode.Nowdoc => next_heredoc_token bk
                 | _ => next_scripting_token bk
                 end in
        match token with
        | Some token =>
            modify (remember_significant_token (token_kind token)) ;;; ret (Some token)
        | None => fun s =>
            if emit_eof (lx_config s) && negb (lx_emitted_eof s) then
              (modify (set_emitted_eof true) ;;;
               let* off := gets offset in
               ret (Some (mkToken TokenKind.Eof (TextRange_new off off) 1))) s
            else Ret (None, s)
        end) s (reads_or_ends s)).
  { clear s Hok. intros s Hok. apply wp_bind. eapply wp_conseq; [by apply mode_reads|].
    intros [t|] s1.
    - intros Ht. apply wp_bind, wp_modify, wp_ret. left. eexists. split; [done|].
      eapply reads_after; [done|]. apply remember_here, Ht.
    - intros [(Hok1 & (Hs & Hc & He) & Ho & Hl) Hlen]. wp_state. rewrite Hc, He. unfold reads_or_ends, ends.
      destruct (emit_eof (lx_config s) && negb (lx_emitted_eof s)).
      + wp_run. apply wp_bind, wp_modify, wp_bind, wp_gets, wp_ret. right.
        change (offset (set_emitted_eof true s1)) with (offset s1). rewrite Ho.
        split; [by destruct Hok1|]. done.
      + apply owp_Ret. right. done. }
  destruct (lx_emitted_placeholder s); cbn [negb]; [by apply Hmain|].
  eapply wp_conseq; [apply Hmain; by destruct Hok|]. apply placeholder_reads_or_ends.
Qed.
End NextToken.

(** ** Whole sources *)

Definition skipped_bom (source : bytes) (config : LexerConfig) : nat :=
  if bom_skipped (Lexer_new source config) then 3 else 0.

Definition tok_start (t : Token) : nat := to_usize (Source.start (token_range t)).
Definition tok_end (t : Token) : nat := to_usize (end_ (token_range t)).

(** The tokens cover [a .. c] without gap or overlap, each with a byte or more. *)
Fixpoint tiles (a : nat) (ts : list Token) (c : nat) : Prop :=
  match ts with
  | [] => a = c
  | t :: ts => tok_start t = a /\ a < tok_end t /\ tiles (tok_end t) ts c
  end.

Definition token_bytes (source : bytes) (t : Token) : bytes :=
  drop (tok_start t) (take (tok_end t) source).

Lemma tiles_app a ts1 ts2 c : tiles a (ts1 ++ ts2) c <-> exists m, tiles a ts1 m /\ tiles m ts2 c.
Proof.
  revert a. induction ts1 as [|t ts1 IH]; intros a; cbn.
  - split; [by exists a | by intros (m & -> & ?)].
  - rewrite IH. naive_solver.
Qed.

Lemma tiles_le a ts c : tiles a ts c -> a <= c.
Proof.
  revert a. induction ts as [|t ts IH]; intros a; cbn; [lia|]. intros (_ & Hlt & H%IH). lia.
Qed.

Lemma tiles_text source a ts c :
  tiles a ts c -> c <= length source ->
  concat (token_bytes source <$> ts) = drop a (take c source).
Proof.
  revert a. induction ts as [|t ts IH]; intros a; cbn [tiles fmap list_fmap concat].
  - intros -> Hc. rewrite drop_ge; [done|]. rewrite length_take. lia.
  - intros (Ha & Hlt & Ht) Hc. pose proof (tiles_le _ _ _ Ht) as Hle.
    rewrite (IH _ Ht Hc). unfold token_bytes. rewrite Ha.
    rewrite <- (take_drop (tok_end t - a) (drop a (take c source))).
    rewrite drop_drop, take_drop_commute, take_take.
    replace (a + (tok_end t - a)) with (tok_end t) by lia.
    by replace (tok_end t `min` c) with (tok_end t) by lia.
Qed.

Lemma range_start a c : to_usize (Source.start (TextRange_new a c)) = a.
Proof. done. Qed.

Lemma range_end a c : a <= c -> to_usize (end_ (TextRange_new a c)) = c.
Proof.
  intros H. unfold TextRange_new. cbn [to_usize end_]. by rewrite (proj2 (Nat.ltb_ge _ _) H).
Qed.

Definition eof_token (source : bytes) : Token :=
  mkToken TokenKind.Eof (TextRange_new (length source) (length source)) 1.

Definition source_token_ok (source : bytes) (t : Token) : Prop :=
  token_kind t <> TokenKind.Eof /\ token_line t = line_at source (tok_start t).

Section LexAll.
Context {mc : Memchr} {laws : MemchrLaws mc} (bk : backend).
Context (source : bytes) (config : LexerConfig).
Context (Hsize : (N.of_nat (length source) + 1 < 2 ^ 32)%N).

Lemma Lexer_new_ok : lexer_ok (Lexer_new source config).
Proof. split; try done; cbn; lia. Qed.

Lemma next_start_offset s :
  0 < offset s \/ is_eof s = true -> next_start s = offset s.
Proof.
  intros H. unfold next_start. destruct (lx_mode s); try done.
  destruct H as [H| ->]; [|done]. unfold bom_skipped.
  destruct (Nat.eqb_spec (offset s) 0); [lia|]. by rewrite andb_false_r.
Qed.

Lemma next_start_new : next_start (Lexer_new source config) = skipped_bom source config.
Proof.
  unfold next_start, skipped_bom. cbn [lx_mode Lexer_new].
  destruct (bom_skipped (Lexer_new source config)) eqn:Hb; [|by rewrite andb_false_r].
  unfold bom_skipped in Hb. apply andb_true_iff in Hb as [_ Ht%negb_true_iff].
  apply open_tag_lt in Ht; [|by apply Lexer_new_ok].
  rewrite is_eof_spec by apply Lexer_new_ok. by rewrite (proj2 (Nat.leb_gt _ _)) by (cbn in *; lia).
Qed.

(** The state between two calls of [next_token] in [lex_all]. *)
Record lex_inv (acc : list Token) (s : Lexer) : Prop := {
  inv_ok : lexer_ok s;
  inv_source : lx_source s = source;
  inv_config : lx_config s = config;
  inv_eof : lx_emitted_eof s = true -> emit_eof config = true /\ offset s = length source;
  inv_acc : exists body,
    acc = body ++ (if lx_emitted_eof s then [eof_token source] else []) /\
    tiles (skipped_bom source config) body (next_start s) /\
    Forall (source_token_ok source) body;
}.

Lemma lex_inv_new : lex_inv [] (Lexer_new source config).
Proof.
  split; try done; [by apply Lexer_new_ok|]. exists []. split; [done|].
  cbn [tiles]. split; [by rewrite next_start_new | done].
Qed.

Lemma lex_inv_reads acc s t s' : lex_inv acc s -> reads s t s' -> lex_inv (acc ++ [t]) s'.
Proof.
  intros [Hok Hs Hc He (body & -> & Htiles & Hbody)] [Hok' (Hs' & Hc' & He') Hst Hr Hl Hk].
  assert (Hno : lx_emitted_eof s = false).
  { apply not_true_iff_false. intros [_ Ho]%He. pose proof (ok_offset s' Hok') as Hle.
    rewrite Hs', Hs in Hle. lia. }
  rewrite Hno in *.
  assert (Hts : tok_start t = next_start s) by (unfold tok_start; by rewrite Hr).
  assert (Hte : tok_end t = offset s') by (unfold tok_end; rewrite Hr; apply range_end; lia).
  split; [done | congruence | congruence | rewrite He'; done |].
  exists (body ++ [t]). rewrite He', !app_nil_r. split; [done|].
  rewrite (next_start_offset s') by (left; lia). split.
  - apply tiles_app. exists (next_start s). split; [done|]. cbn. rewrite Hts, Hte. split; [done|].
    split; [lia | done].
  - apply Forall_app. split; [done|]. apply Forall_singleton. split; [done|].
    by rewrite Hl, Hs, Hts.
Qed.

Lemma lex_inv_eof acc s t s' :
  lex_inv acc s -> ends s (Some t) s' ->
  lex_inv (acc ++ [t]) s' /\ lx_emitted_eof s = false /\ lx_emitted_eof s' = true /\
  offset s' = offset s.
Proof.
  intros [Hok Hs Hc He (body & -> & Htiles & Hbody)] (Hok' & Hs' & Hc' & Ho & Hlen & Hif).
  destruct (emit_eof (lx_config s)) eqn:Hemit, (lx_emitted_eof s) eqn:Hno; cbn [andb negb] in Hif;
    destruct Hif as [Hif Hif']; try done. injection Hif as ->.
  assert (Heof : forall s1, lexer_ok s1 -> offset s1 = length (lx_source s1) -> is_eof s1 = true).
  { intros s1 Hok1 H1. rewrite is_eof_spec by done. apply Nat.leb_le. lia. }
  split; [|done].
  split; [done | congruence | congruence | intros _; split; [congruence | rewrite Ho; congruence] |].
  exists body. rewrite Hif'. rewrite app_nil_r.
  split; [f_equal; unfold eof_token; by rewrite Hlen, Hs|].
  split; [|done]. rewrite next_start_offset in * by (right; apply Heof; [done|congruence]).
  by rewrite Ho.
Qed.

Definition lexed (r : LexResult) : Prop :=
  exists body,
    tokens r = body ++ (if emit_eof config then [eof_token source] else []) /\
    tiles (skipped_bom source config) body (length source) /\
    Forall (source_token_ok source) body /\
    Forall (fun d => span_within (diag_span d) (length source)) (diagnostics r).

Lemma lex_inv_end acc s s' :
  lex_inv acc s -> ends s None s' -> lexed (mkLexResult acc (lx_diagnostics s')).
Proof.
  intros [Hok Hs Hc He (body & -> & Htiles & Hbody)] (Hok' & Hs' & Hc' & Ho & Hlen & Hif).
  exists body. cbn [tokens diagnostics]. split; [|split; [|split; [done|]]].
  - rewrite Hc in Hif. destruct (lx_emitted_eof s) eqn:Hno.
    + by destruct (He eq_refl) as [-> _].
    + destruct (emit_eof config); [|done]. by destruct Hif.
  - rewrite next_start_offset in Htiles; [congruence|]. right. rewrite is_eof_spec by done.
    apply Nat.leb_le. lia.
  - pose proof (ok_diagnostics s' Hok') as Hd. by rewrite Hs', Hs in Hd.
Qed.

Lemma lex_all_lexed : exists r, lex_all bk source config = Ret r /\ lexed r.
Proof.
  unfold lex_all. cbv zeta.
  match goal with |- context [loop ?n ?body [] ?s0] =>
    assert (Hrun : wp (loop n body []) s0 (fun acc s => lexed (mkLexResult acc (lx_diagnostics s)))) end.
  { apply (wp_loop lex_inv (fun _ s => length source - offset s + if lx_emitted_eof s then 0 else 1)).
    - intros acc s Hinv. apply wp_bind. pose proof (inv_source _ _ Hinv) as Hs.
      eapply wp_conseq; [by apply next_token_reads, Hinv|].
      intros r s' [(t & -> & Ht)|Hend]; apply wp_ret.
      + split; [by eapply lex_inv_reads|]. destruct Ht as [Hok' (Hs' & _ & He') Hst _ _ _].
        pose proof (ok_offset s' Hok') as Hle. rewrite Hs', Hs in Hle. rewrite He'. lia.
      + destruct r as [t|]; [|by eapply lex_inv_end].
        destruct (lex_inv_eof _ _ _ _ Hinv Hend) as (Hinv' & -> & -> & ->). split; [done | lia].
    - apply lex_inv_new.
    - unfold lexer_fuel. cbn. lia. }
  destruct Hrun as (acc & s & -> & H). cbn [obind]. eauto.
Qed.
End LexAll.

Section Claims.
Context {mc : Memchr} {laws : MemchrLaws mc} (bk : backend).
Context (source : bytes) (config : LexerConfig).

(** C1: Lexing is total and lossless: for every byte string that is shorter
    than the 32-bit line counter, [lex_all] returns, it neither panics nor
    loops, and the texts of the tokens it returns, put one after the other,
    are the source again.  Only a byte order mark that an open tag follows at
    the very start is left out. *)
Theorem lex_all_lossless (Hsize : (N.of_nat (length source) + 1 < 2 ^ 32)%N) :
  exists r, lex_all bk source config = Ret r /\
    concat (token_bytes source <$> tokens r) = drop (skipped_bom source config) source.
Proof.
  destruct (lex_all_lexed bk source config Hsize) as (r & Hr & body & Htok & Ht & _).
  exists r. split; [done|]. rewrite Htok, fmap_app, concat_app.
  rewrite (tiles_text _ _ _ _ Ht) by done. rewrite take_ge by done.
  destruct (emit_eof config); [|by rewrite app_nil_r].
  cbn [fmap list_fmap concat]. unfold token_bytes at 1, tok_start, tok_end, eof_token.
  cbn [token_range]. rewrite range_start, range_end by done.
  by rewrite take_ge, drop_all, !app_nil_r by done.
Qed.

(** C2: The tokens tile the source: each starts where the one before ends and
    has at least one byte, the first starts at the start of the source (after
    a skipped byte order mark), the last ends at its end.  The end-of-file
    token is there exactly when the configuration asks for it, once and last;
    it is empty, and its line is always 1. *)
Theorem lex_all_tiles (Hsize : (N.of_nat (length source) + 1 < 2 ^ 32)%N) :
  exists r body, lex_all bk source config = Ret r /\
    tokens r = body ++ (if emit_eof config then [eof_token source] else []) /\
    tiles (skipped_bom source config) body (length source) /\
    Forall (fun t => token_kind t <> TokenKind.Eof) body.
Proof.
  destruct (lex_all_lexed bk source config Hsize) as (r & Hr & body & Htok & Ht & Hb & _).
  exists r, body. split; [done|]. split; [done|]. split; [done|].
  eapply Forall_impl; [|exact Hb]. by intros t [H _].
Qed.

(** Every token but the end-of-file token carries the one-based line on
    which it starts, where a carriage return, a line feed and the pair of the
    two each end one line. *)
Theorem lex_all_lines (Hsize : (N.of_nat (length source) + 1 < 2 ^ 32)%N) :
  exists r, lex_all bk source config = Ret r /\
    Forall (fun t => token_kind t = TokenKind.Eof \/ token_line t = line_at source (tok_start t))
      (tokens r).
Proof.
  destruct (lex_all_lexed bk source config Hsize) as (r & Hr & body & Htok & _ & Hb & _).
  exists r. split; [done|]. rewrite Htok. apply Forall_app. split.
  - eapply Forall_impl; [|exact Hb]. intros t [_ H]. by right.
  - destruct (emit_eof config); [|done]. apply Forall_singleton. by left.
Qed.

(** Every diagnostic of [lex_all] points at a stretch of the source: its
    span is ordered and ends within the source. *)
Theorem lex_all_diagnostics (Hsize : (N.of_nat (length source) + 1 < 2 ^ 32)%N) :
  exists r, lex_all bk source config = Ret r /\
    Forall (fun d => span_within (diag_span d) (length source)) (diagnostics r).
Proof.
  destruct (lex_all_lexed bk source config Hsize) as (r & Hr & body & _ & _ & _ & Hd). eauto.
Qed.
End Claims.

(** ** Reachable states *)

Section Reachable.
Context {mc : Memchr} (bk : backend) (source : bytes) (config : LexerConfig).

(** The states of a lexer made for [source] on which [next_token] is called
    any number of times. *)
Inductive reachable : Lexer -> Prop :=
| reachable_new : reachable (Lexer_new source config)
| reachable_next s r s' : reachable s -> next_token bk s = Ret (r, s') -> reachable s'.
End Reachable.

(** C4: The lexer's state machine: in every state that calls of [next_token]
    reach, the next call returns; the mode is one of the six that the scanner
    implements, so the modes [StringVarOffset] and [LookingForVarName] are never
    entered; in heredoc and nowdoc mode a label is set and the nowdoc flag
    agrees with the mode; and the current line is that of the cursor. *)
Theorem reachable_states {mc : Memchr} {laws : MemchrLaws mc} bk source config s
    (Hsize : (N.of_nat (length source) + 1 < 2 ^ 32)%N)
    (Hreach : reachable bk source config s) :
  (exists r s', next_token bk s = Ret (r, s')) /\
  mode_ok (lx_mode s) (lx_heredoc_label s) (lx_heredoc_nowdoc s) /\
  lx_source s = source /\ offset s <= length source /\ lx_line s = line_at source (offset s).
Proof.
  assert (H : lexer_ok s /\ lx_source s = source).
  { induction Hreach as [|s r s' _ [Hok Hs] Hnext]; [by split; [apply Lexer_new_ok|]|].
    destruct (next_token_reads bk s Hok) as (r1 & s1 & Hrun & Hpost).
    rewrite Hnext in Hrun. injection Hrun as <- <-.
    destruct Hpost as [(t & _ & [Hok' (Hs' & _) _ _ _ _])|(Hok' & Hs' & _)];
      (split; [done | congruence]). }
  destruct H as [Hok Hs]. destruct (next_token_reads bk s Hok) as (r & s' & Hrun & _).
  pose proof (ok_offset s Hok) as Ho. pose proof (ok_line s Hok) as Hl. rewrite Hs in Ho, Hl.
  split; [eauto|]. split; [apply (ok_mode s Hok) | done].
Qed.

(** ** Independence of the search backends *)

Section Backends.
Context {mc1 mc2 : Memchr} {laws1 : MemchrLaws mc1} {laws2 : MemchrLaws mc2}.

Lemma find_byte_same : @find_byte mc1 = @find_byte mc2.
Proof.
  extensionality l. extensionality n. by rewrite !find_byte_position.
Qed.

Lemma find_any2_same : @find_any2 mc1 = @find_any2 mc2.
Proof.
  extensionality l. extensionality n1. extensionality n2. by rewrite !find_any2_position.
Qed.

Lemma find_any3_same : @find_any3 mc1 = @find_any3 mc2.
Proof.
  extensionality l. extensionality n1. extensionality n2. extensionality n3.
  by rewrite !find_any3_position.
Qed.

Lemma chunk_len_same bk1 bk2 :
  Arch.ascii_identifier_continue_chunk_len bk1 = Arch.ascii_identifier_continue_chunk_len bk2.
Proof. extensionality l. by rewrite !arch_chunk_len. Qed.

Lemma scan_string_same : @scan_constant_encapsed_string mc1 = @scan_constant_encapsed_string mc2.
Proof.
  unfold scan_constant_encapsed_string, scan_single_quoted, scan_double_quoted,
    scan_single_quoted_loop, scan_double_quoted_loop.
  by rewrite find_byte_same, find_any2_same, find_any3_same.
Qed.

(** Every method below uses the searches through methods above it. *)
Lemma consume_len_same : @consume_len mc1 = @consume_len mc2.
Proof. unfold consume_len, advance_line_for_range. by rewrite find_any2_same. Qed.

Lemma fixed_token_same : @consume_fixed_token mc1 = @consume_fixed_token mc2.
Proof. unfold consume_fixed_token. by rewrite consume_len_same. Qed.

Lemma identifier_bytes_same bk1 bk2 :
  @consume_identifier_bytes mc1 bk1 = @consume_identifier_bytes mc2 bk2.
Proof.
  unfold consume_identifier_bytes. by rewrite consume_len_same, (chunk_len_same bk1 bk2).
Qed.

Lemma number_same : @consume_number mc1 = @consume_number mc2.
Proof.
  unfold consume_number, consume_exponent_if_present, consume_digit_sequence.
  by rewrite consume_len_same.
Qed.

Lemma comments_same :
  @consume_line_comment mc1 = @consume_line_comment mc2 /\
  @consume_block_comment mc1 = @consume_block_comment mc2.
Proof.
  unfold consume_line_comment, consume_block_comment.
  by rewrite consume_len_same, find_byte_same, find_any2_same.
Qed.

Lemma variable_same : @consume_variable_or_dollar mc1 = @consume_variable_or_dollar mc2.
Proof. unfold consume_variable_or_dollar. by rewrite consume_len_same. Qed.

Lemma scripting_same bk1 bk2 : @next_scripting_token mc1 bk1 = @next_scripting_token mc2 bk2.
Proof.
  unfold next_scripting_token, consume_remaining_inline_html, consume_while_token,
    consume_constant_string_if_available, consume_heredoc_start_if_available, consume_yield_from,
    consume_qualified_name, consume_identifier_or_name, consume_ampersand.
  destruct comments_same as [-> ->].
  by rewrite consume_len_same, fixed_token_same, (identifier_bytes_same bk1 bk2), number_same,
    variable_same, scan_string_same.
Qed.

Lemma interpolation_same bk1 bk2 : @interpolation_token mc1 bk1 = @interpolation_token mc2 bk2.
Proof.
  unfold interpolation_token, consume_identifier_token, consume_num_string.
  by rewrite consume_len_same, fixed_token_same, (identifier_bytes_same bk1 bk2), variable_same.
Qed.

Lemma next_token_same bk1 bk2 : @next_token mc1 bk1 = @next_token mc2 bk2.
Proof.
  unfold next_token, next_inline_html_token, next_encapsed_token, next_heredoc_token,
    next_interpolation_token_without_delimiter, consume_encapsed_text, consume_heredoc_text,
    consume_escaped_or_byte.
  by rewrite consume_len_same, fixed_token_same, (scripting_same bk1 bk2),
    (interpolation_same bk1 bk2), find_byte_same.
Qed.

Lemma lex_all_same bk1 bk2 : @lex_all mc1 bk1 = @lex_all mc2 bk2.
Proof. unfold lex_all. by rewrite (next_token_same bk1 bk2). Qed.

(** C5: What the lexer returns depends neither on the SIMD backend chosen at
    run time nor on the implementation of the search crate: with any backend
    and any two implementations that meet the crate's contract, [lex_all]
    returns the same tokens and diagnostics. *)
Theorem lex_all_backend_independent bk1 bk2 source config :
  @lex_all mc1 bk1 source config = @lex_all mc2 bk2 source config.
Proof. by rewrite (lex_all_same bk1 bk2). Qed.
End Backends.

(** ** Concrete sources *)

Definition sample_config : LexerConfig := mkLexerConfig false false true.

Definition newline : bytes := [x0a].

(** A byte order mark, an open tag, a comment, an interpolated string and a
    heredoc, on several lines. *)
Definition sample_source : bytes :=
  [xef; xbb; xbf] ++ lit "<?php // note" ++ newline ++ lit "echo 'a' . " ++ [x22] ++ lit "b $c" ++ [x22; x3b] ++ newline
  ++ lit "$d = <<<EOT" ++ newline ++ lit "x {$y} z" ++ newline ++ lit "EOT;" ++ newline.

Lemma lex_all_lossless_witness :
  skipped_bom sample_source sample_config = 3 /\
  exists r, lex_all (mc := memchr_naive) BScalar sample_source sample_config = Ret r /\
    concat (token_bytes sample_source <$> tokens r) =
    drop (skipped_bom sample_source sample_config) sample_source.
Proof.
  split; [vm_compute; reflexivity|].
  apply (lex_all_lossless (laws := memchr_naive_laws)). vm_compute. reflexivity.
Defined.

Lemma lex_all_tiles_witness :
  exists r body, lex_all (mc := memchr_naive) BScalar sample_source sample_config = Ret r /\
    tokens r = body ++ [eof_token sample_source] /\
    tiles 3 body (length sample_source) /\
    Forall (fun t => token_kind t <> TokenKind.Eof) body.
Proof.
  apply (lex_all_tiles (laws := memchr_naive_laws) BScalar sample_source sample_config).
  vm_compute. reflexivity.
Defined.

Lemma lex_all_lines_witness :
  exists r, lex_all (mc := memchr_naive) BScalar sample_source sample_config = Ret r /\
    Forall (fun t => token_kind t = TokenKind.Eof \/
                     token_line t = line_at sample_source (tok_start t)) (tokens r).
Proof.
  apply (lex_all_lines (laws := memchr_naive_laws)). vm_compute. reflexivity.
Defined.

Lemma lex_all_diagnostics_witness :
  exists r, lex_all (mc := memchr_naive) BScalar (lit "<?php /* open") sample_config = Ret r /\
    Forall (fun d => span_within (diag_span d) 13) (diagnostics r).
Proof.
  apply (lex_all_diagnostics (laws := memchr_naive_laws) BScalar (lit "<?php /* open")).
  vm_compute. reflexivity.
Defined.

Lemma reachable_states_witness :
  mode_ok LexerMode.InlineHtml None false /\
  exists r s', next_token (mc := memchr_naive) BScalar (Lexer_new sample_source sample_config)
               = Ret (r, s').
Proof.
  pose proof (reachable_states (laws := memchr_naive_laws) BScalar sample_source sample_config
    (Lexer_new sample_source sample_config) ltac:(vm_compute; reflexivity)
    (reachable_new _ _ _)) as (H1 & H2 & _).
  split; [exact H2 | exact H1].
Defined.

Lemma lex_all_backend_independent_witness :
  lex_all (mc := memchr_naive) BAvx2 sample_source sample_config =
  lex_all (mc := memchr_naive) BScalar sample_source sample_config.
Proof.
  exact (lex_all_backend_independent (laws1 := memchr_naive_laws) (laws2 := memchr_naive_laws)
           BAvx2 BScalar sample_source sample_config).
Defined.

(** ** A heredoc that loses its mode *)

(** A heredoc with a backtick string inside a braced interpolation:
<<
<?php $x = <<<EOT
a {$b[`ls`]} c
EOT;
>> *)
Definition heredoc_backtick_source : bytes :=
  lit "<?php $x = <<<EOT" ++ newline ++ lit "a {$b[`ls`]} c" ++ newline ++ lit "EOT;".

Definition token_kinds (r : LexResult) : list TokenKind.t := token_kind <$> tokens r.

(** The end of a backtick string always returns to scripting mode, also
    when the string is part of an interpolation inside a heredoc: the rest of
    the heredoc's body is then read as code, its closing label comes out as an
    identifier, no end-of-heredoc token is produced and nothing is reported.
    Without the backtick string the closing label ends the heredoc. *)
Theorem heredoc_mode_lost {mc : Memchr} {laws : MemchrLaws mc} bk :
  (exists r, lex_all bk heredoc_backtick_source sample_config = Ret r /\
     existsb (fun k => bool_decide (k = TokenKind.Named TokenName.StartHeredoc)) (token_kinds r) = true /\
     existsb (fun k => bool_decide (k = TokenKind.Named TokenName.EndHeredoc)) (token_kinds r) = false /\
     diagnostics r = []) /\
  (exists r, lex_all bk sample_source sample_config = Ret r /\
     existsb (fun k => bool_decide (k = TokenKind.Named TokenName.EndHeredoc)) (token_kinds r) = true).
Proof.
  rewrite (lex_all_same (mc2 := memchr_naive) bk BScalar).
  split; eexists; (split; [vm_compute; reflexivity|]); repeat split; vm_compute; reflexivity.
Qed.

Lemma heredoc_mode_lost_witness :
  exists r, lex_all (mc := memchr_naive) BScalar heredoc_backtick_source sample_config = Ret r /\
    diagnostics r = [].
Proof.
  destruct (heredoc_mode_lost (laws := memchr_naive_laws) BScalar) as [(r & Hr & _ & _ & Hd) _].
  exists r. split; [exact Hr | exact Hd].
Defined.
