(* ===== verification/LexerTokens.v ===== *)
(** * LexerTokens: what the lexer's recognisers accept

    Functional specifications of the parts of
    [crates/php_lexer/src/lexer.rs] that decide which token is read: integer
    literals, operators, comments, identifiers and inline HTML. *)

From Stdlib Require Import Strings.String Strings.Byte.
From stdpp Require Import base list option numbers.
From S2P Require Import Prelude RustStd Simd SimdProofs ByteKernel ByteKernelProofs Source.
From S2P Require Import Token LexStrings Lexer LexerCursor LexerSteps.

(** ** Integer literals *)

Definition digit (x : byte) : N := (u8 x - 48)%N.

(** The number that a string of digits denotes in base [b]. *)
Fixpoint digits_value (b : N) (l : bytes) : N :=
  match l with
  | [] => 0
  | x :: l => (digit x * b ^ N.of_nat (length l) + digits_value b l)%N
  end.

Definition is_digit_in (b : N) (x : byte) : Prop := (48 <= u8 x < 48 + b)%N.

Section Digits.
Context (b : N) (Hb : (2 <= b)%N).

Lemma pow_pos n : (1 <= b ^ N.of_nat n)%N.
Proof. pose proof (N.pow_nonzero b (N.of_nat n)). lia. Qed.

Lemma pow_succ n : (b ^ N.of_nat (S n) = b * b ^ N.of_nat n)%N.
Proof. by rewrite Nat2N.inj_succ, N.pow_succ_r'. Qed.

Lemma digits_value_lt l :
  Forall (is_digit_in b) l -> (digits_value b l < b ^ N.of_nat (length l))%N.
Proof.
  induction 1 as [|x l Hx _ IH]; [cbn; lia|]. cbn [digits_value length]. rewrite pow_succ.
  unfold is_digit_in, digit in *. pose proof (pow_pos (length l)). nia.
Qed.

Lemma digits_value_ge x l :
  is_digit_in b x -> x <> x30 -> (b ^ N.of_nat (length l) <= digits_value b (x :: l))%N.
Proof.
  intros Hx Hne. cbn [digits_value]. unfold is_digit_in, digit in *.
  assert (u8 x <> 48)%N by (intros H; apply Hne; clear -H; by destruct x).
  pose proof (pow_pos (length l)). nia.
Qed.

Lemma bytes_gtb_value l r :
  Forall (is_digit_in b) l -> Forall (is_digit_in b) r -> length l = length r ->
  bytes_gtb l r = (digits_value b r <? digits_value b l)%N.
Proof.
  intros Hl. revert r. induction Hl as [|x l Hx Hl IH]; intros [|y r] Hr Hlen; try done.
  cbn in Hlen. apply Forall_cons_1 in Hr as [Hy Hr]. injection Hlen as Hlen.
  cbn [bytes_gtb digits_value]. rewrite Hlen.
  pose proof (digits_value_lt l Hl) as H1. pose proof (digits_value_lt r Hr) as H2.
  rewrite Hlen in H1. unfold is_digit_in, digit in *.
  destruct (N.eqb_spec (u8 x) (u8 y)) as [He|He].
  - rewrite (IH r Hr Hlen), He. apply eq_true_iff_eq. rewrite !N.ltb_lt. lia.
  - apply eq_true_iff_eq. rewrite !N.ltb_lt. split; intros H.
    + nia.
    + destruct (N.lt_ge_cases (u8 y) (u8 x)) as [|Hge]; [done|]. nia.
Qed.

Definition strip_zeros (l : bytes) : bytes :=
  match RustStd.position (fun x => negb (x =b x30)) l with Some i => drop i l | None => [] end.

Lemma strip_zeros_cons x l :
  strip_zeros (x :: l) = if negb (x =b x30) then x :: l else strip_zeros l.
Proof.
  unfold strip_zeros. cbn [RustStd.position]. destruct (negb (x =b x30)); [done|].
  by destruct (RustStd.position _ l).
Qed.

(** Leading zeros do not count, and what is left starts with another digit. *)
Lemma strip_zeros_ok l :
  Forall (is_digit_in b) l ->
  Forall (is_digit_in b) (strip_zeros l) /\ digits_value b (strip_zeros l) = digits_value b l /\
  match strip_zeros l with x :: _ => x <> x30 | [] => True end.
Proof.
  induction 1 as [|x l Hx Hl IH]; [done|]. rewrite strip_zeros_cons.
  destruct (x =b x30) eqn:Hz; cbn [negb].
  - apply beq_eq in Hz as ->. destruct IH as (H1 & H2 & H3). split; [done|]. split; [|done].
    rewrite H2. cbn [digits_value]. change (digit x30) with 0%N. lia.
  - apply beq_neq in Hz. split; [by constructor | done].
Qed.

Lemma digit_sequence_exceeds_value l max :
  Forall (is_digit_in b) l -> Forall (is_digit_in b) max ->
  match max with x :: _ => x <> x30 | [] => True end ->
  digit_sequence_exceeds l max = (digits_value b max <? digits_value b l)%N.
Proof.
  intros Hl Hm Hne. unfold digit_sequence_exceeds. fold (strip_zeros l).
  destruct (strip_zeros_ok l Hl) as (Hs & Hv & Hs0). rewrite <- Hv.
  clear Hv Hl. revert Hs Hs0. generalize (strip_zeros l). clear l. intros l Hl H0.
  pose proof (digits_value_lt l Hl) as H1. pose proof (digits_value_lt max Hm) as H2.
  destruct (Nat.ltb_spec (length max) (length l)) as [Hlt|Hge]; cbn [orb].
  - symmetry. apply N.ltb_lt. destruct l as [|x l]; [cbn in Hlt; lia|].
    apply Forall_cons_1 in Hl as [Hx _]. pose proof (digits_value_ge x l Hx H0).
    assert (b ^ N.of_nat (length max) <= b ^ N.of_nat (length l))%N
      by (apply N.pow_le_mono_r; cbn in Hlt; lia). lia.
  - destruct (Nat.eqb_spec (length l) (length max)) as [He|He]; cbn [andb].
    + by apply bytes_gtb_value.
    + symmetry. apply N.ltb_ge. destruct max as [|y max]; [cbn in *; lia|].
      apply Forall_cons_1 in Hm as [Hy _]. pose proof (digits_value_ge y max Hy Hne).
      assert (b ^ N.of_nat (length l) <= b ^ N.of_nat (length max))%N
        by (apply N.pow_le_mono_r; cbn in *; lia). lia.
Qed.
End Digits.

(** The digits of a literal, without the separators. *)
Definition literal_digits (l : bytes) : bytes := List.filter (fun x => negb (x =b x5f)) l.

Lemma literal_digits_in b l :
  Forall (fun x => x = x5f \/ is_digit_in b x) l -> Forall (is_digit_in b) (literal_digits l).
Proof.
  induction 1 as [|x l Hx _ IH]; [done|]. cbn. destruct (x =b x5f) eqn:Hu; cbn [negb]; [done|].
  apply beq_neq in Hu. constructor; [by destruct Hx | done].
Qed.

Lemma digits_in_bool b l :
  forallb (fun x => (48 <=? u8 x) && (u8 x <? 48 + b))%N l = true -> Forall (is_digit_in b) l.
Proof.
  intros H. apply Forall_forall. intros x Hx. rewrite forallb_forall in H.
  apply H, andb_true_iff in Hx as [?%N.leb_le ?%N.ltb_lt]. done.
Qed.

Lemma literal_in_bool b l :
  forallb (fun x => (x =b x5f) || ((48 <=? u8 x) && (u8 x <? 48 + b))%N) l = true ->
  Forall (fun x => x = x5f \/ is_digit_in b x) l.
Proof.
  intros H. apply Forall_forall. intros x Hx. rewrite forallb_forall in H.
  apply H, orb_true_iff in Hx as [->%beq_eq|Hx]; [by left | right].
  by apply andb_true_iff in Hx as [?%N.leb_le ?%N.ltb_lt].
Qed.

Lemma octal_digits_in l : forallb is_octal_digit l = true -> Forall (is_digit_in 8) l.
Proof.
  intros H. apply digits_in_bool. rewrite <- H. clear H.
  assert (Hx : forall x, ((48 <=? u8 x) && (u8 x <? 48 + 8))%N = is_octal_digit x) by by_bytes.
  induction l as [|x l IH]; [done|]. cbn [forallb]. by rewrite Hx, IH.
Qed.

(** An integer literal becomes a float token exactly when it does not fit a
    64-bit signed integer: for a decimal literal, and for an octal one with a
    leading zero, [integer_literal_overflows] compares the number it denotes,
    separators left out, with [2^63 - 1]. *)
Theorem integer_literal_overflows_correct l
    (Hdigits : Forall (fun x => x = x5f \/ is_digit_in 10 x) l) :
  if starts_with l (lit "0") && (1 <? length l)
  then forallb is_octal_digit (literal_digits (drop 1 l)) = true ->
       integer_literal_overflows l = (2 ^ 63 - 1 <? digits_value 8 (literal_digits l))%N
  else integer_literal_overflows l = (2 ^ 63 - 1 <? digits_value 10 (literal_digits l))%N.
Proof.
  unfold integer_literal_overflows. destruct (starts_with l (lit "0") && (1 <? length l)) eqn:Hz.
  - fold (literal_digits (drop 1 l)). intros Hoct. rewrite Hoct.
    apply andb_true_iff in Hz as [[rest ->]%starts_with_spec _]. cbn [app drop lit] in *.
    rewrite (digit_sequence_exceeds_value 8); [|lia|by apply octal_digits_in| |done].
    + reflexivity.
    + apply octal_digits_in. by vm_compute.
  - fold (literal_digits l). rewrite (digit_sequence_exceeds_value 10); [done|lia| | |done].
    + by apply literal_digits_in.
    + apply digits_in_bool. by vm_compute.
Qed.

Lemma integer_literal_overflows_correct_witness :
  integer_literal_overflows (lit "9_223_372_036_854_775_808") = true /\
  integer_literal_overflows (lit "9223372036854775807") = false.
Proof.
  pose proof (integer_literal_overflows_correct (lit "9_223_372_036_854_775_808")) as H1.
  pose proof (integer_literal_overflows_correct (lit "9223372036854775807")) as H2.
  split.
  - refine (eq_trans (H1 _) _); [|vm_compute; reflexivity].
    apply literal_in_bool. vm_compute. reflexivity.
  - refine (eq_trans (H2 _) _); [|vm_compute; reflexivity].
    apply literal_in_bool. vm_compute. reflexivity.
Defined.

(** ** Operators *)

(** No entry of the table is a proper prefix of a later one. *)
Fixpoint longest_first (table : list (bytes * TokenName.t)) : bool :=
  match table with
  | [] => true
  | (w, _) :: table =>
      forallb (fun e => negb (starts_with e.1 w) || (length e.1 <=? length w)) table
      && longest_first table
  end.

Lemma starts_with_both l w v :
  starts_with l w = true -> starts_with l v = true -> length w <= length v ->
  starts_with v w = true.
Proof.
  intros [r1 ->]%starts_with_spec [r2 Hr]%starts_with_spec Hle.
  apply starts_with_spec. exists (drop (length w) v).
  rewrite <- (take_drop (length w) v) at 1. f_equal.
  assert (Ht : take (length w) (w ++ r1) = take (length w) (v ++ r2)) by (by rewrite Hr).
  rewrite take_app_length, take_app_le in Ht by lia. done.
Qed.

Lemma first_entry_longest l table :
  longest_first table = true ->
  match first_entry (starts_with l) table with
  | Some (kind, n) =>
      (exists w name, (w, name) ∈ table /\ kind = TokenKind.Named name /\ n = length w /\
                      starts_with l w = true) /\
      (forall w name, (w, name) ∈ table -> starts_with l w = true -> length w <= n)
  | None => forall w name, (w, name) ∈ table -> starts_with l w = false
  end.
Proof.
  induction table as [|[w name] table IH]; cbn [longest_first first_entry]; intros Hlf.
  { intros w name []%not_elem_of_nil. }
  apply andb_true_iff in Hlf as [Hw Hlf]. specialize (IH Hlf).
  destruct (starts_with l w) eqn:Hl.
  - split.
    + exists w, name. repeat split; [apply list_elem_of_here | done].
    + intros v vn Hv Hlv. apply elem_of_cons in Hv as [[= -> ->]|Hv]; [done|].
      rewrite forallb_forall in Hw. apply list_elem_of_In, Hw in Hv. cbn [fst] in Hv.
      destruct (Nat.leb_spec (length v) (length w)); [done|].
      rewrite (starts_with_both l w v) in Hv by (done || lia). done.
  - destruct (first_entry (starts_with l) table) as [[kind n]|].
    + destruct IH as [(v & vn & Hv & ? & ? & ?) IH]. split.
      * exists v, vn. repeat split; try done. by apply list_elem_of_further.
      * intros u un Hu Hlu. apply elem_of_cons in Hu as [[= -> ->]|Hu]; [congruence | by eapply IH].
    + intros v vn Hv. apply elem_of_cons in Hv as [[= -> ->]|Hv]; [done | by eapply IH].
Qed.

(** Operators are read by longest match: [operator_at_cursor] returns an
    entry of the table that the source continues with and no entry that it
    continues with is longer; it returns nothing only if there is none. *)
Theorem operator_longest_match s (Hok : lexer_ok s) :
  exists r, operator_at_cursor s = Ret r /\
  let rest := drop (offset s) (lx_source s) in
  match r with
  | Some (kind, n) =>
      (exists w name, (w, name) ∈ OPERATORS /\ kind = TokenKind.Named name /\ n = length w /\
                      starts_with rest w = true) /\
      (forall w name, (w, name) ∈ OPERATORS -> starts_with rest w = true -> length w <= n)
  | None => forall w name, (w, name) ∈ OPERATORS -> starts_with rest w = false
  end.
Proof.
  unfold operator_at_cursor. rewrite rest_ok by done. eexists. split; [done|]. cbv zeta.
  apply first_entry_longest. by vm_compute.
Qed.

Lemma operator_longest_match_witness :
  let s := Lexer_new (lit "<=>1") (mkLexerConfig false false true) in
  lexer_ok s /\ operator_at_cursor s = Ret (Some (TokenKind.Named TokenName.Spaceship, 3)) /\
  exists r, operator_at_cursor s = Ret r.
Proof.
  assert (Hok : lexer_ok (Lexer_new (lit "<=>1") (mkLexerConfig false false true))).
  { split; try done; cbn; lia. }
  split; [exact Hok|]. split; [vm_compute; reflexivity|].
  destruct (operator_longest_match _ Hok) as (r & Hr & _). exists r. exact Hr.
Defined.

(** ** Scanning for the end of a comment or of inline text *)

(** The number of bytes before the first suffix that satisfies [stop]. *)
Fixpoint find_suffix (stop : bytes -> bool) (l : bytes) : nat :=
  match l with
  | [] => 0
  | _ :: l' => if stop l then 0 else S (find_suffix stop l')
  end.

(** Where the scan from [o] ends: at the first such suffix, or at the end. *)
Definition suffix_end (stop : bytes -> bool) (src : bytes) (o : nat) : nat :=
  o + find_suffix stop (drop o src).

Section Suffix.
Context (stop : bytes -> bool) (p : byte -> bool) (src : bytes).
(** The scan looks for bytes [p], the only ones that [stop] starts with. *)
Context (Hstop : forall x l, stop (x :: l) = true -> p x = true).

Lemma find_suffix_le l : find_suffix stop l <= length l.
Proof. induction l as [|x l IH]; cbn; [done|]. case_match; lia. Qed.

Lemma find_suffix_skip l k :
  RustStd.position p l = Some k -> find_suffix stop l = k + find_suffix stop (drop k l).
Proof.
  revert k. induction l as [|x l IH]; intros k; cbn [RustStd.position]; [done|].
  destruct (p x) eqn:Hx; [by intros [= <-]|]. intros (j & Hj & ->)%fmap_Some.
  cbn [find_suffix drop]. destruct (stop (x :: l)) eqn:Hs; [apply Hstop in Hs; congruence|].
  by rewrite (IH j Hj).
Qed.

Lemma find_suffix_none l : RustStd.position p l = None -> find_suffix stop l = length l.
Proof.
  induction l as [|x l IH]; cbn [RustStd.position]; [done|].
  destruct (p x) eqn:Hx; [done|]. intros H%fmap_None. cbn [find_suffix].
  destruct (stop (x :: l)) eqn:Hs; [apply Hstop in Hs; congruence|]. by rewrite (IH H).
Qed.

Lemma suffix_end_skip o k :
  RustStd.position p (drop o src) = Some k -> suffix_end stop src (o + k) = suffix_end stop src o.
Proof.
  intros Hk. unfold suffix_end. rewrite (find_suffix_skip _ _ Hk), drop_drop. lia.
Qed.

Lemma suffix_end_none o :
  o <= length src -> RustStd.position p (drop o src) = None -> suffix_end stop src o = length src.
Proof.
  intros Ho Hn. unfold suffix_end. rewrite (find_suffix_none _ Hn), length_drop. lia.
Qed.

Lemma suffix_end_step o :
  o < length src -> stop (drop o src) = false -> suffix_end stop src (o + 1) = suffix_end stop src o.
Proof.
  intros Ho Hs. unfold suffix_end. destruct (lookup_lt_is_Some_2 src o Ho) as [x Hx].
  rewrite (drop_S _ _ _ Hx) in *. cbn [find_suffix]. rewrite Hs, Nat.add_1_r. lia.
Qed.

Lemma suffix_end_stop o : stop (drop o src) = true -> suffix_end stop src o = o.
Proof.
  intros Hs. unfold suffix_end. destruct (drop o src); cbn; [lia|]. rewrite Hs. lia.
Qed.

Lemma suffix_end_eof o : length src <= o -> suffix_end stop src o = o.
Proof. intros Ho. unfold suffix_end. rewrite drop_ge by done. cbn. lia. Qed.

Lemma suffix_end_le o : o <= length src -> o <= suffix_end stop src o <= length src.
Proof.
  intros Ho. unfold suffix_end. pose proof (find_suffix_le (drop o src)) as H.
  rewrite length_drop in H. lia.
Qed.
End Suffix.

Section Scans.
Context {mc : Memchr} {laws : MemchrLaws mc} (bk : backend).

(** The state of a scan that started in [s]. *)
Definition scanning (stop : bytes -> bool) (s s1 : Lexer) : Prop :=
  suffix_end stop (lx_source s) (offset s1) = suffix_end stop (lx_source s) (offset s).

Lemma moved_is s s1 o : moved s s1 -> offset s1 = o -> s1 = with_pos s o.
Proof. intros (o' & _ & ->). by intros <-. Qed.

(** The iterations of a scan: nothing is left to find, the next candidate is
    further on, or it is here and is not the end. *)
Section Iterations.
Context {R : Type} (stop : bytes -> bool) (p : byte -> bool) (s s1 : Lexer).
Context (Hstop : forall x l, stop (x :: l) = true -> p x = true).
Context (Hok1 : lexer_ok s1) (Hm : moved s s1) (HI : scanning stop s s1).
Context (Q : R -> Lexer -> Prop).

Let src := lx_source s.
Let post (r : unit + R) (s2 : Lexer) : Prop :=
  match r with
  | inl _ => moved s1 s2 /\ offset s1 < offset s2 /\ scanning stop s s2
  | inr v => Q v s2
  end.

Lemma scan_offset_le : offset s1 <= length src.
Proof.
  pose proof (ok_offset s1 Hok1) as Hle. by rewrite (moved_source _ _ Hm) in Hle.
Qed.

Lemma wp_scan_continue n :
  1 <= n -> offset s1 + n <= length src ->
  suffix_end stop src (offset s1 + n) = suffix_end stop src (offset s1) ->
  wp (consume_len n ;;; ret (inl tt)) s1 post.
Proof.
  intros Hn Hle He. apply wp_bind.
  eapply wp_conseq; [by apply wp_moves_consume|]. intros [] s2 [Hm2 Ho]. apply wp_ret.
  rewrite (moved_source _ _ Hm), Nat.min_l in Ho by done. split; [done|]. split; [lia|].
  unfold scanning in *. rewrite Ho. unfold src in He. by rewrite He.
Qed.

Lemma wp_scan_skip k :
  RustStd.position p (drop (offset s1) src) = Some k -> 0 < k ->
  wp (consume_len k ;;; ret (inl tt)) s1 post.
Proof.
  intros Hk Hpos. pose proof scan_offset_le. pose proof (position_lt _ _ _ Hk) as Hlt.
  rewrite length_drop in Hlt. apply wp_scan_continue; [done | lia | by apply (suffix_end_skip _ p)].
Qed.

Lemma wp_scan_one :
  offset s1 < length src -> stop (drop (offset s1) src) = false ->
  wp (consume_len 1 ;;; ret (inl tt)) s1 post.
Proof.
  intros Hlt Hs. apply wp_scan_continue; [done | lia | by apply suffix_end_step].
Qed.

Lemma wp_scan_rest v :
  RustStd.position p (drop (offset s1) src) = None ->
  suffix_end stop src (offset s) = length src ->
  Q v (with_pos s (length src)) ->
  wp (consume_len (length (drop (offset s1) src)) ;;; ret (inr v)) s1 post.
Proof.
  intros Hn He HQ. pose proof scan_offset_le. apply wp_bind.
  eapply wp_conseq; [by apply wp_moves_consume|]. intros [] s2 [Hm2 Ho]. apply wp_ret.
  rewrite (moved_source _ _ Hm), length_drop in Ho. cbn.
  rewrite (moved_is s s2 (length src)); [done | by eapply moved_trans |]. unfold src in *. lia.
Qed.

Lemma scan_none :
  RustStd.position p (drop (offset s1) src) = None -> suffix_end stop src (offset s) = length src.
Proof.
  intros Hn. unfold scanning in HI. fold src in HI. rewrite <- HI.
  apply (suffix_end_none _ p); [done | apply scan_offset_le | done].
Qed.

Lemma scan_here :
  suffix_end stop src (offset s1) = offset s1 ->
  s1 = with_pos s (suffix_end stop src (offset s)).
Proof. intros H. apply (moved_is _ _ _ Hm). rewrite <- H. apply HI. Qed.
End Iterations.

(** A line comment ends before a line break or a close tag. *)
Definition line_comment_stop (l : bytes) : bool :=
  match l with
  | x :: _ => (x =b x0d) || (x =b x0a) || starts_with l (lit "?>")
  | [] => false
  end.

Definition line_comment_probe (x : byte) : bool := ((x =b x0d) || (x =b x0a)) || (x =b x3f).

Lemma line_comment_stop_probe x l : line_comment_stop (x :: l) = true -> line_comment_probe x = true.
Proof.
  unfold line_comment_probe. cbn.
  intros [[-> | ->]%orb_true_iff|[-> _]%andb_true_iff]%orb_true_iff; by rewrite ?orb_true_r.
Qed.

Lemma consume_line_comment_spec s :
  lexer_ok s ->
  consume_line_comment s =
  (let e := suffix_end line_comment_stop (lx_source s) (offset s) in
   Ret (mkToken (TokenKind.Named TokenName.Comment) (TextRange_new (offset s) e) (lx_line s),
        with_pos s e)).
Proof.
  intros Hok. apply wp_eq. unfold consume_line_comment. wp_state. wp_run. apply wp_bind.
  set (src := lx_source s). set (e := suffix_end line_comment_stop src (offset s)).
  apply (wp_conseq _ _ (fun _ s1 => s1 = with_pos s e)); [|intros _ s1 ->; by apply owp_Ret].
  apply (wp_moving_loop _ (fun _ => scanning line_comment_stop s)); [done | done | done |].
  intros [] s1 Hok1 Hm HI. wp_state. pose proof (moved_source _ _ Hm) as Hsrc.
  pose proof line_comment_stop_probe as Hstop.
  destruct (is_eof s1) eqn:Heof; cbn [negb].
  { wp_run. apply wp_ret, scan_here; [done | done |]. apply suffix_end_eof.
    apply eof_offset in Heof; [|done]. rewrite Hsrc in Heof. lia. }
  apply (not_eof_lt s1 Hok1) in Heof. rewrite Hsrc in Heof. rewrite rest_ok by done. cbn [obind].
  rewrite Hsrc, find_any2_position, find_byte_position, nearest_found_position.
  fold line_comment_probe src.
  destruct (RustStd.position _ _) as [k|] eqn:Hk.
  - destruct (Nat.ltb_spec 0 k) as [Hpos|Hz]; [wp_run; by eapply wp_scan_skip|].
    assert (k = 0) as -> by lia. rewrite at_cursor_spec, Hsrc by done. cbn [obind]. fold src.
    rewrite (peek_lookup s1 Hok1), Hsrc. fold src.
    destruct (lookup_lt_is_Some_2 src (offset s1)) as [x Hx]; [done|]. rewrite Hx.
    pose proof (drop_S _ _ _ Hx) as Hd.
    assert (Hs : starts_with (drop (offset s1) src) (lit "?>") || opt_in (Some x) [x0d; x0a] =
                 line_comment_stop (drop (offset s1) src)).
    { rewrite Hd. unfold opt_in, line_comment_stop. cbn [existsb is_some_and].
      rewrite orb_comm. by destruct (x =b x0d), (x =b x0a). }
    rewrite Hs. destruct (line_comment_stop (drop (offset s1) src)) eqn:Hst; wp_run.
    + apply wp_ret, scan_here; [done | done | by apply suffix_end_stop].
    + by apply wp_scan_one.
  - pose proof (scan_none _ _ _ _ Hstop Hok1 Hm HI Hk) as He.
    wp_run. eapply wp_scan_rest; try done. unfold e, src in *. by rewrite He.
Qed.

(** A block comment ends after the first [*/]. *)
Definition block_comment_stop (l : bytes) : bool := starts_with l (lit "*/").

Lemma block_comment_stop_probe x l : block_comment_stop (x :: l) = true -> (x =b x2a) = true.
Proof. by intros [? _]%andb_true_iff. Qed.

(** The loop of [consume_block_comment], from a state after the opener. *)
Lemma block_comment_loop s n :
  lexer_ok s -> n = lexer_fuel s ->
  let e := suffix_end block_comment_stop (lx_source s) (offset s) in
  wp (loop n (fun _ : unit => fun s =>
     if negb (is_eof s) then
       olet rest := slice_from (lx_source s) (offset s) in
       match find_byte rest x2a with
       | None => (consume_len (length rest) ;;; ret (inr false)) s
       | Some relative =>
           if 0 <? relative then (consume_len relative ;;; ret (inl tt)) s
           else
             olet close := at_cursor s (lit "*/") in
             if close then (consume_len 2 ;;; ret (inr true)) s
             else (consume_len 1 ;;; ret (inl tt)) s
       end
     else ret (inr false) s) tt) s
    (fun closed s1 => closed = block_comment_stop (drop e (lx_source s)) /\
                      s1 = with_pos s (if closed then e + 2 else length (lx_source s))).
Proof.
  intros Hok Hn e. set (src := lx_source s) in *.
  apply (wp_moving_loop _ (fun _ => scanning block_comment_stop s)); [done | done | done |].
  intros [] s1 Hok1 Hm HI. wp_state. pose proof (moved_source _ _ Hm) as Hsrc.
  pose proof block_comment_stop_probe as Hstop.
  pose proof (ok_offset s1 Hok1) as Hle. rewrite Hsrc in Hle.
  assert (HIe : suffix_end block_comment_stop src (offset s1) = e) by apply HI.
  assert (Hend : e = length src -> block_comment_stop (drop e src) = false).
  { intros ->. by rewrite drop_all. }
  destruct (is_eof s1) eqn:Heof; cbn [negb].
  { wp_run. apply wp_ret. apply eof_offset in Heof; [|done]. rewrite Hsrc in Heof.
    assert (He : e = length src).
    { rewrite <- HIe, suffix_end_eof; unfold src; lia. }
    rewrite (Hend He). split; [done|]. by apply moved_is. }
  apply (not_eof_lt s1 Hok1) in Heof. rewrite Hsrc in Heof. rewrite rest_ok by done. cbn [obind].
  rewrite Hsrc, find_byte_position. fold src.
  destruct (RustStd.position _ _) as [k|] eqn:Hk; cycle 1.
  { pose proof (scan_none _ _ _ _ Hstop Hok1 Hm HI Hk) as He. wp_run.
    apply (wp_scan_rest _ (fun x => x =b x2a)); try done. split; [by rewrite (Hend He) | done]. }
  destruct (Nat.ltb_spec 0 k) as [Hpos|Hz]; [wp_run; by apply (wp_scan_skip _ (fun x => x =b x2a))|].
  rewrite at_cursor_spec, Hsrc by done. cbn [obind]. fold src.
  fold (block_comment_stop (drop (offset s1) src)).
  destruct (block_comment_stop (drop (offset s1) src)) eqn:Hst; wp_run; [|by apply wp_scan_one].
  assert (He : e = offset s1) by (rewrite <- HIe; by apply suffix_end_stop).
  rewrite He, Hst. apply starts_with_length in Hst as H2. rewrite length_drop in H2.
  apply wp_bind. eapply wp_conseq; [by apply wp_moves_consume|]. intros [] s2 [Hm2 Ho].
  apply wp_ret. split; [done|]. apply moved_is; [by eapply moved_trans|].
  rewrite Ho, Hsrc. change (length (lit "*/")) with 2 in H2. unfold src in *. lia.
Qed.

Lemma consume_block_comment_spec s :
  lexer_ok s -> starts_with (drop (offset s) (lx_source s)) (lit "/*") = true ->
  consume_block_comment s =
  (let src := lx_source s in let o := offset s in
   let kind := TokenKind.Named (if starts_with (drop o src) (lit "/**")
                                then TokenName.DocComment else TokenName.Comment) in
   let e := suffix_end block_comment_stop src (o + 2) in
   if block_comment_stop (drop e src)
   then Ret (mkToken kind (TextRange_new o (e + 2)) (lx_line s), with_pos s (e + 2))
   else let range := TextRange_new o (length src) in
        let d := mkLexDiagnostic LexDiagnosticKind.UnterminatedBlockComment
                   "unterminated block comment" range (lx_line s) in
        Ret (mkToken kind range (lx_line s),
             set_diagnostics (lx_diagnostics s ++ [d]) (with_pos s (length src)))).
Proof.
  intros Hok Hsw. apply (prefix_le s Hok) in Hsw. change (length (lit "/*")) with 2 in Hsw.
  cbv zeta. set (e := suffix_end _ _ _).
  set (name := if starts_with _ (lit "/**") then _ else _).
  unfold consume_block_comment. rewrite at_cursor_spec by done. cbn [obind]. cbv zeta.
  replace (if starts_with _ (lit "/**") then TokenKind.Named TokenName.DocComment
           else TokenKind.Named TokenName.Comment) with (TokenKind.Named name)
    by (unfold name; by case_match).
  clearbody name. unfold bind at 1. rewrite consume_len_spec by done. cbn [obind].
  rewrite Nat.min_l by lia.
  destruct (block_comment_loop (with_pos s (offset s + 2)) (lexer_fuel s)) as (c & s1 & Hrun & -> & ->);
    [apply with_pos_ok; [done | lia] | done |].
  rewrite with_pos_source, with_pos_offset in Hrun. fold e in Hrun.
  unfold bind at 1. rewrite Hrun. cbn [obind].
  by destruct (block_comment_stop (drop e (lx_source s))).
Qed.
End Scans.

(** Comments end where PHP ends them.  A line comment ends before the first
    line break or [?>], or at the end of the source.  A block comment ends
    right after the first [*/] behind its opener; without one it takes the rest
    of the source and one diagnostic with the comment's span is reported.  It
    is a doc comment exactly if the source continues with [/**] at its start. *)
Theorem comments_end {mc : Memchr} {laws : MemchrLaws mc} s (Hok : lexer_ok s) :
  let src := lx_source s in let o := offset s in
  consume_line_comment s =
    (let e := suffix_end line_comment_stop src o in
     Ret (mkToken (TokenKind.Named TokenName.Comment) (TextRange_new o e) (lx_line s),
          with_pos s e)) /\
  (starts_with (drop o src) (lit "/*") = true ->
   consume_block_comment s =
   (let kind := TokenKind.Named (if starts_with (drop o src) (lit "/**")
                                 then TokenName.DocComment else TokenName.Comment) in
    let e := suffix_end block_comment_stop src (o + 2) in
    if block_comment_stop (drop e src)
    then Ret (mkToken kind (TextRange_new o (e + 2)) (lx_line s), with_pos s (e + 2))
    else let range := TextRange_new o (length src) in
         let d := mkLexDiagnostic LexDiagnosticKind.UnterminatedBlockComment
                    "unterminated block comment" range (lx_line s) in
         Ret (mkToken kind range (lx_line s),
              set_diagnostics (lx_diagnostics s ++ [d]) (with_pos s (length src))))).
Proof.
  split; [by apply consume_line_comment_spec | by apply consume_block_comment_spec].
Qed.

Lemma comments_end_witness :
  let s := Lexer_new (lit "/**/ x") (mkLexerConfig false false true) in
  lexer_ok s /\
  consume_block_comment (mc := memchr_naive) s =
    Ret (mkToken (TokenKind.Named TokenName.DocComment) (TextRange_new 0 4) 1, with_pos s 4).
Proof.
  assert (Hok : lexer_ok (Lexer_new (lit "/**/ x") (mkLexerConfig false false true))).
  { split; try done; cbn; lia. }
  split; [exact Hok|].
  exact (proj2 (comments_end (laws := memchr_naive_laws) _ Hok) eq_refl).
Defined.

(** ** Inline HTML *)

(** The source continues with an open tag. *)
Definition open_tag_stop (config : LexerConfig) (l : bytes) : bool :=
  starts_with l (lit "<?=")
  || (starts_with l (lit "<?php") || starts_with l (lit "<?PHP"))
     && match l !! 5 with None => true | Some x => is_ascii_whitespace x end
  || short_open_tag config && starts_with l (lit "<?").

Lemma starts_with_lookups l needle o :
  starts_with (drop o l) needle =
  forallb (fun '(i, expected) => opt_is (l !! (o + i)) expected) (zip (seq 0 (length needle)) needle).
Proof.
  revert o. induction needle as [|x needle IH]; intros o; [done|].
  cbn [length seq zip_with forallb]. rewrite Nat.add_0_r.
  assert (Hshift : forallb (fun '(i, expected) => opt_is (l !! (o + i)) expected)
                     (zip (seq 1 (length needle)) needle) =
                   forallb (fun '(i, expected) => opt_is (l !! (S o + i)) expected)
                     (zip (seq 0 (length needle)) needle)).
  { clear IH. generalize 0. induction needle as [|y needle IHn]; intros k; [done|].
    cbn [length seq zip_with forallb]. rewrite IHn. by replace (o + S k) with (S o + k) by lia. }
  rewrite Hshift, <- IH. destruct (l !! o) as [y|] eqn:Hy.
  - by rewrite (drop_S _ _ _ Hy).
  - apply lookup_ge_None in Hy. by rewrite drop_ge by lia.
Qed.

Lemma cursor_starts_with_at_spec s needle :
  lexer_ok s -> cursor_starts_with_at s 0 needle = starts_with (drop (offset s) (lx_source s)) needle.
Proof.
  intros Hok. rewrite starts_with_lookups. unfold cursor_starts_with_at.
  generalize (zip (seq 0 (length needle)) needle). intros l.
  induction l as [|[i x] l IH]; [done|]. cbn [forallb]. by rewrite IH, peek_n_lookup.
Qed.

Lemma open_tag_at_cursor_stop s :
  lexer_ok s ->
  is_none (open_tag_at_cursor s) =
  negb (open_tag_stop (lx_config s) (drop (offset s) (lx_source s))).
Proof.
  intros Hok. unfold open_tag_at_cursor, open_tag_at_offset, open_tag_stop.
  rewrite !cursor_starts_with_at_spec by done. rewrite lookup_drop, peek_n_lookup by done.
  change (0 + 5) with 5. destruct (starts_with _ (lit "<?=")); [done|].
  destruct ((starts_with _ (lit "<?php") || _) && _); [done|].
  by destruct (short_open_tag (lx_config s) && _).
Qed.

Lemma open_tag_stop_probe config x l : open_tag_stop config (x :: l) = true -> (x =b x3c) = true.
Proof.
  unfold open_tag_stop. cbn. destruct (x =b x3c); [done|]. cbn. by rewrite andb_false_r.
Qed.

Section Inline.
Context {mc : Memchr} {laws : MemchrLaws mc}.

(** The loop over inline text stops at the next open tag. *)
Lemma inline_text_loop s :
  lexer_ok s ->
  wp (loop (lexer_fuel s) (fun _ : unit => fun s =>
        if negb (is_eof s) && is_none (open_tag_at_cursor s) then
          olet rest := slice_from (lx_source s) (offset s) in
          match find_byte rest x3c with
          | None => (consume_len (length rest) ;;; ret (inr tt)) s
          | Some relative =>
              if relative =? 0 then (consume_len 1 ;;; ret (inl tt)) s
              else (consume_len relative ;;; ret (inl tt)) s
          end
        else ret (inr tt) s) tt) s
    (fun _ s1 => s1 = with_pos s (suffix_end (open_tag_stop (lx_config s)) (lx_source s) (offset s))).
Proof.
  intros Hok. set (stop := open_tag_stop (lx_config s)). set (src := lx_source s).
  apply (wp_moving_loop _ (fun _ => scanning stop s)); [done | done | done |].
  intros [] s1 Hok1 Hm HI. wp_state. pose proof (moved_source _ _ Hm) as Hsrc.
  assert (Hcfg : lx_config s1 = lx_config s) by (by destruct Hm as (o & _ & ->)).
  pose proof (open_tag_stop_probe (lx_config s)) as Hstop. fold stop in Hstop.
  rewrite (open_tag_at_cursor_stop s1 Hok1), Hcfg, Hsrc. fold stop src.
  destruct (is_eof s1) eqn:Heof; cbn [negb andb].
  { wp_run. apply wp_ret, scan_here; [done | done |]. apply suffix_end_eof.
    apply eof_offset in Heof; [|done]. rewrite Hsrc in Heof. lia. }
  apply (not_eof_lt s1 Hok1) in Heof. rewrite Hsrc in Heof.
  destruct (stop (drop (offset s1) src)) eqn:Hst; cbn [negb].
  { wp_run. apply wp_ret, scan_here; [done | done | by apply suffix_end_stop]. }
  unfold src. rewrite <- Hsrc, rest_ok by done. cbn [obind]. rewrite Hsrc, find_byte_position. fold src.
  destruct (RustStd.position _ _) as [k|] eqn:Hk.
  - destruct (Nat.eqb_spec k 0); wp_run; [by apply wp_scan_one|].
    apply (wp_scan_skip _ (fun x => x =b x3c)); (done || lia).
  - pose proof (scan_none _ _ _ _ Hstop Hok1 Hm HI Hk) as He. fold src in He. wp_run.
    apply (wp_scan_rest _ (fun x => x =b x3c)); try done. by rewrite He.
Qed.
End Inline.

(** Inline text is kept whole: where no open tag starts, the inline scanner
    returns one inline-HTML token that ends right before the next open tag
    ([<?=], [<?php] followed by whitespace or the end, or [<?] when short tags
    are on), or at the end of the source. *)
Theorem inline_html_until_tag {mc : Memchr} {laws : MemchrLaws mc} s
    (Hok : lexer_ok s) (Hin : offset s < length (lx_source s)) (Hbom : bom_skipped s = false)
    (Htag : open_tag_stop (lx_config s) (drop (offset s) (lx_source s)) = false) :
  next_inline_html_token s =
  (let e := suffix_end (open_tag_stop (lx_config s)) (lx_source s) (offset s) in
   Ret (Some (mkToken (TokenKind.Named TokenName.InlineHtml) (TextRange_new (offset s) e) (lx_line s)),
        with_pos s e)).
Proof.
  apply wp_eq. unfold next_inline_html_token, wp.
  rewrite is_eof_spec, (proj2 (Nat.leb_gt _ _) Hin) by done.
  assert (Hb : (if offset s =? 0 then at_cursor s [xef; xbb; xbf] else Ret false) =
               Ret ((offset s =? 0) && starts_with (lx_source s) [xef; xbb; xbf])).
  { destruct (Nat.eqb_spec (offset s) 0) as [H0|]; [|done].
    rewrite at_cursor_spec by done. by rewrite H0. }
  rewrite Hb. cbn [obind]. fold (bom_skipped s). rewrite Hbom. wp_run.
  apply wp_bind, wp_ret. wp_state.
  pose proof (open_tag_at_cursor_stop s Hok) as Ht. rewrite Htag in Ht.
  destruct (open_tag_at_cursor s) as [[kind n]|]; [done|]. wp_run. apply wp_bind.
  eapply wp_conseq; [by apply inline_text_loop|]. intros [] s1 ->.
  apply wp_bind, owp_Ret, wp_ret. done.
Qed.

Lemma inline_html_until_tag_witness :
  let s := Lexer_new (lit "a < b <?= 1") (mkLexerConfig false false true) in
  exists s', next_inline_html_token (mc := memchr_naive) s =
    Ret (Some (mkToken (TokenKind.Named TokenName.InlineHtml) (TextRange_new 0 6) 1), s').
Proof.
  eexists. refine (eq_trans (inline_html_until_tag (laws := memchr_naive_laws) _ _ _ _ _) _).
  - split; try done; cbn; lia.
  - cbn. lia.
  - vm_compute. reflexivity.
  - vm_compute. reflexivity.
  - reflexivity.
Defined.

(** ** Identifiers and keywords *)

(** The state after an unqualified word: the cursor is behind it, and
    [__halt_compiler] arms the halt unless it is a member name. *)
Definition after_word (s : Lexer) (e : nat) (name : TokenName.t) : Lexer :=
  if TokenName.eqb name TokenName.HaltCompiler && negb (previous_token_was_member_access s)
  then set_halt_compiler_significant_tokens 0 (set_halt_compiler_seen true (with_pos s e))
  else with_pos s e.

(** An unqualified word is one token: it is the longest run of identifier
    bytes at the cursor, on every SIMD backend, and its kind is the keyword or
    magic constant that the word spells in any letter case, or [T_STRING]. *)
Theorem word_token {mc : Memchr} {laws : MemchrLaws mc} bk s (Hok : lexer_ok s)
    (Hsep : at_name_separator
              (with_pos s (skip_while is_identifier_continue (lx_source s) (offset s))) = false) :
  let e := skip_while is_identifier_continue (lx_source s) (offset s) in
  let word := drop (offset s) (take e (lx_source s)) in
  let name := default TokenName.String (keyword_or_magic_token word) in
  consume_identifier_or_name bk s =
    Ret (mkToken (TokenKind.Named name) (TextRange_new (offset s) e) (lx_line s), after_word s e name).
Proof.
  intros e word name. fold e in Hsep. unfold consume_identifier_or_name, bind at 1.
  rewrite consume_identifier_bytes_spec by done. fold e. cbn [obind].
  assert (He : offset s <= e <= length (lx_source s)).
  { apply skip_while_bounds, (ok_offset s Hok). }
  rewrite with_pos_source, with_pos_offset, slice_ok by lia. cbn [obind].
  rewrite Hsep, andb_false_r. unfold lexer_fuel. cbn [loop]. unfold bind at 1 2.
  rewrite Hsep. unfold ret at 1. cbn [obind]. unfold ret at 1. cbn [obind].
  rewrite with_pos_source, with_pos_offset.
  unfold TextRange_new. cbn [to_usize Source.start end_].
  rewrite (proj2 (Nat.ltb_ge _ _)) by lia. cbn [to_usize]. rewrite slice_ok by lia. cbn [obind].
  fold word name. unfold after_word.
  by destruct (TokenName.eqb name TokenName.HaltCompiler && _).
Qed.

Lemma word_token_witness :
  let s := Lexer_new (lit "ECHO 1") (mkLexerConfig false false true) in
  consume_identifier_or_name (mc := memchr_naive) BAvx2 s =
    Ret (mkToken (TokenKind.Named TokenName.Echo) (TextRange_new 0 4) 1, with_pos s 4).
Proof.
  refine (word_token (laws := memchr_naive_laws) BAvx2 _ _ _).
  - split; try done; cbn; lia.
  - vm_compute. reflexivity.
Defined.
