(* ===== verification/LexerLines.v ===== *)
(** * LexerLines: the lexer and the line index count the same lines

    The lexer counts lines as it moves ([lexer.rs], [advance_line_for_range]);
    [line_index.rs] computes the starts of all lines beforehand.  Away from the
    middle of a CRLF pair the two agree. *)

From Stdlib Require Import Strings.String Strings.Byte.
From stdpp Require Import base list option numbers sorting.
From S2P Require Import Prelude RustStd Simd SimdProofs ByteKernel ByteKernelProofs Source.
From S2P Require Import Token LexStrings Lexer LexerCursor LexerSteps LexerProofs.

(** Offset [o] is between the two bytes of a CRLF pair. *)
Definition inside_crlf (src : bytes) (o : nat) : bool :=
  opt_is (src !! o) x0a && (0 <? o) && opt_is (src !! (o - 1)) x0d.

Definition count_le (pos : nat) (l : list nat) : nat :=
  length (List.filter (fun z => z <? S pos) l).

Lemma count_le_none pos l : Forall (fun z => pos < z) l -> count_le pos l = 0.
Proof.
  unfold count_le. induction 1 as [|z l Hz _ IH]; [done|]. cbn [List.filter].
  by rewrite (proj2 (Nat.ltb_ge _ _)) by lia.
Qed.

Lemma count_le_cons pos z l :
  count_le pos (z :: l) = (if z <=? pos then 1 else 0) + count_le pos l.
Proof.
  unfold count_le. cbn [List.filter]. change (z <? S pos) with (z <=? pos).
  by destruct (z <=? pos).
Qed.

(** A break is a line feed outside a CRLF pair or a carriage return. *)
Lemma is_break_lf src o : src !! o = Some x0a -> inside_crlf src o = false -> is_break src o = true.
Proof.
  intros Hx Hs. unfold is_break, inside_crlf in *. rewrite Hx in *. cbn in *.
  destruct o as [|o]; [done|]. cbn in *. by rewrite Hs.
Qed.

Lemma is_break_cr src o : src !! o = Some x0d -> is_break src o = true.
Proof. intros Hx. unfold is_break. by rewrite Hx. Qed.

Lemma is_break_other src o x :
  src !! o = Some x -> (x =b x0a) = false -> (x =b x0d) = false -> is_break src o = false.
Proof. intros Hx Ha Hd. unfold is_break. rewrite Hx. cbn. by rewrite Ha, Hd. Qed.

Lemma is_break_crlf src o :
  src !! o = Some x0d -> opt_is (src !! (o + 1)) x0a = true -> is_break src (o + 1) = false.
Proof.
  intros Hx Hy%opt_is_Some. unfold is_break. rewrite Hy. cbn.
  destruct (Nat.eqb_spec (o + 1) 0); [lia|]. by rewrite Nat.add_sub, Hx.
Qed.

Lemma not_inside_after src o x :
  src !! o = Some x -> (x =b x0d) = false -> inside_crlf src (o + 1) = false.
Proof.
  intros Hx Hd. unfold inside_crlf. rewrite Nat.add_sub, Hx. cbn. by rewrite Hd, andb_false_r.
Qed.

(** The line breaks from [off] on that end at or before [pos]. *)
Lemma count_break_ends src pos :
  inside_crlf src pos = false -> pos <= length src ->
  forall n off, length src - off <= n -> off <= pos -> inside_crlf src off = false ->
  count_le pos (break_ends off (drop off src)) + breaks_before src off = breaks_before src pos.
Proof.
  intros Hpos Hlen n. induction n as [|n IH]; intros off Hn Hle Hoff.
  all: assert (Hend : off = pos -> count_le pos (break_ends off (drop off src)) = 0)
    by (intros ->; apply count_le_none; eapply Forall_impl; [apply break_ends_bounds|]; cbn; lia).
  all: destruct (decide (off = pos)) as [->|Hne]; [by rewrite Hend | try lia].
  destruct (lookup_lt_is_Some_2 src off) as [x Hx]; [lia|].
  pose proof (breaks_before_S src off) as HS. replace (S off) with (off + 1) in HS by lia.
  rewrite (break_ends_at _ _ _ Hx).
  destruct (x =b x0a) eqn:Ha.
  { apply beq_eq in Ha as ->. rewrite is_break_lf in HS by done.
    rewrite count_le_cons, (proj2 (Nat.leb_le _ _)) by lia.
    specialize (IH (off + 1)). rewrite HS in IH. rewrite <- IH; [lia | lia | lia |].
    by apply (not_inside_after _ _ x0a). }
  destruct (x =b x0d) eqn:Hd.
  - apply beq_eq in Hd as ->. rewrite is_break_cr in HS by done.
    destruct (opt_is (src !! (off + 1)) x0a) eqn:Hlf.
    + assert (off + 1 <> pos).
      { intros <-. unfold inside_crlf in Hpos. rewrite Hlf, Nat.add_sub, Hx in Hpos.
        destruct (Nat.ltb_spec 0 (off + 1)); [done | lia]. }
      pose proof (breaks_before_S src (off + 1)) as HS2.
      rewrite (is_break_crlf _ _ Hx Hlf) in HS2. replace (S (off + 1)) with (off + 2) in HS2 by lia.
      rewrite count_le_cons, (proj2 (Nat.leb_le _ _)) by lia.
      specialize (IH (off + 2)). rewrite HS2, HS in IH. rewrite <- IH; [lia | lia | lia |].
      replace (off + 2) with (off + 1 + 1) by lia. apply opt_is_Some in Hlf.
      by apply (not_inside_after _ _ x0a).
    + rewrite count_le_cons, (proj2 (Nat.leb_le _ _)) by lia.
      specialize (IH (off + 1)). rewrite HS in IH. rewrite <- IH; [lia | lia | lia |].
      unfold inside_crlf. by rewrite Hlf.
  - rewrite (is_break_other _ _ _ Hx Ha Hd) in HS. specialize (IH (off + 1)). rewrite HS in IH.
    rewrite <- IH; [lia | lia | lia |]. by apply (not_inside_after _ _ x).
Qed.

Lemma containing_line_count starts pos k :
  StronglySorted lt starts -> containing_line starts pos k -> count_le pos starts = S k.
Proof.
  intros Hs [(s & Hk & Hle) Hafter]. unfold count_le.
  set (n := length (List.filter (fun z => z <? S pos) starts)).
  assert (Hn : forall i y, starts !! i = Some y -> (y < S pos <-> i < n))
    by (intros; by apply sorted_filter_lt).
  assert (Hlen : n <= length starts) by apply List.filter_length_le.
  pose proof (proj1 (Hn k s Hk)) as H1.
  destruct (decide (n = S k)) as [|Hne]; [done|]. exfalso.
  destruct (lookup_lt_is_Some_2 starts (S k)) as [y Hy]; [lia|].
  pose proof (Hafter (S k) y ltac:(lia) Hy). pose proof (proj2 (Hn (S k) y Hy)). lia.
Qed.

(** The line that the index reports is the one the lexer counts. *)
Lemma line_col_line_at {mc : Memchr} {laws : MemchrLaws mc} src ix pos :
  LineIndex_new src = Ret ix -> pos <= length src -> inside_crlf src pos = false ->
  exists c, line_col ix (BytePos_new pos) = Ret (LineCol_new (N.to_nat (line_at src pos)) c).
Proof.
  rewrite line_index_new_spec. intros [= <-] Hpos Hcr. unfold line_col.
  cbn [line_starts source_len to_usize]. rewrite Nat.min_l by done.
  pose proof (binary_search_containing _ pos (line_starts_sorted src) eq_refl) as Hk.
  set (k := match binary_search _ _ with inl i => i | inr 0 => 0 | inr (S i) => i end) in *.
  pose proof Hk as [(s & Hs & Hle) _]. unfold index. rewrite Hs. cbn [obind].
  rewrite usize_sub_ok by done. cbn [obind]. eexists. f_equal. f_equal.
  apply containing_line_count in Hk; [|apply line_starts_sorted].
  rewrite count_le_cons in Hk. cbn [Nat.leb] in Hk.
  pose proof (count_break_ends src pos Hcr Hpos (length src) 0) as Hc. rewrite drop_0 in Hc.
  unfold line_at. change (breaks_before src 0) with 0 in Hc.
  rewrite N2Nat.inj_add, Nat2N.id. rewrite <- Hc; [lia | lia | lia |].
  unfold inside_crlf. by rewrite andb_false_r.
Qed.


