(* ===== verification/LexerUtf8.v ===== *)
(** * LexerUtf8: tokens end at character boundaries

    The lexer works on bytes while the parser slices the source as UTF-8 text
    ([Token::text]).  Every token of [lexer.rs] ends at the end of the source
    or next to an ASCII byte, which in valid UTF-8 is a character boundary. *)

From Stdlib Require Import Strings.String Strings.Byte.
From stdpp Require Import base list option numbers.
From S2P Require Import Prelude RustStd Simd SimdProofs ByteKernel ByteKernelProofs Source.
From S2P Require Import Token LexStrings Lexer LexerCursor LexerSteps LexerProofs LexerTokens.

(** ** Partial correctness of lexer methods *)

Definition post {A} (Q : A -> Lexer -> Prop) (o : outcome (A * Lexer)) : Prop :=
  match o with Ret (a, s') => Q a s' | _ => True end.

Lemma post_bind {A B} (m : M A) (k : A -> M B) s Q :
  post (fun a s' => post Q (k a s')) (m s) -> post Q (bind m k s).
Proof. unfold bind. by destruct (m s) as [[a s']| |]. Qed.

Lemma post_obind {A B} (o : outcome A) (k : A -> outcome (B * Lexer)) Q :
  (forall a, o = Ret a -> post Q (k a)) -> post Q (obind o k).
Proof. destruct o; cbn [obind]; auto; done. Qed.

Lemma post_modify {B} f (k : M B) s Q : post Q (k (f s)) -> post Q ((modify f ;;; k) s).
Proof. exact id. Qed.

Lemma post_ret_seq {B} (k : M B) s Q : post Q (k s) -> post Q ((ret tt ;;; k) s).
Proof. exact id. Qed.

Lemma post_gets {A B} (f : Lexer -> A) (k : A -> M B) s Q :
  post Q (k (f s) s) -> post Q (bind (gets f) k s).
Proof. exact id. Qed.

Lemma post_mono {A} (P Q : A -> Lexer -> Prop) o :
  post P o -> (forall a s', P a s' -> Q a s') -> post Q o.
Proof. destruct o as [[a s']| |]; cbn [post]; auto. Qed.

Lemma post_loop {A R} (I : A -> Lexer -> Prop) (body : A -> M (A + R)) Q fuel a s :
  (forall a s, I a s -> post (fun r s' => match r with inl a' => I a' s' | inr v => Q v s' end) (body a s)) ->
  I a s -> post Q (loop fuel body a s).
Proof.
  intros Hb. revert a s. induction fuel as [|fuel IH]; intros a s HI; [done|].
  cbn [loop]. apply post_bind. eapply post_mono; [by apply Hb|].
  intros [a'|v] s' H; [by apply IH | exact H].
Qed.

Lemma post_while (I Q : Lexer -> Prop) cond body s :
  (forall s, I s -> cond s = Ret true -> post (fun _ s' => I s') (body s)) ->
  (forall s, I s -> cond s = Ret false -> Q s) ->
  I s -> post (fun _ s' => Q s') (while cond body s).
Proof.
  intros Hb He HI. unfold while. apply (post_loop (fun _ => I)); [|done].
  intros _ s1 H1. apply post_obind. intros [] Hc; [|by apply He].
  apply post_bind. eapply post_mono; [by apply Hb|]. done.
Qed.

(** The line counter is all that [advance_line_for_range] changes. *)
Lemma post_advance_line {mc : Memchr} start e s :
  post (fun _ s' => lx_source s' = lx_source s /\ lx_cursor s' = lx_cursor s)
       (advance_line_for_range start e s).
Proof.
  unfold advance_line_for_range.
  assert (Hinc : forall s1 (i : nat), lx_source s1 = lx_source s /\ lx_cursor s1 = lx_cursor s ->
    post (fun (r : nat + unit) s' => match r with
            | inl _ => lx_source s' = lx_source s /\ lx_cursor s' = lx_cursor s
            | inr _ => lx_source s' = lx_source s /\ lx_cursor s' = lx_cursor s end)
         ((increment_line ;;; ret (inl i)) s1)).
  { intros s1 i H1. apply post_bind. unfold increment_line. by destruct (_ <? _)%N. }
  apply (post_loop (fun _ s' => lx_source s' = lx_source s /\ lx_cursor s' = lx_cursor s)); [|done].
  intros i s1 H1. destruct (i <? e); [|done].
  apply post_bind. cbn [post gets]. apply post_bind. unfold lift. apply post_obind. intros rest _.
  cbn [post]. destruct (find_any2 rest x0d x0a) as [rel|]; [|done].
  apply post_bind. apply post_obind. intros x _. cbn [post].
  destruct (x =b x0d); [by apply Hinc|]. destruct (x =b x0a); [|done].
  apply post_bind. destruct (i + rel =? 0).
  - cbn [post ret]. by apply Hinc.
  - apply post_bind. apply post_obind. intros y _. cbn [post ret].
    destruct (negb (y =b x0d)); [by apply Hinc | done].
Qed.

(** ** Clean positions *)

Section Clean.
Context {mc : Memchr} {laws : MemchrLaws mc} (bk : backend) (src : bytes).

Definition ascii_at (i : nat) : Prop := exists x, src !! i = Some x /\ is_ascii x = true.

(** At an end of the source or next to an ASCII byte. *)
Definition clean (i : nat) : Prop :=
  i = 0 \/ length src <= i \/ ascii_at i \/ (0 < i /\ ascii_at (i - 1)).

Record inv (s : Lexer) : Prop := {
  inv_src : lx_source s = src;
  inv_cursor : Cursor.source (lx_cursor s) = src;
  inv_offset : offset s <= length src
}.

Definition cl (s : Lexer) : Prop := inv s /\ clean (offset s).

Definition keeps {A} (m : M A) : Prop := forall s, cl s -> post (fun _ => cl) (m s).
Definition lands {A} (m : M A) : Prop := forall s, inv s -> post (fun _ => cl) (m s).

Lemma lands_keeps {A} (m : M A) : lands m -> keeps m.
Proof. intros H s [Hs _]. by apply H. Qed.

Lemma keeps_use {A} (m : M A) s a s' : keeps m -> cl s -> m s = Ret (a, s') -> cl s'.
Proof. intros H Hs E. specialize (H s Hs). by rewrite E in H. Qed.

Lemma clean_at i x : src !! i = Some x -> is_ascii x = true -> clean i.
Proof. intros. right. right. left. by exists x. Qed.

Lemma clean_after i x : src !! i = Some x -> is_ascii x = true -> clean (i + 1).
Proof. intros. do 3 right. split; [lia|]. replace (i + 1 - 1) with i by lia. by exists x. Qed.

Lemma clean_end i : length src <= i -> clean i.
Proof. intros. right. by left. Qed.

Lemma clean_min i : clean i -> clean (i `min` length src).
Proof.
  intros H. destruct (Nat.min_spec i (length src)) as [[_ ->]|[? ->]]; [done|]. by apply clean_end.
Qed.

Lemma post_consume n s (Q : unit -> Lexer -> Prop) :
  inv s ->
  (forall s', inv s' -> offset s' = (offset s + n) `min` length src -> Q tt s') ->
  post Q (consume_len n s).
Proof.
  intros [Hs Hc Ho] HQ. unfold consume_len, Cursor.len. rewrite Hc.
  set (e := (offset s + n) `min` length src). apply post_bind.
  eapply post_mono; [apply post_advance_line|]. intros [] s1 [Hs1 Hc1].
  apply post_bind. unfold lift. apply post_obind. intros d Hd. cbn [post].
  unfold usize_sub in Hd. destruct (offset s <=? e) eqn:Hle; [|done]. injection Hd as <-.
  apply Nat.leb_le in Hle.
  assert (Hoff : Cursor.offset (lx_cursor s1) = offset s) by (by rewrite Hc1).
  assert (Hcs : Cursor.source (lx_cursor s1) = src) by (by rewrite Hc1).
  assert (e <= length src) by (subst e; lia).
  destruct (Nat.eqb_spec (e - offset s) 1) as [H1|H1]; cbn [post modify]; apply HQ.
  - destruct (lookup_lt_is_Some_2 src (offset s)) as [x Hx]; [subst e; lia|].
    split; unfold offset, Cursor.position, Cursor.bump, Cursor.peek;
      cbn [lx_source lx_cursor set_cursor]; rewrite ?Hcs, ?Hoff, ?Hx; cbn [snd Cursor.source Cursor.offset]; [congruence | done | lia].
  - unfold offset, Cursor.position, Cursor.bump, Cursor.peek. cbn [lx_cursor set_cursor].
    rewrite Hcs, Hoff. destruct (lookup_lt_is_Some_2 src (offset s)) as [x ->]; [subst e; lia|].
    cbn [snd Cursor.offset]. unfold offset, Cursor.position in *. lia.
  - split; unfold offset, Cursor.position, Cursor.advance_by; cbn [lx_source lx_cursor set_cursor];
      cbn [Cursor.source Cursor.offset]; rewrite ?Hcs, ?Hoff; [congruence | done | lia].
  - unfold offset at 1, Cursor.position, Cursor.advance_by. cbn [lx_cursor set_cursor Cursor.offset].
    rewrite Hcs, Hoff. subst e. lia.
Qed.

Lemma peek_src s : inv s -> peek s = src !! offset s.
Proof. intros [_ Hc _]. unfold peek, Cursor.peek. by rewrite Hc. Qed.

Lemma peek_n_src s n : inv s -> peek_n s n = src !! (offset s + n).
Proof. intros [_ Hc _]. unfold peek_n, Cursor.peek_n. by rewrite Hc. Qed.

Lemma is_eof_src s : inv s -> is_eof s = (length src <=? offset s).
Proof. intros [_ Hc _]. unfold is_eof, Cursor.is_eof. by rewrite Hc. Qed.

Lemma at_cursor_src s needle :
  inv s -> at_cursor s needle = Ret (starts_with (drop (offset s) src) needle).
Proof.
  intros [_ Hc Ho]. unfold at_cursor, Cursor.starts_with. rewrite Hc.
  change (Cursor.offset (lx_cursor s)) with (offset s). by rewrite slice_from_ok.
Qed.

(** *** Rules *)

Lemma cl_frame s s' :
  lx_source s' = lx_source s -> lx_cursor s' = lx_cursor s -> cl s -> cl s'.
Proof.
  intros Hs Hc [[] Hcl]. unfold cl, offset, Cursor.position in *.
  split; [split|]; unfold offset, Cursor.position; rewrite ?Hs, ?Hc; done.
Qed.

Lemma cl_inv s : cl s -> inv s.
Proof. by intros []. Qed.

Lemma post_consume_to n s (Q : unit -> Lexer -> Prop) :
  inv s -> clean (offset s + n) -> (forall s', cl s' -> Q tt s') -> post Q (consume_len n s).
Proof.
  intros Hs Hc HQ. apply post_consume; [done|]. intros s' Hs' Ho. apply HQ.
  split; [done|]. rewrite Ho. by apply clean_min.
Qed.

Lemma post_consume_one s x (Q : unit -> Lexer -> Prop) :
  inv s -> src !! offset s = Some x -> is_ascii x = true -> (forall s', cl s' -> Q tt s') ->
  post Q (consume_len 1 s).
Proof. intros Hs Hx Ha. apply post_consume_to; [done|]. by eapply clean_after. Qed.

Lemma post_token_from s kind start line : cl s -> post (fun _ => cl) (token_from kind start line s).
Proof. done. Qed.

Lemma post_fixed s kind n :
  inv s -> clean (offset s + n) -> post (fun _ => cl) (consume_fixed_token kind n s).
Proof. intros Hs Hc. apply post_bind. apply post_consume_to; [done..|]. by intros s'. Qed.

Lemma post_fixed_one s kind x :
  inv s -> src !! offset s = Some x -> is_ascii x = true ->
  post (fun _ => cl) (consume_fixed_token kind 1 s).
Proof. intros Hs Hx Ha. apply post_fixed; [done|]. by eapply clean_after. Qed.

Lemma post_some (m : M Token) s : post (fun _ => cl) (m s) -> post (fun _ => cl) (some_token m s).
Proof. intros H. apply post_bind. eapply post_mono; [exact H|]. done. Qed.

Lemma post_rest_end s (Q : unit -> Lexer -> Prop) rest :
  inv s -> slice_from (lx_source s) (offset s) = Ret rest -> (forall s', cl s' -> Q tt s') ->
  post Q (consume_len (length rest) s).
Proof.
  intros Hs Hr HQ. unfold slice_from in Hr. destruct (_ <=? _); [|done]. injection Hr as <-.
  apply post_consume_to; [done| |done]. apply clean_end. rewrite length_drop, (inv_src s Hs). lia.
Qed.

Lemma clean_prefix o needle :
  needle <> [] -> forallb is_ascii needle = true -> starts_with (drop o src) needle = true ->
  clean (o + length needle).
Proof.
  intros Hne Ha [rest Hr]%starts_with_spec.
  destruct (exists_last Hne) as (l & x & ->). rewrite forallb_app in Ha.
  apply andb_true_iff in Ha as [_ Ha]. cbn [forallb] in Ha. rewrite andb_true_r in Ha.
  rewrite length_app. cbn [length]. rewrite Nat.add_assoc. apply (clean_after _ x); [|done].
  rewrite <- lookup_drop, Hr, <- app_assoc. by rewrite lookup_app_r, Nat.sub_diag by lia.
Qed.

Lemma prefix_at o needle x :
  needle !! 0 = Some x -> starts_with (drop o src) needle = true -> src !! o = Some x.
Proof.
  intros Hx [rest Hr]%starts_with_spec. rewrite <- (Nat.add_0_r o), <- lookup_drop, Hr.
  by apply lookup_app_l_Some.
Qed.

Lemma opt_is_ascii o x : opt_is (src !! o) x = true -> is_ascii x = true -> clean o /\ clean (o + 1).
Proof. intros H%opt_is_Some Ha. split; [by eapply clean_at | by eapply clean_after]. Qed.

(** A byte of a class of ASCII bytes. *)
Lemma class_ascii o p :
  (forall x, p x = true -> is_ascii x = true) -> is_some_and (src !! o) p = true ->
  exists x, src !! o = Some x /\ is_ascii x = true /\ p x = true.
Proof. intros Hp. destruct (src !! o) as [x|]; [|done]. cbn [is_some_and]. eauto. Qed.

(** A byte outside a class that has all bytes above 127. *)
Lemma stop_clean o p :
  (forall x, is_ascii x = false -> p x = true) -> is_some_and (src !! o) p = false -> clean o.
Proof.
  intros Hp. destruct (src !! o) as [x|] eqn:Hx; cbn [is_some_and]; intros H.
  - apply (clean_at _ x Hx). destruct (is_ascii x) eqn:E; [done|]. by rewrite Hp in H.
  - apply clean_end. by apply lookup_ge_None.
Qed.

Lemma continue_high x : is_ascii x = false -> is_identifier_continue x = true.
Proof. intros H. destruct (is_identifier_continue x) eqn:E; [done|]. exfalso.
  revert E H. enough (is_identifier_continue x || is_ascii x = true) by (destruct (is_identifier_continue x), (is_ascii x); done).
  revert x. apply byte_forall. by vm_compute. Qed.

Ltac ascii_class := let x := fresh "x" in intros x;
  match goal with |- ?p x = true -> is_ascii x = true =>
    enough (negb (p x) || is_ascii x = true) as E
      by (destruct (p x), (is_ascii x); done);
    revert x; apply byte_forall; vm_compute; reflexivity end.

(** A loop that moves over single bytes of an ASCII class. *)
Lemma keeps_while_class cond (p : byte -> bool) :
  (forall x, p x = true -> is_ascii x = true) ->
  (forall s, inv s -> cond s = Ret true -> is_some_and (src !! offset s) p = true) ->
  keeps (while cond (consume_len 1)).
Proof.
  intros Hp Hc s Hs. apply (post_while cl); [|done|done].
  intros s1 H1 H. destruct (class_ascii _ p Hp (Hc s1 (cl_inv _ H1) H)) as (x & Hx & Ha & _).
  eapply post_consume_one; [by apply cl_inv | done..].
Qed.

Lemma post_at_cursor {A} s needle (k : bool -> outcome (A * Lexer)) Q :
  inv s -> (starts_with (drop (offset s) src) needle = true -> post Q (k true)) ->
  post Q (k false) -> post Q (obind (at_cursor s needle) k).
Proof.
  intros Hs Ht Hf. rewrite at_cursor_src by done. cbn [obind].
  destruct (starts_with (drop (offset s) src) needle); auto.
Qed.

(** *** Words, numbers and comments *)

Ltac cond H := match goal with |- post _ (if ?c then _ else _) => destruct c eqn:H end.

Lemma lands_identifier_bytes : lands (consume_identifier_bytes bk).
Proof.
  intros s Hs. unfold consume_identifier_bytes. apply post_bind.
  assert (Hloop : forall n s, inv s -> post (fun (_ : unit) => cl) (loop n (fun _ : unit => fun s =>
     match peek s with
     | None => ret (inr tt) s
     | Some x =>
         olet rest := slice_from (lx_source s) (offset s) in
         olet ascii_len := Arch.ascii_identifier_continue_chunk_len bk rest in
         if 0 <? ascii_len then (consume_len ascii_len ;;; ret (inl tt)) s
         else if (128 <=? u8 x)%N then (consume_len 1 ;;; ret (inl tt)) s
         else ret (inr tt) s
     end) tt s)).
  { clear s Hs. intros n s Hs. apply (post_loop (fun _ => inv)); [|done]. clear s Hs. intros _ s Hs.
    rewrite (peek_src s Hs). destruct (src !! offset s) as [x|] eqn:Hx.
    - apply post_obind. intros rest _. apply post_obind. intros k _. destruct (0 <? k).
      { apply post_bind, post_consume; [done|]. by intros s'. }
      destruct (N.leb_spec 128 (u8 x)).
      { apply post_bind, post_consume; [done|]. by intros s'. }
      split; [done|]. apply (clean_at _ x Hx). unfold is_ascii. by apply N.ltb_lt.
    - split; [done|]. by apply clean_end, lookup_ge_None. }
  destruct (is_some_and (peek s) is_identifier_start).
  - apply post_consume; [done|]. intros s' Hs' _. by apply Hloop.
  - by apply Hloop.
Qed.

Lemma post_identifier_bytes s (Q : unit -> Lexer -> Prop) :
  inv s -> (forall s', cl s' -> Q tt s') -> post Q (consume_identifier_bytes bk s).
Proof. intros Hs HQ. eapply post_mono; [by apply lands_identifier_bytes|]. intros [] s'. apply HQ. Qed.

Lemma post_name_parts s (Q : unit -> Lexer -> Prop) :
  cl s -> (forall s', cl s' -> Q tt s') ->
  post Q (while (fun s => Ret (at_name_separator s)) (consume_len 1 ;;; consume_identifier_bytes bk) s).
Proof.
  intros Hs HQ. eapply post_mono; [apply (post_while cl cl); [|done|done]|intros [] s'; apply HQ].
  intros s1 H1 _. apply post_bind, post_consume; [by apply cl_inv|].
  intros s2 H2 _. by apply post_identifier_bytes.
Qed.

Lemma lands_identifier_token name : lands (consume_identifier_token bk name).
Proof. intros s Hs. apply post_bind, post_identifier_bytes; [done|]. by intros s'. Qed.

Lemma lands_qualified_name kind b : lands (consume_qualified_name bk kind b).
Proof.
  intros s Hs. unfold consume_qualified_name. apply post_bind.
  assert (H : forall s1, inv s1 -> post (fun (_ : Token) => cl) ((consume_identifier_bytes bk ;;;
     while (fun s => Ret (at_name_separator s)) (consume_len 1 ;;; consume_identifier_bytes bk) ;;;
     token_from kind (offset s) (lx_line s)) s1)).
  { intros s1 H1. apply post_bind, post_identifier_bytes; [done|]. intros s2 H2.
    apply post_bind, post_name_parts; [done|]. by intros s3. }
  destruct b; [|by apply H]. apply post_consume; [done|]. intros s1 H1 _. by apply H.
Qed.

Lemma lands_identifier_or_name : lands (consume_identifier_or_name bk).
Proof.
  intros s Hs. unfold consume_identifier_or_name. apply post_bind, post_identifier_bytes; [done|].
  intros s1 H1. apply post_obind. intros word _.
  destruct (eq_ignore_ascii_case word (lit "namespace") && at_name_separator s1).
  { apply post_bind, post_name_parts; [done|]. by intros s2. }
  apply post_bind. eapply post_mono; [apply (post_loop (fun _ => cl) _ (fun _ => cl)); [|done]|].
  - intros q s2 H2. destruct (at_name_separator s2); [|done].
    apply post_bind, post_consume; [by apply cl_inv|]. intros s3 H3 _.
    apply post_bind, post_identifier_bytes; [done|]. by intros s4.
  - intros q s2 H2. destruct q; [done|]. apply post_obind. intros text _. apply post_bind.
    destruct (_ && _); [|done]. apply post_bind. by apply (cl_frame s2).
Qed.

Lemma keeps_digit_sequence p :
  (forall x, p x = true -> is_ascii x = true) -> keeps (consume_digit_sequence p).
Proof.
  intros Hp s Hs. unfold consume_digit_sequence. apply post_bind.
  assert (Hloop : forall n s, cl s -> post (fun (_ : unit) => cl) (loop n (fun _ : unit => fun s =>
     match peek s with
     | None => ret (inr tt) s
     | Some x =>
         if p x then (consume_len 1 ;;; ret (inl tt)) s
         else if (x =b x5f) && is_some_and (peek_n s 1) p
         then (consume_len 2 ;;; ret (inl tt)) s
         else ret (inr tt) s
     end) tt s)).
  { clear s Hs. intros n s Hs. apply (post_loop (fun _ => cl)); [|done]. clear s Hs. intros _ s Hs.
    rewrite (peek_src s), (peek_n_src s) by apply Hs.
    destruct (src !! offset s) as [x|] eqn:Hx; [|done]. destruct (p x) eqn:Hpx.
    { apply post_bind. eapply post_consume_one; [apply Hs | done | by apply Hp |]. by intros s'. }
    destruct (_ && _) eqn:Hu; [|done]. apply andb_true_iff in Hu as [_ Hu].
    destruct (class_ascii _ p Hp Hu) as (y & Hy & Ha & _).
    apply post_bind, post_consume_to; [apply Hs | | by intros s'].
    replace (offset s + 2) with (offset s + 1 + 1) by lia. by apply (clean_after _ y). }
  destruct (is_some_and (peek s) p) eqn:Hpk; [|by apply Hloop].
  rewrite (peek_src s) in Hpk by apply Hs. destruct (class_ascii _ p Hp Hpk) as (y & Hy & Ha & _).
  eapply post_consume_one; [apply Hs | done..|]. intros s' Hs'. by apply Hloop.
Qed.

Lemma post_digits p s (Q : unit -> Lexer -> Prop) :
  (forall x, p x = true -> is_ascii x = true) -> cl s -> (forall s', cl s' -> Q tt s') ->
  post Q (consume_digit_sequence p s).
Proof. intros Hp Hs HQ. eapply post_mono; [by apply keeps_digit_sequence|]. intros [] s'. apply HQ. Qed.

Lemma decimal_ascii x : is_decimal_digit x = true -> is_ascii x = true.
Proof. revert x. ascii_class. Qed.
Lemma hex_ascii x : is_hex_digit x = true -> is_ascii x = true.
Proof. revert x. ascii_class. Qed.
Lemma binary_ascii x : is_binary_digit x = true -> is_ascii x = true.
Proof. revert x. ascii_class. Qed.
Lemma octal_ascii x : is_octal_digit x = true -> is_ascii x = true.
Proof. revert x. ascii_class. Qed.
Lemma whitespace_ascii x : is_php_whitespace x = true -> is_ascii x = true.
Proof. revert x. ascii_class. Qed.

Lemma opt_in_ascii o xs : forallb is_ascii xs = true -> opt_in (src !! o) xs = true ->
  exists x, src !! o = Some x /\ is_ascii x = true.
Proof.
  intros Ha. destruct (src !! o) as [x|]; [|done]. cbn [opt_in is_some_and]. intros Hx.
  exists x. split; [done|]. apply existsb_exists in Hx as (y & Hin & ->%beq_eq).
  rewrite forallb_forall in Ha. by apply Ha.
Qed.

Lemma keeps_exponent : keeps consume_exponent_if_present.
Proof.
  intros s Hs. unfold consume_exponent_if_present. destruct (negb _); [done|]. cbv zeta.
  set (d := if opt_in (peek_n s 1) [x2b; x2d] then 2 else 1).
  destruct (negb (is_some_and (peek_n s d) is_decimal_digit)) eqn:Hd; [done|].
  apply negb_false_iff in Hd. rewrite (peek_n_src s) in Hd by apply Hs.
  destruct (class_ascii _ _ decimal_ascii Hd) as (x & Hx & Ha & _).
  apply post_bind, post_consume_to; [apply Hs | by apply (clean_at _ x) |]. intros s1 H1.
  apply post_bind, post_digits; [apply decimal_ascii | done | by intros s2].
Qed.

Lemma post_radix s p start line :
  (forall x, p x = true -> is_ascii x = true) -> inv s -> is_some_and (peek_n s 2) p = true ->
  post (fun _ => cl) ((consume_len 2 ;;; consume_digit_sequence p ;;;
    token_from (TokenKind.Named TokenName.LNumber) start line) s).
Proof.
  intros Hp Hs H. rewrite (peek_n_src s) in H by done. destruct (class_ascii _ p Hp H) as (x & Hx & Ha & _).
  apply post_bind, post_consume_to; [done | by apply (clean_at _ x) |]. intros s1 H1.
  apply post_bind, post_digits; [done..|]. by intros s2.
Qed.

Lemma keeps_number : keeps consume_number.
Proof.
  intros s Hs. unfold consume_number. cbv zeta.
  destruct (opt_is (peek s) x2e) eqn:Hdot.
  { rewrite (peek_src s) in Hdot by apply Hs.
    apply post_bind, post_consume_to; [apply Hs | by apply (opt_is_ascii _ x2e) |]. intros s1 H1.
    apply post_bind, post_digits; [apply decimal_ascii | done |]. intros s2 H2.
    apply post_bind. eapply post_mono; [by apply keeps_exponent|]. by intros ? s3. }
  cond H1; [apply andb_true_iff in H1 as [_ ?]; apply post_radix; [apply hex_ascii | apply Hs | done]|].
  cond H2; [apply andb_true_iff in H2 as [_ ?]; apply post_radix; [apply binary_ascii | apply Hs | done]|].
  cond H3; [apply andb_true_iff in H3 as [_ ?]; apply post_radix; [apply octal_ascii | apply Hs | done]|].
  apply post_bind, post_digits; [apply decimal_ascii | done |]. intros s1 Hs1.
  apply post_obind. intros digits _. apply post_bind.
  assert (Hexp : forall k s2, cl s2 -> post (fun (_ : Token) => cl) ((let* exponent := consume_exponent_if_present in
      let kind := if exponent then TokenName.DNumber else k in
      token_from (TokenKind.Named kind) (offset s) (lx_line s)) s2)).
  { intros k s2 Hs2. apply post_bind. eapply post_mono; [by apply keeps_exponent|]. by intros ? s3. }
  destruct (opt_is (peek s1) x2e) eqn:Hd2; [|by apply Hexp].
  rewrite (peek_src s1) in Hd2 by apply Hs1.
  apply post_bind, post_consume_to; [apply Hs1 | by apply (opt_is_ascii _ x2e) |]. intros s2 Hs2.
  apply post_bind, post_digits; [apply decimal_ascii | done |]. intros s3 Hs3. by apply Hexp.
Qed.

Lemma lands_line_comment : lands consume_line_comment.
Proof.
  intros s Hs. unfold consume_line_comment. apply post_bind.
  eapply post_mono; [apply (post_loop (fun _ => inv) _ (fun _ => cl)); [|done]|by intros ? s'].
  clear s Hs. intros _ s Hs. rewrite (is_eof_src s Hs).
  destruct (Nat.leb_spec (length src) (offset s)); cbn [negb]; [by split; [|apply clean_end]|].
  apply post_obind. intros rest Hr. destruct (nearest_found _ _) as [rel|].
  - destruct (0 <? rel); [apply post_bind, post_consume; [done | by intros s']|].
    apply post_at_cursor; [done|intros Hst|]; cbn [orb].
    { split; [done|]. apply (clean_at _ x3f); [|done]. by apply (prefix_at _ (lit "?>")). }
    rewrite (peek_src s Hs). destruct (opt_in _ _) eqn:Hin.
    { split; [done|]. destruct (opt_in_ascii _ [x0d; x0a] eq_refl Hin) as (x & Hx & Ha). by apply (clean_at _ x). }
    apply post_bind, post_consume; [done | by intros s'].
  - apply post_bind. eapply post_rest_end; [done..|]. by intros s'.
Qed.

Lemma lands_block_comment : lands consume_block_comment.
Proof.
  intros s Hs. unfold consume_block_comment. apply post_obind. intros doc _.
  apply post_bind, post_consume; [done|]. intros s1 H1 _. apply post_bind.
  eapply post_mono; [apply (post_loop (fun _ => inv) _ (fun _ => cl)); [|done]|].
  - clear s Hs s1 H1. intros _ s Hs. rewrite (is_eof_src s Hs).
    destruct (Nat.leb_spec (length src) (offset s)); cbn [negb]; [by split; [|apply clean_end]|].
    apply post_obind. intros rest Hr. destruct (find_byte _ _) as [rel|].
    + destruct (0 <? rel); [apply post_bind, post_consume; [done | by intros s']|].
      apply post_at_cursor; [done|intros Hst|apply post_bind, post_consume; [done | by intros s']].
      apply post_bind, post_consume_to; [done | | by intros s']. by apply (clean_prefix _ (lit "*/")).
    + apply post_bind. eapply post_rest_end; [done..|]. by intros s'.
  - intros closed s2 H2. destruct closed; [done|]. apply post_bind. cbn [post gets].
    apply post_bind. cbn [post modify]. by apply (cl_frame s2).
Qed.

(** *** Strings *)

(** A quoted body of [n] bytes ends with its quote or with the text. *)
Definition body_end (l : bytes) (q : byte) (n : nat) (closed : bool) : Prop :=
  if closed then 1 <= n /\ l !! (n - 1) = Some q else n = length l.

Lemma body_end_shift q l1 l2 n c :
  body_end l2 q n c -> body_end (l1 ++ l2) q (length l1 + n) c.
Proof.
  unfold body_end. destruct c; [|intros ->; by rewrite length_app].
  intros [Hn Hl]. split; [lia|]. rewrite lookup_app_r by lia.
  by replace (length l1 + n - 1 - length l1) with (n - 1) by lia.
Qed.

Lemma single_quoted_body_end l :
  body_end l x27 (single_quoted_body l).1 (single_quoted_body l).2.
Proof.
  enough (H : forall (off : nat) l, body_end l x27 (single_quoted_body l).1 (single_quoted_body l).2)
    by apply (H 0).
  apply breaks_ind; [done|]. intros _ x t IH. cbn [single_quoted_body].
  assert (Hs : forall t', length t' <= length t -> body_end t' x27 (single_quoted_body t').1 (single_quoted_body t').2)
    by (intros; by apply (IH 0)).
  destruct (x =b x27) eqn:E; [apply beq_eq in E as ->; done|].
  destruct (x =b x5c); [destruct t as [|y t']; [done|]; destruct (_ || _)|].
  - specialize (Hs t' ltac:(cbn; lia)). apply (body_end_shift _ [x; y]) in Hs.
    by destruct (single_quoted_body t').
  - specialize (Hs (y :: t') ltac:(done)). apply (body_end_shift _ [x]) in Hs.
    by destruct (single_quoted_body (y :: t')).
  - specialize (Hs t ltac:(done)). apply (body_end_shift _ [x]) in Hs. by destruct (single_quoted_body t).
Qed.

Lemma double_quoted_body_end l n c : double_quoted_body l = Some (n, c) -> body_end l x22 n c.
Proof.
  enough (H : forall (off : nat) l n c, double_quoted_body l = Some (n, c) -> body_end l x22 n c)
    by apply (H 0).
  apply (breaks_ind (fun _ l => forall n c, double_quoted_body l = Some (n, c) -> body_end l x22 n c)).
  { by intros _ n' c' [= <- <-]. }
  intros _ x t IH n' c'. cbn [double_quoted_body].
  assert (Hs : forall t' n c, length t' <= length t -> double_quoted_body t' = Some (n, c) -> body_end t' x22 n c)
    by (intros; by eapply (IH 0)).
  destruct (x =b x22) eqn:E; [apply beq_eq in E as ->; by intros [= <- <-]|]. destruct (x =b x5c).
  - destruct t as [|y t']; [by intros [= <- <-]|].
    intros ([k d] & Hk & [= -> ->])%fmap_Some. apply (body_end_shift _ [x; y]).
    apply Hs; [cbn; lia | done].
  - destruct ((x =b x24) && _); [done|]. destruct ((x =b x7b) && _); [done|].
    intros ([k d] & Hk & [= -> ->])%fmap_Some. apply (body_end_shift _ [x]). by apply Hs.
Qed.

Lemma body_end_clean o q n c :
  is_ascii q = true -> o <= length src -> body_end (drop o src) q n c -> clean (o + n).
Proof.
  intros Hq Ho. unfold body_end. destruct c.
  - intros [Hn Hl]. rewrite lookup_drop in Hl. replace (o + n) with (o + (n - 1) + 1) by lia.
    by eapply clean_after.
  - intros ->. apply clean_end. rewrite length_drop. lia.
Qed.

Lemma scan_clean start len t :
  scan_constant_encapsed_string src start = Ret (Some (StringScan.Constant len t)) ->
  clean (start + len).
Proof.
  unfold scan_constant_encapsed_string.
  assert (Hcommon : forall q p, q = start + p -> (if opt_is (src !! q) x27
      then olet s := scan_single_quoted src q in Ret (Some (add_string_prefix_len s p))
      else if opt_is (src !! q) x22 then
        olet s := scan_double_quoted src q in
        Ret (match s with
             | StringScan.Constant len t => Some (StringScan.Constant (len + p) t)
             | StringScan.Interpolated => if p =? 0 then Some StringScan.Interpolated else None
             end)
      else Ret None) = Ret (Some (StringScan.Constant len t)) -> clean (start + len)).
  { intros q p ->. destruct (opt_is (src !! _) x27) eqn:H1.
    - apply opt_is_Some, lookup_lt_Some in H1.
      unfold scan_single_quoted, loop_fuel. rewrite scan_single_quoted_loop_spec by lia.
      pose proof (single_quoted_body_end (drop (start + p + 1) src)) as Hb.
      cbn [obind]. unfold sq_result. destruct (single_quoted_body _) as [n c]. cbn [fst snd] in Hb.
      cbn [add_string_prefix_len]. intros [= <- <-]. apply body_end_clean in Hb; [|done|lia].
      by replace (start + (start + p + 1 + n - (start + p) + p)) with (start + p + 1 + n) by lia.
    - destruct (opt_is (src !! _) x22) eqn:H2; [|done]. apply opt_is_Some, lookup_lt_Some in H2.
      unfold scan_double_quoted, loop_fuel. rewrite scan_double_quoted_loop_spec by lia.
      cbn [obind]. unfold dq_result. destruct (double_quoted_body _) as [[n c]|] eqn:Hd; [|by destruct (p =? 0)].
      intros [= <- <-]. apply double_quoted_body_end, body_end_clean in Hd; [|done|lia].
      by replace (start + (start + p + 1 + n - (start + p) + p)) with (start + p + 1 + n) by lia. }
  destruct (_ && _); apply Hcommon; lia.
Qed.

Lemma scan_interpolated start :
  scan_constant_encapsed_string src start = Ret (Some StringScan.Interpolated) ->
  src !! start = Some x22.
Proof.
  intros Hscan. destruct (scan_constant_encapsed_string_ok src start) as (r & Hr & Hx).
  rewrite Hscan in Hr. injection Hr as <-. exact Hx.
Qed.

Lemma cl_encapsed kind k line s : cl s -> cl (enter_encapsed_mode kind k line s).
Proof. intros Hs. apply (cl_frame s); [reflexivity | reflexivity | exact Hs]. Qed.

Lemma offset_encapsed kind k line s : offset (enter_encapsed_mode kind k line s) = offset s.
Proof. reflexivity. Qed.

Lemma post_some_one s kind x :
  cl s -> src !! offset s = Some x -> is_ascii x = true ->
  post (fun _ => cl) (some_token (consume_fixed_token kind 1) s).
Proof. intros Hs Hx Ha. apply post_some, (post_fixed_one _ _ x); [apply Hs | done..]. Qed.

Lemma post_enter_encapsed s mode k line kind x :
  cl s -> src !! offset s = Some x -> is_ascii x = true ->
  post (fun _ => cl) ((modify (enter_encapsed_mode mode k line) ;;; some_token (consume_fixed_token kind 1)) s).
Proof.
  intros Hs Hx Ha. apply post_modify, (post_some_one _ _ x); [by apply cl_encapsed | | done].
  by rewrite offset_encapsed.
Qed.

Lemma keeps_constant_string : keeps consume_constant_string_if_available.
Proof.
  intros s Hs. unfold consume_constant_string_if_available. apply post_obind. intros scan Hscan.
  rewrite (inv_src s) in Hscan by apply Hs. destruct scan as [[len t|]|]; [| |exact Hs].
  - apply post_bind, post_consume_to; [apply Hs | by eapply scan_clean |]. intros s1 H1.
    apply post_gets, post_bind. destruct t; [exact H1|].
    apply (cl_frame s1); [reflexivity | reflexivity | exact H1].
  - apply scan_interpolated in Hscan. cbv zeta.
    exact (post_enter_encapsed s _ _ _ _ x22 Hs Hscan eq_refl).
Qed.

(** *** Heredocs *)

Lemma heredoc_start_clean s len label nowdoc :
  inv s -> heredoc_start_at_cursor s = Ret (Some (len, label, nowdoc)) -> clean (offset s + len).
Proof.
  intros Hs. unfold heredoc_start_at_cursor. rewrite (inv_src s Hs), (at_cursor_src s) by done.
  cbn [obind]. destruct (negb _); [done|]. cbv zeta. destruct (negb _); [done|].
  match goal with |- match ?c with _ => _ end = _ -> _ => destruct c as [off|]; [|done] end.
  destruct (opt_is (src !! off) x0d && opt_is (src !! (off + 1)) x0a) eqn:H2.
  { cbn [Nat.eqb]. destruct (slice _ _ _); try done. cbn [obind]. destruct (utf8_valid _); [|done].
    unfold usize_sub. destruct (Nat.leb_spec (offset s) (off + 2)); [|done]. cbn [obind]. intros [= <- _ _].
    apply andb_true_iff in H2 as [_ H2]. apply (opt_is_ascii _ x0a) in H2 as [_ H2]; [|done].
    by replace (offset s + (off + 2 - offset s)) with (off + 1 + 1) by lia. }
  destruct (opt_in (src !! off) [x0a; x0d]) eqn:H1; [|done].
  cbn [Nat.eqb]. destruct (slice _ _ _); try done. cbn [obind]. destruct (utf8_valid _); [|done].
  unfold usize_sub. destruct (Nat.leb_spec (offset s) (off + 1)); [|done]. cbn [obind]. intros [= <- _ _].
  destruct (opt_in_ascii _ [x0a; x0d] eq_refl H1) as (x & Hx & Ha).
  replace (offset s + (off + 1 - offset s)) with (off + 1) by lia. by apply (clean_after _ x).
Qed.

Lemma post_heredoc_mode s kind m k line n label nowdoc :
  cl s -> clean (offset s + n) ->
  post (fun _ => cl) ((modify (set_heredoc_label label) ;;; modify (set_heredoc_nowdoc nowdoc) ;;;
    modify (enter_encapsed_mode m k line) ;;; modify (set_heredoc_nowdoc nowdoc) ;;;
    some_token (consume_fixed_token kind n)) s).
Proof.
  intros Hs Hn. do 4 apply post_modify. apply post_some, post_fixed; [|exact Hn].
  apply (cl_frame s); [reflexivity | reflexivity | exact Hs].
Qed.

Lemma keeps_heredoc_start : keeps consume_heredoc_start_if_available.
Proof.
  intros s Hs. unfold consume_heredoc_start_if_available. apply post_obind. intros found Hf.
  destruct found as [[[len label] nowdoc]|]; [|exact Hs].
  apply heredoc_start_clean in Hf; [|apply Hs]. cbv zeta.
  destruct (in_heredoc_mode s).
  - apply post_modify, post_heredoc_mode; [|exact Hf].
    apply (cl_frame s); [reflexivity | reflexivity | exact Hs].
  - apply post_ret_seq, post_heredoc_mode; [exact Hs | exact Hf].
Qed.

Lemma heredoc_end_clean s len :
  inv s -> heredoc_end_len_at_cursor s = Ret (Some len) ->
  clean (offset s) /\ clean (offset s + len).
Proof.
  intros Hs. unfold heredoc_end_len_at_cursor. destruct (lx_heredoc_label s) as [label|]; [|done].
  rewrite (inv_src s Hs). cbv zeta. destruct (_ && _) eqn:Hst; [done|].
  set (off := skip_while _ _ _). destruct (get_range _ _ _); [|done]. destruct (bytes_eqb _ _); [|done].
  intros H. split.
  - apply andb_false_iff in Hst as [H0%Nat.ltb_ge|Hb%negb_false_iff]; [left; lia|].
    destruct (opt_in_ascii _ [x0a; x0d] eq_refl Hb) as (x & Hx & Ha).
    destruct (decide (offset s = 0)) as [->|]; [by left|].
    replace (offset s) with (offset s - 1 + 1) by lia. by apply (clean_after _ x).
  - assert (clean (off + length label) /\ usize_sub (off + length label) (offset s) = Ret len) as [Hc Hu].
    { revert H. destruct (src !! (off + length label)) as [x|] eqn:Hx.
      - destruct (is_identifier_continue x) eqn:Hi; [done|]. cbn [negb]. intros H. split.
        + apply (stop_clean _ is_identifier_continue continue_high). by rewrite Hx.
        + destruct (usize_sub _ _); by inversion H.
      - intros H. split; [by apply clean_end, lookup_ge_None|]. destruct (usize_sub _ _); by inversion H. }
    unfold usize_sub in Hu. destruct (Nat.leb_spec (offset s) (off + length label)); [|done].
    injection Hu as <-. by replace (offset s + (off + length label - offset s)) with (off + length label) by lia.
Qed.

(** *** Tables and tags *)

Lemma fold_ascii x : is_ascii (to_ascii_lowercase x) = is_ascii x.
Proof.
  enough (Bool.eqb (is_ascii (to_ascii_lowercase x)) (is_ascii x) = true) by by apply eqb_prop.
  revert x. apply byte_forall. by vm_compute.
Qed.

Lemma ignore_case_ascii x y :
  byte_eq_ignore_ascii_case x y = true -> is_ascii y = true -> is_ascii x = true.
Proof.
  unfold byte_eq_ignore_ascii_case. intros H%beq_eq. by rewrite <- (fold_ascii x), <- (fold_ascii y), H.
Qed.

Lemma word_clean s off word :
  inv s -> word <> [] -> forallb is_ascii word = true -> word_bytes_match s off word = true ->
  clean (offset s + off + length word).
Proof.
  intros Hs. revert off. induction word as [|y word IH]; [done|]. intros off _ Ha.
  cbn [word_bytes_match forallb length] in *. apply andb_true_iff in Ha as [Hy Ha].
  rewrite (peek_n_src s) by done. destruct (src !! (offset s + off)) as [x|] eqn:Hx; [|done].
  intros [Hm Hw]%andb_true_iff. destruct word as [|z word].
  - apply (clean_after _ x Hx). by eapply ignore_case_ascii.
  - specialize (IH (off + 1) ltac:(done) Ha Hw). by replace (offset s + off + S (length (z :: word)))
      with (offset s + (off + 1) + length (z :: word)) by lia.
Qed.

Lemma first_entry_clean (o : nat) accept table kind n :
  (forall w, w <> [] -> forallb is_ascii w = true -> accept w = true -> clean (o + length w)) ->
  forallb (fun e => negb (bytes_eqb e.1 []) && forallb is_ascii e.1) table = true ->
  first_entry accept table = Some (kind, n) -> clean (o + n).
Proof.
  intros Hacc. induction table as [|[w name] table IH]; [done|]. cbn [forallb first_entry fst].
  intros [[Hne Ha]%andb_true_iff Ht]%andb_true_iff. destruct (accept w) eqn:E; [|by apply IH].
  intros [= _ <-]. apply Hacc; [|done..]. by destruct w.
Qed.

Lemma visibility_clean s kind n :
  inv s -> property_hook_visibility_at_cursor s = Some (kind, n) -> clean (offset s + n).
Proof.
  intros Hs. apply first_entry_clean; [|by vm_compute]. intros w Hne Ha Hw.
  apply (word_clean s 0) in Hw; [|done..]. by rewrite Nat.add_0_r in Hw.
Qed.

Lemma slice_from_src s rest : inv s -> slice_from (lx_source s) (offset s) = Ret rest -> rest = drop (offset s) src.
Proof. intros Hs. unfold slice_from. rewrite (inv_src s Hs). destruct (_ <=? _); [|done]. by intros [= <-]. Qed.

Lemma operator_clean s kind n :
  inv s -> operator_at_cursor s = Ret (Some (kind, n)) -> clean (offset s + n).
Proof.
  intros Hs. unfold operator_at_cursor. destruct (slice_from _ _) as [rest| |] eqn:Hr; [|done..].
  apply slice_from_src in Hr as ->; [|done]. cbn [obind]. intros H.
  assert (first_entry (starts_with (drop (offset s) src)) OPERATORS = Some (kind, n)) as H1
    by (by inversion H).
  revert H1. apply first_entry_clean; [|by vm_compute]. intros w. apply clean_prefix.
Qed.

Lemma cast_clean s kind n :
  inv s -> cast_at_cursor s = Ret (Some (kind, n)) -> clean (offset s + n).
Proof.
  intros Hs. unfold cast_at_cursor. destruct (negb _); [done|]. cbv zeta. rewrite (inv_src s Hs).
  destruct (_ =? _); [done|]. destruct (slice _ _ _); [|done..]. cbn [obind].
  set (off := skip_while _ _ (skip_while _ _ _)).
  destruct (opt_is (src !! off) x29) eqn:Hp; [|done]. cbn [negb].
  match goal with |- match ?c with _ => _ end = _ -> _ => destruct c as [name|]; [|done] end.
  unfold usize_sub. destruct (Nat.leb_spec (offset s) (off + 1)); [|done]. cbn [obind]. intros [= _ <-].
  replace (offset s + (off + 1 - offset s)) with (off + 1) by lia. by apply (opt_is_ascii _ x29).
Qed.

Lemma peek_skip_le s p off : off <= peek_skip s p off.
Proof. unfold peek_skip, skip_while. lia. Qed.

Lemma keeps_yield_from : keeps consume_yield_from.
Proof.
  intros s Hs. unfold consume_yield_from. destruct (negb _); [exact Hs|]. cbv zeta.
  destruct (negb _ || negb _) eqn:Hf; [exact Hs|]. apply orb_false_iff in Hf as [_ Hf%negb_false_iff].
  destruct (is_some_and _ _); [exact Hs|]. unfold word_at_offset in Hf. apply andb_true_iff in Hf as [Hf _].
  apply (word_clean s) in Hf; [|apply Hs|done..]. cbn [length lit] in Hf.
  apply post_bind, post_consume_to; [apply Hs | by rewrite Nat.add_assoc | by intros s'].
Qed.

Lemma post_variable s :
  inv s -> opt_is (src !! offset s) x24 = true -> post (fun _ => cl) (consume_variable_or_dollar s).
Proof.
  intros Hs Hx%opt_is_Some. unfold consume_variable_or_dollar. cbv zeta.
  eapply post_bind, post_consume_one; [done | done | done |]. intros s1 H1.
  destruct (is_some_and (peek s1) is_identifier_start); [|exact H1].
  apply post_bind. eapply post_mono; [apply (post_while inv cl)|].
  - intros s2 H2 _. apply post_consume; [done|]. by intros s3.
  - intros s2 H2 [= Hc]. rewrite (peek_src s2 H2) in Hc. split; [done|].
    by apply (stop_clean _ is_identifier_continue continue_high).
  - apply H1.
  - intros [] s2 H2. exact H2.
Qed.

Lemma post_some_variable s :
  cl s -> opt_is (peek s) x24 = true -> post (fun _ => cl) (some_token consume_variable_or_dollar s).
Proof. intros Hs Hx. rewrite (peek_src s) in Hx by apply Hs. apply post_some, post_variable; [apply Hs | done]. Qed.

(** A symbol at the cursor is consumed as a token. *)
Lemma post_some_at s kind x :
  cl s -> opt_is (peek s) x = true -> is_ascii x = true ->
  post (fun _ => cl) (some_token (consume_fixed_token kind 1) s).
Proof.
  intros Hs Hx Ha. rewrite (peek_src s) in Hx by apply Hs. apply (post_some_one _ _ x); [done| |done].
  by apply opt_is_Some.
Qed.

Lemma post_some_text s kind needle n :
  cl s -> needle <> [] -> forallb is_ascii needle = true ->
  starts_with (drop (offset s) src) needle = true -> n = length needle ->
  post (fun _ => cl) (some_token (consume_fixed_token kind n) s).
Proof.
  intros Hs Hne Ha Hp ->. apply post_some, post_fixed; [apply Hs|]. by apply clean_prefix.
Qed.

Lemma post_ampersand s :
  cl s -> opt_is (peek s) x26 = true -> post (fun _ => cl) (some_token consume_ampersand s).
Proof. intros Hs Hx. by apply (post_some_at s _ x26). Qed.

Lemma keeps_remaining_inline_html : keeps consume_remaining_inline_html.
Proof.
  intros s Hs. unfold consume_remaining_inline_html. cbv zeta. apply post_bind.
  unfold lift. apply post_obind. intros n Hn. apply post_bind, post_consume_to; [apply Hs | |].
  - unfold usize_sub in Hn. rewrite (inv_src s) in Hn by apply Hs.
    destruct (Nat.leb_spec (offset s) (length src)); [|done]. injection Hn as <-. apply clean_end. lia.
  - intros s1 H1. do 2 apply post_modify. by apply (cl_frame s1).
Qed.

Lemma close_tag_clean s :
  inv s -> starts_with (drop (offset s) src) (lit "?>") = true -> clean (offset s + close_tag_len s).
Proof.
  intros Hs Hp. unfold close_tag_len. rewrite !(peek_n_src s) by done.
  destruct (_ && _) eqn:H1.
  { apply andb_true_iff in H1 as [_ H1]. apply (opt_is_ascii _ x0a) in H1 as [_ H1]; [|done].
    by replace (offset s + 4) with (offset s + 3 + 1) by lia. }
  destruct (opt_in _ _) eqn:H2; [|by apply (clean_prefix _ (lit "?>"))].
  destruct (opt_in_ascii _ [x0a; x0d] eq_refl H2) as (x & Hx & Ha).
  replace (offset s + 3) with (offset s + 2 + 1) by lia. by apply (clean_after _ x).
Qed.

Lemma keeps_whitespace kind :
  keeps (consume_while_token kind (fun s => is_some_and (peek s) is_php_whitespace)).
Proof.
  intros s Hs. unfold consume_while_token. cbv zeta. apply post_bind.
  eapply post_mono; [apply (keeps_while_class _ is_php_whitespace whitespace_ascii); [|exact Hs]|by intros ? s'].
  intros s1 H1 [= [_ H]%andb_true_iff]. by rewrite (peek_src s1 H1) in H.
Qed.

Lemma start_high x : is_ascii x = false -> is_identifier_start x = true.
Proof. intros H. destruct (is_identifier_start x) eqn:E; [done|]. exfalso.
  revert E H. enough (is_identifier_start x || is_ascii x = true) by (destruct (is_identifier_start x), (is_ascii x); done).
  revert x. apply byte_forall. by vm_compute. Qed.

Lemma bad_ascii x : is_bad_character x = true -> is_ascii x = true.
Proof. revert x. ascii_class. Qed.

(** *** Scripting mode *)

Lemma post_then {A B} (m : M A) s (k : A * Lexer -> outcome (B * Lexer)) Q :
  keeps m -> cl s -> (forall a s', cl s' -> post Q (k (a, s'))) -> post Q (obind (m s) k).
Proof. intros Hm Hs Hk. apply post_obind. intros [a s'] E. apply Hk. by eapply keeps_use. Qed.

Lemma post_frame s f (k : M (option Token)) :
  lx_source (f s) = lx_source s -> lx_cursor (f s) = lx_cursor s -> cl s ->
  (cl (f s) -> post (fun _ => cl) (k (f s))) -> post (fun _ => cl) ((modify f ;;; k) s).
Proof. intros Hf Hc Hs Hk. apply post_modify, Hk. by apply (cl_frame s). Qed.

Lemma post_semicolon_halt s :
  cl s -> opt_is (peek s) x3b = true ->
  post (fun _ => cl) ((let* token := consume_fixed_token (SymChar x3b) 1 in
     modify (set_mode LexerMode.InlineHtml) ;;; modify (set_halt_compiler_seen false) ;;;
     modify (set_halt_compiler_significant_tokens 0) ;;; ret (Some token)) s).
Proof.
  intros Hs Hx. rewrite (peek_src s) in Hx by apply Hs. apply post_bind.
  eapply post_mono; [apply (post_fixed_one _ _ x3b); [apply Hs | by apply opt_is_Some | done]|].
  intros t s1 H1. do 3 apply post_modify. by apply (cl_frame s1).
Qed.

Lemma post_close_tag s start line :
  cl s -> starts_with (drop (offset s) src) (lit "?>") = true ->
  post (fun _ => cl) ((consume_len (close_tag_len s) ;;; modify (set_mode LexerMode.InlineHtml) ;;;
     some_token (token_from (TokenKind.Named TokenName.CloseTag) start line)) s).
Proof.
  intros Hs Hp. apply post_bind, post_consume_to; [apply Hs | apply close_tag_clean; [apply Hs | done] |].
  intros s1 H1. apply post_modify, post_some, post_token_from. by apply (cl_frame s1).
Qed.

Lemma peek_byte s x :
  inv s -> negb (is_eof s) = true -> default x00 (peek s) = x -> src !! offset s = Some x.
Proof.
  intros Hs He Hx. rewrite (is_eof_src s Hs) in He. rewrite (peek_src s Hs) in Hx.
  apply negb_true_iff, Nat.leb_gt in He. destruct (lookup_lt_is_Some_2 _ _ He) as [y Hy].
  rewrite Hy in Hx. cbn in Hx. by subst y.
Qed.

Lemma post_bad_character s start line :
  cl s -> is_eof s = false -> is_bad_character (default x00 (peek s)) = true ->
  post (fun _ => cl) ((consume_len 1 ;;;
     let* range := gets (fun s => TextRange_new start (offset s)) in
     push_diagnostic LexDiagnosticKind.BadCharacter "bad control character in scripting mode"
       range line ;;;
     ret (Some (mkToken (TokenKind.Named TokenName.BadCharacter) range line))) s).
Proof.
  intros Hs He Hb. eapply post_bind, post_consume_one; [apply Hs | | by apply bad_ascii in Hb |].
  - eapply (peek_byte s); [apply Hs | by rewrite He | done].
  - intros s1 H1. apply post_gets, post_bind. by apply (cl_frame s1).
Qed.

(** The single character that no other rule of the scanner takes. *)
Lemma post_character s x start line :
  cl s -> is_some_and (peek s) is_identifier_start = false -> x = default x00 (peek s) ->
  post (fun _ => cl) ((consume_len 1 ;;; some_token (token_from (SymChar x) start line)) s).
Proof.
  intros Hs Hi _. rewrite (peek_src s) in Hi by apply Hs. apply post_bind.
  destruct (src !! offset s) as [y|] eqn:Hy.
  - eapply post_consume_one; [apply Hs | done | | by intros s'].
    destruct (is_ascii y) eqn:Ha; [done|]. cbn [is_some_and] in Hi. by rewrite (start_high y Ha) in Hi.
  - apply post_consume_to; [apply Hs | | by intros s'].
    apply clean_end. apply lookup_ge_None in Hy. lia.
Qed.

(** The rules after those for strings and heredocs. *)
Lemma post_scripting_tail s :
  cl s ->
  post (fun _ => cl) (
  if opt_is (peek s) x60 then
    let start := offset s in let line := lx_line s in
    (modify (enter_encapsed_mode LexerMode.Backtick start line) ;;;
     some_token (consume_fixed_token (SymChar x60) 1)) s
  else
  olet cast := cast_at_cursor s in
  match cast with Some (kind, len) => some_token (consume_fixed_token kind len) s | None =>
  olet yield_from := consume_yield_from s in
  match yield_from with (Some token, s) => Ret (Some token, s) | (None, s) =>
  if opt_is (peek s) x24 then some_token consume_variable_or_dollar s
  else
  match property_hook_visibility_at_cursor s with
  | Some (kind, len) => some_token (consume_fixed_token kind len) s
  | None =>
  if opt_is (peek s) x5c && is_some_and (peek_n s 1) is_identifier_start then
    some_token (consume_qualified_name bk (TokenKind.Named TokenName.NameFullyQualified) true) s
  else if opt_is (peek s) x5c then
    some_token (consume_fixed_token (TokenKind.Named TokenName.NsSeparator) 1) s
  else if is_some_and (peek s) is_identifier_start then
    some_token (consume_identifier_or_name bk) s
  else
  olet operator := operator_at_cursor s in
  match operator with Some (kind, len) => some_token (consume_fixed_token kind len) s | None =>
  if opt_is (peek s) x26 then some_token consume_ampersand s
  else
    let start := offset s in let line := lx_line s in
    let x := default x00 (peek s) in
    (consume_len 1 ;;; some_token (token_from (SymChar x) start line)) s
  end end end end).
Proof.
  intros Hs. destruct (opt_is (peek s) x60) eqn:Hb.
  { rewrite (peek_src s) in Hb by apply Hs. apply (post_enter_encapsed s _ _ _ _ x60); [done | by apply opt_is_Some | done]. }
  apply post_obind. intros [[kind n]|] Hcast.
  { apply post_some, post_fixed; [apply Hs|]. apply (cast_clean s kind); [apply Hs | done]. }
  clear Hb Hcast. apply post_then; [apply keeps_yield_from | done |]. clear s Hs. intros [t|] s Hs; [exact Hs|].
  destruct (opt_is (peek s) x24) eqn:Hd; [by apply post_some_variable|].
  destruct (property_hook_visibility_at_cursor s) as [[kind n]|] eqn:Hv.
  { apply post_some, post_fixed; [apply Hs|]. apply (visibility_clean s kind); [apply Hs | done]. }
  destruct (_ && _); [apply post_some, lands_qualified_name, Hs|].
  destruct (opt_is (peek s) x5c) eqn:Hbs; [by apply (post_some_at s _ x5c)|].
  destruct (is_some_and (peek s) is_identifier_start) eqn:Hi; [apply post_some, lands_identifier_or_name, Hs|].
  apply post_obind. intros [[kind n]|] Hop.
  { apply post_some, post_fixed; [apply Hs|]. apply (operator_clean s kind); [apply Hs | done]. }
  destruct (opt_is (peek s) x26) eqn:Ha; [by apply post_ampersand|]. cbv zeta. by apply post_character.
Qed.

Lemma keeps_scripting : keeps (next_scripting_token bk).
Proof.
  intros s Hs. unfold next_scripting_token. destruct (is_eof s) eqn:He; [exact Hs|].
  destruct (lx_halt_compiler_seen s && opt_is (peek s) x3b) eqn:H1.
  { apply andb_true_iff in H1 as [_ H1]. by apply post_semicolon_halt. }
  clear H1. destruct (_ && _); [by apply post_some, keeps_remaining_inline_html|].
  apply post_at_cursor; [apply Hs | intros Hp; by apply post_close_tag |].
  destruct (is_php_whitespace _); [by apply post_some, keeps_whitespace|].
  apply post_at_cursor; [apply Hs | intros Hp; by apply (post_some_text s _ (lit "#[")) |].
  do 2 (apply post_at_cursor; [apply Hs | intros Hp; apply post_some, lands_line_comment, Hs |]).
  apply post_at_cursor; [apply Hs | intros Hp; apply post_some, lands_block_comment, Hs |].
  destruct (is_bad_character _) eqn:Hb; [by apply post_bad_character|].
  destruct (_ || _); [by apply post_some, keeps_number|].
  apply post_then; [apply keeps_constant_string | done |]. clear s Hs He Hb. intros [t|] s Hs; [exact Hs|].
  apply post_then; [apply keeps_heredoc_start | done |]. clear s Hs. intros [t|] s Hs; [exact Hs|].
  by apply post_scripting_tail.
Qed.

(** *** Interpolated strings *)

Lemma post_frame2 s f g (k : M (option Token)) :
  lx_source (g (f s)) = lx_source s -> lx_cursor (g (f s)) = lx_cursor s -> cl s ->
  (cl (g (f s)) -> offset (g (f s)) = offset s -> peek (g (f s)) = peek s -> post (fun _ => cl) (k (g (f s)))) ->
  post (fun _ => cl) ((modify f ;;; modify g ;;; k) s).
Proof.
  intros Hf Hc Hs Hk. do 2 apply post_modify. apply Hk; [by apply (cl_frame s)|..];
    unfold offset, peek; by rewrite Hc.
Qed.

Lemma post_flags_at s f g kind x :
  lx_source (g (f s)) = lx_source s -> lx_cursor (g (f s)) = lx_cursor s -> cl s ->
  opt_is (peek s) x = true -> is_ascii x = true ->
  post (fun _ => cl) ((modify f ;;; modify g ;;; some_token (consume_fixed_token kind 1)) s).
Proof.
  intros Hf Hc Hs Hx Ha. apply post_frame2; [done..|]. intros H1 _ Hp.
  apply (post_some_at _ _ x); [done | by rewrite Hp | done].
Qed.

Lemma post_flags_text s f g kind needle n :
  lx_source (g (f s)) = lx_source s -> lx_cursor (g (f s)) = lx_cursor s -> cl s ->
  0 < n <= length needle -> forallb is_ascii needle = true ->
  starts_with (drop (offset s) src) needle = true ->
  post (fun _ => cl) ((modify f ;;; modify g ;;; some_token (consume_fixed_token kind n)) s).
Proof.
  intros Hf Hc Hs Hn Ha Hp. apply post_frame2; [done..|]. intros H1 Ho _.
  apply post_some, post_fixed; [apply H1|]. rewrite Ho.
  apply starts_with_spec in Hp as [rest Hr].
  assert (Hd : starts_with (drop (offset s) src) (take n needle) = true).
  { apply starts_with_spec. exists (drop n needle ++ rest). by rewrite app_assoc, take_drop. }
  apply clean_prefix in Hd; [by rewrite length_take_le in Hd by lia| |].
  - destruct needle; [cbn in Hn; lia|]. by destruct n; [lia|].
  - rewrite forallb_forall in Ha |- *. intros x Hx. apply Ha. rewrite <- (take_drop n needle).
    apply in_or_app. by left.
Qed.

Lemma post_flags_word s f g name :
  lx_source (g (f s)) = lx_source s -> lx_cursor (g (f s)) = lx_cursor s -> cl s ->
  post (fun _ => cl) ((modify f ;;; modify g ;;; some_token (consume_identifier_token bk name)) s).
Proof.
  intros Hf Hc Hs. apply post_frame2; [done..|]. intros H1 _ _.
  apply post_some, lands_identifier_token, H1.
Qed.

Lemma keeps_num_string : keeps consume_num_string.
Proof.
  intros s Hs. unfold consume_num_string. cbv zeta. apply post_bind.
  eapply post_mono; [apply (keeps_while_class _ is_decimal_digit decimal_ascii); [|exact Hs]|by intros ? s'].
  intros s1 H1 [= H]. by rewrite (peek_src s1 H1) in H.
Qed.

Lemma at_variable_dollar s : at_variable s = true -> opt_is (peek s) x24 = true.
Proof. unfold at_variable. by intros [? _]%andb_true_iff. Qed.

Lemma lands_escaped_or_byte b s : inv s -> post (fun _ => inv) (consume_escaped_or_byte b s).
Proof.
  intros Hs. unfold consume_escaped_or_byte. destruct (b && _).
  - apply post_bind, post_consume; [done|]. intros s1 H1 _. destruct (negb _); [|exact H1].
    apply post_consume; [done|]. by intros s2.
  - apply post_consume; [done|]. by intros s2.
Qed.

(** The bytes at which a string's text stops. *)
Lemma text_stop_clean s b :
  inv s ->
  starts_with (drop (offset s) src) (lit "{$") || starts_with (drop (offset s) src) (lit "${")
    || at_variable s || (b && opt_is (peek s) x7d) = true ->
  clean (offset s).
Proof.
  intros Hs. assert (Ho : forall x, is_ascii x = true -> src !! offset s = Some x -> clean (offset s))
    by (intros x Ha Hx; by apply (clean_at _ x)).
  intros [[[H|H]%orb_true_iff|H]%orb_true_iff|H]%orb_true_iff.
  - apply (Ho x7b eq_refl). by apply (prefix_at _ (lit "{$")).
  - apply (Ho x24 eq_refl). by apply (prefix_at _ (lit "${")).
  - apply (Ho x24 eq_refl). apply at_variable_dollar in H. rewrite (peek_src s Hs) in H. by apply opt_is_Some.
  - apply andb_true_iff in H as [_ H]. rewrite (peek_src s Hs) in H. by apply (Ho x7d eq_refl), opt_is_Some.
Qed.

Lemma eof_clean s : inv s -> is_eof s = true -> cl s.
Proof. intros Hs H. split; [done|]. rewrite (is_eof_src s Hs) in H. by apply clean_end, Nat.leb_le. Qed.

Lemma lands_encapsed_text delimiter : is_ascii delimiter = true -> lands (consume_encapsed_text delimiter).
Proof.
  intros Ha s Hs. unfold consume_encapsed_text. cbv zeta. apply post_bind.
  eapply post_mono; [apply (post_while inv cl); [| |exact Hs]|].
  - intros s1 H1 _. by apply lands_escaped_or_byte.
  - intros s1 H1. destruct (is_eof s1) eqn:He; [intros _; by apply eof_clean|].
    destruct (opt_is (peek s1) delimiter) eqn:Hd.
    { intros _. split; [done|]. rewrite (peek_src s1 H1) in Hd. by apply (opt_is_ascii _ delimiter). }
    rewrite !(at_cursor_src s1) by done. cbn [obind]. intros [= H%negb_false_iff].
    split; [done|]. by apply (text_stop_clean s1 (lx_in_braced_interpolation s1)).
  - intros [] s1 H1. apply post_modify. by apply (cl_frame s1).
Qed.

Lemma lands_heredoc_text : lands consume_heredoc_text.
Proof.
  intros s Hs. unfold consume_heredoc_text. cbv zeta. apply post_bind.
  eapply post_mono; [apply (post_loop (fun _ => inv) _ (fun _ => cl)); [|exact Hs]|].
  - intros _ s1 H1. destruct (is_eof s1) eqn:He; [by apply eof_clean|].
    apply post_obind. intros e Hend. rewrite !(at_cursor_src s1) by done. cbn [obind].
    destruct (_ || _) eqn:Hstop.
    + split; [done|]. apply orb_true_iff in Hstop as [H|[_ H]%andb_true_iff].
      * destruct e as [n|]; [|done]. by apply (heredoc_end_clean s1 n).
      * by apply (text_stop_clean s1 (lx_in_braced_interpolation s1)).
    + apply post_bind. eapply post_mono; [by apply lands_escaped_or_byte|]. intros ? s2 H2. exact H2.
  - intros [] s1 H1. apply post_modify. by apply (cl_frame s1).
Qed.

Lemma keeps_interpolation : keeps (interpolation_token bk).
Proof.
  intros s Hs. unfold interpolation_token, set_after_variable.
  destruct (_ && _); [by apply post_flags_word|].
  destruct (_ && _); [by apply post_flags_word|].
  destruct (_ && _); [by apply post_some, keeps_num_string|].
  destruct (lx_in_string_var_offset s && opt_is (peek s) x5d) eqn:H1.
  { apply andb_true_iff in H1 as [_ H1]. apply post_modify, (post_some_at _ _ x5d); [by apply (cl_frame s) | done | done]. }
  destruct (lx_in_braced_interpolation s && opt_is (peek s) x7d) eqn:H2.
  { apply andb_true_iff in H2 as [_ H2]. by apply (post_flags_at s _ _ _ x7d). }
  apply post_at_cursor; [apply Hs | intros Hp; apply (post_flags_text s _ _ _ (lit "{$")); [done..| |done|done]; cbn; lia |].
  apply post_at_cursor; [apply Hs | intros Hp |].
  { apply post_modify. apply (post_flags_text _ _ _ _ (lit "${")); [done..| | |done|done];
      [by apply (cl_frame s) | cbn; lia]. }
  destruct (at_variable s) eqn:Hv.
  { apply at_variable_dollar in Hv. rewrite (peek_src s) in Hv by apply Hs. apply post_bind.
    eapply post_mono; [apply post_variable; [apply Hs | done]|]. intros t s1 H3.
    apply post_modify. by apply (cl_frame s1). }
  apply post_obind. intros arrow Harrow. destruct arrow.
  { destruct (lx_last_encapsed_variable s); [|done]. rewrite (at_cursor_src s) in Harrow by apply Hs.
    injection Harrow as Hp. apply (post_flags_text s _ _ _ (lit "->")); [done..| |done|done]. cbn; lia. }
  destruct (lx_last_encapsed_variable s && opt_is (peek s) x5b) eqn:H3; [|exact Hs].
  apply andb_true_iff in H3 as [_ H3]. by apply (post_flags_at s _ _ _ x5b).
Qed.

(** *** Every mode *)

Lemma cl_leave s : cl s -> cl (clear_encapsed_state (set_mode LexerMode.Scripting s)).
Proof. intros Hs. apply (cl_frame s); [reflexivity | reflexivity | exact Hs]. Qed.

Lemma keeps_encapsed delimiter : is_ascii delimiter = true -> keeps (next_encapsed_token bk delimiter).
Proof.
  intros Ha s Hs. unfold next_encapsed_token. destruct (is_eof s) eqn:He.
  { apply post_bind. by apply (cl_frame s). }
  destruct (opt_is (peek s) delimiter) eqn:Hd.
  { do 2 apply post_modify. apply (post_some_at _ _ delimiter); [by apply cl_leave | exact Hd | exact Ha]. }
  apply post_then; [apply keeps_interpolation | done |]. intros [t|] s1 H1; [exact H1|].
  apply post_some, lands_encapsed_text; [done | apply H1].
Qed.

Lemma keeps_restore : keeps restore_encapsed_snapshot.
Proof.
  intros s Hs. unfold restore_encapsed_snapshot. destruct (lx_encapsed_stack s); [exact Hs|].
  by apply (cl_frame s).
Qed.

Lemma post_heredoc_end s n :
  cl s -> clean (offset s + n) ->
  post (fun _ => cl) ((let* token := consume_fixed_token (TokenKind.Named TokenName.EndHeredoc) n in
       let* restored := restore_encapsed_snapshot in
       (if negb restored
        then modify (set_mode LexerMode.Scripting) ;;;
             modify clear_heredoc_state ;;;
             modify clear_encapsed_state
        else ret tt) ;;;
       ret (Some token)) s).
Proof.
  intros Hs Hn. apply post_bind. eapply post_mono; [apply post_fixed; [apply Hs | done]|].
  intros t s1 H1. apply post_bind. eapply post_mono; [by apply keeps_restore|].
  intros restored s2 H2. apply post_bind. destruct (negb restored); [|exact H2].
  do 2 apply post_modify. by apply (cl_frame s2).
Qed.

Lemma keeps_heredoc : keeps (next_heredoc_token bk).
Proof.
  intros s Hs. unfold next_heredoc_token. destruct (is_eof s) eqn:He.
  { apply post_bind. by apply (cl_frame s). }
  apply post_obind. intros [n|] Hend.
  { apply post_heredoc_end; [done|]. apply (heredoc_end_clean s n); [apply Hs | done]. }
  destruct (_ && _).
  { destruct (opt_is (peek s) x7d) eqn:Hx; [|by apply keeps_scripting].
    by apply (post_flags_at s _ _ _ x7d). }
  assert (Htail : forall r s1, cl s1 -> post (fun _ => cl)
    (match (r, s1) with
     | (Some token, s) => Ret (Some token, s)
     | (None, s) => some_token consume_heredoc_text s
     end)).
  { intros [t|] s1 H1; [exact H1|]. apply post_some, lands_heredoc_text, H1. }
  destruct (negb _).
  - unfold next_interpolation_token_without_delimiter.
    apply post_then; [apply keeps_interpolation | done | done].
  - exact (Htail None s Hs).
Qed.

Lemma cursor_prefix s off needle :
  inv s -> cursor_starts_with_at s off needle = starts_with (drop (offset s + off) src) needle.
Proof.
  intros Hs. rewrite starts_with_lookups. unfold cursor_starts_with_at.
  generalize (zip (seq 0 (length needle)) needle). intros l.
  induction l as [|[i x] l IH]; [done|]. cbn [forallb].
  by rewrite IH, (peek_n_src s _ Hs), Nat.add_assoc.
Qed.

Lemma tag_space_clean s off n :
  inv s -> clean (offset s + off) -> n = off + php_tag_space_len (lx_cursor s) off -> clean (offset s + n).
Proof.
  intros Hs Hc ->. unfold php_tag_space_len.
  change (Cursor.peek_n (lx_cursor s)) with (peek_n s). rewrite !(peek_n_src s) by done.
  destruct (_ && _) eqn:H1.
  { apply andb_true_iff in H1 as [_ H1]. apply (opt_is_ascii _ x0a) in H1 as [_ H1]; [|done].
    by replace (offset s + (off + 2)) with (offset s + (off + 1) + 1) by lia. }
  destruct (is_some_and _ _) eqn:H2; [|by rewrite Nat.add_0_r].
  destruct (class_ascii _ is_ascii_whitespace ltac:(ascii_class) H2) as (x & Hx & Ha & _).
  rewrite Nat.add_assoc. by apply (clean_after _ x).
Qed.

Lemma open_tag_clean s off kind n :
  inv s -> open_tag_at_offset s off = Some (kind, n) ->
  clean (offset s + off) /\ clean (offset s + (off + n)).
Proof.
  intros Hs. unfold open_tag_at_offset. rewrite !(cursor_prefix s) by done.
  assert (Hstart : forall w rest, starts_with (drop (offset s + off) src) (lit w) = true ->
            lit w = x3c :: rest -> clean (offset s + off)).
  { intros w rest H Hw. apply (clean_at _ x3c); [|done]. apply (prefix_at _ (lit w)); [by rewrite Hw | done]. }
  assert (Hend : forall w, lit w <> [] -> forallb is_ascii (lit w) = true ->
            starts_with (drop (offset s + off) src) (lit w) = true -> clean (offset s + (off + length (lit w)))).
  { intros w Hne Ha H. rewrite Nat.add_assoc. by apply clean_prefix. }
  destruct (starts_with _ (lit "<?=")) eqn:H1.
  { intros [= _ <-]. split; [by eapply Hstart|]. by apply (Hend "<?="%string). }
  destruct ((_ || _) && _) eqn:H2.
  { intros [= _ <-]. apply andb_true_iff in H2 as [H2 _].
    assert (clean (offset s + off) /\ clean (offset s + (off + 5))) as [Hs1 He1].
    { apply orb_true_iff in H2 as [H2|H2]; (split; [by eapply Hstart|]);
        [by apply (Hend "<?php"%string) | by apply (Hend "<?PHP"%string)]. }
    split; [done|]. apply (tag_space_clean s (off + 5)); [done..|lia]. }
  clear H2. destruct (_ && _) eqn:H3; [|by intros]. intros [= _ <-]. apply andb_true_iff in H3 as [_ H3].
  split; [by eapply Hstart|]. apply (tag_space_clean s (off + 2)); [done| |lia]. by apply (Hend "<?"%string).
Qed.

Lemma lands_inline_loop n s :
  inv s ->
  post (fun (_ : unit) => cl) (loop n (fun _ : unit => fun s =>
            if negb (is_eof s) && is_none (open_tag_at_cursor s) then
              olet rest := slice_from (lx_source s) (offset s) in
              match find_byte rest x3c with
              | None => (consume_len (length rest) ;;; ret (inr tt)) s
              | Some relative =>
                  if relative =? 0 then (consume_len 1 ;;; ret (inl tt)) s
                  else (consume_len relative ;;; ret (inl tt)) s
              end
            else ret (inr tt) s) tt s).
Proof.
  intros Hs. apply (post_loop (fun _ => inv)); [|done]. clear s Hs. intros _ s Hs.
  destruct (is_eof s) eqn:He; [by apply eof_clean|]. cbn [negb andb].
  destruct (open_tag_at_cursor s) as [[kind len]|] eqn:Ht; cbn [is_none].
  { split; [done|]. apply open_tag_clean in Ht as [Ht _]; [|done]. by rewrite Nat.add_0_r in Ht. }
  apply post_obind. intros rest Hr. destruct (find_byte rest x3c) as [rel|].
  - destruct (rel =? 0); apply post_bind, post_consume; try done; by intros s'.
  - apply post_bind. eapply post_rest_end; [done..|]. by intros s'.
Qed.

Lemma keeps_inline_html : keeps next_inline_html_token.
Proof.
  intros s Hs. unfold next_inline_html_token. destruct (is_eof s); [exact Hs|].
  apply post_obind. intros bom _. cbv zeta.
  match goal with |- post _ ((_ ;;; ?k) s) =>
    assert (Hk : forall s1, inv s1 -> post (fun _ => cl) (k s1)) end.
  { clear s Hs bom. intros s Hs. cbv beta. destruct (open_tag_at_cursor s) as [[kind n]|] eqn:Ht.
    - apply open_tag_clean in Ht as [_ Ht]; [|done].
      apply post_bind, post_consume_to; [done | done |]. intros s1 H1. apply post_modify.
      apply post_some, post_token_from. by apply (cl_frame s1).
    - apply post_bind. eapply post_mono; [by apply lands_inline_loop|]. intros [] s1 H1. exact H1. }
  destruct (_ && _).
  - apply post_bind, post_consume; [apply Hs|]. intros s1 H1 _. by apply Hk.
  - apply post_ret_seq, Hk, Hs.
Qed.

Lemma remember_fields kind s :
  lx_source (remember_significant_token kind s) = lx_source s /\
  lx_cursor (remember_significant_token kind s) = lx_cursor s.
Proof. unfold remember_significant_token. repeat case_match; done. Qed.

Lemma post_modes s : cl s -> post (fun _ => cl)
  (match lx_mode s with
   | LexerMode.InlineHtml => next_inline_html_token
   | LexerMode.Scripting => next_scripting_token bk
   | LexerMode.DoubleQuote => next_encapsed_token bk x22
   | LexerMode.Backtick => next_encapsed_token bk x60
   | LexerMode.Heredoc | LexerMode.Nowdoc => next_heredoc_token bk
   | _ => next_scripting_token bk
   end s).
Proof.
  intros Hs. destruct (lx_mode s); try by apply keeps_scripting.
  - by apply keeps_inline_html.
  - by apply keeps_encapsed.
  - by apply keeps_encapsed.
  - by apply keeps_heredoc.
  - by apply keeps_heredoc.
Qed.

Lemma keeps_next_token : keeps (next_token bk).
Proof.
  intros s Hs. unfold next_token. cbv zeta.
  set (s0 := if negb (lx_emitted_placeholder s) then set_emitted_placeholder true s else s).
  assert (cl s0) as H0.
  { subst s0. destruct (negb _); [|exact Hs]. by apply (cl_frame s). }
  clearbody s0. apply post_bind. eapply post_mono; [by apply post_modes|]. intros [t|] s1 H1.
  - apply post_modify. destruct (remember_fields (token_kind t) s1). by apply (cl_frame s1).
  - destruct (_ && _); [|exact H1]. apply post_modify, post_gets. by apply (cl_frame s1).
Qed.
End Clean.

(** ** Valid UTF-8 *)

Lemma cont_not_ascii x : utf8_cont x = true -> is_ascii x = false.
Proof.
  unfold utf8_cont, in_range, is_ascii. rewrite andb_true_iff, N.leb_le. intros [H _].
  by apply N.ltb_ge.
Qed.

Lemma in_range_cont x lo hi :
  in_range x lo hi = true -> (128 <= lo)%N -> (hi <= 191)%N -> utf8_cont x = true.
Proof. unfold utf8_cont, in_range. rewrite !andb_true_iff, !N.leb_le. lia. Qed.

(** A valid text is empty or a character of one to four bytes, all but the first
    of them continuation bytes, and a valid text. *)
Lemma utf8_valid_cons l :
  utf8_valid l = true ->
  l = [] \/ exists x cs rest, l = x :: cs ++ rest /\ utf8_cont x = false /\
    (cs = [] \/ is_ascii x = false) /\ Forall (fun c => utf8_cont c = true) cs /\ utf8_valid rest = true.
Proof.
  destruct l as [|a l1]; [by left|]. intros H. right. cbn [utf8_valid] in H.
  destruct (N.ltb_spec (u8 a) 128) as [Ha|Ha].
  { exists a, [], l1. repeat split; [|by left|constructor|done].
    destruct (utf8_cont a) eqn:E; [|done]. apply cont_not_ascii in E. unfold is_ascii in E.
    by apply N.ltb_ge in E; lia. }
  assert (Hna : is_ascii a = false) by (unfold is_ascii; by apply N.ltb_ge).
  assert (Hlead : forall lo hi, in_range a lo hi = true -> (192 <= lo)%N -> utf8_cont a = false).
  { intros lo hi. unfold utf8_cont, in_range. rewrite andb_true_iff, !N.leb_le. intros [? _] ?.
    apply andb_false_iff. right. apply N.leb_gt. lia. }
  destruct l1 as [|c1 l2]; [done|]. destruct (in_range a 194 223) eqn:H2.
  { apply andb_true_iff in H as [Hc H]. exists a, [c1], l2.
    repeat split; [by eapply Hlead | by right | by repeat constructor | done]. }
  destruct l2 as [|c2 l3]; [done|]. destruct (in_range a 224 239) eqn:H3.
  { apply andb_true_iff in H as [[Hc1 Hc2]%andb_true_iff H]. exists a, [c1; c2], l3.
    repeat split; [by eapply Hlead | by right | | done]. repeat constructor; [|done].
    destruct (u8 a =? 224)%N; [by eapply in_range_cont|]. destruct (u8 a =? 237)%N; [by eapply in_range_cont | done]. }
  destruct l3 as [|c3 l4]; [done|].
  apply andb_true_iff in H as [[[[H4 Hc1]%andb_true_iff Hc2]%andb_true_iff Hc3]%andb_true_iff H].
  exists a, [c1; c2; c3], l4. repeat split; [by eapply Hlead | by right | | done].
  repeat constructor; [|done..].
  destruct (u8 a =? 240)%N; [by eapply in_range_cont|]. destruct (u8 a =? 244)%N; [by eapply in_range_cont | done].
Qed.

(** Neither the first byte nor one that follows an ASCII byte is a
    continuation byte. *)
Lemma utf8_first l y : utf8_valid l = true -> l !! 0 = Some y -> utf8_cont y = false.
Proof.
  intros [->|(x & cs & rest & -> & Hx & _)]%utf8_valid_cons; [done|]. by intros [= <-].
Qed.

Lemma utf8_after_ascii n l i x y :
  length l <= n -> utf8_valid l = true -> l !! i = Some x -> is_ascii x = true ->
  l !! S i = Some y -> utf8_cont y = false.
Proof.
  revert l i. induction n as [|n IH]; intros l i Hn Hv Hx Ha Hy; [by destruct l; [|cbn in Hn; lia]|].
  apply utf8_valid_cons in Hv as [->|(z & cs & rest & -> & Hz & Hcs & Hcont & Hr)]; [done|].
  cbn [length] in Hn. rewrite length_app in Hn.
  destruct i as [|i].
  - injection Hx as ->. destruct Hcs as [->|Hcs]; [|by rewrite Ha in Hcs].
    by apply (utf8_first rest).
  - change ((cs ++ rest) !! i = Some x) in Hx. change ((cs ++ rest) !! S i = Some y) in Hy.
    destruct (decide (i < length cs)) as [Hi|Hi].
    + rewrite lookup_app_l in Hx by done. rewrite Forall_lookup in Hcont.
      apply Hcont, cont_not_ascii in Hx. congruence.
    + rewrite lookup_app_r in Hx by lia. rewrite lookup_app_r in Hy by lia.
      replace (S i - length cs) with (S (i - length cs)) in Hy by lia.
      eapply IH; [|done..]. lia.
Qed.

Lemma clean_char_boundary src i :
  utf8_valid src = true -> i <= length src -> clean src i -> is_char_boundary src i = true.
Proof.
  intros Hv Hi Hc. unfold is_char_boundary. destruct (Nat.eqb_spec i 0); [done|].
  destruct (Nat.ltb_spec i (length src)) as [Hlt|]; [|apply Nat.eqb_eq; lia].
  destruct (lookup_lt_is_Some_2 _ _ Hlt) as [y Hy]. rewrite Hy. apply negb_true_iff.
  destruct Hc as [?|[?|[(x & Hx & Ha)|(_ & x & Hx & Ha)]]]; [lia..| |].
  - assert (x = y) as -> by congruence. destruct (utf8_cont y) eqn:E; [|done].
    apply cont_not_ascii in E. congruence.
  - apply (utf8_after_ascii (length src) src (i - 1) x); [done..|]. by replace (S (i - 1)) with i by lia.
Qed.

(** ** The tokens of a source *)

Section Tokens.
Context {mc : Memchr} {laws : MemchrLaws mc} (bk : backend).
Context (source : bytes) (config : LexerConfig).
Context (Hsize : (N.of_nat (length source) + 1 < 2 ^ 32)%N).

Lemma clean_new : cl source (Lexer_new source config).
Proof. split; [split; [done..|cbn; lia]|]. by left. Qed.

Lemma clean_bom : clean source (skipped_bom source config).
Proof.
  unfold skipped_bom, bom_skipped. destruct (_ && _) eqn:H; [|by left].
  apply andb_true_iff in H as [_ H]. destruct (open_tag_at_offset _ 3) as [[kind n]|] eqn:Ht; [|done].
  apply (open_tag_clean source) in Ht as [Ht _]; [done | apply clean_new].
Qed.

Lemma lex_all_ends r :
  lex_all bk source config = Ret r -> Forall (fun t => clean source (tok_end t)) (tokens r).
Proof.
  unfold lex_all. cbv zeta.
  match goal with |- context [loop ?n ?body [] ?s0] =>
    assert (Hrun : post (fun acc _ => Forall (fun t => clean source (tok_end t)) acc) (loop n body [] s0)) end.
  { apply (post_loop (fun acc s => lex_inv source config acc s /\ cl source s /\
      Forall (fun t => clean source (tok_end t)) acc)).
    - intros acc s (Hinv & Hcl & Hacc). apply post_bind.
      destruct (next_token_reads bk s (inv_ok _ _ _ _ Hinv)) as (r' & s' & Hnext & Hpost).
      pose proof (keeps_use _ _ _ _ _ (keeps_next_token bk source) Hcl Hnext) as Hcl'.
      rewrite Hnext. cbn [post]. destruct Hpost as [(t & -> & Ht)|Hend].
      + split; [by eapply lex_inv_reads|]. split; [done|]. apply Forall_app. split; [done|].
        apply Forall_singleton. destruct Ht as [_ _ Hst Hr _ _].
        unfold tok_end. rewrite Hr, range_end by lia. apply Hcl'.
      + destruct r' as [t|]; [|exact Hacc].
        destruct (lex_inv_eof _ _ Hsize _ _ _ _ Hinv Hend) as (Hinv' & _ & _ & Ho).
        split; [done|]. split; [done|]. apply Forall_app. split; [done|]. apply Forall_singleton.
        destruct Hend as (_ & _ & _ & _ & _ & Hif). destruct (_ && _); [|by destruct Hif].
        destruct Hif as [[= ->] _]. unfold tok_end. cbn [token_range]. rewrite range_end by done. apply Hcl.
    - split; [by apply lex_inv_new|]. split; [apply clean_new | done]. }
  destruct (loop _ _ _ _) as [[acc s]| |]; [|done..]. cbn [obind post] in *. by intros [= <-].
Qed.

Lemma tiles_starts a ts c :
  tiles a ts c -> clean source a -> Forall (fun t => clean source (tok_end t)) ts ->
  Forall (fun t => clean source (tok_start t) /\ tok_start t <= tok_end t <= c) ts.
Proof.
  intros Ht Ha Hts. revert a Ht Ha. induction Hts as [|t ts He _ IH]; intros a; [constructor|].
  cbn [tiles]. intros (Hs & Hlt & Hrest) Ha. constructor; [|by apply (IH (tok_end t))].
  rewrite Hs. apply tiles_le in Hrest. split; [done | lia].
Qed.

(** The text of every token is a slice at character boundaries. *)
Lemma lex_all_texts r :
  utf8_valid source = true -> lex_all bk source config = Ret r ->
  Forall (fun t => token_text t source = Some (token_bytes source t)) (tokens r).
Proof.
  intros Hv Hr. pose proof (lex_all_ends r Hr) as He.
  destruct (lex_all_lexed bk source config Hsize) as (r' & Hr' & body & Htok & Ht & _).
  assert (r' = r) as -> by congruence. rewrite Htok in *. apply Forall_app in He as [He He2].
  pose proof (tiles_starts _ _ _ Ht clean_bom He) as Hst.
  assert (Hok : forall t, clean source (tok_start t) -> tok_start t <= tok_end t <= length source ->
            clean source (tok_end t) -> token_text t source = Some (token_bytes source t)).
  { intros t Hcs Hle Hce. unfold token_text, str_get. fold (tok_start t). fold (tok_end t).
    rewrite !clean_char_boundary by (done || lia). by rewrite (proj2 (Nat.leb_le _ _)) by lia. }
  apply Forall_app. split.
  - rewrite Forall_forall in *. intros t Hin. destruct (Hst t Hin). apply Hok; auto.
  - destruct (emit_eof config); [|done]. apply Forall_singleton. inversion He2; subst.
    assert (tok_start (eof_token source) = length source /\ tok_end (eof_token source) = length source) as [E1 E2].
    { unfold tok_start, tok_end, eof_token. cbn [token_range]. by rewrite range_start, range_end. }
    apply Hok; [|lia|done]. rewrite E1. by apply clean_end.
Qed.
End Tokens.

(** Tokens never split a character.  For a source that is valid UTF-8 (as every
    [&str] is) the two ends of every token are character boundaries, so
    [Token::text], which slices the source by [str::get], always returns the
    token's bytes and the default of the parser for a missing text is never
    taken.  The lexer scans single bytes: this rests on every scan stopping
    next to an ASCII byte or at the end of the source. *)
Theorem token_text_total {mc : Memchr} {laws : MemchrLaws mc} bk source config
    (Hsize : (N.of_nat (length source) + 1 < 2 ^ 32)%N) (Hutf8 : utf8_valid source = true) :
  exists r, lex_all bk source config = Ret r /\
    Forall (fun t => token_text t source = Some (token_bytes source t)) (tokens r).
Proof.
  destruct (lex_all_lexed bk source config Hsize) as (r & Hr & _). exists r. split; [done|].
  by eapply lex_all_texts.
Qed.

Definition accented_source : bytes :=
  lit "<?php $" ++ [xc3; xa9] ++ lit " = '" ++ [xe2; x82; xac] ++ lit "';".

Lemma token_text_total_witness :
  utf8_valid accented_source = true /\
  exists r, lex_all (mc := memchr_naive) BScalar accented_source sample_config = Ret r /\
    Forall (fun t => token_text t accented_source = Some (token_bytes accented_source t)) (tokens r).
Proof.
  split; [vm_compute; reflexivity|].
  apply (token_text_total (laws := memchr_naive_laws)); vm_compute; reflexivity.
Defined.
