(* ===== verification/SyntaxTree.v ===== *)
(** * SyntaxTree: syntax kinds, the lossless tree and the tree sink

    [crates/php_syntax/src/syntax_kind.rs], [syntax_node.rs], [diagnostics.rs],
    [parser/event.rs], [tree_sink.rs] and the text reconstruction of
    [parse.rs]. *)

From Stdlib Require Import Strings.String Strings.Byte.
From stdpp Require Import base list option numbers.
From S2P Require Import Prelude RustStd Source Token.

(** ** Kinds *)

Module SyntaxNodeKind.
Inductive t : Set :=
| SourceFile | PhpBlock | InlineHtml | StatementList | Error | EmptyStmt | ExprStmt
| EchoStmt | ReturnStmt | ThrowStmt | BreakStmt | ContinueStmt | BlockStmt | IfStmt
| WhileStmt | DoWhileStmt | ForStmt | ForeachStmt | SwitchStmt | TryStmt | CatchClause
| FinallyClause | DeclareStmt | GlobalStmt | StaticStmt | UnsetStmt | GotoStmt | LabelStmt
| NamespaceStmt | UseDecl | ConstDecl | FunctionDecl | ParamList | Param | ClassDecl
| InterfaceDecl | TraitDecl | EnumDecl | ClassMemberList | MethodDecl | PropertyDecl
| PropertyHookDecl | ClassConstDecl | TraitUseDecl | AttributeGroup | Attribute | Type_
| UnionType | IntersectionType | NullableType | DnfType | Expr | Literal | Name | Variable_
| ParenthesizedExpr | PrefixExpr | PostfixExpr | VoidCastExpr | BinaryExpr | AssignExpr
| TernaryExpr | CallExpr | ArrayDimFetchExpr | PropertyFetchExpr | StaticAccessExpr
| ArrayExpr | ArrayPair | MatchExpr | ThrowExpr | ConstructExpr | YieldExpr | ClosureExpr
| ArrowFunctionExpr | NewExpr | CloneExpr | CloneWithExpr | PipeExpr | String | Encapsed
| Heredoc.

Definition name (k : t) : string :=
  match k with
  | SourceFile => "SOURCE_FILE"
  | PhpBlock => "PHP_BLOCK"
  | InlineHtml => "INLINE_HTML"
  | StatementList => "STATEMENT_LIST"
  | Error => "ERROR"
  | EmptyStmt => "EMPTY_STMT"
  | ExprStmt => "EXPR_STMT"
  | EchoStmt => "ECHO_STMT"
  | ReturnStmt => "RETURN_STMT"
  | ThrowStmt => "THROW_STMT"
  | BreakStmt => "BREAK_STMT"
  | ContinueStmt => "CONTINUE_STMT"
  | BlockStmt => "BLOCK_STMT"
  | IfStmt => "IF_STMT"
  | WhileStmt => "WHILE_STMT"
  | DoWhileStmt => "DO_WHILE_STMT"
  | ForStmt => "FOR_STMT"
  | ForeachStmt => "FOREACH_STMT"
  | SwitchStmt => "SWITCH_STMT"
  | TryStmt => "TRY_STMT"
  | CatchClause => "CATCH_CLAUSE"
  | FinallyClause => "FINALLY_CLAUSE"
  | DeclareStmt => "DECLARE_STMT"
  | GlobalStmt => "GLOBAL_STMT"
  | StaticStmt => "STATIC_STMT"
  | UnsetStmt => "UNSET_STMT"
  | GotoStmt => "GOTO_STMT"
  | LabelStmt => "LABEL_STMT"
  | NamespaceStmt => "NAMESPACE_STMT"
  | UseDecl => "USE_DECL"
  | ConstDecl => "CONST_DECL"
  | FunctionDecl => "FUNCTION_DECL"
  | ParamList => "PARAM_LIST"
  | Param => "PARAM"
  | ClassDecl => "CLASS_DECL"
  | InterfaceDecl => "INTERFACE_DECL"
  | TraitDecl => "TRAIT_DECL"
  | EnumDecl => "ENUM_DECL"
  | ClassMemberList => "CLASS_MEMBER_LIST"
  | MethodDecl => "METHOD_DECL"
  | PropertyDecl => "PROPERTY_DECL"
  | PropertyHookDecl => "PROPERTY_HOOK_DECL"
  | ClassConstDecl => "CLASS_CONST_DECL"
  | TraitUseDecl => "TRAIT_USE_DECL"
  | AttributeGroup => "ATTRIBUTE_GROUP"
  | Attribute => "ATTRIBUTE"
  | Type_ => "TYPE"
  | UnionType => "UNION_TYPE"
  | IntersectionType => "INTERSECTION_TYPE"
  | NullableType => "NULLABLE_TYPE"
  | DnfType => "DNF_TYPE"
  | Expr => "EXPR"
  | Literal => "LITERAL"
  | Name => "NAME"
  | Variable_ => "VARIABLE"
  | ParenthesizedExpr => "PARENTHESIZED_EXPR"
  | PrefixExpr => "PREFIX_EXPR"
  | PostfixExpr => "POSTFIX_EXPR"
  | VoidCastExpr => "VOID_CAST_EXPR"
  | BinaryExpr => "BINARY_EXPR"
  | AssignExpr => "ASSIGN_EXPR"
  | TernaryExpr => "TERNARY_EXPR"
  | CallExpr => "CALL_EXPR"
  | ArrayDimFetchExpr => "ARRAY_DIM_FETCH_EXPR"
  | PropertyFetchExpr => "PROPERTY_FETCH_EXPR"
  | StaticAccessExpr => "STATIC_ACCESS_EXPR"
  | ArrayExpr => "ARRAY_EXPR"
  | ArrayPair => "ARRAY_PAIR"
  | MatchExpr => "MATCH_EXPR"
  | ThrowExpr => "THROW_EXPR"
  | ConstructExpr => "CONSTRUCT_EXPR"
  | YieldExpr => "YIELD_EXPR"
  | ClosureExpr => "CLOSURE_EXPR"
  | ArrowFunctionExpr => "ARROW_FUNCTION_EXPR"
  | NewExpr => "NEW_EXPR"
  | CloneExpr => "CLONE_EXPR"
  | CloneWithExpr => "CLONE_WITH_EXPR"
  | PipeExpr => "PIPE_EXPR"
  | String => "STRING"
  | Encapsed => "ENCAPSED"
  | Heredoc => "HEREDOC"
  end%string.

(** The discriminant of a variant; the derived [PartialEq] compares it. *)
Definition discriminant (k : t) : N :=
  match k with
  | SourceFile => 0 | PhpBlock => 1 | InlineHtml => 2 | StatementList => 3 | Error => 4
  | EmptyStmt => 5 | ExprStmt => 6 | EchoStmt => 7 | ReturnStmt => 8 | ThrowStmt => 9
  | BreakStmt => 10 | ContinueStmt => 11 | BlockStmt => 12 | IfStmt => 13 | WhileStmt => 14
  | DoWhileStmt => 15 | ForStmt => 16 | ForeachStmt => 17 | SwitchStmt => 18 | TryStmt => 19
  | CatchClause => 20 | FinallyClause => 21 | DeclareStmt => 22 | GlobalStmt => 23
  | StaticStmt => 24 | UnsetStmt => 25 | GotoStmt => 26 | LabelStmt => 27
  | NamespaceStmt => 28 | UseDecl => 29 | ConstDecl => 30 | FunctionDecl => 31
  | ParamList => 32 | Param => 33 | ClassDecl => 34 | InterfaceDecl => 35 | TraitDecl => 36
  | EnumDecl => 37 | ClassMemberList => 38 | MethodDecl => 39 | PropertyDecl => 40
  | PropertyHookDecl => 41 | ClassConstDecl => 42 | TraitUseDecl => 43
  | AttributeGroup => 44 | Attribute => 45 | Type_ => 46 | UnionType => 47
  | IntersectionType => 48 | NullableType => 49 | DnfType => 50 | Expr => 51 | Literal => 52
  | Name => 53 | Variable_ => 54 | ParenthesizedExpr => 55 | PrefixExpr => 56
  | PostfixExpr => 57 | VoidCastExpr => 58 | BinaryExpr => 59 | AssignExpr => 60
  | TernaryExpr => 61 | CallExpr => 62 | ArrayDimFetchExpr => 63 | PropertyFetchExpr => 64
  | StaticAccessExpr => 65 | ArrayExpr => 66 | ArrayPair => 67 | MatchExpr => 68
  | ThrowExpr => 69 | ConstructExpr => 70 | YieldExpr => 71 | ClosureExpr => 72
  | ArrowFunctionExpr => 73 | NewExpr => 74 | CloneExpr => 75 | CloneWithExpr => 76
  | PipeExpr => 77 | String => 78 | Encapsed => 79 | Heredoc => 80
  end%N.

Definition variants : list t :=
  [SourceFile; PhpBlock; InlineHtml; StatementList; Error; EmptyStmt; ExprStmt; EchoStmt;
   ReturnStmt; ThrowStmt; BreakStmt; ContinueStmt; BlockStmt; IfStmt; WhileStmt;
   DoWhileStmt; ForStmt; ForeachStmt; SwitchStmt; TryStmt; CatchClause; FinallyClause;
   DeclareStmt; GlobalStmt; StaticStmt; UnsetStmt; GotoStmt; LabelStmt; NamespaceStmt;
   UseDecl; ConstDecl; FunctionDecl; ParamList; Param; ClassDecl; InterfaceDecl; TraitDecl;
   EnumDecl; ClassMemberList; MethodDecl; PropertyDecl; PropertyHookDecl; ClassConstDecl;
   TraitUseDecl; AttributeGroup; Attribute; Type_; UnionType; IntersectionType;
   NullableType; DnfType; Expr; Literal; Name; Variable_; ParenthesizedExpr; PrefixExpr;
   PostfixExpr; VoidCastExpr; BinaryExpr; AssignExpr; TernaryExpr; CallExpr;
   ArrayDimFetchExpr; PropertyFetchExpr; StaticAccessExpr; ArrayExpr; ArrayPair; MatchExpr;
   ThrowExpr; ConstructExpr; YieldExpr; ClosureExpr; ArrowFunctionExpr; NewExpr; CloneExpr;
   CloneWithExpr; PipeExpr; String; Encapsed; Heredoc].

Definition eqb (a c : t) : bool := (discriminant a =? discriminant c)%N.

Lemma node_kind_variants_discriminant k : variants !! N.to_nat (discriminant k) = Some k.
Proof. by destruct k. Qed.

Lemma node_kind_eqb_eq a c : eqb a c = true <-> a = c.
Proof.
  unfold eqb. rewrite N.eqb_eq. split; [|by intros ->]. intros H.
  pose proof (node_kind_variants_discriminant a) as Ha. rewrite H, node_kind_variants_discriminant in Ha. congruence.
Qed.
End SyntaxNodeKind.

Module SyntaxTokenKind.
Inductive t : Set :=
| Named (n : TokenName.t)
| Symbol (s : SymbolKind.t)
| Eof.

Definition name (k : t) : bytes :=
  match k with
  | Named n => lit (TokenName.as_php_name n)
  | Symbol s => SymbolKind.reference_name s
  | Eof => lit "EOF"
  end.

Definition eqb (a c : t) : bool :=
  match a, c with
  | Named n, Named m => TokenName.eqb n m
  | Symbol (SymbolKind.Char x), Symbol (SymbolKind.Char y) => x =b y
  | Eof, Eof => true
  | _, _ => false
  end.

Lemma token_kind_eqb_eq a c : eqb a c = true <-> a = c.
Proof.
  destruct a as [n|[x]|], c as [m|[y]|]; cbn [eqb]; try done.
  - rewrite TokenName.eqb_eq. split; congruence.
  - rewrite beq_eq. split; congruence.
Qed.
End SyntaxTokenKind.

Module SyntaxKind.
Inductive t : Set :=
| Token (k : SyntaxTokenKind.t)
| Node (k : SyntaxNodeKind.t).

Definition SOURCE_FILE : t := Node SyntaxNodeKind.SourceFile.
Definition ERROR : t := Node SyntaxNodeKind.Error.

Definition from_token_kind (kind : TokenKind.t) : t :=
  match kind with
  | TokenKind.Named n => Token (SyntaxTokenKind.Named n)
  | TokenKind.Symbol s => Token (SyntaxTokenKind.Symbol s)
  | TokenKind.Eof => Token SyntaxTokenKind.Eof
  end.

Definition is_trivia (k : t) : bool :=
  match k with
  | Token (SyntaxTokenKind.Named
      (TokenName.Whitespace | TokenName.Comment | TokenName.DocComment)) => true
  | _ => false
  end.

Definition is_token (k : t) : bool := match k with Token _ => true | Node _ => false end.
Definition is_node (k : t) : bool := match k with Node _ => true | Token _ => false end.

Definition name (k : t) : bytes :=
  match k with
  | Token k => SyntaxTokenKind.name k
  | Node k => lit (SyntaxNodeKind.name k)
  end.

(** The derived [PartialEq]. *)
Definition eqb (a c : t) : bool :=
  match a, c with
  | Token x, Token y => SyntaxTokenKind.eqb x y
  | Node x, Node y => SyntaxNodeKind.eqb x y
  | _, _ => false
  end.

Lemma syntax_kind_eqb_eq a c : eqb a c = true <-> a = c.
Proof.
  destruct a, c; cbn [eqb]; try done.
  - rewrite SyntaxTokenKind.token_kind_eqb_eq. split; congruence.
  - rewrite SyntaxNodeKind.node_kind_eqb_eq. split; congruence.
Qed.
End SyntaxKind.

Abbreviation SyntaxKind := SyntaxKind.t.

(** ** Parse diagnostics *)

Module ParseDiagnosticId.
Inductive t : Set :=
| LexerDiagnostic | UnexpectedToken | ExpectedToken | ExpectedExpression | ExpectedStatement
| ExpectedType | ExpectedIdentifier | UnclosedDelimiter.

Definition as_str (i : t) : string :=
  match i with
  | LexerDiagnostic => "lexer_diagnostic"
  | UnexpectedToken => "unexpected_token"
  | ExpectedToken => "expected_token"
  | ExpectedExpression => "expected_expression"
  | ExpectedStatement => "expected_statement"
  | ExpectedType => "expected_type"
  | ExpectedIdentifier => "expected_identifier"
  | UnclosedDelimiter => "unclosed_delimiter"
  end%string.

Definition code (i : t) : string :=
  match i with
  | LexerDiagnostic => "E_PHP_PARSE_LEXER_DIAGNOSTIC"
  | UnexpectedToken => "E_PHP_PARSE_UNEXPECTED_TOKEN"
  | ExpectedToken => "E_PHP_PARSE_EXPECTED_TOKEN"
  | ExpectedExpression => "E_PHP_PARSE_EXPECTED_EXPRESSION"
  | ExpectedStatement => "E_PHP_PARSE_EXPECTED_STATEMENT"
  | ExpectedType => "E_PHP_PARSE_EXPECTED_TYPE"
  | ExpectedIdentifier => "E_PHP_PARSE_EXPECTED_IDENTIFIER"
  | UnclosedDelimiter => "E_PHP_PARSE_UNCLOSED_DELIMITER"
  end%string.
End ParseDiagnosticId.

Inductive ParseSeverity : Set := ParseSeverity_Error.

Record ParseDiagnostic := mkParseDiagnostic {
  pd_id : ParseDiagnosticId.t;
  pd_message : string;
  pd_span : TextRange;
  pd_expected : list string;
  pd_severity : ParseSeverity
}.

Definition ParseDiagnostic_new (id : ParseDiagnosticId.t) (message : string) (span : TextRange)
    : ParseDiagnostic :=
  mkParseDiagnostic id message span [] ParseSeverity_Error.

Definition with_expected (d : ParseDiagnostic) (expected : list string) : ParseDiagnostic :=
  mkParseDiagnostic (pd_id d) (pd_message d) (pd_span d) expected (pd_severity d).

(** ** Tree *)

Record SyntaxToken := mkSyntaxToken {
  st_kind : SyntaxKind;
  st_text : bytes;
  st_range : TextRange;
  st_line : N  (** [u32] *)
}.

(** [SyntaxNode] and [SyntaxElement]; a node owns its children. *)
Inductive SyntaxNode : Type :=
| SyntaxNode_new (kind : SyntaxKind) (range : TextRange) (children : list SyntaxElement)
with SyntaxElement : Type :=
| ElementNode (n : SyntaxNode)
| ElementToken (t : SyntaxToken).

Definition node_kind (n : SyntaxNode) : SyntaxKind :=
  match n with SyntaxNode_new k _ _ => k end.
Definition node_range (n : SyntaxNode) : TextRange :=
  match n with SyntaxNode_new _ r _ => r end.
Definition node_children (n : SyntaxNode) : list SyntaxElement :=
  match n with SyntaxNode_new _ _ c => c end.

(** [push_reconstructed_text], with the text pushed to [out] as the result. *)
Fixpoint push_reconstructed_text (n : SyntaxNode) : bytes :=
  match n with
  | SyntaxNode_new _ _ children =>
      (fix go (cs : list SyntaxElement) : bytes :=
         match cs with
         | [] => []
         | ElementNode n :: cs => push_reconstructed_text n ++ go cs
         | ElementToken t :: cs => st_text t ++ go cs
         end) children
  end.

Definition reconstruct_text (n : SyntaxNode) : bytes := push_reconstructed_text n.

(** ** Events and the tree sink *)

Inductive Event : Type :=
| Placeholder
| StartNode (kind : SyntaxKind)
| AddToken
| EventError (d : ParseDiagnostic)
| FinishNode.

Record NodeFrame := mkNodeFrame { nf_kind : SyntaxKind; nf_children : list SyntaxElement }.

Definition element_start (e : SyntaxElement) : nat :=
  match e with
  | ElementNode n => to_usize (start (node_range n))
  | ElementToken t => to_usize (start (st_range t))
  end.

Definition element_end (e : SyntaxElement) : nat :=
  match e with
  | ElementNode n => to_usize (end_ (node_range n))
  | ElementToken t => to_usize (end_ (st_range t))
  end.

Definition range_for_children (children : list SyntaxElement) : TextRange :=
  let start := match children with [] => 0 | e :: _ => element_start e end in
  let end_ := match children with
              | [] => start
              | _ => foldr (fun e m => Nat.max (element_end e) m) 0 children
              end in
  TextRange_new start end_.

(** The state of the loop of [TreeSink::finish].  The stack of open frames has
    its top first. *)
Record TreeSink := mkTreeSink {
  sink_tokens : list Token;
  sink_cursor : nat;
  sink_stack : list NodeFrame;
  sink_root : option SyntaxNode
}.

Definition next_token (source : bytes) (s : TreeSink) : option SyntaxToken * TreeSink :=
  match sink_tokens s !! sink_cursor s with
  | None => (None, s)
  | Some token =>
      let text := match token_text token source with Some t => t | None => [] end in
      (Some (mkSyntaxToken (SyntaxKind.from_token_kind (token_kind token)) text
               (token_range token) (token_line token)),
       mkTreeSink (sink_tokens s) (sink_cursor s + 1) (sink_stack s) (sink_root s))
  end.

Definition attach_element (e : SyntaxElement) (s : TreeSink) : TreeSink :=
  match sink_stack s with
  | frame :: stack =>
      mkTreeSink (sink_tokens s) (sink_cursor s)
        (mkNodeFrame (nf_kind frame) (nf_children frame ++ [e]) :: stack) (sink_root s)
  | [] =>
      match e with
      | ElementNode n => mkTreeSink (sink_tokens s) (sink_cursor s) [] (Some n)
      | ElementToken _ => s
      end
  end.

(** One iteration of the loop of [TreeSink::finish]. *)
Definition sink_event (source : bytes) (s : TreeSink) (event : Event) : TreeSink :=
  match event with
  | Placeholder => s
  | StartNode kind =>
      mkTreeSink (sink_tokens s) (sink_cursor s) (mkNodeFrame kind [] :: sink_stack s) (sink_root s)
  | AddToken =>
      match next_token source s with
      | (Some token, s) => attach_element (ElementToken token) s
      | (None, s) => s
      end
  | EventError d =>
      attach_element (ElementNode (SyntaxNode_new SyntaxKind.ERROR (pd_span d) [])) s
  | FinishNode =>
      match sink_stack s with
      | [] => s
      | frame :: stack =>
          attach_element
            (ElementNode (SyntaxNode_new (nf_kind frame) (range_for_children (nf_children frame))
                            (nf_children frame)))
            (mkTreeSink (sink_tokens s) (sink_cursor s) stack (sink_root s))
      end
  end.

Definition TreeSink_new (tokens : list Token) : TreeSink := mkTreeSink tokens 0 [] None.

Definition sink_finish (source : bytes) (tokens : list Token) (events : list Event) : SyntaxNode :=
  match sink_root (fold_left (sink_event source) events (TreeSink_new tokens)) with
  | Some root => root
  | None => SyntaxNode_new SyntaxKind.SOURCE_FILE (TextRange_new 0 (length source)) []
  end.
