(* ===== verification/Parser.v ===== *)
(** * Parser: token source, parser core, recovery sets and binding powers

    [crates/php_syntax/src/token_source.rs], [parser/core.rs],
    [parser/marker.rs], [recovery.rs], [parser/precedence.rs],
    [grammar/mod.rs] and [grammar/php85.rs]. *)

From Stdlib Require Import Strings.String Strings.Byte.
From stdpp Require Import base list option numbers.
From S2P Require Import Prelude RustStd Source Token SyntaxTree.

(** ** Token source *)

Record TokenSource := mkTokenSource {
  ts_source : bytes;
  ts_tokens : list Token;
  ts_cursor : nat
}.

Record KeywordContext := mkKeywordContext {
  kc_token_name : TokenName.t;
  kc_text : bytes
}.

Module TokenSource.
Definition new (source : bytes) (tokens : list Token) : TokenSource :=
  mkTokenSource source tokens 0.

Definition nth (t : TokenSource) (n : nat) : SyntaxKind :=
  match ts_tokens t !! (ts_cursor t + n) with
  | None => SyntaxKind.from_token_kind TokenKind.Eof
  | Some token => SyntaxKind.from_token_kind (token_kind token)
  end.

Definition current (t : TokenSource) : SyntaxKind := nth t 0.

Definition current_text (t : TokenSource) : bytes :=
  match ts_tokens t !! ts_cursor t with
  | Some token => match token_text token (ts_source t) with Some x => x | None => [] end
  | None => []
  end.

Definition current_range (t : TokenSource) : TextRange :=
  match ts_tokens t !! ts_cursor t with
  | None => TextRange_empty (length (ts_source t))
  | Some token => token_range token
  end.

Definition bump (t : TokenSource) : TokenSource :=
  if ts_cursor t <? length (ts_tokens t)
  then mkTokenSource (ts_source t) (ts_tokens t) (ts_cursor t + 1) else t.

Definition is_eof (t : TokenSource) : bool := length (ts_tokens t) <=? ts_cursor t.

Definition at_ (t : TokenSource) (kind : SyntaxKind) : bool := SyntaxKind.eqb (current t) kind.

Definition eat (t : TokenSource) (kind : SyntaxKind) : bool * TokenSource :=
  if at_ t kind then (true, bump t) else (false, t).

Definition position (t : TokenSource) : nat := ts_cursor t.

Definition into_tokens (t : TokenSource) : list Token := ts_tokens t.
End TokenSource.

Definition is_contextual_name_token (n : TokenName.t) : bool :=
  match n with
  | TokenName.String | TokenName.NameFullyQualified | TokenName.NameQualified
  | TokenName.NameRelative | TokenName.If | TokenName.Else | TokenName.ElseIf | TokenName.EndIf
  | TokenName.Function | TokenName.Class | TokenName.Abstract | TokenName.Final
  | TokenName.Interface | TokenName.Trait | TokenName.Enum | TokenName.Namespace | TokenName.Use
  | TokenName.As | TokenName.InsteadOf | TokenName.Match | TokenName.Readonly | TokenName.Fn
  | TokenName.Yield | TokenName.Case | TokenName.Default | TokenName.Echo | TokenName.Print
  | TokenName.Return | TokenName.Break | TokenName.Continue | TokenName.Extends
  | TokenName.Implements | TokenName.Public | TokenName.Protected | TokenName.Private
  | TokenName.Static | TokenName.Const | TokenName.Var | TokenName.Declare_
  | TokenName.EndDeclare | TokenName.Global | TokenName.Callable | TokenName.Clone
  | TokenName.New | TokenName.While | TokenName.EndWhile | TokenName.Do | TokenName.For
  | TokenName.EndFor | TokenName.Foreach | TokenName.EndForeach | TokenName.Switch
  | TokenName.EndSwitch | TokenName.Try | TokenName.Throw | TokenName.Catch
  | TokenName.Finally | TokenName.Include | TokenName.IncludeOnce | TokenName.Require
  | TokenName.RequireOnce | TokenName.Eval | TokenName.Isset | TokenName.Empty
  | TokenName.Unset | TokenName.List | TokenName.Array | TokenName.Instanceof
  | TokenName.Goto | TokenName.Exit | TokenName.HaltCompiler => true
  | _ => false
  end.

Definition is_name_start (x : byte) : bool :=
  (x =b "_"%byte) || (x =b "\"%byte) || is_ascii_alphabetic x || (128 <=? u8 x)%N.

Definition is_name_continue (x : byte) : bool := is_name_start x || is_ascii_digit x.

Definition is_contextual_name_text (text : bytes) : bool :=
  match text with
  | [] => false
  | first :: rest => is_name_start first && forallb is_name_continue rest
  end.

Definition current_keyword_context (t : TokenSource) : option KeywordContext :=
  match ts_tokens t !! ts_cursor t with
  | None => None
  | Some token =>
      match token_kind token with
      | TokenKind.Named token_name =>
          match token_text token (ts_source t) with
          | None => None
          | Some text =>
              if is_contextual_name_token token_name && is_contextual_name_text text
              then Some (mkKeywordContext token_name text) else None
          end
      | _ => None
      end
  end.

(** ** Parser *)

Record Parser := mkParser {
  token_source : TokenSource;
  events : list Event;
  diagnostics : list ParseDiagnostic
}.

Definition Parser_new (t : TokenSource) : Parser := mkParser t [] [].

(** A grammar function: a computation on the parser. *)
Abbreviation PM := (SM Parser).

Record Marker := mkMarker { marker_pos : nat }.
Record CompletedMarker := mkCompletedMarker { completed_pos : nat; completed_kind : SyntaxKind }.

Definition push_event (e : Event) : PM unit :=
  modify (fun p => mkParser (token_source p) (events p ++ [e]) (diagnostics p)).

Definition start : PM Marker := fun p =>
  let pos := length (events p) in
  Ret (mkMarker pos, mkParser (token_source p) (events p ++ [Placeholder]) (diagnostics p)).

(** [self.events[pos] = ...] panics when [pos] is out of range. *)
Definition complete_marker (pos : nat) (kind : SyntaxKind) : PM unit := fun p =>
  if pos <? length (events p) then
    Ret (tt, mkParser (token_source p) (<[pos := StartNode kind]> (events p) ++ [FinishNode])
               (diagnostics p))
  else Panic.

Definition complete (m : Marker) (kind : SyntaxKind) : PM CompletedMarker :=
  complete_marker (marker_pos m) kind ;;;
  ret (mkCompletedMarker (marker_pos m) kind).

Definition current (p : Parser) : SyntaxKind := TokenSource.current (token_source p).
Definition nth (p : Parser) (n : nat) : SyntaxKind := TokenSource.nth (token_source p) n.
Definition current_text (p : Parser) : bytes := TokenSource.current_text (token_source p).
Definition current_range (p : Parser) : TextRange := TokenSource.current_range (token_source p).
Definition is_eof (p : Parser) : bool := TokenSource.is_eof (token_source p).
Definition position (p : Parser) : nat := TokenSource.position (token_source p).

(** [parser.at(kind)], as a condition on the parser. *)
Definition at_ (kind : SyntaxKind) (p : Parser) : bool := TokenSource.at_ (token_source p) kind.

Definition at_keyword_context (p : Parser) : bool :=
  match current_keyword_context (token_source p) with Some _ => true | None => false end.

Definition bump : PM unit := fun p =>
  if negb (is_eof p) then
    Ret (tt, mkParser (TokenSource.bump (token_source p)) (events p ++ [AddToken]) (diagnostics p))
  else Ret (tt, p).

Definition eat (kind : SyntaxKind) : PM bool := fun p =>
  if at_ kind p then (bump ;;; ret true) p else Ret (false, p).

Definition error (d : ParseDiagnostic) : PM unit := fun p =>
  Ret (tt, mkParser (token_source p) (events p ++ [EventError d]) (diagnostics p ++ [d])).

(** ** Diagnostics of the parser core *)

(** [message.contains(needle)] *)
Definition contains (message needle : string) : bool :=
  match String.index 0 needle message with Some _ => true | None => false end.

Definition list_contains (l : list string) (x : string) : bool := existsb (String.eqb x) l.

Definition is_unclosed_delimiter (message : string) (expected : list string) : bool :=
  if contains message "to close" || contains message "after interpolation" then true
  else (length expected =? 1) &&
       existsb (fun item => list_contains [")"; "]"; "}"; "T_END_HEREDOC"]%string item) expected.

Definition classify_expected_diagnostic (message : string) (expected : list string)
    : ParseDiagnosticId.t :=
  if is_unclosed_delimiter message expected then ParseDiagnosticId.UnclosedDelimiter
  else if list_contains expected "expression" then ParseDiagnosticId.ExpectedExpression
  else if existsb (fun item => list_contains ["statement"; "declaration"]%string item) expected
  then ParseDiagnosticId.ExpectedStatement
  else if list_contains expected "type" then ParseDiagnosticId.ExpectedType
  else if existsb (fun item => list_contains ["name"; "T_STRING"; "T_VARIABLE"]%string item) expected
          || contains message "identifier" || contains message "name"
  then ParseDiagnosticId.ExpectedIdentifier
  else match expected with
       | [] => ParseDiagnosticId.UnexpectedToken
       | _ => ParseDiagnosticId.ExpectedToken
       end.

(** *** [str::escape_default] *)

(** The scalar value of the first character and the bytes after it, for a
    text in UTF-8. *)
Definition decode_char (l : bytes) : option (N * bytes) :=
  let c x := (u8 x - 128)%N in
  match l with
  | [] => None
  | a :: l1 =>
    if (u8 a <? 128)%N then Some (u8 a, l1) else
    match l1 with
    | [] => None
    | x1 :: l2 =>
      if (u8 a <? 224)%N then Some ((u8 a - 192) * 64 + c x1, l2)%N else
      match l2 with
      | [] => None
      | x2 :: l3 =>
        if (u8 a <? 240)%N then Some ((u8 a - 224) * 4096 + c x1 * 64 + c x2, l3)%N else
        match l3 with
        | [] => None
        | x3 :: l4 => Some ((u8 a - 240) * 262144 + c x1 * 4096 + c x2 * 64 + c x3, l4)%N
        end
      end
    end
  end.

Definition lower_hex_digit (n : N) : byte := byte_of_N (if n <? 10 then 48 + n else 87 + n)%N.

Fixpoint lower_hex (fuel : nat) (n : N) : bytes :=
  match fuel with
  | O => []
  | S fuel =>
      if (n <? 16)%N then [lower_hex_digit n]
      else lower_hex fuel (n / 16)%N ++ [lower_hex_digit (n mod 16)%N]
  end.

Definition escape_char (c : N) : bytes :=
  if (c =? 9)%N then lit "\t" else if (c =? 13)%N then lit "\r"
  else if (c =? 10)%N then lit "\n"
  else if (c =? 39)%N || (c =? 34)%N || (c =? 92)%N then [x5c; byte_of_N c]
  else if (32 <=? c)%N && (c <=? 126)%N then [byte_of_N c]
  else lit "\u{" ++ lower_hex 6 c ++ lit "}".

Fixpoint escape_chars (fuel : nat) (l : bytes) : bytes :=
  match fuel with
  | O => []
  | S fuel => match decode_char l with
              | None => []
              | Some (c, rest) => escape_char c ++ escape_chars fuel rest
              end
  end.

Definition escape_default (l : bytes) : bytes := escape_chars (length l) l.

Definition error_and_bump (expected : string) : PM unit := fun p =>
  let message :=
    ("unexpected token `" ++ string_of_list_byte (escape_default (current_text p)) ++
     "`, expected " ++ expected)%string in
  (error (with_expected (ParseDiagnostic_new ParseDiagnosticId.UnexpectedToken message
                           (current_range p)) [expected]) ;;;
   bump) p.

Definition error_expected (message : string) (expected : list string) : PM unit := fun p =>
  let id := classify_expected_diagnostic message expected in
  error (with_expected (ParseDiagnostic_new id message (current_range p)) expected) p.

Definition error_expected_with_id (id : ParseDiagnosticId.t) (message : string)
    (expected : list string) : PM unit := fun p =>
  error (with_expected (ParseDiagnostic_new id message (current_range p)) expected) p.

Definition finish (p : Parser) : list Event * list Token * list ParseDiagnostic :=
  (events p, TokenSource.into_tokens (token_source p), diagnostics p).

(** ** Token kinds in the grammar *)

Definition named (n : TokenName.t) : SyntaxKind :=
  SyntaxKind.from_token_kind (TokenKind.Named n).
Definition symbol (x : byte) : SyntaxKind := SyntaxKind.from_token_kind (SymChar x).
Arguments symbol x%_byte_scope.

Definition is_pipe_operator (k : SyntaxKind) : bool := SyntaxKind.eqb k (named TokenName.Pipe).
Definition is_void_cast (k : SyntaxKind) : bool := SyntaxKind.eqb k (named TokenName.VoidCast).
Definition is_clone_keyword (k : SyntaxKind) : bool := SyntaxKind.eqb k (named TokenName.Clone).

(** ** Conditions and loops

    A condition is a boolean function of the parser.  The loops of the
    grammar take their fuel from the grammar record. *)

Definition cond_or (a c : Parser -> bool) (p : Parser) : bool := a p || c p.
Definition cond_and (a c : Parser -> bool) (p : Parser) : bool := a p && c p.
Definition cond_not (a : Parser -> bool) (p : Parser) : bool := negb (a p).
Definition at_trivia (p : Parser) : bool := SyntaxKind.is_trivia (current p).
(** One of the kinds is the current one: [parser.at(a) || parser.at(b) || ...]. *)
Definition at_any (kinds : list SyntaxKind) (p : Parser) : bool :=
  existsb (fun k => at_ k p) kinds.

Infix "|||" := cond_or (at level 50, left associativity) : php_scope.
Infix "&&&" := cond_and (at level 40, left associativity) : php_scope.
Notation "'not_' c" := (cond_not c) (at level 35, c at level 35) : php_scope.

Definition ite {A} (c : Parser -> bool) (a b : PM A) : PM A :=
  bind (gets c) (fun x : bool => if x then a else b).

Notation "'If' c 'Then' a 'Else' b" := (ite c a b)
  (at level 89, c at level 88, a at level 100, b at level 89) : php_scope.
(** The same, with all that follows in the second branch. *)
Notation "'If' c 'Then' a 'Otherwise' b" := (ite c a b)
  (at level 89, c at level 88, a at level 100, b at level 200, only parsing) : php_scope.
Notation "'When' c 'Then' a" := (ite c a (ret tt))
  (at level 89, c at level 88, a at level 89) : php_scope.

Definition while (fuel : nat) (c : Parser -> bool) (body : PM unit) : PM unit :=
  loop fuel (fun _ : unit => If c Then (body ;;; ret (inl tt)) Else ret (inr tt)) tt.

(** The kind of the first token from index [i] that is not trivia: the loops
    over [nth] in the lookahead functions. *)
Fixpoint skip_trivia (fuel : nat) (p : Parser) (i : nat) : nat :=
  match fuel with
  | O => i
  | S fuel => if SyntaxKind.is_trivia (nth p i) then skip_trivia fuel p (i + 1) else i
  end.

Definition lookahead_fuel (p : Parser) : nat := S (length (ts_tokens (token_source p))).

Definition nth_non_trivia_is (start : nat) (expected : SyntaxKind) (p : Parser) : bool :=
  SyntaxKind.eqb (nth p (skip_trivia (lookahead_fuel p) p start)) expected.

Definition next_non_trivia_is := nth_non_trivia_is.

(** ** Recovery sets *)

Definition STMT_RECOVERY : list string := [";"; "}"; "T_CLOSE_TAG"; "EOF"]%string.
Definition EXPR_RECOVERY : list string := [","; ";"; ")"; "]"; "}"; "T_CLOSE_TAG"; "EOF"]%string.
Definition PARAM_RECOVERY : list string := [","; ")"; "EOF"]%string.
Definition ARG_RECOVERY : list string := [","; ")"; "EOF"]%string.
Definition MEMBER_RECOVERY : list string := [";"; "}"; "EOF"]%string.
Definition TYPE_RECOVERY : list string := [","; ")"; ";"; "="; "{"; "EOF"]%string.
Definition ATTRIBUTE_RECOVERY : list string := ["]"; ")"; "EOF"]%string.
Definition STATEMENT_TERMINATORS : list string := STMT_RECOVERY.

Definition at_statement_recovery_token : Parser -> bool :=
  is_eof ||| at_ (symbol ";") ||| at_ (symbol "}") ||| at_ (named TokenName.CloseTag).

Definition at_expr_recovery_token : Parser -> bool :=
  at_statement_recovery_token ||| at_ (symbol ",") ||| at_ (symbol ")") ||| at_ (symbol "]").

Definition at_param_recovery_token : Parser -> bool :=
  is_eof ||| at_ (symbol ",") ||| at_ (symbol ")").

Definition at_arg_recovery_token : Parser -> bool := at_param_recovery_token.

Definition at_member_recovery_token : Parser -> bool :=
  is_eof ||| at_ (symbol ";") ||| at_ (symbol "}").

Definition at_type_recovery_token : Parser -> bool :=
  is_eof ||| at_ (symbol ",") ||| at_ (symbol ")") ||| at_ (symbol ";") ||| at_ (symbol "=")
  ||| at_ (symbol "{").

Definition at_attribute_recovery_token : Parser -> bool :=
  is_eof ||| at_ (symbol "]") ||| at_ (symbol ")").

(** [recover_until]; the [debug_assert] holds because [bump] moves the cursor
    unless the parser is at the end. *)
Definition recover_until (fuel : nat) (boundary : Parser -> bool) : PM unit :=
  loop fuel (fun _ : unit =>
    If not_ boundary Then
      let* before := gets position in
      bump ;;;
      If is_eof ||| (fun p => before <? position p) Then
        If (fun p => position p =? before) Then ret (inr tt) Else ret (inl tt)
      Else (fun _ => Panic)
    Else ret (inr tt)) tt.

(** The public recovery functions of [recovery.rs]. *)
Module Recovery.
Definition recover_to_statement_boundary (fuel : nat) : PM unit :=
  recover_until fuel at_statement_recovery_token.
Definition recover_to_expression_boundary (fuel : nat) : PM unit :=
  recover_until fuel at_expr_recovery_token.
Definition recover_to_parameter_boundary (fuel : nat) : PM unit :=
  recover_until fuel at_param_recovery_token.
Definition recover_to_argument_boundary (fuel : nat) : PM unit :=
  recover_until fuel at_arg_recovery_token.
Definition recover_to_member_boundary (fuel : nat) : PM unit :=
  recover_until fuel at_member_recovery_token.
Definition recover_to_type_boundary (fuel : nat) : PM unit :=
  recover_until fuel at_type_recovery_token.
Definition recover_to_attribute_boundary (fuel : nat) : PM unit :=
  recover_until fuel at_attribute_recovery_token.
End Recovery.

(** ** Binding powers *)

Inductive Associativity : Set := Left | Right.

Record BinaryOperator := mkBinaryOperator {
  bo_kind : SyntaxKind;
  left_bp : N;   (** [u8] *)
  right_bp : N;  (** [u8] *)
  associativity : Associativity
}.

Definition BinaryOperator_left (kind : SyntaxKind) (bp : N) : BinaryOperator :=
  mkBinaryOperator kind bp (bp + 1) Left.
Definition BinaryOperator_right (kind : SyntaxKind) (bp : N) : BinaryOperator :=
  mkBinaryOperator kind bp bp Right.

Definition kind_in (k : SyntaxKind) (l : list SyntaxKind) : bool := existsb (SyntaxKind.eqb k) l.

Definition is_assignment_operator (k : SyntaxKind) : bool :=
  kind_in k
    [symbol "="; named TokenName.PlusEqual; named TokenName.MinusEqual; named TokenName.MulEqual;
     named TokenName.DivEqual; named TokenName.ModEqual; named TokenName.ConcatEqual;
     named TokenName.AndEqual; named TokenName.OrEqual; named TokenName.XorEqual;
     named TokenName.SlEqual; named TokenName.SrEqual; named TokenName.PowEqual;
     named TokenName.CoalesceEqual].

Definition is_bitwise_and_operator (k : SyntaxKind) : bool :=
  kind_in k [symbol "&"; named TokenName.AmpersandFollowedByVarOrVararg;
             named TokenName.AmpersandNotFollowedByVarOrVararg].

Definition is_equality_operator (k : SyntaxKind) : bool :=
  kind_in k [named TokenName.IsEqual; named TokenName.IsNotEqual; named TokenName.IsIdentical;
             named TokenName.IsNotIdentical].

Definition is_comparison_operator (k : SyntaxKind) : bool :=
  kind_in k [symbol "<"; symbol ">"; named TokenName.IsSmallerOrEqual;
             named TokenName.IsGreaterOrEqual; named TokenName.Spaceship].

Definition binary_operator (kind : SyntaxKind) : option BinaryOperator :=
  let eq k := SyntaxKind.eqb kind k in
  if eq (named TokenName.LogicalOr) then Some (BinaryOperator_left kind 10)
  else if eq (named TokenName.LogicalXor) then Some (BinaryOperator_left kind 20)
  else if eq (named TokenName.LogicalAnd) then Some (BinaryOperator_left kind 30)
  else if is_assignment_operator kind then Some (BinaryOperator_right kind 35)
  else if eq (named TokenName.Coalesce) then Some (BinaryOperator_right kind 40)
  else if eq (named TokenName.BooleanOr) then Some (BinaryOperator_left kind 50)
  else if eq (named TokenName.BooleanAnd) then Some (BinaryOperator_left kind 60)
  else if eq (symbol "|") then Some (BinaryOperator_left kind 65)
  else if eq (symbol "^") then Some (BinaryOperator_left kind 66)
  else if is_bitwise_and_operator kind then Some (BinaryOperator_left kind 67)
  else if is_equality_operator kind then Some (BinaryOperator_left kind 70)
  else if eq (named TokenName.Instanceof) then Some (BinaryOperator_left kind 126)
  else if is_comparison_operator kind then Some (BinaryOperator_left kind 80)
  else if eq (named TokenName.Sl) || eq (named TokenName.Sr)
  then Some (BinaryOperator_left kind 90)
  else if eq (symbol ".") then Some (BinaryOperator_left kind 100)
  else if eq (symbol "+") || eq (symbol "-") then Some (BinaryOperator_left kind 110)
  else if is_pipe_operator kind then Some (BinaryOperator_left kind 115)
  else if eq (symbol "*") || eq (symbol "/") || eq (symbol "%")
  then Some (BinaryOperator_left kind 120)
  else if eq (named TokenName.Pow) then Some (BinaryOperator_right kind 130)
  else None.

Definition TERNARY_BP : N := 36.
Definition PREFIX_RIGHT_BP : N := 125.
Definition PRINT_RIGHT_BP : N := 31.
