(* ===== verification/GrammarBase.v ===== *)
(** * GrammarBase: names, types, variables, strings, arrays and attributes

    [crates/php_syntax/src/grammar/names.rs], [types.rs], [variables.rs],
    [strings.rs], [arrays.rs] and [attributes.rs].

    The grammar functions of the source call each other recursively across
    modules.  Here the functions on which every cycle of calls passes are
    fields of the class [Grammar], which a grammar function calls instead of
    the function itself, together with the fuel of the [while] loops; the file
    Grammar ties the knot. *)

From Stdlib Require Import Strings.String Strings.Byte.
From stdpp Require Import base list option numbers.
From S2P Require Import Prelude RustStd Source Token SyntaxTree Parser.

Record TypeShape := mkTypeShape {
  contains_union : bool;
  contains_intersection : bool;
  contains_nullable : bool;
  contains_dnf : bool;
  parenthesized : bool
}.

Class Grammar := {
  g_fuel : nat;
  g_expression_bp : N -> PM bool;
  g_prefix_or_primary : PM bool;
  g_simple_variable : PM bool;
  g_intersection_type : PM TypeShape;
  g_statement : PM unit
}.

Abbreviation NK k := (SyntaxKind.Node k).
Abbreviation T n := (at_ (named n)).
Abbreviation Sy x := (at_ (symbol x)).

(** [continue] and [break] of a loop without loop variables. *)
Definition continue_ : PM (unit + unit) := ret (inl tt).
Definition break_ : PM (unit + unit) := ret (inr tt).

(** [if parser.at(kind) { parser.bump() } else { parser.error_expected(..) }] *)
Definition bump_or_error (kind : SyntaxKind) (message : string) (expected : list string) : PM unit :=
  If at_ kind Then bump Else error_expected message expected.

(** [if !c { parser.error_expected(..) }] *)
Definition unless_error (c : bool) (message : string) (expected : list string) : PM unit :=
  if c then ret tt else error_expected message expected.

Section Common.
Context {G : Grammar}.

Definition bump_trivia : PM unit := while g_fuel at_trivia bump.

Definition loop_ (body : PM (unit + unit)) : PM unit := loop g_fuel (fun _ : unit => body) tt.

Definition parse_expression : PM bool := g_expression_bp 0.

Definition recover_to_statement_boundary : PM unit :=
  Recovery.recover_to_statement_boundary g_fuel.

Definition recover_to_expression_boundary : PM unit :=
  Recovery.recover_to_expression_boundary g_fuel.
End Common.

(** ** [names.rs] *)

Module Names.
Section Names.
Context {G : Grammar}.

Definition at_name_start : Parser -> bool :=
  T TokenName.String ||| T TokenName.NameFullyQualified ||| T TokenName.NameQualified
  ||| T TokenName.NameRelative.

Definition parse_name : PM bool :=
  If not_ at_name_start Then ret false Else
  let* name := start in
  bump ;;;
  loop_
    (bump_trivia ;;;
     If not_ T TokenName.NsSeparator Then break_ Else
     If next_non_trivia_is 1 (symbol "{") Then break_ Otherwise
     bump ;;;
     bump_trivia ;;;
     If T TokenName.String Then bump ;;; continue_
     Otherwise error_expected "expected name segment after namespace separator" ["T_STRING"]%string ;;;
          break_) ;;;
  complete name (NK SyntaxNodeKind.Name) ;;;
  ret true.
End Names.
End Names.

(** ** [variables.rs] *)

Module Variables.
Section Variables.
Context {G : Grammar}.

Definition parse_simple_variable : PM bool :=
  If not_ (T TokenName.Variable_ ||| Sy "$") Then ret false Else
  let* variable := start in
  (If T TokenName.Variable_ Then bump
   Otherwise
     bump ;;;
     bump_trivia ;;;
     If Sy "{" Then
       bump ;;;
       bump_trivia ;;;
       let* ok := parse_expression in
       unless_error ok "expected expression in braced variable" ["expression"]%string ;;;
       bump_trivia ;;;
       bump_or_error (symbol "}") "expected `}` after braced variable" ["}"]%string
     Else If T TokenName.Variable_ ||| Sy "$" Then
       let* _ := g_simple_variable in ret tt
     Else error_expected "expected variable after variable-variable sigil"
            ["T_VARIABLE"; "{"]%string) ;;;
  complete variable (NK SyntaxNodeKind.Variable_) ;;;
  ret true.
End Variables.
End Variables.

(** ** [types.rs] *)

Module Types.
Definition default_shape : TypeShape := mkTypeShape false false false false false.

Definition node_kind (s : TypeShape) : SyntaxNodeKind.t :=
  if contains_dnf s then SyntaxNodeKind.DnfType
  else if contains_union s then SyntaxNodeKind.UnionType
  else if contains_intersection s then SyntaxNodeKind.IntersectionType
  else if contains_nullable s then SyntaxNodeKind.NullableType
  else SyntaxNodeKind.Type_.

Definition at_type_start : Parser -> bool :=
  Sy "?" ||| Sy "(" ||| T TokenName.String ||| T TokenName.NameFullyQualified
  ||| T TokenName.NameQualified ||| T TokenName.NameRelative ||| T TokenName.Array
  ||| T TokenName.Callable ||| T TokenName.Static.

Definition at_intersection_operator : Parser -> bool :=
  Sy "&" ||| T TokenName.AmpersandNotFollowedByVarOrVararg.

Section Types.
Context {G : Grammar}.

Definition parse_type_atom : PM bool :=
  If T TokenName.Array ||| T TokenName.Callable ||| T TokenName.Static Then bump ;;; ret true
  Else Names.parse_name.

Definition parse_type_primary : PM TypeShape :=
  let* nullable :=
    If Sy "?" Then bump ;;; bump_trivia ;;; ret true Else ret false in
  If Sy "(" Then
    bump ;;;
    bump_trivia ;;;
    let* inner := g_intersection_type in
    bump_or_error (symbol ")") "expected `)` to close parenthesized type" [")"]%string ;;;
    ret (mkTypeShape false (contains_intersection inner) (nullable || contains_nullable inner)
           false true)
  Else
  let* atom := parse_type_atom in
  unless_error atom "expected type" ["type"]%string ;;;
  ret (mkTypeShape false false nullable false false).

(** The loop variables are [shape] and [saw_intersection]. *)
Definition parse_intersection_type : PM TypeShape :=
  let* shape := parse_type_primary in
  let* (shape, saw_intersection) :=
    loop g_fuel (fun '(shape, saw_intersection) =>
      bump_trivia ;;;
      If not_ at_intersection_operator Then ret (inr (shape, saw_intersection)) Otherwise
      bump ;;;
      bump_trivia ;;;
      If not_ at_type_start Then
        error_expected "expected type after `&`" ["type"]%string ;;;
        ret (inr (shape, true))
      Else
      let* rhs := parse_type_primary in
      ret (inl (mkTypeShape (contains_union shape) (contains_intersection shape)
                  (contains_nullable shape || contains_nullable rhs) (contains_dnf shape)
                  (parenthesized shape || parenthesized rhs), true)))
      (shape, false) in
  ret (if saw_intersection : bool
       then mkTypeShape (contains_union shape) true (contains_nullable shape) (contains_dnf shape)
              (parenthesized shape)
       else shape).

(** The loop variables are [shape], [saw_union] and [saw_dnf_term]. *)
Definition parse_union_type : PM TypeShape :=
  let* shape := g_intersection_type in
  let* (shape, saw_union, saw_dnf_term) :=
    loop g_fuel (fun '(shape, saw_union, saw_dnf_term) =>
      bump_trivia ;;;
      If not_ Sy "|" Then ret (inr (shape, saw_union, saw_dnf_term)) Otherwise
      bump ;;;
      bump_trivia ;;;
      If not_ at_type_start Then
        error_expected "expected type after `|`" ["type"]%string ;;;
        ret (inr (shape, true, saw_dnf_term))
      Else
      let* rhs := g_intersection_type in
      ret (inl (mkTypeShape (contains_union shape)
                  (contains_intersection shape || contains_intersection rhs)
                  (contains_nullable shape || contains_nullable rhs) (contains_dnf shape)
                  (parenthesized shape),
                true,
                saw_dnf_term || (contains_intersection rhs || parenthesized rhs))))
      (shape, false, contains_intersection shape || parenthesized shape) in
  ret (if saw_union : bool
       then mkTypeShape true (contains_intersection shape) (contains_nullable shape) saw_dnf_term
              (parenthesized shape)
       else shape).

Definition parse_type : PM unit :=
  let* type_node := start in
  let* shape := parse_union_type in
  complete type_node (NK (node_kind shape)) ;;;
  ret tt.

Definition parse_optional_type : PM bool :=
  If not_ at_type_start Then ret false Otherwise
  parse_type ;;; ret true.

Definition parse_optional_return_type : PM unit :=
  bump_trivia ;;;
  If not_ Sy ":" Then ret tt Otherwise
  bump ;;;
  bump_trivia ;;;
  let* ok := parse_optional_type in
  unless_error ok "expected return type after `:`" ["type"]%string.
End Types.
End Types.

(** ** [strings.rs] *)

Module Strings.
(** The string of one double quote. *)
Definition dquote : string := string_of_list_byte [x22].

Definition delimiter_name (delimiter : byte) : string :=
  if delimiter =b x22 then dquote
  else if delimiter =b "`"%byte then "`" else "delimiter".

Section Strings.
Context {G : Grammar}.

(** The loop leaves with true at a [return] and with false at [break] or when
    its condition fails. *)
Definition consume_string_offset : PM unit :=
  bump ;;;
  let* returned :=
    loop g_fuel (fun _ : unit =>
      If is_eof Then ret (inr false)
      Else If Sy "]" Then bump ;;; ret (inr true)
      Else If T TokenName.EncapsedAndWhitespace &&& (fun p => existsb (Byte.eqb "]") (current_text p))
      Then bump ;;; ret (inr true)
      Else If Sy x22 ||| Sy "`" ||| T TokenName.EndHeredoc Then ret (inr false)
      Otherwise bump ;;; ret (inl tt)) tt in
  if returned : bool then ret tt
  else error_expected "expected interpolation offset close delimiter" ["]"]%string.

Definition parse_simple_interpolation : PM unit :=
  let* variable := start in
  bump ;;;
  loop g_fuel (fun parsed_offset : bool =>
    If Sy "[" Then consume_string_offset ;;; ret (inl true)
    Else If (fun _ => negb parsed_offset) &&& T TokenName.ObjectOperator Then
      bump ;;;
      If T TokenName.String Then bump ;;; ret (inl parsed_offset)
      Otherwise error_expected "expected interpolated property name" ["T_STRING"]%string ;;;
           ret (inr tt)
    Else ret (inr tt)) false ;;;
  complete variable (NK SyntaxNodeKind.Variable_) ;;;
  ret tt.

Definition parse_complex_interpolation : PM unit :=
  let* expression := start in
  bump ;;;
  (If T TokenName.StringVarName Then
     let* variable := start in
     bump ;;;
     complete variable (NK SyntaxNodeKind.Variable_) ;;;
     ret tt
   Else If T TokenName.Variable_ Then parse_simple_interpolation
   Else ret tt) ;;;
  while g_fuel (not_ is_eof &&& not_ Sy "}") bump ;;;
  bump_or_error (symbol "}") "expected `}` after interpolation" ["}"]%string ;;;
  complete expression (NK SyntaxNodeKind.Expr) ;;;
  ret tt.

Definition parse_encapsed_part : PM unit :=
  If T TokenName.Variable_ Then parse_simple_interpolation
  Else If T TokenName.CurlyOpen ||| T TokenName.DollarOpenCurlyBraces
  Then parse_complex_interpolation
  Else bump.

Definition parse_encapsed_string (delimiter : byte) : PM unit :=
  let* encapsed := start in
  bump ;;;
  while g_fuel (not_ is_eof &&& not_ Sy delimiter) parse_encapsed_part ;;;
  bump_or_error (symbol delimiter) "expected string delimiter" [delimiter_name delimiter] ;;;
  complete encapsed (NK SyntaxNodeKind.Encapsed) ;;;
  ret tt.

Definition parse_heredoc : PM unit :=
  let* heredoc := start in
  bump ;;;
  while g_fuel (not_ is_eof &&& not_ T TokenName.EndHeredoc) parse_encapsed_part ;;;
  bump_or_error (named TokenName.EndHeredoc) "expected heredoc terminator"
    ["T_END_HEREDOC"]%string ;;;
  complete heredoc (NK SyntaxNodeKind.Heredoc) ;;;
  ret tt.

Definition parse_string_like : PM bool :=
  If T TokenName.ConstantEncapsedString Then
    let* string_ := start in
    bump ;;;
    complete string_ (NK SyntaxNodeKind.String) ;;;
    ret true
  Else If Sy x22 Then parse_encapsed_string x22 ;;; ret true
  Else If Sy "`" Then parse_encapsed_string "`"%byte ;;; ret true
  Else If T TokenName.StartHeredoc Then parse_heredoc ;;; ret true
  Else ret false.
End Strings.
End Strings.

(** ** [arrays.rs] *)

Module Arrays.
Definition at_reference : Parser -> bool :=
  Sy "&" ||| T TokenName.AmpersandFollowedByVarOrVararg
  ||| T TokenName.AmpersandNotFollowedByVarOrVararg.

Section Arrays.
Context {G : Grammar}.

Definition parse_array_pairs_until (close : byte) : PM unit :=
  while g_fuel (not_ is_eof &&& not_ Sy close)
    (If at_trivia ||| Sy "," Then bump
     Else
       let* pair_ := start in
       (When Sy "&" ||| T TokenName.Ellipsis ||| T TokenName.AmpersandFollowedByVarOrVararg
             ||| T TokenName.AmpersandNotFollowedByVarOrVararg Then bump) ;;;
       let* ok := parse_expression in
       unless_error ok "expected array element" ["expression"]%string ;;;
       (When T TokenName.DoubleArrow Then
          (bump ;;;
           bump_trivia ;;;
           (When at_reference Then (bump ;;; bump_trivia)) ;;;
           let* ok := parse_expression in
           unless_error ok "expected array value after `=>`" ["expression"]%string)) ;;;
       complete pair_ (NK SyntaxNodeKind.ArrayPair) ;;;
       If Sy "," Then bump
       Else If not_ Sy close Then
         error_expected "expected `,` or array terminator" [","; "]"; ")"]%string ;;;
         while g_fuel (not_ is_eof &&& not_ Sy "," &&& not_ Sy close) bump
       Else ret tt).

(** The [debug_assert] that the parser is at the opening symbol. *)
Definition parse_array_body (open close : byte) (kind : SyntaxNodeKind.t) : PM unit :=
  let* array := start in
  If not_ Sy open Then (fun _ => Panic) Otherwise
  bump ;;;
  parse_array_pairs_until close ;;;
  bump_or_error (symbol close) "expected array terminator"
    [if close =b "]"%byte then "]" else ")"]%string ;;;
  complete array (NK kind) ;;;
  ret tt.

Definition parse_array_expression : PM bool :=
  If Sy "[" Then parse_array_body "["%byte "]"%byte SyntaxNodeKind.ArrayExpr ;;; ret true
  Else If T TokenName.Array ||| T TokenName.List Then
    let* array := start in
    bump ;;;
    while g_fuel at_trivia bump ;;;
    (If Sy "(" Then
       bump ;;;
       parse_array_pairs_until ")"%byte ;;;
       bump_or_error (symbol ")") "expected `)` to close array/list expression" [")"]%string
     Else error_expected "expected `(` after array/list keyword" ["("]%string) ;;;
    complete array (NK SyntaxNodeKind.ArrayExpr) ;;;
    ret true
  Else ret false.

Definition parse_dim_fetch_tail (open close : byte) : PM unit :=
  let* fetch := start in
  bump ;;;
  (When not_ Sy close Then
     (let* ok := parse_expression in
      if ok : bool then ret tt
      else error_expected "expected dimension expression" ["expression"]%string ;;;
           while g_fuel (not_ is_eof &&& not_ Sy close) bump)) ;;;
  bump_or_error (symbol close) "expected dimension fetch terminator"
    [if close =b "]"%byte then "]" else "}"]%string ;;;
  complete fetch (NK SyntaxNodeKind.ArrayDimFetchExpr) ;;;
  ret tt.
End Arrays.
End Arrays.

(** ** [attributes.rs] *)

Module Attributes.
Definition is_attribute_recovery_kind (k : SyntaxKind) : bool :=
  kind_in k
    [named TokenName.Function; named TokenName.Class; named TokenName.Interface;
     named TokenName.Trait; named TokenName.Enum; named TokenName.Fn; named TokenName.Static;
     named TokenName.Public; named TokenName.Protected; named TokenName.Private;
     named TokenName.Readonly; named TokenName.Variable_; named TokenName.CloseTag;
     symbol ")"; symbol "{"; symbol "}"; symbol ";"].

Definition is_attribute_argument_recovery_kind (k : SyntaxKind) : bool :=
  kind_in k
    [named TokenName.Class; named TokenName.Interface; named TokenName.Trait;
     named TokenName.Enum; named TokenName.Public; named TokenName.Protected;
     named TokenName.Private; named TokenName.Readonly; named TokenName.Variable_;
     named TokenName.CloseTag; symbol ")"; symbol "}"; symbol ";"].

Definition at_attribute_recovery_end (p : Parser) : bool :=
  is_attribute_recovery_kind (current p).
Definition at_attribute_argument_recovery_end (p : Parser) : bool :=
  is_attribute_argument_recovery_kind (current p).

Definition at_named_argument_label : Parser -> bool :=
  at_keyword_context &&& next_non_trivia_is 1 (symbol ":").

(** The three nesting counters of the recovery and lookahead loops. *)
Record Depths := mkDepths { paren_depth : nat; bracket_depth : nat; brace_depth : nat }.

Definition depths_zero (d : Depths) : bool :=
  (paren_depth d =? 0) && (bracket_depth d =? 0) && (brace_depth d =? 0).

(** The chain of [if kind == ... && depth > 0] that updates the counters; a
    counter is only decremented when it is positive. *)
Definition step_depths (k : SyntaxKind) (d : Depths) : Depths :=
  let '(mkDepths pa br bc) := d in
  if SyntaxKind.eqb k (symbol "(") then mkDepths (pa + 1) br bc
  else if SyntaxKind.eqb k (symbol ")") && (0 <? pa) then mkDepths (pa - 1) br bc
  else if SyntaxKind.eqb k (symbol "[") then mkDepths pa (br + 1) bc
  else if SyntaxKind.eqb k (symbol "]") && (0 <? br) then mkDepths pa (br - 1) bc
  else if SyntaxKind.eqb k (symbol "{") then mkDepths pa br (bc + 1)
  else if SyntaxKind.eqb k (symbol "}") && (0 <? bc) then mkDepths pa br (bc - 1)
  else d.

(** The inner loop of [first_token_after_attribute_groups]: the kind it
    returns with, or the index after the closing bracket. *)
Fixpoint skip_attribute_group (fuel : nat) (p : Parser) (index : nat) (d : Depths)
    : SyntaxKind + nat :=
  let kind := nth p index in
  match fuel with
  | O => inl kind
  | S fuel =>
      if SyntaxKind.eqb kind (SyntaxKind.Token SyntaxTokenKind.Eof) then inl kind
      else if depths_zero d && is_attribute_recovery_kind kind then inl kind
      else if depths_zero d && SyntaxKind.eqb kind (symbol "]") then inr (index + 1)
      else skip_attribute_group fuel p (index + 1) (step_depths kind d)
  end.

Fixpoint first_token_after_groups (fuel : nat) (p : Parser) (index : nat) : SyntaxKind :=
  let index := skip_trivia (lookahead_fuel p) p index in
  match fuel with
  | O => nth p index
  | S fuel =>
      if negb (SyntaxKind.eqb (nth p index) (named TokenName.Attribute)) then nth p index
      else match skip_attribute_group (lookahead_fuel p) p (index + 1) (mkDepths 0 0 0) with
           | inl kind => kind
           | inr index => first_token_after_groups fuel p index
           end
  end.

Definition first_token_after_attribute_groups (p : Parser) : SyntaxKind :=
  first_token_after_groups (lookahead_fuel p) p 0.

Section Attributes.
Context {G : Grammar}.

Definition recover_to_attribute_boundary : PM unit :=
  while g_fuel (not_ is_eof &&& not_ Sy "," &&& not_ Sy "]" &&& not_ at_attribute_recovery_end)
    bump.

Definition recover_to_attribute_argument_boundary : PM unit :=
  loop g_fuel (fun d : Depths =>
    If is_eof Then ret (inr tt)
    Else If (fun _ => depths_zero d) &&& (Sy "," ||| Sy ")" ||| Sy "]") Then ret (inr tt)
    Else let* k := gets current in
         bump ;;; ret (inl (step_depths k d))) (mkDepths 0 0 0).

Definition parse_attribute_argument_list : PM unit :=
  bump ;;;
  loop_
    (If not_ (not_ is_eof &&& not_ Sy ")" &&& not_ Sy "]"
              &&& not_ at_attribute_argument_recovery_end) Then break_
     Otherwise
     bump_trivia ;;;
     If Sy "," Then bump ;;; continue_
     Else If Sy ")" ||| Sy "]" Then break_
     Otherwise
     (When at_named_argument_label Then (bump ;;; bump_trivia ;;; bump ;;; bump_trivia)) ;;;
     let* ok := parse_expression in
     (if ok : bool then ret tt
      else error_expected "expected attribute argument expression" ["expression"]%string ;;;
           recover_to_attribute_argument_boundary) ;;;
     bump_trivia ;;;
     (If Sy "," Then bump
      Else When not_ Sy ")" &&& not_ Sy "]" Then
        (error_expected "expected `,` or `)` in attribute argument list" [","; ")"]%string ;;;
         recover_to_attribute_argument_boundary ;;;
         When Sy "," Then bump)) ;;;
     continue_) ;;;
  bump_or_error (symbol ")") "expected `)` to close attribute argument list" [")"]%string.

Definition parse_attribute : PM unit :=
  let* attribute := start in
  let* ok := Names.parse_name in
  if negb ok then
    error_expected "expected attribute name" ["name"]%string ;;;
    recover_to_attribute_boundary ;;;
    complete attribute (NK SyntaxNodeKind.Attribute) ;;;
    ret tt
  else
    bump_trivia ;;;
    (When Sy "(" Then parse_attribute_argument_list) ;;;
    complete attribute (NK SyntaxNodeKind.Attribute) ;;;
    ret tt.

(** The loop variable is [parsed_attribute]. *)
Definition parse_attribute_group : PM unit :=
  let* group := start in
  bump ;;;
  let* parsed_attribute :=
    loop g_fuel (fun parsed_attribute : bool =>
      If not_ (not_ is_eof &&& not_ Sy "]" &&& not_ at_attribute_recovery_end)
      Then ret (inr parsed_attribute)
      Otherwise
      bump_trivia ;;;
      If Sy "," Then
        unless_error parsed_attribute "expected attribute name" ["name"]%string ;;;
        bump ;;;
        ret (inl parsed_attribute)
      Otherwise
      parse_attribute ;;;
      bump_trivia ;;;
      (If Sy "," Then bump
       Else When not_ Sy "]" &&& not_ at_attribute_recovery_end Then
         (error_expected "expected `,` or `]` in attribute group" [","; "]"]%string ;;;
          recover_to_attribute_boundary)) ;;;
      ret (inl true)) false in
  (If Sy "]" Then
     unless_error parsed_attribute "expected attribute name" ["name"]%string ;;;
     bump
   Else error_expected "expected `]` to close attribute group" ["]"]%string) ;;;
  complete group (NK SyntaxNodeKind.AttributeGroup) ;;;
  ret tt.

Definition parse_attribute_groups : PM unit :=
  while g_fuel (T TokenName.Attribute) parse_attribute_group.
End Attributes.
End Attributes.
