(* ===== verification/GrammarCode.v ===== *)
(** * GrammarCode: blocks, functions, classes and expressions

    [crates/php_syntax/src/grammar/functions.rs], [classes.rs],
    [expressions.rs], and the block statements of [statements.rs] that function
    bodies need. *)

From Stdlib Require Import Strings.String Strings.Byte.
From stdpp Require Import base list option numbers.
From S2P Require Import Prelude RustStd Source Token SyntaxTree Parser GrammarBase.

(** ** Blocks of statements ([statements.rs]) *)

Module Blocks.
Definition at_nested_php_mode_boundary : Parser -> bool :=
  T TokenName.CloseTag ||| T TokenName.InlineHtml ||| T TokenName.OpenTag
  ||| T TokenName.OpenTagWithEcho.

Section Blocks.
Context {G : Grammar}.

Definition parse_short_echo_statement : PM unit :=
  let* statement := start in
  let* ok := parse_expression in
  unless_error ok "expected expression after short echo tag" ["expression"]%string ;;;
  complete statement (NK SyntaxNodeKind.EchoStmt) ;;;
  ret tt.

Definition parse_nested_php_mode_boundary : PM unit :=
  (When T TokenName.CloseTag Then bump) ;;;
  (When T TokenName.InlineHtml Then
     (let* inline_html := start in
      while g_fuel (T TokenName.InlineHtml) bump ;;;
      complete inline_html (NK SyntaxNodeKind.InlineHtml) ;;;
      ret tt)) ;;;
  If T TokenName.OpenTagWithEcho Then bump ;;; parse_short_echo_statement
  Else When T TokenName.OpenTag Then bump.

(** [parse_statement] with the guard that it makes progress. *)
Definition parse_statement_guarded : PM unit :=
  let* before := gets position in
  g_statement ;;;
  When not_ is_eof &&& (fun p => position p =? before) Then
    (error_expected "expected statement parser to make progress" ["statement"]%string ;;;
     bump).

Definition parse_statement_list_contents : PM unit :=
  while g_fuel (not_ is_eof &&& not_ T TokenName.CloseTag &&& not_ Sy "}")
    (If at_trivia Then bump Else parse_statement_guarded).

Definition parse_nested_statement_list_contents (at_end : Parser -> bool) : PM unit :=
  while g_fuel (not_ is_eof &&& not_ at_end)
    (If at_trivia Then bump
     Else If at_nested_php_mode_boundary Then parse_nested_php_mode_boundary
     Else parse_statement_guarded).

Definition parse_statements_until (at_end : Parser -> bool) : PM unit :=
  parse_nested_statement_list_contents at_end.

Definition parse_block_statement : PM unit :=
  let* statement := start in
  bump ;;;
  while g_fuel (not_ is_eof &&& not_ Sy "}")
    (If at_trivia Then bump
     Else If at_nested_php_mode_boundary Then parse_nested_php_mode_boundary
     Else g_statement) ;;;
  bump_or_error (symbol "}") "expected `}` to close block statement" ["}"]%string ;;;
  complete statement (NK SyntaxNodeKind.BlockStmt) ;;;
  ret tt.
End Blocks.
End Blocks.

(** ** [functions.rs] *)

Module Functions.
Definition at_contextual_identifier : Parser -> bool := at_keyword_context.

Definition first_after_attributes_is (k : SyntaxKind) (p : Parser) : bool :=
  SyntaxKind.eqb (Attributes.first_token_after_attribute_groups p) k.

Definition at_closure_start : Parser -> bool :=
  T TokenName.Function
  ||| (T TokenName.Static &&& nth_non_trivia_is 1 (named TokenName.Function))
  ||| (T TokenName.Attribute &&& first_after_attributes_is (named TokenName.Function)).

Definition at_arrow_function_start : Parser -> bool :=
  T TokenName.Fn
  ||| (T TokenName.Static &&& nth_non_trivia_is 1 (named TokenName.Fn))
  ||| (T TokenName.Attribute &&& first_after_attributes_is (named TokenName.Fn)).

Definition at_parameter_list_end : Parser -> bool :=
  is_eof ||| Sy ")" ||| Sy "{" ||| Sy "}" ||| at_statement_recovery_token.

Section Functions.
Context {G : Grammar}.

Definition expect_function_keyword : PM unit :=
  bump_or_error (named TokenName.Function) "expected `function`" ["T_FUNCTION"]%string.

Definition parse_optional_ampersand : PM unit :=
  When Sy "&" ||| T TokenName.AmpersandFollowedByVarOrVararg
       ||| T TokenName.AmpersandNotFollowedByVarOrVararg Then bump.

Definition recover_to_parameter_boundary : PM unit :=
  while g_fuel (not_ is_eof &&& not_ Sy "," &&& not_ Sy ")" &&& not_ Sy "{" &&& not_ Sy "}"
                &&& not_ at_statement_recovery_token) bump.

Definition parse_promoted_parameter_modifiers : PM unit :=
  while g_fuel (T TokenName.Public ||| T TokenName.Protected ||| T TokenName.Private
                ||| T TokenName.Readonly ||| T TokenName.PublicSet ||| T TokenName.ProtectedSet
                ||| T TokenName.PrivateSet)
    (bump ;;; bump_trivia).

Definition parse_parameter : PM unit :=
  let* param := start in
  Attributes.parse_attribute_groups ;;;
  bump_trivia ;;;
  parse_promoted_parameter_modifiers ;;;
  bump_trivia ;;;
  Types.parse_optional_type ;;;
  bump_trivia ;;;
  parse_optional_ampersand ;;;
  bump_trivia ;;;
  (When T TokenName.Ellipsis Then bump) ;;;
  bump_trivia ;;;
  (If T TokenName.Variable_ Then bump
   Otherwise error_expected "expected parameter variable" ["T_VARIABLE"]%string ;;;
   recover_to_parameter_boundary) ;;;
  bump_trivia ;;;
  (When Sy "=" Then
     (bump ;;;
      let* ok := parse_expression in
      unless_error ok "expected default value expression" ["expression"]%string)) ;;;
  complete param (NK SyntaxNodeKind.Param) ;;;
  ret tt.

Definition parse_parameter_list : PM unit :=
  bump_trivia ;;;
  let* list := start in
  If not_ Sy "(" Then
    error_expected "expected parameter list" ["("]%string ;;;
    complete list (NK SyntaxNodeKind.ParamList) ;;;
    ret tt
  Otherwise
  bump ;;;
  loop_
    (If at_parameter_list_end Then break_ Otherwise
     bump_trivia ;;;
     If at_parameter_list_end Then break_ Otherwise
     If Sy "," Then bump ;;; continue_ Otherwise
     parse_parameter ;;;
     bump_trivia ;;;
     (If Sy "," Then bump
      Else When not_ Sy ")" Then
        (error_expected "expected `,` or `)` in parameter list" [","; ")"]%string ;;;
         recover_to_parameter_boundary ;;;
         When Sy "," Then bump)) ;;;
     continue_) ;;;
  bump_or_error (symbol ")") "expected `)` to close parameter list" [")"]%string ;;;
  complete list (NK SyntaxNodeKind.ParamList) ;;;
  ret tt.

(** The body of the loop of [parse_optional_closure_use_list]. *)
Definition closure_use_step : PM (unit + unit) :=
  If not_ (not_ is_eof &&& not_ Sy ")") Then break_ Otherwise
  bump_trivia ;;;
  If Sy ")" Then break_ Otherwise
  If Sy "," Then bump ;;; continue_ Otherwise
  let* use_var := start in
  parse_optional_ampersand ;;;
  bump_trivia ;;;
  (If T TokenName.Variable_ Then bump
   Otherwise error_expected "expected closure use variable" ["T_VARIABLE"]%string ;;;
   recover_to_parameter_boundary) ;;;
  complete use_var (NK SyntaxNodeKind.Param) ;;;
  bump_trivia ;;;
  (If Sy "," Then bump
   Else When not_ Sy ")" Then
     (error_expected "expected `,` or `)` in closure use list" [","; ")"]%string ;;;
      recover_to_parameter_boundary)) ;;;
  continue_.

Definition parse_optional_closure_use_list : PM unit :=
  bump_trivia ;;;
  If not_ T TokenName.Use Then ret tt Otherwise
  let* list := start in
  bump ;;;
  bump_trivia ;;;
  If not_ Sy "(" Then
    error_expected "expected `(` after closure use" ["("]%string ;;;
    complete list (NK SyntaxNodeKind.ParamList) ;;;
    ret tt
  Otherwise
  bump ;;;
  loop_ closure_use_step ;;;
  bump_or_error (symbol ")") "expected `)` to close closure use list" [")"]%string ;;;
  complete list (NK SyntaxNodeKind.ParamList) ;;;
  ret tt.

Definition parse_required_block_body (context : string) : PM unit :=
  bump_trivia ;;;
  If Sy "{" Then Blocks.parse_block_statement
  Otherwise
  error_expected ("expected body for " ++ context)%string ["{"]%string ;;;
  recover_to_statement_boundary ;;;
  When Sy ";" Then bump.

Definition parse_optional_function_body (context : string) : PM unit :=
  bump_trivia ;;;
  If Sy ";" Then bump Else parse_required_block_body context.

(** The part that function and method declarations share, from the keyword. *)
Definition parse_function_rest (name_message context : string) : PM unit :=
  bump_trivia ;;;
  expect_function_keyword ;;;
  bump_trivia ;;;
  parse_optional_ampersand ;;;
  bump_trivia ;;;
  (If at_contextual_identifier Then bump Else error_expected name_message ["T_STRING"]%string) ;;;
  parse_parameter_list ;;;
  Types.parse_optional_return_type ;;;
  parse_optional_function_body context.

Definition parse_function_declaration : PM unit :=
  let* function := start in
  Attributes.parse_attribute_groups ;;;
  parse_function_rest "expected function name" "function declaration" ;;;
  complete function (NK SyntaxNodeKind.FunctionDecl) ;;;
  ret tt.

Definition parse_method_member_body : PM unit :=
  parse_function_rest "expected method name" "method declaration".

Definition parse_closure_expression : PM bool :=
  If not_ at_closure_start Then ret false Otherwise
  let* closure := start in
  Attributes.parse_attribute_groups ;;;
  bump_trivia ;;;
  (When T TokenName.Static Then (bump ;;; bump_trivia)) ;;;
  expect_function_keyword ;;;
  bump_trivia ;;;
  parse_optional_ampersand ;;;
  parse_parameter_list ;;;
  parse_optional_closure_use_list ;;;
  Types.parse_optional_return_type ;;;
  parse_required_block_body "closure" ;;;
  complete closure (NK SyntaxNodeKind.ClosureExpr) ;;;
  ret true.

Definition parse_arrow_function_expression : PM bool :=
  If not_ at_arrow_function_start Then ret false Otherwise
  let* arrow := start in
  Attributes.parse_attribute_groups ;;;
  bump_trivia ;;;
  (When T TokenName.Static Then (bump ;;; bump_trivia)) ;;;
  bump_or_error (named TokenName.Fn) "expected `fn`" ["T_FN"]%string ;;;
  parse_parameter_list ;;;
  Types.parse_optional_return_type ;;;
  bump_trivia ;;;
  (If T TokenName.DoubleArrow Then
     bump ;;;
     let* ok := parse_expression in
     unless_error ok "expected expression after `=>`" ["expression"]%string
   Else error_expected "expected `=>` in arrow function" ["T_DOUBLE_ARROW"]%string) ;;;
  complete arrow (NK SyntaxNodeKind.ArrowFunctionExpr) ;;;
  ret true.
End Functions.
End Functions.

(** ** Calls ([expressions.rs]) *)

Module Calls.
Definition at_expression_stop : Parser -> bool :=
  at_expr_recovery_token ||| T TokenName.Echo.

Definition at_named_argument_label : Parser -> bool :=
  at_keyword_context &&& nth_non_trivia_is 1 (symbol ":").

(** [syntax error, unexpected token ","], with its quotes. *)
Definition unexpected_comma : string :=
  ("syntax error, unexpected token " ++ Strings.dquote ++ "," ++ Strings.dquote)%string.

Definition unexpected_comma_expecting : string :=
  (unexpected_comma ++ ", expecting " ++ Strings.dquote ++ ")" ++ Strings.dquote)%string.

Section Calls.
Context {G : Grammar}.

Definition recover_to_argument_boundary : PM unit :=
  while g_fuel (not_ is_eof &&& not_ Sy "," &&& not_ Sy ")" &&& not_ T TokenName.CloseTag) bump.

Definition parse_argument : PM unit :=
  (When at_named_argument_label Then (bump ;;; bump_trivia ;;; bump ;;; bump_trivia)) ;;;
  let* finished :=
    If T TokenName.Ellipsis Then
      bump ;;; bump_trivia ;;; gets (Sy ")")
    Else ret false in
  if finished : bool then ret tt else
  (When T TokenName.AmpersandFollowedByVarOrVararg
        ||| T TokenName.AmpersandNotFollowedByVarOrVararg ||| Sy "&"
   Then (bump ;;; bump_trivia)) ;;;
  let* ok := parse_expression in
  if ok : bool then ret tt
  else error_expected "expected argument expression" ["expression"]%string ;;;
       recover_to_argument_boundary.

(** The body of the loop of [parse_call_tail]; the loop variable is
    [saw_argument]. *)
Definition call_tail_step (saw_argument : bool) : PM (bool + unit) :=
  If not_ (not_ is_eof &&& not_ Sy ")") Then ret (inr tt) Otherwise
  bump_trivia ;;;
  If Sy ")" Then ret (inr tt) Otherwise
  If Sy "," Then
    (if saw_argument
     then error_expected_with_id ParseDiagnosticId.UnexpectedToken unexpected_comma_expecting
            [")"]%string
     else error_expected_with_id ParseDiagnosticId.UnexpectedToken unexpected_comma []) ;;;
    bump ;;;
    ret (inl saw_argument)
  Otherwise
  parse_argument ;;;
  bump_trivia ;;;
  (If Sy "," Then bump
   Else When not_ Sy ")" Then
     (error_expected "expected `,` or `)` in argument list" [","; ")"]%string ;;;
      recover_to_argument_boundary ;;;
      When Sy "," Then bump)) ;;;
  ret (inl true).

Definition parse_call_tail : PM unit :=
  let* call := start in
  bump ;;;
  loop g_fuel call_tail_step false ;;;
  bump_or_error (symbol ")") "expected `)` to close argument list" [")"]%string ;;;
  complete call (NK SyntaxNodeKind.CallExpr) ;;;
  ret tt.
End Calls.
End Calls.

(** ** [classes.rs] *)

Module Classes.
Definition at_class_like_declaration : Parser -> bool :=
  T TokenName.Class ||| T TokenName.Interface ||| T TokenName.Trait ||| T TokenName.Enum
  ||| T TokenName.Abstract ||| T TokenName.Final ||| T TokenName.Readonly.

Definition at_contextual_identifier : Parser -> bool := at_keyword_context.

Definition is_identifier_kind (k : SyntaxKind) : bool :=
  match k with
  | SyntaxKind.Token (SyntaxTokenKind.Named
      (TokenName.String | TokenName.Match | TokenName.Readonly | TokenName.Include)) => true
  | _ => false
  end.

(** The loop of [at_typed_class_const]: the significant kinds before [=], or
    nothing when the loop returns false. *)
Fixpoint class_const_head (fuel : nat) (p : Parser) (index : nat) (significant : list SyntaxKind)
    : option (list SyntaxKind) :=
  match fuel with
  | O => None
  | S fuel =>
      let kind := nth p index in
      if SyntaxKind.is_trivia kind then class_const_head fuel p (index + 1) significant
      else if SyntaxKind.eqb kind (symbol "=") then Some significant
      else if SyntaxKind.eqb kind (symbol ",") || SyntaxKind.eqb kind (symbol ";")
              || SyntaxKind.eqb kind (SyntaxKind.from_token_kind TokenKind.Eof) then None
      else class_const_head fuel p (index + 1) (significant ++ [kind])
  end.

Definition at_typed_class_const (p : Parser) : bool :=
  if negb (Types.at_type_start p) then false
  else match class_const_head (lookahead_fuel p) p 0 [] with
       | None => false
       | Some significant =>
           (2 <=? length significant) && match significant !! (length significant - 1) with
                                         | Some k => is_identifier_kind k
                                         | None => false
                                         end
       end.

Section Classes.
Context {G : Grammar}.

Definition parse_modifiers : PM unit :=
  loop_
    (bump_trivia ;;;
     If T TokenName.Abstract ||| T TokenName.Final ||| T TokenName.Readonly ||| T TokenName.Public
        ||| T TokenName.Protected ||| T TokenName.Private ||| T TokenName.PublicSet
        ||| T TokenName.ProtectedSet ||| T TokenName.PrivateSet ||| T TokenName.Static
        ||| T TokenName.Var
     Then bump ;;; continue_
     Else break_).

Definition consume_until_class_body : PM unit :=
  while g_fuel (not_ is_eof &&& not_ Sy "{" &&& not_ Sy ";" &&& not_ T TokenName.CloseTag) bump.

Definition recover_to_property_hook_boundary : PM unit :=
  while g_fuel (not_ is_eof &&& not_ Sy ";" &&& not_ Sy "}" &&& not_ T TokenName.CloseTag) bump ;;;
  When Sy ";" Then bump.

Definition recover_to_class_const_boundary : PM unit :=
  while g_fuel (not_ is_eof &&& not_ Sy "," &&& not_ Sy ";" &&& not_ Sy "}"
                &&& not_ T TokenName.CloseTag) bump.

Definition recover_to_property_boundary : PM unit :=
  while g_fuel (not_ is_eof &&& not_ Sy "," &&& not_ Sy ";" &&& not_ Sy "{" &&& not_ Sy "}"
                &&& not_ T TokenName.CloseTag) bump.

(** The body of the loop of [parse_property_hook_list]. *)
Definition property_hook_step : PM unit :=
  If at_trivia ||| Sy ";" Then bump Otherwise
  let* hook := start in
  parse_modifiers ;;;
  bump_trivia ;;;
  (If at_contextual_identifier Then bump
   Otherwise error_expected "expected property hook name" ["get"; "set"]%string ;;;
   recover_to_property_hook_boundary) ;;;
  bump_trivia ;;;
  (If Sy "{" Then
     bump ;;;
     Blocks.parse_statement_list_contents ;;;
     bump_or_error (symbol "}") "expected `}` to close property hook body" ["}"]%string
   Else If T TokenName.DoubleArrow Then
     bump ;;;
     let* ok := parse_expression in
     unless_error ok "expected property hook expression" ["expression"]%string ;;;
     If Sy ";" Then bump
     Otherwise error_expected "expected `;` after property hook expression" [";"]%string ;;;
     recover_to_property_hook_boundary
   Otherwise error_expected "expected property hook body" ["{"; "=>"]%string ;;;
   recover_to_property_hook_boundary) ;;;
  complete hook (NK SyntaxNodeKind.PropertyHookDecl) ;;;
  ret tt.

Definition parse_property_hook_list : PM unit :=
  bump ;;;
  while g_fuel (not_ is_eof &&& not_ Sy "}") property_hook_step ;;;
  bump_or_error (symbol "}") "expected `}` to close property hook list" ["}"]%string.

Definition consume_property_member : PM unit :=
  while g_fuel (not_ is_eof &&& not_ Sy ";" &&& not_ Sy "{" &&& not_ Sy "}"
                &&& not_ T TokenName.CloseTag)
    (If Sy "=" Then
       bump ;;;
       let* ok := parse_expression in
       if ok : bool then ret tt
       else error_expected "expected property default expression" ["expression"]%string ;;;
            recover_to_property_boundary
     Else bump) ;;;
  If Sy ";" Then bump
  Else If Sy "{" Then parse_property_hook_list
  Else When not_ Sy "}" Then
    (error_expected "expected `;` or property hook body" [";"; "{"]%string ;;;
     recover_to_statement_boundary).

(** The loop variable is [depth]; [depth -= 1] is checked.  The loop leaves
    with true at [return]. *)
Definition consume_balanced_block : PM unit :=
  let* returned :=
    loop g_fuel (fun depth : nat =>
      If is_eof Then ret (inr false)
      Else If Sy "{" Then bump ;;; ret (inl (depth + 1))
      Else If Sy "}" Then
        let* depth := lift (usize_sub depth 1) in
        bump ;;;
        ret (if depth =? 0 then inr true else inl depth)
      Otherwise bump ;;; ret (inl depth)) 0 in
  if returned : bool then ret tt
  else error_expected "expected `}` to close block" ["}"]%string.

Definition consume_member_with_optional_body : PM unit :=
  while g_fuel (not_ is_eof &&& not_ Sy "{" &&& not_ Sy ";" &&& not_ Sy "}"
                &&& not_ T TokenName.CloseTag) bump ;;;
  If Sy "{" Then consume_balanced_block
  Else If Sy ";" Then bump
  Else When not_ Sy "}" Then error_expected "expected method body or `;`" ["{"; ";"]%string.

Definition parse_class_const_member : PM unit :=
  bump ;;;
  bump_trivia ;;;
  (When at_typed_class_const Then Types.parse_type) ;;;
  loop_
    (bump_trivia ;;;
     If not_ at_contextual_identifier Then
       error_expected "expected class constant name" ["T_STRING"]%string ;;;
       recover_to_class_const_boundary ;;;
       break_
     Otherwise
     bump ;;;
     bump_trivia ;;;
     (If Sy "=" Then
        bump ;;;
        let* ok := parse_expression in
        if ok : bool then ret tt
        else error_expected "expected class constant value expression" ["expression"]%string ;;;
             recover_to_class_const_boundary
      Otherwise error_expected "expected `=` in class constant declaration" ["="]%string ;;;
      recover_to_class_const_boundary) ;;;
     bump_trivia ;;;
     If Sy "," Then bump ;;; continue_ Else break_) ;;;
  If Sy ";" Then bump
  Otherwise
  error_expected "expected `;` after class constant declaration" [";"]%string ;;;
  recover_to_statement_boundary ;;;
  When Sy ";" Then bump.

Definition parse_member : PM unit :=
  let* member := start in
  Attributes.parse_attribute_groups ;;;
  parse_modifiers ;;;
  If T TokenName.Function Then
    Functions.parse_method_member_body ;;;
    complete member (NK SyntaxNodeKind.MethodDecl) ;;; ret tt
  Else If T TokenName.Const Then
    parse_class_const_member ;;;
    complete member (NK SyntaxNodeKind.ClassConstDecl) ;;; ret tt
  Else If T TokenName.Use Then
    consume_member_with_optional_body ;;;
    complete member (NK SyntaxNodeKind.TraitUseDecl) ;;; ret tt
  Otherwise
    consume_property_member ;;;
    complete member (NK SyntaxNodeKind.PropertyDecl) ;;; ret tt.

(** The body of the loop of [parse_member_list]. *)
Definition member_list_step : PM unit :=
  If at_trivia ||| Sy ";" Then bump Else parse_member.

Definition parse_member_list : PM unit :=
  let* members := start in
  bump ;;;
  while g_fuel (not_ is_eof &&& not_ Sy "}") member_list_step ;;;
  bump_or_error (symbol "}") "expected `}` to close class member list" ["}"]%string ;;;
  complete members (NK SyntaxNodeKind.ClassMemberList) ;;;
  ret tt.

(** The chain of keywords of [parse_class_like]. *)
Definition class_like_kind : PM (option SyntaxNodeKind.t) :=
  If T TokenName.Class Then bump ;;; ret (Some SyntaxNodeKind.ClassDecl)
  Else If T TokenName.Interface Then bump ;;; ret (Some SyntaxNodeKind.InterfaceDecl)
  Else If T TokenName.Trait Then bump ;;; ret (Some SyntaxNodeKind.TraitDecl)
  Else If T TokenName.Enum Then bump ;;; ret (Some SyntaxNodeKind.EnumDecl)
  Else ret None.

Definition parse_class_like (named_required : bool) : PM unit :=
  let* declaration := start in
  Attributes.parse_attribute_groups ;;;
  parse_modifiers ;;;
  let* kind := class_like_kind in
  match kind with
  | None =>
      error_expected "expected class-like declaration"
        ["class"; "interface"; "trait"; "enum"]%string ;;;
      recover_to_statement_boundary ;;;
      complete declaration SyntaxKind.ERROR ;;;
      ret tt
  | Some kind =>
      bump_trivia ;;;
      (if named_required
       then bump_or_error (named TokenName.String) "expected class-like declaration name"
              ["T_STRING"]%string
       else When Sy "(" Then Calls.parse_call_tail) ;;;
      consume_until_class_body ;;;
      (If Sy "{" Then parse_member_list
       Otherwise error_expected "expected class-like declaration body" ["{"]%string ;;;
       recover_to_statement_boundary) ;;;
      complete declaration (NK kind) ;;;
      ret tt
  end.

Definition parse_class_like_declaration : PM unit := parse_class_like true.
Definition parse_anonymous_class : PM unit := parse_class_like false.
End Classes.
End Classes.

(** ** [expressions.rs] *)

Module Expressions.
Definition at_expression_stop : Parser -> bool := Calls.at_expression_stop.

Definition at_contextual_member_name : Parser -> bool := at_keyword_context.

Definition has_by_ref_marker_after_trivia (p : Parser) : bool :=
  let index := skip_trivia (lookahead_fuel p) p 0 in
  SyntaxKind.eqb (nth p index) (named TokenName.AmpersandFollowedByVarOrVararg)
  || SyntaxKind.eqb (nth p index) (named TokenName.AmpersandNotFollowedByVarOrVararg).

Definition at_prefix_operator : Parser -> bool :=
  Sy "+" ||| Sy "-" ||| Sy "!" ||| Sy "~" ||| Sy "@" ||| T TokenName.Inc ||| T TokenName.Dec
  ||| T TokenName.IntCast ||| T TokenName.DoubleCast ||| T TokenName.StringCast
  ||| T TokenName.ArrayCast ||| T TokenName.ObjectCast ||| T TokenName.BoolCast
  ||| T TokenName.UnsetCast ||| T TokenName.VoidCast.

Definition at_static_class_context_name : Parser -> bool :=
  T TokenName.Static &&& nth_non_trivia_is 1 (named TokenName.DoubleColon).

Definition at_literal : Parser -> bool :=
  T TokenName.LNumber ||| T TokenName.DNumber ||| T TokenName.ConstantEncapsedString
  ||| T TokenName.Line ||| T TokenName.File ||| T TokenName.Dir ||| T TokenName.ClassC
  ||| T TokenName.TraitC ||| T TokenName.MethodC ||| T TokenName.FuncC
  ||| T TokenName.NamespaceC ||| T TokenName.PropertyC
  ||| (T TokenName.String
       &&& (fun p => existsb (fun w => bool_decide (to_ascii_lowercase <$> current_text p = w))
                       [lit "null"; lit "true"; lit "false"])).

Definition at_name : Parser -> bool :=
  T TokenName.String ||| T TokenName.NameFullyQualified ||| T TokenName.NameQualified
  ||| T TokenName.NameRelative.

Definition at_construct_expression : Parser -> bool :=
  T TokenName.Include ||| T TokenName.IncludeOnce ||| T TokenName.Require
  ||| T TokenName.RequireOnce ||| T TokenName.Print ||| T TokenName.Isset ||| T TokenName.Empty
  ||| T TokenName.Eval ||| T TokenName.Exit.

Definition at_dynamic_new_class_reference_start : Parser -> bool :=
  T TokenName.Variable_ ||| Sy "(".

Section Expressions.
Context {G : Grammar}.

Definition parse_postfix_update_tail : PM unit :=
  let* postfix := start in
  bump ;;;
  complete postfix (NK SyntaxNodeKind.PostfixExpr) ;;;
  ret tt.

Definition parse_property_fetch_tail : PM unit :=
  let* fetch := start in
  bump ;;;
  (If T TokenName.Variable_ ||| at_contextual_member_name Then bump
   Else If Sy "{" Then
     bump ;;;
     g_expression_bp 0 ;;;
     bump_or_error (symbol "}") "expected `}` after property expression" ["}"]%string
   Else error_expected "expected property name" ["T_STRING"; "T_VARIABLE"; "{"]%string) ;;;
  complete fetch (NK SyntaxNodeKind.PropertyFetchExpr) ;;;
  ret tt.

Definition parse_static_access_tail : PM unit :=
  let* access := start in
  bump ;;;
  (If T TokenName.Variable_ ||| at_contextual_member_name Then bump
   Else error_expected "expected static member name"
          ["T_STRING"; "T_CLASS"; "T_VARIABLE"]%string) ;;;
  complete access (NK SyntaxNodeKind.StaticAccessExpr) ;;;
  ret tt.

Definition parse_yield_expression : PM unit :=
  let* yield_expr := start in
  let* is_yield_from := gets (T TokenName.YieldFrom) in
  bump ;;;
  (if is_yield_from : bool then
     let* ok := g_expression_bp 0 in
     unless_error ok "expected expression after `yield from`" ["expression"]%string
   else
     When not_ at_expression_stop Then
       (let* ok := g_expression_bp 0 in
        if ok : bool then
          When T TokenName.DoubleArrow Then
            (bump ;;;
             let* ok := g_expression_bp 0 in
             unless_error ok "expected yield value after `=>`" ["expression"]%string)
        else ret tt)) ;;;
  complete yield_expr (NK SyntaxNodeKind.YieldExpr) ;;;
  ret tt.

Definition parse_throw_expression : PM unit :=
  let* throw_expr := start in
  bump ;;;
  let* ok := g_expression_bp PREFIX_RIGHT_BP in
  unless_error ok "expected expression after `throw`" ["expression"]%string ;;;
  complete throw_expr (NK SyntaxNodeKind.ThrowExpr) ;;;
  ret tt.

(** The conditions of a match arm after the first. *)
Definition parse_match_conditions : PM unit :=
  loop_
    (If not_ Sy "," Then break_ Otherwise
     bump ;;;
     bump_trivia ;;;
     If T TokenName.DoubleArrow Then break_ Otherwise
     let* ok := g_expression_bp 0 in
     if negb ok then
       error_expected "expected match arm condition" ["expression"]%string ;;; break_
     else bump_trivia ;;; continue_).

Definition parse_match_arms : PM unit :=
  loop_
    (bump_trivia ;;;
     If is_eof ||| Sy "}" ||| T TokenName.CloseTag Then break_ Otherwise
     let* go_on :=
       If T TokenName.Default Then bump ;;; ret true
       Otherwise
       let* ok := g_expression_bp 0 in
       if negb ok then
         error_expected "expected match arm condition" ["expression"; "default"]%string ;;;
         recover_to_statement_boundary ;;;
         ret false
       else parse_match_conditions ;;; ret true in
     if negb go_on then break_ else
     bump_trivia ;;;
     If not_ T TokenName.DoubleArrow Then
       error_expected "expected `=>` in match arm" ["T_DOUBLE_ARROW"]%string ;;; break_
     Otherwise
     bump ;;;
     let* ok := g_expression_bp 0 in
     if negb ok then
       error_expected "expected match arm expression" ["expression"]%string ;;; break_
     else
     bump_trivia ;;;
     If Sy "," Then bump ;;; continue_ Else break_).

Definition parse_match_expression : PM unit :=
  let* match_expr := start in
  bump ;;;
  bump_trivia ;;;
  (If Sy "(" Then
     bump ;;;
     let* ok := g_expression_bp 0 in
     unless_error ok "expected match subject expression" ["expression"]%string ;;;
     bump_trivia ;;;
     bump_or_error (symbol ")") "expected `)` after match subject" [")"]%string
   Else error_expected "expected `(` after match" ["("]%string) ;;;
  bump_trivia ;;;
  (If Sy "{" Then
     bump ;;;
     parse_match_arms ;;;
     bump_or_error (symbol "}") "expected `}` after match arms" ["}"]%string
   Else error_expected "expected match arm list" ["{"]%string) ;;;
  complete match_expr (NK SyntaxNodeKind.MatchExpr) ;;;
  ret tt.

Definition parse_parenthesized_construct_arguments (allow_multiple allow_empty : bool) : PM unit :=
  If not_ Sy "(" Then error_expected "expected construct argument list" ["("]%string
  Otherwise
  bump ;;;
  bump_trivia ;;;
  If Sy ")" Then
    unless_error allow_empty "expected construct argument expression" ["expression"]%string ;;;
    bump
  Otherwise
  loop_
    (let* ok := g_expression_bp 0 in
     (if ok : bool then ret tt
      else error_expected "expected construct argument expression" ["expression"]%string ;;;
           Calls.recover_to_argument_boundary) ;;;
     bump_trivia ;;;
     If not_ Sy "," Then break_ Otherwise
     unless_error allow_multiple "expected `)` after construct argument" [")"]%string ;;;
     bump ;;;
     bump_trivia ;;;
     If Sy ")" Then
       error_expected "expected construct argument after comma" ["expression"]%string ;;; break_
     Else continue_) ;;;
  If Sy ")" Then bump
  Otherwise
  error_expected "expected `)` to close construct argument list" [")"]%string ;;;
  Calls.recover_to_argument_boundary ;;;
  When Sy ")" Then bump.

Definition parse_construct_expression : PM unit :=
  let* construct := start in
  let* token := gets current in
  bump ;;;
  bump_trivia ;;;
  let is_ n := SyntaxKind.eqb token (named n) in
  (If (fun p => is_ TokenName.Isset || is_ TokenName.Empty || is_ TokenName.Eval
                || (is_ TokenName.Exit && at_ (symbol "(") p))
   Then parse_parenthesized_construct_arguments (is_ TokenName.Isset) (is_ TokenName.Exit)
   Otherwise
   if is_ TokenName.Exit then
     When not_ at_expression_stop Then (g_expression_bp PREFIX_RIGHT_BP ;;; ret tt)
   else if is_ TokenName.Print || is_ TokenName.Include || is_ TokenName.IncludeOnce
           || is_ TokenName.Require || is_ TokenName.RequireOnce then
     let* ok := g_expression_bp PRINT_RIGHT_BP in
     unless_error ok "expected construct expression argument" ["expression"]%string
   else if is_ TokenName.Include || is_ TokenName.IncludeOnce
           || is_ TokenName.Require || is_ TokenName.RequireOnce then
     let* ok := g_expression_bp 0 in
     unless_error ok "expected construct expression argument" ["expression"]%string
   else
     let* ok := g_expression_bp PREFIX_RIGHT_BP in
     unless_error ok "expected construct expression argument" ["expression"]%string) ;;;
  complete construct (NK SyntaxNodeKind.ConstructExpr) ;;;
  ret tt.

(** The tails that [parse_expression_bp] and
    [parse_dynamic_new_class_reference] share: true when one was parsed. *)
Definition parse_fetch_tail : PM bool :=
  If Sy "[" Then Arrays.parse_dim_fetch_tail "["%byte "]"%byte ;;; ret true
  Else If Sy "{" Then Arrays.parse_dim_fetch_tail "{"%byte "}"%byte ;;; ret true
  Else If T TokenName.ObjectOperator ||| T TokenName.NullsafeObjectOperator
  Then parse_property_fetch_tail ;;; ret true
  Else If T TokenName.DoubleColon Then parse_static_access_tail ;;; ret true
  Else ret false.

Definition parse_dynamic_new_class_reference : PM bool :=
  If not_ at_dynamic_new_class_reference_start Then ret false Otherwise
  let* expr := start in
  let* ok := g_prefix_or_primary in
  if negb ok then complete expr SyntaxKind.ERROR ;;; ret false
  else
  loop_
    (bump_trivia ;;;
     If Sy "(" ||| at_expression_stop Then break_ Otherwise
     let* tail_ := parse_fetch_tail in
     if tail_ : bool then continue_ else break_) ;;;
  complete expr (NK SyntaxNodeKind.Expr) ;;;
  ret true.

Definition parse_static_class_name : PM bool :=
  If not_ T TokenName.Static Then ret false Otherwise
  let* name := start in
  bump ;;;
  complete name (NK SyntaxNodeKind.Name) ;;;
  ret true.

(** [names::parse_name(..) || parse_static_class_name(..) || ...] *)
Definition parse_class_reference : PM bool :=
  let* a := Names.parse_name in
  if a : bool then ret true else
  let* b := parse_static_class_name in
  if b : bool then ret true else parse_dynamic_new_class_reference.

Definition parse_new_expression : PM unit :=
  let* new_expr := start in
  bump ;;;
  bump_trivia ;;;
  (If T TokenName.Class Then Classes.parse_anonymous_class
   Otherwise
   let* ok := parse_class_reference in
   if ok : bool then bump_trivia ;;; When Sy "(" Then Calls.parse_call_tail
   else error_expected "expected class name or anonymous class after `new`"
          ["class"; "name"]%string) ;;;
  complete new_expr (NK SyntaxNodeKind.NewExpr) ;;;
  ret tt.

Definition parse_clone_expression : PM unit :=
  let* clone_expr := start in
  bump ;;;
  bump_trivia ;;;
  If Sy "(" Then
    Calls.parse_call_tail ;;;
    complete clone_expr (NK SyntaxNodeKind.CloneWithExpr) ;;;
    ret tt
  Otherwise
  let* ok := g_expression_bp PREFIX_RIGHT_BP in
  unless_error ok "expected expression after `clone`" ["expression"]%string ;;;
  complete clone_expr (NK SyntaxNodeKind.CloneExpr) ;;;
  ret tt.

(** A node of one token. *)
Definition parse_leaf (kind : SyntaxNodeKind.t) : PM bool :=
  let* leaf := start in
  bump ;;;
  complete leaf (NK kind) ;;;
  ret true.

Definition parse_primary : PM bool :=
  If T TokenName.Yield ||| T TokenName.YieldFrom Then parse_yield_expression ;;; ret true
  Else If T TokenName.New Then parse_new_expression ;;; ret true
  Else If (fun p => is_clone_keyword (current p)) Then parse_clone_expression ;;; ret true
  Else If T TokenName.Throw Then parse_throw_expression ;;; ret true
  Else If T TokenName.Match Then parse_match_expression ;;; ret true
  Else If at_construct_expression Then parse_construct_expression ;;; ret true
  Otherwise
  let* a := Strings.parse_string_like in if a : bool then ret true else
  let* a := Arrays.parse_array_expression in if a : bool then ret true else
  let* a := Functions.parse_closure_expression in if a : bool then ret true else
  let* a := Functions.parse_arrow_function_expression in if a : bool then ret true else
  let* a := g_simple_variable in if a : bool then ret true else
  If at_literal Then parse_leaf SyntaxNodeKind.Literal
  Else If at_static_class_context_name Then parse_leaf SyntaxNodeKind.Name
  Else If at_name Then parse_leaf SyntaxNodeKind.Name
  Else If Sy "(" Then
    let* paren := start in
    bump ;;;
    g_expression_bp 0 ;;;
    bump_or_error (symbol ")") "expected `)` after parenthesized expression" [")"]%string ;;;
    complete paren (NK SyntaxNodeKind.ParenthesizedExpr) ;;;
    ret true
  Else ret false.

Definition parse_prefix_or_primary : PM bool :=
  bump_trivia ;;;
  If at_prefix_operator Then
    let* prefix := start in
    let* void := gets (fun p => is_void_cast (current p)) in
    bump ;;;
    let* ok := g_expression_bp PREFIX_RIGHT_BP in
    unless_error ok "expected expression after prefix operator" ["expression"]%string ;;;
    complete prefix (NK (if void : bool then SyntaxNodeKind.VoidCastExpr
                         else SyntaxNodeKind.PrefixExpr)) ;;;
    ret true
  Else parse_primary.

(** The flags of the loop of [parse_expression_bp]. *)
Record ExprFlags := mkExprFlags {
  ef_binary : bool; ef_assignment : bool; ef_pipe : bool; ef_ternary : bool
}.

Definition expr_node_kind (f : ExprFlags) : SyntaxNodeKind.t :=
  if ef_ternary f then SyntaxNodeKind.TernaryExpr
  else if ef_pipe f then SyntaxNodeKind.PipeExpr
  else if ef_binary f then
    if ef_assignment f then SyntaxNodeKind.AssignExpr else SyntaxNodeKind.BinaryExpr
  else SyntaxNodeKind.Expr.

Definition parse_ternary_tail : PM unit :=
  bump ;;;
  (When not_ Sy ":" Then
     (let* ok := g_expression_bp 0 in
      unless_error ok "expected expression after `?`" ["expression"; ":"]%string)) ;;;
  If Sy ":" Then
    bump ;;;
    let* ok := g_expression_bp TERNARY_BP in
    unless_error ok "expected expression after `:`" ["expression"]%string
  Else error_expected "expected `:` in ternary expression" [":"]%string.

(** A binary operator and its right operand, which may be missing. *)
Definition parse_binary_tail (operator : BinaryOperator) (f : ExprFlags)
    : PM (ExprFlags + ExprFlags) :=
  let* token := gets current in
  let f := mkExprFlags true (ef_assignment f || is_assignment_operator token)
             (ef_pipe f || is_pipe_operator token) (ef_ternary f) in
  let* is_plain_assignment := gets (Sy "=") in
  bump ;;;
  (When (fun _ => is_plain_assignment) &&& has_by_ref_marker_after_trivia
   Then (bump_trivia ;;; bump)) ;;;
  let* ok := g_expression_bp (right_bp operator) in
  if negb ok then
    error_expected "expected expression after binary operator" ["expression"]%string ;;;
    ret (inr f)
  else ret (inl f).

(** The body of the loop of [parse_expression_bp]. *)
Definition expression_step (min_bp : N) (f : ExprFlags) : PM (ExprFlags + ExprFlags) :=
  bump_trivia ;;;
  If at_expression_stop Then ret (inr f) Otherwise
  If Sy "(" Then Calls.parse_call_tail ;;; ret (inl f) Otherwise
  let* tail_ := parse_fetch_tail in
  if tail_ : bool then ret (inl f) else
  If T TokenName.Inc ||| T TokenName.Dec Then parse_postfix_update_tail ;;; ret (inl f) Otherwise
  If Sy "?" Then
    if (TERNARY_BP <? min_bp)%N then ret (inr f)
    else parse_ternary_tail ;;;
         ret (inl (mkExprFlags (ef_binary f) (ef_assignment f) (ef_pipe f) true))
  Otherwise
  let* token := gets current in
  match binary_operator token with
  | None => ret (inr f)
  | Some operator =>
      if (left_bp operator <? min_bp)%N then ret (inr f) else parse_binary_tail operator f
  end.

Definition parse_expression_bp (min_bp : N) : PM bool :=
  If at_expression_stop Then ret false Otherwise
  let* expr := start in
  bump_trivia ;;;
  let* ok := g_prefix_or_primary in
  if negb ok then
    error_expected "expected expression" ["expression"]%string ;;;
    recover_to_expression_boundary ;;;
    complete expr SyntaxKind.ERROR ;;;
    ret false
  else
  let* f := loop g_fuel (expression_step min_bp) (mkExprFlags false false false false) in
  complete expr (NK (expr_node_kind f)) ;;;
  ret true.
End Expressions.
End Expressions.
