(* ===== verification/Grammar.v ===== *)
(** * Grammar: declarations, statements, source files and the parser entry point

    [crates/php_syntax/src/grammar/declarations.rs], [statements.rs],
    [source_file.rs] and [parse.rs].  [grammar] ties the recursion of the
    grammar functions with a bound on its depth and on the iterations of each
    loop. *)

From Stdlib Require Import Strings.String Strings.Byte.
From stdpp Require Import base list option numbers pretty.
From S2P Require Import Prelude RustStd Simd ByteKernel Source Token LexStrings Lexer.
From S2P Require Import SyntaxTree Parser GrammarBase GrammarCode.

(** ** [declarations.rs] *)

Module Declarations.
Definition declaration_keywords : list SyntaxKind :=
  [named TokenName.Class; named TokenName.Interface; named TokenName.Trait; named TokenName.Enum;
   named TokenName.Abstract; named TokenName.Final; named TokenName.Readonly].

Definition at_attributed_declaration (p : Parser) : bool :=
  if negb (at_ (named TokenName.Attribute) p) then false
  else kind_in (Attributes.first_token_after_attribute_groups p)
         (named TokenName.Function :: declaration_keywords).

Definition at_group_use_end : Parser -> bool :=
  is_eof ||| Sy "}" ||| Sy ";" ||| T TokenName.CloseTag.

Section Declarations.
Context {G : Grammar}.

Definition parse_function_declaration : PM unit := Functions.parse_function_declaration.
Definition parse_class_like_declaration : PM unit := Classes.parse_class_like_declaration.

Definition parse_attributed_declaration : PM unit :=
  let* next := gets Attributes.first_token_after_attribute_groups in
  if SyntaxKind.eqb next (named TokenName.Function) then Functions.parse_function_declaration
  else if kind_in next declaration_keywords then Classes.parse_class_like_declaration
  else error_expected "expected declaration after attributes" ["declaration"]%string ;;;
       Attributes.parse_attribute_groups.

(** [if parser.at(';') { bump } else { error; recover; if parser.at(';') { bump } }] *)
Definition semicolon_or_recover (message : string) (expected : list string) : PM unit :=
  If Sy ";" Then bump
  Otherwise
  error_expected message expected ;;;
  recover_to_statement_boundary ;;;
  When Sy ";" Then bump.

Definition parse_const_declaration : PM unit :=
  let* const_decl := start in
  bump ;;;
  loop_
    (bump_trivia ;;;
     If not_ T TokenName.String Then
       error_expected "expected constant name" ["T_STRING"]%string ;;;
       recover_to_statement_boundary ;;;
       break_
     Otherwise
     bump ;;;
     bump_trivia ;;;
     If not_ Sy "=" Then
       error_expected "expected `=` in const declaration" ["="]%string ;;;
       recover_to_statement_boundary ;;;
       break_
     Otherwise
     bump ;;;
     let* ok := parse_expression in
     unless_error ok "expected constant value expression" ["expression"]%string ;;;
     bump_trivia ;;;
     If Sy "," Then bump ;;; continue_ Else break_) ;;;
  bump_trivia ;;;
  semicolon_or_recover "expected `;` after const declaration" [";"]%string ;;;
  complete const_decl (NK SyntaxNodeKind.ConstDecl) ;;;
  ret tt.

Definition parse_namespace_declaration : PM unit :=
  let* namespace := start in
  bump ;;;
  bump_trivia ;;;
  If Sy "{" Then
    Blocks.parse_block_statement ;;;
    complete namespace (NK SyntaxNodeKind.NamespaceStmt) ;;;
    ret tt
  Otherwise
  let* ok := Names.parse_name in
  unless_error ok "expected namespace name or body" ["name"; "{"]%string ;;;
  bump_trivia ;;;
  (If Sy "{" Then Blocks.parse_block_statement
   Else semicolon_or_recover "expected `;` or namespace body" [";"; "{"]%string) ;;;
  complete namespace (NK SyntaxNodeKind.NamespaceStmt) ;;;
  ret tt.

Definition parse_optional_use_kind : PM unit :=
  When T TokenName.Function ||| T TokenName.Const Then (bump ;;; bump_trivia).

Definition parse_optional_alias : PM unit :=
  bump_trivia ;;;
  If not_ T TokenName.As Then ret tt Otherwise
  bump ;;;
  bump_trivia ;;;
  bump_or_error (named TokenName.String) "expected import alias" ["T_STRING"]%string.

Definition recover_to_use_boundary : PM unit :=
  while g_fuel (not_ is_eof &&& not_ Sy "," &&& not_ Sy ";" &&& not_ Sy "}"
                &&& not_ at_statement_recovery_token) bump.

Definition recover_to_group_use_boundary : PM unit :=
  while g_fuel (not_ is_eof &&& not_ Sy "," &&& not_ Sy "}" &&& not_ Sy ";") bump.

(** [parse_use_import_clause] and [parse_group_use_list] call each other: the
    first takes the second as an argument, the second bounds the depth. *)
Definition use_import_clause (group_use_list : PM unit) (allow_item_kind : bool) : PM unit :=
  bump_trivia ;;;
  (if allow_item_kind then parse_optional_use_kind else ret tt) ;;;
  let* ok := Names.parse_name in
  if negb ok then
    error_expected "expected import name" ["name"]%string ;;;
    recover_to_use_boundary
  else
  bump_trivia ;;;
  If T TokenName.NsSeparator &&& next_non_trivia_is 1 (symbol "{") Then
    bump ;;; group_use_list
  Else parse_optional_alias.

Fixpoint parse_group_use_list (depth : nat) : PM unit :=
  match depth with
  | O => fun _ => Timeout
  | S depth =>
      bump_trivia ;;;
      If not_ Sy "{" Then error_expected "expected `{` in group use declaration" ["{"]%string
      Otherwise
      bump ;;;
      loop_
        (If at_group_use_end Then break_ Otherwise
         bump_trivia ;;;
         If at_group_use_end Then break_ Otherwise
         If Sy "," Then bump ;;; continue_ Otherwise
         use_import_clause (parse_group_use_list depth) true ;;;
         bump_trivia ;;;
         (If Sy "," Then bump
          Else When not_ Sy "}" Then
            (error_expected "expected `,` or `}` in group use declaration" [","; "}"]%string ;;;
             recover_to_group_use_boundary ;;;
             When Sy "," Then bump)) ;;;
         continue_) ;;;
      bump_or_error (symbol "}") "expected `}` to close group use declaration" ["}"]%string
  end.

Definition parse_use_import_clause (allow_item_kind : bool) : PM unit :=
  use_import_clause (parse_group_use_list g_fuel) allow_item_kind.

Definition parse_use_declaration : PM unit :=
  let* use_decl := start in
  bump ;;;
  bump_trivia ;;;
  parse_optional_use_kind ;;;
  parse_use_import_clause false ;;;
  loop_
    (bump_trivia ;;;
     If Sy "," Then bump ;;; parse_use_import_clause false ;;; continue_ Else break_) ;;;
  bump_trivia ;;;
  semicolon_or_recover "expected `;` after use declaration" [";"]%string ;;;
  complete use_decl (NK SyntaxNodeKind.UseDecl) ;;;
  ret tt.
End Declarations.
End Declarations.

(** ** [statements.rs] *)

Module Statements.
Definition at_if_end : Parser -> bool := T TokenName.EndIf.
Definition at_if_alternative_boundary : Parser -> bool :=
  T TokenName.ElseIf ||| T TokenName.Else ||| at_if_end.
Definition at_switch_alternative_end : Parser -> bool := T TokenName.EndSwitch.
Definition at_simple_statement_end : Parser -> bool :=
  Sy ";" ||| T TokenName.CloseTag ||| Sy "}".
Definition at_label_statement : Parser -> bool :=
  T TokenName.String &&& (fun p => SyntaxKind.eqb (nth p 1) (symbol ":")).
Definition static_statement_follows : Parser -> bool :=
  nth_non_trivia_is 1 (named TokenName.Variable_).

Section Statements.
Context {G : Grammar}.

Definition consume_statement_terminator : PM unit :=
  If Sy ";" Then bump
  Else If T TokenName.CloseTag Then ret tt
  Otherwise
  error_expected "expected statement terminator" STATEMENT_TERMINATORS ;;;
  recover_to_statement_boundary ;;;
  When Sy ";" Then bump.

Definition consume_end_keyword (keyword : TokenName.t) (message : string) : PM unit :=
  bump_trivia ;;;
  bump_or_error (named keyword) message [TokenName.as_php_name keyword].

(** The loop variable is [depth]. *)
Definition recover_parenthesized_header : PM unit :=
  loop g_fuel (fun depth : nat =>
    If is_eof Then ret (inr tt)
    Else If Sy "(" Then bump ;;; ret (inl (depth + 1))
    Else If Sy ")" Then
      bump ;;; ret (if depth =? 0 then inr tt else inl (depth - 1))
    Otherwise bump ;;; ret (inl depth)) 0.

Definition recover_for_header_section : PM unit :=
  while g_fuel (not_ is_eof &&& not_ Sy ";" &&& not_ Sy ")") bump.

Definition parse_parenthesized_header (context : string) : PM unit :=
  bump_trivia ;;;
  If not_ Sy "(" Then error_expected ("expected `(` to start " ++ context)%string ["("]%string
  Otherwise
  bump ;;;
  let* depth :=
    loop g_fuel (fun depth : nat =>
      If not_ is_eof &&& (fun _ => 0 <? depth) Then
        If Sy "(" Then bump ;;; ret (inl (depth + 1))
        Else If Sy ")" Then bump ;;; ret (inl (depth - 1))
        Otherwise bump ;;; ret (inl depth)
      Else ret (inr depth)) 1 in
  if 0 <? depth then error_expected ("expected `)` to close " ++ context)%string [")"]%string
  else ret tt.

Definition parse_expression_list (context : string) (end_ : SyntaxKind) : PM unit :=
  let message := ("expected expression in " ++ context)%string in
  loop_
    (bump_trivia ;;;
     If at_ end_ Then error_expected message ["expression"]%string ;;; break_ Otherwise
     let* ok := parse_expression in
     (if ok : bool then ret tt
      else error_expected message ["expression"]%string ;;;
           while g_fuel (not_ is_eof &&& not_ Sy "," &&& not_ at_ end_) bump) ;;;
     bump_trivia ;;;
     If not_ Sy "," Then break_ Otherwise
     bump ;;; continue_).

(** [if parser.at(')') { bump } else { error; recover_parenthesized_header }] *)
Definition close_header (message : string) : PM unit :=
  If Sy ")" Then bump
  Otherwise error_expected message [")"]%string ;;; recover_parenthesized_header.

Definition parse_parenthesized_expression_list (context : string) (allow_empty : bool) : PM unit :=
  bump_trivia ;;;
  If not_ Sy "(" Then error_expected ("expected `(` to start " ++ context)%string ["("]%string
  Otherwise
  bump ;;;
  bump_trivia ;;;
  If Sy ")" Then
    unless_error allow_empty ("expected expression in " ++ context)%string ["expression"]%string ;;;
    bump
  Otherwise
  parse_expression_list context (symbol ")") ;;;
  bump_trivia ;;;
  close_header ("expected `)` to close " ++ context)%string.

Definition parse_parenthesized_expression_header (context : string) : PM unit :=
  bump_trivia ;;;
  If not_ Sy "(" Then error_expected ("expected `(` to start " ++ context)%string ["("]%string
  Otherwise
  bump ;;;
  bump_trivia ;;;
  (When not_ Sy ")" Then
     (let* ok := parse_expression in
      unless_error ok ("expected expression in " ++ context)%string ["expression"]%string)) ;;;
  bump_trivia ;;;
  close_header ("expected `)` to close " ++ context)%string.

Definition bump_reference : PM unit :=
  When T TokenName.AmpersandFollowedByVarOrVararg
       ||| T TokenName.AmpersandNotFollowedByVarOrVararg Then (bump ;;; bump_trivia).

(** An error of [parse_foreach_header] after which it returns. *)
Definition foreach_error (message expected : string) : PM unit :=
  error_expected message [expected] ;;; recover_parenthesized_header.

Definition parse_foreach_header : PM unit :=
  bump_trivia ;;;
  If not_ Sy "(" Then error_expected "expected `(` to start foreach header" ["("]%string
  Otherwise
  bump ;;;
  bump_trivia ;;;
  let* ok := parse_expression in
  if negb ok then foreach_error "expected foreach expression" "expression" else
  bump_trivia ;;;
  If not_ T TokenName.As Then foreach_error "expected `as` in foreach header" "T_AS" Otherwise
  bump ;;;
  bump_trivia ;;;
  bump_reference ;;;
  let* ok := parse_expression in
  if negb ok then foreach_error "expected foreach value target" "expression" else
  bump_trivia ;;;
  let* ok :=
    If T TokenName.DoubleArrow Then
      bump ;;; bump_trivia ;;; bump_reference ;;; parse_expression
    Else ret true in
  if negb ok then foreach_error "expected foreach value target after `=>`" "expression" else
  bump_trivia ;;;
  close_header "expected `)` to close foreach header".

Definition parse_for_header_section (context : string) : PM unit :=
  let message := ("expected expression in " ++ context)%string in
  bump_trivia ;;;
  If Sy ";" ||| Sy ")" Then ret tt Otherwise
  let* ok := parse_expression in
  if negb ok then error_expected message ["expression"]%string ;;; recover_for_header_section
  else
  bump_trivia ;;;
  loop_
    (If not_ Sy "," Then break_ Otherwise
     bump ;;;
     bump_trivia ;;;
     If Sy ";" ||| Sy ")" Then error_expected message ["expression"]%string ;;; break_ Otherwise
     let* ok := parse_expression in
     if negb ok then
       error_expected message ["expression"]%string ;;; recover_for_header_section ;;; break_
     else bump_trivia ;;; continue_).

Definition consume_for_header_separator (message : string) : PM unit :=
  bump_trivia ;;;
  If Sy ";" Then bump
  Otherwise error_expected message [";"]%string ;;; recover_for_header_section.

Definition parse_for_header : PM unit :=
  bump_trivia ;;;
  If not_ Sy "(" Then error_expected "expected `(` to start for header" ["("]%string
  Otherwise
  bump ;;;
  parse_for_header_section "for initializer" ;;;
  consume_for_header_separator "expected `;` after for initializer" ;;;
  parse_for_header_section "for condition" ;;;
  consume_for_header_separator "expected `;` after for condition" ;;;
  parse_for_header_section "for update" ;;;
  bump_trivia ;;;
  close_header "expected `)` to close for header".

Definition parse_required_block (message : string) : PM unit :=
  bump_trivia ;;;
  If Sy "{" Then Blocks.parse_block_statement
  Otherwise error_expected message ["{"]%string ;;; recover_to_statement_boundary.

Definition parse_control_body : PM unit :=
  (When at_trivia Then while g_fuel at_trivia bump) ;;;
  If is_eof Then error_expected "expected control-flow body" ["statement"]%string
  Else If Blocks.at_nested_php_mode_boundary Then
    let* statement := start in
    Blocks.parse_nested_statement_list_contents
      (T TokenName.ElseIf ||| T TokenName.Else ||| Sy "}") ;;;
    complete statement (NK SyntaxNodeKind.BlockStmt) ;;;
    ret tt
  Else g_statement.

Definition parse_echo_statement : PM unit :=
  let* statement := start in
  bump ;;;
  let* ok := parse_expression in
  unless_error ok "expected expression after echo" ["expression"]%string ;;;
  loop_
    (If not_ Sy "," Then break_ Otherwise
     bump ;;;
     let* ok := parse_expression in
     if negb ok then error_expected "expected expression after comma" ["expression"]%string ;;; break_
     else continue_) ;;;
  consume_statement_terminator ;;;
  complete statement (NK SyntaxNodeKind.EchoStmt) ;;;
  ret tt.

Definition parse_if_statement : PM unit :=
  let* statement := start in
  bump ;;;
  parse_parenthesized_expression_header "if condition" ;;;
  bump_trivia ;;;
  (If Sy ":" Then
     bump ;;;
     Blocks.parse_statements_until at_if_alternative_boundary ;;;
     while g_fuel (T TokenName.ElseIf)
       (bump ;;;
        parse_parenthesized_expression_header "elseif condition" ;;;
        bump_trivia ;;;
        bump_or_error (symbol ":") "expected `:` after elseif condition" [":"]%string ;;;
        Blocks.parse_statements_until at_if_alternative_boundary) ;;;
     (When T TokenName.Else Then
        (bump ;;;
         bump_trivia ;;;
         bump_or_error (symbol ":") "expected `:` after else" [":"]%string ;;;
         Blocks.parse_statements_until at_if_end)) ;;;
     consume_end_keyword TokenName.EndIf "expected `endif`" ;;;
     consume_statement_terminator
   Otherwise
     parse_control_body ;;;
     bump_trivia ;;;
     while g_fuel (T TokenName.ElseIf)
       (bump ;;;
        parse_parenthesized_expression_header "elseif condition" ;;;
        parse_control_body ;;;
        bump_trivia) ;;;
     When T TokenName.Else Then (bump ;;; parse_control_body)) ;;;
  complete statement (NK SyntaxNodeKind.IfStmt) ;;;
  ret tt.

Definition parse_loop_statement (start_keyword end_keyword : TokenName.t)
    (kind : SyntaxNodeKind.t) : PM unit :=
  let* statement := start in
  bump ;;;
  match start_keyword with
  | TokenName.For => parse_for_header
  | TokenName.While => parse_parenthesized_expression_header "while condition"
  | TokenName.Foreach => parse_foreach_header
  | _ => parse_parenthesized_header "loop header"
  end ;;;
  bump_trivia ;;;
  (If Sy ":" Then
     bump ;;;
     Blocks.parse_statements_until (T end_keyword) ;;;
     consume_end_keyword end_keyword "expected loop end keyword" ;;;
     consume_statement_terminator
   Else parse_control_body) ;;;
  complete statement (NK kind) ;;;
  ret tt.

Definition parse_while_statement : PM unit :=
  parse_loop_statement TokenName.While TokenName.EndWhile SyntaxNodeKind.WhileStmt.

Definition parse_do_while_statement : PM unit :=
  let* statement := start in
  bump ;;;
  parse_control_body ;;;
  bump_trivia ;;;
  (If T TokenName.While Then
     bump ;;;
     parse_parenthesized_expression_header "do-while condition" ;;;
     consume_statement_terminator
   Otherwise
     error_expected "expected `while` after do body" ["T_WHILE"]%string ;;;
     recover_to_statement_boundary) ;;;
  complete statement (NK SyntaxNodeKind.DoWhileStmt) ;;;
  ret tt.

Definition parse_switch_label : PM unit :=
  (If T TokenName.Case Then
     bump ;;;
     bump_trivia ;;;
     let* ok := parse_expression in
     unless_error ok "expected case expression" ["expression"]%string
   Else When T TokenName.Default Then bump) ;;;
  bump_trivia ;;;
  If Sy ":" ||| Sy ";" Then bump
  Else error_expected "expected switch label separator" [":"; ";"]%string.

(** The body of the loop of [parse_switch_body]. *)
Definition switch_body_step (at_end : Parser -> bool) : PM unit :=
  If at_trivia ||| Sy ";" Then bump
  Else If Blocks.at_nested_php_mode_boundary Then Blocks.parse_nested_php_mode_boundary
  Else If T TokenName.Case ||| T TokenName.Default Then
    parse_switch_label ;;;
    Blocks.parse_statements_until (T TokenName.Case ||| T TokenName.Default ||| at_end)
  Otherwise
  error_expected "expected switch case or default" ["case"; "default"]%string ;;;
  g_statement.

Definition parse_switch_body (at_end : Parser -> bool) : PM unit :=
  while g_fuel (not_ is_eof &&& not_ at_end) (switch_body_step at_end).

Definition parse_switch_statement : PM unit :=
  let* statement := start in
  bump ;;;
  parse_parenthesized_expression_header "switch expression" ;;;
  bump_trivia ;;;
  (If Sy ":" Then
     bump ;;;
     parse_switch_body at_switch_alternative_end ;;;
     consume_end_keyword TokenName.EndSwitch "expected `endswitch`" ;;;
     consume_statement_terminator
   Else If Sy "{" Then
     bump ;;;
     parse_switch_body (Sy "}") ;;;
     bump_or_error (symbol "}") "expected `}` to close switch" ["}"]%string
   Otherwise
     error_expected "expected switch body" ["{"; ":"]%string ;;;
     recover_to_statement_boundary) ;;;
  complete statement (NK SyntaxNodeKind.SwitchStmt) ;;;
  ret tt.

Definition parse_catch_clause : PM unit :=
  let* catch := start in
  bump ;;;
  parse_parenthesized_header "catch clause" ;;;
  parse_required_block "expected catch block" ;;;
  complete catch (NK SyntaxNodeKind.CatchClause) ;;;
  ret tt.

(** The loop variable is [has_handler]. *)
Definition parse_try_statement : PM unit :=
  let* statement := start in
  bump ;;;
  parse_required_block "expected try block" ;;;
  let* has_handler :=
    loop g_fuel (fun has_handler : bool =>
      bump_trivia ;;;
      If T TokenName.Catch Then parse_catch_clause ;;; ret (inl true)
      Else ret (inr has_handler)) false in
  bump_trivia ;;;
  let* has_handler :=
    If T TokenName.Finally Then
      let* finally := start in
      bump ;;;
      parse_required_block "expected finally block" ;;;
      complete finally (NK SyntaxNodeKind.FinallyClause) ;;;
      ret true
    Else ret has_handler in
  unless_error has_handler "expected catch or finally after try block"
    ["catch"; "finally"]%string ;;;
  complete statement (NK SyntaxNodeKind.TryStmt) ;;;
  ret tt.

Definition parse_declare_statement : PM unit :=
  let* statement := start in
  bump ;;;
  parse_parenthesized_expression_list "declare directive list" false ;;;
  bump_trivia ;;;
  (If Sy ";" Then bump
   Else If Sy "{" Then Blocks.parse_block_statement
   Else If Sy ":" Then
     bump ;;;
     Blocks.parse_statements_until (T TokenName.EndDeclare) ;;;
     consume_end_keyword TokenName.EndDeclare "expected `enddeclare`" ;;;
     consume_statement_terminator
   Otherwise
     error_expected "expected declare body or terminator" [";"; "{"; ":"]%string ;;;
     recover_to_statement_boundary) ;;;
  complete statement (NK SyntaxNodeKind.DeclareStmt) ;;;
  ret tt.

Definition parse_misc_until_semicolon_statement (kind : SyntaxNodeKind.t) : PM unit :=
  let* statement := start in
  bump ;;;
  while g_fuel (not_ is_eof &&& not_ Sy ";" &&& not_ Sy "}" &&& not_ T TokenName.CloseTag) bump ;;;
  consume_statement_terminator ;;;
  complete statement (NK kind) ;;;
  ret tt.

Definition parse_expression_list_statement (kind : SyntaxNodeKind.t) (context : string) : PM unit :=
  let* statement := start in
  bump ;;;
  parse_expression_list context (symbol ";") ;;;
  consume_statement_terminator ;;;
  complete statement (NK kind) ;;;
  ret tt.

Definition parse_static_statement : PM unit :=
  parse_expression_list_statement SyntaxNodeKind.StaticStmt "static local".

Definition parse_parenthesized_construct_statement (kind : SyntaxNodeKind.t) : PM unit :=
  let* statement := start in
  bump ;;;
  parse_parenthesized_expression_list "statement argument list" false ;;;
  consume_statement_terminator ;;;
  complete statement (NK kind) ;;;
  ret tt.

Definition parse_label_statement : PM unit :=
  let* statement := start in
  bump ;;;
  bump ;;;
  complete statement (NK SyntaxNodeKind.LabelStmt) ;;;
  ret tt.

Definition parse_optional_expression_statement (kind : SyntaxNodeKind.t) : PM unit :=
  let* statement := start in
  bump ;;;
  bump_trivia ;;;
  (When not_ at_simple_statement_end Then (parse_expression ;;; ret tt)) ;;;
  consume_statement_terminator ;;;
  complete statement (NK kind) ;;;
  ret tt.

Definition parse_required_expression_statement (kind : SyntaxNodeKind.t) : PM unit :=
  let* statement := start in
  bump ;;;
  bump_trivia ;;;
  let* ok := parse_expression in
  unless_error ok "expected expression" ["expression"]%string ;;;
  consume_statement_terminator ;;;
  complete statement (NK kind) ;;;
  ret tt.

Definition parse_expression_statement : PM unit :=
  let* statement := start in
  let* ok := parse_expression in
  (if ok : bool then ret tt
   else error_expected "expected expression statement" ["expression"]%string ;;;
        recover_to_statement_boundary) ;;;
  consume_statement_terminator ;;;
  complete statement (NK SyntaxNodeKind.ExprStmt) ;;;
  ret tt.

Definition parse_empty_statement : PM unit :=
  let* statement := start in
  bump ;;;
  complete statement (NK SyntaxNodeKind.EmptyStmt) ;;;
  ret tt.

Definition parse_statement : PM unit :=
  If Sy ";" Then parse_empty_statement
  Else If T TokenName.Echo Then parse_echo_statement
  Else If T TokenName.If Then parse_if_statement
  Else If T TokenName.While Then parse_while_statement
  Else If T TokenName.Do Then parse_do_while_statement
  Else If T TokenName.For
  Then parse_loop_statement TokenName.For TokenName.EndFor SyntaxNodeKind.ForStmt
  Else If T TokenName.Foreach
  Then parse_loop_statement TokenName.Foreach TokenName.EndForeach SyntaxNodeKind.ForeachStmt
  Else If T TokenName.Switch Then parse_switch_statement
  Else If T TokenName.Break Then parse_optional_expression_statement SyntaxNodeKind.BreakStmt
  Else If T TokenName.Continue Then parse_optional_expression_statement SyntaxNodeKind.ContinueStmt
  Else If T TokenName.Return Then parse_optional_expression_statement SyntaxNodeKind.ReturnStmt
  Else If T TokenName.Throw Then parse_required_expression_statement SyntaxNodeKind.ThrowStmt
  Else If T TokenName.Try Then parse_try_statement
  Else If T TokenName.Declare_ Then parse_declare_statement
  Else If T TokenName.Global
  Then parse_expression_list_statement SyntaxNodeKind.GlobalStmt "global variable"
  Else If T TokenName.Static &&& static_statement_follows Then parse_static_statement
  Else If T TokenName.Unset Then parse_parenthesized_construct_statement SyntaxNodeKind.UnsetStmt
  Else If T TokenName.Goto Then parse_misc_until_semicolon_statement SyntaxNodeKind.GotoStmt
  Else If at_label_statement Then parse_label_statement
  Else If Declarations.at_attributed_declaration Then Declarations.parse_attributed_declaration
  Else If T TokenName.Namespace Then Declarations.parse_namespace_declaration
  Else If T TokenName.Use Then Declarations.parse_use_declaration
  Else If T TokenName.Const Then Declarations.parse_const_declaration
  Else If T TokenName.Function Then Declarations.parse_function_declaration
  Else If Classes.at_class_like_declaration Then Declarations.parse_class_like_declaration
  Else If Sy "{" Then Blocks.parse_block_statement
  Else parse_expression_statement.
End Statements.
End Statements.

(** ** [source_file.rs] *)

Module SourceFile.
Section SourceFile.
Context {G : Grammar}.

Definition parse_inline_html : PM unit :=
  let* node := start in
  while g_fuel (T TokenName.InlineHtml) bump ;;;
  complete node (NK SyntaxNodeKind.InlineHtml) ;;;
  ret tt.

Definition parse_php_block : PM unit :=
  let* php_block := start in
  let* is_short_echo := gets (T TokenName.OpenTagWithEcho) in
  bump ;;;
  let* statement_list := start in
  (if is_short_echo : bool then Blocks.parse_short_echo_statement
   else Blocks.parse_statement_list_contents) ;;;
  complete statement_list (NK SyntaxNodeKind.StatementList) ;;;
  (When T TokenName.CloseTag Then bump) ;;;
  complete php_block (NK SyntaxNodeKind.PhpBlock) ;;;
  ret tt.

Definition parse_unexpected : PM unit :=
  let* error := start in
  error_and_bump "inline HTML or PHP open tag" ;;;
  complete error SyntaxKind.ERROR ;;;
  ret tt.

Definition parse : PM unit :=
  let* source_file := start in
  while g_fuel (not_ is_eof)
    (If T TokenName.InlineHtml Then parse_inline_html
     Else If T TokenName.OpenTag ||| T TokenName.OpenTagWithEcho Then parse_php_block
     Else parse_unexpected) ;;;
  complete source_file SyntaxKind.SOURCE_FILE ;;;
  ret tt.
End SourceFile.
End SourceFile.

(** ** The recursion of the grammar *)

Definition grammar_stop (loops : nat) : Grammar := {|
  g_fuel := loops;
  g_expression_bp := fun _ _ => Timeout;
  g_prefix_or_primary := fun _ => Timeout;
  g_simple_variable := fun _ => Timeout;
  g_intersection_type := fun _ => Timeout;
  g_statement := fun _ => Timeout
|}.

Fixpoint grammar (loops depth : nat) : Grammar :=
  match depth with
  | O => grammar_stop loops
  | S depth =>
      let G := grammar loops depth in
      {| g_fuel := loops;
         g_expression_bp := Expressions.parse_expression_bp;
         g_prefix_or_primary := Expressions.parse_prefix_or_primary;
         g_simple_variable := Variables.parse_simple_variable;
         g_intersection_type := Types.parse_intersection_type;
         g_statement := Statements.parse_statement |}
  end.

(** ** [parse.rs] *)

(** [debug_tree]: [render_node] and [render_token], with the text pushed to
    [out] as the result. *)
Definition decimal (n : N) : bytes := lit (pretty n).
Definition padding (indent : nat) : bytes := concat (repeat (lit "  ") indent).

Definition render_span (r : TextRange) : bytes :=
  lit " @" ++ decimal (N.of_nat (to_usize (Source.start r))) ++ lit ".." ++
  decimal (N.of_nat (to_usize (end_ r))).

Definition render_token (t : SyntaxToken) (indent : nat) : bytes :=
  padding indent ++ SyntaxKind.name (st_kind t) ++ render_span (st_range t) ++
  lit " line=" ++ decimal (st_line t) ++ lit " text=" ++ [x22] ++ escape_default (st_text t) ++
  [x22; x0a].

Fixpoint render_node (n : SyntaxNode) (indent : nat) : bytes :=
  match n with
  | SyntaxNode_new kind range children =>
      padding indent ++ SyntaxKind.name kind ++ render_span range ++ [x0a] ++
      (fix go (cs : list SyntaxElement) : bytes :=
         match cs with
         | [] => []
         | ElementNode n :: cs => render_node n (indent + 1) ++ go cs
         | ElementToken t :: cs => render_token t (indent + 1) ++ go cs
         end) children
  end.

Record Parse := mkParse {
  parse_root : SyntaxNode;
  parse_diagnostics : list ParseDiagnostic;
  parse_reconstructed_text : bytes
}.

Definition has_errors (p : Parse) : bool :=
  match parse_diagnostics p with [] => false | _ => true end.

Definition debug_tree (p : Parse) : bytes := render_node (parse_root p) 0.

Definition parser_config : LexerConfig := {|
  short_open_tag := false;
  token_parse := false;
  emit_eof := false
|}.

Definition lexer_diagnostic (d : LexDiagnostic) : ParseDiagnostic :=
  ParseDiagnostic_new ParseDiagnosticId.LexerDiagnostic (diag_message d) (diag_span d).

(** [for diagnostic in lexer_diagnostics { parser.error(diagnostic) }] *)
Fixpoint forward_diagnostics (ds : list LexDiagnostic) : PM unit :=
  match ds with
  | [] => ret tt
  | d :: ds => error (lexer_diagnostic d) ;;; forward_diagnostics ds
  end.

Definition run_parser (fuel : nat) (source : bytes) (lexed : LexResult) : outcome Parser :=
  let p := Parser_new (TokenSource.new source (Lexer.tokens lexed)) in
  olet (_, p) := (forward_diagnostics (Lexer.diagnostics lexed) ;;;
                  SourceFile.parse (G := grammar fuel fuel)) p in
  Ret p.

Section Parse.
Context {mc : Memchr} (bk : backend).

(** [parse_source_file_with_context]; the context is carried through
    unchanged. *)
Definition parse_source_file (fuel : nat) (source : bytes) : outcome Parse :=
  olet lexed := lex_all bk source parser_config in
  olet parser := run_parser fuel source lexed in
  let '(events, tokens, diagnostics) := finish parser in
  let root := sink_finish source tokens events in
  Ret (mkParse root diagnostics (reconstruct_text root)).
End Parse.
