(* ===== verification/ParserLogic.v ===== *)
(** * ParserLogic: what every parser computation does to the event stream

    A grammar function opens nodes with [start] and closes them with
    [complete]; between two states of the parser that are not inside such a
    pair the events grow by a balanced sequence that mentions every token the
    cursor moved over exactly once.  [Bal] states this of a computation, and
    that it does not panic; its rules follow the syntax of the grammar
    functions, so that the tactic [bal] proves it of each of them. *)

From Stdlib Require Import Strings.String Strings.Byte.
From stdpp Require Import base list option numbers.
From S2P Require Import Prelude RustStd Source Token SyntaxTree Parser.

(** ** Balanced events *)

(** [Balanced es n ds]: the nodes of [es] are well nested, all of them have a
    kind, and [es] has [n] tokens and the errors [ds]. *)
Inductive Balanced : list Event -> nat -> list ParseDiagnostic -> Prop :=
| bal_nil : Balanced [] 0 []
| bal_token : Balanced [AddToken] 1 []
| bal_error d : Balanced [EventError d] 0 [d]
| bal_node k es n ds :
    Balanced es n ds -> Balanced (StartNode k :: es ++ [FinishNode]) n ds
| bal_app es1 n1 ds1 es2 n2 ds2 :
    Balanced es1 n1 ds1 -> Balanced es2 n2 ds2 ->
    Balanced (es1 ++ es2) (n1 + n2) (ds1 ++ ds2).

(** The span of a diagnostic of the parser core is that of a token or the
    empty range at the end. *)
Definition token_span (t : TokenSource) (d : ParseDiagnostic) : Prop :=
  pd_span d = TextRange_empty (length (ts_source t)) \/
  exists token, token ∈ ts_tokens t /\ pd_span d = token_range token.

Definition advanced (t : TokenSource) (n : nat) : TokenSource :=
  mkTokenSource (ts_source t) (ts_tokens t) (ts_cursor t + n).

Definition cursor_ok (t : TokenSource) : Prop := ts_cursor t <= length (ts_tokens t).

(** From [p] the parser has reached [p'] with the nodes opened in between
    closed. *)
Definition Ext (p p' : Parser) : Prop :=
  exists es n ds,
    Balanced es n ds /\
    events p' = events p ++ es /\
    diagnostics p' = diagnostics p ++ ds /\
    token_source p' = advanced (token_source p) n /\
    (cursor_ok (token_source p) -> cursor_ok (token_source p')) /\
    Forall (token_span (token_source p)) ds.

Lemma advanced_0 t : advanced t 0 = t.
Proof. destruct t as [a c n]. unfold advanced. cbn [ts_source ts_tokens ts_cursor]. by rewrite Nat.add_0_r. Qed.

Lemma advanced_advanced t n m : advanced (advanced t n) m = advanced t (n + m).
Proof. unfold advanced. cbn [ts_source ts_tokens ts_cursor]. by rewrite Nat.add_assoc. Qed.

Lemma Ext_refl p : Ext p p.
Proof.
  exists [], 0, []. rewrite !app_nil_r, advanced_0. repeat split; auto using bal_nil.
Qed.

Lemma Ext_trans p1 p2 p3 : Ext p1 p2 -> Ext p2 p3 -> Ext p1 p3.
Proof.
  intros (es & n & ds & HB & He & Hd & Ht & Hc & Hs) (es' & n' & ds' & HB' & He' & Hd' & Ht' & Hc' & Hs').
  exists (es ++ es'), (n + n'), (ds ++ ds'). split; [by apply bal_app|].
  rewrite He', He, Hd', Hd, Ht', Ht, advanced_advanced, <- !app_assoc. repeat split; auto.
  - rewrite <- advanced_advanced, <- Ht, <- Ht'. auto.
  - apply Forall_app. split; [done|]. rewrite Ht in Hs'. exact Hs'.
Qed.

(** ** Partial correctness

    A computation does not panic and what it returns satisfies [Q]; it may use
    up its fuel. *)

Definition pwp {A} (m : PM A) (p : Parser) (Q : A -> Parser -> Prop) : Prop :=
  match m p with Ret (a, p') => Q a p' | Panic => False | Timeout => True end.

Lemma pwp_bind {A B} (m : PM A) (k : A -> PM B) p Q :
  pwp m p (fun a p' => pwp (k a) p' Q) -> pwp (bind m k) p Q.
Proof. unfold pwp, bind. by destruct (m p) as [[a p']| |]. Qed.

Lemma pwp_mono {A} (m : PM A) p (P Q : A -> Parser -> Prop) :
  pwp m p P -> (forall a p', P a p' -> Q a p') -> pwp m p Q.
Proof. unfold pwp. destruct (m p) as [[a p']| |]; auto. Qed.

Lemma pwp_loop {A R} (I : A -> Parser -> Prop) (body : A -> PM (A + R)) (Q : R -> Parser -> Prop)
    fuel a p :
  (forall a p, I a p -> pwp (body a) p (fun r p' => match r with
                                                    | inl a' => I a' p'
                                                    | inr v => Q v p'
                                                    end)) ->
  I a p -> pwp (loop fuel body a) p Q.
Proof.
  intros Hb. revert a p. induction fuel as [|fuel IH]; intros a p HI; [done|].
  cbn [loop]. apply pwp_bind. eapply pwp_mono; [by apply Hb|].
  intros [a'|v] p' H; [by apply IH | exact H].
Qed.

(** ** Open nodes *)

Definition started (p : Parser) : Parser :=
  mkParser (token_source p) (events p ++ [Placeholder]) (diagnostics p).

(** The markers [ms], innermost first, are open in [p], which was reached from
    [p0]. *)
Fixpoint opens (ms : list Marker) (p0 p : Parser) : Prop :=
  match ms with
  | [] => Ext p0 p
  | m :: ms => exists p1, opens ms p0 p1 /\ marker_pos m = length (events p1) /\ Ext (started p1) p
  end.

Lemma opens_ext ms p0 p p' : opens ms p0 p -> Ext p p' -> opens ms p0 p'.
Proof.
  destruct ms as [|m ms]; cbn [opens]; [apply Ext_trans|].
  intros (p1 & Ho & Hm & He) Hp. exists p1. repeat split; [done..|]. by eapply Ext_trans.
Qed.

Lemma insert_placeholder (l es : list Event) e :
  <[length l := e]> ((l ++ [Placeholder]) ++ es) = l ++ e :: es.
Proof. rewrite <- app_assoc. by rewrite insert_app_r_alt, Nat.sub_diag by lia. Qed.

(** Completing the innermost marker closes its node. *)
Lemma complete_closes m ms kind p0 p :
  opens (m :: ms) p0 p ->
  exists p', complete m kind p = Ret (mkCompletedMarker (marker_pos m) kind, p') /\ opens ms p0 p'.
Proof.
  intros (p1 & Ho & Hm & es & n & ds & HB & He & Hd & Ht & Hc & Hs).
  unfold complete, complete_marker, bind. cbn [events started] in He.
  assert (length (events p1) < length (events p)) as Hlt.
  { rewrite He, !length_app. cbn [length]. lia. }
  rewrite Hm. destruct (Nat.ltb_spec (length (events p1)) (length (events p))); [|lia].
  eexists. split; [reflexivity|]. eapply opens_ext; [exact Ho|].
  exists (StartNode kind :: es ++ [FinishNode]), n, ds. cbn [events diagnostics token_source].
  split; [by apply bal_node|]. rewrite He, insert_placeholder, <- app_assoc. repeat split; done.
Qed.

(** ** Balanced computations *)

(** With the markers [ms] open, [m] closes them all and is balanced. *)
Definition BalO {A} (ms : list Marker) (m : PM A) : Prop :=
  forall p0 p, opens ms p0 p -> pwp m p (fun _ p' => Ext p0 p').

Abbreviation Bal m := (BalO [] m).

(** The same from the states that satisfy [c]. *)
Definition BalIf {A} (c : Parser -> bool) (m : PM A) : Prop :=
  forall p, c p = true -> pwp m p (fun _ p' => Ext p p').

Lemma Bal_intro {A} (m : PM A) : (forall p, pwp m p (fun _ p' => Ext p p')) -> Bal m.
Proof.
  intros H p0 p Ho. eapply pwp_mono; [apply H|]. intros ? p'. by apply Ext_trans.
Qed.

Lemma Bal_pwp {A} (m : PM A) p : Bal m -> pwp m p (fun _ p' => Ext p p').
Proof. intros H. apply H, Ext_refl. Qed.

Lemma BalO_ret {A} (a : A) : Bal (ret a).
Proof. by apply Bal_intro; intros p; apply Ext_refl. Qed.

Lemma BalO_bind {A B} ms (m : PM A) (k : A -> PM B) :
  Bal m -> (forall a, BalO ms (k a)) -> BalO ms (bind m k).
Proof.
  intros Hm Hk p0 p Ho. apply pwp_bind. eapply pwp_mono; [by apply Bal_pwp|].
  intros a p' He. apply Hk. by eapply opens_ext.
Qed.

Lemma BalO_start {B} ms (k : Marker -> PM B) :
  (forall m, BalO (m :: ms) (k m)) -> BalO ms (bind start k).
Proof.
  intros Hk p0 p Ho. apply pwp_bind. unfold pwp at 1, start. apply Hk.
  exists p. repeat split; [done|]. apply Ext_refl.
Qed.

Lemma BalO_complete {B} m ms kind (k : CompletedMarker -> PM B) :
  (forall c, BalO ms (k c)) -> BalO (m :: ms) (bind (complete m kind) k).
Proof.
  intros Hk p0 p Ho. apply pwp_bind. unfold pwp at 1.
  apply (complete_closes _ _ kind) in Ho as (p' & -> & Ho). by apply Hk.
Qed.

Lemma BalO_ite {A} ms c (a b : PM A) : BalO ms a -> BalO ms b -> BalO ms (ite c a b).
Proof.
  intros Ha Hb p0 p Ho. unfold ite. apply pwp_bind. unfold pwp at 1, gets.
  destruct (c p); auto.
Qed.

(** The first branch may rely on the condition. *)
Lemma Bal_ite_if {A} c (a b : PM A) : BalIf c a -> Bal b -> Bal (ite c a b).
Proof.
  intros Ha Hb. apply Bal_intro. intros p. unfold ite. apply pwp_bind. unfold pwp at 1, gets.
  destruct (c p) eqn:E; [by apply Ha | by apply Bal_pwp].
Qed.

Lemma BalIf_bind {A B} c (m : PM A) (k : A -> PM B) :
  BalIf c m -> (forall a, Bal (k a)) -> BalIf c (bind m k).
Proof.
  intros Hm Hk p Hp. apply pwp_bind. eapply pwp_mono; [by apply Hm|].
  intros a p' He. by apply Hk.
Qed.

Lemma Bal_gets {A} (f : Parser -> A) : Bal (gets f).
Proof. by apply Bal_intro; intros p; apply Ext_refl. Qed.

Lemma Bal_loop {A R} fuel (body : A -> PM (A + R)) a :
  (forall a, Bal (body a)) -> Bal (loop fuel body a).
Proof.
  intros Hb. apply Bal_intro. intros p.
  apply (pwp_loop (fun _ p' => Ext p p')); [|apply Ext_refl].
  intros a' p' He. eapply pwp_mono; [by apply Hb|]. by intros [?|?] p''.
Qed.

Lemma Bal_timeout {A} : Bal (fun _ => @Timeout (A * Parser)).
Proof. by intros p0 p _. Qed.

(** ** The operations of the parser core *)

Lemma Bal_bump : Bal bump.
Proof.
  apply Bal_intro. intros p. unfold pwp, bump, is_eof, TokenSource.is_eof, TokenSource.bump.
  destruct (Nat.leb_spec (length (ts_tokens (token_source p))) (ts_cursor (token_source p)));
    cbn [negb]; [apply Ext_refl|].
  destruct (Nat.ltb_spec (ts_cursor (token_source p)) (length (ts_tokens (token_source p)))); [|lia].
  exists [AddToken], 1, []. cbn [events diagnostics token_source]. rewrite app_nil_r.
  repeat split; [apply bal_token | | constructor].
  intros _. unfold cursor_ok. cbn [ts_cursor ts_tokens]. lia.
Qed.

Lemma current_range_span p d : pd_span d = current_range p -> token_span (token_source p) d.
Proof.
  unfold current_range, TokenSource.current_range, token_span.
  destruct (_ !! _) as [token|] eqn:E; intros ->; [right | by left].
  exists token. split; [|done]. by eapply list_elem_of_lookup_2.
Qed.

Lemma error_Ext p d :
  pd_span d = current_range p -> pwp (error d) p (fun _ p' => Ext p p' /\ token_source p' = token_source p).
Proof.
  intros Hd. unfold pwp, error. split; [|done]. exists [EventError d], 0, [d].
  cbn [events diagnostics token_source]. rewrite advanced_0.
  repeat split; [apply bal_error | done |]. apply Forall_singleton. by apply current_range_span.
Qed.

Lemma Bal_error_expected message expected : Bal (error_expected message expected).
Proof.
  apply Bal_intro. intros p. unfold error_expected.
  eapply (pwp_mono (error _)); [by apply error_Ext|]. by intros ? p' [? _].
Qed.

Lemma Bal_error_expected_with_id id message expected :
  Bal (error_expected_with_id id message expected).
Proof.
  apply Bal_intro. intros p. unfold error_expected_with_id.
  eapply (pwp_mono (error _)); [by apply error_Ext|]. by intros ? p' [? _].
Qed.

Lemma Bal_error_and_bump expected : Bal (error_and_bump expected).
Proof.
  apply Bal_intro. intros p. unfold error_and_bump.
  apply (pwp_bind (error _)). eapply pwp_mono; [by apply error_Ext|].
  intros ? p' [? _]. by apply Bal_bump.
Qed.

(** ** Automation *)

Create HintDb parser.
#[export] Hint Resolve BalO_ret Bal_gets Bal_timeout Bal_bump Bal_error_expected
  Bal_error_expected_with_id Bal_error_and_bump : parser.

Ltac bal_step :=
  match goal with
  | |- forall _, _ => intros
  | |- BalO _ (bind start _) => apply BalO_start
  | |- BalO (_ :: _) (bind (complete _ _) _) => apply BalO_complete
  | |- BalO _ (bind _ _) => apply BalO_bind
  | |- BalO _ (ite _ _ _) => apply BalO_ite
  | |- BalO _ (loop _ _ _) => apply Bal_loop
  | |- BalO _ (let '(_, _) := ?x in _) => destruct x
  | |- BalO _ (if ?b then _ else _) => destruct b
  | |- BalO _ (match ?x with _ => _ end) => destruct x
  end.

Ltac bal := repeat (first [ solve [eauto with parser] | bal_step ]).

Lemma Bal_while fuel c body : Bal body -> Bal (while fuel c body).
Proof. intros H. unfold while. bal. Qed.

Lemma Bal_eat kind : Bal (eat kind).
Proof.
  apply Bal_intro. intros p. unfold pwp, eat. destruct (at_ kind p); [|apply Ext_refl].
  apply (Bal_pwp (bump ;;; ret true) p). bal.
Qed.

(** The assertion of [recover_until] holds. *)
Lemma Bal_recover_until fuel boundary : Bal (recover_until fuel boundary).
Proof.
  unfold recover_until. apply Bal_loop. intros _. apply BalO_ite; [|bal].
  apply Bal_intro. intros p. apply pwp_bind. unfold pwp at 1, gets. apply pwp_bind.
  assert (is_eof p = true /\ bump p = Ret (tt, p) \/
          exists p', bump p = Ret (tt, p') /\ Ext p p' /\ position p < position p') as Hb.
  { pose proof (Bal_pwp bump p Bal_bump) as He. unfold pwp in He.
    unfold bump, is_eof, position, TokenSource.position, TokenSource.is_eof, TokenSource.bump in *.
    destruct (Nat.leb_spec (length (ts_tokens (token_source p))) (ts_cursor (token_source p)));
      cbn [negb] in *; [by left | right].
    eexists. split; [reflexivity|]. split; [exact He|].
    cbn [token_source]. destruct (Nat.ltb_spec (ts_cursor (token_source p)) (length (ts_tokens (token_source p))));
      cbn [ts_cursor]; lia. }
  unfold pwp at 1. destruct Hb as [[Heof ->] | (p' & -> & He & Hlt)];
    unfold ite; apply pwp_bind; unfold pwp at 1, gets, cond_or.
  - rewrite Heof. cbn [orb]. apply Bal_pwp. bal.
  - destruct (Nat.ltb_spec (position p) (position p')); [|lia]. rewrite orb_true_r.
    eapply pwp_mono; [apply Bal_pwp; bal|]. intros ? p''. by apply Ext_trans.
Qed.

#[export] Hint Resolve Bal_while Bal_recover_until Bal_eat : parser.
