(* ===== verification/GrammarProofs.v ===== *)
(** * GrammarProofs: every grammar function is balanced

    [GrammarOk] is what a grammar function may rely on of the functions it
    calls through the class [Grammar]; each function of the grammar is balanced
    against it, and [grammar] provides it at every depth. *)

From Stdlib Require Import Strings.String Strings.Byte.
From stdpp Require Import base list option numbers.
From S2P Require Import Prelude RustStd Simd ByteKernel Source Token LexStrings Lexer.
From S2P Require Import SyntaxTree Parser ParserLogic GrammarBase GrammarCode Grammar.

Class GrammarOk (G : Grammar) : Prop := {
  ok_expression_bp min_bp : Bal (g_expression_bp min_bp);
  ok_prefix_or_primary : Bal g_prefix_or_primary;
  ok_simple_variable : Bal g_simple_variable;
  ok_intersection_type : Bal g_intersection_type;
  ok_statement : Bal g_statement
}.

#[export] Hint Resolve ok_expression_bp ok_prefix_or_primary ok_simple_variable
  ok_intersection_type ok_statement : parser.

Lemma Bal_bump_or_error kind message expected : Bal (bump_or_error kind message expected).
Proof. unfold bump_or_error. bal. Qed.

Lemma Bal_unless_error c message expected : Bal (unless_error c message expected).
Proof. unfold unless_error. bal. Qed.

#[export] Hint Resolve Bal_bump_or_error Bal_unless_error : parser.
#[export] Hint Extern 1 (BalO _ continue_) => apply BalO_ret : parser.
#[export] Hint Extern 1 (BalO _ break_) => apply BalO_ret : parser.

Section Balanced.
Context {G : Grammar} {HG : GrammarOk G}.

Lemma Bal_bump_trivia : Bal bump_trivia.
Proof. unfold bump_trivia. bal. Qed.

Lemma Bal_loop_ body : Bal body -> Bal (loop_ body).
Proof. intros H. unfold loop_. by apply Bal_loop. Qed.

Lemma Bal_parse_expression : Bal parse_expression.
Proof. unfold parse_expression. bal. Qed.

Lemma Bal_recover_to_statement_boundary : Bal recover_to_statement_boundary.
Proof. apply Bal_recover_until. Qed.

Lemma Bal_recover_to_expression_boundary : Bal recover_to_expression_boundary.
Proof. apply Bal_recover_until. Qed.
End Balanced.

#[export] Hint Resolve Bal_bump_trivia Bal_parse_expression Bal_recover_to_statement_boundary
  Bal_recover_to_expression_boundary : parser.

(** A grammar function without a lemma of its own is unfolded. *)
Ltac head_of m := lazymatch m with ?f _ => head_of f | _ => m end.

Ltac bal ::=
  repeat (first [ solve [eauto with parser]
                | match goal with
                  | |- BalO _ (loop_ _) => apply Bal_loop_
                  | |- BalO _ (while _ _ _) => apply Bal_while
                  end
                | bal_step
                | match goal with |- BalO _ ?m => let h := head_of m in unfold h end ]).

Section Grammar.
Context {G : Grammar} {HG : GrammarOk G}.

Lemma Bal_parse_name : Bal Names.parse_name.
Proof. bal. Qed.
#[local] Hint Resolve Bal_parse_name : parser.

Lemma Bal_parse_simple_variable : Bal Variables.parse_simple_variable.
Proof. bal. Qed.

Lemma Bal_parse_intersection_type : Bal Types.parse_intersection_type.
Proof. bal. Qed.

Lemma Bal_parse_type : Bal Types.parse_type.
Proof. bal. Qed.
#[local] Hint Resolve Bal_parse_type : parser.

Lemma Bal_parse_string_like : Bal Strings.parse_string_like.
Proof. bal. Qed.

Lemma Bal_parse_array_pairs_until close : Bal (Arrays.parse_array_pairs_until close).
Proof. bal. Qed.
#[local] Hint Resolve Bal_parse_array_pairs_until : parser.

(** The assertion of [parse_array_body] holds where it is called. *)
Lemma Bal_parse_array_body open close kind :
  BalIf (Sy open) (Arrays.parse_array_body open close kind).
Proof.
  intros p Hp. unfold Arrays.parse_array_body. apply pwp_bind. unfold pwp at 1, start, ite.
  apply pwp_bind. unfold pwp at 1, gets, cond_not.
  assert (at_ (symbol open) (started p) = true) as Hs by exact Hp.
  unfold started in Hs. rewrite Hs. cbn [negb].
  assert (BalO [mkMarker (length (events p))]
            (bump ;;; Arrays.parse_array_pairs_until close ;;;
             bump_or_error (symbol close) "expected array terminator"
               [if close =b "]"%byte then "]" else ")"]%string ;;;
             complete (mkMarker (length (events p))) (NK kind) ;;; ret tt)) as HB by bal.
  apply HB. exists p. repeat split; apply Ext_refl.
Qed.

Lemma Bal_parse_array_expression : Bal Arrays.parse_array_expression.
Proof.
  unfold Arrays.parse_array_expression. apply Bal_ite_if; [|bal].
  apply BalIf_bind; [apply Bal_parse_array_body | bal].
Qed.

Lemma Bal_parse_attribute_groups : Bal Attributes.parse_attribute_groups.
Proof. bal. Qed.
#[local] Hint Resolve Bal_parse_attribute_groups : parser.

Lemma Bal_parse_block_statement : Bal Blocks.parse_block_statement.
Proof. bal. Qed.

Lemma Bal_parse_statements_until at_end : Bal (Blocks.parse_statements_until at_end).
Proof. bal. Qed.
#[local] Hint Resolve Bal_parse_block_statement Bal_parse_statements_until : parser.

Lemma Bal_parse_parameter_list : Bal Functions.parse_parameter_list.
Proof. bal. Qed.
#[local] Hint Resolve Bal_parse_parameter_list : parser.

Lemma Bal_call_tail_step b : Bal (Calls.call_tail_step b).
Proof. bal. Qed.
#[local] Hint Resolve Bal_call_tail_step : parser.

Lemma Bal_parse_call_tail : Bal Calls.parse_call_tail.
Proof. bal. Qed.
#[local] Hint Resolve Bal_parse_call_tail : parser.

Lemma pwp_bump_ret {A} (a : A) p (Q : A -> Parser -> Prop) :
  (forall p', Ext p p' -> Q a p') -> pwp (bump ;;; ret a) p Q.
Proof.
  intros H. apply pwp_bind. eapply pwp_mono; [apply Bal_pwp, Bal_bump|]. intros ? p' He. by apply H.
Qed.

(** [consume_balanced_block] starts at an opening brace, so its depth is
    positive when it meets a closing one. *)
Lemma Bal_consume_balanced_block : BalIf (Sy "{") Classes.consume_balanced_block.
Proof.
  intros p Hp. unfold Classes.consume_balanced_block. apply pwp_bind.
  eapply pwp_mono; [|intros returned p' He; eapply pwp_mono; [apply Bal_pwp; bal|]; intros ? p'';
                     apply (Ext_trans p p'); exact He].
  apply (pwp_loop (fun depth p' => Ext p p' /\ (depth = 0 -> at_ (symbol "{") p' = true)));
    [|by split; [apply Ext_refl|]].
  intros depth p' [He Hd]. unfold ite. apply pwp_bind. unfold pwp at 1, gets.
  destruct (is_eof p'); [exact He|]. apply pwp_bind. unfold pwp at 1.
  destruct (at_ (symbol "{") p').
  { apply pwp_bump_ret. intros p'' He'. split; [by eapply Ext_trans | lia]. }
  assert (depth <> 0) as Hpos by (intros ->; discriminate Hd; done).
  apply pwp_bind. unfold pwp at 1. destruct (at_ (symbol "}") p').
  - apply pwp_bind. unfold pwp at 1, lift, usize_sub. destruct (Nat.leb_spec 1 depth); [|lia].
    cbn [obind]. apply pwp_bump_ret. intros p'' He'.
    destruct (Nat.eqb_spec (depth - 1) 0); [by eapply Ext_trans|].
    split; [by eapply Ext_trans | done].
  - apply pwp_bump_ret. intros p'' He'. split; [by eapply Ext_trans | done].
Qed.

Lemma Bal_consume_member_with_optional_body : Bal Classes.consume_member_with_optional_body.
Proof.
  unfold Classes.consume_member_with_optional_body. apply BalO_bind; [bal|]. intros _.
  apply Bal_ite_if; [apply Bal_consume_balanced_block | bal].
Qed.
#[local] Hint Resolve Bal_consume_member_with_optional_body Bal_parse_array_expression : parser.

Lemma Bal_parse_function_declaration : Bal Functions.parse_function_declaration.
Proof. bal. Qed.

Lemma Bal_property_hook_step : Bal Classes.property_hook_step.
Proof. bal. Qed.
#[local] Hint Resolve Bal_property_hook_step : parser.

Lemma Bal_member_list_step : Bal Classes.member_list_step.
Proof. bal. Qed.
#[local] Hint Resolve Bal_member_list_step : parser.

Lemma Bal_parse_member_list : Bal Classes.parse_member_list.
Proof. bal. Qed.
#[local] Hint Resolve Bal_parse_function_declaration Bal_parse_member_list : parser.

Lemma Bal_parse_class_like named_required : Bal (Classes.parse_class_like named_required).
Proof. bal. Qed.
#[local] Hint Resolve Bal_parse_class_like : parser.

Lemma Bal_parse_dim_fetch_tail open close : Bal (Arrays.parse_dim_fetch_tail open close).
Proof. bal. Qed.
#[local] Hint Resolve Bal_parse_dim_fetch_tail Bal_parse_string_like : parser.

Lemma Bal_parse_primary : Bal Expressions.parse_primary.
Proof. bal. Qed.
#[local] Hint Resolve Bal_parse_primary : parser.

Lemma Bal_parse_prefix_or_primary : Bal Expressions.parse_prefix_or_primary.
Proof. bal. Qed.

Lemma Bal_parse_expression_bp min_bp : Bal (Expressions.parse_expression_bp min_bp).
Proof. bal. Qed.

Lemma Bal_parse_group_use_list depth : Bal (Declarations.parse_group_use_list depth).
Proof. induction depth as [|depth IH]; cbn [Declarations.parse_group_use_list]; bal. Qed.
#[local] Hint Resolve Bal_parse_group_use_list : parser.

Lemma Bal_parse_parenthesized_expression_header context :
  Bal (Statements.parse_parenthesized_expression_header context).
Proof. bal. Qed.

Lemma Bal_parse_control_body : Bal Statements.parse_control_body.
Proof. bal. Qed.

Lemma Bal_consume_statement_terminator : Bal Statements.consume_statement_terminator.
Proof. bal. Qed.
#[local] Hint Resolve Bal_parse_parenthesized_expression_header Bal_parse_control_body
  Bal_consume_statement_terminator : parser.

Lemma Bal_parse_loop_statement start_keyword end_keyword kind :
  Bal (Statements.parse_loop_statement start_keyword end_keyword kind).
Proof.
  unfold Statements.parse_loop_statement. apply BalO_start. intros m.
  apply BalO_bind; [bal|]. intros _. apply BalO_bind; [destruct start_keyword; bal | bal].
Qed.
#[local] Hint Resolve Bal_parse_loop_statement : parser.

Lemma Bal_parse_statement : Bal Statements.parse_statement.
Proof. bal. Qed.

Lemma Bal_parse : Bal SourceFile.parse.
Proof. bal. Qed.
End Grammar.

(** The grammar is balanced at every depth of recursion. *)
#[export] Instance grammar_ok loops depth : GrammarOk (grammar loops depth).
Proof.
  induction depth as [|depth IH]; constructor; intros; cbn [grammar grammar_stop g_expression_bp
    g_prefix_or_primary g_simple_variable g_intersection_type g_statement].
  1-5: apply Bal_timeout.
  - apply Bal_parse_expression_bp.
  - apply Bal_parse_prefix_or_primary.
  - apply Bal_parse_simple_variable.
  - apply Bal_parse_intersection_type.
  - apply Bal_parse_statement.
Qed.
