(* ===== verification/ParserProofs.v ===== *)
(** * ParserProofs: the syntax tree is lossless

    The tree sink turns a balanced event stream into nodes that hold the tokens
    in order ([tree_sink.rs]); the parser emits such a stream and consumes
    every token ([source_file.rs]); so the text of the tree is the text of the
    tokens ([parse.rs]). *)

From Stdlib Require Import Strings.String Strings.Byte.
From stdpp Require Import base list option numbers.
From S2P Require Import Prelude RustStd Simd ByteKernel Source Token LexStrings Lexer.
From S2P Require Import LexerProofs LexerUtf8 SyntaxTree Parser ParserLogic GrammarBase GrammarCode Grammar.
From S2P Require Import GrammarProofs.

(** ** Trees *)

Fixpoint elements_text (cs : list SyntaxElement) : bytes :=
  match cs with
  | [] => []
  | ElementNode n :: cs => push_reconstructed_text n ++ elements_text cs
  | ElementToken t :: cs => st_text t ++ elements_text cs
  end.

Lemma push_reconstructed_children k r cs :
  push_reconstructed_text (SyntaxNode_new k r cs) = elements_text cs.
Proof.
  cbn [push_reconstructed_text]. induction cs as [|[n|t] cs IH]; cbn [elements_text]; congruence.
Qed.

Lemma elements_text_app cs1 cs2 : elements_text (cs1 ++ cs2) = elements_text cs1 ++ elements_text cs2.
Proof.
  induction cs1 as [|[n|t] cs1 IH]; cbn [app elements_text]; [done|..]; by rewrite IH, app_assoc.
Qed.

(** The text the sink gives to a token. *)
Definition sink_text (source : bytes) (t : Token) : bytes := default [] (token_text t source).

Definition tokens_text (source : bytes) (ts : list Token) : bytes :=
  concat (sink_text source <$> ts).

(** The spans in a tree: every range is ordered and ends within [len]. *)
Definition range_within (len : nat) (r : TextRange) : bool :=
  (to_usize (Source.start r) <=? to_usize (end_ r)) && (to_usize (end_ r) <=? len).

Fixpoint node_within (len : nat) (n : SyntaxNode) : bool :=
  match n with
  | SyntaxNode_new _ r cs =>
      range_within len r &&
      (fix go (cs : list SyntaxElement) : bool :=
         match cs with
         | [] => true
         | ElementNode n :: cs => node_within len n && go cs
         | ElementToken t :: cs => range_within len (st_range t) && go cs
         end) cs
  end.

Definition element_within (len : nat) (e : SyntaxElement) : bool :=
  match e with
  | ElementNode n => node_within len n
  | ElementToken t => range_within len (st_range t)
  end.

Lemma node_within_children len k r cs :
  node_within len (SyntaxNode_new k r cs) = range_within len r && forallb (element_within len) cs.
Proof.
  cbn [node_within]. f_equal. induction cs as [|[n|t] cs IH]; cbn [forallb element_within]; congruence.
Qed.

Lemma range_within_spec len r :
  range_within len r = true <-> to_usize (Source.start r) <= to_usize (end_ r) <= len.
Proof. unfold range_within. rewrite andb_true_iff, !Nat.leb_le. done. Qed.

Lemma element_within_bounds len e :
  element_within len e = true -> element_start e <= element_end e <= len.
Proof.
  destruct e as [[k r cs]|t]; cbn [element_within element_start element_end node_range].
  - rewrite node_within_children, andb_true_iff. intros [H _]. by apply range_within_spec.
  - apply range_within_spec.
Qed.

Lemma foldr_max_le len cs :
  forallb (element_within len) cs = true ->
  foldr (fun e m => Nat.max (element_end e) m) 0 cs <= len.
Proof.
  induction cs as [|e cs IH]; cbn [forallb foldr]; [lia|].
  intros [He%element_within_bounds H%IH]%andb_true_iff. lia.
Qed.

Lemma range_for_children_within len cs :
  forallb (element_within len) cs = true -> range_within len (range_for_children cs) = true.
Proof.
  intros H. apply range_within_spec. unfold range_for_children.
  pose proof (foldr_max_le len cs H) as Hm. destruct cs as [|e cs]; [cbn; lia|].
  cbn [forallb] in H. apply andb_true_iff in H as [He%element_within_bounds _].
  assert (element_start e <= foldr (fun e m => Nat.max (element_end e) m) 0 (e :: cs))
    by (cbn [foldr]; lia).
  rewrite TextRange_new_ok by done. cbn [Source.start end_ to_usize]. lia.
Qed.

(** ** The tree sink on balanced events *)

Lemma take_take_drop_plus {A} (l : list A) cur n m :
  take n (drop cur l) ++ take m (drop (cur + n) l) = take (n + m) (drop cur l).
Proof. by rewrite <- drop_drop, take_take_drop. Qed.

Section Sink.
Context (source : bytes) (ts : list Token).
Context (len : nat) (Hts : forallb (fun t => range_within len (token_range t)) ts = true).

(** [ds] may be attached: their spans are within the source. *)
Definition spans_within (ds : list ParseDiagnostic) : bool :=
  forallb (fun d => range_within len (pd_span d)) ds.

(** Inside the node [fk] with the children [fc], the events [es] append the
    children [cs] and take [n] tokens from the position [cur]. *)
Definition appends (es : list Event) (n cur : nat) (cs : list SyntaxElement) : Prop :=
  (forall fk fc stack root,
     fold_left (sink_event source) es (mkTreeSink ts cur (mkNodeFrame fk fc :: stack) root) =
     mkTreeSink ts (cur + n) (mkNodeFrame fk (fc ++ cs) :: stack) root) /\
  elements_text cs = tokens_text source (take n (drop cur ts)) /\
  forallb (element_within len) cs = true.

Lemma appends_token cur : cur < length ts -> exists cs, appends [AddToken] 1 cur cs.
Proof.
  intros Hc. destruct (lookup_lt_is_Some_2 ts cur Hc) as [t Ht].
  exists [ElementToken (mkSyntaxToken (SyntaxKind.from_token_kind (token_kind t))
            (sink_text source t) (token_range t) (token_line t))].
  split; [|split].
  - intros. cbn [fold_left sink_event]. unfold next_token. cbn [sink_tokens sink_cursor].
    by rewrite Ht.
  - rewrite (drop_S _ _ _ Ht). cbn [take]. unfold tokens_text. cbn. by rewrite !app_nil_r.
  - cbn [forallb element_within st_range]. rewrite andb_true_r.
    rewrite forallb_forall in Hts. apply Hts, list_elem_of_In, list_elem_of_lookup. by exists cur.
Qed.

Lemma appends_error d cur :
  range_within len (pd_span d) = true -> exists cs, appends [EventError d] 0 cur cs.
Proof.
  intros Hd. exists [ElementNode (SyntaxNode_new SyntaxKind.ERROR (pd_span d) [])].
  split; [|split]; [|done|].
  - intros. cbn [fold_left sink_event]. by rewrite Nat.add_0_r.
  - cbn [forallb element_within]. rewrite node_within_children. cbn [forallb].
    by rewrite !andb_true_r.
Qed.

Lemma appends_node k es n cur cs :
  appends es n cur cs ->
  appends (StartNode k :: es ++ [FinishNode]) n cur
    [ElementNode (SyntaxNode_new k (range_for_children cs) cs)].
Proof.
  intros (Hf & Ht & Hw). split; [|split].
  - intros. cbn [fold_left sink_event]. rewrite fold_left_app. cbn [sink_tokens sink_cursor sink_stack sink_root].
    by rewrite Hf.
  - cbn [elements_text]. by rewrite push_reconstructed_children, app_nil_r.
  - cbn [forallb element_within]. by rewrite node_within_children, Hw, range_for_children_within.
Qed.

Lemma appends_app es1 n1 cs1 es2 n2 cs2 cur :
  appends es1 n1 cur cs1 -> appends es2 n2 (cur + n1) cs2 ->
  appends (es1 ++ es2) (n1 + n2) cur (cs1 ++ cs2).
Proof.
  intros (Hf1 & Ht1 & Hw1) (Hf2 & Ht2 & Hw2). split; [|split].
  - intros. rewrite fold_left_app, Hf1, Hf2. by rewrite Nat.add_assoc, app_assoc.
  - rewrite elements_text_app, Ht1, Ht2. unfold tokens_text.
    rewrite <- concat_app, <- fmap_app. by rewrite take_take_drop_plus.
  - by rewrite forallb_app, Hw1, Hw2.
Qed.

(** Balanced events inside an open node append children to it that hold the
    next tokens in order, and nothing else. *)
Lemma sink_balanced es n ds (HB : Balanced es n ds) :
  forall cur, cur + n <= length ts -> spans_within ds = true -> exists cs, appends es n cur cs.
Proof.
  induction HB as [| |d|k es n ds HB IH|es1 n1 ds1 es2 n2 ds2 HB1 IH1 HB2 IH2]; intros cur Hc Hds.
  - exists []. split; [|done]. intros. by rewrite app_nil_r, Nat.add_0_r.
  - apply appends_token. lia.
  - apply appends_error. unfold spans_within in Hds. cbn [forallb] in Hds.
    by rewrite andb_true_r in Hds.
  - destruct (IH cur Hc Hds) as [cs Hcs]. eexists. by apply appends_node.
  - unfold spans_within in Hds. rewrite forallb_app in Hds. apply andb_true_iff in Hds as [Hd1 Hd2].
    destruct (IH1 cur) as [cs1 H1]; [lia | done|].
    destruct (IH2 (cur + n1)) as [cs2 H2]; [lia | done|].
    eexists. by apply appends_app.
Qed.
End Sink.

(** ** The whole parser *)

Section Run.
Context {G : Grammar} {HG : GrammarOk G}.

(** [SourceFile.parse] wraps all tokens in one node of kind [SOURCE_FILE]. *)
Definition source_file_parsed (p p' : Parser) : Prop :=
  exists es n ds,
    Balanced es n ds /\
    events p' = events p ++ StartNode SyntaxKind.SOURCE_FILE :: es ++ [FinishNode] /\
    diagnostics p' = diagnostics p ++ ds /\
    ts_cursor (token_source p) + n = length (ts_tokens (token_source p)) /\
    token_source p' = advanced (token_source p) n /\
    Forall (token_span (token_source p)) ds.

Lemma Bal_source_file_step :
  Bal (If T TokenName.InlineHtml Then SourceFile.parse_inline_html
       Else If T TokenName.OpenTag ||| T TokenName.OpenTagWithEcho Then SourceFile.parse_php_block
       Else SourceFile.parse_unexpected).
Proof. bal. Qed.

(** The loop of [SourceFile.parse] stops only at the end of the tokens. *)
Lemma source_file_loop fuel p body :
  Bal body ->
  pwp (while fuel (not_ is_eof) body) p (fun _ p' => Ext p p' /\ is_eof p' = true).
Proof.
  intros HB. apply (pwp_loop (fun _ p' => Ext p p')); [|apply Ext_refl].
  intros _ p' He. unfold ite. apply pwp_bind. unfold pwp at 1, gets, cond_not.
  destruct (is_eof p') eqn:E; cbn [negb]; [done|]. apply pwp_bind.
  eapply pwp_mono; [by apply Bal_pwp|]. intros ? p'' He'. by eapply Ext_trans.
Qed.

Lemma source_file_spec p :
  cursor_ok (token_source p) -> pwp SourceFile.parse p (fun _ p' => source_file_parsed p p').
Proof.
  intros Hc. unfold SourceFile.parse. apply pwp_bind. unfold pwp at 1, start.
  apply pwp_bind. eapply pwp_mono; [apply source_file_loop, Bal_source_file_step|].
  intros ? p' [(es & n & ds & HB & He & Hd & Ht & Hc' & Hs) Heof].
  cbn [events diagnostics token_source] in *. specialize (Hc' Hc).
  apply pwp_bind. unfold pwp at 1, complete, complete_marker, bind. cbn [marker_pos].
  assert (length (events p) < length (events p')) as Hlt.
  { rewrite He, !length_app. cbn [length]. lia. }
  destruct (Nat.ltb_spec (length (events p)) (length (events p'))); [|lia].
  exists es, n, ds. cbn [events diagnostics token_source]. split; [done|].
  rewrite He, insert_placeholder, <- app_assoc. repeat split; [done| |done..].
  unfold cursor_ok in Hc'. unfold is_eof, TokenSource.is_eof in Heof. apply Nat.leb_le in Heof.
  rewrite Ht in Hc', Heof. cbn [advanced ts_cursor ts_tokens] in Hc', Heof. lia.
Qed.
End Run.

Lemma forward_diagnostics_spec ds p :
  forward_diagnostics ds p =
  Ret (tt, mkParser (token_source p) (events p ++ (EventError ∘ lexer_diagnostic <$> ds))
             (diagnostics p ++ (lexer_diagnostic <$> ds))).
Proof.
  revert p. induction ds as [|d ds IH]; intros p; cbn [forward_diagnostics].
  - cbn. by rewrite !app_nil_r; destruct p.
  - unfold bind, error. cbn [obind]. rewrite IH. cbn [token_source events diagnostics fmap list_fmap].
    by rewrite <- !app_assoc.
Qed.

(** What the parser returns. *)
Definition parsed (source : bytes) (r : LexResult) (p : Parser) : Prop :=
  exists es ds,
    Balanced es (length (Lexer.tokens r)) ds /\
    events p = (EventError ∘ lexer_diagnostic <$> Lexer.diagnostics r) ++
               StartNode SyntaxKind.SOURCE_FILE :: es ++ [FinishNode] /\
    diagnostics p = (lexer_diagnostic <$> Lexer.diagnostics r) ++ ds /\
    ts_tokens (token_source p) = Lexer.tokens r /\
    Forall (token_span (TokenSource.new source (Lexer.tokens r))) ds.

Lemma run_parser_spec fuel source r :
  match run_parser fuel source r with Ret p => parsed source r p | Panic => False | Timeout => True end.
Proof.
  unfold run_parser, bind. rewrite forward_diagnostics_spec. cbn [obind].
  set (p0 := mkParser _ _ _). pose proof (source_file_spec (G := grammar fuel fuel) p0) as H.
  unfold pwp in H. destruct (SourceFile.parse p0) as [[[] p]| |]; cbn [obind];
    [|apply H; unfold cursor_ok; cbn; lia | done].
  destruct H as (es & n & ds & HB & He & Hd & Hn & Ht & Hs); [unfold cursor_ok; cbn; lia|].
  subst p0. cbn in He, Hd, Hn, Ht, Hs. subst n.
  exists es, ds. rewrite Ht. done.
Qed.

(** Errors outside every node only replace the root. *)
Lemma sink_errors source ts ds root :
  exists root', fold_left (sink_event source) (EventError ∘ lexer_diagnostic <$> ds) (mkTreeSink ts 0 [] root) =
                mkTreeSink ts 0 [] root'.
Proof.
  revert root. induction ds as [|d ds IH]; intros root; [by exists root|].
  cbn [fmap list_fmap fold_left]. apply IH.
Qed.

Definition token_ranges_within (len : nat) (ts : list Token) : bool :=
  forallb (fun t => range_within len (token_range t)) ts.

Lemma token_span_within source ts d :
  token_ranges_within (length source) ts = true ->
  token_span (TokenSource.new source ts) d -> range_within (length source) (pd_span d) = true.
Proof.
  intros Hts [-> | (t & Hin & ->)].
  - apply range_within_spec. cbn. lia.
  - unfold token_ranges_within in Hts. rewrite forallb_forall in Hts.
    apply Hts. by apply list_elem_of_In.
Qed.

Lemma forallb_Forall_true {A} (f : A -> bool) l : Forall (fun x => f x = true) l -> forallb f l = true.
Proof. induction 1; cbn [forallb]; [done|]. by apply andb_true_iff. Qed.

(** The tree of a parse: the root is the source file, its text is that of the
    tokens and its spans are within the source. *)
Lemma parsed_tree source r p :
  token_ranges_within (length source) (Lexer.tokens r) = true -> parsed source r p ->
  exists cs, sink_finish source (Lexer.tokens r) (events p) =
             SyntaxNode_new SyntaxKind.SOURCE_FILE (range_for_children cs) cs /\
    elements_text cs = tokens_text source (Lexer.tokens r) /\
    node_within (length source) (sink_finish source (Lexer.tokens r) (events p)) = true.
Proof.
  intros Hts (es & ds & HB & He & Hd & Ht & Hs).
  assert (spans_within (length source) ds = true) as Hds.
  { apply forallb_Forall_true. eapply List.Forall_impl; [|exact Hs].
    intros d. by apply token_span_within. }
  destruct (sink_balanced source (Lexer.tokens r) (length source) Hts es _ ds HB 0)
    as (cs & Hf & Htext & Hw); [lia | done|].
  exists cs. unfold sink_finish, TreeSink_new. rewrite He, fold_left_app.
  destruct (sink_errors source (Lexer.tokens r) (Lexer.diagnostics r) None) as [root ->].
  cbn [fold_left sink_event]. rewrite fold_left_app. cbn [sink_tokens sink_cursor sink_stack sink_root].
  rewrite Hf. cbn [fold_left sink_event sink_stack nf_children nf_kind app].
  rewrite drop_0, take_ge in Htext by done. split; [done|]. split; [done|].
  cbn [attach_element sink_stack sink_root].
  by rewrite node_within_children, Hw, range_for_children_within.
Qed.

(** ** [parse_source_file] *)

Section ParseSourceFile.
Context {mc : Memchr} {laws : MemchrLaws mc} (bk : backend) (source : bytes).
Context (Hsize : (N.of_nat (length source) + 1 < 2 ^ 32)%N).

Lemma token_range_within t :
  tok_start t <= tok_end t <= length source -> range_within (length source) (token_range t) = true.
Proof. intros H. by apply range_within_spec. Qed.

Lemma tiles_within a ts c :
  tiles a ts c -> c <= length source -> token_ranges_within (length source) ts = true.
Proof.
  revert a. induction ts as [|t ts IH]; intros a; [done|]. cbn [tiles]. intros (Hs & Hlt & Hrest) Hc.
  cbn [token_ranges_within forallb]. pose proof (tiles_le _ _ _ Hrest).
  apply andb_true_iff. split; [apply token_range_within; lia | by apply (IH (tok_end t))].
Qed.

(** The tokens and diagnostics that reach the parser. *)
Lemma parser_input r :
  lex_all bk source parser_config = Ret r ->
  token_ranges_within (length source) (Lexer.tokens r) = true /\
  concat (token_bytes source <$> Lexer.tokens r) = drop (skipped_bom source parser_config) source /\
  spans_within (length source) (lexer_diagnostic <$> Lexer.diagnostics r) = true.
Proof.
  intros Hr. destruct (lex_all_lexed bk source parser_config Hsize) as (r' & Hr' & body & Htok & Ht & _ & Hd).
  assert (r' = r) as -> by congruence. cbn [emit_eof parser_config] in Htok. rewrite app_nil_r in Htok.
  rewrite Htok. split; [by eapply tiles_within|]. split.
  - rewrite (tiles_text _ _ _ _ Ht) by done. by rewrite take_ge by done.
  - apply forallb_Forall_true, Forall_fmap. eapply List.Forall_impl; [|exact Hd].
    intros d Hs. by apply range_within_spec.
Qed.

(** What [parse_source_file] returns when it does. *)
Lemma parse_source_file_ret fuel p :
  parse_source_file bk fuel source = Ret p ->
  exists r q, lex_all bk source parser_config = Ret r /\ parsed source r q /\
    parse_root p = sink_finish source (Lexer.tokens r) (events q) /\
    parse_diagnostics p = diagnostics q /\
    parse_reconstructed_text p = push_reconstructed_text (parse_root p).
Proof.
  unfold parse_source_file. destruct (lex_all bk source parser_config) as [r| |] eqn:Hr; [|done..].
  cbn [obind]. pose proof (run_parser_spec fuel source r) as H.
  destruct (run_parser fuel source r) as [q| |]; [|done..]. cbn [obind finish].
  intros [= <-]. exists r, q. split; [done|]. split; [done|]. cbn [parse_root].
  destruct H as (es & ds & _ & _ & _ & Ht & _). unfold TokenSource.into_tokens. by rewrite Ht.
Qed.

Lemma parse_source_file_no_panic fuel : parse_source_file bk fuel source <> Panic.
Proof.
  unfold parse_source_file. destruct (lex_all_lexed bk source parser_config Hsize) as (r & -> & _).
  cbn [obind]. pose proof (run_parser_spec fuel source r) as H.
  by destruct (run_parser fuel source r).
Qed.

Lemma tokens_text_bytes r :
  utf8_valid source = true -> lex_all bk source parser_config = Ret r ->
  tokens_text source (Lexer.tokens r) = concat (token_bytes source <$> Lexer.tokens r).
Proof.
  intros Hv Hr. unfold tokens_text. f_equal. apply list_fmap_ext. intros i t Hi.
  pose proof (lex_all_texts bk source parser_config Hsize r Hv Hr) as Ht.
  rewrite Forall_lookup in Ht. unfold sink_text. by rewrite (Ht i t Hi).
Qed.
End ParseSourceFile.

Section ParseClaims.
Context {mc : Memchr} {laws : MemchrLaws mc} (bk : backend) (source : bytes).

(** C6: The syntax tree is lossless: when [parse_source_file] returns for a
    valid UTF-8 source, its root is a [SOURCE_FILE] node and the text put
    together from the tokens of the tree is the source, whatever errors the
    parser met.  A byte order mark that an open tag follows is the exception: it
    is in no token and so not in the tree. *)
Theorem parse_lossless fuel p (Hsize : (N.of_nat (length source) + 1 < 2 ^ 32)%N)
    (Hutf8 : utf8_valid source = true) (Hrun : parse_source_file bk fuel source = Ret p) :
  node_kind (parse_root p) = SyntaxKind.SOURCE_FILE /\
  parse_reconstructed_text p = drop (skipped_bom source parser_config) source.
Proof.
  destruct (parse_source_file_ret bk source fuel p Hrun) as (r & q & Hr & Hq & Hroot & _ & Htext).
  destruct (parser_input bk source Hsize r Hr) as (Hw & Hbytes & _).
  destruct (parsed_tree source r q Hw Hq) as (cs & Htree & Hcs & _).
  rewrite Htext, Hroot, Htree, push_reconstructed_children, Hcs. split; [done|].
  by rewrite (tokens_text_bytes bk source Hsize r Hutf8 Hr).
Qed.

(** Every span of a parse lies within the source: the ranges of all nodes
    and tokens of the tree and of all diagnostics, those of the lexer
    included, are ordered and end within the source. *)
Theorem parse_spans fuel p (Hsize : (N.of_nat (length source) + 1 < 2 ^ 32)%N)
    (Hrun : parse_source_file bk fuel source = Ret p) :
  node_within (length source) (parse_root p) = true /\
  forallb (fun d => range_within (length source) (pd_span d)) (parse_diagnostics p) = true.
Proof.
  destruct (parse_source_file_ret bk source fuel p Hrun) as (r & q & Hr & Hq & Hroot & Hdiag & _).
  destruct (parser_input bk source Hsize r Hr) as (Hw & _ & Hlex).
  destruct (parsed_tree source r q Hw Hq) as (cs & _ & _ & Hin). rewrite Hroot, Hdiag. split; [done|].
  destruct Hq as (es & ds & _ & _ & -> & _ & Hs). rewrite forallb_app. apply andb_true_iff.
  split; [exact Hlex|]. apply forallb_Forall_true. eapply List.Forall_impl; [|exact Hs].
  intros d. by apply token_span_within.
Qed.

(** C7: The front end does not panic: on no source of bytes, valid UTF-8 or not,
    and with no fuel does [parse_source_file] panic.  The places of the parser
    where it could, the marker that [complete] overwrites, the assertion of
    progress in the recovery loops and the depth that is counted down at a
    closing brace, are all shown safe. *)
Theorem parse_never_panics fuel (Hsize : (N.of_nat (length source) + 1 < 2 ^ 32)%N) :
  parse_source_file bk fuel source <> Panic.
Proof. by apply parse_source_file_no_panic. Qed.

(** C8: The events of a parse are well nested: the errors of the lexer come
    first, then one [SOURCE_FILE] node around everything; every marker that a
    grammar function opened was completed, so no placeholder is left; each token
    occurs exactly once, and each diagnostic once and in order. *)
Theorem parser_events_balanced fuel r q (Hrun : run_parser fuel source r = Ret q) :
  exists es ds,
    events q = (EventError ∘ lexer_diagnostic <$> Lexer.diagnostics r) ++
               StartNode SyntaxKind.SOURCE_FILE :: es ++ [FinishNode] /\
    Balanced es (length (Lexer.tokens r)) ds /\
    diagnostics q = (lexer_diagnostic <$> Lexer.diagnostics r) ++ ds.
Proof.
  pose proof (run_parser_spec fuel source r) as H. rewrite Hrun in H.
  destruct H as (es & ds & HB & He & Hd & _). eauto.
Qed.
End ParseClaims.

(** ** The tree sink rebuilds a tree from its events *)

Section NodeInd.
Context (P : SyntaxNode -> Prop).

Definition holds_of (e : SyntaxElement) : Prop :=
  match e with ElementNode n => P n | ElementToken _ => True end.

Context (Hnode : forall k r cs, Forall holds_of cs -> P (SyntaxNode_new k r cs)).

Fixpoint SyntaxNode_forall_ind (n : SyntaxNode) : P n :=
  match n with
  | SyntaxNode_new k r cs =>
      Hnode k r cs
        ((fix go (cs : list SyntaxElement) : Forall holds_of cs :=
            match cs with
            | [] => List.Forall_nil _
            | ElementNode n :: cs => List.Forall_cons holds_of (ElementNode n) cs (SyntaxNode_forall_ind n) (go cs)
            | ElementToken t :: cs => List.Forall_cons holds_of (ElementToken t) cs I (go cs)
            end) cs)
  end.
End NodeInd.

(** An error event becomes an [ERROR] node without children. *)
Definition is_error_leaf (k : SyntaxKind) (cs : list SyntaxElement) : bool :=
  match cs with [] => SyntaxKind.eqb k SyntaxKind.ERROR | _ => false end.

Definition error_at (r : TextRange) : ParseDiagnostic :=
  ParseDiagnostic_new ParseDiagnosticId.UnexpectedToken "" r.

(** The events that describe a tree, in the order of a depth-first walk. *)
Fixpoint node_events (n : SyntaxNode) : list Event :=
  match n with
  | SyntaxNode_new k r cs =>
      if is_error_leaf k cs then [EventError (error_at r)]
      else StartNode k ::
           (fix go (cs : list SyntaxElement) : list Event :=
              match cs with
              | [] => []
              | ElementNode n :: cs => node_events n ++ go cs
              | ElementToken _ :: cs => AddToken :: go cs
              end) cs ++ [FinishNode]
  end.

Definition element_events (e : SyntaxElement) : list Event :=
  match e with ElementNode n => node_events n | ElementToken _ => [AddToken] end.

(** The tokens of a tree from left to right. *)
Fixpoint node_tokens (n : SyntaxNode) : list SyntaxToken :=
  match n with
  | SyntaxNode_new _ _ cs =>
      (fix go (cs : list SyntaxElement) : list SyntaxToken :=
         match cs with
         | [] => []
         | ElementNode n :: cs => node_tokens n ++ go cs
         | ElementToken t :: cs => t :: go cs
         end) cs
  end.

Definition element_tokens (e : SyntaxElement) : list SyntaxToken :=
  match e with ElementNode n => node_tokens n | ElementToken t => [t] end.

(** Every node but an error leaf has the range of its children. *)
Fixpoint ranges_of_children (n : SyntaxNode) : Prop :=
  match n with
  | SyntaxNode_new k r cs =>
      (is_error_leaf k cs = true \/ r = range_for_children cs) /\
      (fix go (cs : list SyntaxElement) : Prop :=
         match cs with
         | [] => True
         | ElementNode n :: cs => ranges_of_children n /\ go cs
         | ElementToken _ :: cs => go cs
         end) cs
  end.

Definition element_ranges (e : SyntaxElement) : Prop :=
  match e with ElementNode n => ranges_of_children n | ElementToken _ => True end.

Lemma node_events_children k r cs :
  is_error_leaf k cs = false ->
  node_events (SyntaxNode_new k r cs) = StartNode k :: concat (element_events <$> cs) ++ [FinishNode].
Proof.
  intros H. cbn [node_events]. rewrite H. f_equal. f_equal.
  clear H. induction cs as [|[n|t] cs IH]; cbn [fmap list_fmap concat element_events app]; congruence.
Qed.

Lemma node_tokens_children k r cs :
  node_tokens (SyntaxNode_new k r cs) = concat (element_tokens <$> cs).
Proof.
  cbn [node_tokens]. induction cs as [|[n|t] cs IH]; cbn [fmap list_fmap concat element_tokens app]; congruence.
Qed.

Lemma ranges_of_children_spec k r cs :
  ranges_of_children (SyntaxNode_new k r cs) <->
  (is_error_leaf k cs = true \/ r = range_for_children cs) /\ Forall element_ranges cs.
Proof.
  cbn [ranges_of_children]. apply and_iff_compat_l.
  induction cs as [|[n|t] cs IH].
  - split; [constructor | done].
  - rewrite List.Forall_cons_iff. cbn [element_ranges]. by rewrite IH.
  - rewrite List.Forall_cons_iff. cbn [element_ranges]. rewrite IH. tauto.
Qed.

Section Rebuild.
Context (source : bytes) (ts : list Token).

Definition token_leaf (t : Token) : SyntaxToken :=
  mkSyntaxToken (SyntaxKind.from_token_kind (token_kind t)) (sink_text source t) (token_range t)
    (token_line t).

(** Inside an open node the events [es] append the child [e]. *)
Definition rebuilds (es : list Event) (e : SyntaxElement) : Prop :=
  forall cur fk fc stack root rest,
    token_leaf <$> drop cur ts = element_tokens e ++ rest ->
    fold_left (sink_event source) es (mkTreeSink ts cur (mkNodeFrame fk fc :: stack) root) =
    mkTreeSink ts (cur + length (element_tokens e)) (mkNodeFrame fk (fc ++ [e]) :: stack) root.

Lemma rebuilds_token t : rebuilds [AddToken] (ElementToken t).
Proof.
  intros cur fk fc stack root rest Hts. cbn [element_tokens app] in Hts.
  destruct (drop cur ts) as [|t' l] eqn:Hd; [done|]. injection Hts as Ht _.
  cbn [fold_left sink_event]. unfold next_token. cbn [sink_tokens sink_cursor].
  assert (ts !! cur = Some t') as Hl by (by rewrite <- (Nat.add_0_r cur), <- lookup_drop, Hd).
  rewrite Hl, <- Ht. reflexivity.
Qed.

Lemma fmap_drop_plus cur n l1 rest :
  token_leaf <$> drop cur ts = l1 ++ rest -> n = length l1 -> token_leaf <$> drop (cur + n) ts = rest.
Proof.
  intros H ->. rewrite <- drop_drop, fmap_drop, H. by rewrite drop_app_length.
Qed.

Lemma rebuilds_children cs :
  Forall (fun e => rebuilds (element_events e) e) cs ->
  forall cur fk fc stack root rest,
    token_leaf <$> drop cur ts = concat (element_tokens <$> cs) ++ rest ->
    fold_left (sink_event source) (concat (element_events <$> cs))
      (mkTreeSink ts cur (mkNodeFrame fk fc :: stack) root) =
    mkTreeSink ts (cur + length (concat (element_tokens <$> cs))) (mkNodeFrame fk (fc ++ cs) :: stack) root.
Proof.
  induction 1 as [|e cs He _ IH]; intros cur fk fc stack root rest Hts; cbn [fmap list_fmap concat] in *.
  - cbn. by rewrite app_nil_r, Nat.add_0_r.
  - rewrite <- app_assoc in Hts. rewrite fold_left_app, (He _ _ _ _ _ _ Hts).
    rewrite (IH _ _ _ _ _ rest) by (by eapply fmap_drop_plus).
    by rewrite length_app, Nat.add_assoc, <- app_assoc.
Qed.

Lemma rebuilds_node n : ranges_of_children n -> rebuilds (node_events n) (ElementNode n).
Proof.
  induction n as [k r cs IH] using SyntaxNode_forall_ind. rewrite ranges_of_children_spec.
  intros [Hr Hcs] cur fk fc stack root rest Hts. cbn [element_tokens] in *.
  destruct (is_error_leaf k cs) eqn:Hleaf.
  - cbn [node_events]. rewrite Hleaf. destruct cs; [|done]. cbn. apply SyntaxKind.syntax_kind_eqb_eq in Hleaf as ->.
    by rewrite Nat.add_0_r.
  - destruct Hr as [?| ->]; [done|]. rewrite node_events_children by done.
    rewrite node_tokens_children in *. cbn [fold_left sink_event]. rewrite fold_left_app.
    cbn [sink_tokens sink_cursor sink_stack sink_root].
    rewrite (rebuilds_children cs) with (rest := rest); [done| |done].
    rewrite Forall_forall in IH, Hcs |- *. intros [n|t] Hin; [|apply rebuilds_token].
    apply (IH _ Hin), (Hcs _ Hin).
Qed.
End Rebuild.

(** The tree sink inverts the walk over a tree: from the events of a tree
    whose nodes have the ranges of their children, and from its tokens, it
    builds that tree again, node by node. *)
Theorem sink_rebuilds_tree source ts root
    (Hranges : ranges_of_children root)
    (Htokens : node_tokens root = token_leaf source <$> ts) :
  sink_finish source ts (node_events root) = root.
Proof.
  destruct root as [k r cs]. apply ranges_of_children_spec in Hranges as [Hr Hcs].
  unfold sink_finish, TreeSink_new. destruct (is_error_leaf k cs) eqn:Hleaf.
  - cbn [node_events]. rewrite Hleaf. destruct cs; [|done]. cbn. by apply SyntaxKind.syntax_kind_eqb_eq in Hleaf as ->.
  - destruct Hr as [?| ->]; [done|]. rewrite node_events_children by done.
    cbn [fold_left sink_event]. rewrite fold_left_app. cbn [sink_tokens sink_cursor sink_stack sink_root].
    rewrite (rebuilds_children source ts cs) with (rest := []); [done| |].
    + rewrite Forall_forall in Hcs |- *. intros [n|t] Hin; [|apply rebuilds_token].
      apply rebuilds_node, (Hcs _ Hin).
    + by rewrite drop_0, app_nil_r, <- Htokens, node_tokens_children.
Qed.

(** ** Concrete parses *)

Definition small_source : bytes := lit "<?php f(1, $x); ?>".

Definition small_lexed : LexResult :=
  match lex_all (mc := memchr_naive) BScalar small_source parser_config with
  | Ret r => r
  | _ => mkLexResult [] []
  end.

Definition small_parser : Parser :=
  match run_parser 40 small_source small_lexed with
  | Ret q => q
  | _ => Parser_new (TokenSource.new small_source [])
  end.

Definition small_parse : Parse :=
  match parse_source_file (mc := memchr_naive) BScalar 40 small_source with
  | Ret p => p
  | _ => mkParse (SyntaxNode_new SyntaxKind.ERROR (TextRange_empty 0) []) [] []
  end.

(** The text rebuilt from the tree, and the nodes of the call. *)
Example small_parse_text : parse_reconstructed_text small_parse = small_source.
Proof. vm_compute. reflexivity. Qed.

Lemma parse_lossless_witness :
  parse_source_file (mc := memchr_naive) BScalar 40 small_source = Ret small_parse /\
  node_kind (parse_root small_parse) = SyntaxKind.SOURCE_FILE /\
  parse_reconstructed_text small_parse = drop (skipped_bom small_source parser_config) small_source.
Proof.
  split; [vm_compute; reflexivity|].
  apply (parse_lossless (laws := memchr_naive_laws) BScalar small_source 40);
    vm_compute; reflexivity.
Defined.

Lemma parse_spans_witness :
  node_within (length small_source) (parse_root small_parse) = true /\
  forallb (fun d => range_within (length small_source) (pd_span d)) (parse_diagnostics small_parse) = true.
Proof.
  apply (parse_spans (laws := memchr_naive_laws) BScalar small_source 40); vm_compute; reflexivity.
Defined.

Lemma parse_never_panics_witness :
  parse_source_file (mc := memchr_naive) BScalar 40 small_source <> Panic.
Proof. apply (parse_never_panics (laws := memchr_naive_laws)). vm_compute. reflexivity. Defined.

Lemma parser_events_balanced_witness :
  run_parser 40 small_source small_lexed = Ret small_parser /\
  exists es ds,
    events small_parser = (EventError ∘ lexer_diagnostic <$> Lexer.diagnostics small_lexed) ++
               StartNode SyntaxKind.SOURCE_FILE :: es ++ [FinishNode] /\
    Balanced es (length (Lexer.tokens small_lexed)) ds /\
    diagnostics small_parser = (lexer_diagnostic <$> Lexer.diagnostics small_lexed) ++ ds.
Proof.
  split; [vm_compute; reflexivity|].
  apply (parser_events_balanced small_source 40). vm_compute. reflexivity.
Defined.

Lemma sink_rebuilds_tree_witness :
  sink_finish small_source (Lexer.tokens small_lexed) (node_events (parse_root small_parse)) =
  parse_root small_parse.
Proof.
  apply sink_rebuilds_tree; [|vm_compute; reflexivity].
  vm_compute. repeat split; solve [left; reflexivity | right; reflexivity].
Defined.
