(* ===== verification/RecoveryLoops.v ===== *)
(** * RecoveryLoops: progress of the recovery and of the list loops

    [recover_until] reads up to its boundary and returns.  The recovery stops at
    a close tag, but three list loops of the grammar ([parse_call_tail],
    [parse_member_list] and [parse_property_hook_list]) do not leave there:
    they report an error and start over at the same token, for ever.  The file
    [docs/parser/error-recovery.md] asks of every recovery loop that it consumes
    a token or returns. *)

From Stdlib Require Import Strings.String Strings.Byte.
From stdpp Require Import base list option numbers.
From S2P Require Import Prelude RustStd Simd ByteKernel Source Token LexStrings Lexer.
From S2P Require Import SyntaxTree Parser ParserLogic GrammarBase GrammarCode Grammar GrammarProofs.

(** ** Recovery *)

(** [p] after [n] calls of [bump] that each took a token. *)
Definition stepped (p : Parser) (n : nat) : Parser :=
  mkParser (advanced (token_source p) n) (events p ++ replicate n AddToken) (diagnostics p).

Lemma stepped_0 p : stepped p 0 = p.
Proof. unfold stepped. cbn [replicate]. rewrite advanced_0, app_nil_r. by destruct p. Qed.

Lemma stepped_stepped p n m : stepped (stepped p n) m = stepped p (n + m).
Proof.
  unfold stepped. cbn [token_source events diagnostics].
  by rewrite advanced_advanced, <- app_assoc, replicate_add.
Qed.

Lemma position_stepped p n : position (stepped p n) = position p + n.
Proof. done. Qed.

Lemma bump_stepped p : is_eof p = false -> bump p = Ret (tt, stepped p 1).
Proof.
  unfold bump, is_eof, TokenSource.is_eof, TokenSource.bump. intros H. rewrite H. cbn [negb].
  apply Nat.leb_gt in H. by rewrite (proj2 (Nat.ltb_lt _ _)).
Qed.

Lemma recover_until_spec fuel boundary p :
  length (ts_tokens (token_source p)) - ts_cursor (token_source p) < fuel ->
  exists n, recover_until fuel boundary p = Ret (tt, stepped p n) /\
    (boundary (stepped p n) || is_eof (stepped p n) = true) /\
    forall i, i < n -> boundary (stepped p i) || is_eof (stepped p i) = false.
Proof.
  revert p. induction fuel as [|fuel IH]; intros p Hf; [lia|]. unfold recover_until in *. cbn [loop].
  unfold ite at 1, bind at 1 2, gets at 1, cond_not. cbn [obind].
  destruct (boundary p) eqn:Hb; cbn [negb].
  { exists 0. rewrite stepped_0, Hb. split; [done|]. split; [done | lia]. }
  destruct (is_eof p) eqn:He.
  - exists 0. rewrite stepped_0, Hb, He. split; [|split; [done | lia]].
    unfold bind, gets, ite, bump, cond_or. cbn [obind]. rewrite He. cbn [negb obind].
    unfold bind, gets. cbn [obind]. rewrite He. cbn [orb]. by rewrite Nat.eqb_refl.
  - assert (Hlt : ts_cursor (token_source p) < length (ts_tokens (token_source p)))
      by (by apply Nat.leb_gt in He).
    destruct (IH (stepped p 1)) as (n & Hrun & Hstop & Hbefore).
    { cbn [stepped token_source advanced ts_tokens ts_cursor]. lia. }
    exists (1 + n). rewrite stepped_stepped in Hrun, Hstop. split; [|split; [done|]].
    + rewrite <- Hrun. unfold bind at 1, gets. cbn [obind]. unfold bind at 1. rewrite bump_stepped by done.
      cbn [obind]. unfold ite, bind, gets, cond_or. cbn [obind].
      assert (position p <? position (stepped p 1) = true) as -> by (apply Nat.ltb_lt; rewrite position_stepped; lia).
      rewrite orb_true_r. unfold bind, gets. cbn [obind].
      assert (position (stepped p 1) =? position p = false) as -> by (apply Nat.eqb_neq; rewrite position_stepped; lia). done.
    + intros [|i] Hi; [by rewrite stepped_0, Hb|]. specialize (Hbefore i ltac:(lia)).
      by rewrite stepped_stepped in Hbefore.
Qed.

(** Error recovery terminates and skips exactly what it must: with fuel for
    the tokens that are left, [recover_until] returns, it has taken the tokens
    up to the first one at which its boundary holds, or all of them, it pushes
    one token event for each and no diagnostic, and the assertion that it made
    progress never fails. *)
Theorem recovery_stops_at_boundary fuel boundary p
    (Hfuel : length (ts_tokens (token_source p)) - ts_cursor (token_source p) < fuel) :
  exists n, recover_until fuel boundary p = Ret (tt, stepped p n) /\
    (boundary (stepped p n) || is_eof (stepped p n) = true) /\
    forall i, i < n -> boundary (stepped p i) || is_eof (stepped p i) = false.
Proof. by apply recover_until_spec. Qed.

(** ** Computations that stay at a token *)

(** From a state whose current token has the kind [k], [m] returns a value of
    [Q] with the cursor where it was, if it returns. *)
Definition stays {A} (k : SyntaxKind) (m : PM A) (Q : A -> Prop) : Prop :=
  forall p, current p = k ->
    match m p with Ret (a, p') => Q a /\ token_source p' = token_source p | _ => True end.

(** A condition has the value [b] at every token of kind [k]. *)
Definition decides (k : SyntaxKind) (c : Parser -> bool) (b : bool) : Prop :=
  forall p, current p = k -> c p = b.

Lemma stays_bind {A B} k (m : PM A) (f : A -> PM B) P Q :
  stays k m P -> (forall a, P a -> stays k (f a) Q) -> stays k (bind m f) Q.
Proof.
  intros Hm Hf p Hp. specialize (Hm p Hp). unfold bind. destruct (m p) as [[a p']| |]; [|done..].
  destruct Hm as [Ha Ht]. assert (current p' = k) as Hp' by (unfold current in *; by rewrite Ht).
  cbn [obind]. specialize (Hf a Ha p' Hp'). destruct (f a p') as [[b p'']| |]; [|done..].
  by rewrite <- Ht.
Qed.

Lemma stays_mono {A} k (m : PM A) (P Q : A -> Prop) : (forall a, P a -> Q a) -> stays k m P -> stays k m Q.
Proof.
  intros H Hm p Hp. specialize (Hm p Hp). destruct (m p) as [[a p']| |]; [|done..]. naive_solver.
Qed.

Lemma stays_ret {A} k (a : A) (Q : A -> Prop) : Q a -> stays k (ret a) Q.
Proof. by intros H p Hp. Qed.

Lemma stays_gets {A} k (f : Parser -> A) : stays k (gets f) (fun _ => True).
Proof. by intros p Hp. Qed.

Lemma stays_start k : stays k start (fun _ => True).
Proof. by intros p Hp. Qed.

Lemma stays_complete k m kind : stays k (complete m kind) (fun _ => True).
Proof.
  intros p Hp. unfold complete, complete_marker, bind. by destruct (_ <? _).
Qed.

Lemma stays_error_expected k message expected : stays k (error_expected message expected) (fun _ => True).
Proof. by intros p Hp. Qed.

Lemma stays_timeout {A} k (Q : A -> Prop) : stays k (fun _ => Timeout) Q.
Proof. by intros p Hp. Qed.

Lemma stays_ite {A} k c b (m1 m2 : PM A) Q :
  decides k c b -> stays k (if b then m1 else m2) Q -> stays k (ite c m1 m2) Q.
Proof.
  intros Hc Hm p Hp. unfold ite, bind, gets. cbn [obind]. rewrite (Hc p Hp). specialize (Hm p Hp).
  by destruct b.
Qed.

Lemma stays_while k fuel c body : decides k c false -> stays k (while fuel c body) (fun _ => True).
Proof.
  intros Hc. unfold while. destruct fuel as [|fuel]; [by intros p Hp|]. intros p Hp.
  cbn [loop]. unfold ite, bind, gets. cbn [obind]. by rewrite (Hc p Hp).
Qed.

Lemma stays_loop {A R} k fuel (body : A -> PM (A + R)) a Q :
  stays k (body a) (fun r => match r with inl _ => False | inr v => Q v end) ->
  stays k (loop fuel body a) Q.
Proof.
  intros Hb. destruct fuel as [|fuel]; [by intros p Hp|]. cbn [loop].
  eapply stays_bind; [exact Hb|]. intros [?|v]; [done|]. intros Hv. by apply stays_ret.
Qed.

(** A loop whose body stays where it is and asks for another round uses up any
    fuel. *)
Lemma loop_stuck {A R} k (body : A -> PM (A + R)) fuel a p :
  (forall a, Bal (body a)) ->
  (forall a, stays k (body a) (fun r => match r with inl _ => True | inr _ => False end)) ->
  current p = k -> loop fuel body a p = Timeout.
Proof.
  intros HB Hb. revert a p. induction fuel as [|fuel IH]; intros a p Hp; [done|].
  cbn [loop]. unfold bind. pose proof (Bal_pwp _ p (HB a)) as Hn. unfold pwp in Hn.
  specialize (Hb a p Hp). destruct (body a p) as [[[a'|v] p']| |]; [|by destruct Hb|done|done].
  destruct Hb as [_ Ht]. cbn [obind]. apply IH. unfold current in *. by rewrite Ht.
Qed.

Lemma while_stuck k c body fuel p :
  Bal body -> decides k c true -> stays k body (fun _ => True) -> current p = k ->
  while fuel c body p = Timeout.
Proof.
  intros HB Hc Hb Hp. unfold while. apply (loop_stuck k); [|clear p Hp; intros _|done].
  - intros _. apply BalO_ite; [|apply BalO_ret]. apply BalO_bind; [done|]. intros _. apply BalO_ret.
  - eapply stays_ite; [exact Hc|]. eapply stays_bind; [exact Hb|]. intros a _. by apply stays_ret.
Qed.

(** ** Conditions at a close tag *)

Abbreviation CLOSE_TAG := (named TokenName.CloseTag).

Lemma decides_at k k' : decides k (at_ k') (SyntaxKind.eqb k k').
Proof. intros p Hp. unfold at_, TokenSource.at_. change (TokenSource.current (token_source p)) with (current p). by rewrite Hp. Qed.

Lemma decides_or k c1 c2 b1 b2 : decides k c1 b1 -> decides k c2 b2 -> decides k (c1 ||| c2) (b1 || b2).
Proof. intros H1 H2 p Hp. unfold cond_or. by rewrite H1, H2. Qed.

Lemma decides_and k c1 c2 b1 b2 : decides k c1 b1 -> decides k c2 b2 -> decides k (c1 &&& c2) (b1 && b2).
Proof. intros H1 H2 p Hp. unfold cond_and. by rewrite H1, H2. Qed.

(** The first condition settles a conjunction. *)
Lemma decides_and_l k c1 c2 : decides k c1 false -> decides k (c1 &&& c2) false.
Proof. intros H1 p Hp. unfold cond_and. by rewrite H1. Qed.

Lemma decides_not k c b : decides k c b -> decides k (not_ c) (negb b).
Proof. intros H p Hp. unfold cond_not. by rewrite H. Qed.

Lemma decides_trivia k : decides k at_trivia (SyntaxKind.is_trivia k).
Proof. intros p Hp. unfold at_trivia. by rewrite Hp. Qed.

Lemma decides_eof k : k <> SyntaxKind.from_token_kind TokenKind.Eof -> decides k is_eof false.
Proof.
  intros Hk p <-. unfold current, TokenSource.current, TokenSource.nth in Hk.
  unfold is_eof, TokenSource.is_eof. apply Nat.leb_gt. rewrite Nat.add_0_r in Hk.
  destruct (ts_tokens _ !! _) eqn:E; [by apply lookup_lt_Some in E | done].
Qed.

Lemma decides_eof_close_tag : decides CLOSE_TAG is_eof false.
Proof. by apply decides_eof. Qed.

(** A close tag is no name. *)
Lemma decides_keyword_context : decides CLOSE_TAG at_keyword_context false.
Proof.
  intros p Hp. unfold at_keyword_context, current_keyword_context.
  unfold current, TokenSource.current, TokenSource.nth in Hp. rewrite Nat.add_0_r in Hp.
  destruct (ts_tokens _ !! _) as [t|]; [|done]. destruct (token_kind t) as [n|s|]; [|done..].
  destruct (token_text t _); [|done]. destruct n; done || by destruct (is_contextual_name_text _).
Qed.

Ltac decide_kind :=
  lazymatch goal with
  | |- decides _ (at_ _) _ => apply decides_at
  | |- decides _ (_ ||| _) _ => apply decides_or; decide_kind
  | |- decides _ (at_keyword_context &&& _) _ => apply decides_and_l, decides_keyword_context
  | |- decides _ (_ &&& _) _ => apply decides_and; decide_kind
  | |- decides _ (not_ _) _ => apply decides_not; decide_kind
  | |- decides _ at_trivia _ => apply decides_trivia
  | |- decides _ is_eof _ => apply decides_eof_close_tag
  | |- decides _ at_keyword_context _ => apply decides_keyword_context
  | |- decides _ ?c _ => let h := head_of c in unfold h; decide_kind
  end.

(** The same with the value given. *)
Ltac decide_value :=
  lazymatch goal with |- decides ?k ?c ?v =>
    let H := fresh in
    assert (exists b, decides k c b /\ b = v) as (? & H & ->); [|exact H];
    eexists; split; [decide_kind | vm_compute; reflexivity] end.

(** Walks along the syntax of a grammar function, evaluating each condition at
    the kind of the current token; a function without a lemma is unfolded. *)
Ltac stay :=
  lazymatch goal with
  | |- forall _, _ => let H := fresh in intros ? H; cbv beta in H; subst; stay
  | |- stays _ (bind _ _) _ => eapply stays_bind; [stay | stay]
  | |- stays _ (ret ?a) ?Q =>
      first [is_evar Q; exact (stays_ret _ a (fun x => x = a) eq_refl) | apply stays_ret; done]
  | |- stays _ start _ => apply stays_start
  | |- stays _ (complete _ _) _ => apply stays_complete
  | |- stays _ (gets _) _ => apply stays_gets
  | |- stays _ (error_expected _ _) _ => apply stays_error_expected
  | |- stays _ (ite _ _ _) _ =>
      eapply stays_ite;
        [decide_kind
        | lazymatch goal with |- stays _ (if ?b then _ else _) _ =>
            let v := eval vm_compute in b in change b with v; cbv iota; stay end]
  | |- stays _ (while _ _ _) _ =>
      apply stays_while; decide_value
  | |- stays _ (loop _ _ _) ?Q => first [is_evar Q; unify Q (fun _ : unit => True) | idtac]; apply stays_loop; stay
  | |- stays _ (if ?b then _ else _) _ => first [is_var b; destruct b | cbn [negb]; cbv iota]; stay
  | |- stays _ (unless_error _ _ _) _ => unfold unless_error; stay
  | |- stays _ ?m _ => first [eassumption | let h := head_of m in unfold h; stay]
  end.

Section CloseTag.
Context (loops depth : nat).
#[local] Hint Extern 0 Grammar => exact (grammar loops depth) : typeclass_instances.

(** There is no expression at a close tag. *)
Lemma stays_expression : stays CLOSE_TAG parse_expression (fun ok => ok = false).
Proof.
  unfold parse_expression. destruct depth as [|d]; [apply stays_timeout|].
  cbn [grammar g_expression_bp]. unfold Expressions.parse_expression_bp.
  eapply stays_ite; [decide_kind|]. by apply stays_ret.
Qed.

Lemma stays_argument : stays CLOSE_TAG Calls.parse_argument (fun _ => True).
Proof. pose proof stays_expression as He. stay. Qed.

Lemma stays_call_tail_step b :
  stays CLOSE_TAG (Calls.call_tail_step b) (fun r => match r with inl _ => True | inr _ => False end).
Proof. pose proof stays_argument as Ha. stay. Qed.

Lemma stays_member : stays CLOSE_TAG Classes.parse_member (fun _ => True).
Proof. stay. Qed.

Lemma stays_property_hook : stays CLOSE_TAG Classes.property_hook_step (fun _ => True).
Proof. stay. Qed.

Lemma bump_to k p : nth p 1 = k -> k <> SyntaxKind.from_token_kind TokenKind.Eof ->
  exists p', bump p = Ret (tt, p') /\ current p' = k.
Proof.
  intros Hn Hk. unfold nth, TokenSource.nth in Hn. unfold bump, is_eof, TokenSource.is_eof.
  destruct (ts_tokens (token_source p) !! _) as [t|] eqn:Ht; [|by subst k].
  pose proof (lookup_lt_Some _ _ _ Ht) as Hlt. rewrite (proj2 (Nat.leb_gt _ _)) by lia. cbn [negb].
  eexists. split; [reflexivity|]. unfold current, TokenSource.current, TokenSource.nth, TokenSource.bump.
  cbn [token_source]. rewrite (proj2 (Nat.ltb_lt _ _)) by lia. cbn [ts_tokens ts_cursor].
  by rewrite Nat.add_0_r, Ht.
Qed.

Lemma call_tail_stuck p (Hnext : nth p 1 = CLOSE_TAG) : Calls.parse_call_tail p = Timeout.
Proof.
  unfold Calls.parse_call_tail. unfold bind at 1, start. cbn [obind].
  match goal with |- bind _ _ ?p1 = _ =>
    destruct (bump_to CLOSE_TAG p1) as (p2 & Hb & Hp2); [exact Hnext | done|] end.
  unfold bind at 1. rewrite Hb. cbn [obind]. unfold bind at 1.
  rewrite (loop_stuck CLOSE_TAG); [done | intros b; apply Bal_call_tail_step | intros b; apply stays_call_tail_step | done].
Qed.

Lemma member_list_stuck p : nth p 1 = CLOSE_TAG -> Classes.parse_member_list p = Timeout.
Proof.
  intros Hnext. unfold Classes.parse_member_list. unfold bind at 1, start. cbn [obind].
  match goal with |- bind _ _ ?p1 = _ =>
    destruct (bump_to CLOSE_TAG p1) as (p2 & Hb & Hp2); [exact Hnext | done|] end.
  unfold bind at 1. rewrite Hb. cbn [obind]. unfold bind at 1.
  rewrite (while_stuck CLOSE_TAG); [done | apply Bal_member_list_step | decide_value | | done].
  eapply stays_ite; [decide_kind|]. apply stays_member.
Qed.

Lemma property_hook_list_stuck p : nth p 1 = CLOSE_TAG -> Classes.parse_property_hook_list p = Timeout.
Proof.
  intros Hnext. unfold Classes.parse_property_hook_list.
  destruct (bump_to CLOSE_TAG p) as (p2 & Hb & Hp2); [exact Hnext | done|].
  unfold bind at 1. rewrite Hb. cbn [obind]. unfold bind at 1.
  rewrite (while_stuck CLOSE_TAG); [done | apply Bal_property_hook_step | decide_value | | done].
  apply stays_property_hook.
Qed.

(** C15: A call whose opening parenthesis is followed by a close tag hangs the
    parser: [parse_call_tail] leaves its loop only at a closing parenthesis or
    at the end of the input, while the argument parser and its recovery stop at
    the close tag, so every round ends where it began.  With no fuel, however
    large, does the call return.  A class body and a list of property hooks that
    a close tag interrupts hang in the same way. *)
Theorem parser_hangs p (Hnext : nth p 1 = CLOSE_TAG) :
  Calls.parse_call_tail p = Timeout /\
  Classes.parse_member_list p = Timeout /\ Classes.parse_property_hook_list p = Timeout.
Proof.
  split_and!; [by apply call_tail_stuck | by apply member_list_stuck | by apply property_hook_list_stuck].
Qed.
End CloseTag.

(** The lexer gives the source [f(?>] the tokens of a call at whose opening
    parenthesis the parser stands after two of them. *)
Definition parser_at (source : bytes) (cursor : nat) : Parser :=
  match lex_all (mc := memchr_naive) BScalar source parser_config with
  | Ret r => Parser_new (mkTokenSource source (Lexer.tokens r) cursor)
  | _ => Parser_new (TokenSource.new source [])
  end.

Lemma recovery_stops_at_boundary_witness :
  exists n, Recovery.recover_to_statement_boundary 20 (parser_at (lit "<?php ) $a; b") 1) =
              Ret (tt, stepped (parser_at (lit "<?php ) $a; b") 1) n) /\
    at_statement_recovery_token (stepped (parser_at (lit "<?php ) $a; b") 1) n)
      || is_eof (stepped (parser_at (lit "<?php ) $a; b") 1) n) = true /\
    forall i, i < n -> at_statement_recovery_token (stepped (parser_at (lit "<?php ) $a; b") 1) i)
      || is_eof (stepped (parser_at (lit "<?php ) $a; b") 1) i) = false.
Proof. apply recovery_stops_at_boundary. vm_compute. lia. Defined.

Lemma parser_hangs_witness :
  (nth (parser_at (lit "<?php f(?>") 2) 1 = CLOSE_TAG /\
   at_ (symbol "(") (parser_at (lit "<?php f(?>") 2) = true /\
   Calls.parse_call_tail (G := grammar 100 100) (parser_at (lit "<?php f(?>") 2) = Timeout) /\
  (nth (parser_at (lit "<?php class A {?>") 5) 1 = CLOSE_TAG /\
   at_ (symbol "{") (parser_at (lit "<?php class A {?>") 5) = true /\
   Classes.parse_member_list (G := grammar 100 100) (parser_at (lit "<?php class A {?>") 5) = Timeout /\
   Classes.parse_property_hook_list (G := grammar 100 100) (parser_at (lit "<?php class A {?>") 5) = Timeout).
Proof.
  split; (split; [vm_compute; reflexivity|]); (split; [vm_compute; reflexivity|]).
  - refine (proj1 (parser_hangs 100 100 (parser_at (lit "<?php f(?>") 2) _)). vm_compute. reflexivity.
  - refine (proj2 (parser_hangs 100 100 (parser_at (lit "<?php class A {?>") 5) _)). vm_compute. reflexivity.
Defined.

(** Whole sources of a few bytes on which the parser does not return. *)
Example call_at_close_tag_hangs :
  parse_source_file (mc := memchr_naive) BScalar 60 (lit "<?php f( ?>") = Timeout.
Proof. vm_compute. reflexivity. Qed.

Example class_at_close_tag_hangs :
  parse_source_file (mc := memchr_naive) BScalar 60 (lit "<?php class A { ?>") = Timeout.
Proof. vm_compute. reflexivity. Qed.
