(* ===== verification/RustNum.v ===== *)
(** * RustNum: the numeric types the runtime uses

    [i64] as [Z] with its range, decimal text to and from integers
    ([str::parse::<i64>], [Display]), and [f64] as the binary64 values of the
    Standard Library's [SpecFloat]: [str::parse::<f64>] rounds the decimal value
    to the nearest double, ties to even. *)

From Stdlib Require Import Strings.String Strings.Byte ZArith Floats.SpecFloat.
From stdpp Require Import base list option numbers.
From S2P Require Import Prelude RustStd.

#[local] Open Scope Z_scope.

(** ** [i64] *)

Definition I64_MIN : Z := - 2 ^ 63.
Definition I64_MAX : Z := 2 ^ 63 - 1.
Definition in_i64 (z : Z) : bool := (I64_MIN <=? z) && (z <=? I64_MAX).

Definition checked_i64 (z : Z) : option Z := if in_i64 z then Some z else None.
Definition saturate_i64 (z : Z) : Z := Z.max I64_MIN (Z.min I64_MAX z).

(** ** Decimal digits *)

Definition digit_val (x : byte) : Z := Z.of_N (u8 x) - 48.
Definition digits_val (l : bytes) : Z := fold_left (fun v x => 10 * v + digit_val x) l 0.

Definition digit_byte (d : Z) : byte := byte_of_N (Z.to_N (48 + d)).

(** The digits of a number, most significant first, put before [acc]. *)
Fixpoint dec_digits (fuel : nat) (n : Z) (acc : bytes) : bytes :=
  match fuel with
  | O => acc
  | S fuel =>
      let acc := digit_byte (n mod 10) :: acc in
      if n <? 10 then acc else dec_digits fuel (n / 10) acc
  end.

(** [n.to_string()]: 20 digits are more than an [i64] has. *)
Definition print_i64 (n : Z) : bytes :=
  if n <? 0 then "-"%byte :: dec_digits 20 (- n) [] else dec_digits 20 n [].

(** An optional sign at the front. *)
Definition strip_sign (l : bytes) : bool * bytes :=
  match l with
  | "-"%byte :: rest => (true, rest)
  | "+"%byte :: rest => (false, rest)
  | _ => (false, l)
  end.

(** [text.parse::<i64>()] *)
Definition parse_i64 (l : bytes) : option Z :=
  let '(negative, digits) := strip_sign l in
  match digits with
  | [] => None
  | _ => if forallb is_ascii_digit digits
         then checked_i64 (if negative then - digits_val digits else digits_val digits)
         else None
  end.

(** ** [f64] *)

Abbreviation f64 := spec_float.

(** [m * 10^e] rounded to a double; [m] is not negative. *)
Definition round_decimal (negative : bool) (m e : Z) : f64 :=
  if m =? 0 then S754_zero negative
  else
    let '(q, e', l) :=
      if 0 <=? e then SFdiv_core_binary 53 1024 (m * 10 ^ e) 0 1 0
      else SFdiv_core_binary 53 1024 m 0 (10 ^ (- e)) 0 in
    binary_round_aux 53 1024 negative q e' l.

(** [text.parse::<f64>()], by the grammar of its documentation. *)
Definition parse_f64 (l : bytes) : option f64 :=
  let '(negative, rest) := strip_sign l in
  if eq_ignore_ascii_case rest (lit "inf") || eq_ignore_ascii_case rest (lit "infinity")
  then Some (S754_infinity negative)
  else if eq_ignore_ascii_case rest (lit "nan") then Some S754_nan
  else
    let n := run_len is_ascii_digit rest in
    let int := take n rest in
    let '(frac, rest) :=
      match drop n rest with
      | "."%byte :: rest => let k := run_len is_ascii_digit rest in (take k rest, drop k rest)
      | rest => ([], rest)
      end in
    if (length int + length frac =? 0)%nat then None
    else
      let value e := Some (round_decimal negative (digits_val (int ++ frac)) (e - Z.of_nat (length frac))) in
      match rest with
      | [] => value 0
      | x :: rest =>
          if (x =b "e"%byte) || (x =b "E"%byte) then
            let '(eneg, digits) := strip_sign rest in
            match digits with
            | [] => None
            | _ => if forallb is_ascii_digit digits
                   then value (if eneg then - digits_val digits else digits_val digits)
                   else None
            end
          else None
      end.

Definition f64_is_finite (x : f64) : bool :=
  match x with S754_zero _ | S754_finite _ _ _ => true | _ => false end.

(** [n as f64] and the saturating [x as i64]. *)
Definition i64_as_f64 (n : Z) : f64 := binary_normalize 53 1024 n 0 false.
Definition f64_as_i64 (x : f64) : Z :=
  match x with
  | S754_zero _ | S754_nan => 0
  | S754_infinity s => if s then I64_MIN else I64_MAX
  | S754_finite s m e =>
      let v := if 0 <=? e then Z.shiftl (Zpos m) e else Z.shiftr (Zpos m) (- e) in
      saturate_i64 (if s then - v else v)
  end.

(** Values checked against Rust. *)
Example parse_tenth : parse_f64 (lit "0.1") = Some (S754_finite false 7205759403792794 (-56)).
Proof. vm_compute. reflexivity. Qed.
Example parse_smallest : parse_f64 (lit "-4.9e-324") = Some (S754_finite true 1 (-1074)).
Proof. vm_compute. reflexivity. Qed.
Example parse_overflow : parse_f64 (lit "1e309") = Some (S754_infinity false).
Proof. vm_compute. reflexivity. Qed.
Example parse_dot : parse_f64 (lit "5.") = Some (i64_as_f64 5) /\ parse_f64 (lit ".5e1") = Some (i64_as_f64 5).
Proof. vm_compute. done. Qed.

(** ** Printing and parsing *)

Lemma digit_val_range x : is_ascii_digit x = true -> 0 <= digit_val x <= 9.
Proof.
  unfold is_ascii_digit, in_range, digit_val. rewrite andb_true_iff, !N.leb_le. lia.
Qed.

Lemma digit_byte_val d : 0 <= d <= 9 -> digit_val (digit_byte d) = d /\ is_ascii_digit (digit_byte d) = true.
Proof.
  intros H. assert (d = 0 \/ d = 1 \/ d = 2 \/ d = 3 \/ d = 4 \/ d = 5 \/ d = 6 \/ d = 7 \/ d = 8 \/ d = 9)
    as D by lia.
  repeat destruct D as [->|D]; try (by vm_compute). by subst d.
Qed.

Lemma digit_val_byte x : is_ascii_digit x = true -> digit_byte (digit_val x) = x.
Proof.
  intros H. enough (implb (is_ascii_digit x) (digit_byte (digit_val x) =b x) = true) as E.
  { rewrite H in E. by apply beq_eq. }
  clear H. byte_cases x.
Qed.

Lemma fold_digits_app l v :
  fold_left (fun v x => 10 * v + digit_val x) l v = v * 10 ^ Z.of_nat (length l) + digits_val l.
Proof.
  unfold digits_val. revert v. induction l as [|x l IH]; intros v; cbn [fold_left length]; [lia|].
  rewrite (IH (10 * v + digit_val x)), (IH (10 * 0 + digit_val x)).
  rewrite Nat2Z.inj_succ, Z.pow_succ_r by lia. lia.
Qed.

Lemma digits_val_snoc l x : digits_val (l ++ [x]) = 10 * digits_val l + digit_val x.
Proof. unfold digits_val. by rewrite fold_left_app. Qed.

Lemma digits_val_bound l : forallb is_ascii_digit l = true -> 0 <= digits_val l < 10 ^ Z.of_nat (length l).
Proof.
  induction l as [|x l IH] using rev_ind; [cbn; lia|].
  rewrite forallb_app. cbn [forallb]. rewrite !andb_true_iff. intros (H & Hx & _).
  rewrite digits_val_snoc, length_app. cbn [length]. rewrite Nat.add_1_r, Nat2Z.inj_succ, Z.pow_succ_r by lia.
  pose proof (digit_val_range _ Hx). specialize (IH H). lia.
Qed.

(** No spelling but the one [Display] gives: at least one digit, and a leading
    zero only as the whole number. *)
Definition canonical_digits (l : bytes) : Prop :=
  forallb is_ascii_digit l = true /\ l <> [] /\ (length l > 1 -> head l <> Some "0"%byte)%nat.

Lemma canonical_snoc_inv l x :
  canonical_digits (l ++ [x]) -> l <> [] -> canonical_digits l /\ 0 < digits_val l /\ is_ascii_digit x = true.
Proof.
  intros (H & _ & Hz) Hl. rewrite forallb_app in H. cbn [forallb] in H.
  rewrite !andb_true_iff in H. destruct H as (H & Hx & _).
  assert (head l <> Some "0"%byte) as Hh.
  { destruct l as [|y l]; [done|]. apply Hz. rewrite length_app. cbn. lia. }
  split_and!; [|clear Hz|done].
  - by split_and!.
  - destruct l as [|y l]; [done|]. cbn [forallb] in H. rewrite andb_true_iff in H. destruct H as [Hy Hd].
    unfold digits_val. cbn [fold_left]. rewrite fold_digits_app.
    pose proof (digits_val_bound _ Hd). pose proof (digit_val_range _ Hy).
    assert (digit_val y <> 0) as Hy0.
    { intros E. apply Hh. cbn. f_equal. by rewrite <- (digit_val_byte y Hy), E. }
    assert (0 < 10 ^ Z.of_nat (length l)) by (apply Z.pow_pos_nonneg; lia). nia.
Qed.

Lemma dec_digits_print fuel l acc :
  canonical_digits l -> (length l <= fuel)%nat -> dec_digits fuel (digits_val l) acc = l ++ acc.
Proof.
  revert fuel acc. induction l as [|x l IH] using rev_ind; intros fuel acc Hc Hf; [by destruct Hc as (_ & ? & _)|].
  rewrite length_app in Hf. cbn [length] in Hf. destruct fuel as [|fuel]; [lia|]. cbn [dec_digits].
  rewrite digits_val_snoc. destruct l as [|y l'] eqn:El.
  - cbn [app]. destruct Hc as (H & _). cbn in H. rewrite andb_true_r in H.
    pose proof (digit_val_range _ H). change (digits_val []) with 0.
    rewrite (proj2 (Z.ltb_lt _ _)) by lia. rewrite Z.mod_small by lia.
    by rewrite Z.mul_0_r, Z.add_0_l, digit_val_byte.
  - rewrite <- El in *. destruct (canonical_snoc_inv l x Hc) as (Hcl & Hpos & Hx); [by rewrite El|].
    pose proof (digit_val_range _ Hx).
    rewrite (proj2 (Z.ltb_ge _ _)) by lia.
    replace ((10 * digits_val l + digit_val x) mod 10) with (digit_val x)
      by (rewrite (Z.mul_comm 10), Z.add_comm, Z_mod_plus_full, Z.mod_small; lia).
    replace ((10 * digits_val l + digit_val x) / 10) with (digits_val l)
      by (rewrite (Z.mul_comm 10), Z.add_comm, Z_div_plus_full, Z.div_small; lia).
    rewrite digit_val_byte by done. rewrite IH by (done || lia). by rewrite <- app_assoc.
Qed.

Lemma dec_digits_canonical fuel n acc :
  0 <= n < 10 ^ Z.of_nat fuel -> (0 < fuel)%nat ->
  exists l, dec_digits fuel n acc = l ++ acc /\ canonical_digits l /\ digits_val l = n /\
            (n = 0 -> l = ["0"%byte]).
Proof.
  revert n acc. induction fuel as [|fuel IH]; intros n acc Hn Hf; [lia|]. cbn [dec_digits].
  pose proof (Z.mod_pos_bound n 10 ltac:(lia)) as Hm.
  destruct (digit_byte_val (n mod 10) ltac:(lia)) as [Hv Hd].
  destruct (n <? 10) eqn:E.
  - apply Z.ltb_lt in E. rewrite Z.mod_small in * by lia. exists [digit_byte n].
    split_and!; [done| |by unfold digits_val; cbn [fold_left]; lia|by intros ->].
    split_and!; [cbn [forallb]; by rewrite Hd|done|cbn; lia].
  - apply Z.ltb_ge in E. rewrite Nat2Z.inj_succ, Z.pow_succ_r in Hn by lia.
    destruct fuel as [|fuel'] eqn:Ef; [cbn in Hn; lia|]. rewrite <- Ef in *.
    destruct (IH (n / 10) (digit_byte (n mod 10) :: acc)) as (l & El & (Hl1 & Hl2 & Hl3) & Hlv & _).
    { split; [apply Z.div_pos; lia | apply Z.div_lt_upper_bound; lia]. }
    { lia. }
    exists (l ++ [digit_byte (n mod 10)]). split_and!.
    + rewrite El. by rewrite <- app_assoc.
    + split_and!.
      * rewrite forallb_app, Hl1. cbn [forallb]. by rewrite Hd.
      * by destruct l.
      * intros _. destruct l as [|y l]; [done|]. cbn [head app].
        destruct l as [|z l]; [|apply Hl3; cbn; lia].
        intros [= ->]. unfold digits_val in Hlv. cbn [fold_left] in Hlv.
        change (digit_val "0"%byte) with 0 in Hlv.
        pose proof (Z.div_le_lower_bound n 10 1). lia.
    + rewrite digits_val_snoc, Hlv, Hv. pose proof (Z.div_mod n 10). lia.
    + intros ->. lia.
Qed.

Lemma print_i64_cases n : in_i64 n = true ->
  (0 <= n /\ canonical_digits (print_i64 n) /\ digits_val (print_i64 n) = n) \/
  (n < 0 /\ exists l, print_i64 n = "-"%byte :: l /\ canonical_digits l /\ digits_val l = - n).
Proof.
  unfold in_i64, print_i64, I64_MIN, I64_MAX. rewrite andb_true_iff, !Z.leb_le. intros [H1 H2].
  destruct (n <? 0) eqn:E.
  - apply Z.ltb_lt in E. right. split; [done|].
    destruct (dec_digits_canonical 20 (- n) []) as (l & El & Hc & Hv & _); [lia..|].
    exists l. by rewrite El, app_nil_r.
  - apply Z.ltb_ge in E. left. split; [done|].
    destruct (dec_digits_canonical 20 n []) as (l & El & Hc & Hv & _); [lia..|].
    by rewrite El, app_nil_r.
Qed.

Lemma strip_sign_digit x l : is_ascii_digit x = true -> strip_sign (x :: l) = (false, x :: l).
Proof. by destruct x. Qed.

(** A canonical spelling parses to the number it was printed from. *)
Lemma parse_print_i64 n : in_i64 n = true -> parse_i64 (print_i64 n) = Some n.
Proof.
  intros Hn. destruct (print_i64_cases n Hn) as [(H0 & (Hd & Hne & _) & Hv)|(H0 & l & El & (Hd & Hne & _) & Hv)].
  - unfold parse_i64. destruct (print_i64 n) as [|x l] eqn:E; [done|].
    assert (is_ascii_digit x = true) as Hx by (cbn in Hd; by apply andb_true_iff in Hd as [? _]).
    rewrite strip_sign_digit by done.
    rewrite Hd, Hv. unfold checked_i64. by rewrite Hn.
  - unfold parse_i64. rewrite El. cbn [strip_sign]. destruct l as [|y l]; [done|]. rewrite Hd, Hv, Z.opp_involutive.
    unfold checked_i64. by rewrite Hn.
Qed.
