(* ===== verification/RustFloat.v ===== *)
(** * RustFloat: arithmetic on [f64]

    The operators of [f64] that the runtime uses, on the binary64 values of
    [SpecFloat]: addition, subtraction, multiplication and division round to the
    nearest double, the remainder and the comparisons are exact.  [scaled] is the
    exact value of a finite double as an integer number of the smallest positive
    double, in terms of which the operations are specified. *)

From Stdlib Require Import ZArith Floats.SpecFloat.
From stdpp Require Import base list option numbers.
From S2P Require Import Prelude RustStd RustNum.

#[local] Open Scope Z_scope.

(** ** Operators *)

Definition f64_add : f64 -> f64 -> f64 := SFadd 53 1024.
Definition f64_sub : f64 -> f64 -> f64 := SFsub 53 1024.
Definition f64_mul : f64 -> f64 -> f64 := SFmul 53 1024.
Definition f64_div : f64 -> f64 -> f64 := SFdiv 53 1024.
Definition f64_neg : f64 -> f64 := SFopp.
Definition f64_abs : f64 -> f64 := SFabs.

Definition f64_is_nan (x : f64) : bool := match x with S754_nan => true | _ => false end.
Definition f64_is_infinite (x : f64) : bool := match x with S754_infinity _ => true | _ => false end.
Definition f64_is_sign_negative (x : f64) : bool :=
  match x with S754_zero s | S754_infinity s | S754_finite s _ _ => s | S754_nan => false end.

Definition f64_partial_cmp : f64 -> f64 -> option comparison := SFcompare.
Definition f64_eq (x y : f64) : bool := SFeqb x y.
Definition f64_lt (x y : f64) : bool := SFltb x y.
Definition f64_ge (x y : f64) : bool := SFleb y x.

(** [x % y]: the remainder has the sign of [x] and is exact. *)
Definition f64_rem (x y : f64) : f64 :=
  match x, y with
  | S754_nan, _ | _, S754_nan | S754_infinity _, _ | _, S754_zero _ => S754_nan
  | S754_zero _, _ | _, S754_infinity _ => x
  | S754_finite sx mx ex, S754_finite _ my ey =>
      let ez := Z.min ex ey in
      let r := (Zpos mx * 2 ^ (ex - ez)) mod (Zpos my * 2 ^ (ey - ez)) in
      binary_normalize 53 1024 (cond_Zopp sx r) ez sx
  end.

(** [2.0_f64.powi(n)] in the range of normal doubles. *)
Definition f64_pow2 (n : Z) : f64 := S754_finite false (2 ^ 52) (n - 52).

(** ** Exact values *)

Definition valid (x : f64) : Prop := valid_binary 53 1024 x = true.

Definition scaled (x : f64) : Z :=
  match x with
  | S754_finite s m e => cond_Zopp s (Zpos m * 2 ^ (e + 1074))
  | _ => 0
  end.

(** The integer part, rounded towards zero. *)
Definition trunc (x : f64) : Z := Z.quot (scaled x) (2 ^ 1074).

Definition wrap_i64 (z : Z) : Z := (z + 2 ^ 63) mod 2 ^ 64 - 2 ^ 63.

Lemma cond_Zopp_mul s a b : cond_Zopp s (a * b) = cond_Zopp s a * b.
Proof. destruct s; cbn [cond_Zopp]; lia. Qed.

Lemma digits2_pos_spec m : 2 ^ (Zpos (digits2_pos m) - 1) <= Zpos m < 2 ^ Zpos (digits2_pos m).
Proof.
  induction m as [m IH|m IH|]; cbn [digits2_pos]; [| |cbn; lia].
  all: rewrite Pos2Z.inj_succ; unfold Z.succ; rewrite Z.add_simpl_r, Z.pow_add_r by lia.
  all: replace (2 ^ Zpos (digits2_pos m)) with (2 * 2 ^ (Zpos (digits2_pos m) - 1)) in *
         by (rewrite <- Z.pow_succ_r by lia; f_equal; lia); lia.
Qed.

(** The number of digits is determined by the powers of two around a number. *)
Lemma digits2_pos_unique m d : 2 ^ (d - 1) <= Zpos m < 2 ^ d -> Zpos (digits2_pos m) = d.
Proof.
  intros [H1 H2]. destruct (digits2_pos_spec m) as [H3 H4].
  assert (0 <= d) as Hd by (destruct (Z.neg_nonneg_cases d); [rewrite Z.pow_neg_r in H2 by lia; lia|lia]).
  assert (Zpos (digits2_pos m) - 1 < d) by (apply (Z.pow_lt_mono_r_iff 2); lia).
  assert (d - 1 < Zpos (digits2_pos m)) by (apply (Z.pow_lt_mono_r_iff 2); lia).
  lia.
Qed.

(** A finite valid double: the mantissa has at most 53 bits, and all of them
    unless the exponent is the smallest. *)
Lemma valid_finite s m e :
  valid (S754_finite s m e) <->
  -1074 <= e <= 971 /\ Zpos m < 2 ^ 53 /\ (-1074 < e -> 2 ^ 52 <= Zpos m).
Proof.
  unfold valid. cbn [valid_binary]. unfold bounded, canonical_mantissa, fexp, emin.
  rewrite andb_true_iff, Z.eqb_eq, Z.leb_le. pose proof (digits2_pos_spec m) as [H1 H2].
  set (d := Zpos (digits2_pos m)) in *. split.
  - intros [He Hm]. assert (d <= 53) as Hd by lia. split_and!; [lia..| |].
    + apply (Z.lt_le_trans _ (2 ^ d)); [lia|]. apply Z.pow_le_mono_r; lia.
    + intros Hl. assert (d = 53) as -> by lia. apply H1.
  - intros (He & Hm & Hl). assert (0 < d) by lia.
    assert (d <= 53) as Hd.
    { assert (d - 1 < 53) by (apply (Z.pow_lt_mono_r_iff 2); lia). lia. }
    split; [|lia]. destruct (Z.eq_dec e (-1074)) as [->|Hn]; [lia|].
    assert (52 < d) by (apply (Z.pow_lt_mono_r_iff 2); lia). lia.
Qed.

(** ** Rounding a number that needs no rounding *)

Lemma shl_pos m d : Zpos (Pos.iter xO m d) = Zpos m * 2 ^ Zpos d.
Proof.
  induction d as [|d IH] using Pos.peano_ind; [cbn [Pos.iter]; lia|].
  rewrite Pos.iter_succ, Pos2Z.inj_succ, Z.pow_succ_r by lia. lia.
Qed.

Lemma shl_align_down m e e' :
  e' <= e -> Zpos (shl_align m e e').1 = Zpos m * 2 ^ (e - e') /\ (shl_align m e e').2 = e'.
Proof.
  intros H. unfold shl_align. destruct (e' - e) as [|p|p] eqn:E; [|lia|].
  - assert (e' = e) as -> by lia. rewrite Z.sub_diag. cbn [fst snd]. lia.
  - cbn [fst snd]. rewrite shl_pos. split; [|done]. do 2 f_equal. lia.
Qed.

Lemma shl_align_up m e e' : e <= e' -> shl_align m e e' = (m, e).
Proof. intros H. unfold shl_align. destruct (e' - e) eqn:E; [done..|lia]. Qed.

Lemma shr_exact p m :
  0 < m -> SpecFloat.iter_pos shr_1 p (Build_shr_record (m * 2 ^ Zpos p) false false) = Build_shr_record m false false.
Proof.
  assert (forall n, 0 < n -> shr_1 (Build_shr_record (2 * n) false false) = Build_shr_record n false false) as H1.
  { intros [|n|n]; [lia|done|lia]. }
  revert m. induction p as [p IH|p IH|]; intros m Hm; cbn [SpecFloat.iter_pos].
  - replace (m * 2 ^ Zpos p~1) with (2 * (m * 2 ^ Zpos p * 2 ^ Zpos p)).
    + rewrite H1 by (pose proof (Z.pow_pos_nonneg 2 (Zpos p)); nia).
      rewrite IH by (pose proof (Z.pow_pos_nonneg 2 (Zpos p)); nia). by apply IH.
    + replace (Zpos p~1) with (Zpos p + Zpos p + 1) by lia. rewrite !Z.pow_add_r by lia. lia.
  - replace (m * 2 ^ Zpos p~0) with (m * 2 ^ Zpos p * 2 ^ Zpos p).
    + rewrite IH by (pose proof (Z.pow_pos_nonneg 2 (Zpos p)); nia). by apply IH.
    + replace (Zpos p~0) with (Zpos p + Zpos p) by lia. rewrite Z.pow_add_r by lia. lia.
  - rewrite Z.mul_comm. by apply H1.
Qed.

(** [M * 2^E] in normal form. *)
Definition normal (M : positive) (E : Z) : Prop := 2 ^ 52 <= Zpos M < 2 ^ 53 /\ -1074 <= E <= 971.

Lemma normal_digits M E : normal M E -> Zpos (digits2_pos M) = 53.
Proof. intros [H _]. by apply digits2_pos_unique. Qed.

Lemma round_aux_shift s M E e :
  normal M E -> e <= E ->
  binary_round_aux 53 1024 s (Zpos M * 2 ^ (E - e)) e loc_Exact = S754_finite s M E.
Proof.
  intros HN He. pose proof (normal_digits _ _ HN) as Hd. destruct HN as [HM HE].
  assert (shr_fexp 53 1024 (Zpos M) E loc_Exact = (Build_shr_record (Zpos M) false false, E)) as H0.
  { unfold shr_fexp, fexp, emin. cbn [Zdigits2 shr_record_of_loc]. rewrite Hd.
    replace (Z.max (53 + E - 53) (3 - 1024 - 53) - E) with 0 by lia. done. }
  assert (shr_fexp 53 1024 (Zpos M * 2 ^ (E - e)) e loc_Exact = (Build_shr_record (Zpos M) false false, E)) as H1.
  { destruct (E - e) as [|p|p] eqn:Ep; [|..|lia].
    - assert (e = E) as -> by lia. by rewrite Z.mul_1_r.
    - unfold shr_fexp, fexp, emin. cbn [shr_record_of_loc].
      assert (Zdigits2 (Zpos M * 2 ^ Zpos p) = 53 + Zpos p) as ->.
      { rewrite <- shl_pos. cbn [Zdigits2]. apply digits2_pos_unique. rewrite shl_pos.
        replace (53 + Zpos p - 1) with (52 + Zpos p) by lia. rewrite !Z.pow_add_r by lia.
        pose proof (Z.pow_pos_nonneg 2 (Zpos p)). nia. }
      replace (Z.max (53 + Zpos p + e - 53) (3 - 1024 - 53) - e) with (Zpos p) by lia.
      unfold shr. rewrite shr_exact by lia. f_equal. lia. }
  unfold binary_round_aux. rewrite H1. cbn [loc_of_shr_record round_nearest_even shr_m]. rewrite H0.
  cbn [shr_m]. by rewrite (proj2 (Z.leb_le _ _)) by lia.
Qed.

Lemma binary_round_exact s m e M E :
  normal M E -> -1074 <= e -> Zpos m * 2 ^ (e + 1074) = Zpos M * 2 ^ (E + 1074) ->
  binary_round 53 1024 s m e = S754_finite s M E.
Proof.
  intros HN He Hv. pose proof HN as [HM HE]. unfold binary_round.
  destruct (Z.le_ge_cases e E) as [Hle|Hge].
  - assert (Zpos m = Zpos M * 2 ^ (E - e)) as Hm.
    { apply (Z.mul_reg_r _ _ (2 ^ (e + 1074))); [apply Z.pow_nonzero; lia|].
      rewrite Hv, <- Z.mul_assoc, <- Z.pow_add_r by lia. do 2 f_equal. lia. }
    assert (Zpos (digits2_pos m) = 53 + (E - e)) as ->.
    { apply digits2_pos_unique. rewrite Hm. replace (53 + (E - e) - 1) with (52 + (E - e)) by lia.
      rewrite !Z.pow_add_r by lia. pose proof (Z.pow_pos_nonneg 2 (E - e)). nia. }
    rewrite shl_align_up by (unfold fexp, emin; lia). rewrite Hm. by apply round_aux_shift.
  - assert (Zpos M = Zpos m * 2 ^ (e - E)) as Hm.
    { apply (Z.mul_reg_r _ _ (2 ^ (E + 1074))); [apply Z.pow_nonzero; lia|].
      rewrite <- Hv, <- Z.mul_assoc, <- Z.pow_add_r by lia. do 2 f_equal. lia. }
    assert (fexp 53 1024 (Zpos (digits2_pos m) + e) = E) as ->.
    { assert (Zpos (digits2_pos m) = 53 - (e - E)) as ->; [|unfold fexp, emin; lia].
      pose proof (digits2_pos_spec m) as [H1 H2]. set (d := Zpos (digits2_pos m)) in *.
      enough (d + (e - E) = 53) by lia. rewrite <- (normal_digits _ _ HN). symmetry.
      apply digits2_pos_unique. rewrite Hm. replace (d + (e - E) - 1) with (d - 1 + (e - E)) by lia.
      rewrite !Z.pow_add_r by lia. pose proof (Z.pow_pos_nonneg 2 (e - E)). nia. }
    rewrite (surjective_pairing (shl_align m e E)). destruct (shl_align_down m e E Hge) as [-> ->].
    rewrite <- Hm. replace (Zpos M) with (Zpos M * 2 ^ (E - E)) by (rewrite Z.sub_diag; lia).
    apply round_aux_shift; [done|lia].
Qed.

(** A number of at most 53 significant bits has a normal form. *)
Lemma normal_form q k :
  0 < q < 2 ^ 53 -> 52 <= k <= 2044 ->
  exists M E, normal M E /\ q * 2 ^ k = Zpos M * 2 ^ (E + 1074).
Proof.
  intros Hq Hk. destruct q as [|q|q]; [lia| |lia].
  pose proof (digits2_pos_spec q) as [H1 H2]. set (d := Zpos (digits2_pos q)) in *.
  assert (0 < d <= 53) as Hd.
  { split; [lia|]. assert (d - 1 < 53) by (apply (Z.pow_lt_mono_r_iff 2); lia). lia. }
  assert (0 < Zpos q * 2 ^ (53 - d)) as Hp by (pose proof (Z.pow_pos_nonneg 2 (53 - d)); nia).
  exists (Z.to_pos (Zpos q * 2 ^ (53 - d))), (k - (53 - d) - 1074). unfold normal. rewrite Z2Pos.id by done.
  split; [split; [|lia]|].
  - replace (2 ^ 52) with (2 ^ (d - 1) * 2 ^ (53 - d)) by (rewrite <- Z.pow_add_r by lia; f_equal; lia).
    replace (2 ^ 53) with (2 ^ d * 2 ^ (53 - d)) by (rewrite <- Z.pow_add_r by lia; f_equal; lia).
    pose proof (Z.pow_pos_nonneg 2 (53 - d)). nia.
  - rewrite <- Z.mul_assoc, <- Z.pow_add_r by lia. do 2 f_equal. lia.
Qed.

(** Representable values: at most 53 significant bits within the range. *)
Definition representable (V : Z) : Prop :=
  exists q k, V = q * 2 ^ k /\ Z.abs q < 2 ^ 53 /\ 52 <= k <= 2044.

Lemma normal_valid s M E : normal M E -> valid (S754_finite s M E).
Proof. intros [H1 H2]. apply valid_finite. lia. Qed.

Lemma normalize_exact z e sz :
  -1074 <= e -> representable (z * 2 ^ (e + 1074)) ->
  let x := binary_normalize 53 1024 z e sz in
  scaled x = z * 2 ^ (e + 1074) /\ valid x /\ f64_is_finite x = true.
Proof.
  intros He (q & k & Hv & Hq & Hk). pose proof (Z.pow_pos_nonneg 2 (e + 1074)).
  pose proof (Z.pow_pos_nonneg 2 k).
  destruct z as [|m|m]; cbn [binary_normalize].
  - done.
  - destruct (normal_form q k) as (M & E & HN & HE); [nia..|].
    rewrite (binary_round_exact _ _ _ M E) by (done || congruence || lia).
    cbn [scaled cond_Zopp f64_is_finite]. split_and!; [congruence|by apply normal_valid|done].
  - destruct (normal_form (- q) k) as (M & E & HN & HE); [nia..|].
    assert (Zpos m * 2 ^ (e + 1074) = Zpos M * 2 ^ (E + 1074)) as Hm.
    { rewrite <- HE. change (Zneg m) with (- Zpos m) in Hv. nia. }
    rewrite (binary_round_exact _ _ _ M E) by (done || lia).
    cbn [scaled cond_Zopp f64_is_finite]. split_and!; [|by apply normal_valid|done].
    change (Zneg m) with (- Zpos m). lia.
Qed.

(** ** The operations on exact values *)

Lemma scaled_align s m e ez :
  -1074 <= ez <= e ->
  cond_Zopp s (Zpos (shl_align m e ez).1) * 2 ^ (ez + 1074) = scaled (S754_finite s m e).
Proof.
  intros H. destruct (shl_align_down m e ez) as [-> _]; [lia|]. cbn [scaled].
  rewrite <- cond_Zopp_mul, <- Z.mul_assoc, <- Z.pow_add_r by lia. do 3 f_equal. lia.
Qed.

Lemma valid_exponent s m e : valid (S754_finite s m e) -> -1074 <= e <= 971.
Proof. intros H%valid_finite. tauto. Qed.

Lemma add_exact x y :
  valid x -> valid y -> f64_is_finite x = true -> f64_is_finite y = true ->
  representable (scaled x + scaled y) ->
  scaled (f64_add x y) = scaled x + scaled y /\ valid (f64_add x y) /\ f64_is_finite (f64_add x y) = true.
Proof.
  intros Hx Hy Fx Fy Hr. unfold f64_add.
  destruct x as [sx|sx| |sx mx ex]; [|done..|]; destruct y as [sy|sy| |sy my ey]; try done.
  - by destruct sx, sy.
  - cbn [SFadd scaled] in *. rewrite Z.add_0_r. done.
  - apply valid_exponent in Hx, Hy. cbn [SFadd]. rewrite <- (scaled_align sx mx ex (Z.min ex ey)) in * by lia.
    rewrite <- (scaled_align sy my ey (Z.min ex ey)) in * by lia. rewrite <- Z.mul_add_distr_r in *.
    apply normalize_exact; [lia|done].
Qed.

Lemma sub_exact x y :
  valid x -> valid y -> f64_is_finite x = true -> f64_is_finite y = true ->
  representable (scaled x - scaled y) ->
  scaled (f64_sub x y) = scaled x - scaled y /\ valid (f64_sub x y) /\ f64_is_finite (f64_sub x y) = true.
Proof.
  intros Hx Hy Fx Fy Hr. unfold f64_sub.
  destruct x as [sx|sx| |sx mx ex]; [|done..|]; destruct y as [sy|sy| |sy my ey]; try done.
  - by destruct sx, sy.
  - cbn [SFsub scaled] in *. split_and!; [|done..]. destruct sy; cbn [negb cond_Zopp]; lia.
  - cbn [SFsub scaled] in *. rewrite Z.sub_0_r. done.
  - apply valid_exponent in Hx, Hy. cbn [SFsub]. rewrite <- (scaled_align sx mx ex (Z.min ex ey)) in * by lia.
    rewrite <- (scaled_align sy my ey (Z.min ex ey)) in * by lia. rewrite <- Z.mul_sub_distr_r in *.
    apply normalize_exact; [lia|done].
Qed.

Lemma rem_exact x y :
  valid x -> valid y -> f64_is_finite x = true -> f64_is_finite y = true -> scaled y <> 0 ->
  representable (Z.rem (scaled x) (scaled y)) ->
  scaled (f64_rem x y) = Z.rem (scaled x) (scaled y) /\ valid (f64_rem x y) /\
  f64_is_finite (f64_rem x y) = true.
Proof.
  intros Hx Hy Fx Fy Hn Hr.
  destruct x as [sx|sx| |sx mx ex]; [|done..|]; destruct y as [sy|sy| |sy my ey]; try done.
  apply valid_exponent in Hx, Hy. cbn [f64_rem]. set (ez := Z.min ex ey).
  set (a := Zpos mx * 2 ^ (ex - ez)). set (b := Zpos my * 2 ^ (ey - ez)). set (w := 2 ^ (ez + 1074)).
  assert (0 < w) as Hw by (apply Z.pow_pos_nonneg; lia).
  assert (0 < a) as Ha by (apply Z.mul_pos_pos; [|apply Z.pow_pos_nonneg]; lia).
  assert (0 < b) as Hb by (apply Z.mul_pos_pos; [|apply Z.pow_pos_nonneg]; lia).
  assert (forall s m e, ez <= e -> scaled (S754_finite s m e) = cond_Zopp s (Zpos m * 2 ^ (e - ez)) * w) as HS.
  { intros s m e He. cbn [scaled]. unfold w. rewrite <- cond_Zopp_mul, <- Z.mul_assoc, <- Z.pow_add_r by lia.
    do 3 f_equal. lia. }
  assert (Z.rem (scaled (S754_finite sx mx ex)) (scaled (S754_finite sy my ey)) =
          cond_Zopp sx (a mod b) * w) as E.
  { rewrite !HS by lia. fold a b. rewrite <- (Z.rem_mod_nonneg a b) by lia.
    destruct sx, sy; cbn [cond_Zopp]; rewrite ?Z.mul_opp_l, ?Z.rem_opp_l', ?Z.rem_opp_r' by lia.
    all: rewrite Z.mul_rem_distr_r by lia; done. }
  rewrite E in *. apply normalize_exact; [lia|done].
Qed.

(** Canonical mantissas and exponents are ordered lexicographically. *)
Lemma magnitude_lt s m e s' m' e' :
  valid (S754_finite s m e) -> valid (S754_finite s' m' e') -> e < e' ->
  Zpos m * 2 ^ (e + 1074) < Zpos m' * 2 ^ (e' + 1074).
Proof.
  intros (He & Hm & _)%valid_finite (He' & _ & Hm')%valid_finite Hlt.
  assert (2 ^ (e' + 1074) = 2 * 2 ^ (e' - e - 1) * 2 ^ (e + 1074)) as ->.
  { rewrite <- Z.pow_succ_r, <- Z.pow_add_r by lia. f_equal. lia. }
  rewrite Z.mul_assoc. apply Z.mul_lt_mono_pos_r; [apply Z.pow_pos_nonneg; lia|].
  pose proof (Z.pow_pos_nonneg 2 (e' - e - 1) ltac:(lia) ltac:(lia)). specialize (Hm' ltac:(lia)). nia.
Qed.

Lemma magnitude_compare s m e s' m' e' :
  valid (S754_finite s m e) -> valid (S754_finite s' m' e') ->
  (Zpos m * 2 ^ (e + 1074) ?= Zpos m' * 2 ^ (e' + 1074)) =
  match e ?= e' with Lt => Lt | Gt => Gt | Eq => Pos.compare_cont Eq m m' end.
Proof.
  intros H H'. destruct (Z.compare_spec e e') as [->|?|?].
  - pose proof (valid_exponent _ _ _ H').
    by rewrite <- Zmult_compare_compat_r by (apply Z.lt_gt, Z.pow_pos_nonneg; lia).
  - apply Z.compare_lt_iff. by eapply magnitude_lt.
  - apply Z.compare_gt_iff. by eapply magnitude_lt.
Qed.

Lemma magnitude_pos s m e : valid (S754_finite s m e) -> 0 < Zpos m * 2 ^ (e + 1074).
Proof. intros H%valid_exponent. apply Z.mul_pos_pos; [|apply Z.pow_pos_nonneg]; lia. Qed.

(** The comparison of doubles is that of their values. *)
Lemma compare_exact x y :
  valid x -> valid y -> f64_is_finite x = true -> f64_is_finite y = true ->
  SFcompare x y = Some (scaled x ?= scaled y).
Proof.
  intros Hx Hy Fx Fy.
  destruct x as [sx|sx| |sx mx ex]; [|done..|]; destruct y as [sy|sy| |sy my ey]; try done; cbn [SFcompare scaled].
  - pose proof (magnitude_pos _ _ _ Hy).
    destruct sy; cbn [cond_Zopp]; symmetry; f_equal; [apply Z.compare_gt_iff | apply Z.compare_lt_iff]; lia.
  - pose proof (magnitude_pos _ _ _ Hx).
    destruct sx; cbn [cond_Zopp]; symmetry; f_equal; [apply Z.compare_lt_iff | apply Z.compare_gt_iff]; lia.
  - pose proof (magnitude_pos _ _ _ Hx). pose proof (magnitude_pos _ _ _ Hy).
    destruct sx, sy; cbn [cond_Zopp]; f_equal.
    + rewrite Z.compare_opp, (magnitude_compare true _ _ true), (Z.compare_antisym ex ey) by done.
      destruct (ex ?= ey) eqn:E; cbn [CompOpp]; [|done..]. symmetry. apply Pos.compare_antisym.
    + symmetry. apply Z.compare_lt_iff. lia.
    + symmetry. apply Z.compare_gt_iff. lia.
    + by rewrite (magnitude_compare false _ _ false).
Qed.

(** ** Integers *)

(** [z] as an integer number of the unit of [scaled]. *)
Lemma representable_int z q k :
  z = q * 2 ^ k -> Z.abs q < 2 ^ 53 -> 0 <= k <= 970 -> representable (z * 2 ^ 1074).
Proof.
  intros -> Hq Hk. exists q, (k + 1074). split_and!; [|lia..].
  by rewrite Z.pow_add_r, Z.mul_assoc by lia.
Qed.

Lemma i64_as_f64_exact n :
  Z.abs n <= 2 ^ 53 ->
  scaled (i64_as_f64 n) = n * 2 ^ 1074 /\ valid (i64_as_f64 n) /\ f64_is_finite (i64_as_f64 n) = true.
Proof.
  intros Hn. unfold i64_as_f64. change (2 ^ 1074) with (2 ^ (0 + 1074)). apply normalize_exact; [lia|].
  change (2 ^ (0 + 1074)) with (2 ^ 1074). destruct (Z.eq_dec (Z.abs n) (2 ^ 53)) as [E|E].
  - apply (representable_int _ (Z.sgn n * 2 ^ 52) 1); lia.
  - apply (representable_int _ n 0); lia.
Qed.

(** [x as i64] is the integer part, saturated. *)
Lemma f64_as_i64_trunc x :
  valid x -> f64_is_finite x = true -> f64_as_i64 x = saturate_i64 (trunc x).
Proof.
  intros Hx Fx. destruct x as [s|s| |s m e]; [|done..|].
  - unfold trunc. cbn [scaled]. by rewrite Z.quot_0_l.
  - apply valid_exponent in Hx. unfold trunc, f64_as_i64. f_equal. cbn [scaled].
    assert (forall v, Z.quot (cond_Zopp s v) (2 ^ 1074) = cond_Zopp s (Z.quot v (2 ^ 1074))) as ->.
    { intros v. destruct s; cbn [cond_Zopp]; [|done]. by rewrite Z.quot_opp_l. }
    rewrite Z.quot_div_nonneg by (try apply Z.mul_nonneg_nonneg; try apply Z.pow_nonneg; lia || done).
    assert ((if 0 <=? e then Z.shiftl (Zpos m) e else Z.shiftr (Zpos m) (- e)) =
            Zpos m * 2 ^ (e + 1074) / 2 ^ 1074) as ->; [|by destruct s].
    destruct (0 <=? e) eqn:E.
    + apply Z.leb_le in E. rewrite Z.shiftl_mul_pow2, Z.pow_add_r, Z.mul_assoc, Z.div_mul by (done || lia). done.
    + apply Z.leb_gt in E. rewrite Z.shiftr_div_pow2 by lia.
      replace (2 ^ 1074) with (2 ^ (- e) * 2 ^ (e + 1074)) by (rewrite <- Z.pow_add_r by lia; f_equal; lia).
      rewrite Z.div_mul_cancel_r; [done|apply Z.pow_nonzero; lia..].
Qed.

Lemma f64_as_i64_exact x z :
  valid x -> f64_is_finite x = true -> scaled x = z * 2 ^ 1074 -> f64_as_i64 x = saturate_i64 z.
Proof.
  intros Hx Fx Hs. rewrite f64_as_i64_trunc by done. unfold trunc. by rewrite Hs, Z.quot_mul.
Qed.

(** Small integers survive the way through a double. *)
Lemma i64_f64_i64 n : Z.abs n <= 2 ^ 53 -> f64_as_i64 (i64_as_f64 n) = n.
Proof.
  intros Hn. destruct (i64_as_f64_exact n Hn) as (Hs & Hv & Hf).
  rewrite (f64_as_i64_exact _ n) by done. unfold saturate_i64, I64_MIN, I64_MAX. lia.
Qed.

Lemma pow2_exact n :
  0 <= n <= 1023 -> scaled (f64_pow2 n) = 2 ^ n * 2 ^ 1074 /\ valid (f64_pow2 n).
Proof.
  intros Hn. split.
  - cbn [f64_pow2 scaled cond_Zopp]. change (Zpos (2 ^ 52)) with (2 ^ 52)%Z.
    rewrite <- !Z.pow_add_r by lia. f_equal. lia.
  - apply valid_finite. change (Zpos (2 ^ 52)) with (2 ^ 52)%Z. lia.
Qed.
