(* ===== verification/RustText.v ===== *)
(** * RustText: [str] and [char] functions of the standard library

    Trimming of Unicode white space, the encoding of characters, the lossy
    decoding of byte strings and the parsing of integers in a radix. *)

From Stdlib Require Import Strings.String Strings.Byte NArith ZArith.
From stdpp Require Import base list option numbers.
From S2P Require Import Prelude RustStd RustNum.

(** ** Prefixes *)

Fixpoint strip_prefix (p l : bytes) : option bytes :=
  match p, l with
  | [], _ => Some l
  | x :: p, y :: l => if x =b y then strip_prefix p l else None
  | _ :: _, [] => None
  end.
Definition starts_with (p l : bytes) : bool := match strip_prefix p l with Some _ => true | None => false end.

Lemma strip_prefix_Some p l r : strip_prefix p l = Some r <-> l = p ++ r.
Proof.
  revert l. induction p as [|x p IH]; intros l; cbn; [split; congruence|].
  destruct l as [|y l]; [done|]. destruct (x =b y) eqn:E.
  - apply beq_eq in E as ->. rewrite IH. split; [by intros ->|]. by intros [= ->].
  - apply beq_neq in E. split; [done|]. intros [= -> _]. done.
Qed.

(** ** White space *)

(** The characters of the Unicode property [White_Space] in UTF-8. *)
Definition whitespace_chars : list bytes :=
  [[x09]; [x0a]; [x0b]; [x0c]; [x0d]; [x20]; [xc2; x85]; [xc2; xa0]; [xe1; x9a; x80];
   [xe2; x80; x80]; [xe2; x80; x81]; [xe2; x80; x82]; [xe2; x80; x83]; [xe2; x80; x84]; [xe2; x80; x85];
   [xe2; x80; x86]; [xe2; x80; x87]; [xe2; x80; x88]; [xe2; x80; x89]; [xe2; x80; x8a];
   [xe2; x80; xa8]; [xe2; x80; xa9]; [xe2; x80; xaf]; [xe2; x81; x9f]; [xe3; x80; x80]].

Fixpoint first_stripped (ps : list bytes) (l : bytes) : option bytes :=
  match ps with
  | [] => None
  | p :: ps => match strip_prefix p l with Some r => Some r | None => first_stripped ps l end
  end.

(** Every step takes at least one byte, so the length of the text is enough. *)
Fixpoint trim_loop (ps : list bytes) (fuel : nat) (l : bytes) : bytes :=
  match fuel with
  | O => l
  | S fuel => match first_stripped ps l with Some r => trim_loop ps fuel r | None => l end
  end.
Definition trim_start (l : bytes) : bytes := trim_loop whitespace_chars (length l) l.
Definition trim_end (l : bytes) : bytes := rev (trim_loop (@rev byte <$> whitespace_chars) (length l) (rev l)).
Definition trim (l : bytes) : bytes := trim_end (trim_start l).

(** [trim_start_matches] and [trim_end_matches] of one ASCII character *)
Definition trim_start_matches (x : byte) (l : bytes) : bytes := drop (run_len (Byte.eqb x) l) l.
Definition trim_end_matches (x : byte) (l : bytes) : bytes := rev (trim_start_matches x (rev l)).

(** ** Characters *)

(** [char::from_u32]: a Unicode scalar value. *)
Definition char_from_u32 (n : N) : option N :=
  if ((n <? 55296) || (57343 <? n) && (n <? 1114112))%N then Some n else None.

Definition encode_utf8 (c : N) : bytes :=
  byte_of_N <$>
  (if c <? 128 then [c]
   else if c <? 2048 then [192 + c / 64; 128 + c mod 64]
   else if c <? 65536 then [224 + c / 4096; 128 + c / 64 mod 64; 128 + c mod 64]
   else [240 + c / 262144; 128 + c / 4096 mod 64; 128 + c / 64 mod 64; 128 + c mod 64])%N.

(** [char::from(byte).to_string()] *)
Definition char_of_byte (x : byte) : bytes := encode_utf8 (u8 x).

(** ** [String::from_utf8_lossy] *)

(** The length of the character at the front, or of the part of it that is
    replaced. *)
Definition utf8_front (l : bytes) : bool * nat :=
  match l with
  | [] => (true, 0)
  | a :: rest =>
      let c i := match rest !! i with Some x => utf8_cont x | None => false end in
      let second (lo hi : N) := match rest !! 0 with Some x => in_range x lo hi | None => false end in
      let three (ok : bool) := if ok then if c 1 then (true, 3) else (false, 2) else (false, 1) in
      let four (ok : bool) :=
        if ok then if c 1 then if c 2 then (true, 4) else (false, 3) else (false, 2) else (false, 1) in
      if (u8 a <? 128)%N then (true, 1)
      else if in_range a 194 223 then if c 0 then (true, 2) else (false, 1)
      else if (u8 a =? 224)%N then three (second 160 191)%N
      else if (u8 a =? 237)%N then three (second 128 159)%N
      else if in_range a 225 239 then three (c 0)
      else if (u8 a =? 240)%N then four (second 144 191)%N
      else if (u8 a =? 244)%N then four (second 128 143)%N
      else if in_range a 241 243 then four (c 0)
      else (false, 1)
  end.

Definition REPLACEMENT_CHARACTER : bytes := [xef; xbf; xbd].

Fixpoint lossy_loop (fuel : nat) (l : bytes) : bytes :=
  match fuel, l with
  | O, _ | _, [] => []
  | S fuel, _ =>
      let '(ok, n) := utf8_front l in
      (if ok then take n l else REPLACEMENT_CHARACTER) ++ lossy_loop fuel (drop n l)
  end.
Definition from_utf8_lossy (l : bytes) : bytes := lossy_loop (length l) l.

(** The examples of the documentation. *)
Example lossy_sparkle : from_utf8_lossy [xf0; x9f; x92; x96] = [xf0; x9f; x92; x96].
Proof. reflexivity. Qed.
Example lossy_hello : from_utf8_lossy (lit "Hello " ++ [xf0; x90; x80] ++ lit "World") = lit "Hello " ++ REPLACEMENT_CHARACTER ++ lit "World".
Proof. reflexivity. Qed.

(** ** Integers in a radix *)

Definition to_digit (radix : N) (x : byte) : option N :=
  let d := if is_ascii_digit x then Some (u8 x - 48)%N
           else if in_range x 97 122 then Some (u8 x - 87)%N
           else if in_range x 65 90 then Some (u8 x - 55)%N else None in
  match d with Some d => if (d <? radix)%N then Some d else None | None => None end.

Fixpoint radix_value (radix : N) (v : Z) (l : bytes) : option Z :=
  match l with
  | [] => Some v
  | x :: l => match to_digit radix x with
              | Some d => radix_value radix (v * Z.of_N radix + Z.of_N d) l
              | None => None
              end
  end.

(** [i64::from_str_radix] *)
Definition from_str_radix (radix : N) (l : bytes) : option Z :=
  let '(negative, digits) := strip_sign l in
  match digits with
  | [] => None
  | _ => v ← radix_value radix 0 digits; checked_i64 (if negative then - v else v)%Z
  end.

Example radix_examples :
  (from_str_radix 16 (lit "7f"), from_str_radix 8 (lit "789"), from_str_radix 2 (lit "-101")) = (Some 127%Z, None, Some (-5)%Z).
Proof. reflexivity. Qed.

(** ** The encoding of a character is valid UTF-8 *)

Lemma byte_of_N_val n : (n < 256)%N -> u8 (byte_of_N n) = n.
Proof.
  intros Hn. unfold byte_of_N, u8. destruct (Byte.of_N n) as [x|] eqn:E; cbn; [by apply Byte.to_of_N|].
  apply Byte.of_N_None_iff in E. lia.
Qed.

(** Comparisons of numbers that hold. *)
Ltac leb_true :=
  repeat match goal with |- context [(?a <=? ?b)%N] => rewrite (proj2 (N.leb_le a b)) by lia end.

Lemma encode_utf8_valid n c : char_from_u32 n = Some c -> utf8_valid (encode_utf8 c) = true.
Proof.
  unfold char_from_u32. destruct (_ || _) eqn:Er; [|done]. intros [= <-].
  apply orb_true_iff in Er. rewrite andb_true_iff, !N.ltb_lt in Er.
  pose proof (N.mod_lt n 64 ltac:(done)) as H0. pose proof (N.mod_lt (n / 64) 64 ltac:(done)) as H1.
  pose proof (N.mod_lt (n / 4096) 64 ltac:(done)) as H2.
  pose proof (N.div_mod n 64 ltac:(done)) as E0. pose proof (N.div_mod (n / 64) 64 ltac:(done)) as E1.
  pose proof (N.div_mod (n / 4096) 64 ltac:(done)) as E2.
  rewrite N.Div0.div_div in E1, E2. change (64 * 64)%N with 4096%N in E1. change (4096 * 64)%N with 262144%N in E2.
  unfold encode_utf8. set (r0 := (n mod 64)%N) in *. set (r1 := ((n / 64) mod 64)%N) in *.
  set (r2 := ((n / 4096) mod 64)%N) in *. set (q0 := (n / 64)%N) in *. set (q1 := (n / 4096)%N) in *.
  set (q2 := (n / 262144)%N) in *. clearbody r0 r1 r2 q0 q1 q2.
  destruct (N.ltb_spec n 128); [|destruct (N.ltb_spec n 2048); [|destruct (N.ltb_spec n 65536)]];
    cbn [fmap list_fmap utf8_valid]; unfold utf8_cont, in_range; rewrite !byte_of_N_val by lia.
  - by rewrite (proj2 (N.ltb_lt _ _)).
  - rewrite (proj2 (N.ltb_ge _ _)) by lia. by leb_true.
  - rewrite (proj2 (N.ltb_ge _ _)) by lia. rewrite (proj2 (N.leb_gt _ 223)) by lia. rewrite andb_false_r.
    destruct (N.eqb_spec (224 + q1) 224); [|destruct (N.eqb_spec (224 + q1) 237)]; by leb_true.
  - rewrite (proj2 (N.ltb_ge _ _)) by lia. rewrite (proj2 (N.leb_gt _ 223)) by lia. rewrite andb_false_r.
    rewrite (proj2 (N.leb_gt _ 239)) by lia. rewrite andb_false_r.
    destruct (N.eqb_spec (240 + q2) 240); [|destruct (N.eqb_spec (240 + q2) 244)]; by leb_true.
Qed.
