(* ===== verification/FloatText.v ===== *)
(** * FloatText: doubles as PHP strings

    [php_runtime/src/convert.rs], [float_to_php_string] and the functions it
    calls, with the formats of Rust's [core::fmt] that they use: [{:.N}],
    [{:.NE}] and the shortest [{}].  The buffer of 384 bytes is the text written
    so far with the capacity check of [push_bytes].  The decimal logarithm is the
    platform's, a parameter of which only a range is assumed. *)

From Stdlib Require Import Strings.String Strings.Byte ZArith Floats.SpecFloat.
From stdpp Require Import base list option numbers.
From S2P Require Import Prelude RustStd RustNum RustFloat.

#[local] Open Scope Z_scope.

(** ** The formats of [core::fmt] *)

(** [n / d] rounded to the nearest integer, ties to even. *)
Definition div_half_even (n d : Z) : Z :=
  let q := n / d in
  match 2 * (n mod d) ?= d with
  | Lt => q
  | Gt => q + 1
  | Eq => if Z.even q then q else q + 1
  end.

(** The decimal digits of a number below [10^400]. *)
Definition decimal_digits (n : Z) : bytes := dec_digits 400 n [].
Definition zeros (n : nat) : bytes := repeat "0"%byte n.
Definition sign_text (negative : bool) : bytes := if negative then ["-"%byte] else [].

(** [n * 10^(- d)] with [d] digits after the point. *)
Definition fixed_point (n : Z) (d : nat) : bytes :=
  let digits := decimal_digits n in
  let digits := zeros (S d - length digits) ++ digits in
  let k := (length digits - d)%nat in
  take k digits ++ (if (d =? 0)%nat then [] else "."%byte :: drop k digits).

(** [format!("{value:.d$}")] of a finite value *)
Definition fmt_fixed (value : f64) (d : nat) : bytes :=
  sign_text (f64_is_sign_negative value) ++
  fixed_point (div_half_even (Z.abs (scaled value) * 10 ^ Z.of_nat d) (2 ^ 1074)) d.

(** The exponent [k] with [10^k <= |value| < 10^(k+1)]. *)
Definition decimal_exponent (value : f64) : Z :=
  Z.of_nat (length (dec_digits 800 (Z.abs (scaled value) * 10 ^ 400 / 2 ^ 1074) [])) - 401.

(** [|value| * 10^(- e)] as a fraction. *)
Definition shifted (value : f64) (e : Z) : Z * Z :=
  if 0 <=? e then (Z.abs (scaled value), 2 ^ 1074 * 10 ^ e)
  else (Z.abs (scaled value) * 10 ^ (- e), 2 ^ 1074).

(** [format!("{value:.d$E}")] of a finite value that is not zero *)
Definition fmt_exp (value : f64) (d : nat) : bytes :=
  let k := decimal_exponent value in
  let '(a, b) := shifted value (k - Z.of_nat d) in
  let n := div_half_even a b in
  let '(n, k) := if 10 ^ (Z.of_nat d + 1) <=? n then (n / 10, k + 1) else (n, k) in
  sign_text (f64_is_sign_negative value) ++ fixed_point n d ++ "E"%byte :: print_i64 k.

(** The decimal [m * 10^e] closest to the value of [n] digits at most that reads
    back as the value, if there is one. *)
Definition shortest_candidate (value : f64) (k : Z) (n : nat) : option (Z * Z) :=
  let e := k - Z.of_nat n + 1 in
  let '(a, b) := shifted value e in
  let low := a / b in
  let reads_back m := f64_eq (round_decimal (f64_is_sign_negative value) m e) value in
  match reads_back low, reads_back (low + 1) with
  | true, true => Some (if 2 * (a mod b) <? b then low else low + 1, e)
  | true, false => Some (low, e)
  | false, true => Some (low + 1, e)
  | false, false => None
  end.

(** 17 digits tell all doubles apart. *)
Fixpoint shortest_decimal (value : f64) (k : Z) (n fuel : nat) : Z * Z :=
  match fuel with
  | O => let '(a, b) := shifted value (k - 16) in (div_half_even a b, k - 16)
  | S fuel =>
      match shortest_candidate value k n with
      | Some r => r
      | None => shortest_decimal value k (S n) fuel
      end
  end.

(** [format!("{value}")] of a finite value *)
Definition fmt_display (value : f64) : bytes :=
  sign_text (f64_is_sign_negative value) ++
  (if scaled value =? 0 then lit "0"
   else
     let '(m, e) := shortest_decimal value (decimal_exponent value) 1 16 in
     if 0 <=? e then decimal_digits m ++ zeros (Z.to_nat e) else fixed_point m (Z.to_nat (- e))).

(** ** [FixedFloatString] *)

Definition PHP_FLOAT_STRING_BUFFER_CAPACITY : nat := 384.

(** The bytes written so far; [None] is [fmt::Error]. *)
Definition push_bytes (text : bytes) (output : bytes) : option bytes :=
  if (length output + length text <=? PHP_FLOAT_STRING_BUFFER_CAPACITY)%nat
  then Some (output ++ text) else None.

Class FloatEnv := {
  (** [FLOAT_STRING_PRECISION], clamped to [-1, 17] by [set_float_string_precision] *)
  precision : Z;
  (** [x.log10().floor()] *)
  log10_floor : f64 -> Z;
  (** [x.powf(y)] *)
  powf : f64 -> f64 -> f64;
}.

Definition DEFAULT_FLOAT_STRING_PRECISION : Z := 14.
Definition set_float_string_precision (p : Z) : Z := Z.max (-1) (Z.min 17 p).

Section Render.
Context `{FloatEnv}.

Definition ends_with (l : bytes) (x : byte) : bool := opt_is (list.last l) x.

(** [while output.as_bytes().ends_with(b"0") { output.truncate(len - 1) }] *)
Fixpoint trim_zeros (fuel : nat) (l : bytes) : bytes :=
  match fuel with
  | O => l
  | S fuel => if ends_with l "0"%byte then trim_zeros fuel (take (length l - 1) l) else l
  end.

Definition render_php_decimal_float (value : f64) : option bytes :=
  let precision := Z.to_nat (Z.max 1 (Z.min 17 precision)) in
  let abs := f64_abs value in
  let integer_digits := if f64_ge abs (i64_as_f64 1) then (Z.to_nat (log10_floor abs) + 1)%nat else 0%nat in
  let leading_fractional_zeros :=
    if f64_lt (S754_zero false) abs && f64_lt abs (i64_as_f64 1)
    then (Z.to_nat (- log10_floor abs) - 1)%nat else 0%nat in
  let decimals := (precision - integer_digits + leading_fractional_zeros)%nat in
  match push_bytes (fmt_fixed value decimals) [] with
  | None => None
  | Some output =>
      if bytes_eqb output (lit "-0") then Some (lit "0")
      else
        let output :=
          if existsb (Byte.eqb "."%byte) output then
            let output := trim_zeros (length output) output in
            if ends_with output "."%byte then take (length output - 1) output else output
          else output in
        Some (if bytes_eqb output (lit "-0") then lit "0" else output)
  end.

Definition render_php_scientific_float (value : f64) : option bytes :=
  let precision := Z.to_nat (Z.max 1 (Z.min 17 precision)) in
  let decimals := (precision - 1)%nat in
  match push_bytes (fmt_exp value decimals) [] with
  | None => None
  | Some rendered =>
      match position (fun x => x =b "E"%byte) rendered with
      | None => push_bytes rendered []
      | Some exponent_index =>
          let mantissa := trim_zeros exponent_index (take exponent_index rendered) in
          let exponent := drop (exponent_index + 1) rendered in
          let '(sign, digits) :=
            match exponent with
            | "+"%byte :: digits => ("+"%byte, digits)
            | "-"%byte :: digits => ("-"%byte, digits)
            | _ => ("+"%byte, exponent)
            end in
          let digits := drop (run_len (fun x => x =b "0"%byte) digits) digits in
          match push_bytes mantissa [] with
          | None => None
          | Some output =>
              match (if ends_with mantissa "."%byte then push_bytes ["0"%byte] output else Some output) with
              | None => None
              | Some output =>
                  match push_bytes ["E"%byte; sign] output with
                  | None => None
                  | Some output => push_bytes (if (length digits =? 0)%nat then ["0"%byte] else digits) output
                  end
              end
          end
      end
  end.

Definition render_float_to_php_bytes (value : f64) : option bytes :=
  if f64_is_nan value then push_bytes (lit "NAN") []
  else if f64_is_infinite value then
    push_bytes (if f64_is_sign_negative value then lit "-INF" else lit "INF") []
  else if precision =? 0 then push_bytes (fmt_fixed value 0) []
  else if precision =? -1 then push_bytes (fmt_display value) []
  else if negb (f64_eq value (S754_zero false)) then
    let abs := f64_abs value in
    if f64_ge abs (round_decimal false 1 (-4)) && f64_lt abs (round_decimal false 1 14)
    then render_php_decimal_float value
    else render_php_scientific_float value
  else push_bytes (if f64_is_sign_negative value then lit "-0" else lit "0") [].

(** Neither [expect] may fail: the capacity is sufficient and the text is UTF-8. *)
Definition float_to_php_string (value : f64) : outcome bytes :=
  match render_float_to_php_bytes value with
  | Some text => if utf8_valid text then Ret text else Panic
  | None => Panic
  end.
End Render.

(** The values of the unit tests of [convert.rs]. *)
#[export] Instance test_env : FloatEnv := {
  precision := 14; log10_floor x := decimal_exponent x; powf x _ := x }.
Definition test_float (l : string) : outcome bytes :=
  match parse_f64 (lit l) with Some x => float_to_php_string x | None => Panic end.

Example rendered_values :
  (test_float <$> ["1.75"; "1.7000000000000002"; "0.043478260869565216"; "0.0005995246616609"; "1e-10";
                   "-1.5e300"; "inf"; "-inf"; "nan"; "-0.0"; "123456789012345678"; "100000"])%string =
  (fun s => Ret (lit s)) <$> ["1.75"; "1.7"; "0.043478260869565"; "0.0005995246616609"; "1.0E-10";
                   "-1.5E+300"; "INF"; "-INF"; "NAN"; "-0"; "1.2345678901235E+17"; "100000"]%string.
Proof. vm_compute. reflexivity. Qed.

Example displayed_values :
  ((fun s => fmt_display <$> parse_f64 (lit s)) <$> ["2.718281828459045"; "1e23"; "0.1"; "-5e-324"; "9007199254740993"])%string =
  [Some (lit "2.718281828459045"); Some (lit "100000000000000000000000"); Some (lit "0.1");
   Some (lit "-0." ++ zeros 323 ++ lit "5"); Some (lit "9007199254740992")].
Proof. vm_compute. reflexivity. Qed.
Example precision_zero :
  ((fun s => flip fmt_fixed 0%nat <$> parse_f64 (lit s)) <$> ["1.75"; "2.5"; "-0.4"])%string =
  [Some (lit "2"); Some (lit "2"); Some (lit "-0")].
Proof. vm_compute. reflexivity. Qed.

(** ** The buffer is large enough *)

Lemma canonical_length l k :
  canonical_digits l -> digits_val l < 10 ^ k -> 1 <= k -> Z.of_nat (length l) <= k.
Proof.
  intros (Hd & Hne & Hz) Hv Hk. destruct l as [|x [|y l]]; [cbn; lia..|].
  specialize (Hz ltac:(cbn; lia)). cbn [forallb] in Hd. apply andb_true_iff in Hd as [Hx Hl].
  change (x :: y :: l) with ([x] ++ (y :: l)) in Hv. unfold digits_val in Hv.
  rewrite fold_left_app, fold_digits_app in Hv. cbn [fold_left] in Hv.
  pose proof (digits_val_bound (y :: l) Hl) as Hb. pose proof (digit_val_range _ Hx).
  assert (digit_val x <> 0) as Hx0.
  { intros E. apply Hz. cbn. f_equal. by rewrite <- (digit_val_byte x Hx), E. }
  assert (10 ^ Z.of_nat (length (y :: l)) < 10 ^ k) as Hlt.
  { pose proof (Z.pow_pos_nonneg 10 (Z.of_nat (length (y :: l)))). nia. }
  apply Z.pow_lt_mono_r_iff in Hlt; [|lia..]. cbn [length] in *. lia.
Qed.

Lemma dec_digits_length fuel n k :
  0 <= n < 10 ^ k -> 1 <= k <= Z.of_nat fuel -> Z.of_nat (length (dec_digits fuel n [])) <= k.
Proof.
  intros Hn Hk. destruct (dec_digits_canonical fuel n []) as (l & -> & Hc & Hv & _).
  { split; [lia|]. apply (Z.lt_le_trans _ (10 ^ k)); [lia|]. apply Z.pow_le_mono_r; lia. }
  { lia. }
  rewrite app_nil_r. apply canonical_length; [done|lia..].
Qed.

Lemma fixed_point_length n d k :
  0 <= n < 10 ^ k -> 1 <= k <= 400 ->
  Z.of_nat (length (fixed_point n d)) <= Z.max k (Z.of_nat d + 1) + 1.
Proof.
  intros Hn Hk. pose proof (dec_digits_length 400 n k Hn ltac:(lia)) as Hl.
  unfold fixed_point, decimal_digits, zeros. set (l := dec_digits 400 n []) in *.
  assert (length (repeat "0"%byte (S d - length l) ++ l) <= Nat.max (length l) (S d))%nat as Hp.
  { rewrite length_app, repeat_length. lia. }
  rewrite length_app, length_take. destruct (d =? 0)%nat; cbn [length]; rewrite ?length_drop; lia.
Qed.

Lemma div_half_even_bound a b c : 0 <= a -> 0 < b -> a < b * c -> 0 <= div_half_even a b <= c.
Proof.
  intros Ha Hb Hc. unfold div_half_even.
  assert (0 <= a / b < c) as Hq by (split; [apply Z.div_pos; lia | apply Z.div_lt_upper_bound; lia]).
  repeat case_match; lia.
Qed.

Lemma scaled_bound x : valid x -> Z.abs (scaled x) < 2 ^ 1024 * 2 ^ 1074.
Proof.
  intros Hx. destruct x as [s|s| |s m e]; cbn [scaled]; [by vm_compute..|].
  apply valid_finite in Hx as (He & Hm & _).
  replace (Z.abs (cond_Zopp s (Zpos m * 2 ^ (e + 1074)))) with (Zpos m * 2 ^ (e + 1074)).
  - apply (Z.lt_le_trans _ (2 ^ 53 * 2 ^ (e + 1074))).
    + apply Z.mul_lt_mono_pos_r; [apply Z.pow_pos_nonneg|]; lia.
    + rewrite <- !Z.pow_add_r by lia. apply Z.pow_le_mono_r; lia.
  - assert (0 <= Zpos m * 2 ^ (e + 1074)) by (apply Z.mul_nonneg_nonneg; [|apply Z.pow_nonneg]; lia).
    destruct s; cbn [cond_Zopp]; lia.
Qed.

Lemma two_1024 : 2 ^ 1024 < 10 ^ 309.
Proof. by vm_compute. Qed.

Lemma fmt_fixed_length x d :
  valid x -> (d <= 60)%nat -> (length (fmt_fixed x d) <= 372)%nat.
Proof.
  intros Hx Hd. unfold fmt_fixed. rewrite length_app.
  assert (length (sign_text (f64_is_sign_negative x)) <= 1)%nat by (unfold sign_text; case_match; cbn; lia).
  set (n := div_half_even _ _). assert (0 <= n < 10 ^ 369) as Hn.
  { pose proof (scaled_bound x Hx). pose proof two_1024. pose proof (Z.pow_pos_nonneg 10 (Z.of_nat d)).
    destruct (div_half_even_bound (Z.abs (scaled x) * 10 ^ Z.of_nat d) (2 ^ 1074) (2 ^ 1024 * 10 ^ Z.of_nat d)).
    - lia.
    - lia.
    - rewrite Z.mul_assoc, (Z.mul_comm (2 ^ 1074)). apply Z.mul_lt_mono_pos_r; lia.
    - split; [done|]. apply (Z.le_lt_trans _ (2 ^ 1024 * 10 ^ Z.of_nat d)); [done|].
      apply (Z.lt_le_trans _ (10 ^ 309 * 10 ^ Z.of_nat d)); [apply Z.mul_lt_mono_pos_r; lia|].
      rewrite <- Z.pow_add_r by lia. apply Z.pow_le_mono_r; lia. }
  pose proof (fixed_point_length n d 369 Hn ltac:(lia)). lia.
Qed.

(** [decimal_exponent] is not too small for the value, and within the range of
    doubles. *)
Lemma decimal_exponent_spec x :
  valid x -> scaled x <> 0 ->
  Z.abs (scaled x) * 10 ^ 400 < 2 ^ 1074 * 10 ^ (decimal_exponent x + 401) /\
  -324 <= decimal_exponent x <= 308.
Proof.
  intros Hx Hn. unfold decimal_exponent. set (T := Z.abs (scaled x) * 10 ^ 400 / 2 ^ 1074).
  assert (0 <= T < 10 ^ 709) as HT.
  { pose proof (scaled_bound x Hx). pose proof two_1024. split; [apply Z.div_pos; lia|].
    apply Z.div_lt_upper_bound; lia. }
  assert (10 ^ 76 <= T) as HT'.
  { apply (Z.le_trans _ (1 * 10 ^ 400 / 2 ^ 1074)); [by vm_compute|]. apply Z.div_le_mono; lia. }
  destruct (dec_digits_canonical 800 T []) as (l & -> & Hc & Hv & _).
  { split; [lia|]. apply (Z.lt_trans _ (10 ^ 709)); [lia|]. by vm_compute. }
  { lia. }
  rewrite app_nil_r. pose proof (canonical_length l 709 Hc ltac:(lia) ltac:(lia)) as Hu.
  destruct Hc as (Hd & _). pose proof (digits_val_bound l Hd) as Hb. rewrite Hv in Hb.
  assert (76 < Z.of_nat (length l)) as Hlo.
  { apply (Z.pow_lt_mono_r_iff 10); lia. }
  split; [|lia]. replace (Z.of_nat (length l) - 401 + 401) with (Z.of_nat (length l)) by lia.
  assert (Z.abs (scaled x) * 10 ^ 400 < 2 ^ 1074 * (T + 1)) as H1.
  { pose proof (Z.mul_succ_div_gt (Z.abs (scaled x) * 10 ^ 400) (2 ^ 1074) ltac:(lia)). subst T. lia. }
  lia.
Qed.

Lemma shifted_bound x e :
  valid x -> scaled x <> 0 -> e <= decimal_exponent x + 1 ->
  let '(a, b) := shifted x e in 0 <= a /\ 0 < b /\ a < b * 10 ^ (decimal_exponent x + 1 - e).
Proof.
  intros Hx Hn He. destruct (decimal_exponent_spec x Hx Hn) as [Hs Hk]. unfold shifted.
  set (k := decimal_exponent x) in *. destruct (0 <=? e) eqn:E.
  - apply Z.leb_le in E. split_and!; [lia|pose proof (Z.pow_pos_nonneg 10 e); lia|].
    rewrite <- Z.mul_assoc, <- Z.pow_add_r by lia. replace (e + (k + 1 - e)) with (k + 1) by lia.
    replace (k + 401) with (k + 1 + 400) in Hs by lia. rewrite (Z.pow_add_r _ (k + 1)) in Hs by lia. lia.
  - apply Z.leb_gt in E. split_and!; [pose proof (Z.pow_pos_nonneg 10 (- e)); lia|lia|].
    apply (Z.mul_lt_mono_pos_r (10 ^ 400)); [lia|].
    replace (Z.abs (scaled x) * 10 ^ (- e) * 10 ^ 400) with (Z.abs (scaled x) * 10 ^ 400 * 10 ^ (- e)) by lia.
    replace (2 ^ 1074 * 10 ^ (k + 1 - e) * 10 ^ 400) with (2 ^ 1074 * 10 ^ (k + 401) * 10 ^ (- e)).
    + apply Z.mul_lt_mono_pos_r; [apply Z.pow_pos_nonneg; lia|done].
    + rewrite <- !Z.mul_assoc, <- !Z.pow_add_r by lia. do 2 f_equal. lia.
Qed.

Lemma print_i64_length n : (length (print_i64 n) <= 21)%nat.
Proof.
  assert (forall f m acc, (length (dec_digits f m acc) <= f + length acc)%nat) as H.
  { induction f as [|f IH]; intros m acc; cbn [dec_digits]; [lia|]. case_match; cbn [length]; [lia|].
    rewrite IH. cbn [length]. lia. }
  unfold print_i64. case_match; cbn [length]; specialize (H 20%nat); [specialize (H (- n) [])|specialize (H n [])];
    cbn [length] in H; lia.
Qed.

Lemma fmt_exp_length x d :
  valid x -> scaled x <> 0 -> (d <= 20)%nat -> (length (fmt_exp x d) <= 50)%nat.
Proof.
  intros Hx Hn Hd. unfold fmt_exp. pose proof (shifted_bound x (decimal_exponent x - Z.of_nat d) Hx Hn ltac:(lia)) as Hb.
  generalize dependent (decimal_exponent x). intros k Hb.
  destruct (shifted x _) as [a b]. destruct Hb as (Ha & Hb & Hab).
  replace (k + 1 - (k - Z.of_nat d)) with (Z.of_nat d + 1) in Hab by lia.
  pose proof (div_half_even_bound a b _ Ha Hb Hab) as Hq. set (n := div_half_even a b) in *.
  assert (length (sign_text (f64_is_sign_negative x)) <= 1)%nat by (unfold sign_text; case_match; cbn; lia).
  pose proof (Z.pow_pos_nonneg 10 (Z.of_nat d + 1)).
  destruct (10 ^ (Z.of_nat d + 1) <=? n) eqn:E.
  - assert (0 <= n / 10 < 10 ^ (Z.of_nat d + 1)) as Hn'.
    { split; [apply Z.div_pos; lia | apply Z.div_lt_upper_bound; lia]. }
    pose proof (fixed_point_length _ d _ Hn' ltac:(lia)). pose proof (print_i64_length (k + 1)).
    rewrite !length_app. cbn [length]. lia.
  - apply Z.leb_gt in E. pose proof (fixed_point_length n d _ (conj (proj1 Hq) E) ltac:(lia)).
    pose proof (print_i64_length (k)). rewrite !length_app. cbn [length]. lia.
Qed.

(** The digits of a shortest decimal and its exponent. *)
Lemma shortest_candidate_bound x n m e :
  valid x -> scaled x <> 0 -> (1 <= n <= 17)%nat ->
  shortest_candidate x (decimal_exponent x) n = Some (m, e) ->
  0 <= m <= 10 ^ 17 /\ e = decimal_exponent x - Z.of_nat n + 1.
Proof.
  intros Hx Hn H1. unfold shortest_candidate.
  pose proof (shifted_bound x (decimal_exponent x - Z.of_nat n + 1) Hx Hn ltac:(lia)) as Hb.
  generalize dependent (decimal_exponent x). intros k Hb.
  destruct (shifted x _) as [a b]. destruct Hb as (Ha & Hb & Hab).
  replace (k + 1 - (k - Z.of_nat n + 1)) with (Z.of_nat n) in Hab by lia.
  assert (0 <= a / b < 10 ^ Z.of_nat n) as Hq.
  { split; [apply Z.div_pos; lia | apply Z.div_lt_upper_bound; lia]. }
  assert (10 ^ Z.of_nat n <= 10 ^ 17) as Hp by (apply Z.pow_le_mono_r; lia).
  intros E. repeat case_match; simplify_eq; lia.
Qed.

Lemma shortest_decimal_bound x n fuel m e :
  valid x -> scaled x <> 0 -> (n + fuel = 17)%nat -> (1 <= n)%nat ->
  shortest_decimal x (decimal_exponent x) n fuel = (m, e) ->
  0 <= m <= 10 ^ 17 /\ decimal_exponent x - 16 <= e <= decimal_exponent x.
Proof.
  intros Hx Hn. revert n. induction fuel as [|fuel IH]; intros n Hf H1; cbn [shortest_decimal].
  - pose proof (shifted_bound x (decimal_exponent x - 16) Hx Hn ltac:(lia)) as Hb.
    generalize dependent (decimal_exponent x). intros k Hb.
    destruct (shifted x _) as [a b]. destruct Hb as (Ha & Hb & Hab). intros [= <- <-].
    replace (k + 1 - (k - 16)) with 17 in Hab by lia.
    pose proof (div_half_even_bound a b _ Ha Hb Hab). lia.
  - destruct (shortest_candidate x (decimal_exponent x) n) as [[m' e']|] eqn:E; [|apply IH; lia].
    intros [= <- <-]. apply shortest_candidate_bound in E as [Hm ->]; [|done..|lia]. lia.
Qed.

Lemma fmt_display_length x : valid x -> (length (fmt_display x) <= 360)%nat.
Proof.
  intros Hx. unfold fmt_display. rewrite length_app.
  assert (length (sign_text (f64_is_sign_negative x)) <= 1)%nat by (unfold sign_text; case_match; cbn; lia).
  destruct (scaled x =? 0) eqn:E0; [cbn; lia|]. apply Z.eqb_neq in E0.
  destruct (decimal_exponent_spec x Hx E0) as [_ Hk].
  destruct (shortest_decimal x (decimal_exponent x) 1 16) as [m e] eqn:E.
  apply shortest_decimal_bound in E as [Hm He]; [|done..|lia].
  assert (0 <= m < 10 ^ 18) as Hm' by lia. destruct (0 <=? e) eqn:Ee.
  - pose proof (dec_digits_length 400 m 18 Hm' ltac:(lia)). apply Z.leb_le in Ee.
    unfold zeros, decimal_digits. rewrite length_app, repeat_length. lia.
  - apply Z.leb_gt in Ee. pose proof (fixed_point_length m (Z.to_nat (- e)) 18 Hm' ltac:(lia)). lia.
Qed.

(** ** The text is ASCII *)

Abbreviation ascii l := (Forall (fun x => is_ascii x = true) l).

Lemma ascii_forallb l : ascii l -> forallb is_ascii l = true.
Proof. induction 1 as [|x l Hx _ IH]; [done|]. cbn. by rewrite Hx, IH. Qed.

Lemma ascii_digits fuel n acc : ascii acc -> ascii (dec_digits fuel n acc).
Proof.
  revert n acc. induction fuel as [|fuel IH]; intros n acc Ha; [done|]. cbn [dec_digits].
  assert (ascii (digit_byte (n mod 10) :: acc)) as H'.
  { constructor; [|done]. destruct (digit_byte_val (n mod 10)) as [_ Hd]; [pose proof (Z.mod_pos_bound n 10); lia|].
    revert Hd. generalize (digit_byte (n mod 10)). by intros []. }
  case_match; [done|]. by apply IH.
Qed.

Lemma ascii_zeros n : ascii (zeros n).
Proof. induction n; repeat constructor; done. Qed.

Lemma ascii_sign s : ascii (sign_text s).
Proof. destruct s; repeat constructor. Qed.

Lemma ascii_fixed_point n d : ascii (fixed_point n d).
Proof.
  unfold fixed_point, decimal_digits. set (l := zeros _ ++ _). assert (ascii l) as Hl.
  { apply Forall_app. split; [apply ascii_zeros | by apply ascii_digits]. }
  clearbody l. apply Forall_app. split; [by apply Forall_take|]. case_match; [done|].
  constructor; [done|]. by apply Forall_drop.
Qed.

Lemma ascii_print n : ascii (print_i64 n).
Proof. unfold print_i64. case_match; [constructor; [done|]|]; by apply ascii_digits. Qed.

Lemma ascii_fixed x d : ascii (fmt_fixed x d).
Proof. apply Forall_app. split; [apply ascii_sign | apply ascii_fixed_point]. Qed.

Lemma ascii_exp x d : ascii (fmt_exp x d).
Proof.
  unfold fmt_exp. generalize (decimal_exponent x). intros k. destruct (shifted x _) as [a b].
  case_match. apply Forall_app. split; [apply ascii_sign|]. apply Forall_app.
  split; [apply ascii_fixed_point|]. constructor; [done | apply ascii_print].
Qed.

Lemma ascii_display x : ascii (fmt_display x).
Proof.
  apply Forall_app. split; [apply ascii_sign|]. generalize (decimal_exponent x). intros k.
  case_match; [repeat constructor|]. destruct (shortest_decimal x k 1 16) as [m e].
  case_match; [|apply ascii_fixed_point]. apply Forall_app. split; [by apply ascii_digits | apply ascii_zeros].
Qed.

Lemma trim_zeros_spec fuel l : ascii l -> ascii (trim_zeros fuel l) /\ (length (trim_zeros fuel l) <= length l)%nat.
Proof.
  revert l. induction fuel as [|fuel IH]; intros l Hl; [done|]. cbn [trim_zeros]. case_match; [|done].
  destruct (IH (take (length l - 1) l)) as [Ha Hn]; [by apply Forall_take|].
  split; [done|]. rewrite Hn, length_take. lia.
Qed.

(** ** The rendering never fails *)

(** The platform's logarithm is off by one power of ten at most. *)
Class FloatEnvLaws (env : FloatEnv) : Prop := {
  log10_close : forall x, valid x -> f64_is_sign_negative x = false -> scaled x <> 0 ->
    decimal_exponent x - 1 <= log10_floor x <= decimal_exponent x + 1 }.

(** A text that fits the buffer and is ASCII. *)
Definition fits (o : option bytes) : Prop := exists l, o = Some l /\ ascii l /\ (length l <= 384)%nat.

Lemma push_bytes_ok text output :
  (length output + length text <= 384)%nat -> push_bytes text output = Some (output ++ text).
Proof.
  intros Hl. unfold push_bytes, PHP_FLOAT_STRING_BUFFER_CAPACITY. by rewrite (proj2 (Nat.leb_le _ _)) by lia.
Qed.

Lemma push_fits text : ascii text -> (length text <= 384)%nat -> fits (push_bytes text []).
Proof. intros Ht Hl. rewrite push_bytes_ok by (cbn; lia). by exists text. Qed.

Lemma abs_facts x : valid x -> f64_is_finite x = true ->
  valid (f64_abs x) /\ f64_is_finite (f64_abs x) = true /\ scaled (f64_abs x) = Z.abs (scaled x) /\
  f64_is_sign_negative (f64_abs x) = false.
Proof.
  intros Hx Hf. destruct x as [s|s| |s m e]; try done. split_and!; [exact Hx|done| |done].
  cbn [f64_abs SFabs scaled cond_Zopp]. pose proof (magnitude_pos _ _ _ Hx). destruct s; cbn [cond_Zopp]; lia.
Qed.

Lemma log10_lower `{FloatEnvLaws} x :
  valid x -> f64_is_finite x = true -> f64_is_sign_negative x = false -> scaled x <> 0 ->
  f64_ge x (round_decimal false 1 (-4)) = true -> -7 <= log10_floor x.
Proof.
  intros Hx Hf Hsg Hn Hge. pose proof (log10_close x Hx Hsg Hn) as Hlog.
  destruct (decimal_exponent_spec x Hx Hn) as [Hlt Hk].
  assert (scaled (round_decimal false 1 (-4)) <= scaled x) as Hle.
  { unfold f64_ge, SFleb in Hge. rewrite compare_exact in Hge by (done || by vm_compute).
    apply Z.nlt_ge. intros Hc%Z.compare_gt_iff. by rewrite Hc in Hge. }
  generalize dependent (decimal_exponent x). intros k Hlog Hlt Hk.
  assert (2 ^ 1074 * 10 ^ 395 < 2 ^ 1074 * 10 ^ (k + 401)) as H1.
  { apply (Z.lt_trans _ (scaled (round_decimal false 1 (-4)) * 10 ^ 400)); [by vm_compute|].
    apply (Z.le_lt_trans _ (Z.abs (scaled x) * 10 ^ 400)); [|done].
    apply Z.mul_le_mono_nonneg_r; [by vm_compute|]. lia. }
  apply Z.mul_lt_mono_pos_l in H1; [|by vm_compute]. apply Z.pow_lt_mono_r_iff in H1; lia.
Qed.

Lemma decimal_fits `{FloatEnvLaws} x :
  valid x -> f64_is_finite x = true -> scaled x <> 0 ->
  f64_ge (f64_abs x) (round_decimal false 1 (-4)) = true -> fits (render_php_decimal_float x).
Proof.
  intros Hx Hf Hn Hge. destruct (abs_facts x Hx Hf) as (Hv & Hfin & Hs & Hsg).
  pose proof (log10_lower (f64_abs x) Hv Hfin Hsg ltac:(lia) Hge) as Hlog.
  unfold render_php_decimal_float. set (d := (_ - _ + _)%nat). assert (d <= 60)%nat as Hd.
  { subst d. repeat case_match; lia. }
  clearbody d. pose proof (fmt_fixed_length x d Hx Hd) as Hl. pose proof (ascii_fixed x d) as Ha.
  rewrite push_bytes_ok by (cbn [length]; lia). cbn [app]. generalize dependent (fmt_fixed x d). intros l Hl Ha.
  assert (ascii (lit "0") /\ (length (lit "0") <= 384)%nat) as Hz by (split; [repeat constructor|cbn; lia]).
  case_match; [by exists (lit "0")|]. destruct (trim_zeros_spec (length l) l Ha) as [Ht1 Ht2].
  set (out := if existsb _ l then _ else l). assert (ascii out /\ (length out <= 384)%nat) as Ho.
  { subst out. repeat case_match; (split; [|rewrite ?length_take; lia]); try done. by apply Forall_take. }
  clearbody out. eexists. split; [done|]. by case_match.
Qed.

(** The sign and the digits of an exponent. *)
Lemma exponent_parts l :
  ascii l -> exists sg ds,
    match l with
    | "+"%byte :: digits => ("+"%byte, digits)
    | "-"%byte :: digits => ("-"%byte, digits)
    | _ => ("+"%byte, l)
    end = (sg, ds) /\ is_ascii sg = true /\ ascii ds /\ (length ds <= length l)%nat.
Proof.
  intros Ha. destruct l as [|y r]; [by exists "+"%byte, []|]. assert (ascii r) as Hr by (by inversion Ha).
  destruct y; eexists _, _; (split; [reflexivity|split; [done|split; [done|cbn [length]; lia]]]).
Qed.

Lemma scientific_fits `{FloatEnv} x :
  valid x -> scaled x <> 0 -> fits (render_php_scientific_float x).
Proof.
  intros Hx Hn. unfold render_php_scientific_float. set (d := (_ - 1)%nat). assert (d <= 20)%nat as Hd by lia.
  clearbody d. pose proof (fmt_exp_length x d Hx Hn Hd) as Hl. pose proof (ascii_exp x d) as Ha.
  rewrite push_bytes_ok by (cbn [length]; lia). cbn [app]. generalize dependent (fmt_exp x d). intros l Hl Ha.
  destruct (position _ l) as [i|]; [|apply push_fits; [done|lia]].
  destruct (trim_zeros_spec i (take i l)) as [Ht1 Ht2]; [by apply Forall_take|]. rewrite length_take in Ht2.
  set (m := trim_zeros i (take i l)) in *. clearbody m.
  destruct (exponent_parts (drop (i + 1) l)) as (sg & ds & -> & Hsg & Hds & Hdl); [by apply Forall_drop|].
  rewrite length_drop in Hdl.
  set (ds' := drop _ ds). assert (ascii ds') as Hds' by (by apply Forall_drop).
  assert (length ds' <= 50)%nat as Hdl' by (unfold ds'; rewrite length_drop; lia). clearbody ds'.
  set (digits := if (length ds' =? 0)%nat then _ else _).
  assert (ascii digits /\ (length digits <= 50)%nat) as [Hg1 Hg2].
  { subst digits. case_match; [split; [by repeat constructor|cbn; lia]|done]. }
  clearbody digits. rewrite push_bytes_ok by (cbn [length]; lia). cbn [app].
  assert (forall o, ascii o -> (length o <= 51)%nat ->
    fits (match push_bytes ["E"%byte; sg] o with Some o => push_bytes digits o | None => None end)) as Hend.
  { intros o Ho Hol. rewrite push_bytes_ok by (cbn [length]; lia).
    rewrite push_bytes_ok by (rewrite length_app; cbn [length]; lia). eexists. split; [done|].
    split; [repeat (apply Forall_app; split; [|done])|rewrite !length_app; cbn [length]; lia].
    apply Forall_app. split; [done|]. by repeat constructor. }
  destruct (ends_with m "."%byte); [|apply Hend; [done|lia]].
  rewrite push_bytes_ok by (cbn [length]; lia). apply Hend; [|rewrite length_app; cbn [length]; lia].
  apply Forall_app. split; [done|]. by repeat constructor.
Qed.

Lemma render_fits `{FloatEnvLaws} x : valid x -> fits (render_float_to_php_bytes x).
Proof.
  intros Hx. unfold render_float_to_php_bytes.
  destruct (f64_is_nan x) eqn:E1; [apply push_fits; [repeat constructor|cbn; lia]|].
  destruct (f64_is_infinite x) eqn:E2; [case_match; (apply push_fits; [repeat constructor|cbn; lia])|].
  assert (f64_is_finite x = true) as Hf by (by destruct x).
  case_match; [apply push_fits; [apply ascii_fixed|pose proof (fmt_fixed_length x 0 Hx); lia]|].
  case_match; [apply push_fits; [apply ascii_display|pose proof (fmt_display_length x Hx); lia]|].
  destruct (f64_eq x (S754_zero false)) eqn:Ez; cbn [negb].
  - case_match; (apply push_fits; [repeat constructor|cbn; lia]).
  - assert (scaled x <> 0) as Hn.
    { intros E. unfold f64_eq, SFeqb in Ez. rewrite compare_exact in Ez by done.
      change (scaled (S754_zero false)) with 0 in Ez. by rewrite E in Ez. }
    destruct (f64_ge _ _ && _) eqn:Er; [|by apply scientific_fits]. apply andb_true_iff in Er as [Er _].
    by apply decimal_fits.
Qed.

Lemma float_text_returns `{FloatEnvLaws} x :
  valid x -> exists l, float_to_php_string x = Ret l /\ ascii l /\ (length l <= 384)%nat.
Proof.
  intros (l & E & Ha & Hl)%render_fits. exists l. split; [|done]. unfold float_to_php_string.
  by rewrite E, utf8_ascii by (by apply ascii_forallb).
Qed.

(** Every double has a PHP string under every precision setting: the text
    always fits the fixed buffer of 384 bytes and is ASCII, so neither of the
    [expect] calls in the rendering fails. *)
Theorem float_text_total `{FloatEnvLaws} x :
  valid x -> exists l, float_to_php_string x = Ret l /\ ascii l /\ (length l <= 384)%nat.
Proof. apply float_text_returns. Qed.

#[export] Instance test_env_laws : FloatEnvLaws test_env.
Proof. constructor. intros x _ _ _. cbn [log10_floor test_env]. generalize (decimal_exponent x). lia. Qed.

Lemma float_text_total_witness :
  exists l, float_to_php_string (S754_finite true 1 (-1074)) = Ret l /\ ascii l /\ (length l <= 384)%nat.
Proof. apply float_text_total. by vm_compute. Defined.
