(* ===== verification/PhpString.v ===== *)
(** * PhpString: shared byte strings with cached identity

    [php_runtime/src/runtime_memory.rs] ([CompactBytes]) and
    [php_runtime/src/string.rs] ([PhpString] and the symbol interner).  A string
    is a counted reference to one heap block: a header (reference count, cached
    hash, interned symbol) and the bytes behind it.  The heap is a finite map
    from addresses to blocks, so sharing, copy on write, freeing and the reuse of
    addresses are those of the code; a program is a sequence of the operations on
    the handles it owns.  The counters of [layout_stats] are left out. *)

From Stdlib Require Import Strings.String Strings.Byte.
From stdpp Require Import base list option numbers gmap fin_maps relations.
From S2P Require Import Prelude RustStd.

#[local] Open Scope N_scope.

#[export] Instance byte_countable : Countable byte :=
  inj_countable Byte.to_N Byte.of_N Byte.of_to_N.

(** The FNV-1a loop shared by [stable_hash_bytes] and the fingerprint of
    numeric strings: xor a byte in, multiply modulo [2^64]. *)
Definition wrapping_mul64 (x y : N) : N := (x * y) mod 2 ^ 64.
Definition fnv_step (hash : N) (x : byte) : N :=
  wrapping_mul64 (N.lxor hash (u8 x)) 0x00000100000001b3.
Definition fnv1a (l : bytes) : N := fold_left fnv_step l 0xcbf29ce484222325.

(** ** One heap block: [Header] and the bytes after it *)

Abbreviation addr := positive.

Record Header := mk_header {
  refcount : N;
  hash : N;
  symbol : N;
  tail : bytes;
}.

Abbreviation Heap := (gmap addr Header).

(** The global allocator hands out an address that no live block has; it may be
    one that was freed before. *)
Class Allocator := {
  alloc : Heap -> addr;
  alloc_fresh h : h !! alloc h = None;
}.

Definition NO_SYMBOL : N := 2 ^ 64 - 1.
Definition USIZE_MAX : N := 2 ^ 64 - 1.

Module CompactBytes.
Section CompactBytes.
Context {allocator : Allocator}.

(** Following a dangling pointer is undefined behaviour; it is [Panic] here, so
    that a theorem that an operation returns excludes it. *)
Definition header (a : addr) : SM Heap Header :=
  fun h => match h !! a with Some hd => Ret (hd, h) | None => Panic end.
Definition write_header (a : addr) (hd : Header) : SM Heap unit := modify <[a := hd]>.

Definition from_slice (l : bytes) : SM Heap addr :=
  fun h => let a := alloc h in Ret (a, <[a := mk_header 1 0 NO_SYMBOL l]> h).

(** The parts are copied one after the other into the new block. *)
Definition from_parts (parts : list bytes) : SM Heap addr :=
  fun h => let a := alloc h in
           Ret (a, <[a := mk_header 1 0 NO_SYMBOL (fold_left (fun t part => t ++ part) parts [])]> h).

Definition as_bytes (a : addr) : SM Heap bytes := bind (header a) (fun hd => ret (tail hd)).
Definition len (a : addr) : SM Heap nat := bind (header a) (fun hd => ret (length (tail hd))).
Definition is_empty (a : addr) : SM Heap bool :=
  bind (header a) (fun hd => ret (length (tail hd) =? 0)%nat).
Definition is_unique (a : addr) : SM Heap bool :=
  bind (header a) (fun hd => ret (refcount hd =? 1)).
Definition get_hash (a : addr) : SM Heap N := bind (header a) (fun hd => ret (hash hd)).
Definition set_hash (a : addr) (v : N) : SM Heap unit :=
  bind (header a) (fun hd => write_header a (mk_header (refcount hd) v (symbol hd) (tail hd))).
Definition get_symbol (a : addr) : SM Heap (option N) :=
  bind (header a) (fun hd => ret (if symbol hd =? NO_SYMBOL then None else Some (symbol hd))).
Definition set_symbol (a : addr) (s : option N) : SM Heap unit :=
  bind (header a) (fun hd =>
  write_header a (mk_header (refcount hd) (hash hd) (default NO_SYMBOL s) (tail hd))).
Definition ptr_eq (a b : addr) : bool := bool_decide (a = b).

(** The mutable slice of a block with one owner; what its borrower writes
    through it is the argument [l], of the same length. *)
Definition unique_bytes_mut (a : addr) (l : bytes) : SM Heap unit :=
  bind (is_unique a) (fun unique =>
  if unique then
    bind (header a) (fun hd => write_header a (mk_header (refcount hd) (hash hd) (symbol hd) l))
  else lift Panic).

(** A count at [usize::MAX] aborts the process. *)
Definition clone (a : addr) : SM Heap addr :=
  bind (header a) (fun hd =>
  if refcount hd =? USIZE_MAX then lift Panic
  else bind (write_header a (mk_header (refcount hd + 1) (hash hd) (symbol hd) (tail hd)))
            (fun _ => ret a)).

Definition drop (a : addr) : SM Heap unit :=
  bind (header a) (fun hd =>
  if 1 <? refcount hd
  then write_header a (mk_header (refcount hd - 1) (hash hd) (symbol hd) (tail hd))
  else modify (base.delete a)).
End CompactBytes.
End CompactBytes.

(** ** [PhpString] and the interner of the thread *)

Record SymbolInterner := mk_interner {
  symbols : gmap bytes addr;
  next : N;
  total_bytes : N;
}.

Record Thread := mk_thread { heap : Heap; interner : SymbolInterner }.

Definition on_heap {A} (m : SM Heap A) : SM Thread A :=
  fun t => obind (m (heap t)) (fun '(x, h) => Ret (x, mk_thread h (interner t))).
Definition set_interner (i : SymbolInterner) : SM Thread unit :=
  modify (fun t => mk_thread (heap t) i).

Definition stable_hash_bytes (l : bytes) : N := let hash := fnv1a l in if hash =? 0 then 1 else hash.

Module PhpString.
Section PhpString.
Context {allocator : Allocator}.

Definition from_bytes (l : bytes) : SM Thread addr := on_heap (CompactBytes.from_slice l).
Definition from_parts (parts : list bytes) : SM Thread addr :=
  on_heap (CompactBytes.from_parts parts).
Definition default_string : SM Thread addr := on_heap (CompactBytes.from_slice []).
Definition clone (a : addr) : SM Thread addr := on_heap (CompactBytes.clone a).
Definition drop (a : addr) : SM Thread unit := on_heap (CompactBytes.drop a).
Definition as_bytes (a : addr) : SM Thread bytes := on_heap (CompactBytes.as_bytes a).
Definition len (a : addr) : SM Thread nat := on_heap (CompactBytes.len a).
Definition is_empty (a : addr) : SM Thread bool := on_heap (CompactBytes.is_empty a).
Definition storage_id (a : addr) : addr := a.

Definition symbol_id (a : addr) : SM Thread (option N) :=
  bind (on_heap (CompactBytes.get_symbol a)) (fun raw => ret ((fun r => r mod 2 ^ 32) <$> raw)).

(** [PartialEq::eq]: pointer, then symbol, then bytes. *)
Definition eq (a b : addr) : SM Thread bool :=
  if CompactBytes.ptr_eq a b then ret true
  else
    bind (symbol_id a) (fun lhs => bind (symbol_id b) (fun rhs =>
    match lhs, rhs with
    | Some lhs, Some rhs => ret (lhs =? rhs)
    | _, _ => bind (as_bytes a) (fun x => bind (as_bytes b) (fun y => ret (bytes_eqb x y)))
    end)).

Definition stable_hash (a : addr) : SM Thread N :=
  bind (on_heap (CompactBytes.get_hash a)) (fun cached =>
  if negb (cached =? 0) then ret cached
  else
    bind (as_bytes a) (fun l =>
    let hash := stable_hash_bytes l in
    bind (on_heap (CompactBytes.set_hash a hash)) (fun _ => ret hash))).

Definition is_shared (a : addr) : SM Thread bool :=
  bind (on_heap (CompactBytes.is_unique a)) (fun unique => ret (negb unique)).
Definition shares_storage_with (a b : addr) : bool := CompactBytes.ptr_eq a b.

(** The handle afterwards is the result. *)
Definition separate_for_write (a : addr) : SM Thread addr :=
  bind (is_shared a) (fun shared =>
  bind (if shared then
          bind (as_bytes a) (fun l =>
          bind (on_heap (CompactBytes.from_slice l)) (fun a' =>
          bind (drop a) (fun _ => ret a')))
        else ret a) (fun a' =>
  bind (on_heap (CompactBytes.set_hash a' 0)) (fun _ =>
  bind (on_heap (CompactBytes.set_symbol a' None)) (fun _ => ret a')))).

(** [bytes_mut] and the write through the slice it returns. *)
Definition bytes_mut (a : addr) (l : bytes) : SM Thread addr :=
  bind (separate_for_write a) (fun a' =>
  bind (on_heap (CompactBytes.unique_bytes_mut a' l)) (fun _ => ret a')).

Definition into_bytes (a : addr) : SM Thread bytes :=
  bind (as_bytes a) (fun l => bind (drop a) (fun _ => ret l)).

Definition intern (l : bytes) : SM Thread addr :=
  bind (gets interner) (fun i =>
  match symbols i !! l with
  | Some existing => clone existing
  | None =>
      let sym := next i in
      bind (from_bytes l) (fun string =>
      bind (on_heap (CompactBytes.set_symbol string (Some sym))) (fun _ =>
      bind (clone string) (fun copy =>
      bind (set_interner (mk_interner (<[l := copy]> (symbols i)) ((next i + 1) mod 2 ^ 32)
                            (N.min (total_bytes i + N.of_nat (length l)) (2 ^ 64 - 1))))
        (fun _ => ret string))))
  end).

Definition symbol_interner_footprint : SM Thread (N * N) :=
  gets (fun t => (N.of_nat (size (symbols (interner t))), total_bytes (interner t))).
End PhpString.
End PhpString.

(** ** Programs

    The strings of a thread and the handles the program owns.  A step runs one
    operation on owned handles; a handle that is consumed leaves the list. *)

Record World := mk_world { thread : Thread; handles : list addr }.

Definition initial : World := mk_world (mk_thread ∅ (mk_interner ∅ 0 0)) [].

(** The bytes a handle stands for. *)
Definition content (t : Thread) (a : addr) : option bytes := tail <$> heap t !! a.

Section Programs.
Context {allocator : Allocator}.

Inductive step : World -> World -> Prop :=
| step_from_bytes t hs l a t' :
    PhpString.from_bytes l t = Ret (a, t') ->
    step (mk_world t hs) (mk_world t' (a :: hs))
| step_from_parts t hs parts a t' :
    PhpString.from_parts parts t = Ret (a, t') ->
    step (mk_world t hs) (mk_world t' (a :: hs))
| step_intern t hs l a t' :
    PhpString.intern l t = Ret (a, t') ->
    step (mk_world t hs) (mk_world t' (a :: hs))
| step_clone t hs a b t' :
    a ∈ hs ->
    PhpString.clone a t = Ret (b, t') ->
    step (mk_world t hs) (mk_world t' (b :: hs))
| step_drop t hs a hs' t' :
    hs ≡ₚ a :: hs' ->
    PhpString.drop a t = Ret (tt, t') ->
    step (mk_world t hs) (mk_world t' hs')
| step_stable_hash t hs a v t' :
    a ∈ hs ->
    PhpString.stable_hash a t = Ret (v, t') ->
    step (mk_world t hs) (mk_world t' hs)
| step_separate t hs a hs' b t' :
    hs ≡ₚ a :: hs' ->
    PhpString.separate_for_write a t = Ret (b, t') ->
    step (mk_world t hs) (mk_world t' (b :: hs'))
| step_write t hs a hs' l b t' :
    hs ≡ₚ a :: hs' ->
    length <$> content t a = Some (length l) ->
    PhpString.bytes_mut a l t = Ret (b, t') ->
    step (mk_world t hs) (mk_world t' (b :: hs')).

Definition reachable : World -> Prop := rtc step initial.
End Programs.

(** ** The invariant

    Every owner of a block, in the program or in the interner, is counted; the
    cached hash is the hash of the bytes; a symbol belongs to the interned copy
    of its name.  Symbols are distinct while at most [2^32] names have been
    interned. *)

Definition cnt (a : addr) (l : list addr) : N := N.of_nat (length (filter (eq a) l)).

Definition owners (t : Thread) (hs : list addr) : list addr :=
  hs ++ (map_to_list (symbols (interner t))).*2.

Record block_ok (i : SymbolInterner) (a : addr) (hd : Header) : Prop := {
  hash_ok : hash hd = 0 \/ hash hd = stable_hash_bytes (tail hd);
  symbol_ok : symbol hd = NO_SYMBOL \/ (symbols i !! tail hd = Some a /\ symbol hd < 2 ^ 32);
}.

Record thread_ok (t : Thread) (hs : list addr) : Prop := {
  counts_ok a hd : heap t !! a = Some hd -> refcount hd = cnt a (owners t hs) /\ 0 < refcount hd;
  owners_ok a : a ∈ owners t hs -> is_Some (heap t !! a);
  blocks_ok a hd : heap t !! a = Some hd -> block_ok (interner t) a hd;
  entries_ok l a : symbols (interner t) !! l = Some a ->
    exists hd, heap t !! a = Some hd /\ tail hd = l /\ symbol hd <> NO_SYMBOL;
  next_ok : next (interner t) = N.of_nat (size (symbols (interner t))) mod 2 ^ 32;
  distinct_ok : N.of_nat (size (symbols (interner t))) <= 2 ^ 32 ->
    forall a b hda hdb, heap t !! a = Some hda -> heap t !! b = Some hdb ->
    symbol hda <> NO_SYMBOL -> symbol hdb <> NO_SYMBOL ->
    symbol hda < N.of_nat (size (symbols (interner t))) /\
    (symbol hda = symbol hdb -> a = b);
}.

#[export] Instance cnt_Permutation a : Proper (Permutation ==> Logic.eq) (cnt a).
Proof. intros l l' E. unfold cnt. by rewrite E. Qed.

Lemma cnt_cons a b l : cnt a (b :: l) = (if bool_decide (a = b) then 1 else 0) + cnt a l.
Proof.
  unfold cnt. rewrite filter_cons. case_bool_decide as E; case_decide; try done; simpl; lia.
Qed.

Lemma cnt_pos a l : a ∈ l <-> 0 < cnt a l.
Proof.
  unfold cnt. split.
  - intros H. assert (a ∈ filter (eq a) l) as H' by (by apply list_elem_of_filter).
    destruct (filter _ l); [by apply not_elem_of_nil in H' | simpl; lia].
  - destruct (filter (eq a) l) as [|b l'] eqn:E; [simpl; lia|]. intros _.
    assert (b ∈ filter (eq a) l) as [<- H]%list_elem_of_filter by (rewrite E; by left). done.
Qed.

Lemma cnt_app a l1 l2 : cnt a (l1 ++ l2) = cnt a l1 + cnt a l2.
Proof. unfold cnt. rewrite filter_app, length_app. lia. Qed.

#[export] Instance thread_ok_Permutation t : Proper (Permutation ==> iff) (thread_ok t).
Proof.
  assert (forall hs hs', hs ≡ₚ hs' -> thread_ok t hs -> thread_ok t hs') as H.
  { intros hs hs' E [Hc Ho Hb He Hn Hd].
    assert (owners t hs ≡ₚ owners t hs') as Eo by (unfold owners; by rewrite E).
    split; try done.
    - intros a hd Ea. rewrite <- Eo. eauto.
    - intros a Ha. apply Ho. by rewrite Eo. }
  intros hs hs' E. split; by apply H.
Qed.

(** Changing the count or the cached hash of one block. *)
Lemma update_ok t hs hs' a hd hd' :
  thread_ok t hs -> heap t !! a = Some hd ->
  tail hd' = tail hd -> symbol hd' = symbol hd ->
  hash hd' = hash hd \/ hash hd' = stable_hash_bytes (tail hd) ->
  refcount hd' = cnt a (owners t hs') -> 0 < refcount hd' ->
  (forall b, b <> a -> cnt b (owners t hs') = cnt b (owners t hs)) ->
  thread_ok (mk_thread (<[a := hd']> (heap t)) (interner t)) hs'.
Proof.
  intros [Hc Ho Hb He Hn Hd] Ha Et Es Eh Er Hpos Hcnt.
  split; cbn [heap interner]; [..| done |].
  - intros b hdb [[-> <-]|[Hne Eb]]%lookup_insert_Some; [done|].
    change (owners (mk_thread _ _) hs') with (owners t hs'). rewrite Hcnt by done. eauto.
  - intros b Hb'. apply lookup_insert_is_Some. destruct (decide (a = b)); [by left|right].
    split; [done|]. apply Ho, cnt_pos. rewrite <- Hcnt by done. by apply cnt_pos.
  - intros b hdb [[-> <-]|[Hne Eb]]%lookup_insert_Some; [|eauto].
    destruct (Hb _ _ Ha) as [Hh Hs]. split; [|by rewrite Et, Es].
    rewrite Et. destruct Eh as [-> | ->]; [done | by right].
  - intros l b Eb. destruct (He _ _ Eb) as (hdb & Eb' & Et' & Es').
    destruct (decide (a = b)) as [<-|Hne].
    + exists hd'. rewrite lookup_insert_eq, Et, Es. naive_solver.
    + exists hdb. by rewrite lookup_insert_ne.
  - intros Hsz b c hdb hdc.
    assert (forall x hdx, <[a:=hd']> (heap t) !! x = Some hdx ->
              exists hdx', heap t !! x = Some hdx' /\ symbol hdx = symbol hdx') as Hx.
    { intros x hdx [[-> <-]|[? ?]]%lookup_insert_Some; eauto. }
    intros (hdb' & Eb & ->)%Hx (hdc' & Ec & ->)%Hx. by apply Hd.
Qed.

Lemma insert_fresh_owner t hs a :
  thread_ok t hs -> heap t !! a = None -> cnt a (owners t hs) = 0.
Proof.
  intros Hok Ha. destruct (decide (a ∈ owners t hs)) as [Hin|Hin].
  - apply (owners_ok _ _ Hok) in Hin. rewrite Ha in Hin. by destruct Hin.
  - pose proof (cnt_pos a (owners t hs)). destruct (cnt a (owners t hs)); [done|].
    exfalso. apply Hin, H. lia.
Qed.

(** A new block with one owner, which the interner does not know. *)
Lemma alloc_ok t hs a l :
  thread_ok t hs -> heap t !! a = None ->
  thread_ok (mk_thread (<[a := mk_header 1 0 NO_SYMBOL l]> (heap t)) (interner t)) (a :: hs).
Proof.
  intros Hok Ha. pose proof (insert_fresh_owner _ _ _ Hok Ha) as H0.
  destruct Hok as [Hc Ho Hb He Hn Hd].
  assert (forall b, cnt b (owners t (a :: hs)) = (if bool_decide (b = a) then 1 else 0) + cnt b (owners t hs))
    as Hcnt by (intros b; apply cnt_cons).
  split; cbn [heap interner]; [..| done |].
  - intros b hdb [[<- <-]|[Hne Eb]]%lookup_insert_Some;
      change (owners (mk_thread _ _) ?x) with (owners t x); rewrite Hcnt.
    + rewrite bool_decide_true, H0 by done. cbn [refcount]. lia.
    + rewrite bool_decide_false by congruence. rewrite N.add_0_l. eauto.
  - intros b. change (owners (mk_thread _ _) ?x) with (owners t x).
    intros [->|Hin]%elem_of_cons; [by rewrite lookup_insert_eq|].
    apply lookup_insert_is_Some. destruct (decide (a = b)); [by left|]. right. eauto.
  - intros b hdb [[<- <-]|[Hne Eb]]%lookup_insert_Some; [|eauto]. split; by left.
  - intros k b Eb. destruct (He _ _ Eb) as (hdb & Eb' & ?). exists hdb.
    rewrite lookup_insert_ne by congruence. done.
  - intros Hsz b c hdb hdc [[<- <-]|[? Eb]]%lookup_insert_Some
      [[<- <-]|[? Ec]]%lookup_insert_Some ? ?; try done. by apply Hd.
Qed.

(** A block the interner knows has two owners, so a block with one owner that a
    handle owns has no symbol. *)
Lemma entry_owner t l a : symbols (interner t) !! l = Some a ->
  0 < cnt a ((map_to_list (symbols (interner t))).*2).
Proof.
  intros E. apply cnt_pos, list_elem_of_fmap. exists (l, a).
  split; [done | by apply elem_of_map_to_list].
Qed.

Lemma lone_symbol t hs hs' a hd :
  thread_ok t hs -> hs ≡ₚ a :: hs' -> heap t !! a = Some hd -> refcount hd = 1 ->
  symbol hd = NO_SYMBOL /\ a ∉ owners t hs'.
Proof.
  intros Hok E Ha Hr. rewrite E in Hok. destruct (counts_ok _ _ Hok _ _ Ha) as [Hc _].
  unfold owners in Hc. cbn [app] in Hc. rewrite cnt_cons, bool_decide_true in Hc by done.
  fold (owners t hs') in Hc. split.
  - destruct (symbol_ok _ _ _ (blocks_ok _ _ Hok _ _ Ha)) as [|[Hs _]]; [done|].
    apply entry_owner in Hs. unfold owners in Hc. rewrite cnt_app in Hc. lia.
  - rewrite cnt_pos. lia.
Qed.

(** Dropping the last owner frees the block. *)
Lemma delete_ok t hs hs' a hd :
  thread_ok t hs -> hs ≡ₚ a :: hs' -> heap t !! a = Some hd -> refcount hd = 1 ->
  thread_ok (mk_thread (base.delete a (heap t)) (interner t)) hs'.
Proof.
  intros Hok E Ha Hr. destruct (lone_symbol _ _ _ _ _ Hok E Ha Hr) as [Hs Hnin].
  rewrite E in Hok. destruct Hok as [Hc Ho Hb He Hn Hd].
  assert (forall b, b <> a -> cnt b (owners t (a :: hs')) = cnt b (owners t hs')) as Hcnt.
  { intros b Hne. unfold owners. cbn [app]. rewrite cnt_cons, bool_decide_false by done. lia. }
  split; cbn [heap interner]; [..| done |].
  - intros b hdb [Hne Eb]%lookup_delete_Some. change (owners (mk_thread _ _) ?x) with (owners t x).
    rewrite <- Hcnt by congruence. eauto.
  - intros b Hin. change (owners (mk_thread _ _) ?x) with (owners t x) in Hin.
    rewrite lookup_delete_ne by (intros <-; contradiction). apply Ho. by right.
  - intros b hdb [Hne Eb]%lookup_delete_Some. eauto.
  - intros l b Eb. destruct (He _ _ Eb) as (hdb & ? & ? & ?). exists hdb.
    rewrite lookup_delete_ne; [done|]. intros <-. congruence.
  - intros Hsz b c hdb hdc [? ?]%lookup_delete_Some [? ?]%lookup_delete_Some. by apply Hd.
Qed.

(** A block with one owner may be rewritten once its cached cells are cleared. *)
Lemma rewrite_ok t hs hs' a hd l :
  thread_ok t hs -> hs ≡ₚ a :: hs' -> heap t !! a = Some hd -> refcount hd = 1 ->
  thread_ok (mk_thread (<[a := mk_header 1 0 NO_SYMBOL l]> (heap t)) (interner t)) hs.
Proof.
  intros Hok E Ha Hr. pose proof (delete_ok _ _ _ _ _ Hok E Ha Hr) as Hdel.
  apply (alloc_ok _ _ a l) in Hdel; [|cbn; by rewrite lookup_delete_eq].
  cbn [heap interner] in Hdel. rewrite insert_delete_eq in Hdel. by rewrite E.
Qed.

(** A name that is interned for the first time: one owner is the program, the
    other the interner. *)
Lemma owners_intern t hs a l h n tb :
  symbols (interner t) !! l = None ->
  owners (mk_thread h (mk_interner (<[l := a]> (symbols (interner t))) n tb)) (a :: hs)
    ≡ₚ a :: a :: owners t hs.
Proof.
  intros El. unfold owners. cbn [interner symbols app].
  rewrite (map_to_list_insert (symbols (interner t)) l a El). cbn [fmap list_fmap].
  constructor. by rewrite Permutation_middle.
Qed.

Lemma intern_ok t hs a l tb :
  thread_ok t hs -> heap t !! a = None -> symbols (interner t) !! l = None ->
  thread_ok (mk_thread (<[a := mk_header 2 0 (next (interner t)) l]> (heap t))
               (mk_interner (<[l := a]> (symbols (interner t)))
                  ((next (interner t) + 1) mod 2 ^ 32) tb)) (a :: hs).
Proof.
  intros Hok Ha El. pose proof (insert_fresh_owner _ _ _ Hok Ha) as H0.
  destruct Hok as [Hc Ho Hb He Hn Hd].
  assert (Hlt : next (interner t) < 2 ^ 32) by (rewrite Hn; apply N.mod_lt; lia).
  assert (Hsz : size (<[l := a]> (symbols (interner t))) = S (size (symbols (interner t))))
    by (by apply map_size_insert_None).
  assert (Hsym : forall b hdb, heap t !! b = Some hdb -> symbol hdb <> NO_SYMBOL ->
            symbols (interner t) !! tail hdb = Some b).
  { intros b hdb Eb Hs. by destruct (symbol_ok _ _ _ (Hb _ _ Eb)) as [|[? _]]. }
  split; cbn [heap interner symbols next].
  - intros b hdb E. rewrite (owners_intern t hs a l _ _ _ El), !cnt_cons.
    apply lookup_insert_Some in E as [[<- <-]|[Hne Eb]].
    + rewrite !bool_decide_true, H0 by done. cbn [refcount]. lia.
    + rewrite !bool_decide_false, !N.add_0_l by congruence. eauto.
  - intros b. rewrite (owners_intern t hs a l _ _ _ El). intros Hin.
    apply lookup_insert_is_Some. destruct (decide (a = b)) as [|Hne]; [by left|right].
    rewrite !elem_of_cons in Hin. split; [done|]. apply Ho. naive_solver.
  - intros b hdb [[<- <-]|[Hne Eb]]%lookup_insert_Some.
    + split; [by left|right]. cbn [symbols tail symbol]. by rewrite lookup_insert_eq.
    + destruct (Hb _ _ Eb) as [Hh [Hs|[Hs Hs']]]; split; [done|by left|done|right].
      cbn [symbols]. rewrite lookup_insert_ne by congruence. done.
  - intros k b [[<- <-]|[Hne Eb]]%lookup_insert_Some.
    + eexists. rewrite lookup_insert_eq. split_and!; [done..|].
      cbn [symbol]. unfold NO_SYMBOL. lia.
    + destruct (He _ _ Eb) as (hdb & ? & ?). exists hdb.
      rewrite lookup_insert_ne by congruence. done.
  - rewrite Hsz, Hn, Nat2N.inj_succ, <- N.add_1_r, N.Div0.add_mod_idemp_l. done.
  - rewrite Hsz. intros Hle.
    rewrite N.mod_small in Hn by lia.
    intros b c hdb hdc [[<- <-]|[? Eb]]%lookup_insert_Some
      [[<- <-]|[? Ec]]%lookup_insert_Some Hsb Hsc; cbn [symbol] in *.
    + split; [lia|done].
    + destruct (Hd ltac:(lia) c c hdc hdc Ec Ec Hsc Hsc) as [? _]. split; [lia|]. intros E. lia.
    + destruct (Hd ltac:(lia) b b hdb hdb Eb Eb Hsb Hsb) as [? _]. split; [lia|]. intros E. lia.
    + destruct (Hd ltac:(lia) b c hdb hdc Eb Ec Hsb Hsc) as [? ?]. split; [lia|done].
Qed.

(** ** What each operation does

    [frame t t' hs]: the bytes of the handles [hs] are those they were. *)

Definition frame (t t' : Thread) (hs : list addr) : Prop :=
  forall b, b ∈ hs -> content t' b = content t b.

Lemma wp_returns {S A} (m : SM S A) s Q a s' : wp m s Q -> m s = Ret (a, s') -> Q a s'.
Proof. intros (a' & s'' & E & HQ) E'. rewrite E in E'. by injection E' as <- <-. Qed.

Lemma wp_on_heap {A} (m : SM Heap A) t Q :
  wp m (heap t) (fun x h => Q x (mk_thread h (interner t))) -> wp (on_heap m) t Q.
Proof. intros (x & h & E & HQ). exists x, (mk_thread h (interner t)). split; [|done]. unfold on_heap. by rewrite E. Qed.

Lemma wp_header a hd h Q : h !! a = Some hd -> Q hd h -> wp (CompactBytes.header a) h Q.
Proof. intros E HQ. exists hd, h. unfold CompactBytes.header. by rewrite E. Qed.

Lemma frame_insert t a hd hd' hs :
  heap t !! a = Some hd -> tail hd' = tail hd ->
  frame t (mk_thread (<[a := hd']> (heap t)) (interner t)) hs.
Proof.
  intros Ea Et b _. unfold content. cbn [heap].
  destruct (decide (a = b)) as [<-|].
  - rewrite lookup_insert_eq, Ea. cbn. by rewrite Et.
  - by rewrite lookup_insert_ne.
Qed.

Lemma frame_fresh t i a hd' hs :
  thread_ok t hs -> heap t !! a = None -> frame t (mk_thread (<[a := hd']> (heap t)) i) hs.
Proof.
  intros Hok Ea b Hb. unfold content. cbn [heap]. rewrite lookup_insert_ne; [done|].
  intros <-. destruct (owners_ok _ _ Hok a) as [? E]; [|by rewrite Ea in E].
  unfold owners. apply elem_of_app. by left.
Qed.

Ltac run_bind := first [apply wp_bind | apply wp_on_heap | eapply wp_header; [eassumption|]
                       | apply wp_ret | apply wp_modify | apply wp_gets].

Section Specs.
Context {allocator : Allocator}.

Lemma wp_from_bytes l t hs :
  thread_ok t hs ->
  wp (PhpString.from_bytes l) t (fun a t' =>
    thread_ok t' (a :: hs) /\ frame t t' hs /\ content t' a = Some l /\
    heap t !! a = None /\ interner t' = interner t).
Proof.
  intros Hok. pose proof (alloc_fresh (heap t)) as Hf. apply wp_on_heap.
  eexists _, _. split; [reflexivity|]. cbn [interner]. split_and!; [..|done].
  - by apply alloc_ok.
  - by apply frame_fresh.
  - unfold content. cbn [heap]. by rewrite lookup_insert_eq.
  - done.
Qed.

Lemma wp_clone a t hs :
  thread_ok t hs -> a ∈ owners t hs ->
  (forall hd, heap t !! a = Some hd -> refcount hd <> USIZE_MAX) ->
  wp (PhpString.clone a) t (fun b t' =>
    b = a /\ thread_ok t' (a :: hs) /\ frame t t' hs /\ content t' a = content t a /\
    interner t' = interner t).
Proof.
  intros Hok Ha Hroom. destruct (owners_ok _ _ Hok _ Ha) as [hd E].
  unfold PhpString.clone, CompactBytes.clone. run_bind. run_bind. run_bind.
  rewrite (proj2 (N.eqb_neq _ _)) by eauto. do 2 run_bind. run_bind.
  assert (frame t (mk_thread (<[a := mk_header (refcount hd + 1) (hash hd) (symbol hd) (tail hd)]>
            (heap t)) (interner t)) (a :: hs)) as Hfr by (by eapply frame_insert).
  cbn [interner]. split_and!; [done| |..|done].
  - destruct (counts_ok _ _ Hok _ _ E) as [Hc Hpos].
    eapply update_ok; [done..| by left | | cbn [refcount]; lia |]; cbn [refcount];
      unfold owners; cbn [app]; fold (owners t hs).
    + rewrite cnt_cons, bool_decide_true by done. lia.
    + intros b Hne. rewrite cnt_cons, bool_decide_false by done. lia.
  - intros b Hb. apply Hfr. by right.
  - apply Hfr. by left.
Qed.

Lemma wp_drop a t hs hs' :
  thread_ok t hs -> hs ≡ₚ a :: hs' ->
  wp (PhpString.drop a) t (fun _ t' => thread_ok t' hs' /\ frame t t' hs' /\ interner t' = interner t).
Proof.
  intros Hok E. destruct (owners_ok _ _ Hok a) as [hd Ea].
  { unfold owners. rewrite E. by left. }
  assert (thread_ok t (a :: hs')) as Hok' by (by rewrite <- E).
  destruct (counts_ok _ _ Hok' _ _ Ea) as [Hc Hpos].
  unfold owners in Hc. cbn [app] in Hc. rewrite cnt_cons, bool_decide_true in Hc by done.
  unfold PhpString.drop, CompactBytes.drop. run_bind. run_bind. run_bind.
  destruct (1 <? refcount hd) eqn:Hr; run_bind; cbn [interner]; (split_and!; [| |done]).
  - apply N.ltb_lt in Hr. eapply update_ok; [done..| by left | | cbn [refcount]; lia |]; cbn [refcount].
    + unfold owners. lia.
    + intros b Hne. unfold owners. cbn [app]. rewrite cnt_cons, bool_decide_false by done. lia.
  - by eapply frame_insert.
  - apply N.ltb_ge in Hr. eapply delete_ok; [done..|lia].
  - apply N.ltb_ge in Hr. intros b Hb. unfold content. cbn [heap].
    rewrite lookup_delete_ne; [done|]. intros <-.
    destruct (lone_symbol _ _ _ _ _ Hok E Ea) as [_ Hn]; [lia|]. apply Hn.
    unfold owners. apply elem_of_app. by left.
Qed.
End Specs.

Section Specs2.
Context {allocator : Allocator}.

Lemma wp_as_bytes a t l : content t a = Some l -> wp (PhpString.as_bytes a) t (fun x t' => x = l /\ t' = t).
Proof.
  unfold content. intros E. destruct (heap t !! a) as [hd|] eqn:Ea; [|done]. injection E as <-.
  unfold PhpString.as_bytes, CompactBytes.as_bytes. repeat run_bind. by destruct t.
Qed.

Lemma handle_block t hs a : thread_ok t hs -> a ∈ hs -> exists hd, heap t !! a = Some hd.
Proof.
  intros Hok Ha. destruct (owners_ok _ _ Hok a) as [hd E]; [|by exists hd].
  unfold owners. apply elem_of_app. by left.
Qed.

Lemma thread_eta t : mk_thread (heap t) (interner t) = t.
Proof. by destruct t. Qed.

Lemma wp_intern l t hs :
  thread_ok t hs ->
  (forall a hd, symbols (interner t) !! l = Some a -> heap t !! a = Some hd -> refcount hd <> USIZE_MAX) ->
  wp (PhpString.intern l) t (fun a t' =>
    thread_ok t' (a :: hs) /\ frame t t' hs /\ content t' a = Some l).
Proof.
  intros Hok Hroom. unfold PhpString.intern. run_bind. run_bind.
  destruct (symbols (interner t) !! l) as [a|] eqn:El.
  - destruct (entries_ok _ _ Hok _ _ El) as (hd & Ea & Et & _).
    eapply wp_conseq; [apply wp_clone; [done| |eauto]|].
    + unfold owners. apply elem_of_app. right. apply list_elem_of_fmap. exists (l, a).
      split; [done | by apply elem_of_map_to_list].
    + intros b t' (-> & Hok' & Hfr & Hc & _). split_and!; [done..|].
      rewrite Hc. unfold content. rewrite Ea. cbn. by rewrite Et.
  - pose proof (alloc_fresh (heap t)) as Hf. set (a := alloc (heap t)) in *.
    unfold PhpString.from_bytes, CompactBytes.from_slice, CompactBytes.set_symbol,
      PhpString.clone, CompactBytes.clone. fold a.
    exists a. eexists. split.
    { unfold bind, on_heap, CompactBytes.header, CompactBytes.write_header, modify, ret, set_interner.
      fold a. cbn [obind heap interner]. rewrite lookup_insert_eq. cbn [obind heap interner].
      rewrite lookup_insert_eq. cbn [obind heap interner refcount N.eqb USIZE_MAX]. reflexivity. }
    cbn [interner refcount hash tail symbol default]. rewrite !insert_insert_eq. split_and!.
    + by apply intern_ok.
    + by apply frame_fresh.
    + unfold content. cbn [heap]. by rewrite lookup_insert_eq.
Qed.

Lemma wp_stable_hash a t hs l :
  thread_ok t hs -> a ∈ hs -> content t a = Some l ->
  wp (PhpString.stable_hash a) t (fun v t' =>
    v = stable_hash_bytes l /\ thread_ok t' hs /\ frame t t' hs).
Proof.
  intros Hok Ha Hl. destruct (handle_block _ _ _ Hok Ha) as [hd E].
  assert (tail hd = l) as Et by (unfold content in Hl; rewrite E in Hl; by injection Hl).
  unfold PhpString.stable_hash, CompactBytes.get_hash. do 5 run_bind. rewrite thread_eta.
  destruct (hash hd =? 0) eqn:Eh; cbn [negb].
  - run_bind. eapply wp_conseq; [by apply wp_as_bytes|]. intros ? ? [-> ->].
    unfold CompactBytes.set_hash. do 4 run_bind. repeat run_bind.
    split; [done|]. destruct (counts_ok _ _ Hok _ _ E) as [Hc Hpos]. split.
    + eapply update_ok; try done. right. cbn [hash]. by rewrite Et.
    + by eapply frame_insert.
  - run_bind. split; [|done]. destruct (hash_ok _ _ _ (blocks_ok _ _ Hok _ _ E)) as [H|H].
    + by rewrite H in Eh.
    + by rewrite H, Et.
Qed.

(** A handle that is the only owner of a block with the bytes [l]. *)
Definition sole_copy (t : Thread) (hs' : list addr) (l : bytes) (b : addr) (t' : Thread) : Prop :=
  thread_ok t' (b :: hs') /\ frame t t' hs' /\ b ∉ hs' /\
  exists hd, heap t' !! b = Some hd /\ refcount hd = 1 /\ tail hd = l.

(** The branch of [separate_for_write] for a shared block. *)
Lemma wp_copy_shared a t hs hs' l :
  thread_ok t hs -> hs ≡ₚ a :: hs' -> content t a = Some l ->
  wp (bind (PhpString.as_bytes a) (fun l =>
      bind (on_heap (CompactBytes.from_slice l)) (fun a' =>
      bind (PhpString.drop a) (fun _ => ret a')))) t (sole_copy t hs' l).
Proof.
  intros Hok Ehs Hl. run_bind. eapply wp_conseq; [by apply wp_as_bytes|].
  intros ? ? [-> ->]. apply wp_bind. eapply wp_conseq; [by apply wp_from_bytes|].
  intros b t1 (Hok1 & Hfr1 & Hc1 & Hfresh & Ei1). apply wp_bind.
  eapply wp_conseq; [apply (wp_drop a t1 (b :: hs) (b :: hs')); [exact Hok1|]|].
  { rewrite Ehs. apply perm_swap. }
  intros _ t2 (Hok2 & Hfr2 & Ei2). apply wp_ret.
  assert (b ∉ hs') as Hb.
  { intros Hin. destruct (handle_block t hs b Hok) as [? Eb]; [rewrite Ehs; by right|].
    by rewrite Eb in Hfresh. }
  split_and!; [done| |done|].
  - intros c Hc. rewrite Hfr2 by (by right). apply Hfr1. rewrite Ehs. by right.
  - destruct (handle_block _ _ b Hok2) as [hd2 E2]; [by left|]. exists hd2.
    destruct (counts_ok _ _ Hok2 _ _ E2) as [Hr2 _].
    assert (cnt b (owners t2 hs') = 0) as H0.
    { pose proof (insert_fresh_owner _ _ _ Hok Hfresh) as H0. unfold owners in *.
      rewrite Ehs in H0. cbn [app] in H0. rewrite cnt_cons in H0. rewrite Ei2, Ei1. lia. }
    unfold owners in Hr2. cbn [app] in Hr2. fold (owners t2 hs') in Hr2.
    rewrite cnt_cons, bool_decide_true, H0 in Hr2 by done.
    assert (content t2 b = Some l) as Hc2 by (rewrite Hfr2; [done|by left]).
    unfold content in Hc2. rewrite E2 in Hc2. injection Hc2 as Hc2. by rewrite Hr2.
Qed.

(** After [separate_for_write] the handle is the only owner of its bytes, and no
    cached cell is set. *)
Lemma wp_separate a t hs hs' l :
  thread_ok t hs -> hs ≡ₚ a :: hs' -> content t a = Some l ->
  wp (PhpString.separate_for_write a) t (fun b t' =>
    thread_ok t' (b :: hs') /\ frame t t' hs' /\ b ∉ hs' /\
    heap t' !! b = Some (mk_header 1 0 NO_SYMBOL l)).
Proof.
  intros Hok Ehs Hl. destruct (handle_block _ _ a Hok) as [hd E]; [rewrite Ehs; by left|].
  assert (tail hd = l) as Et by (unfold content in Hl; rewrite E in Hl; by injection Hl).
  unfold PhpString.separate_for_write, PhpString.is_shared, CompactBytes.is_unique.
  do 6 run_bind. run_bind. rewrite thread_eta. apply wp_bind, (wp_conseq _ _ (sole_copy t hs' l)).
  - destruct (refcount hd =? 1) eqn:Er; cbn [negb]; [|by apply (wp_copy_shared _ _ hs)].
    run_bind. apply N.eqb_eq in Er. split_and!; [by rewrite <- Ehs|done| |by exists hd].
    intros Hin. destruct (lone_symbol _ _ _ _ _ Hok Ehs E Er) as [_ Hn]. apply Hn.
    unfold owners. apply elem_of_app. by left.
  - intros b t' (Hok' & Hfr & Hb & hd' & E' & Hr & Et').
    unfold CompactBytes.set_hash, CompactBytes.set_symbol.
    exists b. eexists. split.
    { unfold bind, on_heap, CompactBytes.header, CompactBytes.write_header, modify, ret.
      rewrite E'. cbn [obind heap interner]. rewrite lookup_insert_eq. cbn [obind]. reflexivity. }
    cbn [interner refcount hash tail symbol default heap]. rewrite insert_insert_eq, Hr, Et'.
    split_and!; [|..|done|by rewrite lookup_insert_eq].
    + by eapply rewrite_ok.
    + intros c Hc. unfold content. cbn [heap]. rewrite lookup_insert_ne by congruence.
      by apply Hfr.
Qed.

Lemma wp_bytes_mut a t hs hs' l l' :
  thread_ok t hs -> hs ≡ₚ a :: hs' -> content t a = Some l ->
  wp (PhpString.bytes_mut a l') t (fun b t' =>
    thread_ok t' (b :: hs') /\ frame t t' hs' /\ content t' b = Some l').
Proof.
  intros Hok Ehs Hl. unfold PhpString.bytes_mut. apply wp_bind.
  eapply wp_conseq; [by apply (wp_separate _ _ hs hs' l)|].
  intros b t' (Hok' & Hfr & Hb & E'). unfold CompactBytes.unique_bytes_mut, CompactBytes.is_unique.
  do 7 run_bind. cbn [refcount N.eqb Pos.eqb]. repeat run_bind.
  split_and!.
  - by eapply rewrite_ok.
  - intros c Hc. unfold content. cbn [heap]. rewrite lookup_insert_ne by congruence. by apply Hfr.
  - unfold content. cbn [heap]. by rewrite lookup_insert_eq.
Qed.
End Specs2.

(** ** Reachable worlds *)

Section Reachable.
Context {allocator : Allocator}.

Lemma initial_ok : thread_ok (thread initial) (handles initial).
Proof.
  split; cbn [initial thread handles heap interner symbols next].
  - intros a hd. by rewrite lookup_empty.
  - intros a. unfold owners. cbn. rewrite map_to_list_empty. by intros ?%not_elem_of_nil.
  - intros a hd. by rewrite lookup_empty.
  - intros l a. by rewrite lookup_empty.
  - by rewrite map_size_empty.
  - intros _ a b hda hdb. by rewrite lookup_empty.
Qed.

(** [clone] and [intern] return only when the count has room. *)
Lemma clone_room a t r hd :
  PhpString.clone a t = Ret r -> heap t !! a = Some hd -> refcount hd <> USIZE_MAX.
Proof.
  intros H E Emax. revert H. unfold PhpString.clone, CompactBytes.clone, on_heap, bind, CompactBytes.header.
  rewrite E. cbn [obind]. by rewrite Emax, N.eqb_refl.
Qed.

Lemma intern_room l a t r hd :
  PhpString.intern l t = Ret r -> symbols (interner t) !! l = Some a -> heap t !! a = Some hd ->
  refcount hd <> USIZE_MAX.
Proof.
  intros H El E. unfold PhpString.intern, bind at 1, gets in H. cbn [obind] in H.
  rewrite El in H. by eapply clone_room.
Qed.

Lemma content_handle t hs a : thread_ok t hs -> a ∈ hs -> exists l, content t a = Some l.
Proof. intros Hok Ha. destruct (handle_block _ _ _ Hok Ha) as [hd E]. exists (tail hd). unfold content. by rewrite E. Qed.

Lemma step_ok w w' : step w w' -> thread_ok (thread w) (handles w) -> thread_ok (thread w') (handles w').
Proof.
  destruct 1; cbn [thread handles]; intros Hok.
  - by apply (wp_returns _ _ _ _ _ (wp_from_bytes l t hs Hok)) in H as [? _].
  - change (PhpString.from_parts parts t) with
      (PhpString.from_bytes (fold_left (fun t part => t ++ part) parts []) t) in H.
    by apply (wp_returns _ _ _ _ _ (wp_from_bytes _ t hs Hok)) in H as [? _].
  - pose proof (fun b hd => intern_room l b t _ hd H) as Hroom.
    by apply (wp_returns _ _ _ _ _ (wp_intern l t hs Hok Hroom)) in H as [? _].
  - assert (a ∈ owners t hs) as Ha by (unfold owners; apply elem_of_app; by left).
    pose proof (fun hd => clone_room a t _ hd H0) as Hroom.
    by apply (wp_returns _ _ _ _ _ (wp_clone a t hs Hok Ha Hroom)) in H0 as [-> [? _]].
  - by apply (wp_returns _ _ _ _ _ (wp_drop a t hs hs' Hok H)) in H0 as [? _].
  - destruct (content_handle _ _ _ Hok H) as [l Hl].
    by apply (wp_returns _ _ _ _ _ (wp_stable_hash a t hs l Hok H Hl)) in H0 as [_ [? _]].
  - destruct (content_handle t hs a Hok) as [l Hl]; [rewrite H; by left|].
    by apply (wp_returns _ _ _ _ _ (wp_separate a t hs hs' l Hok H Hl)) in H0 as [? _].
  - destruct (content_handle t hs a Hok) as [l0 Hl]; [rewrite H; by left|].
    by apply (wp_returns _ _ _ _ _ (wp_bytes_mut a t hs hs' l0 l Hok H Hl)) in H1 as [? _].
Qed.

Lemma reachable_ok w : reachable w -> thread_ok (thread w) (handles w).
Proof.
  unfold reachable. generalize initial_ok. generalize initial. intros w0 H0 H.
  induction H as [|x y z Hs _ IH]; [done|]. apply IH. by eapply step_ok.
Qed.

(** A block has at most one name in the interner. *)
Lemma entries_once t hs a : thread_ok t hs -> cnt a ((map_to_list (symbols (interner t))).*2) <= 1.
Proof.
  intros Hok.
  assert (NoDup ((map_to_list (symbols (interner t))).*2)) as Hnd.
  { apply NoDup_fmap_2_strong; [|apply NoDup_map_to_list].
    intros [l1 a1] [l2 a2] H1 H2 E. cbn in E. subst a2. apply elem_of_map_to_list in H1, H2.
    destruct (entries_ok _ _ Hok _ _ H1) as (hd & Ea & Et & _).
    destruct (entries_ok _ _ Hok _ _ H2) as (hd' & Ea' & Et' & _). congruence. }
  revert Hnd. generalize ((map_to_list (symbols (interner t))).*2). intros l.
  induction 1 as [|b l Hb Hnd IH]; [by vm_compute|].
  rewrite cnt_cons. case_bool_decide as E; [subst b|lia].
  rewrite cnt_pos in Hb. lia.
Qed.

Lemma cnt_le_length a l : cnt a l <= N.of_nat (length l).
Proof. unfold cnt. pose proof (length_filter (eq a) l). lia. Qed.

Lemma refcount_bound t hs a hd :
  thread_ok t hs -> heap t !! a = Some hd -> refcount hd <= N.of_nat (length hs) + 1.
Proof.
  intros Hok E. destruct (counts_ok _ _ Hok _ _ E) as [-> _]. unfold owners. rewrite cnt_app.
  pose proof (entries_once t hs a Hok). pose proof (cnt_le_length a hs). lia.
Qed.

Lemma wp_string_eq a b t hs la lb :
  thread_ok t hs -> N.of_nat (size (symbols (interner t))) <= 2 ^ 32 ->
  content t a = Some la -> content t b = Some lb ->
  wp (PhpString.eq a b) t (fun r t' => r = bytes_eqb la lb /\ t' = t).
Proof.
  intros Hok Hsz Ha Hb. unfold PhpString.eq, CompactBytes.ptr_eq.
  case_bool_decide as Eab; [subst b|].
  { run_bind. rewrite Ha in Hb. injection Hb as <-. split; [|done]. symmetry. by apply bytes_eqb_eq. }
  pose proof Ha as Ha'. pose proof Hb as Hb'. unfold content in Ha', Hb'.
  destruct (heap t !! a) as [hda|] eqn:Ea; [|done]. destruct (heap t !! b) as [hdb|] eqn:Eb; [|done].
  injection Ha' as Eta. injection Hb' as Etb.
  unfold PhpString.symbol_id, CompactBytes.get_symbol. do 6 run_bind. rewrite thread_eta. run_bind.
  do 7 run_bind. rewrite thread_eta.
  assert (wp (bind (PhpString.as_bytes a) (fun x => bind (PhpString.as_bytes b)
            (fun y => ret (bytes_eqb x y)))) t (fun r t' => r = bytes_eqb la lb /\ t' = t)) as Hbytes.
  { run_bind. eapply wp_conseq; [by apply wp_as_bytes|]. intros ? ? [-> ->].
    run_bind. eapply wp_conseq; [by apply wp_as_bytes|]. intros ? ? [-> ->]. by run_bind. }
  destruct (symbol hda =? NO_SYMBOL) eqn:Ena; [done|]. destruct (symbol hdb =? NO_SYMBOL) eqn:Enb; [done|].
  cbn [fmap option_fmap option_map]. run_bind. split; [|done].
  apply N.eqb_neq in Ena, Enb.
  destruct (symbol_ok _ _ _ (blocks_ok _ _ Hok _ _ Ea)) as [|[Hsa Hla]]; [done|].
  destruct (symbol_ok _ _ _ (blocks_ok _ _ Hok _ _ Eb)) as [|[Hsb Hlb]]; [done|].
  rewrite !N.mod_small by done.
  destruct (distinct_ok _ _ Hok Hsz _ _ _ _ Ea Eb Ena Enb) as [_ Hinj].
  rewrite (proj2 (N.eqb_neq _ _)) by auto. symmetry. apply not_true_iff_false.
  rewrite bytes_eqb_eq. intros ->. congruence.
Qed.
End Reachable.

(** ** The claims *)

Section Claims.
Context {allocator : Allocator}.

(** C11: no program of string operations follows a dangling pointer, overflows a
    reference count or hits the assertion of [unique_bytes_mut]: in every
    reachable world each operation on an owned handle returns.  A block is live
    exactly as long as somebody owns it, so nothing leaks either. *)
Theorem string_programs_safe t hs :
  reachable (mk_world t hs) -> N.of_nat (length hs) + 1 < USIZE_MAX ->
  (forall a, is_Some (heap t !! a) <-> a ∈ owners t hs) /\
  (forall l, exists r, PhpString.intern l t = Ret r) /\
  (forall a, a ∈ hs ->
     (exists r, PhpString.clone a t = Ret r) /\
     (exists r, PhpString.drop a t = Ret r) /\
     (exists r, PhpString.into_bytes a t = Ret r) /\
     (exists r, PhpString.stable_hash a t = Ret r) /\
     (forall l, exists r, PhpString.bytes_mut a l t = Ret r)).
Proof.
  intros Hok%reachable_ok Hroom. cbn [thread handles] in Hok.
  assert (forall a hd, heap t !! a = Some hd -> refcount hd <> USIZE_MAX) as Hmax.
  { intros a hd E. pose proof (refcount_bound _ _ _ _ Hok E). lia. }
  assert (forall A (m : SM Thread A) Q, wp m t Q -> exists r, m t = Ret r) as Hret.
  { intros A m Q (x & t' & E & _). by exists (x, t'). }
  split_and!.
  - intros a. split; [|apply (owners_ok _ _ Hok)].
    intros [hd E]. apply cnt_pos. destruct (counts_ok _ _ Hok _ _ E). lia.
  - intros l. eapply Hret, wp_intern; eauto.
  - intros a Ha. destruct (content_handle _ _ _ Hok Ha) as [l Hl].
    apply elem_of_Permutation in Ha as [hs' E].
    assert (a ∈ hs) as Ha by (rewrite E; by left).
    split_and!.
    + eapply Hret, wp_clone; eauto. unfold owners. apply elem_of_app. by left.
    + by eapply Hret, wp_drop.
    + eapply Hret. unfold PhpString.into_bytes. apply wp_bind.
      eapply wp_conseq; [by apply wp_as_bytes|]. intros ? ? [-> ->]. apply wp_bind.
      eapply wp_conseq; [by eapply wp_drop|]. intros ? ? _. apply wp_ret. exact I.
    + by eapply Hret, wp_stable_hash.
    + intros l'. by eapply Hret, wp_bytes_mut.
Qed.

(** Equality is equality of the bytes and the hash is the hash of the bytes,
    whatever symbols and cached hashes the blocks carry, in every reachable world
    with at most [2^32] interned names. *)
Theorem string_identity_exact t hs a b la lb :
  reachable (mk_world t hs) -> N.of_nat (size (symbols (interner t))) <= 2 ^ 32 ->
  a ∈ hs -> b ∈ hs -> content t a = Some la -> content t b = Some lb ->
  PhpString.eq a b t = Ret (bool_decide (la = lb), t) /\
  exists t', PhpString.stable_hash a t = Ret (stable_hash_bytes la, t').
Proof.
  intros Hok%reachable_ok Hsz Ha Hb Hla Hlb. cbn [thread handles] in Hok. split.
  - destruct (wp_string_eq a b t hs la lb Hok Hsz Hla Hlb) as (r & t' & E & -> & ->). rewrite E.
    do 2 f_equal. case_bool_decide as Eb; [by apply bytes_eqb_eq|].
    apply not_true_iff_false. by rewrite bytes_eqb_eq.
  - destruct (wp_stable_hash a t hs la Hok Ha Hla) as (v & t' & E & -> & _). by exists t'.
Qed.

(** C10: writing through one handle changes the bytes of that handle only: every
    other handle of the program, clones of the same block and interned names
    included, keeps its bytes. *)
Theorem string_copy_on_write t hs a hs' l l' :
  reachable (mk_world t hs) -> hs ≡ₚ a :: hs' -> content t a = Some l -> length l' = length l ->
  exists b t', PhpString.bytes_mut a l' t = Ret (b, t') /\
    content t' b = Some l' /\
    (forall c, c ∈ hs' -> content t' c = content t c) /\
    (forall k c, symbols (interner t') !! k = Some c -> content t' c = Some k).
Proof.
  intros Hok%reachable_ok E Hl _. cbn [thread handles] in Hok.
  destruct (wp_bytes_mut a t hs hs' l l' Hok E Hl) as (b & t' & Er & Hok' & Hfr & Hc).
  exists b, t'. split_and!; [done..|].
  intros k c Ek. destruct (entries_ok _ _ Hok' _ _ Ek) as (hd & Ec & <- & _).
  unfold content. by rewrite Ec.
Qed.
End Claims.

(** ** A concrete allocator and a program *)

(** One above the highest live address. *)
Definition bump (h : Heap) : addr := map_fold (fun k _ m => Pos.max (k + 1) m) 1%positive h.

Lemma bump_above h : forall k hd, h !! k = Some hd -> (k < bump h)%positive.
Proof.
  unfold bump. induction h as [|i x m Hi Hf IH] using map_first_key_ind; [by intros k hd|].
  intros k hd. rewrite map_fold_insert_first_key by done.
  intros [[<- _]|[_ E]]%lookup_insert_Some; [lia|]. apply IH in E. lia.
Qed.

Lemma bump_fresh h : h !! bump h = None.
Proof.
  destruct (h !! bump h) eqn:E; [|done]. apply bump_above in E. lia.
Qed.

Definition bump_allocator : Allocator := {| alloc := bump; alloc_fresh := bump_fresh |}.

(** Intern a name, make a plain copy of it, and clone the copy. *)
Definition demo : outcome (list addr * Thread) :=
  bind (@PhpString.intern bump_allocator (lit "ab")) (fun a =>
  bind (@PhpString.from_bytes bump_allocator (lit "ab")) (fun b =>
  bind (PhpString.clone b) (fun c => ret [c; b; a]))) (thread initial).

Definition demo_thread : Thread :=
  match demo with Ret (_, t) => t | _ => thread initial end.

Lemma demo_reachable : @reachable bump_allocator (mk_world demo_thread [2; 2; 1]%positive).
Proof.
  eapply rtc_l; [eapply (@step_intern bump_allocator _ _ (lit "ab")); vm_compute; reflexivity|].
  eapply rtc_l; [eapply (@step_from_bytes bump_allocator _ _ (lit "ab")); vm_compute; reflexivity|].
  eapply rtc_l; [eapply (@step_clone bump_allocator _ _ 2%positive); [by left|vm_compute; reflexivity]|].
  vm_compute. constructor.
Qed.

Lemma string_programs_safe_witness :
  exists r, @PhpString.bytes_mut bump_allocator 2%positive (lit "zz") demo_thread = Ret r.
Proof.
  destruct (@string_programs_safe bump_allocator demo_thread [2; 2; 1]%positive demo_reachable)
    as (_ & _ & H); [by vm_compute|].
  apply H. by left.
Defined.

Lemma string_identity_exact_witness :
  PhpString.eq 2%positive 1%positive demo_thread = Ret (true, demo_thread).
Proof.
  apply (@string_identity_exact bump_allocator demo_thread [2; 2; 1]%positive 2%positive 1%positive
           (lit "ab") (lit "ab") demo_reachable).
  - by vm_compute.
  - by left.
  - by right; right; left.
  - by vm_compute.
  - by vm_compute.
Defined.

Lemma string_copy_on_write_witness :
  exists b t', @PhpString.bytes_mut bump_allocator 1%positive (lit "xy") demo_thread = Ret (b, t') /\
    content t' b = Some (lit "xy") /\
    (forall c, c ∈ [2; 2]%positive -> content t' c = content demo_thread c) /\
    (forall k c, symbols (interner t') !! k = Some c -> content t' c = Some k).
Proof.
  apply (@string_copy_on_write bump_allocator demo_thread [2; 2; 1]%positive 1%positive
           [2; 2]%positive (lit "ab") (lit "xy") demo_reachable).
  - change [2; 2; 1]%positive with ([2; 2]%positive ++ [1]%positive). by rewrite Permutation_app_comm.
  - by vm_compute.
  - by vm_compute.
Defined.
