(* ===== verification/NumericString.v ===== *)
(** * NumericString: PHP numeric strings and array keys

    [php_runtime/src/numeric_string.rs]: the classifier of numeric strings, the
    conversion of string keys to integer keys, and the thread's cache of
    classifications.  The byte searches are those of [ByteKernel], on the vector
    backend [bk]. *)

From Stdlib Require Import Strings.String Strings.Byte ZArith Floats.SpecFloat.
From stdpp Require Import base list option numbers gmap.
From S2P Require Import Prelude RustStd RustNum Simd SimdProofs ByteKernel ByteKernelProofs PhpString.

Inductive NumericStringValue := VInt (value : Z) | VFloat (value : f64).

Definition as_f64 (v : NumericStringValue) : f64 :=
  match v with VInt value => i64_as_f64 value | VFloat value => value end.
Definition to_i64 (v : NumericStringValue) : Z :=
  match v with VInt value => value | VFloat value => f64_as_i64 value end.
Definition is_float (v : NumericStringValue) : bool :=
  match v with VFloat _ => true | VInt _ => false end.

Inductive NumericStringKind := IntString | FloatString | LeadingNumeric | NonNumeric.
Inductive NumericStringCanonicalKind := CanonNone | CanonInteger | CanonFloat.
Inductive NumericStringArrayKey := KeyInteger (value : Z) | KeyString.

#[export] Instance kind_eq_dec : EqDecision NumericStringKind.
Proof. solve_decision. Defined.

Record NumericString := mk_numeric {
  kind : NumericStringKind;
  value : option NumericStringValue;
  canonical : NumericStringCanonicalKind;
  overflow_or_precision_sensitive : bool;
}.

Definition has_numeric_value (n : NumericString) : bool := bool_decide (is_Some (value n)).

Definition non_numeric : NumericString := mk_numeric NonNumeric None CanonNone false.

Record ParsedNumeric := mk_parsed { parsed_value : NumericStringValue; parsed_sensitive : bool }.

(** ** Classification *)

Section Classify.
Context (bk : backend).

Definition is_sign (o : option byte) : bool := opt_in o ["+"; "-"]%byte.
Definition is_exponent (o : option byte) : bool := opt_in o ["e"; "E"]%byte.
Definition float_marker (x : byte) : bool := existsb (Byte.eqb x) ["."; "e"; "E"]%byte.

Definition digit_run_from (l : bytes) (i : nat) : outcome nat :=
  olet rest := slice_from l i in Arch.ascii_digit_run_len bk rest.

Definition numeric_prefix_len (l : bytes) : outcome (option nat) :=
  let index := if is_sign (head l) then 1 else 0 in
  olet integer_digits := digit_run_from l index in
  let index := index + integer_digits in
  olet (digits, index) :=
    (if opt_is (l !! index) "."%byte then
       let index := index + 1 in
       olet fraction_digits := digit_run_from l index in
       Ret (integer_digits + fraction_digits, index + fraction_digits)
     else Ret (integer_digits, index)) in
  if digits =? 0 then Ret None
  else if is_exponent (l !! index) then
    let exponent_marker := index in
    let index := index + 1 in
    let index := if is_sign (l !! index) then index + 1 else index in
    let exponent_start := index in
    olet run := digit_run_from l index in
    let index := index + run in
    if index =? exponent_start then Ret (Some exponent_marker) else Ret (Some index)
  else Ret (Some index).

Definition significant_digits (l : bytes) : nat :=
  let digits := List.filter is_ascii_digit l in
  length (drop (run_len (fun x => x =b "0"%byte) digits) digits).

Definition parse_numeric_prefix (l : bytes) : option ParsedNumeric :=
  if negb (utf8_valid l) then None
  else if existsb float_marker l then
    match parse_f64 l with
    | Some v => Some (mk_parsed (VFloat v) (negb (f64_is_finite v) || (15 <? significant_digits l)))
    | None => None
    end
  else
    match parse_i64 l with
    | Some v => Some (mk_parsed (VInt v) false)
    | None => match parse_f64 l with
              | Some v => Some (mk_parsed (VFloat v) true)
              | None => None
              end
    end.

Definition canonical_integer_value (l : bytes) (v : NumericStringValue) : outcome (option Z) :=
  match v with
  | VFloat _ => Ret None
  | VInt v =>
      let '(negative, digits) :=
        match l with "-"%byte :: digits => (true, digits) | _ => (false, l) end in
      olet all_digits := all_ascii_digits bk digits in
      if opt_is (head l) "+"%byte || (length digits =? 0) || negb all_digits then Ret None
      else if (1 <? length digits) && opt_is (head digits) "0"%byte then Ret None
      else if negative && (v =? 0)%Z then Ret None
      else Ret (Some v)
  end.

Definition canonical_kind (original numeric_prefix : bytes) (has_surrounding_whitespace : bool)
    (v : NumericStringValue) : outcome NumericStringCanonicalKind :=
  if has_surrounding_whitespace || negb (bytes_eqb original numeric_prefix) then Ret CanonNone
  else
    olet int := canonical_integer_value numeric_prefix v in
    match int with
    | Some _ => Ret CanonInteger
    | None => Ret (if is_float v && existsb float_marker numeric_prefix then CanonFloat else CanonNone)
    end.

Definition classify (l : bytes) : outcome NumericString :=
  olet first := Arch.find_non_ascii_whitespace bk l in
  let start := default (length l) first in
  olet trimmed_start := slice_from l start in
  if length trimmed_start =? 0 then Ret non_numeric
  else
    olet prefix := numeric_prefix_len trimmed_start in
    match prefix with
    | None => Ret non_numeric
    | Some prefix =>
        olet number := slice trimmed_start 0 prefix in
        match parse_numeric_prefix number with
        | None => Ret non_numeric
        | Some parsed =>
            olet trailing := slice_from trimmed_start prefix in
            olet blank := all_ascii_whitespace bk trailing in
            if blank then
              let kind := if is_float (parsed_value parsed) then FloatString else IntString in
              let has_surrounding_whitespace := negb (start =? 0) || negb (length trailing =? 0) in
              olet canonical := canonical_kind l number has_surrounding_whitespace (parsed_value parsed) in
              Ret (mk_numeric kind (Some (parsed_value parsed)) canonical (parsed_sensitive parsed))
            else
              Ret (mk_numeric LeadingNumeric (Some (parsed_value parsed)) CanonNone (parsed_sensitive parsed))
        end
    end.

(** The first byte of a string that can spell an integer key. *)
Definition integer_start (l : bytes) : bool :=
  is_some_and (head l) (fun x => (x =b "-"%byte) || is_ascii_digit x).

Definition key_of_numeric (n : NumericString) : option Z :=
  match canonical n, value n with CanonInteger, Some (VInt v) => Some v | _, _ => None end.

Definition array_key_integer_bytes (l : bytes) : outcome (option Z) :=
  if negb (integer_start l) then Ret None
  else olet classified := classify l in Ret (key_of_numeric classified).
End Classify.

(** ** The cache *)

Definition fingerprint (l : bytes) : N := fnv1a l.

(** [NumericStringCacheKey]: address, length, fingerprint. *)
Definition CacheKey : Type := addr * nat * N.
Definition CACHE_LIMIT : nat := 64 * 64.

Record CacheStats := mk_stats {
  classify_calls : N;
  hits : N;
  misses : N;
  warning_sensitive_fallbacks : N;
  overflow_precision_fallbacks : N;
}.
Definition no_stats : CacheStats := mk_stats 0 0 0 0 0.

Record Cache := mk_cache {
  entries : gmap (addr * nat * N) NumericString;
  stats : CacheStats;
  stats_enabled : bool;
}.

Definition add_stats (f : CacheStats -> CacheStats) : SM Cache unit :=
  modify (fun c => if stats_enabled c then mk_cache (entries c) (f (stats c)) (stats_enabled c) else c).

Definition count_call (s : CacheStats) : CacheStats :=
  mk_stats (classify_calls s + 1) (hits s) (misses s) (warning_sensitive_fallbacks s)
    (overflow_precision_fallbacks s).
Definition count_hit (s : CacheStats) : CacheStats :=
  mk_stats (classify_calls s) (hits s + 1) (misses s) (warning_sensitive_fallbacks s)
    (overflow_precision_fallbacks s).
Definition count_miss (s : CacheStats) : CacheStats :=
  mk_stats (classify_calls s) (hits s) (misses s + 1) (warning_sensitive_fallbacks s)
    (overflow_precision_fallbacks s).
Definition record_sensitive_classification (n : NumericString) (s : CacheStats) : CacheStats :=
  mk_stats (classify_calls s) (hits s) (misses s)
    (if bool_decide (kind n = LeadingNumeric) then warning_sensitive_fallbacks s + 1
     else warning_sensitive_fallbacks s)
    (if overflow_or_precision_sensitive n then overflow_precision_fallbacks s + 1
     else overflow_precision_fallbacks s).

Section Cached.
Context (bk : backend).

Definition cache_key (a : addr) (l : bytes) : addr * nat * N := (a, length l, fingerprint l).

Definition store (k : addr * nat * N) (n : NumericString) : SM Cache unit :=
  modify (fun c =>
    let old := if CACHE_LIMIT <=? size (entries c) then ∅ else entries c in
    mk_cache (<[k := n]> old) (stats c) (stats_enabled c)).

(** [value.storage_id()] is [a], [value.as_bytes()] is [l]. *)
Definition classify_php_string (a : addr) (l : bytes) : SM Cache NumericString :=
  bind (add_stats count_call) (fun _ =>
  bind (gets (fun c => entries c !! cache_key a l)) (fun cached =>
  match cached with
  | Some classified =>
      bind (add_stats (fun s => record_sensitive_classification classified (count_hit s)))
        (fun _ => ret classified)
  | None =>
      bind (lift (classify bk l)) (fun classified =>
      bind (store (cache_key a l) classified) (fun _ =>
      bind (add_stats (fun s => record_sensitive_classification classified (count_miss s)))
        (fun _ => ret classified)))
  end)).

Definition classify_array_key (a : addr) (l : bytes) : SM Cache NumericStringArrayKey :=
  if negb (integer_start l) then ret KeyString
  else
    bind (classify_php_string a l) (fun classified =>
    ret (match key_of_numeric classified with Some v => KeyInteger v | None => KeyString end)).

Definition array_key_has_numeric_string_ambiguity (a : addr) (l : bytes) : SM Cache bool :=
  match head l with
  | None => ret false
  | Some first =>
      if negb (is_ascii_digit first ||
               existsb (Byte.eqb first) ["+"; "-"; " "; x09; x0a; x0d]%byte)
      then ret false
      else bind (classify_array_key a l) (fun k =>
           ret (match k with KeyString => true | KeyInteger _ => false end))
  end.
End Cached.

Definition reset_cache_stats : SM Cache unit :=
  modify (fun c => mk_cache (entries c) no_stats true).
Definition reset_cache_and_stats : SM Cache unit :=
  bind (modify (fun c => mk_cache ∅ (stats c) (stats_enabled c))) (fun _ => reset_cache_stats).
Definition take_cache_stats : SM Cache CacheStats :=
  fun c => Ret (stats c, mk_cache (entries c) no_stats (stats_enabled c)).
Definition snapshot_cache_stats : SM Cache CacheStats := gets stats.

(** The tests of the source. *)
Example classify_zero : classify BScalar (lit "0") = Ret (mk_numeric IntString (Some (VInt 0)) CanonInteger false).
Proof. vm_compute. reflexivity. Qed.
Example classify_spaces : classify BAvx2 (lit " 42 ") = Ret (mk_numeric IntString (Some (VInt 42)) CanonNone false).
Proof. vm_compute. reflexivity. Qed.
Example classify_leading : classify BNeon (lit "42abc") = Ret (mk_numeric LeadingNumeric (Some (VInt 42)) CanonNone false).
Proof. vm_compute. reflexivity. Qed.
Example classify_big : classify BScalar (lit "9223372036854775808") =
  Ret (mk_numeric FloatString (Some (VFloat (i64_as_f64 (2 ^ 63)))) CanonNone true).
Proof. vm_compute. reflexivity. Qed.
