(* ===== verification/NumericStringProofs.v ===== *)
(** * NumericStringProofs: what the classifier of numeric strings accepts

    The scanner of [numeric_string.rs] finds the longest prefix in the grammar of
    numeric strings, an integer array key is spelt in one way, and the cache
    returns what the classifier would, as long as no two strings of one length
    and one address share a fingerprint. *)

From Stdlib Require Import Strings.String Strings.Byte ZArith Floats.SpecFloat.
From stdpp Require Import base list option numbers gmap.
From S2P Require Import Prelude RustStd RustNum Simd SimdProofs ByteKernel ByteKernelProofs PhpString NumericString.

(** ** The grammar *)

Abbreviation all_digits := (forallb is_ascii_digit).
Abbreviation blank := (forallb is_ascii_whitespace).

Definition sign (s : bytes) : Prop := s = [] \/ s = ["+"%byte] \/ s = ["-"%byte].

Inductive fraction : bytes -> Prop :=
| fraction_none : fraction []
| fraction_digits d : all_digits d = true -> fraction ("."%byte :: d).

Inductive exponent : bytes -> Prop :=
| exponent_none : exponent []
| exponent_digits x s d : x = "e"%byte \/ x = "E"%byte -> sign s -> all_digits d = true -> d <> [] ->
    exponent (x :: s ++ d).

(** [sign? (digits | digits . digits* | . digits+) exponent?] *)
Inductive number : bytes -> Prop :=
| number_intro s i f e : sign s -> all_digits i = true -> fraction f -> exponent e ->
    i ++ drop 1 f <> [] ->
    number (s ++ i ++ f ++ e).

(** ** The scanner as a pure function *)

Definition sign_len (l : bytes) : nat := if is_sign (head l) then 1 else 0.
Definition frac_len (l : bytes) : nat :=
  if opt_is (head l) "."%byte then 1 + run_len is_ascii_digit (drop 1 l) else 0.
Definition exp_len (l : bytes) : nat :=
  if is_exponent (head l) then
    let j := 1 + sign_len (drop 1 l) in
    let n := run_len is_ascii_digit (drop j l) in
    if n =? 0 then 0 else j + n
  else 0.
Definition prefix_len (l : bytes) : option nat :=
  let l0 := drop (sign_len l) l in
  let n := run_len is_ascii_digit l0 in
  let l1 := drop n l0 in
  let f := frac_len l1 in
  if n + (f - 1) =? 0 then None else Some (sign_len l + n + f + exp_len (drop f l1)).

Lemma head_drop (l : bytes) i : head (drop i l) = l !! i.
Proof. revert i. induction l as [|x l IH]; intros [|i]; try done. apply IH. Qed.

Lemma opt_is_bound (l : bytes) i x : opt_is (l !! i) x = true -> i < length l.
Proof. rewrite opt_is_Some. intros H. by apply lookup_lt_Some in H. Qed.

Lemma opt_in_lt (l : bytes) i xs : opt_in (l !! i) xs = true -> i < length l.
Proof. destruct (l !! i) eqn:E; [|done]. intros _. by apply lookup_lt_Some in E. Qed.

Lemma digit_run_pure bk l i :
  i <= length l -> digit_run_from bk l i = Ret (run_len is_ascii_digit (drop i l)).
Proof.
  intros H. unfold digit_run_from, slice_from. rewrite (proj2 (Nat.leb_le _ _)) by done.
  cbn [obind]. by rewrite arch_digit_run.
Qed.

Lemma sign_len_le l : sign_len l <= length l.
Proof. unfold sign_len. destruct l as [|x l]; cbn [head length]; [cbn; lia|]. case_match; lia. Qed.

Lemma run_drop_le p (l : bytes) i : i <= length l -> i + run_len p (drop i l) <= length l.
Proof. intros H. pose proof (run_len_le p (drop i l)) as H'. rewrite length_drop in H'. lia. Qed.

Lemma exponent_pure bk l i :
  i <= length l ->
  (if is_exponent (l !! i) then
     olet run := digit_run_from bk l (if is_sign (l !! (i + 1)) then i + 1 + 1 else i + 1) in
     if (if is_sign (l !! (i + 1)) then i + 1 + 1 else i + 1) + run =?
        (if is_sign (l !! (i + 1)) then i + 1 + 1 else i + 1)
     then Ret (Some i)
     else Ret (Some ((if is_sign (l !! (i + 1)) then i + 1 + 1 else i + 1) + run))
   else Ret (Some i)) = Ret (Some (i + exp_len (drop i l))).
Proof.
  intros Hi. unfold exp_len. rewrite head_drop.
  destruct (is_exponent (l !! i)) eqn:Ee; [|by rewrite Nat.add_0_r]. apply opt_in_lt in Ee.
  rewrite !drop_drop. unfold sign_len. rewrite head_drop.
  replace (if is_sign (l !! (i + 1)) then i + 1 + 1 else i + 1)
    with (i + (1 + (if is_sign (l !! (i + 1)) then 1 else 0))) by (destruct (is_sign _); lia).
  rewrite digit_run_pure.
  2:{ destruct (is_sign (l !! (i + 1))) eqn:Es; [apply opt_in_lt in Es|]; lia. }
  cbn [obind]. set (n := run_len _ _).
  destruct (n =? 0) eqn:En.
  - apply Nat.eqb_eq in En. rewrite En, !Nat.add_0_r, Nat.eqb_refl. done.
  - apply Nat.eqb_neq in En. rewrite (proj2 (Nat.eqb_neq _ _)) by lia. do 2 f_equal. lia.
Qed.

Lemma numeric_prefix_pure bk l : numeric_prefix_len bk l = Ret (prefix_len l).
Proof.
  unfold numeric_prefix_len, prefix_len. fold (sign_len l). pose proof (sign_len_le l) as Hs.
  rewrite digit_run_pure by done. cbn [obind]. unfold frac_len. rewrite drop_drop.
  set (n := run_len is_ascii_digit (drop (sign_len l) l)).
  assert (sign_len l + n <= length l) as Hn by (by apply run_drop_le).
  rewrite head_drop.
  destruct (opt_is (l !! (sign_len l + n)) "."%byte) eqn:Edot.
  - apply opt_is_bound in Edot. rewrite digit_run_pure by lia. cbn [obind]. rewrite !drop_drop.
    set (k := run_len is_ascii_digit (drop (sign_len l + n + 1) l)).
    assert (sign_len l + n + 1 + k <= length l) as Hk by (apply run_drop_le; lia).
    replace (n + (1 + k - 1)) with (n + k) by lia.
    replace (sign_len l + n + (1 + k)) with (sign_len l + n + 1 + k) by lia.
    destruct (n + k =? 0); [done|]. by apply exponent_pure.
  - cbn [obind]. rewrite drop_0. replace (n + (0 - 1)) with n by lia. rewrite Nat.add_0_r.
    destruct (n =? 0); [done|]. by apply exponent_pure.
Qed.

(** ** The scanner finds the longest number *)

Lemma run_len_prefix p (a b : bytes) : forallb p a = true -> run_len p (a ++ b) = length a + run_len p b.
Proof. induction a as [|x a IH]; [done|]. cbn. destruct (p x); [|done]. intros H. cbn. by rewrite IH. Qed.

Lemma run_len_take p (l : bytes) : forallb p (take (run_len p l) l) = true.
Proof. induction l as [|x l IH]; [done|]. cbn. destruct (p x) eqn:E; [cbn; by rewrite E, IH|done]. Qed.

Lemma run_len_head p (l : bytes) : is_some_and (head l) p = false -> run_len p l = 0.
Proof. destruct l as [|x l]; [done|]. cbn. by intros ->. Qed.

Definition sign_byte (x : byte) : bool := existsb (Byte.eqb x) ["+"; "-"]%byte.

Lemma is_sign_head l : is_sign (head l) = is_some_and (head l) sign_byte.
Proof. by destruct l. Qed.

Lemma sign_len_app s r :
  sign s -> is_some_and (head r) sign_byte = false -> sign_len (s ++ r) = length s.
Proof.
  unfold sign_len. rewrite is_sign_head. intros [->|[-> | ->]] H; cbn; [by rewrite H|done|done].
Qed.

Lemma sign_len_sign l : sign (take (sign_len l) l).
Proof.
  unfold sign_len. destruct l as [|x l]; [by left|]. cbn. destruct (x =b "+"%byte) eqn:E1.
  - apply beq_eq in E1 as ->. cbn. right. by left.
  - destruct (x =b "-"%byte) eqn:E2; cbn; [|by left]. apply beq_eq in E2 as ->. by right; right.
Qed.

Lemma digit_sign x : is_ascii_digit x = true -> sign_byte x = false.
Proof. by destruct x. Qed.

Lemma head_digits_sign d r : all_digits d = true -> d <> [] -> is_some_and (head (d ++ r)) sign_byte = false.
Proof. destruct d as [|x d]; [done|]. cbn. intros [H _]%andb_true_iff _. by apply digit_sign. Qed.

(** Maximality: an exponent, or a number, that the text [e ++ r] starts with is
    no longer than what the scanner takes. *)
Lemma exp_len_max e r : exponent e -> length e <= exp_len (e ++ r).
Proof.
  destruct 1 as [|x s d Hx Hs Hd Hne]; [cbn; lia|]. unfold exp_len.
  replace (is_exponent (head ((x :: s ++ d) ++ r))) with true by (by destruct Hx as [-> | ->]).
  cbn [app]. change (drop 1 (x :: ?l)) with l. rewrite <- app_assoc.
  rewrite (sign_len_app s (d ++ r)) by (done || by apply head_digits_sign).
  change (drop (1 + ?n) (x :: ?l)) with (drop n l). rewrite drop_app_length.
  rewrite run_len_prefix by done. destruct d as [|y d]; [done|].
  cbn [length Nat.add Nat.eqb]. rewrite length_app. cbn [length]. lia.
Qed.

Lemma exp_len_exponent l : exponent (take (exp_len l) l).
Proof.
  unfold exp_len. destruct (is_exponent (head l)) eqn:E; [|constructor].
  destruct l as [|x l]; [done|]. change (drop 1 (x :: l)) with l.
  change (drop (1 + sign_len l) (x :: l)) with (drop (sign_len l) l).
  set (n := run_len is_ascii_digit (drop (sign_len l) l)). destruct (n =? 0) eqn:En; [constructor|].
  apply Nat.eqb_neq in En. cbn [Nat.add take]. rewrite <- take_take_drop.
  constructor.
  - cbn in E. rewrite orb_false_r, orb_true_iff, !beq_eq in E. done.
  - apply sign_len_sign.
  - apply run_len_take.
  - intros H%(f_equal length). rewrite length_take in H. cbn in H.
    pose proof (run_len_le is_ascii_digit (drop (sign_len l) l)). fold n in H0. lia.
Qed.

Lemma exponent_head e r :
  exponent e -> e = [] \/ (is_some_and (head (e ++ r)) is_ascii_digit = false /\
                           opt_is (head (e ++ r)) "."%byte = false).
Proof. destruct 1 as [|x s d [-> | ->] _ _ _]; [by left|right; done..]. Qed.

Lemma fraction_nondigit f r :
  fraction f -> f = [] \/ run_len is_ascii_digit (f ++ r) = 0.
Proof. destruct 1; [by left|by right]. Qed.

Lemma frac_exp_max f e r :
  fraction f -> exponent e ->
  let n := run_len is_ascii_digit (f ++ e ++ r) in
  let l1 := drop n (f ++ e ++ r) in
  length f + length e <= n + frac_len l1 + exp_len (drop (frac_len l1) l1) /\
  length (drop 1 f) <= n + (frac_len l1 - 1).
Proof.
  intros Hf He n l1. subst n l1. destruct (exponent_head e r He) as [->|[Hd Hdot]].
  - destruct Hf as [|d Hd]; cbn [app length drop run_len]; [lia|].
    change (is_ascii_digit "."%byte) with false. cbn [drop]. unfold frac_len. cbn [head opt_is].
    rewrite beq_refl. change (drop 1 (?x :: ?l)) with l. rewrite run_len_prefix, drop_0 by done. lia.
  - destruct Hf as [|d Hdd]; cbn [app length].
    + rewrite run_len_head by done. rewrite drop_0. unfold frac_len. rewrite Hdot, drop_0.
      pose proof (exp_len_max e r He). cbn. lia.
    + cbn [run_len]. change (is_ascii_digit "."%byte) with false. cbv iota. rewrite drop_0.
      unfold frac_len. cbn [head opt_is]. rewrite beq_refl. change (drop 1 (?x :: ?l)) with l.
      rewrite run_len_prefix, (run_len_head _ (e ++ r)), Nat.add_0_r by done.
      change (drop (1 + length d) (?x :: ?l)) with (drop (length d) l). rewrite drop_app_length.
      pose proof (exp_len_max e r He). lia.
Qed.

Lemma prefix_len_max d r : number d -> exists n, prefix_len (d ++ r) = Some n /\ length d <= n.
Proof.
  destruct 1 as [s i f e Hs Hi Hf He Hne]. rewrite <- !app_assoc. unfold prefix_len.
  rewrite (sign_len_app s); [|done|].
  2:{ destruct i as [|x i]; [|by apply (head_digits_sign (x :: i))]. by destruct Hf. }
  rewrite drop_app_length. rewrite run_len_prefix by done. rewrite <- drop_drop, drop_app_length.
  destruct (frac_exp_max f e r Hf He) as [H1 H2].
  set (n := run_len is_ascii_digit (f ++ e ++ r)) in *. set (l1 := drop n (f ++ e ++ r)) in *.
  assert (0 < length (i ++ drop 1 f)) as Hpos by (destruct (i ++ drop 1 f); cbn; [done|lia]).
  rewrite length_app in Hpos. rewrite (proj2 (Nat.eqb_neq _ _)) by lia.
  eexists. split; [reflexivity|]. rewrite !length_app. lia.
Qed.

Lemma frac_len_fraction l : fraction (take (frac_len l) l).
Proof.
  unfold frac_len. destruct (opt_is (head l) "."%byte) eqn:E; [|constructor].
  destruct l as [|x l]; [done|]. apply opt_is_Some in E as [= ->].
  change (drop 1 (?x :: ?l)) with l. cbn [Nat.add take]. constructor. apply run_len_take.
Qed.

Lemma frac_len_le l : frac_len l <= length l.
Proof.
  unfold frac_len. destruct l as [|x l]; [cbn; lia|]. cbn [head length]. change (drop 1 (x :: l)) with l.
  pose proof (run_len_le is_ascii_digit l). case_match; lia.
Qed.

Lemma prefix_len_number l n : prefix_len l = Some n -> number (take n l).
Proof.
  unfold prefix_len. set (l0 := drop (sign_len l) l). set (k := run_len is_ascii_digit l0).
  set (l1 := drop k l0). set (f := frac_len l1).
  destruct (k + (f - 1) =? 0) eqn:E; [done|]. intros [= <-]. apply Nat.eqb_neq in E.
  rewrite <- !Nat.add_assoc, <- take_take_drop. fold l0. rewrite <- take_take_drop. fold l1.
  rewrite <- take_take_drop.
  constructor; [apply sign_len_sign|apply run_len_take|apply frac_len_fraction|apply exp_len_exponent|].
  intros H%(f_equal length). rewrite length_app, length_drop, !length_take in H. cbn in H.
  pose proof (run_len_le is_ascii_digit l0). fold k in H0. pose proof (frac_len_le l1). fold f in H1. lia.
Qed.

Lemma exp_len_le l : exp_len l <= length l.
Proof.
  unfold exp_len. destruct (is_exponent (head l)) eqn:E; [|lia].
  destruct l as [|x l]; [done|]. change (drop 1 (x :: l)) with l.
  change (drop (1 + sign_len l) (x :: l)) with (drop (sign_len l) l).
  pose proof (run_drop_le is_ascii_digit l (sign_len l) (sign_len_le l)).
  cbn [length]. case_match; lia.
Qed.

Lemma prefix_len_le l n : prefix_len l = Some n -> n <= length l.
Proof.
  unfold prefix_len. case_match; [done|]. clear H. intros [= <-].
  pose proof (sign_len_le l) as H1.
  pose proof (run_drop_le is_ascii_digit l (sign_len l) H1) as H2. revert H2.
  set (k := run_len _ _). intros H2. rewrite !drop_drop.
  pose proof (frac_len_le (drop (sign_len l + k) l)) as H3.
  set (f := frac_len (drop (sign_len l + k) l)) in *.
  pose proof (exp_len_le (drop (sign_len l + k + f) l)) as H4. rewrite length_drop in H3, H4. lia.
Qed.

(** ** The value of a number *)

Definition negative (s : bytes) : bool := bool_decide (s = ["-"%byte]).
Definition signed (s : bytes) (v : Z) : Z := if negative s then (- v)%Z else v.

Lemma strip_sign_app s r :
  sign s -> is_some_and (head r) sign_byte = false -> strip_sign (s ++ r) = (negative s, r).
Proof.
  intros [->|[-> | ->]] H; [|done|done]. destruct r as [|x r]; [done|]. cbn in H |- *. by destruct x.
Qed.

Definition exponent_value (e : bytes) : Z :=
  let '(eneg, d) := strip_sign (drop 1 e) in if eneg then (- digits_val d)%Z else digits_val d.

(** The double nearest to the decimal value of a number. *)
Definition number_value (s i f e : bytes) : f64 :=
  round_decimal (negative s) (digits_val (i ++ drop 1 f))
    (exponent_value e - Z.of_nat (length (drop 1 f))).

Lemma number_start i f e :
  all_digits i = true -> fraction f -> i ++ drop 1 f <> [] ->
  exists x l, i ++ f ++ e = x :: l /\ (is_ascii_digit x = true \/ x = "."%byte).
Proof.
  intros Hi Hf Hne. destruct i as [|x i].
  - destruct Hf as [|d Hd]; [done|]. eauto.
  - cbn in Hi. apply andb_true_iff in Hi as [Hx _]. cbn. eauto.
Qed.

Lemma not_special x l w :
  is_ascii_digit x = true \/ x = "."%byte -> In w [lit "inf"; lit "infinity"; lit "nan"] ->
  eq_ignore_ascii_case (x :: l) w = false.
Proof.
  intros Hx [<-|[<-|[<-|[]]]]; destruct Hx as [Hx | ->]; try done;
    cbn [lit list_byte_of_string]; by destruct x.
Qed.

Lemma run_len_exact (a b : bytes) :
  all_digits a = true -> is_some_and (head b) is_ascii_digit = false ->
  run_len is_ascii_digit (a ++ b) = length a.
Proof. intros Ha Hb. rewrite run_len_prefix, run_len_head by done. lia. Qed.

Lemma parse_exponent (A : Type) (e : bytes) (value : Z -> option A) :
  exponent e ->
  match e with
  | [] => value 0%Z
  | x :: rest =>
      if (x =b "e"%byte) || (x =b "E"%byte) then
        let '(eneg, digits) := strip_sign rest in
        match digits with
        | [] => None
        | _ => if all_digits digits
               then value (if eneg then (- digits_val digits)%Z else digits_val digits) else None
        end
      else None
  end = value (exponent_value e).
Proof.
  destruct 1 as [|x s d Hx Hs Hd Hne]; [done|]. unfold exponent_value.
  change (drop 1 (x :: s ++ d)) with (s ++ d).
  replace ((x =b "e"%byte) || (x =b "E"%byte)) with true by (by destruct Hx as [-> | ->]).
  rewrite strip_sign_app.
  - destruct d as [|y d]; [done|]. by rewrite Hd.
  - done.
  - rewrite <- (app_nil_r d). by apply head_digits_sign.
Qed.

Lemma parse_f64_number s i f e :
  sign s -> all_digits i = true -> fraction f -> exponent e -> i ++ drop 1 f <> [] ->
  parse_f64 (s ++ i ++ f ++ e) = Some (number_value s i f e).
Proof.
  intros Hs Hi Hf He Hne.
  destruct (number_start i f e Hi Hf Hne) as (x & l & El & Hx).
  unfold parse_f64. rewrite strip_sign_app; [|done|].
  2:{ rewrite El. cbn. destruct Hx as [Hx | ->]; [by apply digit_sign|done]. }
  rewrite El, !(not_special x l) by (done || (cbn; tauto)). cbn [orb]. rewrite <- El.
  assert (is_some_and (head e) is_ascii_digit = false /\ opt_is (head e) "."%byte = false) as [Hed Hdot].
  { destruct (exponent_head e [] He) as [->|[? ?]]; [done|]. rewrite app_nil_r in *. done. }
  destruct Hf as [|d Hd].
  - cbn [app]. rewrite run_len_exact, take_app_length, drop_app_length by done.
    change (drop 1 []) with (@nil byte) in *. rewrite app_nil_r in Hne.
    replace (match e with "."%byte :: rest => _ | _ => _ end) with (@nil byte, e)
      by (destruct e as [|y e]; [done|]; cbn in Hdot; by destruct y).
    rewrite (proj2 (Nat.eqb_neq _ _)) by (destruct i; [done|cbn; lia]).
    apply (parse_exponent f64 e (fun z => Some (round_decimal (negative s) (digits_val (i ++ []))
                                                  (z - Z.of_nat (@length byte []))))); done.
  - change (drop 1 ("."%byte :: d)) with d in *. cbn [app].
    rewrite run_len_exact, take_app_length, drop_app_length by done.
    rewrite run_len_exact, take_app_length, drop_app_length by done.
    rewrite (proj2 (Nat.eqb_neq _ _)).
    2:{ intros E. apply Hne. destruct i, d; cbn in E; (done || lia). }
    apply (parse_exponent f64 e (fun z => Some (round_decimal (negative s) (digits_val (i ++ d))
                                                  (z - Z.of_nat (length d))))); done.
Qed.

Lemma parse_i64_digits s i :
  sign s -> all_digits i = true -> i <> [] -> parse_i64 (s ++ i) = checked_i64 (signed s (digits_val i)).
Proof.
  intros Hs Hi Hne. unfold parse_i64.
  rewrite strip_sign_app; [|done|rewrite <- (app_nil_r i); by apply head_digits_sign].
  destruct i as [|x i]; [done|]. by rewrite Hi.
Qed.

(** A number is ASCII text, so it passes [from_utf8]. *)
Lemma digits_plain d : all_digits d = true -> forallb is_ascii d = true /\ existsb float_marker d = false.
Proof.
  induction d as [|x d IH]; [done|]. cbn. intros [Hx Hd]%andb_true_iff. destruct (IH Hd) as [-> ->].
  by destruct x.
Qed.

Lemma sign_plain s : sign s -> forallb is_ascii s = true /\ existsb float_marker s = false.
Proof. by intros [->|[-> | ->]]. Qed.

Lemma number_utf8 d : number d -> utf8_valid d = true.
Proof.
  destruct 1 as [s i f e Hs Hi Hf He _]. apply utf8_ascii. rewrite !forallb_app.
  rewrite (proj1 (sign_plain s Hs)), (proj1 (digits_plain i Hi)). cbn [andb].
  assert (forallb is_ascii f = true) as ->.
  { destruct Hf as [|d Hd]; [done|]. cbn. apply (digits_plain d Hd). }
  destruct He as [|x s' d Hx Hs' Hd _]; [done|]. cbn [andb forallb]. rewrite forallb_app.
  rewrite (proj1 (sign_plain s' Hs')), (proj1 (digits_plain d Hd)).
  by destruct Hx as [-> | ->].
Qed.

(** What the code parses the number [s i f e] to. *)
Definition numeric_value (s i f e : bytes) : ParsedNumeric :=
  match f, e with
  | [], [] =>
      match checked_i64 (signed s (digits_val i)) with
      | Some v => mk_parsed (VInt v) false
      | None => mk_parsed (VFloat (number_value s i f e)) true
      end
  | _, _ =>
      let v := number_value s i f e in
      mk_parsed (VFloat v) (negb (f64_is_finite v) || (15 <? significant_digits (s ++ i ++ f ++ e)))
  end.

Lemma parse_number s i f e :
  sign s -> all_digits i = true -> fraction f -> exponent e -> i ++ drop 1 f <> [] ->
  parse_numeric_prefix (s ++ i ++ f ++ e) = Some (numeric_value s i f e).
Proof.
  intros Hs Hi Hf He Hne. unfold parse_numeric_prefix.
  rewrite number_utf8 by (by constructor). cbn [negb]. rewrite parse_f64_number by done.
  rewrite !existsb_app, (proj2 (sign_plain s Hs)), (proj2 (digits_plain i Hi)). cbn [orb].
  destruct Hf as [|d Hd]; [|done].
  destruct He as [|x s' d Hx _ _ _]; cbn [orb existsb].
  - change (drop 1 []) with (@nil byte) in Hne. rewrite !app_nil_r in *.
    rewrite parse_i64_digits by done. unfold numeric_value. by destruct (checked_i64 _).
  - destruct Hx as [-> | ->]; done.
Qed.

(** ** The classifier without the machine code *)

Lemma all_digits_run bk l : all_ascii_digits bk l = Ret (all_digits l).
Proof.
  by destruct (whitespace_search_reference (laws := memchr_naive_laws) bk l) as (_ & _ & _ & _ & H).
Qed.

Lemma all_whitespace_run bk l : all_ascii_whitespace bk l = Ret (blank l).
Proof.
  by destruct (whitespace_search_reference (laws := memchr_naive_laws) bk l) as (_ & _ & _ & H & _).
Qed.

(** A canonical integer spelling, as [canonical_integer_value] tests it. *)
Definition plain_integer (l : bytes) (v : Z) : bool :=
  let '(neg, d) := match l with "-"%byte :: d => (true, d) | _ => (false, l) end in
  negb (opt_is (head l) "+"%byte || (length d =? 0) || negb (all_digits d)) &&
  negb ((1 <? length d) && opt_is (head d) "0"%byte) && negb (neg && (v =? 0)%Z).

Lemma canonical_integer_run bk l v :
  canonical_integer_value bk l (VInt v) = Ret (if plain_integer l v then Some v else None).
Proof.
  unfold canonical_integer_value, plain_integer. destruct (match l with "-"%byte :: d => _ | _ => _ end) as [neg d].
  rewrite all_digits_run. cbn [obind].
  destruct (opt_is (head l) "+"%byte || (length d =? 0) || negb (all_digits d)); [done|].
  destruct ((1 <? length d) && opt_is (head d) "0"%byte); [done|]. by destruct (neg && (v =? 0)%Z).
Qed.

Definition canonical_of (l d : bytes) (spaced : bool) (v : NumericStringValue) : NumericStringCanonicalKind :=
  if spaced || negb (bytes_eqb l d) then CanonNone
  else if match v with VInt z => plain_integer d z | VFloat _ => false end then CanonInteger
  else if is_float v && existsb float_marker d then CanonFloat else CanonNone.

Lemma canonical_kind_run bk l d spaced v : canonical_kind bk l d spaced v = Ret (canonical_of l d spaced v).
Proof.
  unfold canonical_kind, canonical_of. destruct (spaced || _); [done|].
  destruct v as [z|x]; [rewrite canonical_integer_run|]; cbn [obind canonical_integer_value].
  - by destruct (plain_integer d z).
  - done.
Qed.

Definition leading_space (l : bytes) : nat := run_len is_ascii_whitespace l.

(** The result for a text whose number [d] is followed by [r]. *)
Definition classified_as (l d r : bytes) (p : ParsedNumeric) : NumericString :=
  if blank r then
    mk_numeric (if is_float (parsed_value p) then FloatString else IntString) (Some (parsed_value p))
      (canonical_of l d (negb (leading_space l =? 0) || negb (length r =? 0)) (parsed_value p))
      (parsed_sensitive p)
  else mk_numeric LeadingNumeric (Some (parsed_value p)) CanonNone (parsed_sensitive p).

Lemma classify_run bk l :
  let t := drop (leading_space l) l in
  classify bk l = Ret (match prefix_len t with
                       | None => non_numeric
                       | Some n => match parse_numeric_prefix (take n t) with
                                   | None => non_numeric
                                   | Some p => classified_as l (take n t) (drop n t) p
                                   end
                       end).
Proof.
  intros t. unfold classify. rewrite arch_non_whitespace. cbn [obind].
  unfold find_non_ascii_whitespace_scalar. rewrite <- run_len_position. fold (leading_space l).
  unfold slice_from at 1. rewrite (proj2 (Nat.leb_le _ _)) by apply run_len_le. cbn [obind]. fold t.
  destruct (length t =? 0) eqn:Et.
  { apply Nat.eqb_eq, nil_length_inv in Et. by rewrite Et. }
  rewrite numeric_prefix_pure. cbn [obind]. destruct (prefix_len t) as [n|] eqn:En; [|done].
  pose proof (prefix_len_le t n En) as Hn. unfold slice, slice_from.
  rewrite (proj2 (Nat.leb_le _ _) Hn). cbn [Nat.leb andb obind]. rewrite drop_0.
  destruct (parse_numeric_prefix (take n t)) as [p|]; [|done].
  rewrite all_whitespace_run. cbn [obind]. unfold classified_as.
  destruct (blank (drop n t)); [|done]. by rewrite canonical_kind_run.
Qed.

(** ** Classification against the grammar *)

(** [l] is blanks, then the longest number there is, then the rest. *)
Inductive classified (l : bytes) : NumericString -> Prop :=
| classified_none :
    (forall w d r, l = w ++ d ++ r -> blank w = true -> ~ number d) -> classified l non_numeric
| classified_number w s i f e r n :
    l = w ++ (s ++ i ++ f ++ e) ++ r -> blank w = true ->
    sign s -> all_digits i = true -> fraction f -> exponent e -> i ++ drop 1 f <> [] ->
    (forall d' r', (s ++ i ++ f ++ e) ++ r = d' ++ r' -> number d' -> length d' <= length (s ++ i ++ f ++ e)) ->
    value n = Some (parsed_value (numeric_value s i f e)) ->
    overflow_or_precision_sensitive n = parsed_sensitive (numeric_value s i f e) ->
    kind n = (if blank r then (if is_float (parsed_value (numeric_value s i f e)) then FloatString else IntString)
              else LeadingNumeric) ->
    classified l n.

Lemma number_nonblank d r : number d -> exists x l, d ++ r = x :: l /\ is_ascii_whitespace x = false.
Proof.
  destruct 1 as [s i f e Hs Hi Hf He Hne]. destruct (number_start i f e Hi Hf Hne) as (x & l & El & Hx).
  rewrite El. destruct Hs as [->|[-> | ->]]; cbn; [|eauto..].
  exists x, (l ++ r). split; [done|]. destruct Hx as [Hx | ->]; [|done]. by destruct x.
Qed.

(** Blanks before a number are all the blanks there are. *)
Lemma leading_space_number w d r :
  blank w = true -> number d -> leading_space (w ++ d ++ r) = length w.
Proof.
  intros Hw Hd. unfold leading_space. rewrite run_len_prefix by done.
  destruct (number_nonblank d r Hd) as (x & l & -> & Hx). cbn [run_len]. rewrite Hx. lia.
Qed.

Lemma classify_classified bk l : exists n, classify bk l = Ret n /\ classified l n.
Proof.
  rewrite classify_run. eexists. split; [reflexivity|].
  destruct (prefix_len (drop (leading_space l) l)) as [n|] eqn:En.
  - pose proof (prefix_len_number _ _ En) as Hd. remember (take n (drop (leading_space l) l)) as d eqn:Ed.
    assert (drop (leading_space l) l = d ++ drop n (drop (leading_space l) l)) as Et
      by (rewrite Ed; by rewrite take_drop).
    destruct Hd as [s i f e Hs Hi Hf He Hne]. rewrite parse_number by done.
    eapply (classified_number _ (take (leading_space l) l) s i f e (drop n (drop (leading_space l) l))); try done.
    + by rewrite <- Et, take_drop.
    + apply run_len_take.
    + intros d' r' E Hd'. destruct (prefix_len_max d' r' Hd') as (n' & En' & Hle).
      rewrite <- E, <- Et, En in En'. injection En' as <-.
      rewrite Ed, length_take. pose proof (prefix_len_le _ _ En). lia.
    + unfold classified_as. by destruct (blank _).
    + unfold classified_as. by destruct (blank _).
    + unfold classified_as. by destruct (blank _).
  - apply classified_none. intros w d r -> Hw Hd.
    rewrite leading_space_number, drop_app_length in En by done.
    destruct (prefix_len_max d r Hd) as (n & E & _). congruence.
Qed.

(** ** Integer keys *)

Lemma canonical_digits_inj a b :
  canonical_digits a -> canonical_digits b -> digits_val a = digits_val b -> a = b.
Proof.
  intros Ha Hb E.
  pose proof (dec_digits_print (max (length a) (length b)) a [] Ha ltac:(lia)) as Pa.
  pose proof (dec_digits_print (max (length a) (length b)) b [] Hb ltac:(lia)) as Pb.
  rewrite E, Pb, !app_nil_r in Pa. done.
Qed.

Lemma plain_integer_canonical s i v :
  sign s -> all_digits i = true -> i <> [] ->
  plain_integer (s ++ i) v = true <->
  s <> ["+"%byte] /\ canonical_digits i /\ (s = ["-"%byte] -> v <> 0%Z).
Proof.
  intros Hs Hi Hne.
  assert (forall neg : bool, negb ((length i =? 0) || negb (all_digits i)) && negb ((1 <? length i) && opt_is (head i) "0"%byte)
            && negb (neg && (v =? 0)%Z) = true <->
          canonical_digits i /\ (neg = true -> v <> 0%Z)) as Hcore.
  { intros neg. unfold canonical_digits. rewrite Hi.
    rewrite (proj2 (Nat.eqb_neq _ _)) by (destruct i; [done|cbn; lia]). cbn [orb negb andb].
    rewrite andb_true_iff, !negb_true_iff, !andb_false_iff, Nat.ltb_ge, Z.eqb_neq.
    assert (opt_is (head i) "0"%byte = false <-> head i <> Some "0"%byte) as ->.
    { rewrite <- (opt_is_Some (head i) "0"%byte). symmetry. apply not_true_iff_false. }
    destruct neg; intuition (try done; try lia); destruct (decide (1 < length i)); intuition lia. }
  destruct Hs as [->|[-> | ->]]; unfold plain_integer; cbn [app head opt_is].
  - destruct i as [|x i]; [done|]. assert (is_ascii_digit x = true) as Hx by (cbn in Hi; by apply andb_true_iff in Hi as [? _]).
    replace (match x with "-"%byte => (true, i) | _ => (false, x :: i) end) with (false, x :: i) by (by destruct x).
    replace (opt_is (head (x :: i)) "+"%byte) with false by (by destruct x). cbn [orb]. etransitivity; [apply (Hcore false)|naive_solver].
  - cbn. naive_solver.
  - etransitivity; [apply (Hcore true)|naive_solver].
Qed.

Lemma signed_nil v : signed [] v = v.
Proof. done. Qed.
Lemma signed_minus v : signed ["-"%byte] v = (- v)%Z.
Proof. done. Qed.

(** The printed integers are the plain ones, and each value is printed once. *)
Lemma print_i64_shape k : in_i64 k = true ->
  exists s i, print_i64 k = s ++ i /\ sign s /\ s <> ["+"%byte] /\ canonical_digits i /\
              signed s (digits_val i) = k /\ (s = ["-"%byte] -> k <> 0%Z).
Proof.
  intros Hk. destruct (print_i64_cases k Hk) as [(H0 & Hc & Hv)|(H0 & l & El & Hc & Hv)].
  - exists [], (print_i64 k). split_and!; try done. by left.
  - exists ["-"%byte], l. split_and!; try done; [by right; right| |lia].
    rewrite signed_minus. lia.
Qed.

Lemma plain_integer_printed s i k :
  sign s -> s <> ["+"%byte] -> canonical_digits i -> (s = ["-"%byte] -> k <> 0%Z) ->
  checked_i64 (signed s (digits_val i)) = Some k -> in_i64 k = true /\ s ++ i = print_i64 k.
Proof.
  unfold checked_i64. intros Hs Hp Hc Hz. destruct (in_i64 _) eqn:Hk; [|done]. intros [= <-].
  split; [done|]. destruct (print_i64_shape _ Hk) as (s' & i' & -> & Hs' & Hp' & Hc' & E & Hz').
  pose proof (digits_val_bound i (proj1 Hc)). pose proof (digits_val_bound i' (proj1 Hc')).
  destruct Hs as [->|[-> | ->]]; [|done|]; destruct Hs' as [->|[-> | ->]]; try done;
    unfold signed in *; change (negative []) with false in *; change (negative ["-"%byte]) with true in *; cbv iota in *.
  - symmetry. by apply canonical_digits_inj.
  - specialize (Hz' eq_refl). lia.
  - specialize (Hz eq_refl). lia.
  - f_equal. symmetry. apply canonical_digits_inj; [done..|lia].
Qed.

Lemma classify_key_sound bk l n k :
  classify bk l = Ret n -> key_of_numeric n = Some k -> in_i64 k = true /\ l = print_i64 k.
Proof.
  rewrite classify_run. intros [= <-].
  destruct (prefix_len _) as [m|] eqn:Em; [|done].
  pose proof (prefix_len_number _ _ Em) as Hd. remember (take m _) as d eqn:Ed.
  destruct Hd as [s i f e Hs Hi Hf He Hne]. rewrite parse_number by done.
  unfold classified_as. destruct (blank _); [|done]. unfold key_of_numeric, canonical_of. cbn [canonical value].
  destruct (negb (leading_space l =? 0) || _ || negb (bytes_eqb l _)) eqn:Esp; [done|].
  apply orb_false_iff in Esp as [_ Eq]. apply negb_false_iff, bytes_eqb_eq in Eq.
  destruct (parsed_value (numeric_value s i f e)) as [z|x] eqn:Ev.
  2:{ cbn [is_float andb]. by destruct (existsb _ _). }
  destruct (plain_integer (s ++ i ++ f ++ e) z) eqn:Ep; [|done]. intros [= ->].
  destruct f as [|? ?]; [|done]. destruct e as [|? ?]; [|done].
  unfold numeric_value in Ev. destruct (checked_i64 _) as [z|] eqn:Ez; [|done]. injection Ev as ->.
  change (drop 1 []) with (@nil byte) in Hne. rewrite !app_nil_r in *.
  apply plain_integer_canonical in Ep as (Hp & Hc & Hz); [|done..].
  rewrite Eq. by apply plain_integer_printed.
Qed.

Lemma print_number s i :
  sign s -> canonical_digits i -> number (s ++ i).
Proof.
  intros Hs (Hi & Hne & _). rewrite <- (app_nil_r i).
  apply (number_intro s i [] []); try done; [constructor..|]. by rewrite app_nil_r.
Qed.

Lemma classify_key_complete bk k :
  in_i64 k = true ->
  integer_start (print_i64 k) = true /\
  exists n, classify bk (print_i64 k) = Ret n /\ key_of_numeric n = Some k.
Proof.
  intros Hk. destruct (print_i64_shape k Hk) as (s & i & E & Hs & Hp & Hc & Hv & Hz).
  pose proof (print_number s i Hs Hc) as Hnum. pose proof Hc as (Hi & Hne & _).
  split.
  { rewrite E. destruct Hs as [->|[-> | ->]]; [|done|done]. destruct i as [|x i]; [done|].
    cbn in Hi |- *. apply andb_true_iff in Hi as [Hx _]. rewrite Hx. apply orb_true_r. }
  rewrite classify_run, E. eexists. split; [reflexivity|].
  assert (leading_space (s ++ i) = 0) as Hsp.
  { pose proof (leading_space_number [] (s ++ i) [] eq_refl Hnum) as H. by rewrite app_nil_r in H. }
  rewrite Hsp, drop_0. destruct (prefix_len_max (s ++ i) [] Hnum) as (m & Em & Hle).
  rewrite app_nil_r in Em. rewrite Em. pose proof (prefix_len_le _ _ Em).
  rewrite take_ge, drop_ge by lia.
  pose proof (parse_number s i [] [] Hs Hi fraction_none exponent_none) as Hpn.
  cbn [app drop] in Hpn. rewrite !app_nil_r in Hpn. rewrite Hpn by done.
  unfold numeric_value. rewrite Hv. unfold checked_i64. rewrite Hk.
  unfold classified_as, canonical_of. rewrite Hsp. cbn [forallb length Nat.eqb negb orb parsed_value].
  rewrite (proj2 (bytes_eqb_eq _ _) eq_refl). cbn [negb].
  rewrite (proj2 (plain_integer_canonical s i k Hs Hi Hne)) by done. done.
Qed.

(** ** The cache *)

Lemma wp_classify_php_string bk a l c :
  wp (classify_php_string bk a l) c (fun n c' =>
    match entries c !! cache_key a l with
    | Some n' => n = n' /\ entries c' = entries c
    | None => classify bk l = Ret n /\
        exists old, old ⊆ entries c /\ entries c' = <[cache_key a l := n]> old
    end).
Proof.
  unfold classify_php_string.
  assert (forall f c0, exists s, add_stats f c0 = Ret (tt, mk_cache (entries c0) s (stats_enabled c0))) as Hst.
  { intros f c0. unfold add_stats, modify. destruct c0 as [e s [|]]; cbn; eauto. }
  apply wp_bind. destruct (Hst count_call c) as [s1 E1]. exists tt. eexists. split; [exact E1|].
  apply wp_bind, wp_gets. cbn [entries]. destruct (entries c !! cache_key a l) as [n|] eqn:En.
  - apply wp_bind. destruct (Hst (fun s => record_sensitive_classification n (count_hit s))
      (mk_cache (entries c) s1 (stats_enabled c))) as [s2 E2].
    exists tt. eexists. split; [exact E2|]. by apply wp_ret.
  - destruct (classify_classified bk l) as (n & Ec & _). apply wp_bind.
    apply (wp_lift _ n); [done|]. apply wp_bind, wp_modify. apply wp_bind. cbn [entries stats stats_enabled].
    set (old := if CACHE_LIMIT <=? _ then _ else _).
    destruct (Hst (fun s => record_sensitive_classification n (count_miss s))
      (mk_cache (<[cache_key a l := n]> old) s1 (stats_enabled c))) as [s2 E2].
    exists tt. eexists. split; [exact E2|]. apply wp_ret. cbn [entries]. split; [done|].
    exists old. split; [|done]. subst old. destruct (CACHE_LIMIT <=? _); [apply map_empty_subseteq|done].
Qed.

(** A sequence of classifications by one thread. *)
Fixpoint classify_all (bk : backend) (calls : list (addr * bytes)) : SM Cache (list NumericString) :=
  match calls with
  | [] => ret []
  | (a, l) :: calls =>
      bind (classify_php_string bk a l) (fun n =>
      bind (classify_all bk calls) (fun ns => ret (n :: ns)))
  end.

Definition empty_cache (enabled : bool) : Cache := mk_cache ∅ no_stats enabled.

(** Two calls with one key are about one text. *)
Definition no_collision (calls : list (addr * bytes)) : Prop :=
  forall a l l', (a, l) ∈ calls -> (a, l') ∈ calls -> length l = length l' ->
                 fingerprint l = fingerprint l' -> l = l'.

(** The entries of the cache come from the calls [past]. *)
Definition filled_by (bk : backend) (past : list (addr * bytes)) (m : gmap (addr * nat * N) NumericString) : Prop :=
  forall k n, m !! k = Some n -> exists a l, (a, l) ∈ past /\ k = cache_key a l /\ classify bk l = Ret n.

Lemma filled_by_app bk past more m : filled_by bk past m -> filled_by bk (past ++ more) m.
Proof.
  intros Hf k n E. destruct (Hf k n E) as (a & l & Hin & ? & ?). exists a, l.
  split_and!; [apply elem_of_app; by left|done..].
Qed.

Lemma wp_classify_all bk past calls c :
  filled_by bk past (entries c) -> no_collision (past ++ calls) ->
  wp (classify_all bk calls) c (fun ns _ => Forall2 (fun '(_, l) n => classify bk l = Ret n) calls ns).
Proof.
  revert past c. induction calls as [|[a l] calls IH]; intros past c Hf Hnc; cbn [classify_all].
  { by apply wp_ret. }
  apply wp_bind. eapply wp_conseq; [by apply wp_classify_php_string|]. intros n c' Hn.
  assert (classify bk l = Ret n /\ filled_by bk (past ++ [(a, l)]) (entries c')) as [Hl Hf'].
  { destruct (entries c !! cache_key a l) as [n'|] eqn:Ek.
    - destruct Hn as [-> ->]. split; [|by apply filled_by_app].
      destruct (Hf _ _ Ek) as (b & lb & Hin & E & Hb). injection E as <- Elen Efp.
      rewrite (Hnc a l lb); [done|..|done|done]; apply elem_of_app; [right; by left|by left].
    - destruct Hn as [Hn (old & Hsub & ->)]. split; [done|].
      intros k n' [[<- <-]|[_ Eo]]%lookup_insert_Some.
      + exists a, l. split_and!; [apply elem_of_app; right; by left|done..].
      + by apply (filled_by_app bk past [(a, l)] _ Hf), (lookup_weaken old). }
  apply wp_bind. eapply wp_conseq; [apply (IH (past ++ [(a, l)])); [done|by rewrite <- app_assoc]|].
  intros ns c2 Hns. apply wp_ret. by constructor.
Qed.

(** ** The claims *)

(** C13: on every backend the classifier returns, and decides the grammar of
    numeric strings: blanks, then the longest number there is (sign, digits with
    an optional fraction, optional exponent), with the integer value when it fits
    [i64] and otherwise the nearest double; the kind tells whether only blanks
    follow. *)
Theorem classify_grammar bk l : exists n, classify bk l = Ret n /\ classified l n.
Proof. apply classify_classified. Qed.

Lemma array_key_spec bk l :
  exists r, array_key_integer_bytes bk l = Ret r /\
            forall k, r = Some k <-> in_i64 k = true /\ l = print_i64 k.
Proof.
  unfold array_key_integer_bytes. destruct (integer_start l) eqn:Es; cbn [negb].
  - destruct (classify_classified bk l) as (n & E & _). rewrite E. cbn [obind].
    eexists. split; [done|]. intros k. split; [by apply (classify_key_sound bk)|].
    intros [Hk ->]. destruct (classify_key_complete bk k Hk) as (_ & n' & E' & ?). congruence.
  - eexists. split; [done|]. intros k. split; [done|].
    intros [Hk ->]. destruct (classify_key_complete bk k Hk) as [? _]. congruence.
Qed.

(** C12: a string is converted to the integer array key [k] exactly when it is the
    decimal spelling of [k] and [k] fits [i64]; every other string stays a string
    key. *)
Theorem array_key_exact bk l :
  exists r, array_key_integer_bytes bk l = Ret r /\
            forall k, r = Some k <-> in_i64 k = true /\ l = print_i64 k.
Proof. apply array_key_spec. Qed.

(** The cached classifier returns what the classifier returns, over any
    sequence of calls, evictions and reused addresses included, as long as no two
    texts of one length at one address have the same fingerprint. *)
Theorem cache_transparent bk enabled calls :
  no_collision calls ->
  exists ns c, classify_all bk calls (empty_cache enabled) = Ret (ns, c) /\
    Forall2 (fun '(_, l) n => classify bk l = Ret n) calls ns.
Proof.
  intros Hnc. apply (wp_classify_all bk [] calls); [|done]. intros k n. cbn [entries empty_cache]. by rewrite lookup_empty.
Qed.

Lemma cache_transparent_witness :
  exists ns c, classify_all BScalar [(1%positive, lit "12"); (1%positive, lit "x2"); (1%positive, lit "12")]
                 (empty_cache true) = Ret (ns, c) /\
    Forall2 (fun '(_, l) n => classify BScalar l = Ret n)
      [(1%positive, lit "12"); (1%positive, lit "x2"); (1%positive, lit "12")] ns.
Proof.
  apply (cache_transparent BScalar true).
  intros a l l' H1%list_elem_of_In H2%list_elem_of_In _ E.
  destruct H1 as [H1|[H1|[H1|[]]]]; destruct H2 as [H2|[H2|[H2|[]]]];
    injection H1 as _ <-; injection H2 as _ <-; (done || by vm_compute in E).
Defined.

(** The fingerprint does not tell all texts apart: two strings of twenty
    bytes collide, so after a write through [bytes_mut] to a string that nobody
    shares, the cache answers with the classification of the old bytes (a leading
    [8]) for bytes that are not numeric. *)
Theorem stale_classification :
  let old := lit "8yn0iYCKYHlIj4-BwPqk" in
  let new := lit "GReLUrM4wMqfg9yzV3KQ" in
  let eight := mk_numeric LeadingNumeric (Some (VInt 8)) CanonNone false in
  (exists t1 t2, @PhpString.from_bytes bump_allocator old (thread initial) = Ret (1%positive, t1) /\
                 @PhpString.bytes_mut bump_allocator 1%positive new t1 = Ret (1%positive, t2)) /\
  classify BScalar new = Ret non_numeric /\
  exists c, classify_all BScalar [(1%positive, old); (1%positive, new)] (empty_cache false) =
            Ret ([eight; eight], c).
Proof. split_and!; [do 2 eexists; by vm_compute|by vm_compute|]. eexists. vm_compute. reflexivity. Qed.
