(* ===== verification/PhpArray.v ===== *)
(** * PhpArray: ordered PHP arrays

    [php_runtime/src/array.rs]: the three storages of an array (packed values,
    record with a shared key shape, mixed with tombstones), the conversions
    between them, the cached metadata, the append key, the internal pointer and
    the operations of [PhpArray].

    The fields that the three storage structs have in common are fields of
    [ArrayStorage] here, and the rest is its [layout].  The operations are those
    after [storage_mut_for], which gives a writer a storage of its own.  A value
    is of any type with the tests the code makes on it ([ArrayValue]), and the
    classification of string keys is an interface ([KeyClassifier]).  A slot is
    an unbounded number: the code's [u32] slots and [i64] packed keys limit
    arrays to fewer than [2^32] elements.  [layout_stats] is left out. *)

From Stdlib Require Import Strings.String Strings.Byte ZArith.
From stdpp Require Import base list option numbers gmap fin_maps.
From S2P Require Import Prelude RustStd RustNum PhpString NumericString.

(** ** Keys, values, entries *)

Inductive ArrayKey := KInt (value : Z) | KString (value : bytes).

#[export] Instance array_key_eq_dec : EqDecision ArrayKey.
Proof. solve_decision. Defined.
#[export] Instance array_key_countable : Countable ArrayKey.
Proof.
  apply (inj_countable' (fun k => match k with KInt z => inl z | KString l => inr l end)
           (fun x => match x with inl z => KInt z | inr l => KString l end)).
  by intros [z|l].
Defined.

Definition is_string_key (k : ArrayKey) : bool := match k with KString _ => true | KInt _ => false end.
Definition is_int_key (k : ArrayKey) : bool := negb (is_string_key k).
Definition as_int_key (k : ArrayKey) : option Z := match k with KInt z => Some z | KString _ => None end.
Definition as_string_key (k : ArrayKey) : option bytes :=
  match k with KString l => Some l | KInt _ => None end.

(** What the array code asks of a value. *)
Class ArrayValue (V : Type) := {
  is_reference : V -> bool;
  as_int : V -> option Z;
}.
Definition is_int {V} `{ArrayValue V} (v : V) : bool := bool_decide (is_Some (as_int v)).

(** [array_key_has_numeric_string_ambiguity] *)
Class KeyClassifier := { ambiguous : bytes -> bool }.

Inductive PhpArrayElementSummary := ElementsEmpty | AllInt | ElementsMixed.
Inductive PhpArrayKeyKindSummary := KeysEmpty | SequentialInt | IntOnly | StringOnly | KeysMixed.
Inductive PhpArrayShapeKind :=
| ShapeEmpty | ShapePacked | PackedWithHoles | SmallInlineMap | InternedStringKeyRecord
| ShapeStableRecordLike | ShapeMixedHash | SharedImmutableLiteralArray | CowOrReferenceFallback.
Inductive PhpArrayPackedIntReductionError :=
| NotPacked | Shared | ContainsReferences | NonIntElement | Overflow.

#[export] Instance key_kind_eq_dec : EqDecision PhpArrayKeyKindSummary.
Proof. solve_decision. Defined.

Section PhpArray.
Context {V : Type} `{ArrayValue V} `{KeyClassifier}.

Record ArrayEntry := mk_entry {
  key : ArrayKey;
  value : V;
  string_key_shared_for_shape : bool;
}.

(** [ArrayEntry::new]; [shared] is [key.is_shared()] at that moment. *)
Definition new_entry (k : ArrayKey) (shared : bool) (v : V) : ArrayEntry :=
  mk_entry k v (is_string_key k && shared).

Definition into_key_value (e : ArrayEntry) : ArrayKey * V := (key e, value e).

(** ** [ArrayCachedMetadata] *)

Record ArrayCachedMetadata := mk_metadata {
  meta_len : nat;
  reference_values : nat;
  int_values : nat;
  int_keys : nat;
  string_keys : nat;
  numeric_string_ambiguous_keys : nat;
  shared_string_keys : nat;
}.

Definition no_metadata : ArrayCachedMetadata := mk_metadata 0 0 0 0 0 0 0.

Definition add_if (c : bool) (n : nat) : nat := if c then n + 1 else n.
Definition sub_if (c : bool) (n : nat) : nat := if c then n - 1 else n.

Definition add_packed_value (m : ArrayCachedMetadata) (v : V) : ArrayCachedMetadata :=
  mk_metadata (meta_len m + 1) (add_if (is_reference v) (reference_values m))
    (add_if (is_int v) (int_values m)) (int_keys m + 1) (string_keys m)
    (numeric_string_ambiguous_keys m) (shared_string_keys m).

Definition add_record_value (m : ArrayCachedMetadata) (v : V) : ArrayCachedMetadata :=
  mk_metadata (meta_len m + 1) (add_if (is_reference v) (reference_values m))
    (add_if (is_int v) (int_values m)) (int_keys m) (string_keys m + 1)
    (numeric_string_ambiguous_keys m) (shared_string_keys m + 1).

Definition remove_packed_value (m : ArrayCachedMetadata) (v : V) : ArrayCachedMetadata :=
  mk_metadata (meta_len m - 1) (sub_if (is_reference v) (reference_values m))
    (sub_if (is_int v) (int_values m)) (int_keys m - 1) (string_keys m)
    (numeric_string_ambiguous_keys m) (shared_string_keys m).

Definition key_ambiguous (k : ArrayKey) : bool :=
  match k with KString l => ambiguous l | KInt _ => false end.
Definition entry_shared (e : ArrayEntry) : bool :=
  is_string_key (key e) && string_key_shared_for_shape e.

Definition add_entry (m : ArrayCachedMetadata) (e : ArrayEntry) : ArrayCachedMetadata :=
  mk_metadata (meta_len m + 1) (add_if (is_reference (value e)) (reference_values m))
    (add_if (is_int (value e)) (int_values m)) (add_if (is_int_key (key e)) (int_keys m))
    (add_if (is_string_key (key e)) (string_keys m))
    (add_if (key_ambiguous (key e)) (numeric_string_ambiguous_keys m))
    (add_if (entry_shared e) (shared_string_keys m)).

Definition remove_entry (m : ArrayCachedMetadata) (e : ArrayEntry) : ArrayCachedMetadata :=
  mk_metadata (meta_len m - 1) (sub_if (is_reference (value e)) (reference_values m))
    (sub_if (is_int (value e)) (int_values m)) (sub_if (is_int_key (key e)) (int_keys m))
    (sub_if (is_string_key (key e)) (string_keys m))
    (sub_if (key_ambiguous (key e)) (numeric_string_ambiguous_keys m))
    (sub_if (entry_shared e) (shared_string_keys m)).

Definition replace_value_flags (m : ArrayCachedMetadata)
    (old_is_reference new_is_reference old_is_int new_is_int : bool) : ArrayCachedMetadata :=
  mk_metadata (meta_len m)
    (add_if new_is_reference (sub_if old_is_reference (reference_values m)))
    (add_if new_is_int (sub_if old_is_int (int_values m)))
    (int_keys m) (string_keys m) (numeric_string_ambiguous_keys m) (shared_string_keys m).

Definition from_packed_values (values : list V) : ArrayCachedMetadata :=
  fold_left add_packed_value values no_metadata.
Definition from_record_values (values : list V) : ArrayCachedMetadata :=
  fold_left add_record_value values no_metadata.
Definition from_entries (entries : list ArrayEntry) : ArrayCachedMetadata :=
  fold_left add_entry entries no_metadata.

Definition contains_references (m : ArrayCachedMetadata) : bool := 0 <? reference_values m.
Definition element_summary (m : ArrayCachedMetadata) : PhpArrayElementSummary :=
  if meta_len m =? 0 then ElementsEmpty
  else if int_values m =? meta_len m then AllInt else ElementsMixed.
Definition key_kind_summary (m : ArrayCachedMetadata) (is_packed : bool) : PhpArrayKeyKindSummary :=
  if meta_len m =? 0 then KeysEmpty
  else if is_packed then SequentialInt
  else if int_keys m =? meta_len m then IntOnly
  else if string_keys m =? meta_len m then StringOnly
  else KeysMixed.
Definition has_numeric_string_key_ambiguity (m : ArrayCachedMetadata) : bool :=
  0 <? numeric_string_ambiguous_keys m.
Definition string_keys_share_storage (m : ArrayCachedMetadata) : bool :=
  string_keys m =? shared_string_keys m.

(** ** Storage *)

Record RecordShape := mk_shape { keys : list bytes; slot_by_key : gmap bytes nat }.

Inductive Layout :=
| Packed (values : list V)
| Record_ (shape : RecordShape) (values : list V)
| Mixed (entries : list (option ArrayEntry)) (live_len : nat) (index : gmap ArrayKey nat).

Record ArrayStorage := mk_storage {
  layout : Layout;
  storage_id : N;
  next_append_key : option Z;
  internal_pointer : option nat;
  mutation_epoch : N;
  cached_metadata : ArrayCachedMetadata;
}.

Definition set_layout (s : ArrayStorage) (l : Layout) (m : ArrayCachedMetadata) : ArrayStorage :=
  mk_storage l (storage_id s) (next_append_key s) (internal_pointer s) (mutation_epoch s) m.
Definition set_next_append_key (s : ArrayStorage) (n : option Z) : ArrayStorage :=
  mk_storage (layout s) (storage_id s) n (internal_pointer s) (mutation_epoch s) (cached_metadata s).
Definition set_internal_pointer (s : ArrayStorage) (p : option nat) : ArrayStorage :=
  mk_storage (layout s) (storage_id s) (next_append_key s) p (mutation_epoch s) (cached_metadata s).
Definition set_mutation_epoch (s : ArrayStorage) (n : N) : ArrayStorage :=
  mk_storage (layout s) (storage_id s) (next_append_key s) (internal_pointer s) n (cached_metadata s).
Definition set_storage_id (s : ArrayStorage) (n : N) : ArrayStorage :=
  mk_storage (layout s) n (next_append_key s) (internal_pointer s) (mutation_epoch s) (cached_metadata s).
Definition set_metadata (s : ArrayStorage) (m : ArrayCachedMetadata) : ArrayStorage :=
  set_layout s (layout s) m.

Definition bump_mutation_epoch (s : ArrayStorage) : ArrayStorage :=
  set_mutation_epoch s ((mutation_epoch s + 1) mod 2 ^ 64).

Definition saturating_succ (z : Z) : Z := saturate_i64 (z + 1).

Definition bump_append_key (s : ArrayStorage) (k : ArrayKey) : ArrayStorage :=
  match k with
  | KInt z =>
      let next := saturating_succ z in
      if match next_append_key s with None => true | Some current => (current <? next)%Z end
      then set_next_append_key s (Some next) else s
  | KString _ => s
  end.

(** ** Reading a storage *)

Definition len (s : ArrayStorage) : nat :=
  match layout s with
  | Packed values => length values
  | Record_ _ values => length values
  | Mixed _ live_len _ => live_len
  end.
Definition is_empty (s : ArrayStorage) : bool := len s =? 0.
Definition is_packed (s : ArrayStorage) : bool := match layout s with Packed _ => true | _ => false end.
Definition is_record (s : ArrayStorage) : bool := match layout s with Record_ _ _ => true | _ => false end.

(** [values[index]], and the slot with its [expect]. *)
Definition value_at (s : ArrayStorage) (i : nat) : outcome V :=
  match layout s with
  | Packed values => index values i
  | Record_ _ values => index values i
  | Mixed entries _ _ =>
      olet e := index entries i in
      match e with Some e => Ret (value e) | None => Panic end
  end.

(** [*value_at_mut(i) = v] *)
Definition set_value_at (s : ArrayStorage) (i : nat) (v : V) : outcome ArrayStorage :=
  olet _ := value_at s i in
  Ret (set_layout s
    (match layout s with
     | Packed values => Packed (<[i := v]> values)
     | Record_ shape values => Record_ shape (<[i := v]> values)
     | Mixed entries n ix =>
         Mixed (alter (fmap (fun e => mk_entry (key e) v (string_key_shared_for_shape e))) i entries) n ix
     end) (cached_metadata s)).

Definition get_value (s : ArrayStorage) (i : nat) : option V :=
  match layout s with
  | Packed values => values !! i
  | Record_ _ values => values !! i
  | Mixed entries _ _ => match entries !! i with Some (Some e) => Some (value e) | _ => None end
  end.

Definition key_at (s : ArrayStorage) (i : nat) : option ArrayKey :=
  match layout s with
  | Packed values => if i <? length values then Some (KInt (Z.of_nat i)) else None
  | Record_ shape _ => KString <$> keys shape !! i
  | Mixed entries _ _ => match entries !! i with Some (Some e) => Some (key e) | _ => None end
  end.

Definition live {A} (o : option A) : bool := match o with Some _ => true | None => false end.

Definition first_index (s : ArrayStorage) : option nat :=
  match layout s with
  | Packed values => if length values =? 0 then None else Some 0
  | Record_ _ values => if length values =? 0 then None else Some 0
  | Mixed entries _ _ => position live entries
  end.

Definition checked_pred (n : nat) : option nat := match n with O => None | S n => Some n end.

Definition last_index (s : ArrayStorage) : option nat :=
  match layout s with
  | Packed values => checked_pred (length values)
  | Record_ _ values => checked_pred (length values)
  | Mixed entries _ _ => rposition live entries
  end.

Definition next_index (s : ArrayStorage) (i : nat) : option nat :=
  match layout s with
  | Packed values => if i + 1 <? length values then Some (i + 1) else None
  | Record_ _ values => if i + 1 <? length values then Some (i + 1) else None
  | Mixed entries _ _ => (fun j => i + 1 + j) <$> position live (drop (i + 1) entries)
  end.

Definition previous_index (s : ArrayStorage) (i : nat) : outcome (option nat) :=
  match layout s with
  | Packed _ | Record_ _ _ => Ret (checked_pred i)
  | Mixed entries _ _ => olet before := slice entries 0 i in Ret (rposition live before)
  end.

Definition packed_key_index (n : nat) (k : ArrayKey) : option nat :=
  match k with
  | KInt z => if (0 <=? z)%Z && (z <? Z.of_nat n)%Z then Some (Z.to_nat z) else None
  | KString _ => None
  end.

Definition find_index (s : ArrayStorage) (k : ArrayKey) : option nat :=
  match layout s with
  | Packed values => packed_key_index (length values) k
  | Record_ shape _ => match k with KString name => slot_by_key shape !! name | KInt _ => None end
  | Mixed _ _ ix => ix !! k
  end.

(** [iter_pairs] *)
Definition packed_pairs (values : list V) : list (ArrayKey * V) :=
  imap (fun i v => (KInt (Z.of_nat i), v)) values.
Definition record_pairs (shape : RecordShape) (values : list V) : list (ArrayKey * V) :=
  zip (KString <$> keys shape) values.
Definition mixed_pairs (entries : list (option ArrayEntry)) : list (ArrayKey * V) :=
  into_key_value <$> omap id entries.

Definition iter (s : ArrayStorage) : list (ArrayKey * V) :=
  match layout s with
  | Packed values => packed_pairs values
  | Record_ shape values => record_pairs shape values
  | Mixed entries _ _ => mixed_pairs entries
  end.

(** ** Changing a storage *)

(** The shape for [keys + key], which the shape cache, its transitions and the
    private growth of large shapes all compute. *)
Definition extend_shape (shape : RecordShape) (k : bytes) : RecordShape :=
  mk_shape (keys shape ++ [k]) (<[k := length (keys shape)]> (slot_by_key shape)).
Definition empty_shape : RecordShape := mk_shape [] ∅.

(** [build_index] *)
Fixpoint index_from (i : nat) (entries : list ArrayEntry) (ix : gmap ArrayKey nat) : gmap ArrayKey nat :=
  match entries with
  | [] => ix
  | e :: entries => index_from (i + 1) entries (<[key e := i]> ix)
  end.
Definition build_index (entries : list ArrayEntry) : gmap ArrayKey nat := index_from 0 entries ∅.

Definition mixed_layout (entries : list ArrayEntry) : Layout :=
  Mixed (Some <$> entries) (length entries) (build_index entries).

(** The keys of a shape are interned, hence shared. *)
Definition make_record_mixed (s : ArrayStorage) : ArrayStorage :=
  match layout s with
  | Record_ shape values =>
      set_layout s (mixed_layout (zip_with (fun v k => new_entry (KString k) true v) values (keys shape)))
        (cached_metadata s)
  | _ => s
  end.

Definition make_mixed (s : ArrayStorage) : ArrayStorage :=
  match layout s with
  | Record_ _ _ => make_record_mixed s
  | Packed values =>
      set_layout s (mixed_layout (imap (fun i v => new_entry (KInt (Z.of_nat i)) false v) values))
        (cached_metadata s)
  | Mixed _ _ _ => s
  end.

Definition promote_empty_to_record (s : ArrayStorage) : ArrayStorage :=
  set_layout s (Record_ empty_shape []) no_metadata.

Definition push_entry (s : ArrayStorage) (e : ArrayEntry) : outcome ArrayStorage :=
  match layout s with
  | Record_ shape values =>
      match key e with
      | KString k => Ret (set_layout s (Record_ (extend_shape shape k) (values ++ [value e]))
                            (add_record_value (cached_metadata s) (value e)))
      | KInt _ => Panic
      end
  | Packed values => Ret (set_layout s (Packed (values ++ [value e]))
                            (add_packed_value (cached_metadata s) (value e)))
  | Mixed entries n ix =>
      Ret (set_layout s (Mixed (entries ++ [Some e]) (n + 1) (<[key e := length entries]> ix))
             (add_entry (cached_metadata s) e))
  end.

Definition replace_value (s : ArrayStorage) (i : nat) (v : V) : outcome (V * ArrayStorage) :=
  olet old := value_at s i in
  olet s := set_value_at s i v in
  Ret (old, set_metadata s (replace_value_flags (cached_metadata s) (is_reference old) (is_reference v)
                              (is_int old) (is_int v))).

Definition remove_index (s : ArrayStorage) (i : nat) : outcome (ArrayKey * V * ArrayStorage) :=
  match layout s with
  | Record_ _ _ => Panic
  | Packed values =>
      olet v := index values i in
      Ret (KInt (Z.of_nat i), v,
           set_layout s (Packed (base.delete i values)) (remove_packed_value (cached_metadata s) v))
  | Mixed entries n ix =>
      olet slot := index entries i in
      match slot with
      | None => Panic
      | Some e =>
          olet n := usize_sub n 1 in
          Ret (key e, value e,
               set_layout s (Mixed (<[i := None]> entries) n (base.delete (key e) ix))
                 (remove_entry (cached_metadata s) e))
      end
  end.

Definition MIXED_COMPACTION_MIN_TOMBSTONES : nat := 32.

(** The loop of [compact_mixed_if_needed]: the live entries so far, their index,
    the pointer; [i] is the old slot. *)
Fixpoint compact_loop (old_pointer : option nat) (i : nat) (old : list (option ArrayEntry))
    (entries : list (option ArrayEntry)) (ix : gmap ArrayKey nat) (pointer : option nat) :
    list (option ArrayEntry) * gmap ArrayKey nat * option nat :=
  match old with
  | [] => (entries, ix, pointer)
  | None :: old => compact_loop old_pointer (i + 1) old entries ix pointer
  | Some e :: old =>
      let new_index := length entries in
      let pointer := if bool_decide (old_pointer = Some i) then Some new_index else pointer in
      compact_loop old_pointer (i + 1) old (entries ++ [Some e]) (<[key e := new_index]> ix) pointer
  end.

Definition compact_mixed_if_needed (s : ArrayStorage) : ArrayStorage :=
  match layout s with
  | Mixed entries n ix =>
      let tombstones := length entries - n in
      if (tombstones <? MIXED_COMPACTION_MIN_TOMBSTONES) || (tombstones * 2 <? length entries) then s
      else
        let '(entries, ix, pointer) := compact_loop (internal_pointer s) 0 entries [] ∅ None in
        set_internal_pointer (set_layout s (Mixed entries n ix) (cached_metadata s)) pointer
  | _ => s
  end.

Definition adjust_pointer_after_remove (s : ArrayStorage) (removed : nat) : ArrayStorage :=
  match internal_pointer s with
  | None => s
  | Some pointer =>
      match layout s with
      | Mixed _ _ _ =>
          set_internal_pointer s
            (if is_empty s then None
             else if pointer =? removed then next_index s removed
             else Some pointer)
      | _ =>
          set_internal_pointer s
            (if is_empty s then None
             else if removed <? pointer then Some (pointer - 1)
             else if len s <=? pointer then None
             else Some pointer)
      end
  end.

(** ** [PhpArray] *)

Definition new_array (id : N) : ArrayStorage := mk_storage (Packed []) id None None 0 no_metadata.

Definition from_packed (id : N) (elements : list V) : ArrayStorage :=
  let n := length elements in
  mk_storage (Packed elements) id
    (if 0 <? n then checked_i64 (Z.of_nat n) else None)
    (if 0 <? n then Some 0 else None) (N.of_nat n) (from_packed_values elements).

(** The pointer starts at the first element when there was none. *)
Definition start_pointer (s : ArrayStorage) : ArrayStorage :=
  match internal_pointer s with None => set_internal_pointer s (first_index s) | Some _ => s end.

Definition is_next_packed (s : ArrayStorage) (k : ArrayKey) : bool :=
  is_packed s && bool_decide (k = KInt (Z.of_nat (len s))).

(** The storage that can take a new key: [insert] leaves packed storage for a key
    that is not the next index, and record storage for an integer or ambiguous
    key. *)
Definition prepare_insert (s : ArrayStorage) (k : ArrayKey) : ArrayStorage :=
  if is_next_packed s k then s
  else if is_record s then
    match k with
    | KInt _ => make_record_mixed s
    | KString name => if ambiguous name then make_record_mixed s else s
    end
  else if is_packed s && (len s =? 0) && is_string_key k && negb (key_ambiguous k)
  then promote_empty_to_record s
  else make_mixed s.

(** [shared] is [key.is_shared()] for the string key. *)
Definition insert (s : ArrayStorage) (k : ArrayKey) (shared : bool) (v : V) :
    outcome (option V * ArrayStorage) :=
  let s := bump_append_key s k in
  match find_index s k with
  | Some i =>
      olet (old, s) := replace_value (bump_mutation_epoch s) i v in
      Ret (Some old, s)
  | None =>
      let s := prepare_insert s k in
      olet s := push_entry s (new_entry k shared v) in
      Ret (None, bump_mutation_epoch (start_pointer s))
  end.

Definition next_key (s : ArrayStorage) : Z := default 0%Z (next_append_key s).

Definition can_append (s : ArrayStorage) : bool :=
  negb (next_key s =? I64_MAX)%Z || bool_decide (find_index s (KInt I64_MAX) = None).

(** [Err(PhpArrayAppendError)] is [None]. *)
Definition try_append (s : ArrayStorage) (v : V) : outcome (option ArrayKey * ArrayStorage) :=
  if negb (can_append s) then Ret (None, s)
  else
    let s := if is_record s then make_record_mixed s else s in
    let k := KInt (next_key s) in
    let remains_packed := is_next_packed s k in
    let s := bump_append_key s k in
    let s := if remains_packed then s else make_mixed s in
    olet s := push_entry s (new_entry k false v) in
    Ret (Some k, bump_mutation_epoch (start_pointer s)).

Definition append (s : ArrayStorage) (v : V) : outcome (ArrayKey * ArrayStorage) :=
  olet (k, s) := try_append s v in Ret (default (KInt I64_MAX) k, s).

(** The keys of [source] are cloned, so they are shared. *)
Fixpoint spread_extend (s : ArrayStorage) (source : list (ArrayKey * V)) : outcome ArrayStorage :=
  match source with
  | [] => Ret s
  | (KInt _, v) :: source => olet (_, s) := append s v in spread_extend s source
  | (KString k, v) :: source => olet (_, s) := insert s (KString k) true v in spread_extend s source
  end.

Definition get (s : ArrayStorage) (k : ArrayKey) : option V :=
  match find_index s k with Some i => get_value s i | None => None end.

(** [get_mut] with the write [f] of its borrower, up to the drop of the guard. *)
Definition update_mut (s : ArrayStorage) (k : ArrayKey) (f : V -> V) : outcome (option ArrayStorage) :=
  match find_index s k with
  | None => Ret None
  | Some i =>
      olet old := value_at s i in
      olet s := set_value_at (bump_mutation_epoch s) i (f old) in
      olet new := value_at s i in
      Ret (Some (set_metadata s (replace_value_flags (cached_metadata s) (is_reference old)
                                   (is_reference new) (is_int old) (is_int new))))
  end.

(** [remove] leaves record storage, and packed storage unless the last element
    goes. *)
Definition prepare_remove (s : ArrayStorage) (i : nat) : ArrayStorage :=
  if is_record s then make_record_mixed s
  else if is_packed s && negb (i + 1 =? len s) then make_mixed s
  else s.

Definition remove (s : ArrayStorage) (k : ArrayKey) : outcome (option V * ArrayStorage) :=
  match find_index s k with
  | None => Ret (None, s)
  | Some i =>
      let s := prepare_remove s i in
      olet (_, v, s) := remove_index s i in
      Ret (Some v, bump_mutation_epoch (compact_mixed_if_needed (adjust_pointer_after_remove s i)))
  end.

Definition last_key (s : ArrayStorage) : option ArrayKey :=
  match last_index s with Some i => key_at s i | None => None end.

Definition pop (s : ArrayStorage) : outcome (option V * ArrayStorage) :=
  match last_key s with
  | None => Ret (None, s)
  | Some last =>
      let previous_next := next_append_key s in
      olet (v, s) := remove s last in
      match last with
      | KInt z => if bool_decide (previous_next = Some (saturating_succ z))
                  then Ret (v, set_next_append_key s (Some z)) else Ret (v, s)
      | KString _ => Ret (v, s)
      end
  end.

(** ** The internal pointer *)

Definition pointer_value (s : ArrayStorage) : option V :=
  match internal_pointer s with Some i => get_value s i | None => None end.
Definition pointer_key (s : ArrayStorage) : option ArrayKey :=
  match internal_pointer s with Some i => key_at s i | None => None end.

Fixpoint position_loop (fuel : nat) (s : ArrayStorage) (target i pos : nat) : option nat :=
  match fuel with
  | O => None
  | S fuel =>
      if i =? target then Some pos
      else match next_index s i with
           | None => None
           | Some i => position_loop fuel s target i (pos + 1)
           end
  end.

(** Each round of the loop moves to a later slot. *)
Definition slots (s : ArrayStorage) : nat :=
  match layout s with Packed values | Record_ _ values => length values | Mixed entries _ _ => length entries end.

Definition native_pointer_position (s : ArrayStorage) : option nat :=
  match internal_pointer s, first_index s with
  | Some target, Some i => position_loop (slots s) s target i 0
  | _, _ => None
  end.

Fixpoint advance (s : ArrayStorage) (n : nat) (i : nat) : option nat :=
  match n with
  | O => Some i
  | S n => match next_index s i with Some i => advance s n i | None => None end
  end.

Definition set_native_pointer_position (s : ArrayStorage) (p : option nat) : ArrayStorage :=
  set_internal_pointer s
    (match p, first_index s with Some n, Some i => advance s n i | _, _ => None end).

Definition reset_pointer (s : ArrayStorage) : option V * ArrayStorage :=
  if is_empty s then (None, set_internal_pointer s None)
  else match first_index s with
       | None => (None, s)
       | Some i => (get_value s i, set_internal_pointer s (Some i))
       end.

Definition end_pointer (s : ArrayStorage) : option V * ArrayStorage :=
  match last_index s with
  | None => (None, s)
  | Some i => (get_value s i, set_internal_pointer s (Some i))
  end.

Definition next_pointer (s : ArrayStorage) : option V * ArrayStorage :=
  match internal_pointer s with
  | None => (None, s)
  | Some i =>
      match next_index s i with
      | None => (None, set_internal_pointer s None)
      | Some j => (get_value s j, set_internal_pointer s (Some j))
      end
  end.

Definition prev_pointer (s : ArrayStorage) : outcome (option V * ArrayStorage) :=
  match internal_pointer s with
  | None => Ret (None, s)
  | Some i =>
      olet p := previous_index s i in
      match p with
      | None => Ret (None, set_internal_pointer s None)
      | Some j => Ret (get_value s j, set_internal_pointer s (Some j))
      end
  end.

(** ** Iteration *)

Definition pair_at (s : ArrayStorage) (i : nat) : option (ArrayKey * V) :=
  match layout s with
  | Mixed entries _ _ => into_key_value <$> omap id entries !! i
  | _ => match key_at s i, get_value s i with Some k, Some v => Some (k, v) | _, _ => None end
  end.

(** The forward pass over the slots from [cursor]. *)
Fixpoint next_live (cursor : nat) (slots : list (option ArrayEntry)) : option (ArrayKey * V) * nat :=
  match slots with
  | [] => (None, cursor)
  | None :: slots => next_live (cursor + 1) slots
  | Some e :: _ => (Some (into_key_value e), cursor + 1)
  end.

Definition next_pair_at_cursor (s : ArrayStorage) (cursor : nat) : option (ArrayKey * V) * nat :=
  match layout s with
  | Mixed entries _ _ => next_live cursor (drop cursor entries)
  | _ => match pair_at s cursor with Some p => (Some p, cursor + 1) | None => (None, cursor) end
  end.

Definition into_pairs (s : ArrayStorage) : list (ArrayKey * V) := iter s.

(** [packed_elements]: the values when the keys are exactly [0..len]. *)
Fixpoint sequential (i : nat) (l : list (ArrayKey * V)) : option (list V) :=
  match l with
  | [] => Some []
  | (k, v) :: l =>
      if bool_decide (k = KInt (Z.of_nat i)) then cons v <$> sequential (i + 1) l else None
  end.
Definition packed_elements (s : ArrayStorage) : option (list V) :=
  match layout s with
  | Packed values => Some values
  | Record_ _ _ => None
  | Mixed entries _ _ => sequential 0 (mixed_pairs entries)
  end.
Definition packed_element (s : ArrayStorage) (i : nat) : option V :=
  match packed_elements s with Some values => values !! i | None => None end.

Fixpoint checked_sum (sum : Z) (l : list (ArrayKey * V)) : Z + PhpArrayPackedIntReductionError :=
  match l with
  | [] => inl sum
  | (_, v) :: l =>
      match as_int v with
      | None => inr NonIntElement
      | Some z => match checked_i64 (sum + z) with Some sum => checked_sum sum l | None => inr Overflow end
      end
  end.

(** [shared]: the storage has more than one owner. *)
Definition packed_int_sum_fast (s : ArrayStorage) (shared : bool) : Z + PhpArrayPackedIntReductionError :=
  if negb (is_packed s) then inr NotPacked
  else if shared then inr Shared
  else if contains_references (cached_metadata s) then inr ContainsReferences
  else match element_summary (cached_metadata s) with
       | ElementsEmpty => inl 0%Z
       | ElementsMixed => inr NonIntElement
       | AllInt => checked_sum 0%Z (iter s)
       end.

Definition shape_kind (s : ArrayStorage) (shared : bool) : PhpArrayShapeKind :=
  let m := cached_metadata s in
  let summary := key_kind_summary m (is_packed s) in
  let ambiguity := has_numeric_string_key_ambiguity m in
  if contains_references m then CowOrReferenceFallback
  else if is_empty s then ShapeEmpty
  else if is_packed s then ShapePacked
  else if bool_decide (summary = StringOnly) && negb ambiguity && string_keys_share_storage m
  then InternedStringKeyRecord
  else if bool_decide (summary = StringOnly) && negb ambiguity then ShapeStableRecordLike
  else if bool_decide (summary = IntOnly) then PackedWithHoles
  else if (len s <=? 4) && negb ambiguity then SmallInlineMap
  else if shared then SharedImmutableLiteralArray
  else ShapeMixedHash.

Inductive PhpArrayShapeLookup := Hit (v : V) | Miss | FallbackKeyCoercion | FallbackCowOrReference
| FallbackUnsupportedShape.

Definition hit_or_miss (o : option V) : PhpArrayShapeLookup :=
  match o with Some v => Hit v | None => Miss end.

Definition record_shape_string_key_lookup (s : ArrayStorage) (shared : bool) (k : ArrayKey) : PhpArrayShapeLookup :=
  match k with
  | KInt _ => FallbackKeyCoercion
  | KString _ =>
      if contains_references (cached_metadata s) then FallbackCowOrReference
      else if has_numeric_string_key_ambiguity (cached_metadata s) then FallbackKeyCoercion
      else match shape_kind s shared with
           | InternedStringKeyRecord | ShapeStableRecordLike => hit_or_miss (get s k)
           | _ => FallbackUnsupportedShape
           end
  end.

Definition small_map_lookup (s : ArrayStorage) (shared : bool) (k : ArrayKey) : PhpArrayShapeLookup :=
  if contains_references (cached_metadata s) then FallbackCowOrReference
  else if has_numeric_string_key_ambiguity (cached_metadata s) then FallbackKeyCoercion
  else match shape_kind s shared with
       | SmallInlineMap => hit_or_miss (get s k)
       | _ => FallbackUnsupportedShape
       end.

(** Direct access to record slots. *)
Definition record_slot_for_symbol (s : ArrayStorage) (k : bytes) : option nat :=
  match layout s with Record_ shape _ => slot_by_key shape !! k | _ => None end.
Definition record_get_symbol (s : ArrayStorage) (k : bytes) : option V :=
  match layout s with
  | Record_ shape values => match slot_by_key shape !! k with Some i => values !! i | None => None end
  | _ => None
  end.
Definition record_set_symbol (s : ArrayStorage) (k : bytes) (v : V) : outcome (bool * ArrayStorage) :=
  match record_slot_for_symbol s k with
  | None => Ret (false, s)
  | Some i => olet (_, s) := replace_value s i v in Ret (true, bump_mutation_epoch s)
  end.
End PhpArray.
