(* ===== verification/PhpArrayProofs.v ===== *)
(** * PhpArrayProofs: arrays refine ordered maps

    The three storages of [PhpArray] seen as one list of slots, the consistency
    that [debug_assert_consistent] asserts and more ([array_ok]), and the
    simulation of an abstract ordered map with an append key and a position. *)

From Stdlib Require Import Strings.String Strings.Byte ZArith.
From stdpp Require Import base list option numbers gmap fin_maps.
From S2P Require Import Prelude RustStd RustNum PhpString NumericString PhpArray.

(** ** Lists of slots

    A slot is live or a tombstone; the rank of a slot is the number of live slots
    before it, the position of its element in the array. *)

Section Slots.
Context {A : Type}.
Implicit Types L : list (option A).

Definition rank L (i : nat) : nat := length (omap id (take i L)).

Lemma slot_split L i x : L !! i = Some (Some x) ->
  omap id L = omap id (take i L) ++ x :: omap id (drop (S i) L).
Proof.
  intros E. rewrite <- (take_drop_middle L i (Some x) E) at 1. rewrite omap_app. done.
Qed.

Lemma lookup_rank L i x : L !! i = Some (Some x) -> omap id L !! rank L i = Some x.
Proof. intros E. rewrite (slot_split L i x E). by apply list_lookup_middle. Qed.

Lemma rank_lt L i x : L !! i = Some (Some x) -> rank L i < length (omap id L).
Proof. intros E. apply lookup_lt_is_Some. exists x. by apply lookup_rank. Qed.

Lemma omap_dead L : none_is live L -> omap id L = [].
Proof.
  induction 1 as [|o L Ho _ IH]; [done|]. destruct o; [done|]. exact IH.
Qed.

Lemma rank_app L1 L2 j : rank (L1 ++ L2) (length L1 + j) = length (omap id L1) + rank L2 j.
Proof. unfold rank. by rewrite take_app_add, omap_app, length_app. Qed.

Lemma live_Some (o : option A) : live o = true <-> exists x, o = Some x.
Proof. destruct o; cbn; naive_solver. Qed.

(** The first, last, next and previous live slot. *)
Lemma position_live L i : position live L = Some i -> exists x, L !! i = Some (Some x) /\ rank L i = 0.
Proof.
  rewrite position_Some. intros [(o & E & [x ->]%live_Some) Hb]. exists x. split; [done|].
  unfold rank. rewrite omap_dead; [done|]. apply Forall_lookup. intros j o' Ej.
  apply lookup_take_Some in Ej as [Ej Hj]. by apply (Hb j).
Qed.

Lemma position_dead L : position live L = None -> omap id L = [].
Proof. intros H. by apply omap_dead, position_None. Qed.

Lemma rposition_live L i :
  rposition live L = Some i -> exists x, L !! i = Some (Some x) /\ length (omap id L) = rank L i + 1.
Proof.
  rewrite rposition_Some. intros [(o & E & [x ->]%live_Some) Hb]. exists x. split; [done|].
  rewrite (slot_split L i x E), length_app. cbn [length]. rewrite (omap_dead (drop (S i) L)); [done|].
  apply Forall_lookup. intros j o' Ej. rewrite lookup_drop in Ej. apply (Hb (S i + j)); [lia|done].
Qed.

Lemma rposition_dead L : rposition live L = None -> omap id L = [].
Proof. intros H. by apply omap_dead, rposition_None. Qed.

Definition next_slot L (i : nat) : option nat := (fun j => i + 1 + j) <$> position live (drop (i + 1) L).
Definition prev_slot L (i : nat) : option nat := rposition live (take i L).

Lemma rank_succ L i x : L !! i = Some (Some x) -> rank L (i + 1) = rank L i + 1.
Proof.
  intros E. unfold rank. rewrite Nat.add_1_r, (take_S_r L i (Some x) E), omap_app, length_app. done.
Qed.

Lemma next_slot_Some L i x j :
  L !! i = Some (Some x) -> next_slot L i = Some j ->
  (exists y, L !! j = Some (Some y)) /\ rank L j = rank L i + 1.
Proof.
  unfold next_slot. intros E (k & Ek & ->)%fmap_Some. apply position_live in Ek as (y & Ey & Hr).
  rewrite lookup_drop in Ey. split; [eauto|].
  pose proof (lookup_lt_Some _ _ _ E). rewrite <- (take_drop (i + 1) L) at 1.
  replace (i + 1 + k) with (length (take (i + 1) L) + k) at 1 by (rewrite length_take; lia).
  rewrite rank_app, Hr, Nat.add_0_r. apply (rank_succ L i x E).
Qed.

Lemma next_slot_None L i x :
  L !! i = Some (Some x) -> next_slot L i = None -> length (omap id L) = rank L i + 1.
Proof.
  unfold next_slot. rewrite fmap_None. intros E Hd%position_dead.
  rewrite (slot_split L i x E), length_app. rewrite Nat.add_1_r in Hd. by rewrite Hd.
Qed.

Lemma prev_slot_Some L i j :
  prev_slot L i = Some j -> (exists y, L !! j = Some (Some y)) /\ rank L i = rank L j + 1.
Proof.
  unfold prev_slot. intros (y & Ey & Hl)%rposition_live. apply lookup_take_Some in Ey as [Ey Hj].
  split; [eauto|]. unfold rank in Hl at 1. rewrite take_take in Hl. unfold rank.
  by rewrite Nat.min_l in Hl by lia.
Qed.

Lemma prev_slot_None L i : prev_slot L i = None -> rank L i = 0.
Proof. unfold prev_slot, rank. intros ->%rposition_dead. done. Qed.

Lemma rank_mono L i j x : L !! i = Some (Some x) -> i < j -> rank L i < rank L j.
Proof.
  intros E Hij. unfold rank. rewrite <- (take_drop (S i) (take j L)), omap_app, length_app, take_take.
  rewrite Nat.min_l by lia. rewrite (take_S_r L i _ E), omap_app, length_app. cbn. lia.
Qed.

Lemma rank_inj L i j x y :
  L !! i = Some (Some x) -> L !! j = Some (Some y) -> rank L i = rank L j -> i = j.
Proof.
  intros Ei Ej Hr. destruct (Nat.lt_trichotomy i j) as [H|[H|H]]; [|done|].
  - apply (rank_mono L i j x) in H; [lia|done].
  - apply (rank_mono L j i y) in H; [lia|done].
Qed.

Lemma rank_le L i : rank L i <= i.
Proof.
  unfold rank. etransitivity; [|apply (firstn_le_length i L)].
  generalize (take i L). intros l. induction l as [|[x|] l IH]; cbn; lia.
Qed.

(** Updates. *)
Lemma rank_insert L i o j : j <= i -> rank (<[i := o]> L) j = rank L j.
Proof. intros H. unfold rank. by rewrite take_insert_ge. Qed.

Lemma omap_kill L i x : L !! i = Some (Some x) ->
  omap id (<[i := None]> L) = delete (rank L i) (omap id L).
Proof.
  intros E. pose proof (lookup_lt_Some _ _ _ E).
  rewrite insert_take_drop by done. rewrite omap_app. cbn [omap list_omap id].
  rewrite (slot_split L i x E). unfold rank. rewrite delete_middle. done.
Qed.

Lemma omap_set L i x y : L !! i = Some (Some x) ->
  omap id (<[i := Some y]> L) = <[rank L i := y]> (omap id L).
Proof.
  intros E. pose proof (lookup_lt_Some _ _ _ E).
  rewrite insert_take_drop by done. rewrite omap_app. cbn [omap list_omap id].
  rewrite (slot_split L i x E). unfold rank. rewrite insert_app_r_alt by done.
  by rewrite Nat.sub_diag.
Qed.

Lemma omap_all_live (l : list A) : omap id (Some <$> l) = l.
Proof. induction l as [|x l IH]; [done|]. cbn. by rewrite IH. Qed.

Lemma rank_all_live (l : list A) i : i <= length l -> rank (Some <$> l) i = i.
Proof. intros H. unfold rank. rewrite <- fmap_take, omap_all_live, length_take. lia. Qed.

Lemma position_all_live (l : list A) :
  position live (Some <$> l) = (if length l =? 0 then None else Some 0).
Proof. by destruct l. Qed.

Lemma rposition_all_live (l : list A) : rposition live (Some <$> l) = checked_pred (length l).
Proof.
  induction l as [|x l IH]; [done|]. cbn [fmap list_fmap rposition length checked_pred].
  rewrite IH. by destruct l.
Qed.
End Slots.

(** ** One view of the three storages *)

Section View.
Context {V : Type} `{ArrayValue V} `{KeyClassifier}.
Implicit Types s : ArrayStorage (V := V).
Implicit Types l : Layout (V := V).

Definition layout_slots l : list (option (ArrayKey * V)) :=
  match l with
  | Packed values => fmap (M := list) Some (packed_pairs values)
  | Record_ shape values => fmap (M := list) Some (record_pairs shape values)
  | Mixed entries _ _ => fmap (M := list) (fmap (M := option) into_key_value) entries
  end.
Definition slot_list s : list (option (ArrayKey * V)) := layout_slots (layout s).

(** The shape maps each of its keys to its slot. *)
Definition shape_ok (shape : RecordShape) : Prop :=
  forall k i, slot_by_key shape !! k = Some i <-> keys shape !! i = Some k.

(** [debug_assert_consistent], with the uniqueness that the index map implies and
    the condition under which records are built. *)
Definition layout_ok l (m : ArrayCachedMetadata) : Prop :=
  match l with
  | Packed values => m = from_packed_values values
  | Record_ shape values =>
      shape_ok shape /\ length (keys shape) = length values /\ m = from_record_values values /\
      Forall (fun k => ambiguous k = false) (keys shape)
  | Mixed entries n ix =>
      n = length (omap id entries) /\ m = from_entries (omap id entries) /\
      forall k i, ix !! k = Some i <-> exists e, entries !! i = Some (Some e) /\ key e = k
  end.

Definition key_ok (k : ArrayKey) : Prop := match k with KInt z => in_i64 z = true | KString _ => True end.

(** Every integer key is below the append key, except the largest one, after
    which the append key stays where it is. *)
Definition append_ok (next : option Z) (ks : list ArrayKey) : Prop :=
  (forall n, next = Some n -> in_i64 n = true) /\
  forall z, KInt z ∈ ks -> exists n, next = Some n /\ (z < n \/ z = I64_MAX)%Z.

Record array_ok (s : ArrayStorage (V := V)) : Prop := {
  layout_consistent : layout_ok (layout s) (cached_metadata s);
  pointer_live p : internal_pointer s = Some p -> exists x, slot_list s !! p = Some (Some x);
  keys_ok : Forall key_ok (iter s).*1;
  append_fresh : append_ok (next_append_key s) (iter s).*1;
}.

Lemma omap_fmap_slots {A B} (f : A -> B) (L : list (option A)) : omap id (fmap (M := list) (fmap (M := option) f) L) = f <$> omap id L.
Proof. induction L as [|[x|] L IH]; [done| |exact IH]. cbn. by rewrite IH. Qed.

Lemma live_fmap {A B} (f : A -> B) (o : option A) : live (fmap (M := option) f o) = live o.
Proof. by destruct o. Qed.

Lemma position_fmap_slots {A B} (f : A -> B) (L : list (option A)) :
  position live (fmap (M := list) (fmap (M := option) f) L) = position live L.
Proof. induction L as [|o L IH]; [done|]. cbn. rewrite live_fmap, IH. done. Qed.

Lemma rposition_fmap_slots {A B} (f : A -> B) (L : list (option A)) :
  rposition live (fmap (M := list) (fmap (M := option) f) L) = rposition live L.
Proof. induction L as [|o L IH]; [done|]. cbn. rewrite live_fmap, IH. done. Qed.

Lemma iter_slots s : iter s = omap id (slot_list s).
Proof.
  unfold iter, slot_list, layout_slots. destruct (layout s); [by rewrite omap_all_live..|].
  unfold mixed_pairs. by rewrite omap_fmap_slots.
Qed.

Lemma packed_pairs_length (values : list V) : length (packed_pairs values) = length values.
Proof. apply length_imap. Qed.

Lemma record_pairs_length (shape : RecordShape) (values : list V) :
  length (keys shape) = length values -> length (record_pairs shape values) = length values.
Proof. intros E. unfold record_pairs. rewrite length_zip_with, length_fmap. lia. Qed.

Lemma packed_pairs_lookup (values : list V) i :
  packed_pairs values !! i = (fun v => (KInt (Z.of_nat i), v)) <$> values !! i.
Proof. unfold packed_pairs. by rewrite list_lookup_imap. Qed.

Lemma record_pairs_lookup (shape : RecordShape) (values : list V) i :
  record_pairs shape values !! i =
  (match keys shape !! i, values !! i with Some k, Some v => Some (KString k, v) | _, _ => None end).
Proof.
  unfold record_pairs. rewrite lookup_zip_with, list_lookup_fmap.
  destruct (keys shape !! i); [|done]. cbn. by destruct (values !! i).
Qed.

(** The reading operations in terms of the slots. *)
Lemma slots_length s m : layout_ok (layout s) m -> length (slot_list s) = slots s.
Proof.
  unfold slot_list, layout_slots, slots. destruct (layout s) as [values|shape values|entries n ix].
  - intros _. by rewrite length_fmap, packed_pairs_length.
  - intros (_ & E & _). by rewrite length_fmap, record_pairs_length.
  - intros _. apply length_fmap.
Qed.

Lemma len_iter s m : layout_ok (layout s) m -> len s = length (iter s).
Proof.
  unfold len, iter. destruct (layout s) as [values|shape values|entries n ix].
  - intros _. by rewrite packed_pairs_length.
  - intros (_ & E & _). by rewrite record_pairs_length.
  - intros (-> & _). unfold mixed_pairs. by rewrite length_fmap.
Qed.

Lemma key_value_at s m i : layout_ok (layout s) m ->
  match slot_list s !! i with
  | Some (Some (k, v)) => key_at s i = Some k /\ get_value s i = Some v /\ value_at s i = Ret v
  | _ => key_at s i = None /\ get_value s i = None
  end.
Proof.
  unfold slot_list, layout_slots, key_at, get_value, value_at, Prelude.index.
  destruct (layout s) as [values|shape values|entries n ix]; rewrite list_lookup_fmap.
  - intros _. rewrite packed_pairs_lookup. destruct (values !! i) as [v|] eqn:E; cbn [fmap option_fmap option_map].
    + apply lookup_lt_Some in E. rewrite (proj2 (Nat.ltb_lt _ _)) by done. done.
    + apply lookup_ge_None in E. rewrite (proj2 (Nat.ltb_ge _ _)) by done. done.
  - intros (_ & E & _). rewrite record_pairs_lookup. destruct (values !! i) as [v|] eqn:Ev; cbn.
    + destruct (keys shape !! i) eqn:Ek; [done|]. apply lookup_lt_Some in Ev.
      apply lookup_ge_None in Ek. lia.
    + destruct (keys shape !! i) eqn:Ek; [|done]. apply lookup_ge_None in Ev.
      apply lookup_lt_Some in Ek. lia.
  - intros _. by destruct (entries !! i) as [[e|]|].
Qed.

Lemma first_index_slots s m : layout_ok (layout s) m -> first_index s = position live (slot_list s).
Proof.
  unfold slot_list, layout_slots, first_index.
  destruct (layout s) as [values|shape values|entries n ix].
  - intros _. by rewrite position_all_live, packed_pairs_length.
  - intros (_ & E & _). by rewrite position_all_live, record_pairs_length.
  - intros _. by rewrite position_fmap_slots.
Qed.

Lemma last_index_slots s m : layout_ok (layout s) m -> last_index s = rposition live (slot_list s).
Proof.
  unfold slot_list, layout_slots, last_index.
  destruct (layout s) as [values|shape values|entries n ix].
  - intros _. by rewrite rposition_all_live, packed_pairs_length.
  - intros (_ & E & _). by rewrite rposition_all_live, record_pairs_length.
  - intros _. by rewrite rposition_fmap_slots.
Qed.

Lemma next_all_live {A} (l : list A) i :
  next_slot (Some <$> l) i = (if i + 1 <? length l then Some (i + 1) else None).
Proof.
  unfold next_slot. rewrite <- fmap_drop, position_all_live, length_drop.
  destruct (i + 1 <? length l) eqn:E; [apply Nat.ltb_lt in E|apply Nat.ltb_ge in E].
  - rewrite (proj2 (Nat.eqb_neq _ _)) by lia. cbn. f_equal. lia.
  - rewrite (proj2 (Nat.eqb_eq _ _)) by lia. done.
Qed.

Lemma next_index_slots s m i : layout_ok (layout s) m -> next_index s i = next_slot (slot_list s) i.
Proof.
  unfold slot_list, layout_slots, next_index.
  destruct (layout s) as [values|shape values|entries n ix].
  - intros _. by rewrite next_all_live, packed_pairs_length.
  - intros (_ & E & _). by rewrite next_all_live, record_pairs_length.
  - intros _. unfold next_slot. by rewrite <- fmap_drop, position_fmap_slots.
Qed.

Lemma prev_index_slots s m i :
  layout_ok (layout s) m -> i <= length (slot_list s) ->
  previous_index s i = Ret (prev_slot (slot_list s) i).
Proof.
  unfold slot_list, layout_slots, previous_index, prev_slot.
  destruct (layout s) as [values|shape values|entries n ix]; rewrite <- fmap_take, length_fmap; intros Hok Hi.
  - rewrite rposition_all_live, length_take. by rewrite Nat.min_l.
  - rewrite rposition_all_live, length_take. by rewrite Nat.min_l.
  - rewrite rposition_fmap_slots. unfold slice. rewrite (proj2 (Nat.leb_le _ _) Hi). cbn. done.
Qed.

(** The slot of a key. *)
Lemma find_index_slots s m k i : layout_ok (layout s) m ->
  find_index s k = Some i <-> exists v, slot_list s !! i = Some (Some (k, v)).
Proof.
  unfold find_index, slot_list, layout_slots.
  destruct (layout s) as [values|shape values|entries n ix]; rewrite list_lookup_fmap.
  - intros _. rewrite packed_pairs_lookup. unfold packed_key_index. destruct k as [z|name].
    + destruct ((0 <=? z)%Z && (z <? Z.of_nat (length values))%Z) eqn:E.
      * apply andb_true_iff in E as [H1%Z.leb_le H2%Z.ltb_lt].
        destruct (lookup_lt_is_Some_2 values (Z.to_nat z)) as [v Ev]; [lia|]. split.
        -- intros [= <-]. exists v. rewrite Ev. cbn. by rewrite Z2Nat.id.
        -- intros (w & Hw). destruct (values !! i); [|done]. cbn in Hw. injection Hw as <- <-. f_equal. lia.
      * split; [done|]. intros (w & Hw). destruct (values !! i) eqn:Ev; [|done]. cbn in Hw.
        injection Hw as <- <-. apply lookup_lt_Some in Ev.
        apply andb_false_iff in E as [E|E]; [apply Z.leb_gt in E|apply Z.ltb_ge in E]; lia.
    + split; [done|]. intros (w & Hw). by destruct (values !! i).
  - intros (Hs & E & _). rewrite record_pairs_lookup. destruct k as [z|name].
    + split; [done|]. intros (w & Hw). by destruct (keys shape !! i), (values !! i).
    + rewrite (Hs name i). split.
      * intros Ek. destruct (lookup_lt_is_Some_2 values i) as [v Ev]; [rewrite <- E; by apply lookup_lt_Some in Ek|].
        exists v. by rewrite Ek, Ev.
      * intros (w & Hw). destruct (keys shape !! i); [|done]. destruct (values !! i); [|done]. by injection Hw as <- <-.
  - intros (_ & _ & Hix). rewrite Hix. split.
    + intros (e & Ee & <-). exists (value e). by rewrite Ee.
    + intros (w & Hw). destruct (entries !! i) as [[e|]|]; [|done..]. exists e. split; [done|]. by injection Hw.
Qed.
End View.

(** ** The metadata counts what it says *)

Section Counts.
Context {V : Type} `{ArrayValue V} `{KeyClassifier}.

Definition count_if {A} (p : A -> bool) (l : list A) : nat := length (List.filter p l).

Lemma count_if_app {A} (p : A -> bool) l1 l2 : count_if p (l1 ++ l2) = count_if p l1 + count_if p l2.
Proof. unfold count_if. by rewrite List.filter_app, length_app. Qed.

Lemma count_if_cons {A} (p : A -> bool) x l : count_if p (x :: l) = add_if (p x) (count_if p l).
Proof. unfold count_if, add_if. cbn. destruct (p x); cbn; lia. Qed.

Lemma count_if_snoc {A} (p : A -> bool) x l : count_if p (l ++ [x]) = add_if (p x) (count_if p l).
Proof. rewrite count_if_app. unfold count_if, add_if. cbn. destruct (p x); cbn; lia. Qed.

Lemma count_if_map {A B} (f : A -> B) (p : B -> bool) (q : A -> bool) l :
  (forall x, x ∈ l -> p (f x) = q x) -> count_if p (f <$> l) = count_if q l.
Proof.
  induction l as [|x l IH]; intros E; [done|]. cbn [fmap list_fmap].
  rewrite !count_if_cons, E, IH; [done| |by left]. intros y Hy. apply E. by right.
Qed.

Lemma count_if_insert {A} (p : A -> bool) l i old x : l !! i = Some old ->
  count_if p (<[i := x]> l) = add_if (p x) (sub_if (p old) (count_if p l)).
Proof.
  intros E. pose proof (lookup_lt_Some _ _ _ E). rewrite insert_take_drop by done.
  rewrite <- (take_drop_middle l i old E) at 3. rewrite !count_if_app, !count_if_cons.
  unfold add_if, sub_if. destruct (p x), (p old); lia.
Qed.

Lemma count_if_remove {A} (p : A -> bool) l1 x l2 c : p x = c ->
  sub_if c (count_if p (l1 ++ x :: l2)) = count_if p (l1 ++ l2).
Proof. intros <-. rewrite !count_if_app, count_if_cons. unfold add_if, sub_if. destruct (p x); lia. Qed.

Lemma count_if_le {A} (p : A -> bool) l : count_if p l <= length l.
Proof. unfold count_if. induction l as [|x l IH]; cbn; [lia|]. destruct (p x); cbn; lia. Qed.

Lemma count_if_all {A} (p : A -> bool) l : count_if p l = length l <-> Forall (fun x => p x = true) l.
Proof.
  induction l as [|x l IH]; [done|]. rewrite count_if_cons, List.Forall_cons_iff, <- IH. cbn [length].
  pose proof (count_if_le p l). unfold add_if. destruct (p x).
  - split; [intros ?; split; [done|lia] | intros [_ ?]; lia].
  - split; [lia | by intros [? _]].
Qed.

Lemma count_if_zero {A} (p : A -> bool) l : count_if p l = 0 <-> Forall (fun x => p x = false) l.
Proof.
  induction l as [|x l IH]; [done|]. rewrite count_if_cons, List.Forall_cons_iff, <- IH. unfold add_if.
  destruct (p x); [|tauto]. split; [lia | by intros [? _]].
Qed.

Definition counts_of (es : list (ArrayEntry (V := V))) : ArrayCachedMetadata :=
  mk_metadata (length es) (count_if (fun e => is_reference (value e)) es)
    (count_if (fun e => is_int (value e)) es) (count_if (fun e => is_int_key (key e)) es)
    (count_if (fun e => is_string_key (key e)) es) (count_if (fun e => key_ambiguous (key e)) es)
    (count_if entry_shared es).

Lemma from_entries_counts es : from_entries es = counts_of es.
Proof.
  unfold from_entries. induction es as [|e es IH] using rev_ind; [done|].
  rewrite fold_left_app. cbn [fold_left]. rewrite IH. unfold add_entry, counts_of. cbn [meta_len
    reference_values int_values int_keys string_keys numeric_string_ambiguous_keys shared_string_keys].
  by rewrite length_app, !count_if_snoc.
Qed.

Lemma from_packed_counts (vs : list V) :
  from_packed_values vs = mk_metadata (length vs) (count_if is_reference vs) (count_if is_int vs) (length vs) 0 0 0.
Proof.
  unfold from_packed_values. induction vs as [|v vs IH] using rev_ind; [done|].
  rewrite fold_left_app. cbn [fold_left]. rewrite IH. unfold add_packed_value. cbn [meta_len
    reference_values int_values int_keys string_keys numeric_string_ambiguous_keys shared_string_keys].
  by rewrite length_app, !count_if_snoc.
Qed.

Lemma from_record_counts (vs : list V) :
  from_record_values vs =
  mk_metadata (length vs) (count_if is_reference vs) (count_if is_int vs) 0 (length vs) 0 (length vs).
Proof.
  unfold from_record_values. induction vs as [|v vs IH] using rev_ind; [done|].
  rewrite fold_left_app. cbn [fold_left]. rewrite IH. unfold add_record_value. cbn [meta_len
    reference_values int_values int_keys string_keys numeric_string_ambiguous_keys shared_string_keys].
  by rewrite length_app, !count_if_snoc.
Qed.

Lemma remove_entry_counts es1 e es2 :
  remove_entry (from_entries (es1 ++ e :: es2)) e = from_entries (es1 ++ es2).
Proof.
  rewrite !from_entries_counts. unfold remove_entry, counts_of. cbn [meta_len
    reference_values int_values int_keys string_keys numeric_string_ambiguous_keys shared_string_keys].
  f_equal; [rewrite !length_app; cbn [length]; lia | by apply count_if_remove..].
Qed.

Lemma remove_packed_counts (vs : list V) v :
  remove_packed_value (from_packed_values (vs ++ [v])) v = from_packed_values vs.
Proof.
  rewrite !from_packed_counts. unfold remove_packed_value. cbn [meta_len
    reference_values int_values int_keys string_keys numeric_string_ambiguous_keys shared_string_keys].
  rewrite !length_app. cbn [length].
  f_equal; [lia | rewrite <- (app_nil_r vs) at 2; by apply count_if_remove.. | lia].
Qed.

(** The metadata survives the change of storage. *)
Lemma packed_to_mixed_counts (vs : list V) :
  from_entries (imap (fun i v => new_entry (KInt (Z.of_nat i)) false v) vs) = from_packed_values vs.
Proof.
  rewrite from_entries_counts, from_packed_counts. unfold counts_of. rewrite length_imap.
  assert (forall (p : ArrayEntry -> bool) (q : V -> bool) (j : nat),
            (forall i v, p (new_entry (KInt (Z.of_nat i)) false v) = q v) ->
            count_if p (imap (fun i v => new_entry (KInt (Z.of_nat (j + i))) false v) vs) = count_if q vs) as Hc.
  { intros p q j Hpq. revert j. induction vs as [|v vs IH]; intros j; [done|]. cbn [imap].
    rewrite !count_if_cons, Hpq. f_equal. rewrite <- (IH (S j)). f_equal. apply imap_ext.
    intros i x _. cbn. do 3 f_equal. lia. }
  rewrite (Hc _ is_reference 0), (Hc _ is_int 0), (Hc _ (fun _ => true) 0), !(Hc _ (fun _ => false) 0) by done.
  f_equal; [by apply count_if_all, Forall_true|by apply count_if_zero, Forall_true..].
Qed.

Lemma record_to_mixed_counts (vs : list V) (ks : list bytes) :
  length ks = length vs -> Forall (fun k => ambiguous k = false) ks ->
  from_entries (zip_with (fun v k => new_entry (KString k) true v) vs ks) = from_record_values vs.
Proof.
  intros E Ha. rewrite from_entries_counts, from_record_counts. unfold counts_of.
  rewrite length_zip_with, E, Nat.min_id.
  assert (forall (p : ArrayEntry -> bool) (q : V -> bool),
            (forall k v, ambiguous k = false -> p (new_entry (KString k) true v) = q v) ->
            count_if p (zip_with (fun v k => new_entry (KString k) true v) vs ks) = count_if q vs) as Hc.
  { intros p q Hpq. revert ks E Ha. induction vs as [|v vs IH]; intros [|k ks] E Ha; try done.
    apply List.Forall_cons_iff in Ha as [Hk Ha]. cbn [zip_with]. rewrite !count_if_cons, Hpq by done.
    f_equal. apply IH; [by injection E|done]. }
  rewrite (Hc _ is_reference), (Hc _ is_int), (Hc _ (fun _ => false)), (Hc _ (fun _ => true)),
    (Hc _ (fun _ => false)), (Hc _ (fun _ => true)) by done.
  assert (count_if (fun _ : V => true) vs = length vs) as -> by (by apply count_if_all, Forall_true).
  assert (count_if (fun _ : V => false) vs = 0) as -> by (by apply count_if_zero, Forall_true).
  done.
Qed.
End Counts.

(** ** Changes of layout *)

Section Changes.
Context {V : Type} `{ArrayValue V} `{KeyClassifier}.
Implicit Types s : ArrayStorage (V := V).

(** The fields a change of layout leaves alone. *)
Definition same_fields s s' : Prop :=
  next_append_key s' = next_append_key s /\ internal_pointer s' = internal_pointer s /\
  mutation_epoch s' = mutation_epoch s /\ storage_id s' = storage_id s.

Definition consistent s : Prop := layout_ok (layout s) (cached_metadata s).

Lemma index_from_spec (es : list (ArrayEntry (V := V))) j ix k i :
  NoDup (key <$> es) ->
  index_from j es ix !! k = Some i <->
  (exists n e, es !! n = Some e /\ key e = k /\ i = j + n) \/ (k ∉ (key <$> es) /\ ix !! k = Some i).
Proof.
  revert j ix. induction es as [|e es IH]; intros j ix Hnd; cbn [index_from fmap list_fmap].
  - split; [intros E; right; split; [by apply not_elem_of_nil|done]|].
    intros [(n & e & E & _)|[_ E]]; [done|done].
  - apply NoDup_cons in Hnd as [Hne Hnd]. rewrite (IH _ _ Hnd). split.
    + intros [(n & e' & E & Hk & ->)|[Hk E]].
      * left. exists (S n), e'. split_and!; [done..|lia].
      * apply lookup_insert_Some in E as [[<- <-]|[Hk' E]].
        -- left. exists 0, e. split_and!; [done..|lia].
        -- right. split; [|done]. rewrite not_elem_of_cons. by split.
    + intros [(n & e' & E & Hk & ->)|[Hk E]].
      * destruct n as [|n]; cbn in E.
        -- injection E as ->. right. rewrite <- Hk, lookup_insert_eq. split; [done|]. f_equal. lia.
        -- left. exists n, e'. split_and!; [done..|lia].
      * apply not_elem_of_cons in Hk as [Hk1 Hk2]. right. split; [done|]. by rewrite lookup_insert_ne.
Qed.

Lemma omap_all_live_entries {A} (l : list A) : omap id (fmap (M := list) Some l) = l.
Proof. apply omap_all_live. Qed.

Lemma mixed_layout_ok (es : list (ArrayEntry (V := V))) :
  NoDup (key <$> es) -> layout_ok (mixed_layout es) (from_entries es).
Proof.
  intros Hnd. unfold mixed_layout, layout_ok. rewrite omap_all_live_entries. split_and!; [done..|].
  intros k i. unfold build_index. rewrite index_from_spec by done. split.
  - intros [(n & e & E & Hk & ->)|[_ E]]; [|by rewrite lookup_empty in E].
    exists e. rewrite list_lookup_fmap. cbn. by rewrite E.
  - intros (e & E & Hk). left. rewrite list_lookup_fmap in E.
    destruct (es !! i) as [e'|] eqn:Ei; [|done]. injection E as ->. eauto.
Qed.

Lemma slot_key_unique s m i j k v w :
  layout_ok (layout s) m -> slot_list s !! i = Some (Some (k, v)) ->
  slot_list s !! j = Some (Some (k, w)) -> i = j.
Proof.
  intros Hok Hi Hj.
  assert (find_index s k = Some i) as Ei by (apply (find_index_slots s m k i Hok); eauto).
  assert (find_index s k = Some j) as Ej by (apply (find_index_slots s m k j Hok); eauto).
  congruence.
Qed.

(** Entries with the pairs of a consistent storage have distinct keys. *)
Lemma entries_distinct s m (es : list (ArrayEntry (V := V))) :
  layout_ok (layout s) m -> slot_list s = Some <$> (into_key_value <$> es) -> NoDup (key <$> es).
Proof.
  intros Hok E. apply NoDup_alt. intros i j k Hi Hj. rewrite list_lookup_fmap in Hi, Hj.
  destruct (es !! i) as [e|] eqn:Ei; [|done]. destruct (es !! j) as [e'|] eqn:Ej; [|done].
  cbn in Hi, Hj. injection Hi as Hi. injection Hj as Hj.
  apply (slot_key_unique s m i j k (value e) (value e') Hok); rewrite E, !list_lookup_fmap.
  - rewrite Ei. cbn. unfold into_key_value. by rewrite Hi.
  - rewrite Ej. cbn. unfold into_key_value. by rewrite Hj.
Qed.

Lemma mixed_layout_slots (es : list (ArrayEntry (V := V))) :
  layout_slots (mixed_layout es) = Some <$> (into_key_value <$> es).
Proof. unfold layout_slots, mixed_layout. rewrite <- !list_fmap_compose. done. Qed.

Lemma to_mixed_ok s (es : list (ArrayEntry (V := V))) :
  consistent s -> slot_list s = Some <$> (into_key_value <$> es) -> from_entries es = cached_metadata s ->
  let s' := set_layout s (mixed_layout es) (cached_metadata s) in
  consistent s' /\ slot_list s' = slot_list s /\ same_fields s s'.
Proof.
  intros Hok Es Em s'. split_and!; [|by rewrite Es; apply mixed_layout_slots|done].
  unfold consistent, s'. cbn [set_layout layout cached_metadata]. rewrite <- Em.
  apply mixed_layout_ok. by eapply entries_distinct.
Qed.

Lemma packed_entries (values : list V) :
  into_key_value <$> imap (fun i v => new_entry (KInt (Z.of_nat i)) false v) values = packed_pairs values.
Proof. unfold packed_pairs. by rewrite fmap_imap. Qed.

Lemma record_entries (shape : RecordShape) (values : list V) :
  into_key_value <$> zip_with (fun v k => new_entry (KString k) true v) values (keys shape) =
  record_pairs shape values.
Proof.
  unfold record_pairs. revert values. induction (keys shape) as [|k ks IH]; intros [|v vs]; try done.
  cbn. f_equal. apply IH.
Qed.

Lemma make_record_mixed_ok s :
  consistent s -> let s' := make_record_mixed s in
  consistent s' /\ slot_list s' = slot_list s /\ same_fields s s' /\ is_record s' = false.
Proof.
  intros Hok s'. subst s'. unfold make_record_mixed, is_record.
  destruct (layout s) as [values|shape values|entries n ix] eqn:El; [by rewrite El| |by rewrite El].
  pose proof Hok as Hok'. unfold consistent in Hok'. rewrite El in Hok'. destruct Hok' as (_ & E & Em & Ha).
  destruct (to_mixed_ok s (zip_with (fun v k => new_entry (KString k) true v) values (keys shape)))
    as (H1 & H2 & H3).
  - done.
  - rewrite record_entries. unfold slot_list. by rewrite El.
  - rewrite Em. by apply record_to_mixed_counts.
  - done.
Qed.

Lemma make_mixed_ok s :
  consistent s -> let s' := make_mixed s in
  consistent s' /\ slot_list s' = slot_list s /\ same_fields s s' /\
  is_record s' = false /\ is_packed s' = false.
Proof.
  intros Hok s'. subst s'. unfold make_mixed, is_packed.
  destruct (layout s) as [values|shape values|entries n ix] eqn:El.
  - pose proof Hok as Hok'. unfold consistent in Hok'. rewrite El in Hok'.
    destruct (to_mixed_ok s (imap (fun i v => new_entry (KInt (Z.of_nat i)) false v) values)) as (H1 & H2 & H3).
    + done.
    + rewrite packed_entries. unfold slot_list. by rewrite El.
    + rewrite Hok'. apply packed_to_mixed_counts.
    + done.
  - destruct (make_record_mixed_ok s Hok) as (H1 & H2 & H3 & H4). split_and!; [done..|].
    unfold make_record_mixed. by rewrite El.
  - unfold is_record. by rewrite El.
Qed.

(** ** Adding an element *)

Lemma shape_ok_extend shape k :
  shape_ok shape -> slot_by_key shape !! k = None -> shape_ok (extend_shape shape k).
Proof.
  intros Hs Hk k' i. unfold extend_shape. cbn [slot_by_key keys].
  rewrite lookup_insert_Some, lookup_snoc_Some, (Hs k' i). split.
  - intros [[<- <-]|[Hne E]]; [by right|left]. split; [|done]. by apply lookup_lt_Some in E.
  - intros [[Hlt E]|[-> <-]]; [right|by left]. split; [|done]. intros <-.
    apply Hs in E. congruence.
Qed.

Lemma push_entry_ok s (e : ArrayEntry) :
  consistent s -> find_index s (key e) = None ->
  (is_packed s = true -> key e = KInt (Z.of_nat (len s))) ->
  (is_record s = true -> exists name, key e = KString name /\ ambiguous name = false) ->
  exists s', push_entry s e = Ret s' /\ consistent s' /\ same_fields s s' /\
    slot_list s' = slot_list s ++ [Some (into_key_value e)].
Proof.
  unfold consistent, push_entry, find_index, is_packed, is_record, len, slot_list.
  destruct (layout s) as [values|shape values|entries n ix] eqn:El; intros Hok Hnone Hp Hr.
  - eexists. split; [done|]. cbn [set_layout layout cached_metadata layout_ok layout_slots].
    split_and!; [|done|].
    + rewrite Hok. unfold from_packed_values. by rewrite fold_left_app.
    + unfold packed_pairs. rewrite imap_app, fmap_app. cbn. unfold into_key_value. rewrite Hp by done.
      by rewrite Nat.add_0_r.
  - destruct (Hr eq_refl) as (name & Ek & Ha). rewrite Ek in *. destruct Hok as (Hs & E & Em & Hall).
    eexists. split; [done|]. cbn [set_layout layout cached_metadata layout_ok layout_slots].
    split_and!; [by apply shape_ok_extend| | | |done|].
    + cbn. rewrite !length_app, E. done.
    + rewrite Em. unfold from_record_values. by rewrite fold_left_app.
    + cbn. apply Forall_app. split; [done|]. by constructor.
    + unfold record_pairs, extend_shape. cbn [keys]. rewrite fmap_app.
      rewrite zip_with_app by (by rewrite length_fmap). rewrite fmap_app. cbn.
      unfold into_key_value. by rewrite Ek.
  - destruct Hok as (En & Em & Hix).
    eexists. split; [done|]. cbn [set_layout layout cached_metadata layout_ok layout_slots].
    split_and!; [| | |done|by rewrite fmap_app].
    + rewrite omap_app, length_app. cbn. lia.
    + rewrite omap_app, Em. unfold from_entries. by rewrite fold_left_app.
    + intros k i. rewrite lookup_insert_Some, (Hix k i). split.
      * intros [[<- <-]|[Hne (e' & E & Hk)]]; [exists e|exists e'].
        -- by rewrite list_lookup_middle.
        -- split; [|done]. apply lookup_app_l_Some. done.
      * intros (e' & E & Hk). apply lookup_snoc_Some in E as [[Hlt E]|[-> E]].
        -- right. split; [|eauto]. intros <-.
           assert (ix !! key e = Some i) as Hi by (apply Hix; eauto). congruence.
        -- left. injection E as ->. done.
Qed.
End Changes.

(** ** Replacing and removing an element *)

Section Updates.
Context {V : Type} `{ArrayValue V} `{KeyClassifier}.
Implicit Types s : ArrayStorage (V := V).

Lemma packed_pairs_insert (values : list V) i v : i < length values ->
  packed_pairs (<[i := v]> values) = <[i := (KInt (Z.of_nat i), v)]> (packed_pairs values).
Proof.
  intros Hi. apply list_eq. intros j. rewrite packed_pairs_lookup. destruct (decide (i = j)) as [<-|Hne].
  - rewrite !list_lookup_insert_eq by (by rewrite ?packed_pairs_length). done.
  - rewrite !list_lookup_insert_ne by done. by rewrite packed_pairs_lookup.
Qed.

Lemma record_pairs_insert (shape : RecordShape) (values : list V) i k v :
  i < length values -> keys shape !! i = Some k ->
  record_pairs shape (<[i := v]> values) = <[i := (KString k, v)]> (record_pairs shape values).
Proof.
  intros Hi Hk. apply list_eq. intros j. rewrite record_pairs_lookup. destruct (decide (i = j)) as [<-|Hne].
  - rewrite !list_lookup_insert_eq; [by rewrite Hk| |done].
    unfold record_pairs. rewrite length_zip_with, length_fmap. apply lookup_lt_Some in Hk. lia.
  - rewrite !list_lookup_insert_ne by done. by rewrite record_pairs_lookup.
Qed.

Lemma flags_packed (values : list V) i old v : values !! i = Some old ->
  replace_value_flags (from_packed_values values) (is_reference old) (is_reference v) (is_int old) (is_int v) =
  from_packed_values (<[i := v]> values).
Proof.
  intros E. rewrite !from_packed_counts. unfold replace_value_flags. cbn [meta_len
    reference_values int_values int_keys string_keys numeric_string_ambiguous_keys shared_string_keys].
  by rewrite length_insert, !(count_if_insert _ values i old v E).
Qed.

Lemma flags_record (values : list V) i old v : values !! i = Some old ->
  replace_value_flags (from_record_values values) (is_reference old) (is_reference v) (is_int old) (is_int v) =
  from_record_values (<[i := v]> values).
Proof.
  intros E. rewrite !from_record_counts. unfold replace_value_flags. cbn [meta_len
    reference_values int_values int_keys string_keys numeric_string_ambiguous_keys shared_string_keys].
  by rewrite length_insert, !(count_if_insert _ values i old v E).
Qed.

Definition with_value (e : ArrayEntry (V := V)) (v : V) : ArrayEntry :=
  mk_entry (key e) v (string_key_shared_for_shape e).

Lemma flags_entries (es : list (ArrayEntry (V := V))) r e v : es !! r = Some e ->
  replace_value_flags (from_entries es) (is_reference (value e)) (is_reference v)
    (is_int (value e)) (is_int v) = from_entries (<[r := with_value e v]> es).
Proof.
  intros E. rewrite !from_entries_counts. unfold replace_value_flags, counts_of. cbn [meta_len
    reference_values int_values int_keys string_keys numeric_string_ambiguous_keys shared_string_keys].
  rewrite length_insert, !(count_if_insert _ es r e _ E). cbn [with_value value key].
  assert (forall (p : ArrayEntry -> bool) c, p e = c -> count_if p es = add_if c (sub_if c (count_if p es)))
    as Hsame.
  { intros p c <-. unfold add_if, sub_if. destruct (p e) eqn:Epe; [|done].
    assert (count_if p es <> 0) as Hnz; [|lia].
    rewrite count_if_zero, Forall_lookup. intros Hall. specialize (Hall r e E). cbn in Hall. congruence. }
  f_equal; by apply Hsame.
Qed.

Lemma replace_value_ok s i k old v :
  consistent s -> slot_list s !! i = Some (Some (k, old)) ->
  exists s', replace_value s i v = Ret (old, s') /\ consistent s' /\ same_fields s s' /\
    slot_list s' = <[i := Some (k, v)]> (slot_list s).
Proof.
  intros Hok Hi. pose proof (key_value_at s _ i Hok) as Hkv. rewrite Hi in Hkv.
  destruct Hkv as (_ & _ & Hv). unfold replace_value, set_value_at. rewrite Hv. cbn [obind].
  eexists. split; [done|]. unfold set_metadata. cbn [set_layout layout cached_metadata].
  unfold consistent, slot_list in *. cbn [set_layout layout cached_metadata].
  destruct (layout s) as [values|shape values|entries n ix]; cbn [layout_slots layout_ok] in *.
  - rewrite list_lookup_fmap, packed_pairs_lookup in Hi.
    destruct (values !! i) as [v0|] eqn:Ev; [|done]. cbn in Hi. injection Hi as <- <-.
    split_and!; [rewrite Hok; by apply flags_packed|done|].
    rewrite packed_pairs_insert by (by apply lookup_lt_Some in Ev). by rewrite list_fmap_insert.
  - destruct Hok as (Hs & E & Em & Ha). rewrite list_lookup_fmap, record_pairs_lookup in Hi.
    destruct (keys shape !! i) as [k0|] eqn:Ek; [|done]. destruct (values !! i) as [v0|] eqn:Ev; [|done].
    cbn in Hi. injection Hi as <- <-.
    split_and!; [done|by rewrite length_insert|rewrite Em; by apply flags_record|done|done|].
    rewrite (record_pairs_insert shape values i k0) by (done || by apply lookup_lt_Some in Ev).
    by rewrite list_fmap_insert.
  - destruct Hok as (En & Em & Hix). rewrite list_lookup_fmap in Hi.
    destruct (entries !! i) as [[e|]|] eqn:Ee; [|done..]. cbn in Hi. injection Hi as <- <-.
    assert (alter (fmap (fun e0 => mk_entry (key e0) v (string_key_shared_for_shape e0))) i entries =
            <[i := Some (with_value e v)]> entries) as Ea.
    { apply list_eq. intros j. destruct (decide (i = j)) as [<-|Hne].
      - rewrite list_lookup_alter_eq, Ee, list_lookup_insert_eq; [done|by apply lookup_lt_Some in Ee].
      - by rewrite list_lookup_alter_ne, list_lookup_insert_ne. }
    rewrite Ea, (omap_set entries i e (with_value e v) Ee).
    split_and!; [by rewrite length_insert|rewrite Em; apply flags_entries; by apply lookup_rank| |done|].
    + intros k j. rewrite (Hix k j). split; intros (e' & E' & Hk).
      * destruct (decide (i = j)) as [<-|Hne].
        -- rewrite Ee in E'. injection E' as <-. exists (with_value e v).
           rewrite list_lookup_insert_eq; [done|by apply lookup_lt_Some in Ee].
        -- exists e'. by rewrite list_lookup_insert_ne.
      * apply list_lookup_insert_Some in E' as [(-> & E' & _)|[Hne E']]; [|eauto].
        injection E' as <-. exists e. done.
    + by rewrite list_fmap_insert.
Qed.

(** Removing the last slot of a packed storage, or any slot of a mixed one. *)
Lemma remove_packed_ok s i k v :
  consistent s -> is_packed s = true -> i + 1 = len s -> slot_list s !! i = Some (Some (k, v)) ->
  exists s', remove_index s i = Ret (k, v, s') /\ consistent s' /\ same_fields s s' /\
    slot_list s' = take i (slot_list s) /\ is_packed s' = true.
Proof.
  unfold consistent, is_packed, len, remove_index, slot_list, Prelude.index.
  destruct (layout s) as [values| |] eqn:El; [|done..]. cbn [layout_ok layout_slots]. intros Em _ Hi Hs.
  rewrite list_lookup_fmap, packed_pairs_lookup in Hs.
  destruct (values !! i) as [v0|] eqn:Ev; [|done]. cbn in Hs. injection Hs as <- <-. cbn [obind].
  assert (values = take i values ++ [v0]) as Es.
  { rewrite <- (take_S_r values i v0 Ev). rewrite take_ge; [done|lia]. }
  assert (base.delete i values = take i values) as Ed.
  { rewrite delete_take_drop, drop_ge by lia. apply app_nil_r. }
  eexists. split; [done|]. cbn [set_layout layout cached_metadata layout_ok layout_slots].
  rewrite Ed. split_and!; [|done| |done].
  - rewrite Em. rewrite Es at 1. apply remove_packed_counts.
  - rewrite <- fmap_take. f_equal. apply list_eq. intros j. rewrite packed_pairs_lookup.
    destruct (decide (j < i)).
    + by rewrite !lookup_take_lt, packed_pairs_lookup.
    + by rewrite !lookup_take_ge by lia.
Qed.

Lemma remove_mixed_ok s i k v :
  consistent s -> is_packed s = false -> is_record s = false -> slot_list s !! i = Some (Some (k, v)) ->
  exists s', remove_index s i = Ret (k, v, s') /\ consistent s' /\ same_fields s s' /\
    slot_list s' = <[i := None]> (slot_list s) /\ is_packed s' = false /\ is_record s' = false.
Proof.
  unfold consistent, is_packed, is_record, remove_index, slot_list, Prelude.index.
  destruct (layout s) as [| |entries n ix] eqn:El; [done..|]. cbn [layout_ok layout_slots].
  intros (En & Em & Hix) _ _ Hs. rewrite list_lookup_fmap in Hs.
  destruct (entries !! i) as [[e|]|] eqn:Ee; [|done..]. cbn in Hs. injection Hs as <- <-. cbn [obind].
  pose proof (rank_lt entries i e Ee) as Hlt. unfold usize_sub.
  rewrite (proj2 (Nat.leb_le _ _)) by lia. cbn [obind].
  eexists. split; [done|]. cbn [set_layout layout cached_metadata layout_ok layout_slots].
  split_and!; [| | |done|by rewrite list_fmap_insert|done|done].
  - rewrite (omap_kill entries i e Ee), length_delete by (exists e; by apply lookup_rank). lia.
  - rewrite (omap_kill entries i e Ee), Em, (slot_split entries i e Ee).
    unfold rank. rewrite delete_middle. apply remove_entry_counts.
  - intros k j. rewrite lookup_delete_Some, (Hix k j). split.
    + intros (Hne & e' & E' & Hk). exists e'. split; [|done].
      rewrite list_lookup_insert_ne; [done|]. intros <-. congruence.
    + intros (e' & E' & Hk). apply list_lookup_insert_Some in E' as [(_ & E' & _)|[Hne E']]; [done|].
      split; [|eauto]. intros Hk'.
      assert (ix !! k = Some i) as H1 by (apply Hix; exists e; by rewrite Hk').
      assert (ix !! k = Some j) as H2 by (apply Hix; eauto). congruence.
Qed.

(** ** Compaction *)

Lemma compact_loop_spec (old : list (option (ArrayEntry (V := V)))) optr i es ix ptr :
  compact_loop optr i old (Some <$> es) ix ptr =
  (Some <$> (es ++ omap id old),
   index_from (length es) (omap id old) ix,
   match optr with
   | Some p => if (i <=? p) && live (mjoin (old !! (p - i)))
               then Some (length es + rank old (p - i)) else ptr
   | None => ptr
   end).
Proof.
  revert i es ix ptr. induction old as [|[e|] old IH]; intros i es ix ptr; cbn [compact_loop omap list_omap id].
  - rewrite app_nil_r. destruct optr as [p|]; [|done]. rewrite lookup_nil. cbn. by rewrite andb_false_r.
  - rewrite <- (fmap_snoc Some), IH. cbn [index_from]. rewrite <- app_assoc. cbn [app].
    rewrite length_app, length_fmap. cbn [length]. f_equal.
    destruct optr as [p|]; [|done]. case_bool_decide as Ep.
    + injection Ep as ->. rewrite Nat.leb_refl, Nat.sub_diag. cbn.
      rewrite (proj2 (Nat.leb_gt _ _)) by lia. cbn. unfold rank. cbn. f_equal. lia.
    + assert (p <> i) by congruence. destruct (decide (i < p)) as [Hlt|Hge].
      * rewrite !(proj2 (Nat.leb_le _ _)) by lia. replace (p - i) with (S (p - (i + 1))) by lia.
        cbn [lookup list_lookup andb]. destruct (live _); [|done]. f_equal. unfold rank. cbn. lia.
      * rewrite !(proj2 (Nat.leb_gt _ _)) by lia. done.
  - rewrite IH. f_equal. destruct optr as [p|]; [|done]. destruct (decide (i <= p)) as [Hle|Hgt].
    + destruct (decide (i = p)) as [<-|Hne].
      * rewrite Nat.leb_refl, Nat.sub_diag, (proj2 (Nat.leb_gt _ _)) by lia. done.
      * rewrite !(proj2 (Nat.leb_le _ _)) by lia. replace (p - i) with (S (p - (i + 1))) by lia. done.
    + rewrite !(proj2 (Nat.leb_gt _ _)) by lia. done.
Qed.

Lemma rank_fmap {A B} (f : A -> B) (L : list (option A)) i :
  rank (fmap (M := list) (fmap (M := option) f) L) i = rank L i.
Proof. unfold rank. rewrite <- fmap_take, omap_fmap_slots. apply length_fmap. Qed.

(** Each element has a slot. *)
Lemma slot_of_rank {A} (L : list (option A)) r x :
  omap id L !! r = Some x -> exists i, L !! i = Some (Some x) /\ rank L i = r.
Proof.
  revert r. induction L as [|[y|] L IH]; intros r E; [done| |].
  - destruct r as [|r]; cbn in E.
    + exists 0. injection E as ->. done.
    + destruct (IH r E) as (i & Ei & Hr). exists (S i). split; [done|]. unfold rank in *. cbn. lia.
  - destruct (IH r E) as (i & Ei & Hr). by exists (S i).
Qed.

Lemma mixed_keys_distinct (entries : list (option (ArrayEntry (V := V)))) n ix m :
  layout_ok (Mixed entries n ix) m -> NoDup (key <$> omap id entries).
Proof.
  intros (_ & _ & Hix). apply NoDup_alt. intros i j k Hi Hj. rewrite list_lookup_fmap in Hi, Hj.
  destruct (omap id entries !! i) as [e|] eqn:Ei; [|done].
  destruct (omap id entries !! j) as [e'|] eqn:Ej; [|done]. injection Hi as Hi. injection Hj as Hj.
  apply slot_of_rank in Ei as (a & Ea & <-), Ej as (b & Eb & <-).
  assert (ix !! k = Some a) as H1 by (apply Hix; eauto).
  assert (ix !! k = Some b) as H2 by (apply Hix; eauto). congruence.
Qed.

(** Compaction keeps the elements and the rank of the pointer. *)
Lemma compact_ok s :
  consistent s -> (forall p, internal_pointer s = Some p -> exists x, slot_list s !! p = Some (Some x)) ->
  let s' := compact_mixed_if_needed s in
  consistent s' /\ iter s' = iter s /\ next_append_key s' = next_append_key s /\
  rank (slot_list s') <$> internal_pointer s' = rank (slot_list s) <$> internal_pointer s /\
  (forall p, internal_pointer s' = Some p -> exists x, slot_list s' !! p = Some (Some x)).
Proof.
  intros Hok Hp s'. subst s'. unfold compact_mixed_if_needed.
  destruct (layout s) as [values|shape values|entries n ix] eqn:El; [done..|].
  destruct (_ || _); [done|].
  pose proof (compact_loop_spec entries (internal_pointer s) 0 [] ∅ None) as Hc.
  cbn [fmap list_fmap app length] in Hc. rewrite Hc. clear Hc. fold (build_index (omap id entries)).
  unfold consistent in Hok. rewrite El in Hok. pose proof Hok as (En & Em & Hix).
  assert (slot_list s = fmap (M := list) (fmap (M := option) into_key_value) entries) as Esl
    by (unfold slot_list; by rewrite El).
  set (es := omap id entries) in *.
  assert (forall p q, slot_list (set_internal_pointer (set_layout s (Mixed (Some <$> es) n (build_index es)) p) q)
            = Some <$> (into_key_value <$> es)) as Esl' by (intros; apply mixed_layout_slots).
  split_and!.
  - unfold consistent. cbn [set_internal_pointer set_layout layout cached_metadata]. rewrite Em, En.
    by eapply mixed_layout_ok, mixed_keys_distinct.
  - rewrite !iter_slots, Esl', Esl, omap_all_live, omap_fmap_slots. done.
  - done.
  - rewrite Esl', Esl. cbn [set_internal_pointer internal_pointer].
    destruct (internal_pointer s) as [p|] eqn:Ep; [|done]. destruct (Hp p eq_refl) as [x Hx].
    rewrite Esl, list_lookup_fmap in Hx. rewrite Nat.sub_0_r.
    destruct (entries !! p) as [[e|]|] eqn:Ee; [|done..]. cbn [Nat.leb andb mjoin option_join live fmap option_fmap option_map].
    f_equal. rewrite rank_fmap. apply rank_all_live. rewrite length_fmap.
    pose proof (rank_lt _ _ _ Ee) as Hlt. fold es in Hlt. cbn [Nat.add]. lia.
  - cbn [set_internal_pointer internal_pointer]. rewrite Esl'. intros q.
    destruct (internal_pointer s) as [p|] eqn:Ep; [|done]. rewrite Nat.sub_0_r.
    destruct (entries !! p) as [[e|]|] eqn:Ee; [|done..]. cbn [Nat.leb andb mjoin option_join live].
    intros [= <-]. exists (into_key_value e). rewrite !list_lookup_fmap.
    cbn [Nat.add]. unfold es. by rewrite (lookup_rank _ _ _ Ee).
Qed.
End Updates.
