(* ===== verification/PhpArraySpec.v ===== *)
(** * PhpArraySpec: the ordered map that a PHP array is

    The abstract array (pairs in insertion order, the next append key, the
    position of the internal pointer), its operations, and the theorem that the
    operations of [PhpArray] simulate them on every sequence of operations. *)

From Stdlib Require Import Strings.String Strings.Byte ZArith.
From stdpp Require Import base list option numbers gmap fin_maps.
From S2P Require Import Prelude RustStd RustNum PhpString NumericString PhpArray PhpArrayProofs.

(** ** The abstract array *)

Section Spec.
Context {V : Type}.

Record Ordered := mk_ordered {
  pairs : list (ArrayKey * V);
  auto_key : option Z;
  cursor : option nat;
}.

Definition find_pos (k : ArrayKey) (l : list (ArrayKey * V)) : option nat :=
  position (fun p => bool_decide (p.1 = k)) l.

Definition lookup_key (k : ArrayKey) (l : list (ArrayKey * V)) : option V :=
  match find_pos k l with Some i => snd <$> l !! i | None => None end.

(** The largest integer key so far plus one, saturating. *)
Definition bump (next : option Z) (k : ArrayKey) : option Z :=
  match k with
  | KString _ => next
  | KInt z => match next with
              | None => Some (saturating_succ z)
              | Some n => Some (Z.max n (saturating_succ z))
              end
  end.

Definition spec_add (o : Ordered) (k : ArrayKey) (v : V) : Ordered :=
  mk_ordered (pairs o ++ [(k, v)]) (bump (auto_key o) k) (Some (default 0 (cursor o))).

Definition spec_insert (o : Ordered) (k : ArrayKey) (v : V) : option V * Ordered :=
  match find_pos k (pairs o) with
  | Some i => (lookup_key k (pairs o),
               mk_ordered (<[i := (k, v)]> (pairs o)) (bump (auto_key o) k) (cursor o))
  | None => (None, spec_add o k v)
  end.

Definition spec_append (o : Ordered) (v : V) : option ArrayKey * Ordered :=
  let k := KInt (default 0%Z (auto_key o)) in
  if bool_decide (k = KInt I64_MAX /\ is_Some (find_pos k (pairs o))) then (None, o)
  else (Some k, spec_add o k v).

(** The pointer stays on its element; on the removed one it moves to the next. *)
Definition cursor_after_remove (l : list (ArrayKey * V)) (i : nat) (c : option nat) : option nat :=
  match c with
  | None => None
  | Some p => if p =? i then (if i + 1 <? length l then Some i else None)
              else if i <? p then Some (p - 1) else Some p
  end.

Definition spec_remove (o : Ordered) (k : ArrayKey) : option V * Ordered :=
  match find_pos k (pairs o) with
  | Some i => (lookup_key k (pairs o),
               mk_ordered (delete i (pairs o)) (auto_key o) (cursor_after_remove (pairs o) i (cursor o)))
  | None => (None, o)
  end.

Definition spec_pop (o : Ordered) : option V * Ordered :=
  match list.last (pairs o) with
  | None => (None, o)
  | Some (k, _) =>
      let '(v, o') := spec_remove o k in
      match k with
      | KInt z => if bool_decide (auto_key o = Some (saturating_succ z))
                  then (v, mk_ordered (pairs o') (Some z) (cursor o')) else (v, o')
      | KString _ => (v, o')
      end
  end.

Definition spec_update (o : Ordered) (k : ArrayKey) (f : V -> V) : bool * Ordered :=
  match find_pos k (pairs o) with
  | Some i => (true, mk_ordered (alter (fun p => (p.1, f p.2)) i (pairs o)) (auto_key o) (cursor o))
  | None => (false, o)
  end.

(** Moving the pointer gives the value it arrives at. *)
Definition move_to (o : Ordered) (c : option nat) : option V * Ordered :=
  (match c with Some p => snd <$> pairs o !! p | None => None end,
   mk_ordered (pairs o) (auto_key o) c).

Definition within (o : Ordered) (p : nat) : option nat := if p <? length (pairs o) then Some p else None.

Definition spec_reset (o : Ordered) : option V * Ordered := move_to o (within o 0).
Definition spec_end (o : Ordered) : option V * Ordered :=
  match checked_pred (length (pairs o)) with None => (None, o) | Some p => move_to o (Some p) end.
Definition spec_next (o : Ordered) : option V * Ordered :=
  match cursor o with None => (None, o) | Some p => move_to o (within o (p + 1)) end.
Definition spec_prev (o : Ordered) : option V * Ordered :=
  match cursor o with None => (None, o) | Some p => move_to o (checked_pred p) end.
Definition spec_seek (o : Ordered) (p : option nat) : Ordered :=
  (move_to o (match p with Some p => within o p | None => None end)).2.
End Spec.

(** ** The abstraction *)

Section Abstraction.
Context {V : Type} `{ArrayValue V} `{KeyClassifier}.
Implicit Types s : ArrayStorage (V := V).

Definition abs s : Ordered :=
  mk_ordered (iter s) (next_append_key s) (rank (slot_list s) <$> internal_pointer s).

Lemma find_pos_slots s k : consistent s -> find_pos k (iter s) = rank (slot_list s) <$> find_index s k.
Proof.
  intros Hok. unfold find_pos. destruct (find_index s k) as [i|] eqn:Ef.
  - apply (find_index_slots s _ k i Hok) in Ef as [v Hv]. apply position_Some. split.
    + exists (k, v). rewrite iter_slots. split; [by apply lookup_rank|]. by rewrite bool_decide_true.
    + intros j [k' v'] Hj Ej. cbn. apply bool_decide_eq_false. intros ->.
      rewrite iter_slots in Ej. apply slot_of_rank in Ej as (i' & Ei' & <-).
      rewrite (slot_key_unique s _ i' i k v' v Hok Ei' Hv) in Hj. lia.
  - apply position_None, Forall_lookup. intros j [k' v'] Ej. apply bool_decide_eq_false. cbn. intros ->.
    rewrite iter_slots in Ej. apply slot_of_rank in Ej as (i & Ei & _).
    assert (find_index s k = Some i) by (apply (find_index_slots s _ k i Hok); eauto). congruence.
Qed.

Lemma find_value s k i v : consistent s -> slot_list s !! i = Some (Some (k, v)) ->
  find_index s k = Some i /\ lookup_key k (iter s) = Some v /\ find_pos k (iter s) = Some (rank (slot_list s) i).
Proof.
  intros Hok Hi. assert (find_index s k = Some i) as Ef by (apply (find_index_slots s _ k i Hok); eauto).
  unfold lookup_key. rewrite find_pos_slots, Ef by done. cbn. split_and!; [done| |done].
  rewrite iter_slots, (lookup_rank _ _ _ Hi). done.
Qed.

Lemma find_missing s k : consistent s -> find_index s k = None ->
  lookup_key k (iter s) = None /\ find_pos k (iter s) = None.
Proof. intros Hok Ef. unfold lookup_key. rewrite find_pos_slots, Ef by done. done. Qed.

(** ** Adding *)

Lemma bump_append_key_fields s k :
  layout (bump_append_key s k) = layout s /\ cached_metadata (bump_append_key s k) = cached_metadata s /\
  internal_pointer (bump_append_key s k) = internal_pointer s /\
  next_append_key (bump_append_key s k) = bump (next_append_key s) k.
Proof.
  unfold bump_append_key, bump. destruct k as [z|name]; [|done].
  destruct (next_append_key s) as [n|] eqn:En; [|done].
  destruct (n <? saturating_succ z)%Z eqn:E; split_and!; try done; cbn; rewrite ?En; f_equal.
  - apply Z.ltb_lt in E. lia.
  - apply Z.ltb_ge in E. lia.
Qed.

Lemma saturating_succ_spec z : in_i64 z = true ->
  in_i64 (saturating_succ z) = true /\ (z < saturating_succ z \/ z = I64_MAX)%Z /\
  (saturating_succ z <= z + 1)%Z.
Proof.
  unfold in_i64, saturating_succ, saturate_i64. rewrite !andb_true_iff, !Z.leb_le. unfold I64_MIN, I64_MAX. lia.
Qed.

Lemma append_ok_bump next ks k :
  append_ok next ks -> key_ok k -> append_ok (bump next k) (ks ++ [k]).
Proof.
  intros [Hr Hlt] Hk. unfold bump. destruct k as [z|name]; cbn in Hk.
  - destruct (saturating_succ_spec z Hk) as (Hs & Hz & _).
    assert (forall n, next = Some n -> in_i64 (Z.max n (saturating_succ z)) = true) as Hmax.
    { intros n E. destruct (Z.max_spec n (saturating_succ z)) as [[_ ->]|[_ ->]]; auto. }
    split.
    + intros n. destruct next as [n'|]; intros [= <-]; auto.
    + intros z' [Hin|Hin]%elem_of_app.
      * destruct (Hlt z' Hin) as (n & -> & Hn). eexists. split; [done|]. lia.
      * apply list_elem_of_singleton in Hin. injection Hin as ->.
        destruct next as [n|]; eexists; (split; [done|]); lia.
  - split; [done|]. intros z' [Hin|Hin]%elem_of_app; [auto|].
    apply list_elem_of_singleton in Hin. done.
Qed.

Lemma append_ok_mono next ks ks' :
  append_ok next ks -> (forall z, KInt z ∈ ks' -> KInt z ∈ ks) -> append_ok next ks'.
Proof. intros [H1 H2] Hsub. split; [done|]. auto. Qed.

Lemma prepare_insert_ok s k :
  consistent s -> find_index s k = None ->
  let s' := prepare_insert s k in
  consistent s' /\ slot_list s' = slot_list s /\ same_fields s s' /\
  (is_packed s' = true -> k = KInt (Z.of_nat (len s'))) /\
  (is_record s' = true -> exists name, k = KString name /\ ambiguous name = false).
Proof.
  intros Hok Hnone s'. subst s'. unfold prepare_insert.
  destruct (is_next_packed s k) eqn:Enp.
  { unfold is_next_packed in Enp. apply andb_true_iff in Enp as [Hp Hk%bool_decide_eq_true].
    split_and!; try done. unfold is_record, is_packed in *. by destruct (layout s). }
  destruct (is_record s) eqn:Er.
  - assert (is_packed s = false) as Hp by (unfold is_record, is_packed in *; by destruct (layout s)).
    destruct (make_record_mixed_ok s Hok) as (H1 & H2 & H3 & H4).
    assert (is_packed (make_record_mixed s) = false) as Hp'.
    { unfold make_record_mixed, is_record, is_packed in *. by destruct (layout s). }
    destruct k as [z|name]; [split_and!; congruence || done|].
    destruct (ambiguous name) eqn:Ha; [split_and!; congruence || done|].
    split_and!; try done; [congruence|eauto].
  - destruct (is_packed s && (len s =? 0) && is_string_key k && negb (key_ambiguous k)) eqn:Epr.
    + rewrite !andb_true_iff, Nat.eqb_eq, negb_true_iff in Epr. destruct Epr as [[[Hp Hl] Hs] Ha].
      unfold is_packed, len in *. unfold promote_empty_to_record, consistent, slot_list in *.
      destruct (layout s) as [values| |]; [|done..]. destruct values; [|done].
      cbn [set_layout layout cached_metadata layout_ok layout_slots]. split_and!; try done.
      intros _. destruct k as [z|name]; [done|]. eauto.
    + destruct (make_mixed_ok s Hok) as (H1 & H2 & H3 & H4 & H5). split_and!; congruence || done.
Qed.

Lemma start_pointer_ok s x L :
  consistent s -> slot_list s = L ++ [Some x] ->
  (forall p, internal_pointer s = Some p -> exists y, L !! p = Some (Some y)) ->
  exists p, internal_pointer (start_pointer s) = Some p /\
    (exists y, slot_list s !! p = Some (Some y)) /\
    rank (slot_list s) p = default 0 (rank L <$> internal_pointer s).
Proof.
  intros Hok Es Hp. unfold start_pointer. destruct (internal_pointer s) as [p|] eqn:Ep.
  - exists p. destruct (Hp p eq_refl) as [y Hy]. split_and!; [done| |].
    + exists y. rewrite Es. by apply lookup_app_l_Some.
    + cbn. rewrite Es. unfold rank. rewrite take_app_le; [done|]. apply lookup_lt_Some in Hy. lia.
  - cbn [set_internal_pointer internal_pointer]. rewrite (first_index_slots s _ Hok).
    destruct (position live (slot_list s)) as [p|] eqn:Epos.
    + apply position_live in Epos as (y & Hy & Hr). exists p. split_and!; eauto.
    + apply position_dead in Epos. rewrite Es, omap_app in Epos. by destruct (omap id L).
Qed.

(** Pushing a new key onto a storage with the elements of [s]. *)
Lemma push_ok s s2 k sh v :
  array_ok s -> key_ok k -> find_index s k = None ->
  consistent s2 -> slot_list s2 = slot_list s -> internal_pointer s2 = internal_pointer s ->
  next_append_key s2 = bump (next_append_key s) k ->
  (is_packed s2 = true -> k = KInt (Z.of_nat (len s2))) ->
  (is_record s2 = true -> exists name, k = KString name /\ ambiguous name = false) ->
  exists s', push_entry s2 (new_entry k sh v) = Ret s' /\
    array_ok (bump_mutation_epoch (start_pointer s')) /\
    abs (bump_mutation_epoch (start_pointer s')) = spec_add (abs s) k v.
Proof.
  intros Hs Hk Hnone Hc2 Hsl Hptr Hnext Hp Hr.
  assert (find_index s2 k = None) as Hnone2.
  { destruct (find_index s2 k) as [i|] eqn:E; [|done].
    apply (find_index_slots s2 _ k i Hc2) in E as [w Hw]. rewrite Hsl in Hw.
    destruct (find_value s k i w (layout_consistent s Hs) Hw) as [Hf _]. congruence. }
  destruct (push_entry_ok s2 (new_entry k sh v) Hc2 Hnone2 Hp Hr) as (s' & Ep & Hc' & Hf & Hsl').
  destruct Hf as (Hfn & Hfp & _). exists s'. split; [done|].
  rewrite Hsl in Hsl'.
  destruct (start_pointer_ok s' _ (slot_list s) Hc' Hsl') as (p & Hpp & Hlive & Hrank).
  { rewrite Hfp, Hptr. apply (pointer_live s Hs). }
  assert (iter (bump_mutation_epoch (start_pointer s')) = iter s ++ [(k, v)]) as Hit.
  { transitivity (iter s'). { unfold start_pointer. by destruct (internal_pointer s'). }
    rewrite !iter_slots, Hsl', omap_app. done. }
  assert (next_append_key (bump_mutation_epoch (start_pointer s')) = bump (next_append_key s) k) as Hnx.
  { transitivity (next_append_key s'). { unfold start_pointer. by destruct (internal_pointer s'). }
    by rewrite Hfn, Hnext. }
  assert (slot_list (bump_mutation_epoch (start_pointer s')) = slot_list s') as Hsl''.
  { unfold start_pointer. by destruct (internal_pointer s'). }
  split.
  - split.
    + unfold consistent in Hc'. unfold start_pointer. by destruct (internal_pointer s').
    + intros q Hq. change (internal_pointer (bump_mutation_epoch ?x)) with (internal_pointer x) in Hq.
      rewrite Hsl''. rewrite Hpp in Hq. by injection Hq as <-.
    + rewrite Hit, fmap_app. apply Forall_app. split; [apply (keys_ok s Hs)|]. by constructor.
    + rewrite Hit, Hnx, fmap_app. apply append_ok_bump; [apply (append_fresh s Hs)|done].
  - unfold abs, spec_add. cbn [pairs auto_key cursor]. rewrite Hit, Hnx, Hsl''. f_equal.
    change (internal_pointer (bump_mutation_epoch ?x)) with (internal_pointer x). rewrite Hpp. cbn.
    f_equal. rewrite Hrank, Hfp, Hptr. done.
Qed.
End Abstraction.

(** ** The operations *)

Section Operations.
Context {V : Type} `{ArrayValue V} `{KeyClassifier}.
Implicit Types s : ArrayStorage (V := V).

(** Overwriting the element in slot [i]. *)
Lemma overwrite_ok s s1 i k old v :
  array_ok s -> key_ok k -> layout s1 = layout s -> cached_metadata s1 = cached_metadata s ->
  internal_pointer s1 = internal_pointer s ->
  append_ok (next_append_key s1) (iter s).*1 ->
  slot_list s !! i = Some (Some (k, old)) ->
  exists s', replace_value s1 i v = Ret (old, s') /\ array_ok s' /\
    abs s' = mk_ordered (<[rank (slot_list s) i := (k, v)]> (iter s)) (next_append_key s1)
               (rank (slot_list s) <$> internal_pointer s).
Proof.
  intros Hs Hk El Em Eptr Happ Hi.
  assert (slot_list s1 = slot_list s) as Esl by (unfold slot_list; by rewrite El).
  assert (consistent s1) as Hc1 by (unfold consistent; rewrite El, Em; apply Hs).
  destruct (replace_value_ok s1 i k old v Hc1) as (s' & Er & Hc' & (Hn & Hp & _) & Hsl'); [by rewrite Esl|].
  exists s'. split; [done|]. rewrite Esl in Hsl'. rewrite Eptr in Hp.
  assert (iter s' = <[rank (slot_list s) i := (k, v)]> (iter s)) as Hit.
  { rewrite !iter_slots, Hsl'. by apply (omap_set _ _ (k, old)). }
  assert ((iter s').*1 = (iter s).*1) as Hks.
  { rewrite Hit, list_fmap_insert. apply list_insert_id. rewrite list_lookup_fmap, iter_slots.
    by rewrite (lookup_rank _ _ _ Hi). }
  assert (forall p x, slot_list s !! p = Some (Some x) ->
            (exists y, slot_list s' !! p = Some (Some y)) /\ rank (slot_list s') p = rank (slot_list s) p) as Hslot.
  { intros p x Hx. rewrite Hsl'. split.
    - destruct (decide (i = p)) as [<-|Hne].
      + eexists. rewrite list_lookup_insert_eq; [done|]. by apply lookup_lt_Some in Hx.
      + exists x. by rewrite list_lookup_insert_ne.
    - destruct (decide (i < p)) as [Hlt|Hge]; [|apply rank_insert; lia].
      unfold rank. rewrite take_insert_lt by done. rewrite (omap_set _ _ (k, old)).
      + by rewrite length_insert.
      + by rewrite lookup_take_lt. }
  split.
  - split; [done| |by rewrite Hks; apply (keys_ok s Hs)|by rewrite Hks, Hn].
    intros p Hpp. rewrite Hp in Hpp. destruct (pointer_live s Hs p Hpp) as [x Hx]. by apply (Hslot p x).
  - unfold abs. rewrite Hit, Hn, Hp. f_equal.
    destruct (internal_pointer s) as [p|] eqn:Epp; [|done]. cbn. f_equal.
    destruct (pointer_live s Hs p Epp) as [x Hx]. by apply (Hslot p x).
Qed.

Lemma append_ok_bump_same next ks k : append_ok next ks -> key_ok k -> append_ok (bump next k) ks.
Proof.
  intros Ha Hk. eapply append_ok_mono; [by apply append_ok_bump|].
  intros z Hz. apply elem_of_app. by left.
Qed.

Lemma insert_ok s k sh v :
  array_ok s -> key_ok k ->
  exists r s', insert s k sh v = Ret (r, s') /\ array_ok s' /\ spec_insert (abs s) k v = (r, abs s').
Proof.
  intros Hs Hk. pose proof (layout_consistent s Hs) as Hc.
  destruct (bump_append_key_fields s k) as (El & Em & Ep & En).
  assert (forall x, find_index (bump_append_key s k) x = find_index s x) as Hfi.
  { intros x. unfold find_index. by rewrite El. }
  unfold insert, spec_insert. rewrite Hfi. cbn [pairs abs].
  destruct (find_index s k) as [i|] eqn:Ef.
  - apply (find_index_slots s _ k i Hc) in Ef as [old Hi].
    destruct (find_value s k i old Hc Hi) as (_ & Hlk & Hfp). rewrite Hlk, Hfp.
    destruct (overwrite_ok s (bump_mutation_epoch (bump_append_key s k)) i k old v Hs Hk El Em Ep)
      as (s' & Er & Hs' & Habs); [|done|].
    { change (next_append_key (bump_mutation_epoch ?x)) with (next_append_key x). rewrite En.
      apply append_ok_bump_same; [apply (append_fresh s Hs)|done]. }
    rewrite Er. cbn [obind]. exists (Some old), s'. split_and!; [done..|].
    change (next_append_key (bump_mutation_epoch ?x)) with (next_append_key x) in Habs.
    rewrite Habs, En. done.
  - destruct (find_missing s k Hc Ef) as [_ Hfp]. rewrite Hfp.
    assert (consistent (bump_append_key s k)) as Hc1 by (unfold consistent; by rewrite El, Em).
    assert (find_index (bump_append_key s k) k = None) as Ef1 by (by rewrite Hfi).
    destruct (prepare_insert_ok (bump_append_key s k) k Hc1 Ef1) as (Hc2 & Hsl & (Hn2 & Hp2 & _) & Hpk & Hrk).
    destruct (push_ok s (prepare_insert (bump_append_key s k) k) k sh v) as (s' & Epu & Hs' & Habs); try done.
    + rewrite Hsl. unfold slot_list. by rewrite El.
    + by rewrite Hp2.
    + by rewrite Hn2.
    + rewrite Epu. cbn [obind]. eexists _, _. split_and!; [done..|]. by rewrite Habs.
Qed.

(** An append key that is not the largest integer is free. *)
Lemma next_key_free s :
  array_ok s -> can_append s = true -> find_index s (KInt (next_key s)) = None.
Proof.
  intros Hs Hcan. unfold can_append in Hcan. destruct (find_index s (KInt (next_key s))) as [i|] eqn:Ef; [|done].
  exfalso. pose proof Ef as Ef'. apply (find_index_slots s _ _ i (layout_consistent s Hs)) in Ef' as [v Hv].
  destruct (append_fresh s Hs) as [_ Hlt].
  destruct (Hlt (next_key s)) as (n & En & Hn).
  { apply list_elem_of_fmap. exists (KInt (next_key s), v). split; [done|].
    rewrite iter_slots. apply list_elem_of_omap. exists (Some (KInt (next_key s), v)). split; [|done].
    by apply list_elem_of_lookup_2 in Hv. }
  unfold next_key in *. rewrite En in *. cbn in *. destruct Hn as [Hn|Hn]; [lia|].
  rewrite Hn, Z.eqb_refl in Hcan. cbn in Hcan. apply bool_decide_eq_true in Hcan. rewrite Hn in Ef. congruence.
Qed.

Lemma next_key_ok s : array_ok s -> key_ok (KInt (next_key s)).
Proof.
  intros Hs. unfold next_key. cbn. destruct (append_fresh s Hs) as [Hr _].
  destruct (next_append_key s) as [n|]; [by apply Hr|done].
Qed.

Lemma try_append_ok s v :
  array_ok s ->
  exists r s', try_append s v = Ret (r, s') /\ array_ok s' /\ spec_append (abs s) v = (r, abs s').
Proof.
  intros Hs. pose proof (layout_consistent s Hs) as Hc. unfold try_append, spec_append. cbn [pairs auto_key abs].
  fold (next_key s).
  assert (can_append s = negb (bool_decide (KInt (next_key s) = KInt I64_MAX /\
            is_Some (find_pos (KInt (next_key s)) (iter s))))) as Hcan.
  { rewrite find_pos_slots by done. unfold can_append.
    destruct (next_key s =? I64_MAX)%Z eqn:E; cbn [negb orb].
    - apply Z.eqb_eq in E. rewrite E. destruct (find_index s (KInt I64_MAX)).
      + rewrite bool_decide_false by done. rewrite bool_decide_true; [done|]. split; [done|by eexists].
      + rewrite bool_decide_true by done. rewrite bool_decide_false; [done|]. intros [_ [? ?]]. done.
    - apply Z.eqb_neq in E. rewrite bool_decide_false; [done|]. intros [[= ?] _]. done. }
  rewrite Hcan, negb_involutive. destruct (bool_decide _) eqn:Eb.
  { exists None, s. done. }
  cbn [negb] in Hcan. set (s1 := if is_record s then make_record_mixed s else s).
  assert (consistent s1 /\ slot_list s1 = slot_list s /\ same_fields s s1 /\ is_record s1 = false)
    as (Hc1 & Hsl1 & (Hn1 & Hp1 & _) & Hr1).
  { subst s1. destruct (is_record s) eqn:Er; [by apply make_record_mixed_ok|done]. }
  assert (next_key s1 = next_key s) as Hnk by (unfold next_key; by rewrite Hn1).
  rewrite Hnk. set (k := KInt (next_key s)).
  destruct (bump_append_key_fields s1 k) as (El & Em & Ep & En).
  set (s2 := bump_append_key s1 k) in *.
  assert (consistent s2) as Hc2 by (unfold consistent; by rewrite El, Em).
  set (s3 := if is_next_packed s1 k then s2 else make_mixed s2).
  assert (consistent s3 /\ slot_list s3 = slot_list s2 /\ same_fields s2 s3 /\ is_record s3 = false /\
          (is_packed s3 = true -> k = KInt (Z.of_nat (len s3)))) as (Hc3 & Hsl3 & (Hn3 & Hp3 & _) & Hr3 & Hpk).
  { subst s3. destruct (is_next_packed s1 k) eqn:Enp.
    - split_and!; try done; [unfold is_record; rewrite El; exact Hr1|]. intros _.
      unfold is_next_packed in Enp. apply andb_true_iff in Enp as [_ Hk%bool_decide_eq_true].
      unfold len. rewrite El. exact Hk.
    - destruct (make_mixed_ok s2 Hc2) as (H1 & H2 & H3 & H4 & H5). split_and!; congruence || done. }
  destruct (push_ok s s3 k false v) as (s' & Epu & Hs' & Habs); try done.
  - by apply next_key_ok.
  - by apply next_key_free.
  - rewrite Hsl3. unfold slot_list. rewrite El. exact Hsl1.
  - by rewrite Hp3, Ep.
  - by rewrite Hn3, En, Hn1.
  - congruence.
  - rewrite Epu. cbn [obind]. eexists _, _. split_and!; [done..|]. by rewrite Habs.
Qed.
End Operations.

Section Removal.
Context {V : Type} `{ArrayValue V} `{KeyClassifier}.
Implicit Types s : ArrayStorage (V := V).

Lemma set_then_value s i v s' : set_value_at s i v = Ret s' -> value_at s' i = Ret v.
Proof.
  unfold set_value_at. destruct (value_at s i) as [old| |] eqn:Ev; [|done..]. cbn [obind]. intros [= <-].
  revert Ev. unfold value_at, Prelude.index. cbn [set_layout layout].
  destruct (layout s) as [values|shape values|entries n ix].
  - destruct (values !! i) eqn:E; [|done]. intros _.
    rewrite list_lookup_insert_eq; [done|]. by apply lookup_lt_Some in E.
  - destruct (values !! i) eqn:E; [|done]. intros _.
    rewrite list_lookup_insert_eq; [done|]. by apply lookup_lt_Some in E.
  - rewrite list_lookup_alter_eq. destruct (entries !! i) as [[e|]|]; [|done..]. done.
Qed.

(** [get_mut] and the write through its guard replace the value. *)
Lemma update_mut_replace s k f i old :
  find_index s k = Some i -> value_at s i = Ret old ->
  update_mut s k f = olet (_, s') := replace_value (bump_mutation_epoch s) i (f old) in Ret (Some s').
Proof.
  intros Ef Ev. unfold update_mut, replace_value. rewrite Ef, Ev.
  change (value_at (bump_mutation_epoch s) i) with (value_at s i). rewrite Ev. cbn [obind].
  destruct (set_value_at (bump_mutation_epoch s) i (f old)) as [s'| |] eqn:Es; [|done..]. cbn [obind].
  by rewrite (set_then_value _ _ _ _ Es).
Qed.

Lemma update_mut_ok s k f :
  array_ok s -> key_ok k ->
  exists r, update_mut s k f = Ret r /\ array_ok (default s r) /\
    spec_update (abs s) k f = (bool_decide (is_Some r), abs (default s r)).
Proof.
  intros Hs Hk. pose proof (layout_consistent s Hs) as Hc. unfold spec_update. cbn [pairs abs].
  destruct (find_index s k) as [i|] eqn:Ef.
  - pose proof Ef as Ef'. apply (find_index_slots s _ k i Hc) in Ef' as [old Hi].
    destruct (find_value s k i old Hc Hi) as (_ & _ & Hfp). rewrite Hfp.
    pose proof (key_value_at s _ i Hc) as Hkv. rewrite Hi in Hkv. destruct Hkv as (_ & _ & Hv).
    rewrite (update_mut_replace s k f i old Ef Hv).
    destruct (overwrite_ok s (bump_mutation_epoch s) i k old (f old) Hs Hk) as (s' & Er & Hs' & Habs); try done.
    { apply (append_fresh s Hs). }
    rewrite Er. cbn [obind]. exists (Some s'). split_and!; [done..|]. change (default s (Some s')) with s'. rewrite Habs.
    rewrite bool_decide_true by (by eexists). do 2 f_equal.
    apply list_eq. intros j. destruct (decide (rank (slot_list s) i = j)) as [<-|Hne].
    + rewrite list_lookup_alter_eq, list_lookup_insert_eq; rewrite iter_slots;
        [by rewrite (lookup_rank _ _ _ Hi) | by apply (rank_lt _ _ (k, old))].
    + by rewrite list_lookup_alter_ne, list_lookup_insert_ne.
  - destruct (find_missing s k Hc Ef) as [_ Hfp]. rewrite Hfp.
    exists None. unfold update_mut. by rewrite Ef.
Qed.

Lemma rank_kill {A} (L : list (option A)) i x p :
  L !! i = Some (Some x) -> i < p -> rank (<[i := @None A]> L) p = rank L p - 1.
Proof.
  intros E Hlt. unfold rank. rewrite take_insert_lt by done.
  assert (take p L !! i = Some (Some x)) as E' by (by rewrite lookup_take_lt).
  rewrite (omap_kill _ _ x E'), length_delete; [lia|]. exists x. by apply lookup_rank.
Qed.

Lemma next_slot_kill {A} (L : list (option A)) (i : nat) : next_slot (<[i := @None A]> L) i = next_slot L i.
Proof. unfold next_slot. by rewrite drop_insert_lt by lia. Qed.

(** The slot after a killed slot takes over its rank. *)
Lemma rank_next_kill {A} (l : list (option A)) i x j :
  l !! i = Some (Some x) -> next_slot l i = Some j ->
  rank l i + 1 < length (omap id l) /\ rank (<[i := None]> l) j = rank l i.
Proof.
  intros Hi En. destruct (next_slot_Some _ _ _ _ Hi En) as [[z Hz] Hr].
  pose proof (rank_lt _ _ _ Hz) as Hj. assert (i < j) as Hij.
  { destruct (Nat.lt_trichotomy i j) as [?|[->|Hgt]]; [done|lia|].
    pose proof (rank_mono _ _ _ _ Hz Hgt). lia. }
  rewrite (rank_kill _ _ x _ Hi Hij). lia.
Qed.

(** The pointer after the removal from a mixed storage: still live, and where the
    specification puts it. *)
Lemma adjust_mixed s s' i x :
  slot_list s !! i = Some (Some x) -> slot_list s' = <[i := None]> (slot_list s) ->
  consistent s' -> is_packed s' = false -> is_record s' = false ->
  internal_pointer s' = internal_pointer s ->
  (forall p, internal_pointer s = Some p -> exists y, slot_list s !! p = Some (Some y)) ->
  let t := adjust_pointer_after_remove s' i in
  layout t = layout s' /\ cached_metadata t = cached_metadata s' /\ next_append_key t = next_append_key s' /\
  (forall p, internal_pointer t = Some p -> exists y, slot_list s' !! p = Some (Some y)) /\
  rank (slot_list s') <$> internal_pointer t =
    cursor_after_remove (iter s) (rank (slot_list s) i) (rank (slot_list s) <$> internal_pointer s).
Proof.
  intros Hi Hsl Hc Hnp Hnr Hptr Hlive t.
  assert (iter s' = base.delete (rank (slot_list s) i) (iter s)) as Hit.
  { rewrite !iter_slots, Hsl. by apply (omap_kill _ _ x). }
  pose proof (rank_lt _ _ _ Hi) as Hrlt. rewrite <- iter_slots in Hrlt.
  assert (length (iter s') = length (iter s) - 1) as Hlen.
  { rewrite Hit, length_delete; [lia|]. apply lookup_lt_is_Some. done. }
  subst t. unfold adjust_pointer_after_remove. rewrite Hptr.
  destruct (internal_pointer s) as [p|] eqn:Ep; [|split_and!; try done; by rewrite Hptr].
  unfold is_packed, is_record in *. destruct (layout s') as [| |es n ix] eqn:El; [done..|].
  split_and!; try done; cbn [set_internal_pointer internal_pointer].
  all: unfold is_empty; rewrite (len_iter s' _ Hc), Hlen.
  all: destruct (Hlive p eq_refl) as [y Hy]; pose proof (rank_lt _ _ _ Hy) as Hplt; rewrite <- iter_slots in Hplt.
  all: rewrite (next_index_slots s' _ i Hc), Hsl, next_slot_kill.
  - intros q. destruct (length (iter s) - 1 =? 0); [done|]. destruct (p =? i) eqn:Epi.
    + intros Hq. destruct (next_slot_Some _ _ _ _ Hi Hq) as [[z Hz] Hr]. exists z.
      rewrite list_lookup_insert_ne; [done|]. intros <-. lia.
    + intros [= <-]. apply Nat.eqb_neq in Epi. exists y. by rewrite list_lookup_insert_ne.
  - cbn [fmap option_fmap option_map cursor_after_remove].
    destruct (length (iter s) - 1 =? 0) eqn:Ee.
    + apply Nat.eqb_eq in Ee. rewrite (proj2 (Nat.eqb_eq _ _)) by lia.
      rewrite (proj2 (Nat.ltb_ge _ _)) by lia. done.
    + apply Nat.eqb_neq in Ee. destruct (p =? i) eqn:Epi.
      * apply Nat.eqb_eq in Epi as ->. rewrite Nat.eqb_refl.
        destruct (next_slot (slot_list s) i) as [j|] eqn:En; cbn [fmap option_fmap option_map].
        -- destruct (rank_next_kill _ _ _ _ Hi En) as [Hj ->]. rewrite <- iter_slots in Hj.
           by rewrite (proj2 (Nat.ltb_lt _ _)) by lia.
        -- apply (next_slot_None _ _ _ Hi) in En. rewrite <- iter_slots in En.
           rewrite (proj2 (Nat.ltb_ge _ _)) by lia. done.
      * apply Nat.eqb_neq in Epi. cbn [fmap option_fmap option_map].
        rewrite (proj2 (Nat.eqb_neq (rank _ p) _)) by (intros E; apply Epi; by apply (rank_inj _ _ _ _ _ Hy Hi)).
        destruct (decide (i < p)) as [Hlt|Hge].
        -- pose proof (rank_mono _ _ _ _ Hi Hlt). rewrite (proj2 (Nat.ltb_lt _ _)) by done.
           f_equal. by apply (rank_kill _ _ x).
        -- assert (p < i) as Hlt by lia. pose proof (rank_mono _ _ _ _ Hy Hlt).
           rewrite (proj2 (Nat.ltb_ge _ _)) by lia. f_equal. apply rank_insert. lia.
Qed.

(** Removal of the last element of a packed storage. *)
Lemma adjust_packed s s' i x :
  slot_list s !! i = Some (Some x) -> length (slot_list s) = i + 1 -> length (iter s) = i + 1 ->
  slot_list s' = take i (slot_list s) ->
  consistent s' -> is_packed s' = true -> len s' = i ->
  internal_pointer s' = internal_pointer s ->
  (forall p, internal_pointer s = Some p -> exists y, slot_list s !! p = Some (Some y)) ->
  rank (slot_list s) i = i ->
  let t := adjust_pointer_after_remove s' i in
  layout t = layout s' /\ cached_metadata t = cached_metadata s' /\ next_append_key t = next_append_key s' /\
  (forall p, internal_pointer t = Some p -> exists y, slot_list s' !! p = Some (Some y)) /\
  rank (slot_list s') <$> internal_pointer t =
    cursor_after_remove (iter s) (rank (slot_list s) i) (rank (slot_list s) <$> internal_pointer s).
Proof.
  intros Hi HL Hlen Hsl Hc Hp Hl Hptr Hlive Hri t. subst t. unfold adjust_pointer_after_remove. rewrite Hptr.
  destruct (internal_pointer s) as [p|] eqn:Ep; [|split_and!; try done; by rewrite Hptr].
  destruct (Hlive p eq_refl) as [y Hy]. pose proof (lookup_lt_Some _ _ _ Hy) as Hplt.
  unfold is_packed in Hp. destruct (layout s') as [values| |] eqn:El; [|done..].
  split_and!; try done; cbn [set_internal_pointer internal_pointer]; unfold is_empty; rewrite Hl.
  - intros q. destruct (i =? 0); [done|]. rewrite (proj2 (Nat.ltb_ge _ _)) by lia.
    destruct (i <=? p) eqn:E; [done|]. apply Nat.leb_gt in E. intros [= <-]. exists y. rewrite Hsl.
    by rewrite lookup_take_lt.
  - rewrite Hri. cbn [fmap option_fmap option_map cursor_after_remove].
    rewrite (proj2 (Nat.ltb_ge i p)) by lia.
    destruct (decide (p = i)) as [->|Hne].
    + rewrite Hri, Nat.eqb_refl, Nat.leb_refl, Hlen, (proj2 (Nat.ltb_ge _ _)) by lia. by destruct (i =? 0).
    + assert (p < i) as Hlt by lia. pose proof (rank_mono _ _ _ _ Hy Hlt) as Hm. rewrite Hri in Hm.
      rewrite (proj2 (Nat.eqb_neq i 0)) by lia. rewrite (proj2 (Nat.leb_gt _ _)) by done.
      rewrite (proj2 (Nat.eqb_neq _ i)) by lia. rewrite (proj2 (Nat.ltb_ge i _)) by lia.
      cbn. f_equal. rewrite Hsl. unfold rank. rewrite take_take. by rewrite Nat.min_l by lia.
Qed.
End Removal.

Section Removal2.
Context {V : Type} `{ArrayValue V} `{KeyClassifier}.
Implicit Types s : ArrayStorage (V := V).

Lemma prepare_remove_ok s i :
  consistent s -> let s' := prepare_remove s i in
  consistent s' /\ slot_list s' = slot_list s /\ same_fields s s' /\
  ((is_packed s' = true /\ i + 1 = len s') \/ (is_packed s' = false /\ is_record s' = false)).
Proof.
  intros Hc s'. subst s'. unfold prepare_remove. destruct (is_record s) eqn:Er.
  - destruct (make_record_mixed_ok s Hc) as (H1 & H2 & H3 & H4). split_and!; try done. right. split; [|done].
    unfold make_record_mixed, is_record, is_packed in *. by destruct (layout s).
  - destruct (is_packed s) eqn:Ep; cbn [andb].
    + destruct (i + 1 =? len s) eqn:El; cbn [negb].
      * apply Nat.eqb_eq in El. split_and!; try done. left. done.
      * destruct (make_mixed_ok s Hc) as (H1 & H2 & H3 & H4 & H5). split_and!; try done. by right.
    + split_and!; try done. by right.
Qed.

Lemma elem_of_delete {A} (l : list A) i x : x ∈ delete i l -> x ∈ l.
Proof.
  rewrite delete_take_drop, elem_of_app. intros [Hx|Hx].
  - by apply elem_of_take in Hx as (j & Hj & _); apply list_elem_of_lookup_2 in Hj.
  - apply list_elem_of_lookup in Hx as [j Hj]. rewrite lookup_drop in Hj. by apply list_elem_of_lookup_2 in Hj.
Qed.

Lemma fmap_delete {A B} (f : A -> B) (l : list A) i : f <$> delete i l = delete i (f <$> l).
Proof. rewrite !delete_take_drop, fmap_app, fmap_take, fmap_drop. done. Qed.

(** After the slot is gone and the pointer adjusted. *)
Lemma removed_ok s t i :
  array_ok s -> consistent t -> iter t = delete (rank (slot_list s) i) (iter s) ->
  next_append_key t = next_append_key s ->
  (forall p, internal_pointer t = Some p -> exists y, slot_list t !! p = Some (Some y)) ->
  rank (slot_list t) <$> internal_pointer t =
    cursor_after_remove (iter s) (rank (slot_list s) i) (rank (slot_list s) <$> internal_pointer s) ->
  let t' := bump_mutation_epoch (compact_mixed_if_needed t) in
  array_ok t' /\
  abs t' = mk_ordered (delete (rank (slot_list s) i) (iter s)) (next_append_key s)
             (cursor_after_remove (iter s) (rank (slot_list s) i) (rank (slot_list s) <$> internal_pointer s)).
Proof.
  intros Hs Hc Hit Hn Hlive Hcur t'.
  destruct (compact_ok t Hc Hlive) as (Hc' & Hit' & Hn' & Hrk & Hlive').
  assert (iter t' = delete (rank (slot_list s) i) (iter s)) as Hit2 by (by rewrite <- Hit, <- Hit').
  split.
  - split; [exact Hc'|exact Hlive'|..].
    + rewrite Hit2, fmap_delete. apply Forall_forall. intros k Hk%elem_of_delete.
      pose proof (keys_ok s Hs) as Hall. rewrite Forall_forall in Hall. auto.
    + rewrite Hit2, fmap_delete. change (next_append_key t') with (next_append_key (compact_mixed_if_needed t)).
      rewrite Hn', Hn. eapply append_ok_mono; [apply (append_fresh s Hs)|]. intros z. apply elem_of_delete.
  - unfold abs. rewrite Hit2. change (next_append_key t') with (next_append_key (compact_mixed_if_needed t)).
    rewrite Hn', Hn. f_equal. rewrite <- Hcur, <- Hrk. done.
Qed.

(** The slot of an element is removed from a storage that has left its compact
    form if need be. *)
Lemma removed_slot_ok s s1 i k v :
  consistent s1 -> slot_list s1 = slot_list s -> internal_pointer s1 = internal_pointer s ->
  (forall p, internal_pointer s = Some p -> exists y, slot_list s !! p = Some (Some y)) ->
  slot_list s !! i = Some (Some (k, v)) ->
  (is_packed s1 = true /\ i + 1 = len s1) \/ (is_packed s1 = false /\ is_record s1 = false) ->
  exists s2, remove_index s1 i = Ret (k, v, s2) /\
    let t := adjust_pointer_after_remove s2 i in
    consistent t /\ iter t = delete (rank (slot_list s) i) (iter s) /\
    next_append_key t = next_append_key s1 /\
    (forall p, internal_pointer t = Some p -> exists y, slot_list t !! p = Some (Some y)) /\
    rank (slot_list t) <$> internal_pointer t =
      cursor_after_remove (iter s) (rank (slot_list s) i) (rank (slot_list s) <$> internal_pointer s).
Proof.
  intros Hc1 Hsl1 Hp1 Hpl Hi Hcase. pose proof Hi as Hi1. rewrite <- Hsl1 in Hi1.
  assert (forall s2 t, layout t = layout s2 -> slot_list t = slot_list s2) as Hlay.
  { intros s2 t E. unfold slot_list. by rewrite E. }
  destruct Hcase as [[Hpk Hlen]|[Hpk Hrk]].
  - destruct (remove_packed_ok s1 i k v Hc1 Hpk Hlen Hi1) as (s2 & Er & Hc2 & (Hn2 & Hp2 & _) & Hsl2 & Hpk2).
    rewrite Hsl1 in Hsl2.
    assert (length (slot_list s) = i + 1 /\ rank (slot_list s) i = i) as [HL Hri].
    { rewrite <- Hsl1. split.
      - rewrite (slots_length s1 _ Hc1), Hlen. unfold slots, len, is_packed in *. by destruct (layout s1).
      - unfold slot_list, is_packed, len in *. destruct (layout s1); [|done..].
        apply rank_all_live. rewrite packed_pairs_length. lia. }
    assert (iter s = iter s2 ++ [(k, v)]) as Hits.
    { rewrite !iter_slots, Hsl2, (slot_split _ _ _ Hi), (drop_ge (slot_list s)) by lia. done. }
    assert (length (iter s2) = i) as Hl2 by (rewrite iter_slots, Hsl2; exact Hri).
    destruct (adjust_packed s s2 i (k, v)) as (El & Em & En & Hl & Hr); try done.
    { rewrite Hits, length_app, Hl2. done. }
    { by rewrite (len_iter s2 _ Hc2). }
    { by rewrite Hp2, Hp1. }
    exists s2. split; [done|]. cbv zeta. unfold consistent. rewrite El, Em, (Hlay _ _ El), En, iter_slots, (Hlay _ _ El).
    split_and!; try done. rewrite <- iter_slots, Hits, Hri. rewrite <- Hl2 at 1. by rewrite delete_middle, app_nil_r.
  - destruct (remove_mixed_ok s1 i k v Hc1 Hpk Hrk Hi1) as (s2 & Er & Hc2 & (Hn2 & Hp2 & _) & Hsl2 & Hpk2 & Hrk2).
    rewrite Hsl1 in Hsl2.
    destruct (adjust_mixed s s2 i (k, v)) as (El & Em & En & Hl & Hr); try done.
    { by rewrite Hp2, Hp1. }
    exists s2. split; [done|]. cbv zeta. unfold consistent. rewrite El, Em, (Hlay _ _ El), En, iter_slots, (Hlay _ _ El).
    split_and!; try done. rewrite Hsl2, (iter_slots s). by apply (omap_kill _ _ (k, v)).
Qed.

Lemma remove_ok s k :
  array_ok s ->
  exists r s', remove s k = Ret (r, s') /\ array_ok s' /\ spec_remove (abs s) k = (r, abs s').
Proof.
  intros Hs. pose proof (layout_consistent s Hs) as Hc. unfold remove, spec_remove. cbn [pairs abs auto_key cursor].
  destruct (find_index s k) as [i|] eqn:Ef.
  2:{ destruct (find_missing s k Hc Ef) as [_ ->]. by exists None, s. }
  apply (find_index_slots s _ k i Hc) in Ef as [v Hi].
  destruct (find_value s k i v Hc Hi) as (_ & -> & ->).
  destruct (prepare_remove_ok s i Hc) as (Hc1 & Hsl1 & (Hn1 & Hp1 & _) & Hcase).
  destruct (removed_slot_ok s (prepare_remove s i) i k v) as (s2 & Er & Hc2 & Hit & Hn2 & Hlive & Hcur);
    try done; [apply (pointer_live s Hs)|].
  rewrite Er. cbn [obind].
  destruct (removed_ok s (adjust_pointer_after_remove s2 i) i) as [Hok Habs]; try done; [congruence|].
  eexists _, _. split_and!; [done..|]. by rewrite Habs.
Qed.

(** ** [array_pop] *)

Lemma last_key_spec s : consistent s -> last_key s = fst <$> list.last (iter s).
Proof.
  intros Hc. unfold last_key. rewrite (last_index_slots s _ Hc), iter_slots, last_lookup.
  destruct (rposition live (slot_list s)) as [i|] eqn:E.
  - apply rposition_live in E as ([k v] & Hi & Hl). rewrite Hl. pose proof (key_value_at s _ i Hc) as Hkv.
    rewrite Hi in Hkv. destruct Hkv as (-> & _). replace (Nat.pred (rank (slot_list s) i + 1)) with (rank (slot_list s) i) by lia.
    by rewrite (lookup_rank _ _ _ Hi).
  - apply rposition_dead in E. by rewrite E.
Qed.

Lemma keys_nodup s : consistent s -> NoDup (iter s).*1.
Proof.
  intros Hc. apply NoDup_alt. intros i j k Hi Hj. rewrite list_lookup_fmap in Hi, Hj.
  destruct (iter s !! i) as [[k1 v1]|] eqn:E1; [|done]. destruct (iter s !! j) as [[k2 v2]|] eqn:E2; [|done].
  cbn in Hi, Hj. injection Hi as ->. injection Hj as ->. rewrite iter_slots in E1, E2.
  apply slot_of_rank in E1 as (a & Ea & <-), E2 as (b & Eb & <-).
  by rewrite (slot_key_unique s _ a b k v1 v2 Hc Ea Eb).
Qed.

(** Moving the append key back to the key that was popped keeps it fresh. *)
Lemma pop_append_ok next l z v :
  NoDup (l ++ [(KInt z, v)] : list (ArrayKey * V)).*1 -> in_i64 z = true ->
  append_ok next (l ++ [(KInt z, v)]).*1 -> next = Some (saturating_succ z) ->
  append_ok (Some z) l.*1.
Proof.
  intros Hnd Hz [_ Hlt] ->. split; [by intros n [= <-]|]. intros z' Hz'.
  exists z. split; [done|]. rewrite fmap_app in *. destruct (Hlt z') as (n & [= <-] & Hn).
  { apply elem_of_app. by left. }
  assert (z' <> z) as Hne.
  { intros ->. apply NoDup_app in Hnd as (_ & Hd & _). apply (Hd (KInt z)); [done|]. by left. }
  destruct (saturating_succ_spec z Hz) as (_ & _ & Hle). lia.
Qed.

Lemma set_next_ok s n : array_ok s -> append_ok n (iter s).*1 -> array_ok (set_next_append_key s n).
Proof. intros [H1 H2 H3 _] Hn. by split. Qed.

Lemma find_pos_last (l : list (ArrayKey * V)) k v :
  NoDup (l ++ [(k, v)]).*1 -> find_pos k (l ++ [(k, v)]) = Some (length l).
Proof.
  intros Hnd. apply position_Some. split.
  - exists (k, v). rewrite list_lookup_middle by done. by rewrite bool_decide_true.
  - intros j [k' v'] Hj E. apply bool_decide_eq_false. cbn. intros ->. rewrite fmap_app in Hnd.
    apply NoDup_app in Hnd as (_ & Hd & _). rewrite lookup_app_l in E by done.
    apply (Hd k); [|by left]. apply list_elem_of_fmap. exists (k, v'). split; [done|].
    by apply list_elem_of_lookup_2 in E.
Qed.

Lemma pop_ok s :
  array_ok s ->
  exists r s', pop s = Ret (r, s') /\ array_ok s' /\ spec_pop (abs s) = (r, abs s').
Proof.
  intros Hs. pose proof (layout_consistent s Hs) as Hc. unfold pop, spec_pop. cbn [pairs abs auto_key].
  rewrite last_key_spec by done. destruct (list.last (iter s)) as [[k v]|] eqn:El; cbn [fmap option_fmap option_map fst].
  2:{ by exists None, s. }
  destruct (remove_ok s k Hs) as (r & s' & Er & Hs' & Hsp). fold (abs s). rewrite Er, Hsp. cbn [obind].
  destruct k as [z|name]; [|by exists r, s'].
  destruct (bool_decide (next_append_key s = Some (saturating_succ z))) eqn:Eb; [|by exists r, s'].
  apply bool_decide_eq_true in Eb. eexists _, _. split_and!; [done| |done].
  apply last_Some in El as [l El]. pose proof (keys_nodup s Hc) as Hnd.
  apply set_next_ok; [done|]. unfold spec_remove in Hsp. cbn [pairs abs] in Hsp. rewrite El in Hsp, Hnd.
  rewrite find_pos_last, delete_middle, app_nil_r in Hsp by done. injection Hsp as _ Hit _ _. rewrite <- Hit.
  pose proof (keys_ok s Hs) as Hk. rewrite El, fmap_app, Forall_app in Hk. destruct Hk as [_ Hk].
  apply (pop_append_ok (next_append_key s) l z v); [done| |by rewrite <- El; apply (append_fresh s Hs)|done].
  cbn in Hk. by apply List.Forall_cons_iff in Hk as [? _].
Qed.
End Removal2.

(** ** The internal pointer *)

Section Pointer.
Context {V : Type} `{ArrayValue V} `{KeyClassifier}.
Implicit Types s : ArrayStorage (V := V).

Lemma set_pointer_ok s c :
  array_ok s -> (forall p, c = Some p -> exists x, slot_list s !! p = Some (Some x)) ->
  array_ok (set_internal_pointer s c).
Proof. intros [H1 _ H3 H4] Hc. by split. Qed.

(** Moving to a live slot, or to none. *)
Lemma move_slot_ok s i x :
  array_ok s -> slot_list s !! i = Some (Some x) ->
  array_ok (set_internal_pointer s (Some i)) /\
  move_to (abs s) (Some (rank (slot_list s) i)) = (get_value s i, abs (set_internal_pointer s (Some i))).
Proof.
  intros Hs Hi. split; [apply set_pointer_ok; [done|]; intros p [= <-]; eauto|].
  unfold move_to, abs. cbn [pairs auto_key]. f_equal.
  pose proof (key_value_at s _ i (layout_consistent s Hs)) as Hkv. rewrite Hi in Hkv.
  destruct x as [k v]. destruct Hkv as (_ & -> & _). by rewrite iter_slots, (lookup_rank _ _ _ Hi).
Qed.

Lemma move_none_ok s :
  array_ok s -> array_ok (set_internal_pointer s None) /\
  move_to (abs s) None = (None, abs (set_internal_pointer s None)).
Proof. intros Hs. split; [by apply set_pointer_ok|done]. Qed.

Lemma first_slot s :
  array_ok s ->
  match first_index s with
  | Some i => exists x, slot_list s !! i = Some (Some x) /\ rank (slot_list s) i = 0 /\ 0 < length (iter s)
  | None => length (iter s) = 0
  end.
Proof.
  intros Hs. rewrite (first_index_slots s _ (layout_consistent s Hs)), iter_slots.
  destruct (position live (slot_list s)) as [i|] eqn:E.
  - apply position_live in E as (x & Hi & Hr). exists x. pose proof (rank_lt _ _ _ Hi). split_and!; [done..|lia].
  - by rewrite (position_dead _ E).
Qed.

Lemma next_index_slot s i x :
  array_ok s -> slot_list s !! i = Some (Some x) ->
  match next_index s i with
  | Some j => exists y, slot_list s !! j = Some (Some y) /\ rank (slot_list s) j = rank (slot_list s) i + 1
  | None => length (iter s) = rank (slot_list s) i + 1
  end.
Proof.
  intros Hs Hi. rewrite (next_index_slots s _ i (layout_consistent s Hs)), iter_slots.
  destruct (next_slot (slot_list s) i) as [j|] eqn:E.
  - destruct (next_slot_Some _ _ _ _ Hi E) as [[y Hy] Hr]. eauto.
  - by apply (next_slot_None _ _ _ Hi).
Qed.

Lemma within_rank s i x : slot_list s !! i = Some (Some x) ->
  within (abs s) (rank (slot_list s) i) = Some (rank (slot_list s) i).
Proof.
  intros Hi. unfold within. cbn [pairs abs]. rewrite iter_slots, (proj2 (Nat.ltb_lt _ _)); [done|].
  by eapply rank_lt.
Qed.

Lemma within_end s n : length (iter s) = n -> within (abs s) n = None.
Proof. intros E. unfold within. cbn [pairs abs]. by rewrite (proj2 (Nat.ltb_ge _ _)) by lia. Qed.

Lemma reset_ok s :
  array_ok s -> array_ok (reset_pointer s).2 /\
  spec_reset (abs s) = ((reset_pointer s).1, abs (reset_pointer s).2).
Proof.
  intros Hs. unfold reset_pointer, spec_reset, is_empty.
  rewrite (len_iter s _ (layout_consistent s Hs)). pose proof (first_slot s Hs) as Hf.
  destruct (length (iter s) =? 0) eqn:E.
  - apply Nat.eqb_eq in E. rewrite within_end by done. by apply move_none_ok.
  - apply Nat.eqb_neq in E. destruct (first_index s) as [i|]; [|done].
    destruct Hf as (x & Hi & Hr & _). rewrite <- Hr, (within_rank s i x Hi). by apply (move_slot_ok s i x).
Qed.

Lemma end_ok s :
  array_ok s -> array_ok (end_pointer s).2 /\
  spec_end (abs s) = ((end_pointer s).1, abs (end_pointer s).2).
Proof.
  intros Hs. unfold end_pointer, spec_end. cbn [pairs abs].
  rewrite (last_index_slots s _ (layout_consistent s Hs)), iter_slots.
  destruct (rposition live (slot_list s)) as [i|] eqn:E.
  - apply rposition_live in E as (x & Hi & ->). rewrite Nat.add_1_r. cbn [checked_pred].
    by apply (move_slot_ok s i x).
  - by rewrite (rposition_dead _ E).
Qed.

Lemma next_ok s :
  array_ok s -> array_ok (next_pointer s).2 /\
  spec_next (abs s) = ((next_pointer s).1, abs (next_pointer s).2).
Proof.
  intros Hs. unfold next_pointer, spec_next. cbn [cursor abs].
  destruct (internal_pointer s) as [i|] eqn:Ep; cbn [fmap option_fmap option_map]; [|done].
  destruct (pointer_live s Hs i Ep) as [x Hx]. pose proof (next_index_slot s i x Hs Hx) as Hn.
  fold (abs s). destruct (next_index s i) as [j|].
  - destruct Hn as (y & Hy & Hr). rewrite <- Hr, (within_rank s j y Hy). by apply (move_slot_ok s j y).
  - rewrite within_end by done. by apply move_none_ok.
Qed.

Lemma prev_ok s :
  array_ok s -> exists r s', prev_pointer s = Ret (r, s') /\ array_ok s' /\ spec_prev (abs s) = (r, abs s').
Proof.
  intros Hs. unfold prev_pointer, spec_prev. cbn [cursor abs].
  destruct (internal_pointer s) as [i|] eqn:Ep; cbn [fmap option_fmap option_map]; [|by exists None, s].
  destruct (pointer_live s Hs i Ep) as [x Hx]. fold (abs s).
  rewrite (prev_index_slots s _ i (layout_consistent s Hs)) by (apply lookup_lt_Some in Hx; lia). cbn [obind].
  destruct (prev_slot (slot_list s) i) as [j|] eqn:E.
  - destruct (prev_slot_Some _ _ _ E) as [[y Hy] ->]. rewrite Nat.add_1_r. cbn [checked_pred].
    destruct (move_slot_ok s j y Hs Hy) as [Hok Hmv]. eexists _, _. split_and!; [done..|exact Hmv].
  - rewrite (prev_slot_None _ _ E). cbn [checked_pred].
    destruct (move_none_ok s Hs) as [Hok Hmv]. eexists _, _. split_and!; [done..|exact Hmv].
Qed.

Lemma advance_ok s n i x :
  array_ok s -> slot_list s !! i = Some (Some x) ->
  match advance s n i with
  | Some j => exists y, slot_list s !! j = Some (Some y) /\ rank (slot_list s) j = rank (slot_list s) i + n
  | None => length (iter s) <= rank (slot_list s) i + n
  end.
Proof.
  intros Hs. revert i x. induction n as [|n IH]; intros i x Hi; cbn [advance].
  - exists x. split; [done|lia].
  - pose proof (next_index_slot s i x Hs Hi) as Hn. destruct (next_index s i) as [j|]; [|lia].
    destruct Hn as (y & Hy & Hr). specialize (IH j y Hy). destruct (advance s n j) as [m|]; [|lia].
    destruct IH as (z & Hz & Hm). exists z. split; [done|lia].
Qed.

Lemma seek_ok s p :
  array_ok s -> array_ok (set_native_pointer_position s p) /\
  spec_seek (abs s) p = abs (set_native_pointer_position s p).
Proof.
  intros Hs. unfold set_native_pointer_position, spec_seek. pose proof (first_slot s Hs) as Hf.
  destruct p as [n|]; [|destruct (move_none_ok s Hs) as [? E]; split; [done|by rewrite E]].
  destruct (first_index s) as [i|].
  - destruct Hf as (x & Hi & Hr & _). pose proof (advance_ok s n i x Hs Hi) as Ha.
    destruct (advance s n i) as [j|].
    + destruct Ha as (y & Hy & Hj). rewrite Hr in Hj. cbn [Nat.add] in Hj. rewrite <- Hj, (within_rank s j y Hy).
      destruct (move_slot_ok s j y Hs Hy) as [? E]. split; [done|by rewrite E].
    + unfold within. cbn [pairs abs]. rewrite (proj2 (Nat.ltb_ge _ _)) by lia.
      destruct (move_none_ok s Hs) as [? E]. split; [done|by rewrite E].
  - unfold within. cbn [pairs abs]. rewrite (proj2 (Nat.ltb_ge _ _)) by lia.
    destruct (move_none_ok s Hs) as [? E]. split; [done|by rewrite E].
Qed.

(** The position of the pointer, by counting from the first slot. *)
Lemma position_loop_ok s target x fuel i y n :
  array_ok s -> slot_list s !! target = Some (Some x) -> slot_list s !! i = Some (Some y) ->
  rank (slot_list s) i <= rank (slot_list s) target ->
  rank (slot_list s) target < rank (slot_list s) i + fuel ->
  position_loop fuel s target i n = Some (n + (rank (slot_list s) target - rank (slot_list s) i)).
Proof.
  intros Hs Ht. revert i y n. induction fuel as [|fuel IH]; intros i y n Hi Hle Hfuel; [lia|].
  cbn [position_loop]. destruct (i =? target) eqn:E.
  - apply Nat.eqb_eq in E as ->. f_equal. lia.
  - apply Nat.eqb_neq in E. pose proof (next_index_slot s i y Hs Hi) as Hn.
    assert (rank (slot_list s) i <> rank (slot_list s) target) by (intros Er; apply E; by apply (rank_inj _ _ _ _ _ Hi Ht)).
    pose proof (rank_lt _ _ _ Ht) as Hlt. rewrite <- iter_slots in Hlt.
    destruct (next_index s i) as [j|]; [|lia]. destruct Hn as (z & Hz & Hr).
    rewrite (IH j z) by (done || lia). f_equal. lia.
Qed.

Lemma native_position_ok s : array_ok s -> native_pointer_position s = cursor (abs s).
Proof.
  intros Hs. unfold native_pointer_position. cbn [cursor abs].
  destruct (internal_pointer s) as [t|] eqn:Ep; [|done]. destruct (pointer_live s Hs t Ep) as [x Hx].
  pose proof (first_slot s Hs) as Hf. pose proof (rank_lt _ _ _ Hx) as Hlt. rewrite <- iter_slots in Hlt.
  destruct (first_index s) as [i|]; [|lia]. destruct Hf as (y & Hi & Hr & _).
  rewrite (position_loop_ok s t x _ i y 0 Hs Hx Hi); [| lia |].
  - cbn [fmap option_fmap option_map]. f_equal. lia.
  - rewrite <- (slots_length s _ (layout_consistent s Hs)), Hr. apply lookup_lt_Some in Hx.
    pose proof (rank_le (slot_list s) t). lia.
Qed.
End Pointer.
