(* ===== verification/PhpArrayClaims.v ===== *)
(** * PhpArrayClaims: what the operations of [PhpArray] promise

    The simulation of the abstract ordered map on whole sequences of operations,
    and what reading, iterating, the cached metadata and the append error are
    worth in every array a program can build. *)

From Stdlib Require Import Strings.String Strings.Byte ZArith.
From stdpp Require Import base list option numbers gmap fin_maps.
From S2P Require Import Prelude RustStd RustNum Simd PhpString NumericString NumericStringProofs PhpArray PhpArrayProofs PhpArraySpec.

Section Programs.
Context {V : Type} `{ArrayValue V} `{KeyClassifier}.
Implicit Types s : ArrayStorage (V := V).

(** ** Sequences of operations *)

Inductive ArrayOp :=
| OInsert (k : ArrayKey) (shared : bool) (v : V)
| OAppend (v : V)
| OSpread (source : list (ArrayKey * V))
| OUpdate (k : ArrayKey) (f : V -> V)
| ORemove (k : ArrayKey)
| OPop
| OReset
| OEnd
| ONext
| OPrev
| OSeek (p : option nat).

Inductive ArrayResult :=
| RValue (v : option V) | RKey (k : option ArrayKey) | RFound (b : bool) | RNone.

Definition run_op s (op : ArrayOp) : outcome (ArrayResult * ArrayStorage) :=
  match op with
  | OInsert k shared v => olet (r, s) := insert s k shared v in Ret (RValue r, s)
  | OAppend v => olet (r, s) := try_append s v in Ret (RKey r, s)
  | OSpread source => olet s := spread_extend s source in Ret (RNone, s)
  | OUpdate k f => olet r := update_mut s k f in
                   Ret (RFound (bool_decide (is_Some r)), default s r)
  | ORemove k => olet (r, s) := remove s k in Ret (RValue r, s)
  | OPop => olet (r, s) := pop s in Ret (RValue r, s)
  | OReset => Ret (RValue (reset_pointer s).1, (reset_pointer s).2)
  | OEnd => Ret (RValue (end_pointer s).1, (end_pointer s).2)
  | ONext => Ret (RValue (next_pointer s).1, (next_pointer s).2)
  | OPrev => olet (r, s) := prev_pointer s in Ret (RValue r, s)
  | OSeek p => Ret (RNone, set_native_pointer_position s p)
  end.

Fixpoint spec_spread (o : Ordered) (source : list (ArrayKey * V)) : Ordered :=
  match source with
  | [] => o
  | (KInt _, v) :: source => spec_spread (spec_append o v).2 source
  | (KString k, v) :: source => spec_spread (spec_insert o (KString k) v).2 source
  end.

Definition spec_op (o : Ordered) (op : ArrayOp) : ArrayResult * Ordered :=
  match op with
  | OInsert k _ v => let '(r, o) := spec_insert o k v in (RValue r, o)
  | OAppend v => let '(r, o) := spec_append o v in (RKey r, o)
  | OSpread source => (RNone, spec_spread o source)
  | OUpdate k f => let '(r, o) := spec_update o k f in (RFound r, o)
  | ORemove k => let '(r, o) := spec_remove o k in (RValue r, o)
  | OPop => let '(r, o) := spec_pop o in (RValue r, o)
  | OReset => let '(r, o) := spec_reset o in (RValue r, o)
  | OEnd => let '(r, o) := spec_end o in (RValue r, o)
  | ONext => let '(r, o) := spec_next o in (RValue r, o)
  | OPrev => let '(r, o) := spec_prev o in (RValue r, o)
  | OSeek p => (RNone, spec_seek o p)
  end.

(** Integer keys are [i64]. *)
Definition op_ok (op : ArrayOp) : Prop :=
  match op with OInsert k _ _ | OUpdate k _ => key_ok k | _ => True end.

Fixpoint run_all s (ops : list ArrayOp) : outcome (list ArrayResult * ArrayStorage) :=
  match ops with
  | [] => Ret ([], s)
  | op :: ops =>
      olet (r, s) := run_op s op in
      olet (rs, s) := run_all s ops in Ret (r :: rs, s)
  end.

Fixpoint spec_all (o : Ordered) (ops : list ArrayOp) : list ArrayResult * Ordered :=
  match ops with
  | [] => ([], o)
  | op :: ops =>
      let '(r, o) := spec_op o op in
      let '(rs, o) := spec_all o ops in (r :: rs, o)
  end.

Lemma spread_ok s source :
  array_ok s ->
  exists s', spread_extend s source = Ret s' /\ array_ok s' /\ spec_spread (abs s) source = abs s'.
Proof.
  revert s. induction source as [|[[z|k] v] source IH]; intros s Hs; cbn [spread_extend spec_spread].
  - by exists s.
  - unfold append. destruct (try_append_ok s v Hs) as (r & s' & -> & Hs' & ->). cbn [obind snd]. by apply IH.
  - destruct (insert_ok s (KString k) true v Hs I) as (r & s' & -> & Hs' & ->). cbn [obind snd]. by apply IH.
Qed.

Lemma run_op_ok s op :
  array_ok s -> op_ok op ->
  exists r s', run_op s op = Ret (r, s') /\ array_ok s' /\ spec_op (abs s) op = (r, abs s').
Proof.
  intros Hs Hop. destruct op; cbn [run_op spec_op op_ok] in *.
  - destruct (insert_ok s k shared v Hs Hop) as (r & s' & -> & ? & ->). cbn. eauto.
  - destruct (try_append_ok s v Hs) as (r & s' & -> & ? & ->). cbn. eauto.
  - destruct (spread_ok s source Hs) as (s' & -> & ? & ->). cbn. eauto.
  - destruct (update_mut_ok s k f Hs Hop) as (r & -> & Hs' & ->). cbn. eauto.
  - destruct (remove_ok s k Hs) as (r & s' & -> & ? & ->). cbn. eauto.
  - destruct (pop_ok s Hs) as (r & s' & -> & ? & ->). cbn. eauto.
  - destruct (reset_ok s Hs) as [? ->]. eauto.
  - destruct (end_ok s Hs) as [? ->]. eauto.
  - destruct (next_ok s Hs) as [? ->]. eauto.
  - destruct (prev_ok s Hs) as (r & s' & -> & ? & ->). cbn. eauto.
  - destruct (seek_ok s p Hs) as [? ->]. eauto.
Qed.

Lemma run_all_ok s ops :
  array_ok s -> Forall op_ok ops ->
  exists rs s', run_all s ops = Ret (rs, s') /\ array_ok s' /\ spec_all (abs s) ops = (rs, abs s').
Proof.
  intros Hs Hops. revert s Hs. induction Hops as [|op ops Hop _ IH]; intros s Hs; cbn [run_all spec_all].
  - by exists [], s.
  - destruct (run_op_ok s op Hs Hop) as (r & s1 & -> & Hs1 & ->). cbn [obind].
    destruct (IH s1 Hs1) as (rs & s2 & -> & Hs2 & ->). cbn [obind]. eauto.
Qed.

(** ** Where a program starts *)

Definition start_ok (elements : list V) : Prop := (Z.of_nat (length elements) <= I64_MAX)%Z.

Lemma packed_keys (values : list V) z :
  KInt z ∈ (packed_pairs values).*1 -> (0 <= z < Z.of_nat (length values))%Z.
Proof.
  intros ([k v] & E & Hin)%list_elem_of_fmap. cbn in E. subst k.
  apply list_elem_of_lookup in Hin as [i Hi]. rewrite packed_pairs_lookup in Hi.
  destruct (values !! i) eqn:Ei; [|done]. cbn in Hi. injection Hi as <- _. apply lookup_lt_Some in Ei. lia.
Qed.

Lemma from_packed_ok id elements : start_ok elements -> array_ok (from_packed id elements).
Proof.
  intros Hn. unfold start_ok in Hn. split.
  - done.
  - intros p. cbn [from_packed internal_pointer]. destruct (0 <? length elements) eqn:E; [|done].
    intros [= <-]. destruct elements as [|v elements]; [done|]. by eexists.
  - apply Forall_forall. intros [z|name] Hin; [|done]. apply packed_keys in Hin.
    cbn. unfold in_i64, I64_MIN, I64_MAX in *. rewrite andb_true_iff, !Z.leb_le. lia.
  - assert (forall n, (0 <= n <= I64_MAX)%Z -> in_i64 n = true) as Hin.
    { intros n Hr. unfold in_i64, I64_MIN, I64_MAX in *. rewrite andb_true_iff, !Z.leb_le. lia. }
    cbn [from_packed next_append_key]. unfold checked_i64. rewrite Hin by lia.
    split.
    + intros n. destruct (0 <? length elements); [|done]. intros [= <-]. apply Hin. lia.
    + intros z Hz. apply packed_keys in Hz. rewrite (proj2 (Nat.ltb_lt _ _)) by lia.
      eexists. split; [done|]. lia.
Qed.

(** The arrays a program can build: a literal list and any operations. *)
Definition built s : Prop :=
  exists id elements ops rs, start_ok elements /\ Forall op_ok ops /\
    run_all (from_packed id elements) ops = Ret (rs, s).

Lemma built_ok s : built s -> array_ok s.
Proof.
  intros (id & elements & ops & rs & Hst & Hops & E).
  destruct (run_all_ok _ ops (from_packed_ok id elements Hst) Hops) as (rs' & s' & E' & Hs' & _).
  rewrite E in E'. by injection E' as _ ->.
Qed.

(** ** Reading *)

Lemma get_ok s k : array_ok s -> get s k = lookup_key k (iter s).
Proof.
  intros Hs. pose proof (layout_consistent s Hs) as Hc. unfold get.
  destruct (find_index s k) as [i|] eqn:Ef.
  - apply (find_index_slots s _ k i Hc) in Ef as [v Hi]. destruct (find_value s k i v Hc Hi) as (_ & -> & _).
    pose proof (key_value_at s _ i Hc) as Hkv. rewrite Hi in Hkv. by destruct Hkv as (_ & -> & _).
  - by destruct (find_missing s k Hc Ef) as [-> _].
Qed.

Lemma pair_at_ok s i : array_ok s -> pair_at s i = iter s !! i.
Proof.
  intros Hs. pose proof (key_value_at s _ i (layout_consistent s Hs)) as Hkv. revert Hkv.
  unfold pair_at, key_at, get_value, iter, slot_list, layout_slots.
  destruct (layout s) as [values|shape values|entries n ix].
  - rewrite list_lookup_fmap. destruct (packed_pairs values !! i) as [[k v]|]; cbn [fmap option_fmap option_map].
    + by intros (-> & -> & _).
    + by intros (-> & ?).
  - rewrite list_lookup_fmap. destruct (record_pairs shape values !! i) as [[k v]|]; cbn [fmap option_fmap option_map].
    + by intros (-> & -> & _).
    + by intros (-> & ?).
  - intros _. unfold mixed_pairs. by rewrite list_lookup_fmap.
Qed.

(** ** Iterating with a cursor *)

(** [foreach]: read pairs until there is none. *)
Fixpoint for_each (fuel : nat) s (c : nat) : option (list (ArrayKey * V)) :=
  match fuel with
  | O => None
  | S fuel => match next_pair_at_cursor s c with
              | (None, _) => Some []
              | (Some p, c) => cons p <$> for_each fuel s c
              end
  end.

Lemma next_live_spec (slots : list (option (ArrayEntry (V := V)))) c :
  match next_live c slots with
  | (None, _) => mixed_pairs slots = []
  | (Some p, c') => exists rest, c' + length rest = c + length slots /\ rest = drop (c' - c) slots /\
                    c < c' /\ mixed_pairs slots = p :: mixed_pairs rest
  end.
Proof.
  revert c. induction slots as [|[e|] slots IH]; intros c; cbn [next_live]; [done| |].
  - exists slots. split_and!; [cbn; lia| |lia|done]. by replace (c + 1 - c) with 1 by lia.
  - specialize (IH (c + 1)). destruct (next_live (c + 1) slots) as [[p|] c'].
    + destruct IH as (rest & H1 & H2 & H3 & H4). exists rest. split_and!; [cbn; lia| |lia|done].
      rewrite H2. by replace (c' - c) with (S (c' - (c + 1))) by lia.
    + done.
Qed.

Lemma for_each_mixed s entries n ix fuel c :
  layout s = Mixed entries n ix -> c <= length entries -> length entries - c < fuel ->
  for_each fuel s c = Some (mixed_pairs (drop c entries)).
Proof.
  intros El. revert c. induction fuel as [|fuel IH]; intros c Hc Hf; [lia|]. cbn [for_each].
  unfold next_pair_at_cursor. rewrite El. pose proof (next_live_spec (drop c entries) c) as Hn.
  destruct (next_live c (drop c entries)) as [[p|] c']; [|by rewrite Hn].
  destruct Hn as (rest & H1 & H2 & H3 & ->). rewrite drop_drop in H2. replace (c + (c' - c)) with c' in H2 by lia.
  rewrite length_drop in H1. subst rest. rewrite length_drop in H1.
  destruct (decide (c' <= length entries)); [|lia].
  rewrite IH by lia. done.
Qed.

Lemma for_each_dense s fuel c :
  array_ok s -> match layout s with Mixed _ _ _ => False | _ => True end ->
  c <= length (iter s) -> length (iter s) < c + fuel -> for_each fuel s c = Some (drop c (iter s)).
Proof.
  intros Hs Hl. revert c. induction fuel as [|fuel IH]; intros c Hc Hf; cbn [for_each]; [lia|].
  assert (next_pair_at_cursor s c = match pair_at s c with Some p => (Some p, c + 1) | None => (None, c) end) as ->.
  { unfold next_pair_at_cursor. by destruct (layout s). }
  rewrite pair_at_ok by done. destruct (iter s !! c) as [p|] eqn:E.
  - apply lookup_lt_Some in E as Hlt. rewrite IH by lia. rewrite (drop_S _ _ _ E). by rewrite Nat.add_1_r.
  - apply lookup_ge_None in E. by rewrite drop_ge.
Qed.

Lemma for_each_ok s : array_ok s -> for_each (S (slots s)) s 0 = Some (iter s).
Proof.
  intros Hs. pose proof (layout_consistent s Hs) as Hc. destruct (layout s) as [values|shape values|entries n ix] eqn:El.
  - rewrite for_each_dense; [done|done|by rewrite El|lia|].
    rewrite <- (len_iter s (cached_metadata s)) by (by rewrite El). unfold len, slots. rewrite El. lia.
  - rewrite for_each_dense; [done|done|by rewrite El|lia|].
    rewrite <- (len_iter s (cached_metadata s)) by (by rewrite El). unfold len, slots. rewrite El. lia.
  - rewrite (for_each_mixed s entries n ix); [|done|lia|unfold slots; rewrite El; lia].
    unfold iter. by rewrite El.
Qed.

(** ** Metadata *)

Definition all_ints (l : list (ArrayKey * V)) : bool := forallb (fun p => is_int p.2) l.

Definition summary_of (l : list (ArrayKey * V)) : PhpArrayElementSummary :=
  match l with [] => ElementsEmpty | _ => if all_ints l then AllInt else ElementsMixed end.

(** The fields of the metadata, counted on the elements. *)
Lemma metadata_counts s : array_ok s ->
  let m := cached_metadata s in
  meta_len m = length (iter s) /\
  reference_values m = count_if (fun p => is_reference p.2) (iter s) /\
  int_values m = count_if (fun p => is_int p.2) (iter s) /\
  int_keys m = count_if (fun p => is_int_key p.1) (iter s) /\
  string_keys m = count_if (fun p => is_string_key p.1) (iter s) /\
  numeric_string_ambiguous_keys m = count_if (fun p => key_ambiguous p.1) (iter s).
Proof.
  intros Hs m. subst m. pose proof (layout_consistent s Hs) as Hc.
  assert (exists es, cached_metadata s = from_entries es /\ iter s = into_key_value <$> es) as (es & -> & ->).
  { unfold iter. destruct (layout s) as [values|shape values|entries n ix].
    - exists (imap (fun i v => new_entry (KInt (Z.of_nat i)) false v) values).
      rewrite packed_to_mixed_counts, packed_entries. done.
    - destruct Hc as (_ & E & -> & Ha).
      exists (zip_with (fun v k => new_entry (KString k) true v) values (keys shape)).
      by rewrite record_to_mixed_counts, record_entries.
    - destruct Hc as (_ & -> & _). by exists (omap id entries). }
  rewrite from_entries_counts. cbn [counts_of meta_len reference_values int_values int_keys string_keys
    numeric_string_ambiguous_keys]. rewrite length_fmap.
  split_and!; [done|..]; symmetry; by apply count_if_map.
Qed.

Lemma count_if_existsb {A} (p : A -> bool) l : (0 <? count_if p l) = existsb p l.
Proof.
  destruct (existsb p l) eqn:E.
  - apply Nat.ltb_lt. destruct (count_if p l) eqn:Ec; [|lia]. apply count_if_zero in Ec.
    apply existsb_exists in E as (x & Hx & Hp). rewrite Forall_forall in Ec.
    apply list_elem_of_In in Hx. specialize (Ec x Hx). cbn in Ec. congruence.
  - apply Nat.ltb_ge. enough (count_if p l = 0) by lia. apply count_if_zero, Forall_forall.
    intros x Hx%list_elem_of_In. destruct (p x) eqn:Ep; [|done].
    assert (existsb p l = true) by (apply existsb_exists; eauto). congruence.
Qed.

Lemma count_if_forallb {A} (p : A -> bool) l : (count_if p l =? length l) = forallb p l.
Proof.
  destruct (forallb p l) eqn:E.
  - apply Nat.eqb_eq, count_if_all, Forall_forall. intros x Hx%list_elem_of_In.
    rewrite forallb_forall in E. auto.
  - apply Nat.eqb_neq. rewrite count_if_all. intros Hall. rewrite <- not_true_iff_false in E. apply E.
    apply forallb_forall. intros x Hx%list_elem_of_In. rewrite Forall_forall in Hall. auto.
Qed.

Lemma checked_sum_ok (l : list (ArrayKey * V)) sum z :
  checked_sum sum l = inl z ->
  exists ns, Forall2 (fun p n => as_int p.2 = Some n) l ns /\ z = fold_left Z.add ns sum /\
             (ns = [] \/ in_i64 z = true).
Proof.
  revert sum. induction l as [|[k v] l IH]; intros sum; cbn [checked_sum].
  - intros [= <-]. exists []. split_and!; [constructor|done|by left].
  - destruct (as_int v) as [n|] eqn:En; [|done]. destruct (checked_i64 (sum + n)) as [sum'|] eqn:Ec; [|done].
    unfold checked_i64 in Ec. destruct (in_i64 (sum + n)) eqn:Hr; [|done]. injection Ec as <-.
    intros (ns & H1 & -> & H3)%IH. exists (n :: ns). split_and!; [by constructor|done|right].
    destruct H3 as [->|H3]; [done|exact H3].
Qed.
End Programs.

(** ** The classification of string keys *)

Definition numeric_start (x : byte) : bool :=
  is_ascii_digit x || existsb (Byte.eqb x) ["+"; "-"; " "; x09; x0a; x0d]%byte.

(** A string key that looks numeric and is not an integer key. *)
Definition numeric_ambiguous (l : bytes) : bool :=
  is_some_and (head l) numeric_start &&
  match array_key_integer_bytes BScalar l with Ret (Some _) => false | _ => true end.

#[export] Instance numeric_classifier : KeyClassifier := { ambiguous := numeric_ambiguous }.

(** On a cache without an entry for the text the code computes the same. *)
Lemma numeric_classifier_code a l c :
  entries c !! cache_key a l = None ->
  exists c', array_key_has_numeric_string_ambiguity BScalar a l c = Ret (numeric_ambiguous l, c').
Proof.
  intros Hmiss. unfold array_key_has_numeric_string_ambiguity, numeric_ambiguous.
  destruct l as [|x l]; [by exists c|]. cbn [head is_some_and]. unfold numeric_start.
  destruct (_ || _) eqn:Es; cbn [negb andb]; [|by exists c].
  unfold classify_array_key, array_key_integer_bytes. destruct (integer_start (x :: l)); cbn [negb]; [|by exists c].
  destruct (wp_classify_php_string BScalar a (x :: l) c) as (n & c' & E & Hn). rewrite Hmiss in Hn.
  destruct Hn as [Hn _]. exists c'. unfold bind. rewrite E, Hn. cbn [obind ret]. by destruct (key_of_numeric n).
Qed.

(** ** The claims *)

Section Claims.
Context {V : Type} `{ArrayValue V} `{KeyClassifier}.

(** C9: on every sequence of operations (insert, append, spread, update, remove,
    pop and the pointer moves) a [PhpArray] returns what the ordered map returns
    and stands for it afterwards, in whatever storage it is: overwriting keeps
    the order, a new key goes to the end, removal keeps the pointer on its
    element, the append key follows the largest integer key.  No operation
    panics, and every storage is consistent. *)
Theorem array_simulation id (elements : list V) ops :
  start_ok elements -> Forall op_ok ops ->
  exists rs s, run_all (from_packed id elements) ops = Ret (rs, s) /\
    spec_all (mk_ordered (packed_pairs elements)
                (if 0 <? length elements then Some (Z.of_nat (length elements)) else None)
                (if 0 <? length elements then Some 0 else None)) ops = (rs, abs s) /\
    array_ok s.
Proof.
  intros Hst Hops. destruct (run_all_ok _ ops (from_packed_ok id elements Hst) Hops) as (rs & s & E & Hs & Hsp).
  exists rs, s. split_and!; [done| |done]. rewrite <- Hsp. f_equal. unfold abs. cbn [from_packed next_append_key internal_pointer].
  unfold start_ok in Hst. destruct elements as [|v elements]; [done|]. cbn [Nat.ltb Nat.leb length]. f_equal.
  unfold checked_i64. replace (in_i64 _) with true; [done|]. symmetry.
  unfold in_i64, I64_MIN, I64_MAX in *. cbn [length] in Hst. rewrite andb_true_iff, !Z.leb_le. lia.
Qed.

(** Reading an array gives the elements of the ordered map: [get] by key,
    [pair_at] by position, [len], the position of the pointer, and [foreach] with
    a storage cursor, which ends after the last element and meets each once, in
    order, skipping removed slots. *)
Theorem array_reads (s : ArrayStorage (V := V)) :
  built s ->
  (forall k, get s k = lookup_key k (iter s)) /\
  (forall i, pair_at s i = iter s !! i) /\
  len s = length (iter s) /\
  NoDup (iter s).*1 /\
  native_pointer_position s = cursor (abs s) /\
  for_each (S (slots s)) s 0 = Some (iter s).
Proof.
  intros Hs%built_ok. split_and!.
  - intros k. by apply get_ok.
  - intros i. by apply pair_at_ok.
  - apply (len_iter s _ (layout_consistent s Hs)).
  - apply keys_nodup, (layout_consistent s Hs).
  - by apply native_position_ok.
  - by apply for_each_ok.
Qed.

(** The cached metadata is exact in every array: the reference, integer and
    ambiguous-key flags are those of the elements, and the fast sum of a packed
    array, when it gives a number, is the sum of its values within [i64]. *)
Theorem array_metadata_exact (s : ArrayStorage (V := V)) :
  built s ->
  contains_references (cached_metadata s) = existsb (fun p => is_reference p.2) (iter s) /\
  element_summary (cached_metadata s) = summary_of (iter s) /\
  has_numeric_string_key_ambiguity (cached_metadata s) = existsb (fun p => key_ambiguous p.1) (iter s) /\
  (key_kind_summary (cached_metadata s) false = StringOnly <->
     iter s <> [] /\ forallb (fun p => is_string_key p.1) (iter s) = true) /\
  forall shared z, packed_int_sum_fast s shared = inl z ->
    exists ns, Forall2 (fun p n => as_int p.2 = Some n) (iter s) ns /\ z = fold_left Z.add ns 0%Z /\
               in_i64 z = true.
Proof.
  intros Hs%built_ok. destruct (metadata_counts s Hs) as (Hlen & Href & Hint & Hik & Hsk & Hamb).
  unfold contains_references, element_summary, has_numeric_string_key_ambiguity, key_kind_summary.
  rewrite Hlen, Href, Hint, Hik, Hsk, Hamb, !count_if_existsb, !count_if_forallb.
  split_and!; [done| |done| |].
  - unfold summary_of, all_ints. by destruct (iter s).
  - destruct (iter s) as [|[[z|name] v] l]; [naive_solver| |]; cbn [length Nat.eqb forallb].
    + cbn. destruct (forallb _ l); naive_solver.
    + cbn. destruct (forallb _ l); naive_solver.
  - intros shared z. unfold packed_int_sum_fast. destruct (is_packed s); [|done]. destruct shared; [done|].
    cbn [negb]. destruct (contains_references _); [done|].
    destruct (element_summary (cached_metadata s)) eqn:Ees; [|intros (ns & H1 & H2 & H3)%checked_sum_ok|done].
    + intros [= <-]. exists []. unfold element_summary in Ees. rewrite Hlen in Ees.
      destruct (iter s); [done|]. cbn in Ees. by destruct (_ =? _).
    + exists ns. split_and!; [done..|]. destruct H3 as [->|H3]; [by subst z|done].
Qed.

(** An append fails exactly when the next key is [i64::MAX] and taken; the
    array is then unchanged, so is the append key. *)
Theorem array_append_error (s : ArrayStorage (V := V)) v :
  built s ->
  (exists s', try_append s v = Ret (None, s')) <->
  (next_key s = I64_MAX /\ KInt I64_MAX ∈ (iter s).*1 /\ try_append s v = Ret (None, s)).
Proof.
  intros Hs%built_ok. pose proof (layout_consistent s Hs) as Hc. split; [|intros (_ & _ & E); eauto].
  intros [s' E]. unfold try_append in *. destruct (can_append s) eqn:Ecan; cbn [negb] in *.
  { exfalso. destruct (push_entry _ _); done. }
  unfold can_append in Ecan. apply orb_false_iff in Ecan as [H1 H2]. apply negb_false_iff, Z.eqb_eq in H1.
  apply bool_decide_eq_false in H2. split_and!; [done| |done].
  destruct (find_index s (KInt I64_MAX)) as [i|] eqn:Ef; [|done].
  apply (find_index_slots s _ _ i Hc) in Ef as [w Hw]. apply list_elem_of_fmap. exists (KInt I64_MAX, w).
  split; [done|]. rewrite iter_slots. apply lookup_rank in Hw. by apply list_elem_of_lookup_2 in Hw.
Qed.
End Claims.

(** ** Concrete arrays *)

Inductive SampleValue := SInt (z : Z) | SText | SRef.
#[export] Instance sample_value : ArrayValue SampleValue := {
  is_reference v := match v with SRef => true | _ => false end;
  as_int v := match v with SInt z => Some z | _ => None end;
}.

(** [$a = [1, 2]; $a['x'] = ...; unset($a[0]); next($a); $a[] = 7; array_pop($a)] *)
Definition sample_ops : list (ArrayOp (V := SampleValue)) :=
  [OInsert (KString (lit "x")) true SText; ORemove (KInt 0); ONext; OAppend (SInt 7);
   OInsert (KInt 1) false SRef; OPop; OPrev].

Lemma array_simulation_witness :
  exists rs s, run_all (from_packed 1 [SInt 1; SInt 2]) sample_ops = Ret (rs, s) /\
    spec_all (mk_ordered (packed_pairs [SInt 1; SInt 2]) (Some 2%Z) (Some 0)) sample_ops = (rs, abs s) /\
    array_ok s.
Proof.
  apply (array_simulation 1 [SInt 1; SInt 2] sample_ops).
  - vm_compute. discriminate.
  - unfold sample_ops. repeat constructor.
Defined.

Definition sample_array : ArrayStorage (V := SampleValue) :=
  match run_all (from_packed 1 [SInt 1; SInt 2]) sample_ops with Ret (_, s) => s | _ => new_array 0 end.

Lemma sample_built : built sample_array.
Proof.
  exists 1%N, [SInt 1; SInt 2], sample_ops. eexists. split_and!.
  - vm_compute. discriminate.
  - unfold sample_ops. repeat constructor.
  - vm_compute. reflexivity.
Qed.

Lemma array_reads_witness :
  get sample_array (KInt 1) = Some SRef /\ for_each (S (slots sample_array)) sample_array 0 = Some (iter sample_array).
Proof.
  destruct (array_reads sample_array sample_built) as (Hget & _ & _ & _ & _ & Hfe).
  split; [rewrite (Hget (KInt 1)); vm_compute; reflexivity | exact Hfe].
Defined.

Lemma array_metadata_exact_witness : contains_references (cached_metadata sample_array) = true.
Proof.
  destruct (array_metadata_exact sample_array sample_built) as (Hr & _). rewrite Hr. vm_compute. reflexivity.
Defined.

Definition full_array : ArrayStorage (V := SampleValue) :=
  match insert (new_array 1) (KInt I64_MAX) false SText with Ret (_, s) => s | _ => new_array 0 end.

Lemma full_built : built full_array.
Proof.
  exists 1%N, [], [OInsert (KInt I64_MAX) false SText]. eexists. split_and!.
  - vm_compute. discriminate.
  - repeat constructor.
  - vm_compute. reflexivity.
Qed.

Lemma array_append_error_witness : try_append full_array SText = Ret (None, full_array).
Proof.
  apply (array_append_error full_array SText full_built). exists full_array. vm_compute. reflexivity.
Defined.
