(* ===== verification/RecordShapes.v ===== *)
(** * RecordShapes: the interned key shapes of record arrays

    The thread's shape cache of [php_runtime/src/array.rs]: shapes by the hash of
    their key sequence, the memoised transitions from a shape to the shape with
    one more key, and the private shapes of large arrays.  A shape is known by its
    [shape_id].  Keys are compared by their bytes ([PhpString.eq] is equality of
    bytes). *)

From Stdlib Require Import Strings.String Strings.Byte.
From stdpp Require Import base list option numbers gmap fin_maps.
From S2P Require Import Prelude RustStd RustNum PhpString NumericString PhpArray.

Abbreviation Shape := (N * RecordShape)%type.
Definition shape_id (sh : Shape) : N := sh.1.
Definition shape_keys (sh : Shape) : list bytes := keys sh.2.

Record Shapes := mk_shapes {
  shape_cache : gmap N (list (N * RecordShape));
  next_shape_id : N;
  transitions : gmap (N * bytes) (N * RecordShape);
}.

Definition record_shape_sequence_hash (ks : list bytes) : N :=
  fold_left (fun hash k => wrapping_mul64 (N.lxor hash (stable_hash_bytes k)) 0x00000100000001b3)
    ks 0xcbf29ce484222325%N.


(** [enumerate().map(..).collect()]: each key to its index. *)
Fixpoint slots_from (i : nat) (ks : list bytes) (m : gmap bytes nat) : gmap bytes nat :=
  match ks with [] => m | k :: ks => slots_from (i + 1) ks (<[k := i]> m) end.
Definition slots_of (ks : list bytes) : gmap bytes nat := slots_from 0 ks ∅.

Definition same_keys (ks ks' : list bytes) : bool :=
  (length ks =? length ks') && forallb (fun '(a, b) => bytes_eqb a b) (zip ks ks').

Definition fresh_shape_id : SM Shapes N :=
  fun c => Ret (next_shape_id c,
                mk_shapes (shape_cache c) ((next_shape_id c + 1) mod 2 ^ 64)%N (transitions c)).

(** [record_shape_for(keys, appended)] *)
Definition record_shape_for (ks : list bytes) (appended : option bytes) : SM Shapes Shape :=
  let all := ks ++ option_list appended in
  let h := record_shape_sequence_hash all in
  bind (gets (fun c => default [] (shape_cache c !! h))) (fun candidates =>
  match list_find (fun sh => same_keys (shape_keys sh) all = true) candidates with
  | Some (_, existing) => ret existing
  | None =>
      bind fresh_shape_id (fun id =>
      let sh := (id, mk_shape all (slots_of all)) in
      bind (modify (fun c => mk_shapes (<[h := candidates ++ [sh]]> (shape_cache c))
                               (next_shape_id c) (transitions c))) (fun _ => ret sh))
  end).

Definition record_shape_private_extended (sh : Shape) (k : bytes) : SM Shapes Shape :=
  bind fresh_shape_id (fun id =>
  ret (id, mk_shape (shape_keys sh ++ [k]) (<[k := length (shape_keys sh)]> (slot_by_key sh.2)))).

Definition record_shape_extended (sh : Shape) (k : bytes) : SM Shapes Shape :=
  bind (gets (fun c => transitions c !! (shape_id sh, k))) (fun memo =>
  match memo with
  | Some next =>
      if (length (shape_keys next) =? length (shape_keys sh) + 1) &&
         is_some_and (list.last (shape_keys next)) (fun last => bytes_eqb last k)
      then ret next
      else
        bind (record_shape_for (shape_keys sh) (Some k)) (fun next =>
        bind (modify (fun c => mk_shapes (shape_cache c) (next_shape_id c)
                                 (<[(shape_id sh, k) := next]> (transitions c)))) (fun _ => ret next))
  | None =>
      bind (record_shape_for (shape_keys sh) (Some k)) (fun next =>
      bind (modify (fun c => mk_shapes (shape_cache c) (next_shape_id c)
                               (<[(shape_id sh, k) := next]> (transitions c)))) (fun _ => ret next))
  end).

Definition RECORD_SHAPE_PRIVATE_GROWTH_THRESHOLD : nat := 32.

(** The shape of a record array that gets the key [k] ([push_entry]); [private]:
    the array is the only owner of an unregistered shape, which grows in place. *)
Definition grow_shape (private : bool) (sh : Shape) (k : bytes) : SM Shapes Shape :=
  if private then
    ret (shape_id sh, mk_shape (shape_keys sh ++ [k])
                        (<[k := length (shape_keys sh)]> (slot_by_key sh.2)))
  else if RECORD_SHAPE_PRIVATE_GROWTH_THRESHOLD <=? length (shape_keys sh)
  then record_shape_private_extended sh k
  else record_shape_extended sh k.

(** ** The cache is transparent

    The cached shapes have the slots of their keys and distinct ids, and a
    memoised transition leads from a shape to the shape with one key more. *)

Definition cached (c : Shapes) (sh : Shape) : Prop :=
  exists h shs, shape_cache c !! h = Some shs /\ sh ∈ shs.

Record shapes_ok (c : Shapes) : Prop := {
  cached_slots sh : cached c sh -> slot_by_key sh.2 = slots_of (shape_keys sh);
  cached_id sh : cached c sh -> (shape_id sh < next_shape_id c)%N;
  cached_unique sh sh' : cached c sh -> cached c sh' -> shape_id sh = shape_id sh' -> sh = sh';
  transition_ok id k next sh : transitions c !! (id, k) = Some next -> cached c sh -> shape_id sh = id ->
    next.2 = extend_shape sh.2 k;
  transition_id id k next : transitions c !! (id, k) = Some next -> (id < next_shape_id c)%N;
}.

Lemma slots_from_snoc i ks m k :
  slots_from i (ks ++ [k]) m = <[k := i + length ks]> (slots_from i ks m).
Proof.
  revert i m. induction ks as [|k' ks IH]; intros i m; cbn [app slots_from length].
  - by rewrite Nat.add_0_r.
  - rewrite IH. f_equal. lia.
Qed.

Lemma slots_of_snoc ks k : slots_of (ks ++ [k]) = <[k := length ks]> (slots_of ks).
Proof. apply slots_from_snoc. Qed.

Lemma same_keys_eq ks ks' : same_keys ks ks' = true <-> ks = ks'.
Proof.
  unfold same_keys. revert ks'. induction ks as [|k ks IH]; intros [|k' ks']; cbn; try done.
  rewrite !andb_true_iff, bytes_eqb_eq. specialize (IH ks'). rewrite andb_true_iff in IH.
  split.
  - intros (H1 & -> & H2). f_equal. by apply IH.
  - intros [= -> ->]. destruct IH as [_ IH]. destruct (IH eq_refl). done.
Qed.

Lemma mk_extend sh k :
  slot_by_key sh.2 = slots_of (shape_keys sh) ->
  mk_shape (shape_keys sh ++ [k]) (slots_of (shape_keys sh ++ [k])) = extend_shape sh.2 k.
Proof. intros E. unfold extend_shape. rewrite slots_of_snoc, <- E. done. Qed.

(** A shape for [ks], found or made, with the cache extended. *)
Lemma wp_record_shape_for ks k c :
  shapes_ok c -> (next_shape_id c + 1 < 2 ^ 64)%N ->
  wp (record_shape_for ks (Some k)) c (fun sh c' =>
    shapes_ok c' /\ cached c' sh /\ sh.2 = mk_shape (ks ++ [k]) (slots_of (ks ++ [k])) /\
    (next_shape_id c <= next_shape_id c')%N /\
    (forall sh', cached c sh' -> cached c' sh') /\ transitions c' = transitions c /\
    (forall sh', cached c' sh' -> cached c sh' \/ (next_shape_id c <= shape_id sh')%N)).
Proof.
  intros Hok Hroom. unfold record_shape_for. change (option_list (Some k)) with [k].
  set (h := record_shape_sequence_hash (ks ++ [k])). clearbody h.
  apply wp_bind, wp_gets. set (candidates := default [] (shape_cache c !! h)).
  assert (forall sh, sh ∈ candidates -> cached c sh) as Hcand.
  { intros sh Hin. subst candidates. destruct (shape_cache c !! h) as [shs|] eqn:E; [|by apply not_elem_of_nil in Hin].
    by exists h, shs. }
  destruct (list_find (fun sh => same_keys (shape_keys sh) (ks ++ [k]) = true) candidates) as [[i sh]|] eqn:Ef.
  - apply list_find_Some in Ef as (Hi & Hsame & _). apply same_keys_eq in Hsame.
    apply list_elem_of_lookup_2, Hcand in Hi. apply wp_ret. split_and!; try done; [|by left].
    pose proof (cached_slots c Hok sh Hi) as Hsl. destruct sh as [id [ks' sl]]. cbn in *. by subst.
  - apply wp_bind. eexists _, _. split; [reflexivity|]. apply wp_bind, wp_modify, wp_ret.
    cbn [shape_cache next_shape_id transitions]. rewrite N.mod_small by done.
    set (sh := (next_shape_id c, mk_shape (ks ++ [k]) (slots_of (ks ++ [k])))).
    set (c' := mk_shapes _ _ _).
    assert (forall sh', cached c' sh' <-> cached c sh' \/ sh' = sh) as Hcache.
    { intros sh'. split.
      - intros (h' & shs & E & Hin). cbn [c' shape_cache] in E.
        apply lookup_insert_Some in E as [[<- <-]|[Hne E]]; [|left; by exists h', shs].
        apply elem_of_app in Hin as [Hin|Hin]; [left; by apply Hcand|right]. by apply list_elem_of_singleton in Hin.
      - intros [(h' & shs & E & Hin)| ->].
        + destruct (decide (h = h')) as [<-|Hne].
          * exists h, (candidates ++ [sh]). cbn [c' shape_cache]. rewrite lookup_insert_eq. split; [done|].
            apply elem_of_app. left. subst candidates. by rewrite E.
          * exists h', shs. cbn [c' shape_cache]. by rewrite lookup_insert_ne.
        + exists h, (candidates ++ [sh]). cbn [c' shape_cache]. rewrite lookup_insert_eq. split; [done|].
          apply elem_of_app. right. by left. }
    split_and!; [|apply Hcache; by right|done|cbn; lia|intros sh' ?; apply Hcache; by left|done|].
    + split.
      * intros sh' [Hc| ->]%Hcache; [by apply (cached_slots c Hok)|done].
      * intros sh' [Hc| ->]%Hcache; cbn [c' next_shape_id]; [pose proof (cached_id c Hok sh' Hc); lia|cbn; lia].
      * intros sh1 sh2 [H1| ->]%Hcache [H2| ->]%Hcache Hid; [by apply (cached_unique c Hok)| | |done].
        -- apply (cached_id c Hok) in H1. cbn in Hid. lia.
        -- apply (cached_id c Hok) in H2. cbn in Hid. lia.
      * intros id k' next sh' Et [Hc| ->]%Hcache Hid; [by apply (transition_ok c Hok id k' next sh')|].
        apply (transition_id c Hok) in Et. cbn in Hid. lia.
      * intros id k' next Et. apply (transition_id c Hok) in Et. cbn. lia.
    + intros sh' [Hc| ->]%Hcache; [by left|right]. cbn. lia.
Qed.

(** Memoising the shape found for [sh] and [k]. *)
Lemma wp_memoise sh k c :
  shapes_ok c -> cached c sh -> (next_shape_id c + 1 < 2 ^ 64)%N ->
  wp (bind (record_shape_for (shape_keys sh) (Some k)) (fun next =>
      bind (modify (fun c => mk_shapes (shape_cache c) (next_shape_id c)
                               (<[(shape_id sh, k) := next]> (transitions c)))) (fun _ => ret next))) c
    (fun next c' => shapes_ok c' /\ cached c' next /\ next.2 = extend_shape sh.2 k).
Proof.
  intros Hok Hc Hroom. apply wp_bind. eapply wp_conseq; [by apply wp_record_shape_for|].
  intros next c' (Hok' & Hn & En & Hle & Hmono & Et & Hnew). apply wp_bind, wp_modify, wp_ret.
  assert (next.2 = extend_shape sh.2 k) as Hext by (rewrite En; apply mk_extend, (cached_slots c Hok sh Hc)).
  split_and!; [|exact Hn|done]. split; cbn [transitions next_shape_id].
  - apply (cached_slots c' Hok').
  - apply (cached_id c' Hok').
  - apply (cached_unique c' Hok').
  - intros id k' nx sh' [[[= <- <-] <-]|[_ E]]%lookup_insert_Some Hc' Hid; [|by apply (transition_ok c' Hok' id k' nx sh')].
    by rewrite (cached_unique c' Hok' sh' sh Hc' (Hmono sh Hc) Hid).
  - intros id k' nx [[[= <- <-] <-]|[_ E]]%lookup_insert_Some; [|by apply (transition_id c' Hok' id k' nx)].
    apply (cached_id c' Hok'), Hmono, Hc.
Qed.

Lemma wp_record_shape_extended sh k c :
  shapes_ok c -> cached c sh -> (next_shape_id c + 1 < 2 ^ 64)%N ->
  wp (record_shape_extended sh k) c (fun next c' => shapes_ok c' /\ next.2 = extend_shape sh.2 k).
Proof.
  intros Hok Hc Hroom. unfold record_shape_extended. apply wp_bind, wp_gets.
  assert (wp (bind (record_shape_for (shape_keys sh) (Some k)) (fun next =>
      bind (modify (fun c => mk_shapes (shape_cache c) (next_shape_id c)
                               (<[(shape_id sh, k) := next]> (transitions c)))) (fun _ => ret next))) c
    (fun next c' => shapes_ok c' /\ next.2 = extend_shape sh.2 k)) as Hmake.
  { eapply wp_conseq; [by apply wp_memoise|]. intros next c' (? & _ & ?). done. }
  destruct (transitions c !! (shape_id sh, k)) as [next|] eqn:Et; [|done].
  destruct (_ && _); [|done]. apply wp_ret. split; [done|]. by apply (transition_ok c Hok (shape_id sh) k).
Qed.

(** ** The claim *)

(** Whichever way a record array gets the shape for one more key (growing its
    own private shape, copying a large shape, a memoised transition, a cached or
    a new interned shape), the shape has the keys of the old one and the new key
    in the next slot: the thread's caches never show. *)
Theorem shape_growth_exact private sh k c :
  shapes_ok c -> (private = false -> cached c sh \/ 32 <= length (shape_keys sh)) ->
  (next_shape_id c + 1 < 2 ^ 64)%N ->
  exists next c', grow_shape private sh k c = Ret (next, c') /\ next.2 = extend_shape sh.2 k.
Proof.
  intros Hok Hsh Hroom. unfold grow_shape. destruct private; [by eexists _, _|].
  destruct (RECORD_SHAPE_PRIVATE_GROWTH_THRESHOLD <=? length (shape_keys sh)) eqn:Et.
  - by eexists _, _.
  - apply Nat.leb_gt in Et. unfold RECORD_SHAPE_PRIVATE_GROWTH_THRESHOLD in Et.
    destruct (Hsh eq_refl) as [Hc|Hl]; [|lia].
    destruct (wp_record_shape_extended sh k c Hok Hc Hroom) as (next & c' & E & _ & Hn). by exists next, c'.
Qed.

Definition no_shapes : Shapes := mk_shapes ∅ 1 ∅.

Lemma no_shapes_ok : shapes_ok no_shapes.
Proof.
  assert (forall sh, ~ cached no_shapes sh) as Hn by (intros sh (h & shs & E & _); cbn [no_shapes shape_cache] in E; by rewrite lookup_empty in E).
  split.
  - by intros sh ?%Hn.
  - by intros sh ?%Hn.
  - by intros sh sh' ?%Hn.
  - by intros id k next sh _ ?%Hn.
  - intros id k next E. cbn [no_shapes transitions] in E. by rewrite lookup_empty in E.
Qed.

(** The shape of [['a' => ..]] with a memoised transition for [b]. *)
Definition shape_a : Shape := (1%N, mk_shape [lit "a"] (slots_of [lit "a"])).

Definition shapes_with_a : Shapes :=
  match record_shape_for [] (Some (lit "a")) no_shapes with Ret (_, c) => c | _ => no_shapes end.

Lemma shapes_with_a_ok : shapes_ok shapes_with_a /\ cached shapes_with_a shape_a.
Proof.
  destruct (wp_record_shape_for [] (lit "a") no_shapes no_shapes_ok) as (sh & c & E & Hok & Hc & _); [done|].
  unfold shapes_with_a. rewrite E. split; [done|]. vm_compute in E. injection E as <- _. exact Hc.
Qed.

Lemma shape_growth_exact_witness :
  exists next c', grow_shape false shape_a (lit "b") shapes_with_a = Ret (next, c') /\
    next.2 = extend_shape shape_a.2 (lit "b").
Proof.
  apply (shape_growth_exact false shape_a (lit "b") shapes_with_a (proj1 shapes_with_a_ok)).
  - intros _. left. exact (proj2 shapes_with_a_ok).
  - vm_compute. reflexivity.
Defined.
