(* ===== verification/LiteralText.v ===== *)
(** * LiteralText: the contents of string literals

    [php_ir/src/literal_text.rs]: the body of quoted and heredoc literals, the
    escape sequences, and the parts of an interpolated string.  A [String] is the
    list of its UTF-8 bytes; [str::from_utf8(..).ok()?] is a test with
    [utf8_valid].  The loops take a bound on their rounds. *)

From Stdlib Require Import Strings.String Strings.Byte NArith ZArith.
From stdpp Require Import base list option numbers.
From S2P Require Import Prelude RustStd RustNum RustText.

(** The quotes and the backslash. *)
#[local] Notation SQ := x27.
#[local] Notation DQ := x22.
#[local] Notation BS := x5c.

(** ** Escape sequences *)

Definition hex_nibble (x : byte) : option N :=
  if is_ascii_digit x then Some (u8 x - 48)%N
  else if in_range x 97 102 then Some (u8 x - 97 + 10)%N
  else if in_range x 65 70 then Some (u8 x - 65 + 10)%N
  else None.

(** [value << 4] on [u8]. *)
Fixpoint hex_loop (l : bytes) (value : N) (consumed : nat) : N * nat :=
  match l with
  | [] => (value, consumed)
  | x :: l => match hex_nibble x with
              | Some nibble => hex_loop l (N.lor (N.shiftl value 4 mod 256) nibble) (consumed + 1)
              | None => (value, consumed)
              end
  end.
Definition decode_hex_escape (l : bytes) : byte * nat :=
  let '(value, consumed) := hex_loop (take 2 l) 0 0 in (byte_of_N value, consumed).

Definition is_octal (x : byte) : bool := in_range x 48 55.
Fixpoint octal_loop (l : bytes) (value : N) (consumed : nat) : N * nat :=
  match l with
  | [] => (value, consumed)
  | x :: l => if is_octal x then octal_loop l (N.lor (N.shiftl value 3 mod 65536) (u8 x - 48)) (consumed + 1)
              else (value, consumed)
  end.
Definition decode_octal_escape (l : bytes) : byte * nat :=
  let '(value, consumed) := octal_loop (take 3 l) 0 0 in (byte_of_N (value mod 256), consumed).

Definition checked_u32 (n : N) : option N := if (n <? 2 ^ 32)%N then Some n else None.

Fixpoint unicode_loop (l : bytes) (consumed : nat) (value : N) : option (bytes * nat) :=
  match l with
  | [] => None
  | x :: l =>
      if x =b "}"%byte then
        if (consumed =? 0)%nat then None
        else ch ← char_from_u32 value; Some (encode_utf8 ch, consumed + 1)
      else
        nibble ← hex_nibble x;
        value ← checked_u32 (value * 16);
        value ← checked_u32 (value + nibble);
        unicode_loop l (consumed + 1) value
  end.
Definition decode_unicode_escape (l : bytes) : option (bytes * nat) := unicode_loop l 0 0.

Fixpoint unescape_single_loop (fuel : nat) (body : bytes) (index : nat) (out : bytes) : outcome bytes :=
  match fuel with
  | O => Timeout
  | S fuel =>
      if negb (index <? length body) then Ret out
      else
        olet x := Prelude.index body index in
        if x =b BS then
          match body !! (index + 1) with
          | Some next =>
              if next =b BS then unescape_single_loop fuel body (index + 2) (out ++ [BS])
              else if next =b SQ then unescape_single_loop fuel body (index + 2) (out ++ [SQ])
              else unescape_single_loop fuel body (index + 2) (out ++ [BS; next])
          | None => unescape_single_loop fuel body (index + 1) (out ++ [BS])
          end
        else unescape_single_loop fuel body (index + 1) (out ++ [x])
  end.
Definition unescape_single_quoted_php_string (body : bytes) : outcome bytes :=
  unescape_single_loop (S (length body)) body 0 [].

(** The characters that stand for one byte after a backslash. *)
Definition simple_escape (x : byte) : option byte :=
  match x with
  | "n" => Some x0a
  | "r" => Some x0d
  | "t" => Some x09
  | "v" => Some x0b
  | "e" => Some x1b
  | "f" => Some x0c
  | "\" => Some "\"
  | "$" => Some "$"
  | _ => None
  end%byte.

(** One escape sequence, whose backslash is at [index] and followed by [next]:
    what it writes and the next index. *)
Definition double_escape (body : bytes) (decode_escaped_quote : bool) (index : nat) (next : byte) :
    outcome (bytes * nat) :=
  match simple_escape next with
  | Some y => Ret ([y], index + 2)
  | None =>
      if next =b DQ then Ret (if decode_escaped_quote then [DQ] else [BS; DQ], index + 2)
      else if (next =b "x"%byte) || (next =b "X"%byte) then
        olet rest := slice_from body (index + 2) in
        let '(value, consumed) := decode_hex_escape rest in
        if (consumed =? 0)%nat then Ret ([BS; next], index + 2) else Ret ([value], index + 2 + consumed)
      else if (next =b "u"%byte) && opt_is (body !! (index + 2)) "{"%byte then
        olet rest := slice_from body (index + 3) in
        match decode_unicode_escape rest with
        | Some (encoded, consumed) => Ret (encoded, index + 3 + consumed)
        | None => Ret ([BS; next], index + 2)
        end
      else if is_octal next then
        olet rest := slice_from body (index + 1) in
        let '(value, consumed) := decode_octal_escape rest in Ret ([value], index + 1 + consumed)
      else Ret ([BS; next], index + 2)
  end.

Fixpoint unescape_double_loop (fuel : nat) (body : bytes) (decode_escaped_quote : bool) (index : nat) (out : bytes) :
    outcome bytes :=
  match fuel with
  | O => Timeout
  | S fuel =>
      if negb (index <? length body) then Ret out
      else
        olet x := Prelude.index body index in
        if negb (x =b BS) then unescape_double_loop fuel body decode_escaped_quote (index + 1) (out ++ [x])
        else
          match body !! (index + 1) with
          | None => unescape_double_loop fuel body decode_escaped_quote (index + 1) (out ++ [BS])
          | Some next =>
              olet (written, index) := double_escape body decode_escaped_quote index next in
              unescape_double_loop fuel body decode_escaped_quote index (out ++ written)
          end
  end.
Definition unescape_double_quoted_php_string_with_quote_mode (body : bytes) (decode_escaped_quote : bool) :
    outcome bytes :=
  unescape_double_loop (S (length body)) body decode_escaped_quote 0 [].
Definition unescape_double_quoted_php_string (body : bytes) : outcome bytes :=
  unescape_double_quoted_php_string_with_quote_mode body true.
Definition unescape_heredoc_php_string (body : bytes) : outcome bytes :=
  unescape_double_quoted_php_string_with_quote_mode body false.

(** ** Quoted literals *)

Definition is_quote (x : byte) : bool := (x =b SQ) || (x =b DQ).

Definition quoted_literal_body (text : bytes) : outcome (option bytes) :=
  let quote_start :=
    match text with
    | x :: y :: _ => if ((x =b "b"%byte) || (x =b "B"%byte)) && is_quote y then 1 else 0
    | _ => 0
    end in
  match text !! quote_start with
  | None => Ret None
  | Some quote =>
      if (length text <? quote_start + 2) || negb (is_quote quote) || negb (opt_is (list.last text) quote) then Ret None
      else
        olet e := usize_sub (length text) 1 in
        olet body := slice text (quote_start + 1) e in
        olet l := (if quote =b SQ then unescape_single_quoted_php_string body
                   else unescape_double_quoted_php_string body) in
        Ret (Some l)
  end.

(** ** Heredocs *)

Record HeredocBodyInfo := mk_heredoc { heredoc_body : bytes; nowdoc : bool }.

Fixpoint strip_indent_loop (fuel : nat) (body indent : bytes) (line_start : nat) (stripped : bytes) : outcome bytes :=
  match fuel with
  | O => Timeout
  | S fuel =>
      if negb (line_start <? length body) then Ret stripped
      else
        olet rest := slice_from body line_start in
        let line_end := match position (Byte.eqb x0a) rest with
                        | Some offset => line_start + offset + 1
                        | None => length body
                        end in
        olet line := slice body line_start line_end in
        olet kept := (if starts_with indent line then slice_from line (length indent) else Ret line) in
        strip_indent_loop fuel body indent line_end (stripped ++ kept)
  end.
Definition strip_heredoc_body_indentation (body indent : bytes) : outcome bytes :=
  if (length indent =? 0)%nat || (length body =? 0)%nat then Ret body
  else strip_indent_loop (S (length body)) body indent 0 [].

Definition ends_with (x : byte) (l : bytes) : bool := opt_is (list.last l) x.

Definition heredoc_body_info (text : bytes) : outcome (option HeredocBodyInfo) :=
  if negb (starts_with (lit "<<<") text) then Ret None
  else
    match position (Byte.eqb x0a) text with
    | None => Ret None
    | Some first_newline =>
        olet header := slice text 0 first_newline in
        if negb (utf8_valid header) then Ret None
        else
          match strip_prefix (lit "<<<") (trim header) with
          | None => Ret None
          | Some marker =>
              let marker := trim marker in
              if (length marker =? 0)%nat then Ret None
              else
                let nowdoc := opt_is (head marker) SQ && ends_with SQ marker && (2 <=? length marker) in
                let body_start := first_newline + 1 in
                olet body_and_end := slice_from text body_start in
                let end_line_start := match rposition (Byte.eqb x0a) body_and_end with
                                      | Some offset => body_start + offset + 1
                                      | None => body_start
                                      end in
                if end_line_start <? body_start then Ret None
                else
                  let body_end := end_line_start - (if body_start <? end_line_start then 1 else 0) in
                  let body_end :=
                    if (body_start <? body_end) && opt_is (text !! (body_end - 1)) x0d then body_end - 1 else body_end in
                  olet last_line := slice_from text end_line_start in
                  let indent_len := run_len (fun x => (x =b x20) || (x =b x09)) last_line in
                  olet indent := slice text end_line_start (end_line_start + indent_len) in
                  olet body := slice text body_start body_end in
                  olet body := strip_heredoc_body_indentation body indent in
                  Ret (Some (mk_heredoc body nowdoc))
          end
    end.

Definition heredoc_literal_body (text : bytes) : outcome (option bytes) :=
  olet info := heredoc_body_info text in
  match info with
  | None => Ret None
  | Some info =>
      if nowdoc info then Ret (Some (heredoc_body info))
      else olet l := unescape_heredoc_php_string (heredoc_body info) in Ret (Some l)
  end.

(** ** Interpolation *)

Inductive InterpolatedDim := DimVariable (name : bytes) | DimInt (z : Z) | DimString (l : bytes).

Inductive InterpolatedPart :=
| PartBytes (l : bytes)
| PartVariable (name : bytes) (dim : option InterpolatedDim) (dim_tail : list InterpolatedDim) (deprecated_dollar_brace : bool)
| PartMethodCall (receiver method : bytes)
| PartProperty (receiver property : bytes) (property_tail : list bytes) (dim : option InterpolatedDim).

Record ParsedInterpolatedVariable := mk_variable {
  var_name : bytes; var_dim : option InterpolatedDim; var_dim_tail : list InterpolatedDim;
  var_end : nat; var_deprecated : bool }.
Record ParsedInterpolatedMethodCall := mk_call { call_receiver : bytes; call_method : bytes; call_end : nat }.
Record ParsedInterpolatedProperty := mk_property {
  prop_receiver : bytes; prop_name : bytes; prop_tail : list bytes; prop_dim : option InterpolatedDim; prop_end : nat }.

Definition is_php_variable_start (x : byte) : bool :=
  (x =b "_"%byte) || is_ascii_uppercase x || is_ascii_lowercase x || (128 <=? u8 x)%N.
Definition is_php_variable_continue (x : byte) : bool := is_php_variable_start x || is_ascii_digit x.

Definition is_quoted_interpolated_dim (inner : bytes) : bool :=
  (2 <=? length inner) &&
  (opt_is (head inner) SQ && opt_is (list.last inner) SQ || opt_is (head inner) DQ && opt_is (list.last inner) DQ).

(** The name that starts at [start], with the index after it. *)
Definition name_at (l : bytes) (start : nat) : option (bytes * nat) :=
  x ← l !! start;
  if negb (is_php_variable_start x) then None
  else
    let e := skip_while is_php_variable_continue l (start + 1) in
    let name := drop start (take e l) in
    if utf8_valid name then Some (name, e) else None.

Definition arrow_at (l : bytes) (i : nat) : bool := opt_is (l !! i) "-"%byte && opt_is (l !! (i + 1)) ">"%byte.

(** [parse_simple_interpolated_variable], given the parser of dimensions. *)
Section Simple.
Context (dim : bytes -> nat -> outcome (option (InterpolatedDim * nat))).

Fixpoint dim_chain (fuel : nat) (l : bytes) (e : nat) (tail : list InterpolatedDim) :
    outcome (list InterpolatedDim * nat) :=
  match fuel with
  | O => Timeout
  | S fuel =>
      olet r := dim l e in
      match r with
      | Some (d, next_end) => dim_chain fuel l next_end (tail ++ [d])
      | None => Ret (tail, e)
      end
  end.

Definition simple_variable (l : bytes) (start : nat) (allow_dim_chain : bool) : outcome (option ParsedInterpolatedVariable) :=
  match name_at l (start + 1) with
  | None => Ret None
  | Some (name, index) =>
      olet r := dim l index in
      let '(d, e) := match r with Some (d, e) => (Some d, e) | None => (None, index) end in
      olet (tail, e) := (if allow_dim_chain then dim_chain (S (length l)) l e [] else Ret ([], e)) in
      Ret (Some (mk_variable name d tail e false))
  end.
End Simple.

(** A dimension that is a variable is parsed in the text between the brackets. *)
Fixpoint parse_interpolated_dim_fuel (fuel : nat) (l : bytes) (start : nat) : outcome (option (InterpolatedDim * nat)) :=
  match fuel with
  | O => Timeout
  | S fuel =>
      if negb (opt_is (l !! start) "["%byte) then Ret None
      else
        olet rest := slice_from l (start + 1) in
        match position (Byte.eqb "]"%byte) rest with
        | None => Ret None
        | Some offset =>
            let e := start + 1 + offset in
            olet inner := slice l (start + 1) e in
            if (length inner =? 0)%nat then Ret None
            else if opt_is (head inner) "$"%byte then
              olet parsed := simple_variable (parse_interpolated_dim_fuel fuel) inner 0 false in
              match parsed with
              | None => Ret None
              | Some parsed =>
                  if negb (var_end parsed =? length inner)%nat || negb (bool_decide (var_dim parsed = None)) then Ret None
                  else Ret (Some (DimVariable (var_name parsed), e + 1))
              end
            else if forallb is_ascii_digit inner then
              Ret (if utf8_valid inner then (fun z => (DimInt z, e + 1)) <$> parse_i64 inner else None)
            else if is_quoted_interpolated_dim inner then
              olet k := usize_sub (length inner) 1 in
              olet name := slice inner 1 k in
              Ret (if utf8_valid name then Some (DimString name, e + 1) else None)
            else if match inner with
                    | x :: rest => is_php_variable_start x && forallb is_php_variable_continue rest
                    | [] => false
                    end
            then Ret (if utf8_valid inner then Some (DimString inner, e + 1) else None)
            else Ret None
        end
  end.

#[export] Instance dim_eq_dec : EqDecision InterpolatedDim.
Proof. solve_decision. Defined.

Definition parse_interpolated_dim (l : bytes) (start : nat) : outcome (option (InterpolatedDim * nat)) :=
  parse_interpolated_dim_fuel (S (length l)) l start.
Definition parse_simple_interpolated_variable := simple_variable parse_interpolated_dim.

Definition parse_braced_interpolated_variable (l : bytes) (start : nat) : outcome (option ParsedInterpolatedVariable) :=
  olet r := parse_simple_interpolated_variable l (start + 1) true in
  match r with
  | None => Ret None
  | Some p =>
      if negb (opt_is (l !! var_end p) "}"%byte) then Ret None
      else Ret (Some (mk_variable (var_name p) (var_dim p) (var_dim_tail p) (var_end p + 1) (var_deprecated p)))
  end.

Definition parse_braced_interpolated_method_call (l : bytes) (start : nat) : option ParsedInterpolatedMethodCall :=
  if negb (opt_is (l !! start) "{"%byte) || negb (opt_is (l !! (start + 1)) "$"%byte) then None
  else
    '(receiver, index) ← name_at l (start + 2);
    if negb (arrow_at l index) then None
    else
      '(method, index) ← name_at l (index + 2);
      if negb (opt_is (l !! index) "("%byte) || negb (opt_is (l !! (index + 1)) ")"%byte)
         || negb (opt_is (l !! (index + 2)) "}"%byte) then None
      else Some (mk_call receiver method (index + 3)).

(** The loop over [->name]; [None] is the [return None] within it. *)
Fixpoint property_chain (fuel : nat) (l : bytes) (index : nat) (tail : list bytes) : outcome (option (list bytes * nat)) :=
  match fuel with
  | O => Timeout
  | S fuel =>
      if arrow_at l index then
        match name_at l (index + 2) with
        | None => Ret None
        | Some (name, index) => property_chain fuel l index (tail ++ [name])
        end
      else Ret (Some (tail, index))
  end.

Definition parse_simple_interpolated_property (l : bytes) (start : nat) (allow_chain : bool) :
    outcome (option ParsedInterpolatedProperty) :=
  if negb (opt_is (l !! start) "$"%byte) then Ret None
  else
    match name_at l (start + 1) with
    | None => Ret None
    | Some (receiver, index) =>
        if negb (arrow_at l index) then Ret None
        else
          match name_at l (index + 2) with
          | None => Ret None
          | Some (property, index) =>
              olet r := (if allow_chain then property_chain (S (length l)) l index [] else Ret (Some ([], index))) in
              match r with
              | None => Ret None
              | Some (tail, index) =>
                  olet r := parse_interpolated_dim l index in
                  let '(d, e) := match r with Some (d, e) => (Some d, e) | None => (None, index) end in
                  Ret (Some (mk_property receiver property tail d e))
              end
          end
    end.

Definition parse_braced_interpolated_property (l : bytes) (start : nat) : outcome (option ParsedInterpolatedProperty) :=
  if negb (opt_is (l !! start) "{"%byte) || negb (opt_is (l !! (start + 1)) "$"%byte) then Ret None
  else
    olet r := parse_simple_interpolated_property l (start + 1) true in
    match r with
    | None => Ret None
    | Some p =>
        if negb (opt_is (l !! prop_end p) "}"%byte) then Ret None
        else Ret (Some (mk_property (prop_receiver p) (prop_name p) (prop_tail p) (prop_dim p) (prop_end p + 1)))
    end.

Definition parse_deprecated_dollar_brace_interpolated_variable (l : bytes) (start : nat) : option ParsedInterpolatedVariable :=
  if negb (opt_is (l !! start) "$"%byte) || negb (opt_is (l !! (start + 1)) "{"%byte) then None
  else
    '(name, index) ← name_at l (start + 2);
    if negb (opt_is (l !! index) "}"%byte) then None
    else Some (mk_variable name None [] (index + 1) true).

(** The interpolation that starts at [index], if one does, and its end: the
    attempts of the loop body in their order. *)
Definition part_of_variable (p : ParsedInterpolatedVariable) : InterpolatedPart * nat :=
  (PartVariable (var_name p) (var_dim p) (var_dim_tail p) (var_deprecated p), var_end p).
Definition part_of_property (p : ParsedInterpolatedProperty) : InterpolatedPart * nat :=
  (PartProperty (prop_receiver p) (prop_name p) (prop_tail p) (prop_dim p), prop_end p).
Definition part_of_call (p : ParsedInterpolatedMethodCall) : InterpolatedPart * nat :=
  (PartMethodCall (call_receiver p) (call_method p), call_end p).

Definition interpolation_at (body : bytes) (index : nat) (x : byte) : outcome (option (InterpolatedPart * nat)) :=
  let braced := (x =b "{"%byte) && opt_is (body !! (index + 1)) "$"%byte in
  match (if braced then parse_braced_interpolated_method_call body index else None) with
  | Some p => Ret (Some (part_of_call p))
  | None =>
      olet p := (if braced then parse_braced_interpolated_property body index else Ret None) in
      match p with
      | Some p => Ret (Some (part_of_property p))
      | None =>
          olet p := (if x =b "$"%byte then parse_simple_interpolated_property body index false else Ret None) in
          match p with
          | Some p => Ret (Some (part_of_property p))
          | None =>
              olet p :=
                (if x =b "$"%byte then
                   match parse_deprecated_dollar_brace_interpolated_variable body index with
                   | Some p => Ret (Some p)
                   | None => parse_simple_interpolated_variable body index false
                   end
                 else if braced then parse_braced_interpolated_variable body index
                 else Ret None) in
              Ret (part_of_variable <$> p)
          end
      end
  end.

Fixpoint interpolate_loop (fuel : nat) (body : bytes) (decode_escaped_quote : bool)
    (parts : list InterpolatedPart) (chunk_start index : nat) : outcome (list InterpolatedPart * nat) :=
  match fuel with
  | O => Timeout
  | S fuel =>
      if negb (index <? length body) then Ret (parts, chunk_start)
      else
        olet x := Prelude.index body index in
        if x =b BS then
          interpolate_loop fuel body decode_escaped_quote parts chunk_start
            (index + ((if index + 1 <? length body then 1 else 0) + 1))
        else
          olet p := interpolation_at body index x in
          match p with
          | None => interpolate_loop fuel body decode_escaped_quote parts chunk_start (index + 1)
          | Some (part, e) =>
              olet chunk := slice body chunk_start index in
              olet l := unescape_double_quoted_php_string_with_quote_mode chunk decode_escaped_quote in
              interpolate_loop fuel body decode_escaped_quote (parts ++ [PartBytes l; part]) e e
          end
  end.

Definition parse_interpolated_double_quoted_body (body : bytes) (decode_escaped_quote : bool) :
    outcome (option (list InterpolatedPart)) :=
  olet (parts, chunk_start) := interpolate_loop (S (length body)) body decode_escaped_quote [] 0 0 in
  if (length parts =? 0)%nat then Ret None
  else
    olet chunk := slice_from body chunk_start in
    olet l := unescape_double_quoted_php_string_with_quote_mode chunk decode_escaped_quote in
    Ret (Some (parts ++ [PartBytes l])).

Definition interpolated_literal_parts (text : bytes) : outcome (option (list InterpolatedPart)) :=
  let trimmed := trim text in
  if opt_is (head trimmed) DQ && opt_is (list.last trimmed) DQ then
    olet e := usize_sub (length trimmed) 1 in
    olet body := slice trimmed 1 e in
    parse_interpolated_double_quoted_body body true
  else
    olet heredoc := heredoc_body_info trimmed in
    match heredoc with
    | None => Ret None
    | Some h => if nowdoc h then Ret None else parse_interpolated_double_quoted_body (heredoc_body h) false
    end.
