(* ===== verification/LiteralTextProofs.v ===== *)
(** * LiteralTextProofs: string literals decode to what was encoded *)

From Stdlib Require Import Strings.String Strings.Byte NArith ZArith.
From stdpp Require Import base list option numbers.
From S2P Require Import Prelude RustStd RustNum RustText LiteralText.

(** ** Slices in range *)

Lemma slice_from_ret {A} (l : list A) i : i <= length l -> slice_from l i = Ret (drop i l).
Proof. intros H. unfold slice_from. by rewrite (proj2 (Nat.leb_le _ _)). Qed.
Lemma slice_ret {A} (l : list A) i j : i <= j -> j <= length l -> slice l i j = Ret (drop i (take j l)).
Proof. intros H1 H2. unfold slice. by rewrite !(proj2 (Nat.leb_le _ _)). Qed.
Lemma index_ret {A} (l : list A) i x : l !! i = Some x -> Prelude.index l i = Ret x.
Proof. intros E. unfold Prelude.index. by rewrite E. Qed.
Lemma drop_lookup {A} (l : list A) i x : l !! i = Some x -> drop i l = x :: drop (i + 1) l.
Proof. intros E. rewrite Nat.add_1_r. by apply drop_S. Qed.

(** ** Single quotes *)

(** The decoding on lists. *)
Fixpoint single_ref (l : bytes) : bytes :=
  match l with
  | [] => []
  | x :: r =>
      if x =b x5c then
        match r with
        | [] => [x5c]
        | y :: r' => (if (y =b x5c) || (y =b x27) then [y] else [x5c; y]) ++ single_ref r'
        end
      else x :: single_ref r
  end.

Lemma single_loop_ref n fuel body i out :
  length body - i <= n -> n < fuel ->
  unescape_single_loop fuel body i out = Ret (out ++ single_ref (drop i body)).
Proof.
  revert fuel i out. induction n as [n IH] using lt_wf_ind. intros fuel i out Hn Hf.
  destruct fuel as [|fuel]; [lia|]. cbn [unescape_single_loop]. destruct (Nat.ltb_spec i (length body)) as [Hi|Hi]; cbn [negb].
  - destruct (lookup_lt_is_Some_2 body i Hi) as [x Ex]. rewrite (index_ret _ _ _ Ex). cbn [obind].
    rewrite (drop_lookup _ _ _ Ex). cbn [single_ref]. destruct (x =b x5c).
    + destruct (body !! (i + 1)) as [y|] eqn:Ey.
      * rewrite (drop_lookup _ _ _ Ey). replace (i + 1 + 1) with (i + 2) by lia. apply lookup_lt_Some in Ey.
        assert (forall o, unescape_single_loop fuel body (i + 2) o = Ret (o ++ single_ref (drop (i + 2) body))) as Hrec
          by (intros o; apply (IH (n - 2)); lia).
        destruct (y =b x5c) eqn:E1; [apply beq_eq in E1 as ->; rewrite Hrec; by rewrite <- app_assoc|].
        destruct (y =b x27) eqn:E2; [apply beq_eq in E2 as ->|]; rewrite Hrec; cbn; by rewrite <- app_assoc.
      * apply lookup_ge_None in Ey. rewrite (drop_ge body (i + 1)) by lia.
        rewrite (IH (n - 1)) by lia. rewrite (drop_ge body (i + 1)) by lia. by rewrite app_nil_r.
    + rewrite (IH (n - 1)) by lia. by rewrite <- app_assoc.
  - rewrite drop_ge by lia. by rewrite app_nil_r.
Qed.

Lemma unescape_single_ref body : unescape_single_quoted_php_string body = Ret (single_ref body).
Proof. unfold unescape_single_quoted_php_string. by rewrite (single_loop_ref (length body)) by lia. Qed.

(** How to write a text between single quotes. *)
Definition escape_single (l : bytes) : bytes :=
  flat_map (fun x => if (x =b x5c) || (x =b x27) then [x5c; x] else [x]) l.

Lemma single_round l : single_ref (escape_single l) = l.
Proof.
  induction l as [|x l IH]; [done|]. unfold escape_single in *. cbn [flat_map].
  destruct ((x =b x5c) || (x =b x27)) eqn:E; cbn [app single_ref].
  - rewrite beq_refl, E. cbn [app]. by rewrite IH.
  - apply orb_false_iff in E as [-> _]. by rewrite IH.
Qed.

(** ** Double quotes *)

Lemma hex_loop_count l v c : snd (hex_loop l v c) <= c + length l.
Proof.
  revert v c. induction l as [|x l IH]; intros v c; cbn; [lia|]. destruct (hex_nibble x); cbn; [|lia].
  etransitivity; [apply IH|]. lia.
Qed.

Lemma decode_hex_count l : snd (decode_hex_escape l) <= length l.
Proof.
  unfold decode_hex_escape. pose proof (hex_loop_count (take 2 l) 0 0) as H.
  destruct (hex_loop (take 2 l) 0 0) as [v c]. cbn in *. rewrite length_take in H. lia.
Qed.

Lemma octal_loop_count l v c : c <= snd (octal_loop l v c) <= c + length l.
Proof.
  revert v c. induction l as [|x l IH]; intros v c; cbn; [lia|]. destruct (is_octal x); cbn; [|lia].
  specialize (IH (N.lor (N.shiftl v 3 mod 65536) (u8 x - 48)) (c + 1)). lia.
Qed.

Lemma decode_octal_count x l : is_octal x = true -> 1 <= snd (decode_octal_escape (x :: l)) <= length (x :: l).
Proof.
  intros Hx. unfold decode_octal_escape. cbn [take octal_loop]. rewrite Hx.
  match goal with |- context [octal_loop ?a ?b ?c] => pose proof (octal_loop_count a b c) as H; destruct (octal_loop a b c) as [v k] end.
  cbn [snd] in *. rewrite length_take in H. cbn [length]. lia.
Qed.

Lemma unicode_loop_count l c v r : unicode_loop l c v = Some r -> c < snd r <= c + length l.
Proof.
  revert c v. induction l as [|x l IH]; intros c v; cbn; [done|].
  destruct (x =b "}"%byte).
  - destruct (c =? 0); [done|]. destruct (char_from_u32 v); [|done]. cbn. intros [= <-]. cbn. lia.
  - destruct (hex_nibble x) as [h|]; [|done]. cbn. destruct (checked_u32 (v * 16)) as [w|]; [|done]. cbn.
    destruct (checked_u32 (w + h)) as [u|]; [|done]. cbn. intros H%IH. lia.
Qed.

(** An escape sequence is read from the text behind it, moves on and stays in
    the text. *)
Lemma double_escape_drop body q i next :
  i + 1 < length body -> body !! (i + 1) = Some next ->
  exists w j, double_escape body q i next = Ret (w, i + j) /\ 2 <= j /\ i + j <= length body /\
              double_escape (drop i body) q 0 next = Ret (w, j).
Proof.
  intros Hi Hn. unfold double_escape.
  assert (length (drop i body) = length body - i) as Hl by apply length_drop.
  destruct (simple_escape next) as [y|]; [exists [y], 2; split_and!; done || lia|].
  destruct (next =b x22); [eexists _, 2; split_and!; try done; lia|].
  destruct ((next =b "x"%byte) || (next =b "X"%byte)).
  { rewrite !slice_from_ret by lia. cbn [obind]. rewrite drop_drop. replace (0 + 2 + i) with (i + 2) by lia.
    pose proof (decode_hex_count (drop (i + 2) body)) as Hc. destruct (decode_hex_escape _) as [v c]. cbn [snd] in Hc.
    rewrite length_drop in Hc. replace (i + (0 + 2)) with (i + 2) by lia. destruct (c =? 0).
    - exists [x5c; next], 2. split_and!; done || lia.
    - exists [v], (2 + c). split_and!; [do 2 f_equal; lia|lia..|done]. }
  rewrite lookup_drop. replace (i + (0 + 2)) with (i + 2) by lia.
  destruct ((next =b "u"%byte) && opt_is (body !! (i + 2)) "{"%byte) eqn:Eu.
  { apply andb_true_iff in Eu as [_ Eu%opt_is_Some%lookup_lt_Some]. rewrite !slice_from_ret by lia. cbn [obind].
    rewrite drop_drop. replace (i + (0 + 3)) with (i + 3) by lia.
    destruct (decode_unicode_escape (drop (i + 3) body)) as [[e c]|] eqn:Ed; [|eexists _, 2; split_and!; done || lia].
    apply unicode_loop_count in Ed. cbn [snd] in Ed. rewrite length_drop in Ed.
    exists e, (3 + c). split_and!; [do 2 f_equal; lia|lia..|done]. }
  destruct (is_octal next) eqn:Eo; [|eexists _, 2; split_and!; done || lia].
  rewrite !slice_from_ret by lia. cbn [obind]. rewrite drop_drop. replace (i + (0 + 1)) with (i + 1) by lia.
  rewrite (drop_lookup _ _ _ Hn). pose proof (decode_octal_count next (drop (i + 1 + 1) body) Eo) as Hc.
  destruct (decode_octal_escape _) as [v c]. cbn [snd length] in Hc. rewrite length_drop in Hc.
  exists [v], (1 + c). split_and!; [do 2 f_equal; lia|lia..|done].
Qed.

(** The loop decodes the rest of the text behind what it has written. *)
Lemma double_loop_rest q n l : length l <= n ->
  exists r, forall fuel body i out, drop i body = l -> i <= length body -> length l < fuel ->
    unescape_double_loop fuel body q i out = Ret (out ++ r).
Proof.
  revert l. induction n as [n IH] using lt_wf_ind. intros l Hn.
  destruct l as [|x l].
  { exists []. intros fuel body i out Hd Hi Hf. destruct fuel as [|fuel]; [cbn in Hf; lia|]. cbn [unescape_double_loop].
    assert (i = length body) as ->. { apply (f_equal length) in Hd. rewrite length_drop in Hd. cbn in Hd. lia. }
    rewrite Nat.ltb_irrefl. cbn [negb]. by rewrite app_nil_r. }
  cbn [length] in Hn.
  assert (forall body i, drop i body = x :: l -> i <= length body ->
            (i <? length body) = true /\ body !! i = Some x /\ drop (i + 1) body = l /\ length body = i + S (length l)) as Hhead.
  { intros body i Hd Hi. pose proof (f_equal length Hd) as Hl. rewrite length_drop in Hl. cbn in Hl.
    assert (body !! i = Some x) as Ex by (rewrite <- (Nat.add_0_r i), <- lookup_drop, Hd; done).
    split_and!; [apply Nat.ltb_lt; lia|done| |lia]. rewrite (drop_lookup _ _ _ Ex) in Hd. by injection Hd. }
  destruct (x =b x5c) eqn:Ex; [destruct l as [|next l]|].
  - destruct (IH 0 ltac:(lia) [] ltac:(done)) as [r Hr]. exists ([x5c] ++ r). intros fuel body i out Hd Hi Hf.
    destruct fuel as [|fuel]; [lia|]. destruct (Hhead body i Hd Hi) as (H1 & H2 & H3 & H4). cbn [unescape_double_loop].
    rewrite H1. cbn [negb]. rewrite (index_ret _ _ _ H2). cbn [obind]. rewrite Ex. cbn [negb].
    rewrite (lookup_ge_None_2 body (i + 1)) by (cbn in H4; lia). rewrite app_assoc. apply Hr; [done|cbn in *; lia..].
  - set (s := x :: next :: l) in *.
    destruct (double_escape_drop s q 0 next) as (w & j & _ & Hj & Hjl & Hs); [cbn; lia|done|].
    destruct (IH (length (drop j s)) ltac:(rewrite length_drop; cbn in *; lia) (drop j s) ltac:(lia)) as [r Hr].
    exists (w ++ r). intros fuel body i out Hd Hi Hf.
    destruct fuel as [|fuel]; [lia|]. destruct (Hhead body i Hd Hi) as (H1 & H2 & H3 & H4). cbn [unescape_double_loop].
    rewrite H1. cbn [negb]. rewrite (index_ret _ _ _ H2). cbn [obind]. rewrite Ex. cbn [negb].
    assert (body !! (i + 1) = Some next) as En by (rewrite <- (Nat.add_0_r (i + 1)), <- lookup_drop, H3; done).
    rewrite En. destruct (double_escape_drop body q i next) as (w' & j' & E1 & Hj' & Hl' & E2); [cbn in H4; lia|done|].
    rewrite Hd in E2. change (drop 0 s) with s in Hs. rewrite Hs in E2. injection E2 as <- <-.
    rewrite E1. cbn [obind]. rewrite app_assoc. apply Hr.
    + by rewrite <- drop_drop, Hd.
    + lia.
    + rewrite length_drop. cbn in *. lia.
  - destruct (IH (length l) ltac:(lia) l ltac:(lia)) as [r Hr]. exists ([x] ++ r). intros fuel body i out Hd Hi Hf.
    destruct fuel as [|fuel]; [lia|]. destruct (Hhead body i Hd Hi) as (H1 & H2 & H3 & H4). cbn [unescape_double_loop].
    rewrite H1. cbn [negb]. rewrite (index_ret _ _ _ H2). cbn [obind]. rewrite Ex. cbn [negb].
    rewrite app_assoc. apply Hr; [done|lia|cbn in *; lia].
Qed.

(** The decoded text. *)
Definition double_ref (q : bool) (l : bytes) : bytes :=
  match unescape_double_quoted_php_string_with_quote_mode l q with Ret r => r | _ => [] end.

Lemma double_loop_ref q fuel body i out :
  i <= length body -> length body - i < fuel ->
  unescape_double_loop fuel body q i out = Ret (out ++ double_ref q (drop i body)).
Proof.
  intros Hi Hf. destruct (double_loop_rest q (length (drop i body)) (drop i body) ltac:(lia)) as [r Hr].
  rewrite (Hr fuel body i out) by (rewrite ?length_drop; done || lia). unfold double_ref, unescape_double_quoted_php_string_with_quote_mode.
  rewrite (Hr (S (length (drop i body))) (drop i body) 0 []) by (done || cbn; lia). done.
Qed.

Lemma unescape_double_ref q l : unescape_double_quoted_php_string_with_quote_mode l q = Ret (double_ref q l).
Proof. unfold unescape_double_quoted_php_string_with_quote_mode. rewrite double_loop_ref by lia. done. Qed.

Lemma double_ref_nil q : double_ref q [] = [].
Proof. done. Qed.

Lemma double_ref_plain q x l : (x =b x5c) = false -> double_ref q (x :: l) = x :: double_ref q l.
Proof.
  intros Hx. pose proof (unescape_double_ref q (x :: l)) as E.
  unfold unescape_double_quoted_php_string_with_quote_mode in E. remember (length (x :: l)) as k eqn:Ek.
  cbn [unescape_double_loop] in E. change (0 <? length (x :: l)) with true in E.
  change (Prelude.index (x :: l) 0) with (Ret x) in E. cbn [negb obind] in E. rewrite Hx in E. cbn [negb] in E. subst k.
  rewrite double_loop_ref in E by (cbn [length]; lia). injection E as <-. done.
Qed.

Lemma double_ref_escape q next l w j :
  double_escape (x5c :: next :: l) q 0 next = Ret (w, j) ->
  double_ref q (x5c :: next :: l) = w ++ double_ref q (drop j (x5c :: next :: l)).
Proof.
  intros Hd. pose proof (unescape_double_ref q (x5c :: next :: l)) as E.
  destruct (double_escape_drop (x5c :: next :: l) q 0 next) as (w' & j' & E1 & Hj & Hl & _); [cbn; lia|done|].
  cbn [Nat.add] in *. assert (w' = w /\ j' = j) as [-> ->] by (split; congruence).
  unfold unescape_double_quoted_php_string_with_quote_mode in E. remember (length (x5c :: next :: l)) as k eqn:Ek.
  cbn [unescape_double_loop] in E. change (0 <? length (x5c :: next :: l)) with true in E.
  change (Prelude.index (x5c :: next :: l) 0) with (Ret x5c) in E. cbn [negb obind] in E. rewrite beq_refl in E. cbn [negb] in E.
  change ((x5c :: next :: l) !! (0 + 1)) with (Some next) in E. cbv iota in E. rewrite Hd in E. cbn [obind] in E. subst k.
  rewrite double_loop_ref in E by (cbn [length] in *; lia). injection E as <-. done.
Qed.

(** How to write a text between double quotes: with backslashes before the
    characters that have a meaning, or with every byte in hexadecimal. *)
Definition escape_double (l : bytes) : bytes :=
  flat_map (fun x => if (x =b x5c) || (x =b x22) || (x =b "$"%byte) then [x5c; x] else [x]) l.

Lemma double_round l : double_ref true (escape_double l) = l.
Proof.
  induction l as [|x l IH]; [done|]. unfold escape_double in *. cbn [flat_map].
  destruct ((x =b x5c) || (x =b x22) || (x =b "$"%byte)) eqn:E; cbn [app].
  - rewrite (double_ref_escape true x _ [x] 2); [cbn [app]; f_equal; exact IH|].
    rewrite !orb_true_iff, !beq_eq in E. destruct E as [[-> | ->] | ->]; done.
  - rewrite !orb_false_iff in E. rewrite double_ref_plain by apply E. f_equal. exact IH.
Qed.

Definition hex_digit (n : N) : byte := byte_of_N (if (n <? 10)%N then 48 + n else 87 + n).
Definition escape_hex (l : bytes) : bytes :=
  flat_map (fun x => [x5c; "x"%byte; hex_digit (u8 x / 16); hex_digit (u8 x mod 16)]) l.

Lemma hex_value x r : decode_hex_escape (hex_digit (u8 x / 16) :: hex_digit (u8 x mod 16) :: r) = (x, 2).
Proof.
  unfold decode_hex_escape. cbn [take hex_loop].
  assert ((fun x => match hex_nibble (hex_digit (u8 x / 16)), hex_nibble (hex_digit (u8 x mod 16)) with
                    | Some a, Some c => byte_of_N (N.lor (N.shiftl (N.lor (N.shiftl 0 4 mod 256) a) 4 mod 256) c) =b x
                    | _, _ => false end) x = true) as H by (byte_cases x).
  cbv beta in H. destruct (hex_nibble (hex_digit (u8 x / 16))); [|done].
  destruct (hex_nibble (hex_digit (u8 x mod 16))); [|done]. apply beq_eq in H. rewrite take_0. cbn [hex_loop]. by rewrite H.
Qed.

Lemma hex_round l q : double_ref q (escape_hex l) = l.
Proof.
  induction l as [|x l IH]; [done|]. unfold escape_hex in *. cbn [flat_map app].
  rewrite (double_ref_escape q "x"%byte _ [x] 4); [cbn [app]; f_equal; exact IH|].
  unfold double_escape. cbn [simple_escape]. change ("x"%byte =b x22) with false. cbn [orb]. rewrite beq_refl. cbn [orb].
  rewrite slice_from_ret by (cbn; lia). cbn [obind drop Nat.add]. by rewrite hex_value.
Qed.
