(* ===== verification/LiteralScan.v ===== *)
(** * LiteralScan: interpolated strings are scanned to the end

    Every parser of [LiteralText] returns on every text, and what it accepts
    ends within the text.  The parts of an interpolated string are those of a
    left-to-right scan ([scanned]). *)

From Stdlib Require Import Strings.String Strings.Byte NArith ZArith.
From stdpp Require Import base list option numbers.
From S2P Require Import Prelude RustStd RustNum RustText LiteralText LiteralTextProofs.

(** ** Outcomes that return *)

Definition returns {A} (P : A -> Prop) (o : outcome A) : Prop := exists a, o = Ret a /\ P a.

Lemma returns_Ret {A} (P : A -> Prop) a : P a -> returns P (Ret a).
Proof. by exists a. Qed.
Lemma returns_obind {A B} (P : A -> Prop) (Q : B -> Prop) o k :
  returns P o -> (forall a, P a -> returns Q (k a)) -> returns Q (obind o k).
Proof. intros (a & -> & Ha) Hk. by apply Hk. Qed.
Lemma returns_weaken {A} (P Q : A -> Prop) o : returns P o -> (forall a, P a -> Q a) -> returns Q o.
Proof. intros (a & -> & Ha) H. exists a. auto. Qed.

(** The end of an accepted text. *)
Definition ends_in {A} (lo hi : nat) (f : A -> nat) (o : option A) : Prop :=
  match o with Some a => lo < f a <= hi | None => True end.

#[local] Hint Resolve returns_Ret : literal.

(** ** The parsers *)

Lemma name_at_end l start name e : name_at l start = Some (name, e) -> start < e <= length l.
Proof.
  unfold name_at. destruct (l !! start) as [x|] eqn:E; [|done]. apply lookup_lt_Some in E. cbn.
  destruct (is_php_variable_start x); [|done]. cbn. case_match; [|done]. intros [= _ <-].
  unfold skip_while. pose proof (run_len_le is_php_variable_continue (drop (start + 1) l)) as H1.
  rewrite length_drop in H1. lia.
Qed.

Section Dim.
Context (l : bytes) (dim : bytes -> nat -> outcome (option (InterpolatedDim * nat))).
Hypothesis Hdim : forall i, returns (ends_in i (length l) snd) (dim l i).

Lemma dim_chain_returns fuel e tail : e <= length l -> length l - e < fuel ->
  returns (fun r => e <= snd r <= length l) (dim_chain dim fuel l e tail).
Proof.
  revert e tail. induction fuel as [|fuel IH]; intros e tail He Hf; [lia|]. cbn [dim_chain].
  eapply returns_obind; [apply Hdim|]. intros [[d e']|] H; cbn in H.
  - eapply returns_weaken; [apply IH; lia|]. cbn. lia.
  - apply returns_Ret. cbn. lia.
Qed.

Lemma simple_variable_returns start chain :
  returns (ends_in (start + 1) (length l) var_end) (simple_variable dim l start chain).
Proof.
  unfold simple_variable. destruct (name_at l (start + 1)) as [[name i]|] eqn:E; [|by apply returns_Ret].
  apply name_at_end in E. eapply returns_obind; [apply Hdim|]. intros r Hr.
  set (de := match r with Some (d, e) => (Some d, e) | None => (None, i) end).
  assert (i <= snd de <= length l) as Hde by (destruct r as [[d e]|]; cbn in *; lia).
  destruct de as [d e]. cbn in Hde. eapply (returns_obind (fun r => e <= snd r <= length l)).
  - destruct chain; [apply dim_chain_returns; lia|]. apply returns_Ret. cbn. lia.
  - intros [tail e'] He'. cbn in He'. apply returns_Ret. cbn. lia.
Qed.
End Dim.

Lemma position_slice p (l : bytes) start off :
  position p (drop (start + 1) l) = Some off -> start + 1 + off < length l.
Proof. intros H%position_lt. rewrite length_drop in H. lia. Qed.

Lemma dim_returns fuel l start : length l < fuel ->
  returns (ends_in start (length l) snd) (parse_interpolated_dim_fuel fuel l start).
Proof.
  revert l start. induction fuel as [|fuel IH]; intros l start Hf; [lia|]. cbn [parse_interpolated_dim_fuel].
  destruct (opt_is (l !! start) "["%byte) eqn:E; cbn [negb]; [|by apply returns_Ret].
  apply opt_is_Some, lookup_lt_Some in E. rewrite slice_from_ret by lia. cbn [obind].
  destruct (position _ (drop (start + 1) l)) as [off|] eqn:Ep; [|by apply returns_Ret].
  apply position_slice in Ep. rewrite slice_ret by lia. cbn [obind].
  set (inner := drop (start + 1) (take (start + 1 + off) l)).
  assert (length inner = off) as Hl by (unfold inner; rewrite length_drop, length_take; lia).
  destruct (Nat.eqb_spec (length inner) 0); [by apply returns_Ret|].
  destruct (opt_is (head inner) "$"%byte).
  { eapply returns_obind; [apply (simple_variable_returns inner); intros i; apply IH; lia|].
    intros [p|] _; [|by apply returns_Ret]. case_match; apply returns_Ret; cbn; done || lia. }
  destruct (forallb is_ascii_digit inner).
  { apply returns_Ret. case_match; [|done]. destruct (parse_i64 inner); cbn; done || lia. }
  destruct (is_quoted_interpolated_dim inner) eqn:Eq.
  { unfold is_quoted_interpolated_dim in Eq. apply andb_true_iff in Eq as [Eq%Nat.leb_le _].
    unfold usize_sub. rewrite (proj2 (Nat.leb_le _ _)) by lia. cbn [obind]. rewrite slice_ret by lia. cbn [obind].
    apply returns_Ret. case_match; cbn; done || lia. }
  match goal with |- returns _ (if ?b then _ else _) => destruct b end; [|by apply returns_Ret].
  apply returns_Ret. destruct (utf8_valid inner); cbn; done || lia.
Qed.

Lemma parse_dim_returns l start : returns (ends_in start (length l) snd) (parse_interpolated_dim l start).
Proof. apply dim_returns. lia. Qed.

Lemma parse_simple_variable_returns l start chain :
  returns (ends_in (start + 1) (length l) var_end) (parse_simple_interpolated_variable l start chain).
Proof. apply simple_variable_returns. intros i. apply parse_dim_returns. Qed.

Lemma parse_braced_variable_returns l start :
  returns (ends_in start (length l) var_end) (parse_braced_interpolated_variable l start).
Proof.
  unfold parse_braced_interpolated_variable. eapply returns_obind; [apply parse_simple_variable_returns|].
  intros [p|] Hp; [|by apply returns_Ret]. destruct (opt_is (l !! var_end p) _) eqn:E; cbn [negb]; apply returns_Ret; [|done].
  apply opt_is_Some, lookup_lt_Some in E. cbn in *. lia.
Qed.

Lemma parse_method_call_end l start : ends_in start (length l) call_end (parse_braced_interpolated_method_call l start).
Proof.
  unfold parse_braced_interpolated_method_call. case_match; [done|].
  destruct (name_at l (start + 2)) as [[r i]|] eqn:E1; [|done]. apply name_at_end in E1. cbn.
  case_match; [done|]. destruct (name_at l (i + 2)) as [[m k]|] eqn:E2; [|done]. apply name_at_end in E2. cbn.
  case_match eqn:E3; [done|]. rewrite !orb_false_iff, !negb_false_iff in E3. destruct E3 as [_ E3].
  apply opt_is_Some, lookup_lt_Some in E3. cbn. lia.
Qed.

Lemma property_chain_returns fuel l i tail : i <= length l -> length l - i < fuel ->
  returns (fun r => match r with Some p => i <= snd p <= length l | None => True end) (property_chain fuel l i tail).
Proof.
  revert i tail. induction fuel as [|fuel IH]; intros i tail Hi Hf; [lia|]. cbn [property_chain].
  destruct (arrow_at l i); [|apply returns_Ret; cbn; lia].
  destruct (name_at l (i + 2)) as [[name k]|] eqn:E; [|by apply returns_Ret]. apply name_at_end in E.
  eapply returns_weaken; [apply IH; lia|]. intros [[? ?]|]; cbn; lia || done.
Qed.

Lemma parse_simple_property_returns l start chain :
  returns (ends_in start (length l) prop_end) (parse_simple_interpolated_property l start chain).
Proof.
  unfold parse_simple_interpolated_property. case_match; [by apply returns_Ret|].
  destruct (name_at l (start + 1)) as [[r i]|] eqn:E1; [|by apply returns_Ret]. apply name_at_end in E1.
  case_match; [by apply returns_Ret|].
  destruct (name_at l (i + 2)) as [[p k]|] eqn:E2; [|by apply returns_Ret]. apply name_at_end in E2.
  eapply (returns_obind (fun r => match r with Some p => k <= snd p <= length l | None => True end)).
  { destruct chain; [apply property_chain_returns; lia|]. apply returns_Ret. cbn. lia. }
  intros [[tail k']|] Hk; [|by apply returns_Ret]. cbn in Hk. eapply returns_obind; [apply parse_dim_returns|].
  intros [[d e]|] He; cbn in He; apply returns_Ret; cbn; lia.
Qed.

Lemma parse_braced_property_returns l start :
  returns (ends_in start (length l) prop_end) (parse_braced_interpolated_property l start).
Proof.
  unfold parse_braced_interpolated_property. case_match; [by apply returns_Ret|].
  eapply returns_obind; [apply parse_simple_property_returns|]. intros [p|] Hp; [|by apply returns_Ret].
  destruct (opt_is (l !! prop_end p) _) eqn:E; cbn [negb]; apply returns_Ret; [|done].
  apply opt_is_Some, lookup_lt_Some in E. cbn in *. lia.
Qed.

Lemma parse_deprecated_end l start :
  ends_in start (length l) var_end (parse_deprecated_dollar_brace_interpolated_variable l start).
Proof.
  unfold parse_deprecated_dollar_brace_interpolated_variable. case_match; [done|].
  destruct (name_at l (start + 2)) as [[r i]|] eqn:E1; [|done]. apply name_at_end in E1. cbn.
  destruct (opt_is (l !! i) _) eqn:E; cbn; [|done]. apply opt_is_Some, lookup_lt_Some in E. lia.
Qed.

Lemma interpolation_at_returns body i x :
  returns (ends_in i (length body) snd) (interpolation_at body i x).
Proof.
  unfold interpolation_at. set (braced := _ && _). pose proof (parse_method_call_end body i) as H1.
  destruct (if braced then _ else None) as [p|] eqn:E1.
  { destruct braced; [|done]. rewrite E1 in H1. by apply returns_Ret. }
  eapply (returns_obind (ends_in i (length body) prop_end)).
  { destruct braced; [apply parse_braced_property_returns|by apply returns_Ret]. }
  intros [p|] Hp; [by apply returns_Ret|]. eapply (returns_obind (ends_in i (length body) prop_end)).
  { destruct (x =b "$"%byte); [apply parse_simple_property_returns|by apply returns_Ret]. }
  intros [p'|] Hp'; [by apply returns_Ret|]. eapply (returns_obind (ends_in i (length body) var_end)).
  { destruct (x =b "$"%byte).
    - pose proof (parse_deprecated_end body i) as H2. destruct (parse_deprecated_dollar_brace_interpolated_variable body i);
        [by apply returns_Ret|]. eapply returns_weaken; [apply parse_simple_variable_returns|].
      intros [v|]; cbn; lia || done.
    - destruct braced; [apply parse_braced_variable_returns|by apply returns_Ret]. }
  intros [v|] Hv; by apply returns_Ret.
Qed.

(** ** The scan *)

(** [plain body i j]: the scan goes from [i] to [j] without an interpolation; a
    backslash takes the byte behind it along. *)
Inductive plain (body : bytes) : nat -> nat -> Prop :=
| plain_here i : plain body i i
| plain_escape i j : body !! i = Some x5c -> i + 1 < length body -> plain body (i + 2) j -> plain body i j
| plain_last i j : body !! i = Some x5c -> length body = i + 1 -> plain body (i + 1) j -> plain body i j
| plain_byte i j x : body !! i = Some x -> x <> x5c -> interpolation_at body i x = Ret None ->
    plain body (i + 1) j -> plain body i j.

(** [scanned q body i parts]: the text from [i] on is cut into [parts]: the
    decoded text up to the first interpolation, the interpolation, and so on. *)
Inductive scanned (q : bool) (body : bytes) : nat -> list InterpolatedPart -> Prop :=
| scanned_rest i : i <= length body -> plain body i (length body) -> scanned q body i [PartBytes (double_ref q (drop i body))]
| scanned_part i j x part e parts :
    plain body i j -> body !! j = Some x -> x <> x5c -> interpolation_at body j x = Ret (Some (part, e)) ->
    i <= j < e -> e <= length body -> scanned q body e parts ->
    scanned q body i (PartBytes (double_ref q (drop i (take j body))) :: part :: parts).

Lemma plain_trans body i j k : plain body i j -> plain body j k -> plain body i k.
Proof. induction 1; eauto using plain. Qed.

(** The last chunk is added behind the loop. *)
Lemma interpolate_loop_scanned q body fuel parts start i :
  start <= i <= length body -> length body - i < fuel -> plain body start i ->
  exists parts' start', interpolate_loop fuel body q parts start i = Ret (parts ++ parts', start') /\ start' <= length body /\
    scanned q body start (parts' ++ [PartBytes (double_ref q (drop start' body))]).
Proof.
  revert parts start i. induction fuel as [|fuel IH]; intros parts start i Hi Hf Hp; [lia|]. cbn [interpolate_loop].
  destruct (Nat.ltb_spec i (length body)) as [Hlt|Hlt]; cbn [negb].
  2: { exists [], start. replace i with (length body) in * by lia. split_and!; [by rewrite app_nil_r|lia|apply scanned_rest; [lia|done]]. }
  destruct (lookup_lt_is_Some_2 body i Hlt) as [x Ex]. rewrite (index_ret _ _ _ Ex). cbn [obind].
  destruct (x =b x5c) eqn:E5.
  { apply beq_eq in E5 as ->. destruct (Nat.ltb_spec (i + 1) (length body)); apply IH; try lia.
    - eapply plain_trans; [done|]. apply plain_escape; [done|lia|]. constructor.
    - eapply plain_trans; [done|]. apply plain_last; [done|lia|]. constructor. }
  apply beq_neq in E5. destruct (interpolation_at_returns body i x) as (r & Er & Hr). rewrite Er. cbn [obind].
  destruct r as [[part e]|]; cbn in Hr.
  - rewrite slice_ret by lia. cbn [obind]. rewrite unescape_double_ref. cbn [obind].
    destruct (IH (parts ++ [PartBytes (double_ref q (drop start (take i body))); part]) e e) as (parts' & s' & E & Hs & Hsc);
      [lia..|constructor|].
    exists (PartBytes (double_ref q (drop start (take i body))) :: part :: parts'), s'.
    split_and!; [by rewrite E, <- app_assoc|done|]. cbn [app]. eapply scanned_part; eauto; lia.
  - apply IH; [lia..|]. eapply plain_trans; [done|]. eapply plain_byte; eauto. constructor.
Qed.

(** What the parser returns for the parts of a scan: nothing when there is no
    interpolation. *)
Definition some_parts (parts : list InterpolatedPart) : option (list InterpolatedPart) :=
  match parts with [_] => None | _ => Some parts end.

Lemma interpolated_body_scanned q body :
  exists parts, scanned q body 0 parts /\ parse_interpolated_double_quoted_body body q = Ret (some_parts parts).
Proof.
  destruct (interpolate_loop_scanned q body (S (length body)) [] 0 0) as (parts & s & E & Hs & Hsc);
    [lia..|constructor|].
  exists (parts ++ [PartBytes (double_ref q (drop s body))]). split; [done|].
  unfold parse_interpolated_double_quoted_body. rewrite E. cbn [obind app].
  destruct parts as [|a parts]; [done|]. cbn [length Nat.eqb]. rewrite slice_from_ret by done. cbn [obind].
  rewrite unescape_double_ref. cbn [obind app some_parts]. by destruct parts.
Qed.

(** ** Heredocs *)

Lemma strip_indent_returns fuel body indent i out : length body - i < fuel ->
  exists r, strip_indent_loop fuel body indent i out = Ret r.
Proof.
  revert i out. induction fuel as [|fuel IH]; intros i out Hf; [lia|]. cbn [strip_indent_loop].
  destruct (Nat.ltb_spec i (length body)); cbn [negb]; [|eauto]. rewrite slice_from_ret by lia. cbn [obind].
  set (e := match position _ _ with Some _ => _ | None => _ end).
  assert (i < e <= length body) as He.
  { unfold e. destruct (position _ _) as [off|] eqn:E; [|lia]. apply position_lt in E. rewrite length_drop in E. lia. }
  rewrite slice_ret by lia. cbn [obind]. unfold starts_with. destruct (strip_prefix indent _) as [r|] eqn:E.
  - apply strip_prefix_Some in E. rewrite slice_from_ret by (rewrite E, length_app; lia). cbn [obind]. apply IH. lia.
  - cbn [obind]. apply IH. lia.
Qed.

Lemma heredoc_info_returns text : exists r, heredoc_body_info text = Ret r.
Proof.
  unfold heredoc_body_info. destruct (starts_with _ text); cbn [negb]; [|eauto].
  destruct (position _ text) as [nl|] eqn:E; [|eauto]. apply position_lt in E. rewrite slice_ret by lia. cbn [obind].
  case_match; [eauto|]. destruct (strip_prefix _ _); [|eauto]. case_match; [eauto|].
  rewrite slice_from_ret by lia. cbn [obind].
  set (e := match rposition _ _ with Some _ => _ | None => _ end).
  assert (nl + 1 <= e <= length text) as He.
  { unfold e. destruct (rposition _ _) as [off|] eqn:E'; [|lia]. apply rposition_lt in E'. rewrite length_drop in E'. lia. }
  case_match; [eauto|]. rewrite slice_from_ret by lia. cbn [obind].
  pose proof (run_len_le (fun x => (x =b x20) || (x =b x09)) (drop e text)) as Hr. rewrite length_drop in Hr.
  rewrite slice_ret by lia. cbn [obind]. set (be := e - _).
  assert (nl + 1 <= be <= length text) as Hbe by (unfold be; destruct (Nat.ltb_spec (nl + 1) e); lia).
  rewrite slice_ret by (destruct (Nat.ltb_spec (nl + 1) be); cbn [andb]; try case_match; lia). cbn [obind].
  unfold strip_heredoc_body_indentation. case_match; cbn [obind]; [eauto|].
  match goal with |- context [strip_indent_loop ?f ?b ?n ?i ?o] =>
    destruct (strip_indent_returns f b n i o) as [r ->]; [lia|] end. cbn [obind]. eauto.
Qed.

Lemma quoted_returns text : exists r, quoted_literal_body text = Ret r.
Proof.
  unfold quoted_literal_body. match goal with |- context [text !! ?n] => generalize n end. intros k.
  destruct (text !! k) as [quote|] eqn:E; [|eauto].
  destruct (Nat.ltb_spec (length text) (k + 2)); cbn [orb]; [eauto|]. case_match; [eauto|].
  unfold usize_sub. rewrite (proj2 (Nat.leb_le 1 (length text))) by lia. cbn [obind]. rewrite slice_ret by lia. cbn [obind].
  destruct (quote =b x27); [rewrite unescape_single_ref|unfold unescape_double_quoted_php_string; rewrite unescape_double_ref];
    cbn [obind]; eauto.
Qed.

Lemma heredoc_returns text : exists r, heredoc_literal_body text = Ret r.
Proof.
  destruct (heredoc_info_returns text) as [h Hh]. unfold heredoc_literal_body. rewrite Hh. cbn [obind].
  destruct h as [h|]; [|eauto]. case_match; [eauto|].
  unfold unescape_heredoc_php_string. rewrite unescape_double_ref. cbn [obind]. eauto.
Qed.

(** C25: literal totality: the contents of a quoted literal and of a heredoc are
    computed for every text, without running out of range.  The parts of an
    interpolated literal are computed too, except when the trimmed text is one
    double quote, where the slice [1..0] panics; the quoted literal next to it
    tests the length. *)
Theorem literals_return text :
  (exists r, quoted_literal_body text = Ret r) /\ (exists r, heredoc_literal_body text = Ret r) /\
  (trim text <> [x22] -> exists r, interpolated_literal_parts text = Ret r) /\
  (trim text = [x22] -> interpolated_literal_parts text = Panic).
Proof.
  split_and!; [apply quoted_returns|apply heredoc_returns| |].
  - intros Ht. unfold interpolated_literal_parts. destruct (opt_is (head (trim text)) x22 && _) eqn:E.
    + apply andb_true_iff in E as [E _]. destruct (trim text) as [|x [|y r]]; [done| |].
      { apply opt_is_Some in E. injection E as ->. done. }
      cbn [usize_sub length Nat.leb obind]. rewrite slice_ret by (cbn; lia). cbn [obind].
      destruct (interpolated_body_scanned true (drop 1 (take (S (S (length r)) - 1) (x :: y :: r)))) as (parts & _ & ->). eauto.
    + destruct (heredoc_info_returns (trim text)) as [h' ->]. cbn [obind]. destruct h' as [h'|]; [|eauto]. case_match; [eauto|].
      destruct (interpolated_body_scanned false (heredoc_body h')) as (parts & _ & ->). eauto.
  - intros Ht. unfold interpolated_literal_parts. rewrite Ht. done.
Qed.
