(* ===== verification/LiteralClaims.v ===== *)
(** * LiteralClaims: the contents of literals, and printed literals read back *)

From Stdlib Require Import Strings.String Strings.Byte NArith ZArith.
From stdpp Require Import base list option numbers.
From S2P Require Import Prelude RustStd RustNum RustText LiteralText LiteralTextProofs LiteralScan.

(** ** Quoted literals *)

Lemma quoted_body q body : is_quote q = true ->
  quoted_literal_body (q :: body ++ [q]) =
  Ret (Some (if q =b x27 then single_ref body else double_ref true body)).
Proof.
  intros Hq. unfold quoted_literal_body.
  assert (((q =b "b"%byte) || (q =b "B"%byte)) = false) as Hb 
    by (unfold is_quote in Hq; rewrite orb_true_iff, !beq_eq in Hq; by destruct Hq as [-> | ->]).
  assert (list.last (q :: body ++ [q]) = Some q) as Hl by (rewrite app_comm_cons; apply last_snoc).
  replace (match q :: body ++ [q] with
           | x :: y :: _ => if ((x =b "b"%byte) || (x =b "B"%byte)) && is_quote y then 1 else 0
           | _ => 0 end) with 0 by (destruct body; cbn [app]; by rewrite Hb).
  cbn [lookup list_lookup]. rewrite Hl. cbn [opt_is]. rewrite beq_refl, Hq.
  rewrite (proj2 (Nat.ltb_ge _ _)) by (cbn [length]; rewrite length_app; cbn; lia). cbn [orb negb].
  unfold usize_sub. cbn [length]. rewrite length_app. cbn [length Nat.leb obind].
  rewrite slice_ret by (cbn [length]; rewrite ?length_app; cbn [length]; lia). cbn [obind].
  replace (drop (0 + 1) (take (S (length body + 1) - 1) (q :: body ++ [q]))) with body.
  2: { replace (S (length body + 1) - 1) with (S (length body)) by lia. cbn. by rewrite drop_0, take_app_length. }
  unfold unescape_double_quoted_php_string. rewrite unescape_single_ref, unescape_double_ref. by destruct (q =b x27).
Qed.

(** C24: quoting round trip: every byte string can be written as a literal whose
    contents are that string: between single quotes with backslashes before
    quotes and backslashes, between double quotes with backslashes before
    backslashes, quotes and dollars, and with hexadecimal escapes for every byte. *)
Theorem quoted_round_trip l :
  quoted_literal_body (x27 :: escape_single l ++ [x27]) = Ret (Some l) /\
  quoted_literal_body (x22 :: escape_double l ++ [x22]) = Ret (Some l) /\
  quoted_literal_body (x22 :: escape_hex l ++ [x22]) = Ret (Some l).
Proof. rewrite !quoted_body by done. change (x27 =b x27) with true. change (x22 =b x27) with false. cbv iota.
  by rewrite single_round, double_round, hex_round. Qed.

(** ** The scan is a function *)

Lemma plain_linear body i j k : plain body i j -> plain body i k -> plain body j k \/ plain body k j.
Proof.
  intros H. revert k. induction H as [i|i j E L H IH|i j E L H IH|i j x E Hx Hn H IH]; intros k Hk; [by left|..].
  all: inversion Hk; subst; [right; eauto using plain|..]; simplify_eq; first [lia|by apply IH].
Qed.

Lemma plain_stop body i j x p : plain body i j -> body !! i = Some x -> x <> x5c ->
  interpolation_at body i x = Ret (Some p) -> i = j.
Proof. intros H Ex Hx Hp. inversion H; subst; simplify_eq; done || congruence. Qed.

Lemma plain_end body j : plain body (length body) j -> j = length body.
Proof.
  intros H. inversion H; subst; [done|..];
    match goal with E : body !! length body = Some _ |- _ => apply lookup_lt_Some in E; lia end.
Qed.

(** Two stops of the scan from the same place are the same; none comes after the end. *)
Lemma plain_stops body i j k x y p r : plain body i j -> plain body i k ->
  body !! j = Some x -> x <> x5c -> interpolation_at body j x = Ret (Some p) ->
  body !! k = Some y -> y <> x5c -> interpolation_at body k y = Ret (Some r) -> j = k.
Proof.
  intros H1 H2 Ex Hx Hp Ey Hy Hr. destruct (plain_linear _ _ _ _ H1 H2) as [H|H].
  - by eapply plain_stop.
  - symmetry. by eapply plain_stop.
Qed.

Lemma plain_no_stop body i j x p : plain body i (length body) -> plain body i j ->
  body !! j = Some x -> x <> x5c -> interpolation_at body j x = Ret (Some p) -> False.
Proof.
  intros H1 H2 Ex Hx Hp. pose proof (lookup_lt_Some _ _ _ Ex) as Hlt.
  destruct (plain_linear _ _ _ _ H1 H2) as [H|H]; [apply plain_end in H; lia|].
  enough (j = length body) by lia. by eapply plain_stop.
Qed.

Lemma scanned_functional q body i p1 p2 : scanned q body i p1 -> scanned q body i p2 -> p1 = p2.
Proof.
  intros H. revert p2. induction H as [i Hi Hp|i j x part e parts Hp Ex Hx Ei Hj He Hs IH];
    intros p2 H2; inversion H2 as [k Hk Hp' Ek|k m y part' e' parts' Hp' Ey Hy Ei' Hm He' Hs' Ek]; subst.
  - done.
  - exfalso. by eapply (plain_no_stop body i m).
  - exfalso. by eapply (plain_no_stop body i j).
  - assert (j = m) as <- by exact (plain_stops _ _ _ _ _ _ _ _ Hp Hp' Ex Hx Ei Ey Hy Ei').
    simplify_eq. rewrite Ei in Ei'. injection Ei' as <- <-. by rewrite (IH _ Hs').
Qed.

(** ** Printed interpolations read back *)

Definition name_ok (name : bytes) : bool :=
  match name with x :: r => is_php_variable_start x && forallb is_php_variable_continue r | [] => false end
  && utf8_valid name.

(** The text after a name does not continue it. *)
Definition stops (t : bytes) : bool := match t with x :: _ => negb (is_php_variable_continue x) | [] => true end.

Definition print_dim_inner (d : InterpolatedDim) : bytes :=
  match d with
  | DimVariable name => "$"%byte :: name
  | DimInt z => print_i64 z
  | DimString s => x27 :: s ++ [x27]
  end.
Definition print_dim (d : InterpolatedDim) : bytes := "["%byte :: print_dim_inner d ++ ["]"%byte].
Definition dim_ok (d : InterpolatedDim) : bool :=
  match d with
  | DimVariable name => name_ok name
  | DimInt z => in_i64 z && (0 <=? z)%Z
  | DimString s => utf8_valid s && forallb (fun x => negb ("]"%byte =b x)) s
  end.

(** Reading at an index where the text is known. *)
Lemma at_cons {A} (l : list A) i x t : drop i l = x :: t -> l !! i = Some x /\ drop (i + 1) l = t.
Proof.
  intros H. assert (l !! i = Some x) as E by (rewrite <- (Nat.add_0_r i), <- lookup_drop, H; done).
  split; [done|]. rewrite (drop_lookup _ _ _ E) in H. by injection H.
Qed.
Lemma at_app {A} (l : list A) i s t : drop i l = s ++ t -> drop (i + length s) l = t.
Proof. intros H. by rewrite <- drop_drop, H, drop_app_length. Qed.
Lemma at_take {A} (l : list A) i s t : drop i l = s ++ t -> drop i (take (i + length s) l) = s.
Proof. intros H. rewrite <- take_drop_commute. by rewrite H, take_app_length. Qed.
Lemma at_le {A} (l : list A) i x t : drop i l = x :: t -> i + S (length t) = length l.
Proof.
  intros H. pose proof (f_equal (@length A) H) as E. rewrite length_drop in E. cbn in E. lia.
Qed.

Lemma run_len_ok (p : byte -> bool) (s t : bytes) : forallb p s = true -> match t with x :: _ => p x = false | [] => True end ->
  run_len p (s ++ t) = length s.
Proof.
  intros Hs Ht. induction s as [|x s IH]; cbn in *.
  - destruct t; cbn; [done|]. by rewrite Ht.
  - apply andb_true_iff in Hs as [-> Hs]. by rewrite IH.
Qed.

Lemma name_at_ok l i name t : name_ok name = true -> stops t = true -> drop i l = name ++ t ->
  name_at l i = Some (name, i + length name) /\ drop (i + length name) l = t.
Proof.
  unfold name_ok. intros [Hn Hu]%andb_true_iff Ht H. split; [|by apply at_app in H].
  destruct name as [|x r]; [done|]. apply andb_true_iff in Hn as [Hx Hr]. pose proof (at_take _ _ _ _ H) as Hk.
  cbn [app] in H. destruct (at_cons _ _ _ _ H) as [Ex Hd]. unfold name_at. rewrite Ex. cbn [mbind option_bind].
  rewrite Hx. cbn [negb]. unfold skip_while. rewrite Hd.
  rewrite run_len_ok by (done || (destruct t; [done|]; cbn in Ht; by apply negb_true_iff)).
  replace (i + 1 + length r) with (i + length (x :: r)) by (cbn; lia). rewrite Hk, Hu. done.
Qed.

Lemma dim_none l i x t : drop i l = x :: t -> (x =b "["%byte) = false -> parse_interpolated_dim l i = Ret None.
Proof.
  intros H Hx. destruct (at_cons _ _ _ _ H) as [E _]. unfold parse_interpolated_dim. cbn [parse_interpolated_dim_fuel].
  rewrite E. cbn [opt_is]. by rewrite Hx.
Qed.

Lemma no_bracket_inner d : dim_ok d = true -> forallb (fun x => negb ("]"%byte =b x)) (print_dim_inner d) = true.
Proof.
  assert (forall P s, (forall x, P x = true -> negb ("]"%byte =b x) = true) -> forallb P s = true ->
            forallb (fun x => negb ("]"%byte =b x)) s = true) as Hmono.
  { intros P s HP. induction s as [|x s IH]; [done|]. cbn [forallb]. intros [Hx Hs]%andb_true_iff. by rewrite (HP x Hx), IH. }
  assert (forall x, is_php_variable_continue x = true -> negb ("]"%byte =b x) = true) as Hc by (intros []; done).
  assert (forall x, is_php_variable_start x = true -> negb ("]"%byte =b x) = true) as Hs by (intros []; done).
  assert (forall x, is_ascii_digit x = true -> negb ("]"%byte =b x) = true) as Hd by (intros []; done).
  destruct d as [name|z|s]; cbn [dim_ok print_dim_inner].
  - unfold name_ok. intros [Hn _]%andb_true_iff. destruct name as [|x r]; [done|].
    apply andb_true_iff in Hn as [Hx Hr]. cbn [forallb]. rewrite (Hs x Hx), (Hmono _ _ Hc Hr). done.
  - intros [Hz Hpos%Z.leb_le]%andb_true_iff. destruct (print_i64_cases z Hz) as [(_ & [Hdig _] & _)|[? _]]; [|lia].
    by apply (Hmono is_ascii_digit).
  - intros [_ H]%andb_true_iff. cbn [forallb]. rewrite forallb_app, H. done.
Qed.

Lemma first_bracket (s t : bytes) : forallb (fun x => negb ("]"%byte =b x)) s = true ->
  position (Byte.eqb "]"%byte) (s ++ "]"%byte :: t) = Some (length s).
Proof.
  intros H. induction s as [|x s IH]; [done|]. cbn [forallb] in H. apply andb_true_iff in H as [Hx Hs].
  apply negb_true_iff in Hx. cbn [app position length]. rewrite Hx. by rewrite IH.
Qed.

Lemma dim_inner_nonempty d : dim_ok d = true -> print_dim_inner d <> [].
Proof.
  destruct d; cbn; [done| |done]. intros [Hz Hpos%Z.leb_le]%andb_true_iff.
  destruct (print_i64_cases z Hz) as [(_ & (_ & H & _) & _)|[? _]]; [done|lia].
Qed.

Lemma digits_ascii s : forallb is_ascii_digit s = true -> utf8_valid s = true.
Proof.
  intros H. apply utf8_ascii. induction s as [|x s IH]; [done|]. cbn [forallb] in *.
  apply andb_true_iff in H as [Hx Hs]. rewrite IH by done. by destruct x.
Qed.

(** The dimension between the brackets. *)
Lemma variable_inner fuel name : name_ok name = true ->
  simple_variable (parse_interpolated_dim_fuel (S fuel)) ("$"%byte :: name) 0 false =
  Ret (Some (mk_variable name None [] (S (length name)) false)).
Proof.
  intros Hn. unfold simple_variable. set (l := "$"%byte :: name).
  destruct (name_at_ok l 1 name [] Hn eq_refl) as [E He]; [unfold l; cbn [drop]; by rewrite app_nil_r, drop_0|].
  cbn [Nat.add] in *. rewrite E. cbn [obind parse_interpolated_dim_fuel].
  replace (l !! S (length name)) with (@None byte) by (symmetry; apply lookup_ge_None; unfold l; cbn; lia). done.
Qed.

Lemma dim_inner_parsed l i d t fuel : dim_ok d = true -> drop i l = print_dim d ++ t -> length l < fuel ->
  parse_interpolated_dim_fuel fuel l i = Ret (Some (d, i + length (print_dim d))).
Proof.
  intros Hd H Hf. destruct fuel as [|fuel]; [lia|]. unfold print_dim in H. cbn [app] in H.
  rewrite <- app_assoc in H. cbn [app] in H. destruct (at_cons _ _ _ _ H) as [E H1].
  pose proof (at_le _ _ _ _ H) as Hle. rewrite length_app in Hle. cbn [length] in Hle.
  cbn [parse_interpolated_dim_fuel]. rewrite E. cbn [opt_is]. rewrite beq_refl. cbn [negb].
  rewrite slice_from_ret by lia. cbn [obind]. rewrite H1, first_bracket by by apply no_bracket_inner.
  rewrite slice_ret by lia. cbn [obind]. rewrite (at_take _ _ _ _ H1).
  replace (i + length (print_dim d)) with (i + 1 + length (print_dim_inner d) + 1)
    by (unfold print_dim; cbn [length]; rewrite length_app; cbn [length]; lia).
  pose proof (dim_inner_nonempty d Hd) as Hne.
  destruct (Nat.eqb_spec (length (print_dim_inner d)) 0) as [Hz|_]; [by apply length_zero_iff_nil in Hz|].
  destruct d as [name|z|s]; cbn [dim_ok print_dim_inner] in *.
  - cbn [head opt_is]. rewrite beq_refl. destruct fuel as [|fuel]; [lia|]. rewrite variable_inner by done.
    cbn [obind var_end var_dim var_name length]. by rewrite Nat.eqb_refl, bool_decide_eq_true_2.
  - apply andb_true_iff in Hd as [Hi Hpos%Z.leb_le].
    destruct (print_i64_cases z Hi) as [(_ & (Hdig & _ & _) & _)|[? _]]; [|lia].
    assert (opt_is (head (print_i64 z)) "$"%byte = false) as ->.
    { destruct (print_i64 z) as [|x r]; [done|]. cbn in Hdig |- *. apply andb_true_iff in Hdig as [Hx _]. by destruct x. }
    by rewrite Hdig, digits_ascii, parse_print_i64.
  - apply andb_true_iff in Hd as [Hu _]. unfold is_quoted_interpolated_dim.
    cbn [head opt_is]. change (x27 =b "$"%byte) with false. cbn [forallb]. change (is_ascii_digit x27) with false. cbn [andb].
    rewrite app_comm_cons, last_snoc. cbn [opt_is]. rewrite beq_refl.
    rewrite (proj2 (Nat.leb_le _ _)) by (rewrite length_app; cbn; lia). cbn [andb orb].
    unfold usize_sub. rewrite (proj2 (Nat.leb_le 1 _)) by (rewrite length_app; cbn; lia). cbn [obind].
    rewrite slice_ret by (rewrite length_app; cbn; lia). cbn [obind].
    replace (drop 1 (take (length ((x27 :: s) ++ [x27]) - 1) ((x27 :: s) ++ [x27]))) with s.
    { by rewrite Hu. }
    rewrite length_app. cbn [length]. replace (S (length s) + 1 - 1) with (length (x27 :: s)) by (cbn; lia).
    by rewrite take_app_length.
Qed.

Lemma dim_at l i d t : dim_ok d = true -> drop i l = print_dim d ++ t ->
  parse_interpolated_dim l i = Ret (Some (d, i + length (print_dim d))).
Proof. intros Hd H. eapply dim_inner_parsed; [done|done|lia]. Qed.

Lemma dim_chain_at l i ds t tail fuel : forallb dim_ok ds = true ->
  drop i l = flat_map print_dim ds ++ "}"%byte :: t -> length ds < fuel ->
  dim_chain parse_interpolated_dim fuel l i tail = Ret (tail ++ ds, i + length (flat_map print_dim ds)).
Proof.
  revert i tail fuel. induction ds as [|d ds IH]; intros i tail fuel Hok H Hf; (destruct fuel as [|fuel]; [cbn in Hf; lia|]).
  - cbn [dim_chain]. rewrite (dim_none l i "}"%byte t H eq_refl). cbn. by rewrite app_nil_r, Nat.add_0_r.
  - cbn [forallb flat_map length] in *. apply andb_true_iff in Hok as [Hd Hok]. rewrite <- app_assoc in H.
    cbn [dim_chain]. rewrite (dim_at _ _ _ _ Hd H). cbn [obind]. apply at_app in H. rewrite IH by (done || lia).
    rewrite length_app, <- app_assoc. cbn [app]. do 2 f_equal. lia.
Qed.

(** ** Parts *)

Definition arrow_name (name : bytes) : bytes := "-"%byte :: ">"%byte :: name.
Definition opt_list {A} (o : option A) : list A := match o with Some a => [a] | None => [] end.

(** A part in braces. *)
Definition print_inner (p : InterpolatedPart) : bytes :=
  match p with
  | PartBytes _ => []
  | PartVariable name d tail _ => name ++ flat_map print_dim (opt_list d ++ tail)
  | PartMethodCall r m => r ++ arrow_name m ++ lit "()"
  | PartProperty r p tail d => r ++ flat_map arrow_name (p :: tail) ++ flat_map print_dim (opt_list d)
  end.
Definition print_part (p : InterpolatedPart) : bytes := "{"%byte :: "$"%byte :: print_inner p ++ ["}"%byte].

Definition part_ok (p : InterpolatedPart) : bool :=
  match p with
  | PartBytes _ => false
  | PartVariable name d tail deprecated =>
      name_ok name && forallb dim_ok (opt_list d ++ tail) && negb deprecated &&
      (match d with None => (length tail =? 0)%nat | Some _ => true end)
  | PartMethodCall r m => name_ok r && name_ok m
  | PartProperty r p tail d => name_ok r && forallb name_ok (p :: tail) && forallb dim_ok (opt_list d)
  end.

Lemma arrow_at_cons l i x t : drop i l = x :: t -> (x =b "-"%byte) = false -> arrow_at l i = false.
Proof. intros H Hx. destruct (at_cons _ _ _ _ H) as [E _]. unfold arrow_at. rewrite E. cbn [opt_is]. by rewrite Hx. Qed.
Lemma arrow_at_name l i name t : drop i l = arrow_name name ++ t -> arrow_at l i = true /\ drop (i + 2) l = name ++ t.
Proof.
  intros H. cbn [arrow_name app] in H. destruct (at_cons _ _ _ _ H) as [E1 H1]. destruct (at_cons _ _ _ _ H1) as [E2 H2].
  unfold arrow_at. rewrite E1, E2. cbn [opt_is]. rewrite !beq_refl. split; [done|]. by replace (i + 2) with (i + 1 + 1) by lia.
Qed.

(** What follows a printed dimension list, and a printed name list. *)
Lemma dims_head ds t : exists x r, flat_map print_dim ds ++ "}"%byte :: t = x :: r /\
  stops (x :: r) = true /\ (x =b "-"%byte) = false /\ (x =b "("%byte) = false.
Proof. destruct ds as [|d ds]; cbn; eauto 10. Qed.
Lemma arrows_head names t : stops t = true -> stops (flat_map arrow_name names ++ t) = true.
Proof. by destruct names. Qed.

Lemma property_chain_at fuel l i names t tail x r : forallb name_ok names = true ->
  drop i l = flat_map arrow_name names ++ t -> t = x :: r -> stops t = true -> (x =b "-"%byte) = false -> length names < fuel ->
  property_chain fuel l i tail = Ret (Some (tail ++ names, i + length (flat_map arrow_name names))).
Proof.
  intros Hok H Ht Hs Hx. revert i tail fuel Hok H.
  induction names as [|n names IH]; intros i tail fuel Hok H Hf; (destruct fuel as [|fuel]; [cbn in Hf; lia|]); cbn [property_chain].
  - cbn in H. subst t. rewrite (arrow_at_cons _ _ _ _ H Hx). by rewrite app_nil_r, Nat.add_0_r.
  - cbn [forallb flat_map length] in *. apply andb_true_iff in Hok as [Hn Hok]. rewrite <- app_assoc in H.
    destruct (arrow_at_name _ _ _ _ H) as [-> H2].
    destruct (name_at_ok _ _ _ _ Hn (arrows_head names t Hs) H2) as [-> H3].
    rewrite IH by (done || lia). rewrite <- app_assoc, length_app. cbn [app arrow_name length]. do 3 f_equal. lia.
Qed.

Lemma flat_map_length {A B} (f : A -> list B) l : (forall a, f a <> []) -> length l <= length (flat_map f l).
Proof.
  intros Hf. induction l as [|a l IH]; cbn; [lia|]. rewrite length_app. specialize (Hf a). destruct (f a); cbn; done || lia.
Qed.

Lemma print_part_at l i p t : drop i l = print_part p ++ t ->
  l !! i = Some "{"%byte /\ l !! (i + 1) = Some "$"%byte /\ drop (i + 2) l = print_inner p ++ "}"%byte :: t /\
  i + 2 + length (print_inner p) < length l.
Proof.
  intros H. unfold print_part in H. cbn [app] in H. rewrite <- app_assoc in H. cbn [app] in H.
  destruct (at_cons _ _ _ _ H) as [E0 H0]. destruct (at_cons _ _ _ _ H0) as [E1 H1].
  apply at_le in H. cbn [length] in H. rewrite length_app in H. cbn [length] in H.
  split_and!; [done..|by replace (i + 2) with (i + 1 + 1) by lia|lia].
Qed.
Lemma print_part_length p : length (print_part p) = length (print_inner p) + 3.
Proof. unfold print_part. cbn [length]. rewrite length_app. cbn. lia. Qed.

Lemma part_close l i p t : drop (i + 2) l = print_inner p ++ "}"%byte :: t ->
  l !! (i + 2 + length (print_inner p)) = Some "}"%byte.
Proof. intros H%at_app. by apply at_cons in H as [E _]. Qed.

Section Part.
Context (l : bytes) (i : nat) (t : bytes).

(** The attempts that fail before the one that accepts. *)
Lemma no_call_no_property name x r :
  l !! i = Some "{"%byte -> l !! (i + 1) = Some "$"%byte ->
  name_at l (i + 2) = Some (name, i + 2 + length name) ->
  drop (i + 2 + length name) l = x :: r -> (x =b "-"%byte) = false ->
  interpolation_at l i "{"%byte =
    olet p := parse_braced_interpolated_variable l i in Ret (part_of_variable <$> p).
Proof.
  intros E0 E1 En H2 Hx. pose proof (arrow_at_cons _ _ _ _ H2 Hx) as Ha.
  unfold interpolation_at. rewrite E1. cbn [opt_is]. rewrite !beq_refl. cbn [andb].
  unfold parse_braced_interpolated_method_call, parse_braced_interpolated_property, parse_simple_interpolated_property.
  rewrite E0, E1. cbn [opt_is]. rewrite !beq_refl. cbn [negb orb]. rewrite En. cbn [mbind option_bind].
  replace (i + 1 + 1) with (i + 2) by lia. rewrite En, Ha. done.
Qed.

Lemma variable_part name d tail (p := PartVariable name d tail false) : part_ok p = true ->
  drop i l = print_part p ++ t -> interpolation_at l i "{"%byte = Ret (Some (p, i + length (print_part p))).
Proof.
  unfold p. cbn [part_ok]. rewrite !andb_true_iff. intros (((Hn & Hds) & _) & Hd) H.
  destruct (print_part_at _ _ _ _ H) as (E0 & E1 & H1 & Hlen). pose proof (part_close _ _ _ _ H1) as Ec.
  rewrite print_part_length. cbn [print_inner] in *. rewrite <- app_assoc in H1.
  destruct (dims_head (opt_list d ++ tail) t) as (x & r & Ex & Hs & Hx1 & Hx2).
  destruct (name_at_ok l (i + 2) name _ Hn (eq_trans (f_equal stops Ex) Hs) H1) as [En H2].
  pose proof H2 as H2'. rewrite Ex in H2'. rewrite (no_call_no_property name x r E0 E1 En H2' Hx1).
  unfold parse_braced_interpolated_variable, parse_simple_interpolated_variable, simple_variable.
  replace (i + 1 + 1) with (i + 2) by lia. rewrite En. rewrite length_app in *.
  assert (length (opt_list d ++ tail) <= length (flat_map print_dim (opt_list d ++ tail))) as Hfl by by apply flat_map_length.
  rewrite length_app in Hfl. rewrite Nat.add_assoc in Ec. destruct d as [d|]; cbn [opt_list app flat_map forallb] in *.
  - apply andb_true_iff in Hds as [Hd1 Hds]. rewrite <- app_assoc in H2. rewrite (dim_at _ _ _ _ Hd1 H2). cbn [obind].
    apply at_app in H2. rewrite length_app in *. cbn [length] in *.
    rewrite (dim_chain_at _ _ tail t) by (done || lia). cbn [obind app var_end].
    rewrite Nat.add_assoc in Ec. rewrite Ec. cbn [opt_is]. rewrite beq_refl. cbn. unfold part_of_variable. cbn. do 3 f_equal. lia.
  - destruct tail; [|done]. rewrite (dim_none _ _ _ _ H2 eq_refl). cbn [obind flat_map length] in *.
    rewrite (dim_chain_at _ _ [] t) by (done || cbn; lia). cbn [obind app var_end flat_map length].
    rewrite Ec. cbn [opt_is]. rewrite beq_refl. cbn. unfold part_of_variable. cbn. do 3 f_equal. lia.
Qed.

Lemma call_part r m (p := PartMethodCall r m) : part_ok p = true ->
  drop i l = print_part p ++ t -> interpolation_at l i "{"%byte = Ret (Some (p, i + length (print_part p))).
Proof.
  unfold p. cbn [part_ok]. rewrite !andb_true_iff. intros (Hr & Hm) H.
  destruct (print_part_at _ _ _ _ H) as (E0 & E1 & H1 & _). rewrite print_part_length. cbn [print_inner] in *.
  rewrite <- !app_assoc in H1.
  destruct (name_at_ok l (i + 2) r (arrow_name m ++ lit "()" ++ "}"%byte :: t) Hr eq_refl H1) as [En H2].
  destruct (arrow_at_name _ _ _ _ H2) as [Ea H3].
  destruct (name_at_ok _ _ m (lit "()" ++ "}"%byte :: t) Hm eq_refl H3) as [Em H4].
  change (lit "()" ++ "}"%byte :: t) with ("("%byte :: ")"%byte :: "}"%byte :: t) in H4.
  destruct (at_cons _ _ _ _ H4) as [E5 H5]. destruct (at_cons _ _ _ _ H5) as [E6 H6]. destruct (at_cons _ _ _ _ H6) as [E7 _].
  unfold interpolation_at. rewrite E1. cbn [opt_is]. rewrite !beq_refl. cbn [andb].
  unfold parse_braced_interpolated_method_call. rewrite E0, E1. cbn [opt_is]. rewrite !beq_refl. cbn [negb orb]. rewrite En.
  cbn [mbind option_bind]. rewrite Ea. cbn [negb]. rewrite Em. cbn [mbind option_bind].
  replace (i + 2 + length r + 2 + length m + 2) with (i + 2 + length r + 2 + length m + 1 + 1) by lia.
  rewrite E5, E6, E7. cbn. unfold part_of_call. cbn. do 3 f_equal. rewrite !length_app. cbn. rewrite length_app. cbn. lia.
Qed.

Lemma property_part r n tail d (p := PartProperty r n tail d) : part_ok p = true ->
  drop i l = print_part p ++ t -> interpolation_at l i "{"%byte = Ret (Some (p, i + length (print_part p))).
Proof.
  unfold p. cbn [part_ok forallb]. rewrite !andb_true_iff. intros ((Hr & Hn & Htail) & Hd) H.
  destruct (print_part_at _ _ _ _ H) as (E0 & E1 & H1 & Hlen). pose proof (part_close _ _ _ _ H1) as Ec.
  rewrite print_part_length. cbn [print_inner flat_map] in *. rewrite <- !app_assoc in H1.
  destruct (dims_head (opt_list d) t) as (x & q & Ex & Hs & Hx1 & Hx2). rewrite Ex in H1.
  destruct (name_at_ok l (i + 2) r (arrow_name n ++ flat_map arrow_name tail ++ x :: q) Hr eq_refl H1) as [En H2].
  destruct (arrow_at_name _ _ _ _ H2) as [Ea H3].
  destruct (name_at_ok _ _ n _ Hn (arrows_head tail _ Hs) H3) as [Em H4]. rewrite !length_app in *.
  assert (length tail <= length (flat_map arrow_name tail)) as Hfl by by apply flat_map_length.
  assert (opt_is (l !! (i + 2 + length r + 2 + length n)) "("%byte = false) as Hp.
  { destruct tail as [|a tail]; cbn [flat_map app arrow_name] in H4; destruct (at_cons _ _ _ _ H4) as [-> _]; done. }
  unfold interpolation_at. rewrite E1. cbn [opt_is]. rewrite !beq_refl. cbn [andb].
  unfold parse_braced_interpolated_method_call, parse_braced_interpolated_property, parse_simple_interpolated_property.
  rewrite E0, E1. cbn [opt_is]. rewrite !beq_refl. cbn [negb orb]. replace (i + 1 + 1) with (i + 2) by lia. rewrite En.
  cbn [mbind option_bind]. rewrite Ea. cbn [negb]. rewrite Em. cbn [mbind option_bind]. rewrite Hp. cbn [negb orb].
  rewrite (property_chain_at _ _ _ tail _ [] x q Htail H4 eq_refl Hs Hx1) by lia. cbn [obind app].
  apply at_app in H4. rewrite <- Ex in H4. cbn [arrow_name length] in Ec. destruct d as [d|]; cbn [opt_list flat_map forallb] in *.
  - rewrite andb_true_r in Hd. rewrite app_nil_r in *. rewrite (dim_at _ _ _ _ Hd H4). cbn [obind prop_end].
    match goal with |- context [l !! ?e] => replace (l !! e) with (Some "}"%byte) by (rewrite <- Ec; f_equal; lia) end.
    cbn [opt_is]. rewrite beq_refl. cbn. unfold part_of_property. cbn. do 3 f_equal. lia.
  - rewrite (dim_none _ _ _ _ H4 eq_refl). cbn [obind prop_end length] in *.
    match goal with |- context [l !! ?e] => replace (l !! e) with (Some "}"%byte) by (rewrite <- Ec; f_equal; lia) end.
    cbn [opt_is]. rewrite beq_refl. cbn. unfold part_of_property. cbn. do 3 f_equal. lia.
Qed.

Lemma part_at p : part_ok p = true -> drop i l = print_part p ++ t ->
  interpolation_at l i "{"%byte = Ret (Some (p, i + length (print_part p))).
Proof.
  destruct p as [|name d tail []| |]; try done; try by (cbn; rewrite andb_false_r).
  - apply variable_part.
  - apply call_part.
  - apply property_part.
Qed.
End Part.

(** ** Whole literals *)

(** Escaped text holds no interpolation, whatever part follows it. *)
Definition part_or_end (t : bytes) : bool := match t with x :: _ => x =b "{"%byte | [] => true end.

Lemma escape_double_head c t : part_or_end t = true -> opt_is (head (escape_double c ++ t)) "$"%byte = false.
Proof.
  intros Ht. destruct c as [|x c].
  - destruct t as [|y t]; [done|]. cbn in Ht |- *. apply beq_eq in Ht as ->. done.
  - unfold escape_double. cbn [flat_map]. destruct ((x =b x5c) || (x =b x22) || (x =b "$"%byte)) eqn:E; [done|].
    rewrite orb_false_iff in E. apply E.
Qed.

Lemma lookup_head {A} (l : list A) i : l !! i = head (drop i l).
Proof. rewrite <- (Nat.add_0_r i) at 1. rewrite <- lookup_drop. by destruct (drop i l). Qed.

Lemma escaped_plain l i c t : part_or_end t = true -> drop i l = escape_double c ++ t ->
  plain l i (i + length (escape_double c)).
Proof.
  intros Ht. revert i. induction c as [|x c IH]; intros i H; [cbn; rewrite Nat.add_0_r; constructor|].
  unfold escape_double in H |- *. cbn [flat_map] in *.
  destruct ((x =b x5c) || (x =b x22) || (x =b "$"%byte)) eqn:E; cbn [app] in *; fold (escape_double c) in *.
  - destruct (at_cons _ _ _ _ H) as [E0 H0]. destruct (at_cons _ _ _ _ H0) as [E1 H1].
    apply plain_escape; [done|by apply lookup_lt_Some in E1|]. cbn [length].
    replace (i + S (S (length (escape_double c)))) with (i + 2 + length (escape_double c)) by lia. apply IH.
    by replace (i + 2) with (i + 1 + 1) by lia.
  - rewrite !orb_false_iff in E. destruct E as [[Eb _] Ed]. apply beq_neq in Eb.
    destruct (at_cons _ _ _ _ H) as [E0 H0]. apply (plain_byte l i _ x); [done..| |].
    + unfold interpolation_at. rewrite Ed, (lookup_head l (i + 1)), H0, escape_double_head by done.
      by rewrite andb_false_r.
    + cbn [length]. replace (i + S (length (escape_double c))) with (i + 1 + length (escape_double c)) by lia. by apply IH.
Qed.

(** A body with pieces of text and parts, and what it means. *)
Definition print_body (pieces : list (bytes * InterpolatedPart)) (rest : bytes) : bytes :=
  flat_map (fun '(c, p) => escape_double c ++ print_part p) pieces ++ escape_double rest.
Definition body_parts (pieces : list (bytes * InterpolatedPart)) (rest : bytes) : list InterpolatedPart :=
  flat_map (fun '(c, p) => [PartBytes c; p]) pieces ++ [PartBytes rest].

Lemma print_body_scanned l i pieces rest : i <= length l -> forallb (fun cp => part_ok (snd cp)) pieces = true ->
  drop i l = print_body pieces rest -> scanned true l i (body_parts pieces rest).
Proof.
  revert i. induction pieces as [|[c p] pieces IH]; intros i Hi Hok H.
  - unfold print_body, body_parts in *. cbn [flat_map app] in *. rewrite <- (double_round rest), <- H.
    apply scanned_rest; [done|]. pose proof (f_equal length H) as Hl. rewrite length_drop in Hl.
    replace (length l) with (i + length (escape_double rest)) by lia. apply (escaped_plain _ _ _ []); [done|]. by rewrite app_nil_r.
  - cbn [forallb snd] in Hok. apply andb_true_iff in Hok as [Hp Hok].
    unfold print_body in H. cbn [flat_map] in H. rewrite <- !app_assoc in H. fold (print_body pieces rest) in H.
    set (t := print_body pieces rest) in *. pose proof (at_app _ _ _ _ H) as H1. pose proof (at_app _ _ _ _ H1) as H2.
    assert (part_or_end (print_part p ++ t) = true) as Hh by done.
    pose proof (escaped_plain _ _ _ _ Hh H) as Hpl. pose proof (part_at _ _ _ _ Hp H1) as Ei.
    destruct (print_part_at _ _ _ _ H1) as (E0 & _ & _ & Hlen).
    pose proof (print_part_length p) as Hpp. unfold body_parts. cbn [flat_map app]. fold (body_parts pieces rest).
    rewrite <- (double_round c) at 1. rewrite <- (at_take _ _ _ _ H) at 1.
    eapply scanned_part; [exact Hpl|exact E0|done|exact Ei|lia|lia|]. apply IH; [lia|done|exact H2].
Qed.

Lemma body_parts_some pieces rest : pieces <> [] -> some_parts (body_parts pieces rest) = Some (body_parts pieces rest).
Proof. destruct pieces as [|[c p] pieces]; [done|]. intros _. unfold body_parts. cbn [flat_map app some_parts]. done. Qed.

(** Interpolation round trip: a literal printed from pieces of text and
    variables, dimensions, method calls and property chains in braces is parsed
    to exactly those parts, with the text decoded. *)
Theorem interpolation_round_trip pieces rest :
  pieces <> [] -> forallb (fun cp => part_ok (snd cp)) pieces = true ->
  parse_interpolated_double_quoted_body (print_body pieces rest) true = Ret (Some (body_parts pieces rest)).
Proof.
  intros Hne Hok. destruct (interpolated_body_scanned true (print_body pieces rest)) as (parts & Hs & ->).
  pose proof (print_body_scanned (print_body pieces rest) 0 pieces rest ltac:(lia) Hok (drop_0 _)) as Hs'.
  rewrite (scanned_functional _ _ _ _ _ Hs Hs'). by rewrite body_parts_some.
Qed.

Lemma interpolation_round_trip_witness :
  parse_interpolated_double_quoted_body
    (print_body [(lit "a$", PartVariable (lit "x") (Some (DimInt 3)) [DimString (lit "k k")] false);
                 (lit "{", PartProperty (lit "o") (lit "p") [lit "q"] (Some (DimVariable (lit "i"))));
                 ([], PartMethodCall (lit "o") (lit "m"))] (lit "z")) true =
  Ret (Some [PartBytes (lit "a$"); PartVariable (lit "x") (Some (DimInt 3)) [DimString (lit "k k")] false;
             PartBytes (lit "{"); PartProperty (lit "o") (lit "p") [lit "q"] (Some (DimVariable (lit "i")));
             PartBytes []; PartMethodCall (lit "o") (lit "m"); PartBytes (lit "z")]).
Proof.
  apply (interpolation_round_trip
    [(lit "a$", PartVariable (lit "x") (Some (DimInt 3)) [DimString (lit "k k")] false);
     (lit "{", PartProperty (lit "o") (lit "p") [lit "q"] (Some (DimVariable (lit "i"))));
     ([], PartMethodCall (lit "o") (lit "m"))] (lit "z")); [done|vm_compute; reflexivity].
Defined.

