(* ===== verification/Output.v ===== *)
(** * Output: nested output buffers

    [php_runtime/src/output.rs]: the root output, the stack of output buffers
    that [ob_start] opens and the counters of writes.  The vectors are lists, so
    reserving capacity has no effect; the counters are unbounded, as [2^64]
    writes are out of reach. *)

From Stdlib Require Import Strings.String Strings.Byte NArith.
From stdpp Require Import base list option numbers gmap fin_maps.
From S2P Require Import Prelude RustStd PhpString.

Record OutputStats := mk_stats {
  appends : N;
  batch_writes : N;
  batched_appends : N;
  batch_bytes : N;
  flushes : N;
  fast_appends : N;
  slow_appends_by_reason : gmap bytes N;
}.

(** [stack] is outermost first, the active buffer is its last. *)
Record OutputBuffer := mk_output { out_bytes : bytes; stack : list bytes; stats : OutputStats }.

Definition default_stats : OutputStats := mk_stats 0 0 0 0 0 0 ∅.
Definition new_output : OutputBuffer := mk_output [] [] default_stats.
Definition with_capacity (capacity : nat) : OutputBuffer := new_output.

Definition count_append (s : OutputStats) : OutputStats :=
  mk_stats (appends s + 1) (batch_writes s) (batched_appends s) (batch_bytes s) (flushes s) (fast_appends s)
    (slow_appends_by_reason s).
Definition count_batch (total : nat) (s : OutputStats) : OutputStats :=
  mk_stats (appends s) (batch_writes s + 1) (batched_appends s + 1) (batch_bytes s + N.of_nat total) (flushes s)
    (fast_appends s) (slow_appends_by_reason s).
Definition count_flush (s : OutputStats) : OutputStats :=
  mk_stats (appends s) (batch_writes s) (batched_appends s) (batch_bytes s) (flushes s + 1) (fast_appends s)
    (slow_appends_by_reason s).
Definition count_fast (s : OutputStats) : OutputStats :=
  mk_stats (appends s) (batch_writes s) (batched_appends s) (batch_bytes s) (flushes s) (fast_appends s + 1)
    (slow_appends_by_reason s).
Definition with_stats (o : OutputBuffer) (f : OutputStats -> OutputStats) : OutputBuffer :=
  mk_output (out_bytes o) (stack o) (f (stats o)).

(** [self.stack.last_mut()], else the root: [extend_from_slice]. *)
Definition extend_active (o : OutputBuffer) (l : bytes) : OutputBuffer :=
  match list.last (stack o) with
  | Some buffer => mk_output (out_bytes o) (removelast (stack o) ++ [buffer ++ l]) (stats o)
  | None => mk_output (out_bytes o ++ l) (stack o) (stats o)
  end.

Definition write_bytes (o : OutputBuffer) (l : bytes) : OutputBuffer :=
  if (length l =? 0)%nat then o else extend_active (with_stats o count_append) l.

Definition write_fast_bytes (o : OutputBuffer) (l : bytes) : OutputBuffer :=
  if (length l =? 0)%nat then o else write_bytes (with_stats o count_fast) l.

Definition nonempty (l : bytes) : bool := negb (length l =? 0)%nat.
Definition total_length (slices : list bytes) : nat := list_sum (length <$> slices).

Definition write_slices (o : OutputBuffer) (slices : list bytes) : OutputBuffer :=
  let total := total_length slices in
  if (total =? 0)%nat then o
  else
    let o := with_stats o count_append in
    let o := if (1 <? length (take 2 (List.filter nonempty slices)))%nat then with_stats o (count_batch total) else o in
    fold_left extend_active (List.filter nonempty slices) o.

Definition write_fast_slices (o : OutputBuffer) (slices : list bytes) : OutputBuffer :=
  if negb (existsb nonempty slices) then o else write_slices (with_stats o count_fast) slices.

Definition write_php_string (o : OutputBuffer) (value : bytes) : OutputBuffer := write_bytes o value.
Definition write_fast_php_string (o : OutputBuffer) (value : bytes) : OutputBuffer := write_fast_bytes o value.

Definition record_slow_append_reason (o : OutputBuffer) (reason : bytes) : OutputBuffer :=
  with_stats o (fun s =>
    mk_stats (appends s) (batch_writes s) (batched_appends s) (batch_bytes s) (flushes s) (fast_appends s)
      (<[reason := (default 0 (slow_appends_by_reason s !! reason) + 1)%N]> (slow_appends_by_reason s))).

(** ** Reading *)

Definition as_bytes (o : OutputBuffer) : bytes := out_bytes o.
Definition out_len (o : OutputBuffer) : nat := length (out_bytes o).
Definition total_len (o : OutputBuffer) : nat := length (out_bytes o) + total_length (stack o).
Definition out_is_empty (o : OutputBuffer) : bool := (length (out_bytes o) =? 0)%nat.
Definition buffer_level (o : OutputBuffer) : nat := length (stack o).
Definition current_buffer_bytes (o : OutputBuffer) : option bytes := list.last (stack o).
Definition current_buffer_len (o : OutputBuffer) : option nat := length <$> list.last (stack o).

(** ** Buffers *)

Definition clear (o : OutputBuffer) : OutputBuffer := mk_output [] [] (stats o).
Definition start_buffer (o : OutputBuffer) : OutputBuffer := mk_output (out_bytes o) (stack o ++ [[]]) (stats o).

(** [Vec::pop] *)
Definition pop_buffer_clean (o : OutputBuffer) : option bytes * OutputBuffer :=
  match list.last (stack o) with
  | Some buffer => (Some buffer, mk_output (out_bytes o) (removelast (stack o)) (stats o))
  | None => (None, o)
  end.

Definition pop_buffer_flush (o : OutputBuffer) : bool * OutputBuffer :=
  match pop_buffer_clean o with
  | (Some buffer, o) => (true, write_bytes (with_stats o count_flush) buffer)
  | (None, o) => (false, o)
  end.

Fixpoint flush_all_loop (fuel : nat) (o : OutputBuffer) : outcome OutputBuffer :=
  match fuel with
  | O => Timeout
  | S fuel => match pop_buffer_flush o with
              | (true, o) => flush_all_loop fuel o
              | (false, o) => Ret o
              end
  end.
Definition flush_all_buffers (o : OutputBuffer) : outcome OutputBuffer := flush_all_loop (S (length (stack o))) o.

Definition flush_active_buffers_to_root (o : OutputBuffer) : OutputBuffer :=
  if (length (stack o) =? 0)%nat then o
  else if (total_length (stack o) =? 0)%nat then o
  else mk_output (fold_left app (stack o) (out_bytes o)) ((fun _ => []) <$> stack o) (count_flush (stats o)).

(** The unit tests. *)
Example nested_buffers_capture_clean_and_flush :
  let o := write_php_string (start_buffer (write_php_string (start_buffer (write_php_string new_output (lit "root"))) (lit "a"))) (lit "b") in
  let '(b, o1) := pop_buffer_clean o in
  let '(f, o2) := pop_buffer_flush o1 in
  (as_bytes o, buffer_level o, b, current_buffer_bytes o1, f, as_bytes o2, total_len o2, appends (stats o2), flushes (stats o2)) =
  (lit "root", 2, Some (lit "b"), Some (lit "a"), true, lit "roota", 5, 4%N, 1%N).
Proof. reflexivity. Qed.

Example fast_and_slow_output_stats_are_stable :
  let o := write_fast_slices (write_fast_bytes new_output (lit "a")) [lit "b"; lit "c"] in
  let o := record_slow_append_reason (record_slow_append_reason o (lit "object_to_string")) (lit "object_to_string") in
  (as_bytes o, appends (stats o), batch_writes (stats o), batch_bytes (stats o), fast_appends (stats o),
   slow_appends_by_reason (stats o) !! lit "object_to_string") = (lit "abc", 2, 1, 2, 2, Some 2)%N.
Proof. vm_compute. reflexivity. Qed.

(** ** Operations *)

Inductive OutputOp :=
| OWrite (l : bytes) | OWriteFast (l : bytes) | OWriteSlices (ls : list bytes) | OWriteFastSlices (ls : list bytes)
| OSlowReason (r : bytes) | OStart | OClean | OFlush | OFlushActive | OClear.

Definition run_output (o : OutputBuffer) (op : OutputOp) : OutputBuffer :=
  match op with
  | OWrite l => write_bytes o l
  | OWriteFast l => write_fast_bytes o l
  | OWriteSlices ls => write_slices o ls
  | OWriteFastSlices ls => write_fast_slices o ls
  | OSlowReason r => record_slow_append_reason o r
  | OStart => start_buffer o
  | OClean => (pop_buffer_clean o).2
  | OFlush => (pop_buffer_flush o).2
  | OFlushActive => flush_active_buffers_to_root o
  | OClear => clear o
  end.
Definition run_outputs (o : OutputBuffer) (ops : list OutputOp) : OutputBuffer := fold_left run_output ops o.

Definition written (op : OutputOp) : bytes :=
  match op with
  | OWrite l | OWriteFast l => l
  | OWriteSlices ls | OWriteFastSlices ls => concat ls
  | _ => []
  end.

(** ** The specification: a stack of texts, the active one first, the root last

    Every write goes to the active text; a level is opened, dropped or appended
    to the one below. *)

Abbreviation Levels := (bytes * list bytes)%type.
Definition levels (o : OutputBuffer) : Levels := (out_bytes o, rev (stack o)).

Definition spec_write (s : Levels) (l : bytes) : Levels :=
  match s with
  | (root, []) => (root ++ l, [])
  | (root, b :: bs) => (root, (b ++ l) :: bs)
  end.

Definition spec_output (s : Levels) (op : OutputOp) : Levels :=
  match op, s with
  | OStart, (root, bs) => (root, [] :: bs)
  | OClean, (root, bs) => (root, List.tl bs)
  | OFlush, (root, b :: bs) => spec_write (root, bs) b
  | OFlush, (root, []) => s
  | OFlushActive, (root, bs) => (root ++ concat (rev bs), (fun _ => []) <$> bs)
  | OClear, _ => ([], [])
  | _, _ => spec_write s (written op)
  end.

(** Every byte in output order: the root, then the open buffers. *)
Definition all_output (o : OutputBuffer) : bytes := out_bytes o ++ concat (stack o).

Definition keeps (op : OutputOp) : bool := match op with OClean | OClear => false | _ => true end.

(** The level relative to the start, [None] once it is left or its text moved. *)
Definition level_step (n : option nat) (op : OutputOp) : option nat :=
  match n, op with
  | Some n, OStart => Some (S n)
  | Some n, OFlush => match n with O => None | S n => Some n end
  | Some _, (OClean | OFlushActive | OClear) => None
  | n, _ => n
  end.

(** ** Proofs *)

Lemma fold_app (ls : list bytes) acc : fold_left app ls acc = acc ++ concat ls.
Proof.
  revert acc. induction ls as [|l ls IH]; intros acc; cbn; [by rewrite app_nil_r|]. by rewrite IH, app_assoc.
Qed.

Lemma stack_snoc (l : list bytes) : l = [] \/ exists l' x, l = l' ++ [x] /\ list.last l = Some x /\ removelast l = l'.
Proof.
  destruct l as [|x l _] using rev_ind; [by left|right]. exists l, x.
  by rewrite last_snoc, removelast_last.
Qed.

Lemma levels_extend o l : levels (extend_active o l) = spec_write (levels o) l.
Proof.
  unfold levels, extend_active. destruct (stack_snoc (stack o)) as [E|(s & x & E & El & Er)].
  - by rewrite E.
  - rewrite El, Er. cbn. by rewrite E, !rev_app_distr.
Qed.

Lemma spec_write_nil s : spec_write s [] = s.
Proof. destruct s as [root [|b bs]]; cbn; by rewrite app_nil_r. Qed.

Lemma spec_write_app s l r : spec_write (spec_write s l) r = spec_write s (l ++ r).
Proof. destruct s as [root [|b bs]]; cbn; by rewrite <- app_assoc. Qed.

Lemma levels_write o l : levels (write_bytes o l) = spec_write (levels o) l.
Proof.
  unfold write_bytes. destruct l as [|x l]; [by rewrite spec_write_nil|]. cbn [length Nat.eqb].
  by rewrite levels_extend.
Qed.

Lemma write_level o l : length (stack (write_bytes o l)) = length (stack o).
Proof.
  pose proof (levels_write o l) as Hl. apply (f_equal snd) in Hl. cbn [levels snd] in Hl.
  rewrite <- (length_rev (stack (write_bytes o l))), Hl, <- (length_rev (stack o)). unfold levels.
  by destruct (rev (stack o)).
Qed.

Lemma filter_nonempty (ls : list bytes) : concat (List.filter nonempty ls) = concat ls.
Proof. induction ls as [|[|x l] ls IH]; [done|done|]. cbn. by rewrite IH. Qed.

Lemma levels_fold ls o : levels (fold_left extend_active ls o) = spec_write (levels o) (concat ls).
Proof.
  revert o. induction ls as [|l ls IH]; intros o; cbn [fold_left concat]; [by rewrite spec_write_nil|].
  by rewrite IH, levels_extend, spec_write_app.
Qed.

Lemma total_concat ls : total_length ls = length (concat ls).
Proof. induction ls as [|l ls IH]; [done|]. cbn [concat]. rewrite length_app, <- IH. reflexivity. Qed.

Lemma levels_slices o ls : levels (write_slices o ls) = spec_write (levels o) (concat ls).
Proof.
  unfold write_slices. rewrite total_concat. destruct (length (concat ls) =? 0) eqn:E.
  - apply Nat.eqb_eq, length_zero_iff_nil in E. by rewrite E, spec_write_nil.
  - rewrite levels_fold, filter_nonempty. f_equal. by case_match.
Qed.

Lemma no_bytes ls : existsb nonempty ls = false -> concat ls = [].
Proof. induction ls as [|[|x l] ls IH]; [done| |done]. cbn. apply IH. Qed.

Lemma levels_pop o : levels (pop_buffer_clean o).2 = spec_output (levels o) OClean.
Proof.
  unfold levels, pop_buffer_clean. destruct (stack_snoc (stack o)) as [E|(s & x & E & El & Er)].
  - rewrite E. cbn. by rewrite E.
  - rewrite El. cbn. by rewrite Er, E, rev_app_distr.
Qed.

Lemma levels_flush o : levels (pop_buffer_flush o).2 = spec_output (levels o) OFlush.
Proof.
  unfold pop_buffer_flush, pop_buffer_clean. destruct (stack_snoc (stack o)) as [E|(s & x & E & El & Er)].
  - rewrite E. unfold levels. cbn. by rewrite E.
  - rewrite El. cbn [fst snd]. rewrite levels_write. unfold levels. cbn. by rewrite Er, E, rev_app_distr.
Qed.

Lemma levels_flush_active o :
  levels (flush_active_buffers_to_root o) = spec_output (levels o) OFlushActive.
Proof.
  unfold flush_active_buffers_to_root, levels. cbn [spec_output]. rewrite rev_involutive.
  destruct (stack o) as [|b bs] eqn:E; [cbn; by rewrite E, app_nil_r|]. cbn [length Nat.eqb].
  rewrite total_concat. destruct (length (concat (b :: bs)) =? 0) eqn:El.
  - apply Nat.eqb_eq, length_zero_iff_nil in El. rewrite El, app_nil_r, E. f_equal.
    assert (forall ls : list bytes, concat ls = [] -> (fun _ => []) <$> rev ls = rev ls) as H; [|by rewrite H].
    intros ls Hn. rewrite <- Forall_fmap_ext_1 with (f := id); [by rewrite list_fmap_id|].
    apply Forall_rev. clear -Hn. induction ls as [|l ls IH]; [done|]. cbn in Hn.
    apply app_eq_nil in Hn as [-> Hn]. constructor; [done|by apply IH].
  - cbn [out_bytes stack]. rewrite fold_app. f_equal. unfold fmap. by rewrite map_rev.
Qed.

Lemma output_step o op : levels (run_output o op) = spec_output (levels o) op.
Proof.
  destruct op as [l|l|ls|ls|r| | | | |]; cbn [run_output].
  - rewrite levels_write. by destruct (levels o).
  - unfold write_fast_bytes. destruct l as [|x l]; cbn [length Nat.eqb spec_output written].
    + rewrite <- (spec_write_nil (levels o)) at 1. by destruct (levels o).
    + rewrite levels_write. change (levels (with_stats o count_fast)) with (levels o). by destruct (levels o).
  - rewrite levels_slices. by destruct (levels o).
  - unfold write_fast_slices. destruct (existsb nonempty ls) eqn:E; cbn [negb].
    + rewrite levels_slices. change (levels (with_stats o count_fast)) with (levels o). by destruct (levels o).
    + cbn [spec_output written]. rewrite (no_bytes ls E). rewrite <- (spec_write_nil (levels o)) at 1. by destruct (levels o).
  - change (levels (record_slow_append_reason o r)) with (levels o). cbn [spec_output written].
    rewrite spec_write_nil. by destruct (levels o).
  - unfold levels. cbn. by rewrite rev_app_distr.
  - apply levels_pop.
  - apply levels_flush.
  - apply levels_flush_active.
  - by destruct (levels o).
Qed.

Lemma outputs_refine o ops : levels (run_outputs o ops) = fold_left spec_output ops (levels o).
Proof. revert o. induction ops as [|op ops IH]; intros o; [done|].
  change (run_outputs o (op :: ops)) with (run_outputs (run_output o op) ops). by rewrite IH, output_step.
Qed.

Definition spec_all (s : Levels) : bytes := s.1 ++ concat (rev s.2).

Lemma all_output_levels o : all_output o = spec_all (levels o).
Proof. unfold spec_all. cbn. by rewrite rev_involutive. Qed.

Lemma spec_all_write s l : spec_all (spec_write s l) = spec_all s ++ l.
Proof.
  destruct s as [root [|b bs]]; unfold spec_all; cbn; [by rewrite !app_nil_r|].
  rewrite !concat_app. cbn. by rewrite !app_nil_r, !app_assoc.
Qed.

Lemma concat_nils {A} (ls : list A) : concat (rev ((fun _ => @nil byte) <$> ls)) = [].
Proof. induction ls as [|l ls IH]; [done|]. cbn. rewrite concat_app. cbn. by rewrite app_nil_r. Qed.

Lemma spec_all_step s op : keeps op = true -> spec_all (spec_output s op) = spec_all s ++ written op.
Proof.
  destruct s as [root bs]. destruct op; intros Hk; cbn [spec_output written]; try done; try apply spec_all_write.
  - unfold spec_all. cbn. rewrite concat_app. cbn. by rewrite !app_nil_r.
  - destruct bs as [|b bs]; [by rewrite app_nil_r|]. rewrite spec_all_write. unfold spec_all. cbn.
    rewrite concat_app. cbn. by rewrite !app_nil_r, app_assoc.
  - unfold spec_all. cbn [fst snd]. by rewrite concat_nils, !app_nil_r.
Qed.

Lemma spec_all_run ops s : forallb keeps ops = true ->
  spec_all (fold_left spec_output ops s) = spec_all s ++ concat (written <$> ops).
Proof.
  revert s. induction ops as [|op ops IH]; intros s Hk; cbn; [by rewrite app_nil_r|].
  apply andb_true_iff in Hk as [H1 H2]. by rewrite IH, spec_all_step, app_assoc.
Qed.

Lemma flush_loop_ok fuel o : length (stack o) < fuel ->
  exists o', flush_all_loop fuel o = Ret o' /\ stack o' = [] /\ out_bytes o' = all_output o.
Proof.
  revert o. induction fuel as [|fuel IH]; intros o Hl; [lia|]. cbn [flush_all_loop].
  pose proof (levels_flush o) as Hf. pose proof (spec_all_step (levels o) OFlush eq_refl) as Ha.
  rewrite <- Hf, <- !all_output_levels, app_nil_r in Ha. unfold pop_buffer_flush, pop_buffer_clean in *.
  destruct (stack_snoc (stack o)) as [E|(s & x & E & El & Er)].
  - rewrite E in *. cbn. exists o. split_and!; [done..|]. unfold all_output. by rewrite E, app_nil_r.
  - rewrite El in *. cbn [fst snd] in *. destruct (IH (write_bytes (with_stats (mk_output (out_bytes o) (removelast (stack o)) (stats o)) count_flush) x)) as (o' & H1 & H2 & H3).
    + rewrite write_level. cbn [with_stats stack]. rewrite Er. rewrite E, length_app in Hl. cbn in Hl. lia.
    + exists o'. split_and!; [done..|]. by rewrite H3, Ha.
Qed.

(** The text of the level opened at the start, with the deeper ones above it. *)
Definition captured (n : nat) (bs : list bytes) (text : bytes) (base : list bytes) : Prop :=
  exists top, bs = top ++ base /\ length top = S n /\ concat (rev top) = text.

Lemma captured_step n root bs text base op n' :
  captured n bs text base -> level_step (Some n) op = Some n' ->
  exists bs', spec_output (root, bs) op = (root, bs') /\ captured n' bs' (text ++ written op) base.
Proof.
  intros (top & -> & Hl & Ht) Hn. destruct top as [|b top]; [done|]. injection Hl as Hl.
  assert (forall l, captured n ((b ++ l) :: top ++ base) (text ++ l) base) as Hw.
  { intros l. exists ((b ++ l) :: top). split_and!; [done|cbn; lia|]. rewrite <- Ht. cbn.
    rewrite !concat_app. cbn. by rewrite !app_nil_r, app_assoc. }
  destruct op; cbn in Hn; try done; cbn [spec_output written app spec_write];
    try (injection Hn as <-; eexists; split; [done|by apply Hw]).
  - injection Hn as <-. eexists. split; [done|]. exists ([] :: b :: top). split_and!; [done|cbn; lia|].
    rewrite <- Ht. cbn. rewrite !concat_app. cbn. by rewrite !app_nil_r.
  - subst n. destruct top as [|c top]; [done|]. injection Hn as <-. eexists. split; [done|].
    exists ((c ++ b) :: top). split_and!; [done..|]. rewrite <- Ht. cbn. rewrite !concat_app. cbn.
    by rewrite !app_nil_r, !app_assoc.
Qed.

Lemma captured_none ops : fold_left level_step ops None = None.
Proof. by induction ops as [|[] ops IH]. Qed.

Lemma captured_run ops n root bs text base n' :
  captured n bs text base -> fold_left level_step ops (Some n) = Some n' ->
  exists bs', fold_left spec_output ops (root, bs) = (root, bs') /\
              captured n' bs' (text ++ concat (written <$> ops)) base.
Proof.
  revert n bs text. induction ops as [|op ops IH]; intros n bs text Hc Hn; cbn [fold_left] in *.
  - injection Hn as <-. exists bs. cbn. by rewrite app_nil_r.
  - destruct (level_step (Some n) op) as [m|] eqn:E; [|by rewrite captured_none in Hn].
    destruct (captured_step n root bs text base op m Hc E) as (bs1 & E1 & H1). rewrite E1.
    destruct (IH m bs1 _ H1 Hn) as (bs2 & E2 & H2). exists bs2. split; [done|].
    rewrite fmap_cons. cbn [concat]. by rewrite app_assoc.
Qed.

Lemma kept_in_order (o : OutputBuffer) (ops : list OutputOp) :
  forallb keeps ops = true ->
  all_output (run_outputs o ops) = all_output o ++ concat (written <$> ops) /\
  exists o', flush_all_buffers (run_outputs o ops) = Ret o' /\ stack o' = [] /\
             as_bytes o' = all_output o ++ concat (written <$> ops).
Proof.
  intros Hk. assert (all_output (run_outputs o ops) = all_output o ++ concat (written <$> ops)) as E.
  { by rewrite !all_output_levels, outputs_refine, spec_all_run. }
  split; [done|]. destruct (flush_loop_ok (S (length (stack (run_outputs o ops)))) (run_outputs o ops)) as (o' & H1 & H2 & H3); [lia|].
  exists o'. by rewrite <- E.
Qed.

Lemma capture_exact (o : OutputBuffer) (ops : list OutputOp) :
  fold_left level_step ops (Some 0) = Some 0 ->
  exists o', pop_buffer_clean (run_outputs (start_buffer o) ops) = (Some (concat (written <$> ops)), o') /\
             out_bytes o' = out_bytes o /\ stack o' = stack o.
Proof.
  intros Hn. pose proof (outputs_refine (start_buffer o) ops) as Hr.
  destruct (captured_run ops 0 (out_bytes o) ([] :: rev (stack o)) [] (rev (stack o)) 0) as (bs & E & top & -> & Hl & Ht);
    [by exists [[]]|done|].
  destruct top as [|t [|? ?]]; try done. cbn in Ht. rewrite app_nil_r in Ht. subst t.
  assert (levels (start_buffer o) = (out_bytes o, [] :: rev (stack o))) as El.
  { unfold levels. cbn. by rewrite rev_app_distr. }
  rewrite El, E in Hr. unfold levels in Hr. injection Hr as Ho Hs. unfold fmap.
  apply (f_equal (@rev bytes)) in Hs. rewrite rev_involutive in Hs. cbn in Hs. rewrite rev_involutive in Hs.
  unfold pop_buffer_clean. rewrite Hs, last_snoc. eexists. split; [done|]. cbn. by rewrite removelast_last.
Qed.

(** C40: any sequence of writes, batched writes, opened, dropped and flushed
    buffers leaves the texts that a plain stack of texts has after the same
    sequence.  When nothing is dropped or cleared, the root followed by the open
    buffers is everything written, in order, and flushing all buffers returns
    with all of it in the root.  What is written between opening a buffer and
    dropping it at the same level, nested buffers that were flushed into it
    included, is returned by the drop and never reaches the root or an outer
    buffer. *)
Theorem output_buffers (o : OutputBuffer) (ops : list OutputOp) :
  levels (run_outputs o ops) = fold_left spec_output ops (levels o) /\
  (forallb keeps ops = true ->
   all_output (run_outputs o ops) = all_output o ++ concat (written <$> ops) /\
   exists o', flush_all_buffers (run_outputs o ops) = Ret o' /\ stack o' = [] /\
              as_bytes o' = all_output o ++ concat (written <$> ops)) /\
  (fold_left level_step ops (Some 0) = Some 0 ->
   exists o', pop_buffer_clean (run_outputs (start_buffer o) ops) = (Some (concat (written <$> ops)), o') /\
              out_bytes o' = out_bytes o /\ stack o' = stack o).
Proof. split_and!; [apply outputs_refine | apply kept_in_order | apply capture_exact]. Qed.

Lemma output_buffers_witness :
  all_output (run_outputs new_output [OWrite (lit "a"); OStart; OWriteSlices [lit "b"; []; lit "c"]; OFlushActive; OWriteFast (lit "d")]) = lit "abcd" /\
  exists o', pop_buffer_clean (run_outputs (start_buffer (write_bytes new_output (lit "x"))) [OWrite (lit "a"); OStart; OWrite (lit "b"); OFlush]) =
    (Some (lit "ab"), o') /\ out_bytes o' = lit "x" /\ stack o' = [].
Proof.
  split.
  - by apply (output_buffers new_output [OWrite (lit "a"); OStart; OWriteSlices [lit "b"; []; lit "c"]; OFlushActive; OWriteFast (lit "d")]).
  - by apply (output_buffers (write_bytes new_output (lit "x")) [OWrite (lit "a"); OStart; OWrite (lit "b"); OFlush]).
Defined.
