(* ===== verification/Convert.v ===== *)
(** * Convert: PHP values, their conversions and comparisons

    [php_runtime/src/value.rs] and [convert.rs]: the value type, the casts, the
    operands of arithmetic, strict identity, loose equality and the loose order.

    Reference cells and objects live in a [Store]; a handle is the number of its
    cell.  The conversions follow references and the comparisons also arrays and
    properties, so they take a bound on the depth and return [Timeout] beyond it,
    where the code recurses.  The payload of a callable is of any type with an
    equality.  Strings are classified with [classify]; the cache in front of it
    is that of [NumericString].  An object has the fields of [ObjectStorage] that
    [properties_snapshot] and [array_cast_snapshot] read. *)

From Stdlib Require Import Strings.String Strings.Byte ZArith Floats.SpecFloat.
From stdpp Require Import base list option numbers gmap fin_maps.
From S2P Require Import Prelude RustStd RustNum RustFloat FloatText Simd PhpString NumericString PhpArray.

(** ** Results *)

(** [Result<A, String>] *)
Inductive result (A : Type) := Ok (a : A) | Err (message : string).
Arguments Ok {A} a.
Arguments Err {A} message.

Abbreviation Res A := (outcome (result A)).
Definition ok {A} (a : A) : Res A := Ret (Ok a).
Definition err {A} (message : string) : Res A := Ret (Err message).
Arguments err {A} message%_string_scope.
Definition rbind {A B} (m : Res A) (k : A -> Res B) : Res B :=
  olet r := m in match r with Ok a => k a | Err e => Ret (Err e) end.
Definition rmap {A B} (f : A -> B) (m : Res A) : Res B := rbind m (fun a => ok (f a)).

Notation "'rlet' x := m 'in' k" := (rbind m (fun x => k))
  (at level 200, x name, m at level 100, k at level 200, right associativity) : php_scope.

(** ** Values *)

Inductive Value {C : Type} :=
| Null
| Bool (b : bool)
| Int (z : Z)
| Float (x : f64)
| Str (l : bytes)
| Uninitialized
| Array (a : ArrayStorage (V := Value))
| Object (id : N)
| Resource (id : N)
| Fiber (id : N)
| Generator (id : N)
| Callable (c : C)
| Reference (cell : N).
Arguments Value C : clear implicits.

Inductive NumericValue := NInt (z : Z) | NFloat (x : f64).
Record ArithmeticNumber := mk_arithmetic { arith_value : NumericValue; leading_numeric_string : bool }.

Definition number_as_f64 (n : NumericValue) : f64 :=
  match n with NInt z => i64_as_f64 z | NFloat x => x end.

#[export] Instance value_array_value {C} : ArrayValue (Value C) := {
  is_reference v := match v with Reference _ => true | _ => false end;
  as_int v := match v with Int z => Some z | _ => None end;
}.

(** ** The store *)

Section Store.
Context {C : Type}.

Record ObjectStorage := mk_object {
  class_name : bytes;
  slot_names : list bytes;
  array_cast_names : list bytes;
  declared_slots : list (option (Value C));
  dynamic_properties : gmap bytes (Value C);
  dynamic_order : list bytes;
}.

Record Store := mk_store {
  cells : gmap N (Value C);
  objects : gmap N ObjectStorage;
}.

Definition named (p : bytes * option (Value C)) : option (bytes * Value C) :=
  match p.2 with Some v => Some (p.1, v) | None => None end.
Definition dynamic_part (o : ObjectStorage) : list (bytes * Value C) :=
  omap (fun name => (fun v => (name, v)) <$> dynamic_properties o !! name) (dynamic_order o).

(** [ObjectStorage::snapshot] *)
Definition properties_snapshot (o : ObjectStorage) : list (bytes * Value C) :=
  omap named (zip (slot_names o) (declared_slots o)) ++ dynamic_part o.

(** [ObjectStorage::array_cast_snapshot] *)
Definition initialized (p : bytes * option (Value C)) : bool :=
  match p.2 with Some Uninitialized => false | _ => true end.
Definition array_cast_snapshot (o : ObjectStorage) : list (bytes * Value C) :=
  omap named (List.filter initialized (zip (array_cast_names o) (declared_slots o))) ++ dynamic_part o.

(** A handle keeps its cell alive: a missing one is a dangling pointer. *)
Definition deref (st : Store) (cell : N) : outcome (Value C) :=
  match cells st !! cell with Some v => Ret v | None => Panic end.
Definition object (st : Store) (id : N) : outcome ObjectStorage :=
  match objects st !! id with Some o => Ret o | None => Panic end.
End Store.
Arguments ObjectStorage C : clear implicits.
Arguments Store C : clear implicits.

(** ** Floats to integers *)

Definition float_fits_int (value : f64) : bool :=
  let min := i64_as_f64 I64_MIN in
  f64_is_finite value && f64_ge value min && f64_lt value (f64_neg min).

Definition php_float_to_int (value : f64) : Z :=
  if float_fits_int value then f64_as_i64 value
  else if negb (f64_is_finite value) then 0%Z
  else
    let two_pow_64 := f64_pow2 64 in
    let modulus := f64_rem value two_pow_64 in
    let modulus := if f64_lt modulus (S754_zero false) then f64_add modulus two_pow_64 else modulus in
    let modulus := if f64_ge modulus (f64_neg (i64_as_f64 I64_MIN)) then f64_sub modulus two_pow_64 else modulus in
    f64_as_i64 modulus.

(** The values of the unit test. *)
Example float_to_int_values :
  ((fun s => php_float_to_int <$> parse_f64 (lit s)) <$> ["3.7"; "-3.7"; "1e30"; "-1e30"; "nan"; "inf"])%string =
  [Some 3; Some (-3); Some 5076964154930102272; Some (-5076964154930102272); Some 0; Some 0]%Z.
Proof. vm_compute. reflexivity. Qed.

(** ** Conversions *)

(** [r.id().get()] of a resource is a [u64]. *)
Definition u64_as_i64 (n : N) : Z := wrap_i64 (Z.of_N n).
Definition u64_as_f64 (n : N) : f64 := binary_normalize 53 1024 (Z.of_N n) 0 false.

(** [left.cmp(right)] on byte slices and strings *)
Fixpoint bytes_cmp (l r : bytes) : comparison :=
  match l, r with
  | [], [] => Eq
  | [], _ => Lt
  | _, [] => Gt
  | x :: l, y :: r => match (u8 x ?= u8 y)%N with Eq => bytes_cmp l r | c => c end
  end.

Definition bool_cmp (l r : bool) : comparison :=
  match l, r with false, true => Lt | true, false => Gt | _, _ => Eq end.

Section Convert.
Context {C : Type} (bk : backend) `{FloatEnv} (st : Store C).

Fixpoint to_bool (depth : nat) (v : Value C) : Res bool :=
  match depth with
  | O => Timeout
  | S depth =>
      match v with
      | Null => ok false
      | Bool b => ok b
      | Int z => ok (negb (z =? 0)%Z)
      | Float x => ok (negb (f64_eq x (S754_zero false)))
      | Str l => ok (negb (length l =? 0)%nat && negb (bytes_eqb l (lit "0")))
      | Uninitialized => err "cannot convert uninitialized value to bool"
      | Array a => ok (negb (is_empty a))
      | Object _ | Resource _ | Fiber _ | Generator _ => ok true
      | Callable _ => err "callable truthiness is not implemented"
      | Reference c => olet v := deref st c in to_bool depth v
      end
  end.

Fixpoint to_string (depth : nat) (v : Value C) : Res bytes :=
  match depth with
  | O => Timeout
  | S depth =>
      match v with
      | Null | Bool false => ok []
      | Bool true => ok (lit "1")
      | Int z => ok (print_i64 z)
      | Float x => olet l := float_to_php_string x in ok l
      | Str l => ok l
      | Uninitialized => err "cannot convert uninitialized value to string"
      | Array _ => err "E_PHP_RUNTIME_ARRAY_TO_STRING_GAP: array to string conversion is not implemented"
      | Object _ | Fiber _ | Generator _ =>
          err "E_PHP_RUNTIME_OBJECT_TO_STRING_GAP: object __toString conversion is not implemented"
      | Resource id => ok (lit "Resource id #" ++ dec_digits 20 (Z.of_N id) [])
      | Callable _ => err "callable to string conversion is not implemented"
      | Reference c => olet v := deref st c in to_string depth v
      end
  end.

Fixpoint to_int (depth : nat) (v : Value C) : Res Z :=
  match depth with
  | O => Timeout
  | S depth =>
      match v with
      | Null | Bool false => ok 0%Z
      | Bool true => ok 1%Z
      | Int z => ok z
      | Float x => ok (php_float_to_int x)
      | Str l => olet n := classify bk l in ok (from_option to_i64 0%Z (NumericString.value n))
      | Uninitialized => err "cannot convert uninitialized value to int"
      | Array a => ok (if is_empty a then 0 else 1)%Z
      | Object _ | Fiber _ | Generator _ =>
          err "E_PHP_RUNTIME_OBJECT_NUMERIC_CONVERSION_GAP: object to int conversion is not implemented"
      | Resource id => ok (u64_as_i64 id)
      | Callable _ => err "callable to int conversion is not implemented"
      | Reference c => olet v := deref st c in to_int depth v
      end
  end.

Fixpoint to_float (depth : nat) (v : Value C) : Res f64 :=
  match depth with
  | O => Timeout
  | S depth =>
      match v with
      | Null | Bool false => ok (S754_zero false)
      | Bool true => ok (i64_as_f64 1)
      | Int z => ok (i64_as_f64 z)
      | Float x => ok x
      | Str l => olet n := classify bk l in ok (from_option as_f64 (S754_zero false) (NumericString.value n))
      | Uninitialized => err "cannot convert uninitialized value to float"
      | Array a => ok (if is_empty a then S754_zero false else i64_as_f64 1)
      | Object _ | Fiber _ | Generator _ =>
          err "E_PHP_RUNTIME_OBJECT_NUMERIC_CONVERSION_GAP: object to float conversion is not implemented"
      | Resource id => ok (u64_as_f64 id)
      | Callable _ => err "callable to float conversion is not implemented"
      | Reference c => olet v := deref st c in to_float depth v
      end
  end.

Definition number_of (v : NumericStringValue) : NumericValue :=
  match v with VInt z => NInt z | VFloat x => NFloat x end.

Definition non_numeric_string : string :=
  "E_PHP_RUNTIME_NON_NUMERIC_STRING: non-numeric string cannot be used as a number"%string.

(** [arithmetic_numeric_string_with_warning] *)
Definition arithmetic_numeric_string_with_warning (l : bytes) : Res ArithmeticNumber :=
  olet n := classify bk l in
  match kind n, NumericString.value n with
  | (IntString | FloatString | LeadingNumeric), Some v =>
      ok (mk_arithmetic (number_of v) (bool_decide (kind n = LeadingNumeric)))
  | _, _ => err non_numeric_string
  end.
Definition arithmetic_numeric_string (l : bytes) : Res NumericValue :=
  rmap arith_value (arithmetic_numeric_string_with_warning l).

Fixpoint to_number (depth : nat) (v : Value C) : Res NumericValue :=
  match depth with
  | O => Timeout
  | S depth =>
      match v with
      | Null | Bool false => ok (NInt 0)
      | Bool true => ok (NInt 1)
      | Int z => ok (NInt z)
      | Float x => ok (NFloat x)
      | Str l => arithmetic_numeric_string l
      | Uninitialized => err "cannot convert uninitialized value to number"
      | Array _ => err "array to number conversion is not implemented"
      | Object _ | Fiber _ | Generator _ =>
          err "E_PHP_RUNTIME_OBJECT_NUMERIC_CONVERSION_GAP: object to number conversion is not implemented"
      | Resource id => ok (NInt (u64_as_i64 id))
      | Callable _ => err "callable to number conversion is not implemented"
      | Reference c => olet v := deref st c in to_number depth v
      end
  end.

Fixpoint to_arithmetic_number (depth : nat) (v : Value C) : Res ArithmeticNumber :=
  match depth with
  | O => Timeout
  | S depth' =>
      match v with
      | Str l => arithmetic_numeric_string_with_warning l
      | Reference c => olet v := deref st c in to_arithmetic_number depth' v
      | _ => rmap (fun n => mk_arithmetic n false) (to_number depth v)
      end
  end.

Definition native_bytes_to_number (l : bytes) : Res NumericValue :=
  olet n := classify bk l in
  match kind n, NumericString.value n with
  | (IntString | FloatString | LeadingNumeric), Some v => ok (number_of v)
  | _, _ => err non_numeric_string
  end.

Definition native_bytes_to_weak_int_parameter (l : bytes) : outcome (option Z) :=
  olet n := classify bk l in
  match kind n with
  | IntString | FloatString =>
      match NumericString.value n with
      | Some (VInt z) => Ret (Some z)
      | Some (VFloat x) => Ret (Some (php_float_to_int x))
      | None => Ret None
      end
  | _ => Ret None
  end.

(** [ArrayKey::from_php_string] and [ArrayKey::from_value] *)
Definition from_php_string (l : bytes) : outcome ArrayKey :=
  olet k := array_key_integer_bytes bk l in
  Ret (match k with Some z => KInt z | None => KString l end).

Definition from_value (v : Value C) : outcome (option ArrayKey) :=
  match v with
  | Int z => Ret (Some (KInt z))
  | Bool b => Ret (Some (KInt (if b then 1 else 0)))
  | Null | Uninitialized => Ret (Some (KString []))
  | Float x => Ret (Some (KInt (php_float_to_int x)))
  | Str l => olet k := from_php_string l in Ret (Some k)
  | Resource id => Ret (KInt <$> checked_i64 (Z.of_N id))
  | _ => Ret None
  end.

(** [to_array_php]; [id] is the storage identity of a new array. *)
Context `{KeyClassifier}.

Fixpoint insert_properties (a : ArrayStorage) (l : list (bytes * Value C)) : outcome (ArrayStorage (V := Value C)) :=
  match l with
  | [] => Ret a
  | (name, v) :: l =>
      olet k := from_php_string name in
      olet (_, a) := insert a k false v in insert_properties a l
  end.

Fixpoint to_array_php (id : N) (depth : nat) (v : Value C) : Res (ArrayStorage (V := Value C)) :=
  match depth with
  | O => Timeout
  | S depth =>
      match v with
      | Null => ok (new_array id)
      | Array a => ok a
      | Reference c => olet v := deref st c in to_array_php id depth v
      | Object o =>
          olet o := object st o in
          olet a := insert_properties (new_array id) (array_cast_snapshot o) in ok a
      | Fiber _ | Generator _ => err "fiber/generator to array conversion is not implemented"
      | Uninitialized => err "cannot convert uninitialized value to array"
      | Callable _ => err "callable to array conversion is not implemented"
      | scalar => olet (_, a) := append (new_array id) scalar in ok a
      end
  end.

Fixpoint to_object_php (depth : nat) (v : Value C) : Res (Value C) :=
  match depth with
  | O => Timeout
  | S depth =>
      match v with
      | Object _ => ok v
      | Reference c => olet v := deref st c in to_object_php depth v
      | _ => err "E_PHP_RUNTIME_OBJECT_CAST_GAP: object cast conversion is not implemented"
      end
  end.
End Convert.
