(* ===== verification/ConvertProofs.v ===== *)
(** * ConvertProofs: casts of numbers *)

From Stdlib Require Import Strings.String Strings.Byte ZArith Floats.SpecFloat.
From stdpp Require Import base list option numbers gmap fin_maps.
From S2P Require Import Prelude RustStd RustNum RustFloat FloatText Simd ByteKernel ByteKernelProofs PhpString NumericString NumericStringProofs PhpArray Convert.

#[local] Open Scope Z_scope.

(** ** Floats to integers *)

(** The value of a double that is an integer. *)
Definition is_integer (x : f64) (z : Z) : Prop :=
  valid x /\ f64_is_finite x = true /\ scaled x = z * 2 ^ 1074.

Lemma unit_pos : 0 < 2 ^ 1074.
Proof. by vm_compute. Qed.

Lemma integer_compare x y a b :
  is_integer x a -> is_integer y b -> SFcompare x y = Some (a ?= b).
Proof.
  intros (Hx & Fx & Sx) (Hy & Fy & Sy). rewrite compare_exact, Sx, Sy by done.
  f_equal. symmetry. apply Zmult_compare_compat_r, Z.lt_gt, unit_pos.
Qed.

Lemma integer_zero : is_integer (S754_zero false) 0.
Proof. done. Qed.
Lemma integer_min : is_integer (i64_as_f64 I64_MIN) (- 2 ^ 63).
Proof. by vm_compute. Qed.
Lemma integer_neg_min : is_integer (f64_neg (i64_as_f64 I64_MIN)) (2 ^ 63).
Proof. by vm_compute. Qed.
Lemma integer_two_64 : is_integer (f64_pow2 64) (2 ^ 64).
Proof. destruct (pow2_exact 64) as [Hs Hv]; [lia|]. done. Qed.

(** Multiples of [2^11] below [2^64] have at most 53 significant bits. *)
Lemma small_representable z : Z.abs z <= 2 ^ 64 -> (2 ^ 11 | z) -> Z.abs z <> 2 ^ 64 -> representable (z * 2 ^ 1074).
Proof. intros Hz [q ->] Hne. apply (representable_int _ q 11); lia. Qed.

(** A finite double outside the range of [i64] is a multiple of [2^11]. *)
Lemma large_double x :
  valid x -> f64_is_finite x = true -> 2 ^ 63 * 2 ^ 1074 <= Z.abs (scaled x) ->
  exists z, is_integer x z /\ (2 ^ 11 | z).
Proof.
  intros Hx Fx Hl. destruct x as [s|s| |s m e]; try done.
  pose proof Hx as (He & Hm & _)%valid_finite. assert (11 <= e) as He'.
  { apply Z.nlt_ge. intros Hlt. revert Hl. apply Z.lt_nge. cbn [scaled].
    pose proof (magnitude_pos _ _ _ Hx) as Hp.
    replace (Z.abs (cond_Zopp s (Zpos m * 2 ^ (e + 1074)))) with (Zpos m * 2 ^ (e + 1074)) by (destruct s; cbn [cond_Zopp]; lia).
    apply (Z.lt_le_trans _ (2 ^ 53 * 2 ^ (e + 1074))).
    - apply Z.mul_lt_mono_pos_r; [apply Z.pow_pos_nonneg|]; lia.
    - rewrite <- !Z.pow_add_r by lia. apply Z.pow_le_mono_r; lia. }
  exists (cond_Zopp s (Zpos m * 2 ^ e)). split; [split_and!; [done..|]|].
  - cbn [scaled]. rewrite Z.pow_add_r, Z.mul_assoc by lia. by rewrite cond_Zopp_mul.
  - replace (2 ^ e) with (2 ^ (e - 11) * 2 ^ 11) by (rewrite <- Z.pow_add_r by lia; f_equal; lia).
    rewrite Z.mul_assoc, cond_Zopp_mul. apply Z.divide_factor_r.
Qed.

Lemma rem_divide a b c : (c | a) -> (c | b) -> (c | Z.rem a b).
Proof.
  intros Ha Hb. pose proof (Z.quot_rem' a b) as E.
  replace (Z.rem a b) with (a - b * Z.quot a b) by lia.
  apply Z.divide_sub_r; [done|]. by apply Z.divide_mul_l.
Qed.

(** The steps of the reduction modulo [2^64]. *)
Lemma reduce_large x z :
  is_integer x z -> (2 ^ 11 | z) ->
  is_integer (f64_rem x (f64_pow2 64)) (Z.rem z (2 ^ 64)).
Proof.
  intros (Hx & Fx & Sx) Hd. destruct integer_two_64 as (Hy & Fy & Sy).
  assert (Z.rem (scaled x) (scaled (f64_pow2 64)) = Z.rem z (2 ^ 64) * 2 ^ 1074) as E.
  { rewrite Sx, Sy, Z.mul_rem_distr_r by (apply Z.pow_nonzero; lia). done. }
  destruct (rem_exact x (f64_pow2 64) Hx Hy Fx Fy) as (H1 & H2 & H3).
  - rewrite Sy. pose proof unit_pos. lia.
  - rewrite E. pose proof (Z.rem_bound_abs z (2 ^ 64) ltac:(lia)).
    apply small_representable; [lia| |lia]. apply rem_divide; [done|by exists (2 ^ 53)].
  - split_and!; [done..|]. by rewrite H1.
Qed.

Lemma add_integer x y a b :
  is_integer x a -> is_integer y b -> Z.abs (a + b) < 2 ^ 64 -> (2 ^ 11 | a) -> (2 ^ 11 | b) ->
  is_integer (f64_add x y) (a + b).
Proof.
  intros (Hx & Fx & Sx) (Hy & Fy & Sy) Hb Ha Hb'.
  destruct (add_exact x y Hx Hy Fx Fy) as (H1 & H2 & H3).
  - rewrite Sx, Sy, <- Z.mul_add_distr_r. apply small_representable; [lia|by apply Z.divide_add_r|lia].
  - split_and!; [done..|]. by rewrite H1, Sx, Sy, Z.mul_add_distr_r.
Qed.

Lemma sub_integer x y a b :
  is_integer x a -> is_integer y b -> Z.abs (a - b) < 2 ^ 64 -> (2 ^ 11 | a) -> (2 ^ 11 | b) ->
  is_integer (f64_sub x y) (a - b).
Proof.
  intros (Hx & Fx & Sx) (Hy & Fy & Sy) Hb Ha Hb'.
  destruct (sub_exact x y Hx Hy Fx Fy) as (H1 & H2 & H3).
  - rewrite Sx, Sy, <- Z.mul_sub_distr_r. apply small_representable; [lia|by apply Z.divide_sub_r|lia].
  - split_and!; [done..|]. by rewrite H1, Sx, Sy, Z.mul_sub_distr_r.
Qed.

Lemma wrap_unique z w : - 2 ^ 63 <= w < 2 ^ 63 -> (2 ^ 64 | z - w) -> wrap_i64 z = w.
Proof.
  intros Hw [q Hq]. unfold wrap_i64. replace (z + 2 ^ 63) with (w + 2 ^ 63 + q * 2 ^ 64) by lia.
  rewrite Z.mod_add by lia. rewrite Z.mod_small by lia. lia.
Qed.

Lemma trunc_integer x z : is_integer x z -> trunc x = z.
Proof. intros (_ & _ & E). unfold trunc. by rewrite E, Z.quot_mul. Qed.

Lemma as_i64_integer x z : is_integer x z -> - 2 ^ 63 <= z < 2 ^ 63 -> f64_as_i64 x = z.
Proof.
  intros (Hx & Fx & E) Hz. rewrite (f64_as_i64_exact _ z) by done. unfold saturate_i64, I64_MIN, I64_MAX. lia.
Qed.

(** [float_fits_int] is the range of [i64]. *)
Lemma fits_int x :
  valid x -> f64_is_finite x = true ->
  float_fits_int x = true <-> - (2 ^ 63 * 2 ^ 1074) <= scaled x < 2 ^ 63 * 2 ^ 1074.
Proof.
  intros Hx Fx. unfold float_fits_int. rewrite Fx. cbn [andb].
  destruct integer_min as (H1 & F1 & S1). destruct integer_neg_min as (H2 & F2 & S2).
  unfold f64_ge, f64_lt, SFleb, SFltb. rewrite !compare_exact, S1, S2 by done.
  rewrite andb_true_iff. split.
  - intros [Hle Hlt]. split.
    + apply Z.nlt_ge. intros Hc. rewrite (proj2 (Z.compare_gt_iff _ _)) in Hle; [done|lia].
    + unfold Z.lt. revert Hlt. by destruct (scaled x ?= 2 ^ 63 * 2 ^ 1074).
  - intros [Hle Hlt]. split; [|by rewrite (proj2 (Z.compare_lt_iff _ _))].
    destruct (Z.compare_spec (- 2 ^ 63 * 2 ^ 1074) (scaled x)); [done..|lia].
Qed.

(** A double in the range is truncated without saturation. *)
Lemma in_range_cast x :
  valid x -> f64_is_finite x = true -> float_fits_int x = true ->
  f64_as_i64 x = trunc x /\ - 2 ^ 63 <= trunc x < 2 ^ 63.
Proof.
  intros Hx Fx [H1 H2]%fits_int; [|done..]. pose proof unit_pos as Hu. rewrite f64_as_i64_trunc by done.
  assert (- 2 ^ 63 <= trunc x < 2 ^ 63) as Hr; [|split; [unfold saturate_i64, I64_MIN, I64_MAX; lia|done]].
  unfold trunc. pose proof (Z.quot_rem' (scaled x) (2 ^ 1074)) as E.
  pose proof (Z.rem_bound_abs (scaled x) (2 ^ 1074) ltac:(lia)) as Hb.
  pose proof (Z.rem_sign_mul (scaled x) (2 ^ 1074) ltac:(lia)) as Hs.
  set (q := Z.quot _ _) in *. set (r := Z.rem _ _) in *. generalize dependent (2 ^ 1074). intros u. nia.
Qed.

(** A double outside the range goes through the reduction. *)
Lemma large_cast x z :
  is_integer x z -> (2 ^ 11 | z) -> float_fits_int x = false -> php_float_to_int x = wrap_i64 z.
Proof.
  intros Hi Hd Hn. pose proof Hi as (Hx & Fx & _). unfold php_float_to_int. rewrite Hn, Fx. cbn [negb].
  pose proof (reduce_large x z Hi Hd) as Hr. set (r := Z.rem z (2 ^ 64)) in *.
  assert (2 ^ 11 | 2 ^ 64) as H64 by (by exists (2 ^ 53)).
  assert (2 ^ 11 | r) as Hdr by (by apply rem_divide).
  assert (- 2 ^ 64 < r < 2 ^ 64) as Hb by (pose proof (Z.rem_bound_abs z (2 ^ 64) ltac:(lia)); lia).
  assert (2 ^ 64 | z - r) as Hz by (exists (Z.quot z (2 ^ 64)); pose proof (Z.quot_rem' z (2 ^ 64)); lia).
  set (m1 := f64_rem x (f64_pow2 64)) in *. clearbody m1 r.
  set (m2 := if f64_lt m1 _ then _ else m1).
  assert (exists r2, is_integer m2 r2 /\ 0 <= r2 < 2 ^ 64 /\ (2 ^ 11 | r2) /\ (2 ^ 64 | z - r2)) as (r2 & H2 & B2 & D2 & Z2).
  { subst m2. unfold f64_lt, SFltb. rewrite (integer_compare _ _ _ _ Hr integer_zero).
    destruct (Z.compare_spec r 0) as [->|Hlt|Hgt]; [by exists 0|..|by exists r; split_and!; [|lia..|done|done]].
    exists (r + 2 ^ 64). split_and!; [|lia..|by apply Z.divide_add_r|].
    - apply add_integer; [done|apply integer_two_64|lia|done|done].
    - replace (z - (r + 2 ^ 64)) with (z - r - 2 ^ 64) by lia. by apply Z.divide_sub_r. }
  clearbody m2. unfold f64_ge, SFleb. rewrite (integer_compare _ _ _ _ integer_neg_min H2).
  assert (2 ^ 63 <= r2 -> f64_as_i64 (f64_sub m2 (f64_pow2 64)) = wrap_i64 z) as H3.
  { intros Hge. assert (is_integer (f64_sub m2 (f64_pow2 64)) (r2 - 2 ^ 64)) as H3
      by (apply sub_integer; [done|apply integer_two_64|lia|done|done]).
    rewrite (as_i64_integer _ _ H3) by lia. symmetry. apply wrap_unique; [lia|].
    replace (z - (r2 - 2 ^ 64)) with (z - r2 + 2 ^ 64) by lia. by apply Z.divide_add_r. }
  destruct (Z.compare_spec (2 ^ 63) r2) as [?|?|?]; [apply H3; lia..|].
  rewrite (as_i64_integer _ _ H2) by lia. symmetry. apply wrap_unique; [lia|done].
Qed.

(** C20: casting a finite double to an integer truncates it and takes the result
    modulo [2^64] into the range of [i64], for every double however large: none
    of the floating-point steps of the reduction rounds.  NaN and the infinities
    give 0. *)
Theorem float_to_int_wraps x :
  valid x ->
  php_float_to_int x = if f64_is_finite x then wrap_i64 (trunc x) else 0.
Proof.
  intros Hx. destruct (f64_is_finite x) eqn:Fx.
  - destruct (float_fits_int x) eqn:Hf.
    + unfold php_float_to_int. rewrite Hf. destruct (in_range_cast x Hx Fx Hf) as [-> Hr].
      symmetry. apply wrap_unique; [done|]. rewrite Z.sub_diag. apply Z.divide_0_r.
    + destruct (large_double x Hx Fx) as (z & Hi & Hd).
      { apply Z.nlt_ge. intros Hlt. assert (float_fits_int x = true); [|congruence]. apply fits_int; [done|done|lia]. }
      rewrite (trunc_integer _ _ Hi). by apply large_cast.
  - unfold php_float_to_int, float_fits_int. by rewrite Fx.
Qed.

Lemma float_to_int_wraps_witness :
  php_float_to_int (S754_finite true (2 ^ 52 + 1) 12) = wrap_i64 (- (2 ^ 52 + 1) * 2 ^ 12).
Proof. etransitivity; [apply float_to_int_wraps; by vm_compute|by vm_compute]. Defined.

(** ** Rounding never gives NaN *)

Lemma shr_1_nonneg r : 0 <= shr_m r -> 0 <= shr_m (shr_1 r).
Proof. destruct r as [[|[p|p|]|[p|p|]] b s]; cbn; lia. Qed.

Lemma shr_nonneg r e n : 0 <= shr_m r -> 0 <= shr_m (shr r e n).1.
Proof.
  intros Hr. destruct n as [|p|p]; cbn [shr fst]; try done. revert r Hr.
  induction p as [p IH|p IH|]; intros r Hr; cbn [SpecFloat.iter_pos]; [|auto|by apply shr_1_nonneg].
  by apply IH, IH, shr_1_nonneg.
Qed.

Lemma shr_fexp_nonneg m e l : 0 <= m -> 0 <= shr_m (shr_fexp 53 1024 m e l).1.
Proof. intros Hm. apply shr_nonneg. by destruct l as [|[]]. Qed.

Lemma round_aux_not_nan s m e l : 0 <= m -> f64_is_nan (binary_round_aux 53 1024 s m e l) = false.
Proof.
  intros Hm. unfold binary_round_aux. pose proof (shr_fexp_nonneg m e l Hm) as H1.
  destruct (shr_fexp 53 1024 m e l) as [r e']. cbn [fst] in H1.
  set (m' := round_nearest_even _ _). assert (0 <= m') as Hm' by (subst m'; unfold round_nearest_even; repeat case_match; lia).
  pose proof (shr_fexp_nonneg m' e' loc_Exact Hm') as H2. destruct (shr_fexp 53 1024 m' e' loc_Exact) as [r' e''].
  cbn [fst] in H2. destruct (shr_m r') as [|p|p]; [done|by case_match|lia].
Qed.

Lemma div_core_nonneg m1 e1 m2 e2 : 0 <= m1 -> 0 < m2 -> 0 <= (SFdiv_core_binary 53 1024 m1 e1 m2 e2).1.1.
Proof.
  intros H1 H2. unfold SFdiv_core_binary. set (m' := match _ with Z0 => _ | Zpos _ => _ | Zneg _ => _ end).
  assert (0 <= m') as Hm' by (subst m'; case_match; rewrite ?Z.shiftl_nonneg; lia).
  pose proof (Z.div_pos m' m2 Hm' H2) as Hq. unfold Z.div in Hq.
  by destruct (Z.div_eucl m' m2) as [q r].
Qed.

Lemma round_decimal_not_nan s m e : 0 <= m -> f64_is_nan (round_decimal s m e) = false.
Proof.
  intros Hm. unfold round_decimal. destruct (m =? 0); [done|].
  destruct (0 <=? e) eqn:E; [apply Z.leb_le in E|apply Z.leb_gt in E].
  - pose proof (Z.pow_nonneg 10 e ltac:(lia)). pose proof (div_core_nonneg (m * 10 ^ e) 0 1 0 ltac:(nia) ltac:(lia)) as Hq.
    destruct (SFdiv_core_binary _ _ _ _ _ _) as [[q e'] l]. by apply round_aux_not_nan.
  - pose proof (Z.pow_pos_nonneg 10 (- e) ltac:(lia) ltac:(lia)) as Hp.
    pose proof (div_core_nonneg m 0 (10 ^ (- e)) 0 ltac:(lia) Hp) as Hq.
    destruct (SFdiv_core_binary _ _ _ _ _ _) as [[q e'] l]. by apply round_aux_not_nan.
Qed.

Lemma i64_as_f64_not_nan n : f64_is_nan (i64_as_f64 n) = false.
Proof.
  unfold i64_as_f64, binary_normalize, binary_round. destruct n as [|p|p]; [done|..].
  all: destruct (shl_align _ _ _) as [mz ez]; by apply round_aux_not_nan.
Qed.

(** The number of a numeric string is not NaN. *)
Lemma classified_not_nan l n x : classified l n -> NumericString.value n = Some (VFloat x) -> f64_is_nan x = false.
Proof.
  intros [Hn|w s i f e r n' El Hw Hs Hi Hf He Hne Hmax Hv _ _]; [done|]. rewrite Hv.
  assert (f64_is_nan (number_value s i f e) = false) as Hnn.
  { apply round_decimal_not_nan. apply digits_val_bound. rewrite forallb_app, Hi.
    destruct Hf; cbn; [done|]. done. }
  unfold numeric_value. repeat case_match; cbn [parsed_value]; congruence.
Qed.
