(* ===== verification/Compare.v ===== *)
(** * Compare: identity, loose equality and loose order of values

    [php_runtime/src/convert.rs], [identical], [equal], [compare] and the
    functions on arrays and objects that they call.  The three functions recurse
    through references, elements and properties; [depth] bounds that recursion. *)

From Stdlib Require Import Strings.String Strings.Byte ZArith Floats.SpecFloat.
From stdpp Require Import base list option numbers gmap fin_maps.
From S2P Require Import Prelude RustStd RustNum RustFloat FloatText Simd PhpString NumericString PhpArray Convert.

(** The equality that [CallableValue] derives. *)
Class CallableEq (C : Type) := callable_eqb : C -> C -> bool.

(** [iter.zip(iter).all(p)] *)
Fixpoint zip_all {A} (p : A -> A -> outcome bool) (l r : list A) : outcome bool :=
  match l, r with
  | x :: l, y :: r => olet b := p x y in if b then zip_all p l r else Ret false
  | _, _ => Ret true
  end.

Definition key_eqb (l r : ArrayKey) : bool := bool_decide (l = r).

Section Compare.
Context {C : Type} `{CallableEq C} (bk : backend) `{FloatEnv} (st : Store C).

(** ** Numbers and strings *)

Definition comparison_numeric_string (l : bytes) : outcome (option NumericValue) :=
  olet n := classify bk l in
  Ret (match kind n with
       | IntString | FloatString => number_of <$> NumericString.value n
       | _ => None
       end).

Definition compare_numbers (l r : NumericValue) : Res comparison :=
  match l, r with
  | NInt a, NInt b => ok (a ?= b)%Z
  | _, _ =>
      if f64_is_nan (number_as_f64 l) || f64_is_nan (number_as_f64 r) then ok Gt
      else match f64_partial_cmp (number_as_f64 l) (number_as_f64 r) with
           | Some c => ok c
           | None => err "cannot compare NaN numeric values"
           end
  end.

Definition is_nan_number (v : Value C) : bool :=
  match v with Float x => f64_is_nan x | _ => false end.

(** The operands are one string and one number; the last case is
    [unreachable!]. *)
Definition compare_number_and_string (depth : nat) (l r : Value C) : Res comparison :=
  match l, r with
  | Str string, number =>
      olet n := comparison_numeric_string string in
      match n with
      | Some n => rlet m := to_number bk st depth number in compare_numbers n m
      | None =>
          if is_nan_number number then ok Gt
          else rlet text := to_string st depth number in ok (bytes_cmp string text)
      end
  | number, Str string =>
      olet n := comparison_numeric_string string in
      match n with
      | Some n => rlet m := to_number bk st depth number in compare_numbers m n
      | None =>
          if is_nan_number number then ok Gt
          else rlet text := to_string st depth number in ok (bytes_cmp text string)
      end
  | _, _ => Panic
  end.

Definition compare_array_keys (l r : ArrayKey) : comparison :=
  match l, r with
  | KInt a, KInt b => (a ?= b)%Z
  | KString a, KString b => bytes_cmp a b
  | KInt _, KString _ => Lt
  | KString _, KInt _ => Gt
  end.

Definition type_name (v : Value C) : string :=
  match v with
  | Null => "null" | Bool _ => "bool" | Int _ => "int" | Float _ => "float" | Str _ => "string"
  | Uninitialized => "uninitialized" | Array _ => "array"
  | Object _ | Fiber _ | Generator _ => "object"
  | Resource _ => "resource" | Callable _ => "callable" | Reference _ => "reference"
  end%string.

(** ** Identity *)

Definition arrays_identical (identical : Value C -> Value C -> outcome bool) (l r : ArrayStorage (V := Value C)) :
    outcome bool :=
  if len l =? len r then
    zip_all (fun p q => if key_eqb p.1 q.1 then identical p.2 q.2 else Ret false) (iter l) (iter r)
  else Ret false.

Fixpoint identical (depth : nat) (l r : Value C) : outcome bool :=
  match depth with
  | O => Timeout
  | S depth =>
      match l, r with
      | Null, Null => Ret true
      | Bool a, Bool b => Ret (Bool.eqb a b)
      | Int a, Int b => Ret (a =? b)%Z
      | Float x, Float y => Ret (f64_eq x y)
      | Str a, Str b => Ret (bytes_eqb a b)
      | Array a, Array b => arrays_identical (identical depth) a b
      | Object a, Object b | Resource a, Resource b => Ret (a =? b)%N
      | Callable a, Callable b => Ret (callable_eqb a b)
      | Reference a, Reference b =>
          if (a =? b)%N then Ret true else olet v := deref st a in identical depth v r
      | Reference a, _ => olet v := deref st a in identical depth v r
      | _, Reference b => olet v := deref st b in identical depth l v
      | _, _ => Ret false
      end
  end.

(** ** Arrays and objects, given the comparisons of their parts *)

Section Parts.
Context (equal : Value C -> Value C -> Res bool) (compare : Value C -> Value C -> Res comparison).

Fixpoint arrays_equal_loop (l : list (ArrayKey * Value C)) (r : ArrayStorage (V := Value C)) : Res bool :=
  match l with
  | [] => ok true
  | (k, v) :: l =>
      match get r k with
      | None => ok false
      | Some w => rlet b := equal v w in if b then arrays_equal_loop l r else ok false
      end
  end.
Definition arrays_equal (l r : ArrayStorage (V := Value C)) : Res bool :=
  if len l =? len r then arrays_equal_loop (iter l) r else ok false.

Fixpoint arrays_compare_loop (l : list (ArrayKey * Value C)) (r : ArrayStorage (V := Value C)) : Res comparison :=
  match l with
  | [] => ok Eq
  | (k, v) :: l =>
      match get r k with
      | None =>
          match iter r with
          | (first, _) :: _ => ok (compare_array_keys k first)
          | [] => Panic
          end
      | Some w => rlet c := compare v w in
                  match c with Eq => arrays_compare_loop l r | c => ok c end
      end
  end.
Definition arrays_compare (l r : ArrayStorage (V := Value C)) : Res comparison :=
  match len l ?= len r with
  | Eq => arrays_compare_loop (iter l) r
  | c => ok c
  end.

Fixpoint properties_equal (l r : list (bytes * Value C)) : Res bool :=
  match l, r with
  | (n, v) :: l, (m, w) :: r =>
      if bytes_eqb n m then rlet b := equal v w in if b then properties_equal l r else ok false
      else ok false
  | _, _ => ok true
  end.
Definition objects_equal (l r : N) : Res bool :=
  if (l =? r)%N then ok true
  else
    olet lo := object st l in
    olet ro := object st r in
    if negb (bytes_eqb (class_name lo) (class_name ro)) then ok false
    else
      let left := properties_snapshot lo in
      let right := properties_snapshot ro in
      if length left =? length right then properties_equal left right else ok false.

Fixpoint properties_compare (l r : list (bytes * Value C)) : Res comparison :=
  match l, r with
  | (n, v) :: l, (m, w) :: r =>
      match bytes_cmp n m with
      | Eq => rlet c := compare v w in
              match c with Eq => properties_compare l r | c => ok c end
      | c => ok c
      end
  | _, _ => ok Eq
  end.
Definition objects_compare (l r : N) : Res comparison :=
  rlet same := objects_equal l r in
  if same then ok Eq
  else
    olet lo := object st l in
    olet ro := object st r in
    match bytes_cmp (class_name lo) (class_name ro) with
    | Eq =>
        let left := properties_snapshot lo in
        let right := properties_snapshot ro in
        match length left ?= length right with
        | Eq => properties_compare left right
        | c => ok c
        end
    | c => ok c
    end.
End Parts.

(** ** Loose equality and order *)

Definition is_eq (c : comparison) : bool := match c with Eq => true | _ => false end.

(** [to_bool(left)?.cmp(&to_bool(right)?)] *)
Definition compare_bools (depth : nat) (l r : Value C) : Res comparison :=
  rlet a := to_bool st depth l in rlet b := to_bool st depth r in ok (bool_cmp a b).

Definition not_implemented (l r : Value C) : string :=
  ("loose comparison is not implemented for " ++ type_name l ++ " and " ++ type_name r)%string.

(** The bodies of [equal] and [compare], given the recursive calls. *)
Definition equal_step (equal : Value C -> Value C -> Res bool) (compare : Value C -> Value C -> Res comparison)
    (l r : Value C) : Res bool :=
  match l, r with
  | (Bool _ | Null), _ | _, (Bool _ | Null) => rmap is_eq (compare l r)
  | Array a, Array b => arrays_equal equal a b
  | Array _, _ | _, Array _ => ok false
  | Object a, Object b => objects_equal equal a b
  | Object _, _ | _, Object _ => ok false
  | Resource a, Resource b => ok (a =? b)%N
  | Resource _, _ | _, Resource _ => ok false
  | Reference a, Reference b =>
      if (a =? b)%N then ok true else olet v := deref st a in equal v r
  | Reference a, _ => olet v := deref st a in equal v r
  | _, Reference b => olet v := deref st b in equal l v
  | _, _ => rmap is_eq (compare l r)
  end.

Definition compare_step (equal : Value C -> Value C -> Res bool) (compare : Value C -> Value C -> Res comparison)
    (depth : nat) (l r : Value C) : Res comparison :=
  match l, r with
  | Reference a, Reference b =>
      if (a =? b)%N then ok Eq else olet v := deref st a in compare v r
  | Reference a, _ => olet v := deref st a in compare v r
  | _, Reference b => olet v := deref st b in compare l v
  | Str a, Str b =>
      olet n := comparison_numeric_string a in
      olet m := comparison_numeric_string b in
      match n, m with
      | Some n, Some m => compare_numbers n m
      | _, _ => ok (bytes_cmp a b)
      end
  | Bool _, _ | _, Bool _ => compare_bools depth l r
  | Null, Str b => ok (bytes_cmp [] b)
  | Str a, Null => ok (bytes_cmp a [])
  | Null, _ | _, Null => compare_bools depth l r
  | (Int _ | Float _), (Int _ | Float _) =>
      rlet n := to_number bk st depth l in
      rlet m := to_number bk st depth r in compare_numbers n m
  | Str _, (Int _ | Float _) | (Int _ | Float _), Str _ => compare_number_and_string depth l r
  | Array a, Array b => arrays_compare compare a b
  | Array _, _ => ok Gt
  | _, Array _ => ok Lt
  | Object a, Object b => objects_compare equal compare a b
  | Object _, _ => ok Gt
  | _, Object _ => ok Lt
  | Resource a, Resource b => ok (a ?= b)%N
  | Resource _, _ => ok Gt
  | _, Resource _ => ok Lt
  | _, _ => err (not_implemented l r)
  end.

Fixpoint equal (depth : nat) (l r : Value C) : Res bool :=
  match depth with
  | O => Timeout
  | S depth => equal_step (equal depth) (compare depth) l r
  end
with compare (depth : nat) (l r : Value C) : Res comparison :=
  match depth with
  | O => Timeout
  | S depth' => compare_step (equal depth') (compare depth') depth l r
  end.

(** [numeric_comparison_is_unordered] *)
Fixpoint numeric_comparison_is_unordered (depth : nat) (l r : Value C) : outcome bool :=
  match depth with
  | O => Timeout
  | S depth =>
      match l, r with
      | Reference a, _ => olet v := deref st a in numeric_comparison_is_unordered depth v r
      | _, Reference b => olet v := deref st b in numeric_comparison_is_unordered depth l v
      | (Int _ | Float _), (Int _ | Float _ | Str _) | Str _, (Int _ | Float _) =>
          Ret (is_nan_number l || is_nan_number r)
      | _, _ => Ret false
      end
  end.
End Compare.
