(* ===== verification/CompareProofs.v ===== *)
(** * CompareProofs: the comparisons of values return and agree

    [wf] is the well-formedness of a value of limited depth in a store: handles
    point to something, arrays are consistent, numbers are in range.  On such
    values the recursive comparisons return, with any sufficient bound on the
    depth the same result. *)

From Stdlib Require Import Strings.String Strings.Byte ZArith Floats.SpecFloat.
From stdpp Require Import base list option numbers gmap fin_maps.
From S2P Require Import Prelude RustStd RustNum RustFloat FloatText Simd ByteKernel ByteKernelProofs PhpString NumericString NumericStringProofs PhpArray PhpArrayProofs PhpArraySpec PhpArrayClaims Convert ConvertProofs Compare.

(** ** Results that do not depend on the bound *)

Definition settles {A} (D : nat) (f : nat -> outcome A) : Prop :=
  exists a, forall d, D <= d -> f d = Ret a.

Lemma settles_ret {A} D (a : A) : settles D (fun _ => Ret a).
Proof. by exists a. Qed.

Lemma settles_mono {A} D D' (f : nat -> outcome A) : settles D f -> D <= D' -> settles D' f.
Proof. intros [a Ha] HD. exists a. intros d Hd. apply Ha. lia. Qed.

Lemma settles_S {A} D (f : nat -> outcome A) : settles D (fun d => f (S d)) -> settles (S D) f.
Proof. intros [a Ha]. exists a. intros [|d] Hd; [lia|]. apply Ha. lia. Qed.

Lemma settles_obind {A B} D (f : nat -> outcome A) (g : A -> nat -> outcome B) :
  settles D f -> (forall a, settles D (g a)) -> settles D (fun d => obind (f d) (fun a => g a d)).
Proof.
  intros [a Ha] Hg. destruct (Hg a) as [b Hb]. exists b. intros d Hd. rewrite Ha by done. by apply Hb.
Qed.

Lemma settles_rbind {A B} D (f : nat -> Res A) (g : A -> nat -> Res B) :
  settles D f -> (forall a, settles D (g a)) -> settles D (fun d => rbind (f d) (fun a => g a d)).
Proof.
  intros Hf Hg. apply (settles_obind D f (fun r d => match r with Ok a => g a d | Err e => Ret (Err e) end)); [done|].
  intros [a|e]; [apply Hg | apply settles_ret].
Qed.

Lemma settles_rmap {A B} D (h : A -> B) (f : nat -> Res A) : settles D f -> settles D (fun d => rmap h (f d)).
Proof. intros Hf. apply settles_rbind; [done|]. intros a. apply settles_ret. Qed.

(** ** Well-formed values *)

Section Wf.
Context {C : Type} `{KeyClassifier} (st : Store C).

(** [P] is a condition on every part of the value. *)
Fixpoint wf (P : Value C -> Prop) (n : nat) (v : Value C) : Prop :=
  match n with
  | O => False
  | S n =>
      P v /\
      match v with
      | Int z => in_i64 z = true
      | Float x => valid x
      | Array a => array_ok a /\ Forall (fun p => wf P n p.2) (iter a)
      | Object id => exists o, objects st !! id = Some o /\ Forall (fun p => wf P n p.2) (properties_snapshot o)
      | Reference c => exists w, cells st !! c = Some w /\ wf P n w
      | _ => True
      end
  end.

Lemma wf_S P n v : wf P n v -> wf P (S n) v.
Proof.
  revert v. induction n as [|n IH]; intros v Hv; [done|]. destruct Hv as [HP Hv].
  split; [done|]. destruct v as [| | | | | |a|o| | | | |c]; try done.
  - destruct Hv as [Ha Hf]. split; [done|]. eapply Forall_impl; [exact Hf|]. intros p. apply IH.
  - destruct Hv as (s & E & Hf). exists s. split; [done|]. eapply Forall_impl; [exact Hf|]. intros p. apply IH.
  - destruct Hv as (w & E & Hw). exists w. split; [done|]. by apply IH.
Qed.

Lemma get_elem (a : ArrayStorage (V := Value C)) k w : array_ok a -> get a k = Some w -> (k, w) ∈ iter a.
Proof.
  intros Ha. rewrite get_ok by done. unfold lookup_key. destruct (find_pos k (iter a)) as [i|] eqn:E; [|done].
  apply position_Some in E as [(p & Ei & Hp) _]. rewrite Ei. cbn. intros [= <-].
  apply bool_decide_eq_true in Hp as <-. rewrite <- surjective_pairing. by eapply list_elem_of_lookup_2.
Qed.

Lemma get_wf P n (a : ArrayStorage (V := Value C)) k w :
  array_ok a -> Forall (fun p => wf P n p.2) (iter a) -> get a k = Some w -> wf P n w.
Proof.
  intros Ha Hf Hg. apply (get_elem _ _ _ Ha) in Hg.
  by apply (proj1 (Forall_forall _ _) Hf (k, w)).
Qed.

Lemma len_pairs (a : ArrayStorage (V := Value C)) : array_ok a -> len a = length (iter a).
Proof. intros Ha. eapply len_iter. by apply layout_consistent. Qed.
End Wf.

(** ** The conversions return *)

Section Total.
Context {C : Type} `{CallableEq C} (bk : backend) `{FloatEnvLaws} `{KeyClassifier} (st : Store C).

Lemma classify_returns l : exists n, classify bk l = Ret n.
Proof. destruct (classify_classified bk l) as (n & E & _). by exists n. Qed.

Lemma numeric_string_returns l : exists n, comparison_numeric_string bk l = Ret n.
Proof.
  destruct (classify_returns l) as [n E]. unfold comparison_numeric_string. rewrite E. by eexists.
Qed.

Lemma arithmetic_string_returns l : exists r, arithmetic_numeric_string bk l = Ret r.
Proof.
  destruct (classify_returns l) as [n E].
  unfold arithmetic_numeric_string, arithmetic_numeric_string_with_warning, rmap, rbind. rewrite E. cbn [obind].
  destruct (kind n), (NumericString.value n); by eexists.
Qed.

(** A conversion that follows references returns as soon as the bound is the
    depth of the value. *)
Ltac settle_value IH :=
  match goal with
  | Hv : wf st _ (S _) (Reference _) |- _ =>
      destruct Hv as (_ & w & E & Hw); destruct (IH w Hw) as [r Hr]; exists r; intros [|d] Hd; [lia|];
      cbn; unfold deref; rewrite E; cbn; apply Hr; lia
  | _ => eexists; intros [|d] Hd; [lia|]; reflexivity
  end.

Lemma to_bool_settles P n v : wf st P n v -> settles n (fun d => to_bool st d v).
Proof.
  revert v. induction n as [|n IH]; intros v Hv; [done|]. destruct v; settle_value IH.
Qed.

Lemma to_string_settles P n v : wf st P n v -> settles n (fun d => to_string st d v).
Proof.
  revert v. induction n as [|n IH]; intros v Hv; [done|]. destruct v as [|[]| |x| | | | | | | | |];
    try settle_value IH.
  destruct Hv as [_ Hx]. destruct (float_text_returns x Hx) as (l & E & _).
  eexists. intros [|d] Hd; [lia|]. cbn. rewrite E. reflexivity.
Qed.

Lemma to_number_settles P n v : wf st P n v -> settles n (fun d => to_number bk st d v).
Proof.
  revert v. induction n as [|n IH]; intros v Hv; [done|]. destruct v as [|[]| | |l| | | | | | | |];
    try settle_value IH.
  destruct (arithmetic_string_returns l) as [r Er]. exists r. intros [|d] Hd; [lia|]. exact Er.
Qed.

Lemma compare_numbers_returns x y : exists r, compare_numbers x y = Ret r.
Proof. unfold compare_numbers. repeat case_match; by eexists. Qed.

Lemma numbers_settle D x y : settles D (fun _ => compare_numbers x y).
Proof. destruct (compare_numbers_returns x y) as [r E]. exists r. by intros. Qed.

Lemma compare_bools_settles P n m l r D :
  wf st P n l -> wf st P m r -> n <= D -> m <= D -> settles D (fun d => compare_bools st d l r).
Proof.
  intros Hl Hr Hn Hm. unfold compare_bools. apply settles_rbind.
  { eapply settles_mono; [by eapply to_bool_settles|done]. }
  intros a. apply settles_rbind; [|intros b; apply settles_ret].
  eapply settles_mono; [by eapply to_bool_settles|done].
Qed.

Lemma number_and_string_settles P n m l r D :
  wf st P n l -> wf st P m r -> n <= D -> m <= D ->
  (exists s, l = Str s) \/ (exists s, r = Str s) ->
  settles D (fun d => compare_number_and_string bk st d l r).
Proof.
  intros Hl Hr Hn Hm Hs.
  assert (forall s k v (f : NumericValue -> NumericValue -> Res comparison) (g : bytes -> comparison), k <= D -> wf st P k v ->
    (forall x y, exists c, f x y = Ret c) ->
    settles D (fun d => obind (comparison_numeric_string bk s) (fun n =>
      match n with
      | Some n => rbind (to_number bk st d v) (fun m => f n m)
      | None => if is_nan_number v then ok Gt else rbind (to_string st d v) (fun text => ok (g text))
      end))) as Hgen.
  { intros s k v f g Hk Hv Hf. destruct (numeric_string_returns s) as [x Ex].
    apply settles_obind; [by exists x|]. intros [y|].
    - apply settles_rbind; [eapply settles_mono; [by eapply to_number_settles|done]|].
      intros z. destruct (Hf y z) as [c Ec]. by exists c.
    - destruct (is_nan_number v); [apply settles_ret|].
      apply settles_rbind; [eapply settles_mono; [by eapply to_string_settles|done]|]. intros t. apply settles_ret. }
  unfold compare_number_and_string.
  destruct l; try (destruct Hs as [[s ?]|[s ->]]; [done|]);
    try (refine (Hgen _ _ _ (fun n m => compare_numbers m n) (fun text => bytes_cmp text _) Hn Hl _);
         intros; apply compare_numbers_returns).
  refine (Hgen _ _ _ compare_numbers (fun text => bytes_cmp _ text) Hm Hr _). intros. apply compare_numbers_returns.
Qed.

(** ** The loops over elements and properties return *)

Section Loops.
Context (D : nat) (f : nat -> Value C -> Value C -> Res bool) (g : nat -> Value C -> Value C -> Res comparison).

Lemma arrays_equal_loop_settles l r :
  (forall k v w, (k, v) ∈ l -> get r k = Some w -> settles D (fun d => f d v w)) ->
  settles D (fun d => arrays_equal_loop (f d) l r).
Proof.
  induction l as [|[k v] l IH]; intros Hf; cbn [arrays_equal_loop]; [apply settles_ret|].
  destruct (get r k) as [w|] eqn:E; [|apply settles_ret].
  apply settles_rbind; [eapply Hf; [by left|done]|]. intros []; [|apply settles_ret].
  apply IH. intros k' v' w' Hin. apply (Hf k'). by right.
Qed.

Lemma arrays_compare_loop_settles l r :
  (l <> [] -> iter r <> []) ->
  (forall k v w, (k, v) ∈ l -> get r k = Some w -> settles D (fun d => g d v w)) ->
  settles D (fun d => arrays_compare_loop (g d) l r).
Proof.
  induction l as [|[k v] l IH]; intros Hne Hg; cbn [arrays_compare_loop]; [apply settles_ret|].
  specialize (Hne ltac:(done)). destruct (get r k) as [w|] eqn:E.
  - apply settles_rbind; [eapply Hg; [by left|done]|]. intros []; try apply settles_ret.
    apply IH; [done|]. intros k' v' w' Hin. apply (Hg k'). by right.
  - destruct (iter r) as [|[k0 v0] rest]; [done|]. apply settles_ret.
Qed.

Lemma properties_equal_settles l r :
  (forall n v m w, (n, v) ∈ l -> (m, w) ∈ r -> settles D (fun d => f d v w)) ->
  settles D (fun d => properties_equal (f d) l r).
Proof.
  revert r. induction l as [|[n v] l IH]; intros [|[m w] r] Hf; cbn [properties_equal]; try apply settles_ret.
  destruct (bytes_eqb n m); [|apply settles_ret]. apply settles_rbind; [eapply Hf; by left|].
  intros []; [|apply settles_ret]. apply IH. intros n' v' m' w' Hl Hr. apply (Hf n' v' m' w'); by right.
Qed.

Lemma properties_compare_settles l r :
  (forall n v m w, (n, v) ∈ l -> (m, w) ∈ r -> settles D (fun d => g d v w)) ->
  settles D (fun d => properties_compare (g d) l r).
Proof.
  revert r. induction l as [|[n v] l IH]; intros [|[m w] r] Hg; cbn [properties_compare]; try apply settles_ret.
  destruct (bytes_cmp n m); try apply settles_ret. apply settles_rbind; [eapply Hg; by left|].
  intros []; try apply settles_ret. apply IH. intros n' v' m' w' Hl Hr. apply (Hg n' v' m' w'); by right.
Qed.

Lemma zip_all_settles {A} (h : nat -> A -> A -> outcome bool) l r :
  (forall x y, x ∈ l -> y ∈ r -> settles D (fun d => h d x y)) -> settles D (fun d => zip_all (h d) l r).
Proof.
  revert r. induction l as [|x l IH]; intros [|y r] Hh; cbn [zip_all]; try apply settles_ret.
  apply settles_obind; [apply Hh; by left|]. intros []; [|apply settles_ret].
  apply IH. intros x' y' Hx Hy. apply Hh; by right.
Qed.
End Loops.

Lemma object_settles {A} D id o (k : ObjectStorage C -> nat -> outcome A) :
  objects st !! id = Some o -> settles D (k o) -> settles D (fun d => obind (object st id) (fun x => k x d)).
Proof. intros E Hk. unfold object. by rewrite E. Qed.

Lemma deref_settles {A} D c v (k : Value C -> nat -> outcome A) :
  cells st !! c = Some v -> settles D (k v) -> settles D (fun d => obind (deref st c) (fun x => k x d)).
Proof. intros E Hk. unfold deref. by rewrite E. Qed.

(** ** Identity returns *)

Lemma identical_settles P n l m r : wf st P n l -> wf st P m r -> settles (n + m) (fun d => identical st d l r).
Proof.
  remember (n + m) as k eqn:Ek. revert n m l r Ek. induction k as [|k IH]; intros n m l r Ek Hl Hr.
  { destruct n; [done|lia]. }
  destruct n as [|n]; [done|]. destruct m as [|m]; [done|]. apply settles_S.
  assert (forall c, l = Reference c -> settles k (fun d => obind (deref st c) (fun v => identical st d v r))) as Hleft.
  { intros c ->. destruct Hl as (_ & w & E & Hw). eapply deref_settles; [done|]. apply (IH n (S m)); [lia|done..]. }
  assert (forall c, r = Reference c -> settles k (fun d => obind (deref st c) (fun v => identical st d l v))) as Hright.
  { intros c ->. destruct Hr as (_ & w & E & Hw). eapply deref_settles; [done|]. apply (IH (S n) m); [lia|done..]. }
  destruct l as [| | | | | |al| | | | | |cl]; destruct r as [| | | | | |ar| | | | | |cr]; cbn [identical];
    try apply settles_ret; try (apply Hright; reflexivity); try (apply Hleft; reflexivity).
  - destruct Hl as (_ & Ha & Fa). destruct Hr as (_ & Hb & Fb).
    unfold arrays_identical. case_match; [|apply settles_ret]. apply zip_all_settles. intros [k1 v1] [k2 v2] H1' H2'.
    cbn [fst snd]. case_match; [|apply settles_ret].
    assert (wf st P n v1) as W1 by (by apply (proj1 (Forall_forall _ _) Fa (k1, v1))).
    assert (wf st P m v2) as W2 by (by apply (proj1 (Forall_forall _ _) Fb (k2, v2))).
    apply wf_S in W1. apply (IH (S n) m); [lia|done|done].
  - case_match; [apply settles_ret|]. apply Hleft. reflexivity.
Qed.

(** ** Loose equality and order return *)

Section Step.
Context (P : Value C -> Prop) (n m D : nat)
        (f : nat -> Value C -> Value C -> Res bool) (g : nat -> Value C -> Value C -> Res comparison).
Context (Hf : forall v w, wf st P n v -> wf st P m w -> settles D (fun d => f d v w)).
Context (Hg : forall v w, wf st P n v -> wf st P m w -> settles D (fun d => g d v w)).

Lemma arrays_equal_settles a b :
  wf st P (S n) (Array a) -> wf st P (S m) (Array b) -> settles D (fun d => arrays_equal (f d) a b).
Proof.
  intros (_ & Ha & Fa) (_ & Hb & Fb). unfold arrays_equal. case_match; [|apply settles_ret].
  apply arrays_equal_loop_settles. intros k v w Hin Hget.
  apply Hf; [by apply (proj1 (Forall_forall _ _) Fa (k, v)) | by eapply get_wf].
Qed.

Lemma arrays_compare_settles a b :
  wf st P (S n) (Array a) -> wf st P (S m) (Array b) -> settles D (fun d => arrays_compare (g d) a b).
Proof.
  intros (_ & Ha & Fa) (_ & Hb & Fb). unfold arrays_compare.
  destruct (Nat.compare_spec (len a) (len b)) as [E|?|?]; [|apply settles_ret..].
  apply arrays_compare_loop_settles.
  - rewrite !len_pairs in E by done. intros Hne Hnil. rewrite Hnil in E. by destruct (iter a).
  - intros k v w Hin Hget. apply Hg; [by apply (proj1 (Forall_forall _ _) Fa (k, v)) | by eapply get_wf].
Qed.

Lemma objects_equal_settles a b :
  wf st P (S n) (Object a) -> wf st P (S m) (Object b) -> settles D (fun d => objects_equal st (f d) a b).
Proof.
  intros (_ & oa & Ea & Fa) (_ & ob & Eb & Fb). unfold objects_equal. case_match; [apply settles_ret|].
  eapply object_settles; [done|]. eapply object_settles; [done|]. case_match; [apply settles_ret|].
  case_match; [|apply settles_ret]. apply properties_equal_settles. intros x v y w Hv Hw.
  apply Hf; [by apply (proj1 (Forall_forall _ _) Fa (x, v)) | by apply (proj1 (Forall_forall _ _) Fb (y, w))].
Qed.

Lemma objects_compare_settles a b :
  wf st P (S n) (Object a) -> wf st P (S m) (Object b) ->
  settles D (fun d => objects_compare st (f d) (g d) a b).
Proof.
  intros Ha Hb. unfold objects_compare. apply settles_rbind; [by apply objects_equal_settles|].
  intros []; [apply settles_ret|]. destruct Ha as (_ & oa & Ea & Fa). destruct Hb as (_ & ob & Eb & Fb).
  eapply object_settles; [done|]. eapply object_settles; [done|]. case_match; try apply settles_ret.
  case_match; try apply settles_ret. apply properties_compare_settles. intros x v y w Hv Hw.
  apply Hg; [by apply (proj1 (Forall_forall _ _) Fa (x, v)) | by apply (proj1 (Forall_forall _ _) Fb (y, w))].
Qed.
Lemma compare_step_settles l r :
  n + m <= D -> wf st P (S n) l -> wf st P (S m) r ->
  (forall c, l = Reference c -> settles D (fun d => obind (deref st c) (fun v => g d v r))) ->
  (forall c, r = Reference c -> settles D (fun d => obind (deref st c) (fun v => g d l v))) ->
  settles D (fun d => compare_step bk st (f d) (g d) (S d) l r).
Proof.
  intros HD Hl Hr Hleft Hright.
  assert (settles D (fun d => compare_bools st (S d) l r)) as Hb.
  { destruct (compare_bools_settles P (S n) (S m) l r (S (n + m)) Hl Hr) as [c Hc]; [lia..|].
    exists c. intros d Hd. apply Hc. lia. }
  assert ((exists s, l = Str s) \/ (exists s, r = Str s) ->
          settles D (fun d => compare_number_and_string bk st (S d) l r)) as Hs.
  { intros Hs. destruct (number_and_string_settles P (S n) (S m) l r (S (n + m)) Hl Hr) as [c Hc]; [lia..|done|].
    exists c. intros d Hd. apply Hc. lia. }
  destruct l as [| | | |sl| |al|ol| | | | |cl]; destruct r as [| | | |sr| |ar|or| | | | |cr]; cbn [compare_step];
    try apply settles_ret; try exact Hb; try (apply Hs; by eauto);
    try (by apply Hright); try (by apply Hleft);
    try (cbn [to_number rbind obind ok]; apply numbers_settle).
  - destruct (numeric_string_returns sl) as [x Ex]. destruct (numeric_string_returns sr) as [y Ey].
    rewrite Ex, Ey. cbn [obind]. destruct x, y; try apply settles_ret. apply numbers_settle.
  - by apply arrays_compare_settles.
  - by apply objects_compare_settles.
  - case_match; [apply settles_ret|]. by apply Hleft.
Qed.
End Step.

Lemma comparisons_settle P k : forall n m l r,
  n + m <= k -> wf st P n l -> wf st P m r ->
  settles (2 * k) (fun d => compare bk st d l r) /\ settles (2 * k + 1) (fun d => equal bk st d l r).
Proof.
  induction k as [|k IH]; intros n m l r Hk Hl Hr; [destruct n; [done|lia]|].
  destruct n as [|n]; [done|]. destruct m as [|m]; [done|].
  assert (forall c, l = Reference c ->
            settles (2 * k) (fun d => obind (deref st c) (fun v => compare bk st d v r)) /\
            settles (2 * k + 1) (fun d => obind (deref st c) (fun v => equal bk st d v r))) as Hleft.
  { intros c ->. destruct Hl as (_ & w & E & Hw).
    destruct (IH n (S m) w r) as [Hc He]; [lia|done..|]. split; by eapply deref_settles. }
  assert (forall c, r = Reference c ->
            settles (2 * k) (fun d => obind (deref st c) (fun v => compare bk st d l v)) /\
            settles (2 * k + 1) (fun d => obind (deref st c) (fun v => equal bk st d l v))) as Hright.
  { intros c ->. destruct Hr as (_ & w & E & Hw).
    destruct (IH (S n) m l w) as [Hc He]; [lia|done..|]. split; by eapply deref_settles. }
  assert (forall v w, wf st P n v -> wf st P m w -> settles (2 * k + 1) (fun d => equal bk st d v w)) as Hf.
  { intros v w Hv Hw. by apply (IH n m); [lia|..]. }
  assert (forall v w, wf st P n v -> wf st P m w -> settles (2 * k + 1) (fun d => compare bk st d v w)) as Hg.
  { intros v w Hv Hw. eapply settles_mono; [by apply (IH n m); [lia|..]|lia]. }
  assert (settles (2 * S k) (fun d => compare bk st d l r)) as Hcmp.
  { replace (2 * S k) with (S (2 * k + 1)) by lia. apply settles_S.
    change (settles (2 * k + 1) (fun d => compare_step bk st (equal bk st d) (compare bk st d) (S d) l r)).
    apply (compare_step_settles P n m (2 * k + 1) (equal bk st) (compare bk st) Hf Hg); [lia|exact Hl|exact Hr|..];
      intros c Hc; [destruct (Hleft c Hc) as [H' _]|destruct (Hright c Hc) as [H' _]];
      (eapply settles_mono; [exact H'|lia]). }
  split; [done|]. replace (2 * S k + 1) with (S (2 * S k)) by lia. apply settles_S.
  change (settles (2 * S k) (fun d => equal_step st (equal bk st d) (compare bk st d) l r)).
  assert (settles (2 * S k) (fun d => rmap is_eq (compare bk st d l r))) as Hr' by (by apply settles_rmap).
  destruct l as [| | | | | |al|ol| | | | |cl]; destruct r as [| | | | | |ar|or| | | | |cr]; cbn [equal_step];
    try apply settles_ret; try exact Hr';
    try (eapply settles_mono; [by apply Hright|lia]); try (eapply settles_mono; [by apply Hleft|lia]).
  - eapply settles_mono; [by apply (arrays_equal_settles P n m (2 * k + 1))|lia].
  - eapply settles_mono; [by apply (objects_equal_settles P n m (2 * k + 1))|lia].
  - case_match; [apply settles_ret|]. eapply settles_mono; [by apply Hleft|lia].
Qed.
End Total.
