(* ===== verification/CompareClaims.v ===== *)
(** * CompareClaims: what the comparisons of PHP values promise

    On data (values without references, callables and internal markers) loose
    equality is the order being equal, the order of scalars is antisymmetric and
    identity is an equivalence.  A reference to an array breaks the first of
    these. *)

From Stdlib Require Import Strings.String Strings.Byte ZArith Floats.SpecFloat.
From stdpp Require Import base list option numbers gmap fin_maps.
From S2P Require Import Prelude RustStd RustNum RustFloat FloatText Simd ByteKernel ByteKernelProofs PhpString NumericString NumericStringProofs PhpArray PhpArrayProofs PhpArraySpec PhpArrayClaims Convert ConvertProofs Compare CompareProofs.

(** ** Orders on bytes and keys *)

Lemma bytes_cmp_eq l r : bytes_cmp l r = Eq <-> l = r.
Proof.
  revert r. induction l as [|x l IH]; intros [|y r]; cbn; try done.
  destruct (N.compare_spec (u8 x) (u8 y)) as [E|E|E].
  - apply (f_equal Byte.of_N) in E. unfold u8 in E. rewrite !Byte.of_to_N in E. injection E as <-.
    rewrite IH. split; congruence.
  - split; [done|]. intros [= <- <-]. lia.
  - split; [done|]. intros [= <- <-]. lia.
Qed.

Lemma bytes_cmp_antisym l r : bytes_cmp r l = CompOpp (bytes_cmp l r).
Proof.
  revert r. induction l as [|x l IH]; intros [|y r]; cbn; try done.
  rewrite (N.compare_antisym (u8 x) (u8 y)). destruct (u8 x ?= u8 y)%N; cbn; done.
Qed.

Lemma array_keys_eq a b : compare_array_keys a b = Eq <-> a = b.
Proof.
  destruct a as [x|x], b as [y|y]; cbn; try done.
  - rewrite Z.compare_eq_iff. split; congruence.
  - rewrite bytes_cmp_eq. split; congruence.
Qed.

Lemma is_eq_true c : is_eq c = true <-> c = Eq.
Proof. by destruct c. Qed.

(** ** Equality and order agree *)

Section Agree.
Context {C : Type} `{CallableEq C} (bk : backend) `{FloatEnvLaws} `{KeyClassifier} (st : Store C).

Definition data_node (v : Value C) : Prop :=
  match v with
  | Uninitialized | Fiber _ | Generator _ | Callable _ | Reference _ => False
  | _ => True
  end.

(** The comparisons at bound [D] settle on a result [c] without error. *)
Definition agree (D : nat) (f : nat -> Res bool) (g : nat -> Res comparison) : Prop :=
  exists c, forall d, D <= d -> f d = ok (is_eq c) /\ g d = ok c.

Lemma agree_const D c : agree D (fun _ => ok (is_eq c)) (fun _ => ok c).
Proof. by exists c. Qed.

Section Loops.
Context (D : nat) (f : nat -> Value C -> Value C -> Res bool) (g : nat -> Value C -> Value C -> Res comparison).

Lemma arrays_loop_agree l r :
  array_ok r -> (l <> [] -> iter r <> []) ->
  (forall k v w, (k, v) ∈ l -> get r k = Some w -> agree D (fun d => f d v w) (fun d => g d v w)) ->
  agree D (fun d => arrays_equal_loop (f d) l r) (fun d => arrays_compare_loop (g d) l r).
Proof.
  intros Hr. induction l as [|[k v] l IH]; intros Hne Ha; cbn [arrays_equal_loop arrays_compare_loop].
  { exact (agree_const D Eq). }
  specialize (Hne ltac:(done)). destruct (get r k) as [w|] eqn:Eg.
  - destruct (Ha k v w) as [c Hc]; [by left|done|].
    destruct IH as [c' Hc']; [done|intros k' v' w' Hin; apply (Ha k'); by right|].
    exists (if is_eq c then c' else c). intros d Hd. destruct (Hc d Hd) as [-> ->]. destruct (Hc' d Hd) as [Ef Eg'].
    cbn [rbind ok obind]. destruct c; cbn [is_eq]; done.
  - destruct (iter r) as [|[k0 v0] rest] eqn:Ei; [done|].
    assert (is_eq (compare_array_keys k k0) = false) as E.
    { destruct (is_eq _) eqn:E; [|done]. apply is_eq_true, array_keys_eq in E as <-.
      rewrite get_ok, Ei in Eg by done. unfold lookup_key, find_pos in Eg. cbn [position fst] in Eg.
      by rewrite bool_decide_true in Eg. }
    exists (compare_array_keys k k0). intros d Hd. by rewrite E.
Qed.

Lemma properties_agree l r :
  length l = length r ->
  (forall n v m w, (n, v) ∈ l -> (m, w) ∈ r -> agree D (fun d => f d v w) (fun d => g d v w)) ->
  agree D (fun d => properties_equal (f d) l r) (fun d => properties_compare (g d) l r).
Proof.
  revert r. induction l as [|[n v] l IH]; intros [|[m w] r] Hlen Ha; try done;
    cbn [properties_equal properties_compare].
  { exact (agree_const D Eq). }
  destruct (Ha n v m w) as [c Hc]; [by left|by left|].
  destruct (IH r) as [c' Hc']; [by injection Hlen|intros ? ? ? ? H1' H2'; eapply Ha; right; [exact H1'|exact H2']|].
  destruct (bytes_eqb n m) eqn:E.
  - apply bytes_eqb_eq in E as <-. rewrite (proj2 (bytes_cmp_eq n n) eq_refl).
    exists (if is_eq c then c' else c). intros d Hd. destruct (Hc d Hd) as [-> ->]. destruct (Hc' d Hd) as [Ef Eg'].
    cbn [rbind ok obind]. destruct c; cbn [is_eq]; done.
  - exists (bytes_cmp n m). intros d Hd. destruct (bytes_cmp n m) eqn:E'; [|done..].
    apply bytes_cmp_eq in E'. by rewrite (proj2 (bytes_eqb_eq _ _) E') in E.
Qed.
End Loops.

(** Numbers are always ordered one way or the other. *)
Lemma compare_numbers_ok x y : exists c, compare_numbers x y = ok c.
Proof.
  unfold compare_numbers. destruct x as [a|a], y as [b|b]; try by eexists.
  all: destruct (_ || _) eqn:En; [by eexists|]; destruct (f64_partial_cmp _ _) eqn:E; [by eexists|]; exfalso.
  all: apply orb_false_iff in En as [Hx Hy]; revert E Hx Hy; unfold f64_partial_cmp.
  all: repeat match goal with |- context [number_as_f64 ?n] => generalize (number_as_f64 n); intros [] end; done.
Qed.

Lemma to_bool_data v : data_node v -> exists b, forall d, to_bool st (S d) v = ok b.
Proof. destruct v; try done; by eexists. Qed.

Lemma compare_bools_ok l r : data_node l -> data_node r -> exists c, forall d, compare_bools st (S d) l r = ok c.
Proof.
  intros [a Ha]%to_bool_data [b Hb]%to_bool_data. eexists. intros d. unfold compare_bools. by rewrite Ha, Hb.
Qed.

Definition number_node (v : Value C) : Prop := match v with Int _ => True | Float x => valid x | _ => False end.

Lemma to_number_node v : number_node v -> exists x, forall d, to_number bk st (S d) v = ok x.
Proof. destruct v; try done; by eexists. Qed.

Lemma to_string_node v : number_node v -> exists t, forall d, to_string st (S d) v = ok t.
Proof.
  destruct v; try done; [by eexists|]. intros Hx. destruct (float_text_returns x Hx) as (t & E & _).
  exists t. intros d. cbn [to_string]. by rewrite E.
Qed.

Lemma number_and_string_ok s v :
  number_node v ->
  (exists c, forall d, compare_number_and_string bk st (S d) (Str s) v = ok c) /\
  (exists c, forall d, compare_number_and_string bk st (S d) v (Str s) = ok c).
Proof.
  intros Hv. destruct (numeric_string_returns bk s) as [x Ex]. destruct (to_number_node v Hv) as [y Hy].
  destruct (to_string_node v Hv) as [t Ht].
  assert (forall d, compare_number_and_string bk st d v (Str s) =
    obind (comparison_numeric_string bk s) (fun n => match n with
      | Some n => rbind (to_number bk st d v) (fun m => compare_numbers m n)
      | None => if is_nan_number v then ok Gt else rbind (to_string st d v) (fun text => ok (bytes_cmp text s)) end)) as E2.
  { intros d. by destruct v. }
  split.
  - unfold compare_number_and_string. rewrite Ex. cbn [obind]. destruct x as [x|].
    + destruct (compare_numbers_ok x y) as [c Hc]. exists c. intros d. by rewrite Hy.
    + destruct (is_nan_number v); [by eexists|]. eexists. intros d. by rewrite Ht.
  - destruct x as [x|].
    + destruct (compare_numbers_ok y x) as [c Hc]. exists c. intros d. rewrite E2, Ex. cbn [obind]. by rewrite Hy.
    + destruct (is_nan_number v); eexists; intros d; rewrite E2, Ex; cbn [obind]; [done|by rewrite Ht].
Qed.

Lemma strings_ok s t : exists c, forall eq cmp d, compare_step bk st eq cmp d (Str s) (Str t) = ok c.
Proof.
  destruct (numeric_string_returns bk s) as [x Ex], (numeric_string_returns bk t) as [y Ey].
  cbn [compare_step]. rewrite Ex, Ey. cbn [obind]. destruct x as [x|], y as [y|]; try by eexists.
  destruct (compare_numbers_ok x y) as [c Hc]. by exists c.
Qed.

Lemma numbers_ok l r :
  number_node l -> number_node r ->
  exists c, forall d, rbind (to_number bk st (S d) l) (fun n =>
              rbind (to_number bk st (S d) r) (fun m => compare_numbers n m)) = ok c.
Proof.
  intros [x Hx]%to_number_node [y Hy]%to_number_node. destruct (compare_numbers_ok x y) as [c Hc].
  exists c. intros d. rewrite Hx. cbn [rbind ok obind]. by rewrite Hy.
Qed.

(** Two values of different kinds, or two scalars: the order is decided without
    recursion. *)
Definition flat_pair (l r : Value C) : Prop :=
  match l, r with Array _, Array _ | Object _, Object _ => False | _, _ => True end.

Lemma flat_order l r :
  data_node l -> data_node r ->
  (forall x, l = Float x -> valid x) -> (forall x, r = Float x -> valid x) -> flat_pair l r ->
  exists c, forall eq cmp d, compare_step bk st eq cmp (S d) l r = ok c.
Proof.
  intros Hl Hr Vl Vr Hk.
  assert (forall v, (exists z, v = Int z) \/ (exists x, v = Float x /\ valid x) -> number_node v) as Hnum.
  { by intros v [[z ->]|(x & -> & Hx)]. }
  destruct l as [| | |x|s| | | | | | | |]; try done; destruct r as [| | |y|t| | | | | | | |]; try done;
    cbn [compare_step]; try (by eexists); try apply strings_ok.
  all: match goal with
       | |- exists c, forall eq cmp d, compare_bools st (S d) ?l ?r = ok c =>
           destruct (compare_bools_ok l r I I) as [c Hc]; by exists c
       | |- exists c, forall eq cmp d, compare_number_and_string _ _ (S d) (Str ?s) ?v = ok c =>
           destruct (number_and_string_ok s v) as [[c Hc] _]; [apply Hnum; eauto|by exists c]
       | |- exists c, forall eq cmp d, compare_number_and_string _ _ (S d) ?v (Str ?s) = ok c =>
           destruct (number_and_string_ok s v) as [_ [c Hc]]; [apply Hnum; eauto|by exists c]
       | |- context [rbind (to_number _ _ _ ?l) (fun n => rbind (to_number _ _ _ ?r) _)] =>
           destruct (numbers_ok l r) as [c Hc]; [apply Hnum; eauto..|by exists c]
       end.
Qed.

(** Equality follows the order there. *)
Lemma flat_equal l r eq cmp c d :
  data_node l -> data_node r -> flat_pair l r ->
  compare_step bk st eq cmp d l r = ok c -> cmp l r = ok c -> equal_step st eq cmp l r = ok (is_eq c).
Proof.
  intros Hl Hr Hk Hs Hc.
  destruct l; try done; destruct r; try done; cbn [equal_step]; rewrite ?Hc; try done.
  all: cbn [compare_step] in Hs; injection Hs as <-; try done.
  unfold ok. do 2 f_equal. by destruct (N.compare_spec id id0) as [->|?|?];
    [rewrite N.eqb_refl | rewrite (proj2 (N.eqb_neq _ _)) by lia..].
Qed.

Section Parts.
Context (n m D : nat) (f : nat -> Value C -> Value C -> Res bool) (g : nat -> Value C -> Value C -> Res comparison).
Context (Hag : forall v w, wf st data_node n v -> wf st data_node m w ->
                 agree D (fun d => f d v w) (fun d => g d v w)).

Lemma arrays_agree a b :
  wf st data_node (S n) (Array a) -> wf st data_node (S m) (Array b) ->
  agree D (fun d => arrays_equal (f d) a b) (fun d => arrays_compare (g d) a b).
Proof.
  intros (_ & Ha & Fa) (_ & Hb & Fb). unfold arrays_equal, arrays_compare.
  destruct (Nat.compare_spec (len a) (len b)) as [E|E|E].
  - rewrite E, Nat.eqb_refl. apply arrays_loop_agree; [done|..].
    + rewrite !len_pairs in E by done. intros Hne Hnil. rewrite Hnil in E. by destruct (iter a).
    + intros x v w Hin Hget. apply Hag; [by apply (proj1 (Forall_forall _ _) Fa (x, v)) | by eapply get_wf].
  - rewrite (proj2 (Nat.eqb_neq _ _)) by lia. exact (agree_const _ Lt).
  - rewrite (proj2 (Nat.eqb_neq _ _)) by lia. exact (agree_const _ Gt).
Qed.

Lemma objects_agree a b :
  wf st data_node (S n) (Object a) -> wf st data_node (S m) (Object b) ->
  agree D (fun d => objects_equal st (f d) a b) (fun d => objects_compare st (f d) (g d) a b).
Proof.
  intros (_ & oa & Ea & Fa) (_ & ob & Eb & Fb). unfold objects_compare, objects_equal, object. rewrite Ea, Eb.
  destruct (a =? b)%N; [exact (agree_const D Eq)|]. cbn [obind].
  destruct (bytes_eqb (class_name oa) (class_name ob)) eqn:En; cbn [negb].
  - apply bytes_eqb_eq in En as ->. rewrite (proj2 (bytes_cmp_eq _ _) eq_refl).
    destruct (Nat.compare_spec (length (properties_snapshot oa)) (length (properties_snapshot ob))) as [E|E|E].
    + rewrite (proj2 (Nat.eqb_eq _ _)) by done.
      destruct (properties_agree D f g (properties_snapshot oa) (properties_snapshot ob) E) as [c Hc].
      { intros x v y w Hv Hw. apply Hag; [by apply (proj1 (Forall_forall _ _) Fa (x, v)) |
                                          by apply (proj1 (Forall_forall _ _) Fb (y, w))]. }
      exists c. intros d Hd. destruct (Hc d Hd) as [-> ->]. by destruct c.
    + rewrite (proj2 (Nat.eqb_neq _ _)) by lia. exact (agree_const _ Lt).
    + rewrite (proj2 (Nat.eqb_neq _ _)) by lia. exact (agree_const _ Gt).
  - exists (bytes_cmp (class_name oa) (class_name ob)). intros d Hd.
    destruct (bytes_cmp (class_name oa) (class_name ob)) eqn:Ec; [|done..].
    apply bytes_cmp_eq in Ec. by rewrite (proj2 (bytes_eqb_eq _ _) Ec) in En.
Qed.
End Parts.

Lemma equality_settles k : forall n m l r,
  n + m <= k -> wf st data_node n l -> wf st data_node m r ->
  exists c, (forall d, 2 * k <= d -> compare bk st d l r = ok c) /\
            (forall d, 2 * k + 1 <= d -> equal bk st d l r = ok (is_eq c)).
Proof.
  induction k as [|k IH]; intros n m l r Hk Hl Hr; [destruct n; [done|lia]|].
  destruct n as [|n]; [done|]. destruct m as [|m]; [done|].
  assert (forall v w, wf st data_node n v -> wf st data_node m w ->
            agree (2 * k + 1) (fun d => equal bk st d v w) (fun d => compare bk st d v w)) as Hag.
  { intros v w Hv Hw. destruct (IH n m v w) as (c & H1' & H2'); [lia|done..|].
    exists c. intros d Hd. split; [by apply H2' | apply H1'; lia]. }
  assert (flat_pair l r \/ (exists a b, l = Array a /\ r = Array b) \/ (exists a b, l = Object a /\ r = Object b))
    as [Hf|[(a & b & -> & ->)|(a & b & -> & ->)]] by (destruct l, r; cbn; eauto 10).
  - destruct Hl as [Dl Wl], Hr as [Dr Wr].
    destruct (flat_order l r Dl Dr) as [c Hc]; [by intros x ->|by intros x ->|done|].
    assert (forall d, compare bk st (S d) l r = ok c) as Hcmp by (intros d; apply Hc).
    exists c. split; intros [|d] Hd; try lia; [done|]. destruct d as [|d]; [lia|].
    by apply (flat_equal l r _ _ c (S (S d))).
  - destruct (arrays_agree n m _ _ _ Hag a b Hl Hr) as [c Hc].
    exists c. split; intros [|d] Hd; try lia; apply (Hc d); lia.
  - destruct (objects_agree n m _ _ _ Hag a b Hl Hr) as [c Hc].
    exists c. split; intros [|d] Hd; try lia; apply (Hc d); lia.
Qed.

(** ** The order of scalars *)

Lemma SFcompare_antisym x y : SFcompare y x = CompOpp <$> SFcompare x y.
Proof.
  destruct x as [sx|[]| |[] mx ex], y as [sy|[]| |[] my ey]; cbn; try done.
  all: rewrite (Z.compare_antisym ex ey); destruct (ex ?= ey)%Z; cbn; try done; do 2 f_equal.
  all: fold (Pos.compare my mx); fold (Pos.compare mx my); by rewrite (Pos.compare_antisym mx my).
Qed.

Lemma SFcompare_refl x : f64_is_nan x = false -> SFcompare x x = Some Eq.
Proof.
  destruct x as [s|[]| |[] m e]; cbn; try done; rewrite Z.compare_refl; fold (Pos.compare m m);
    by rewrite Pos.compare_refl.
Qed.

Definition number_is_nan (x : NumericValue) : bool := f64_is_nan (number_as_f64 x).

Lemma compare_numbers_antisym x y c :
  number_is_nan x = false -> number_is_nan y = false ->
  compare_numbers x y = ok c -> compare_numbers y x = ok (CompOpp c).
Proof.
  unfold number_is_nan. intros Hx Hy. unfold compare_numbers.
  assert (forall a b, (if f64_is_nan (number_as_f64 a) || f64_is_nan (number_as_f64 b) then ok Gt
                       else match f64_partial_cmp (number_as_f64 a) (number_as_f64 b) with
                            | Some c => ok c | None => err "cannot compare NaN numeric values" end) = ok c ->
    f64_is_nan (number_as_f64 a) = false -> f64_is_nan (number_as_f64 b) = false ->
    (if f64_is_nan (number_as_f64 b) || f64_is_nan (number_as_f64 a) then ok Gt
     else match f64_partial_cmp (number_as_f64 b) (number_as_f64 a) with
          | Some c => ok c | None => err "cannot compare NaN numeric values" end) = ok (CompOpp c)) as Hf.
  { intros a b E Ha Hb. rewrite Ha, Hb in *. cbn [orb] in *. unfold f64_partial_cmp in *.
    rewrite SFcompare_antisym. destruct (SFcompare _ _); [|done]. cbn. by injection E as ->. }
  destruct x as [a|a], y as [b|b]; try (intros E; by apply Hf).
  intros [= <-]. by rewrite Z.compare_antisym.
Qed.

Lemma compare_numbers_refl x : number_is_nan x = false -> compare_numbers x x = ok Eq.
Proof.
  unfold number_is_nan. intros Hx. unfold compare_numbers. destruct x as [a|a]; [by rewrite Z.compare_refl|].
  rewrite Hx. cbn [orb]. unfold f64_partial_cmp. by rewrite SFcompare_refl.
Qed.

Lemma numeric_string_not_nan s x : comparison_numeric_string bk s = Ret (Some x) -> number_is_nan x = false.
Proof.
  unfold comparison_numeric_string. destruct (classify_classified bk s) as (n & -> & Hn). cbn [obind].
  intros [= E]. assert (number_of <$> NumericString.value n = Some x) as E' by (by destruct (kind n)).
  destruct (NumericString.value n) as [[z|y]|] eqn:Ev; cbn in E'; [| |done]; injection E' as <-;
    unfold number_is_nan; cbn [number_of number_as_f64].
  - apply i64_as_f64_not_nan.
  - by eapply classified_not_nan.
Qed.

(** A scalar that is not NaN. *)
Definition ordered_scalar (v : Value C) : Prop :=
  match v with
  | Null | Bool _ | Int _ | Str _ | Resource _ => True
  | Float x => valid x /\ f64_is_nan x = false
  | _ => False
  end.

Lemma ordered_number v x d :
  ordered_scalar v -> number_node v -> to_number bk st (S d) v = ok x -> number_is_nan x = false.
Proof.
  unfold number_is_nan. destruct v; try done; cbn [to_number]; intros Ho _ [= <-]; cbn [number_as_f64].
  - apply i64_as_f64_not_nan.
  - by destruct Ho.
Qed.

Lemma is_nan_ordered v : ordered_scalar v -> is_nan_number v = false.
Proof. destruct v; try done. by intros [_ ?]. Qed.

Lemma number_and_string_antisym s v c d :
  ordered_scalar v -> number_node v ->
  compare_number_and_string bk st (S d) (Str s) v = ok c <->
  compare_number_and_string bk st (S d) v (Str s) = ok (CompOpp c).
Proof.
  intros Ho Hv. destruct (to_number_node v Hv) as [y Hy]. destruct (to_string_node v Hv) as [t Ht].
  assert (compare_number_and_string bk st (S d) v (Str s) =
    obind (comparison_numeric_string bk s) (fun n => match n with
      | Some n => compare_numbers y n
      | None => ok (bytes_cmp t s) end)) as ->.
  { destruct v; try done; cbn [compare_number_and_string];
      destruct (comparison_numeric_string bk s) as [[x'|]| |]; cbn [obind]; rewrite ?Hy; try done;
      rewrite (is_nan_ordered _ Ho), Ht; done. }
  cbn [compare_number_and_string]. rewrite (is_nan_ordered v Ho).
  destruct (comparison_numeric_string bk s) as [[x|]| |] eqn:Es; cbn [obind]; rewrite ?Hy, ?Ht; cbn [rbind ok obind].
  - pose proof (numeric_string_not_nan _ _ Es) as Hx. pose proof (ordered_number v y d Ho Hv (Hy d)) as Hn.
    split; [by apply compare_numbers_antisym|]. intros E%compare_numbers_antisym; [|done..]. by destruct c.
  - rewrite (bytes_cmp_antisym s t). unfold ok. split; [by intros [= ->]|]. intros [= E]. do 2 f_equal.
    by destruct (bytes_cmp s t), c.
  - done.
  - done.
Qed.

Lemma ordered_data v : ordered_scalar v -> data_node v /\ forall x, v = Float x -> valid x.
Proof. destruct v; try done. intros [Hv _]. split; [done|]. by intros ? [= <-]. Qed.

Lemma compare_bools_antisym l r c d :
  compare_bools st d l r = ok c -> compare_bools st d r l = ok (CompOpp c).
Proof.
  unfold compare_bools. destruct (to_bool st d l) as [[a|]| |]; cbn; try done.
  destruct (to_bool st d r) as [[b|]| |]; cbn; try done. intros [= <-]. by destruct a, b.
Qed.

Lemma strings_antisym s t eq cmp d c :
  compare_step bk st eq cmp d (Str s) (Str t) = ok c ->
  compare_step bk st eq cmp d (Str t) (Str s) = ok (CompOpp c).
Proof.
  cbn [compare_step]. destruct (comparison_numeric_string bk s) as [x| |] eqn:Es; cbn [obind]; try done.
  destruct (comparison_numeric_string bk t) as [y| |] eqn:Et; cbn [obind]; try done.
  destruct x as [x|], y as [y|]; try (intros [= <-]; by rewrite bytes_cmp_antisym).
  apply compare_numbers_antisym; by eapply numeric_string_not_nan.
Qed.

Lemma numbers_antisym l r d c :
  ordered_scalar l -> ordered_scalar r -> number_node l -> number_node r ->
  rbind (to_number bk st (S d) l) (fun n => rbind (to_number bk st (S d) r) (fun m => compare_numbers n m)) = ok c ->
  rbind (to_number bk st (S d) r) (fun n => rbind (to_number bk st (S d) l) (fun m => compare_numbers n m)) = ok (CompOpp c).
Proof.
  intros Ol Or Nl Nr. destruct (to_number_node l Nl) as [x Hx], (to_number_node r Nr) as [y Hy].
  rewrite Hx, Hy. cbn [rbind ok obind]. apply compare_numbers_antisym;
    [by apply (ordered_number l x 0) | by apply (ordered_number r y 0)].
Qed.

Lemma scalar_order l r :
  ordered_scalar l -> ordered_scalar r ->
  exists c, (forall d, compare bk st (S d) l r = ok c /\ compare bk st (S d) r l = ok (CompOpp c)) /\
            (l = r -> c = Eq).
Proof.
  intros Hl Hr. destruct (ordered_data l Hl) as [Dl Vl], (ordered_data r Hr) as [Dr Vr].
  destruct (flat_order l r Dl Dr Vl Vr) as [c Hc]; [by destruct l, r|].
  assert (forall d, compare bk st (S d) r l = ok (CompOpp c)) as Ha.
  { intros d. specialize (Hc (equal bk st d) (compare bk st d) d).
    change (compare_step bk st (equal bk st d) (compare bk st d) (S d) r l = ok (CompOpp c)).
    assert (forall v, ordered_scalar v -> (exists z, v = Int z) \/ (exists x, v = Float x) -> number_node v) as Hnum.
    { intros v Hv [[z ->]|[x ->]]; [done|]. by destruct Hv. }
    destruct l; try done; destruct r; try done; cbn [compare_step] in *;
      try (injection Hc as <-; done); try (by apply compare_bools_antisym);
      try (by apply (strings_antisym _ _ (equal bk st d) (compare bk st d) d));
      try (by apply numbers_antisym; [..|apply Hnum; eauto|apply Hnum; eauto|]);
      try (apply number_and_string_antisym; [done|apply Hnum; eauto|]; by rewrite ?CompOpp_involutive);
      try (rewrite <- number_and_string_antisym; [done|done|apply Hnum; eauto]).
    all: injection Hc as <-; by rewrite ?(bytes_cmp_antisym _ []), ?(bytes_cmp_antisym [] _), ?(N.compare_antisym id id0). }
  exists c. split; [intros d; split; [apply Hc|apply Ha]|]. intros ->. specialize (Hc (equal bk st 0) (compare bk st 0) 0). specialize (Ha 0).
  change (compare bk st 1 r r = ok c) in Hc. assert (ok c = ok (CompOpp c)) as [= E] by congruence. by destruct c.
Qed.

(** ** Identity *)

Lemma f64_eq_cases x y :
  f64_eq x y = true <-> (x = y /\ f64_is_nan x = false) \/ (exists s t, x = S754_zero s /\ y = S754_zero t).
Proof.
  unfold f64_eq, SFeqb. split.
  - destruct x as [sx|[]| |[] mx ex], y as [sy|[]| |[] my ey]; cbn; try done; eauto.
    all: destruct (Z.compare_spec ex ey) as [->|?|?]; try done; fold (Pos.compare mx my);
      destruct (Pos.compare_spec mx my) as [->|?|?]; try done; by left.
  - intros [[-> Hn]|(s & t & -> & ->)]; [by rewrite SFcompare_refl|done].
Qed.

(** What identity means on data: the same scalars, and arrays with the same
    elements in the same order. *)
Fixpoint same (n : nat) (a b : Value C) : Prop :=
  match n with
  | O => False
  | S n =>
      match a, b with
      | Null, Null => True
      | Bool x, Bool y => x = y
      | Int x, Int y => x = y
      | Float x, Float y => f64_eq x y = true
      | Str x, Str y => x = y
      | Array x, Array y => Forall2 (fun p q => p.1 = q.1 /\ same n p.2 q.2) (iter x) (iter y)
      | Object x, Object y | Resource x, Resource y => x = y
      | _, _ => False
      end
  end.

Lemma zip_all_forall2 {A} D (p : nat -> A -> A -> outcome bool) (R : A -> A -> Prop) l r :
  length l = length r ->
  (forall x y, x ∈ l -> y ∈ r -> exists i, (forall d, D <= d -> p d x y = Ret i) /\ (i = true <-> R x y)) ->
  exists i, (forall d, D <= d -> zip_all (p d) l r = Ret i) /\ (i = true <-> Forall2 R l r).
Proof.
  revert r. induction l as [|x l IH]; intros [|y r] Hlen Hp; try done; cbn [zip_all].
  { exists true. split; [done|]. split; [constructor|done]. }
  destruct (Hp x y) as (i & Hi & HR); [by left..|].
  destruct (IH r) as (j & Hj & HF); [by injection Hlen|intros; apply Hp; by right|].
  exists (i && j). split.
  - intros d Hd. rewrite (Hi d Hd). cbn [obind]. destruct i; [by apply Hj|done].
  - rewrite andb_true_iff, HR, HF. split; [intros []; by constructor | by inversion 1].
Qed.

Lemma identical_same n a b :
  wf st data_node n a -> wf st data_node n b ->
  exists i, (forall d, n <= d -> identical st d a b = Ret i) /\ (i = true <-> same n a b).
Proof.
  revert a b. induction n as [|n IH]; intros a b Ha Hb; [done|].
  destruct Ha as [Da Wa], Hb as [Db Wb].
  assert (forall i (P : Prop), (forall d, identical st (S d) a b = Ret i) -> (i = true <-> P) ->
            exists i, (forall d, S n <= d -> identical st d a b = Ret i) /\ (i = true <-> P)) as Hflat.
  { intros i P Hi HP. exists i. split; [|done]. intros [|d] Hd; [lia|done]. }
  destruct a as [| | | | | |x| | | | | |]; try done; destruct b as [| | | | | |y| | | | | |]; try done;
    cbn [same]; try (eapply Hflat; [reflexivity|]; try done).
  - apply Bool.eqb_true_iff.
  - apply Z.eqb_eq.
  - apply bytes_eqb_eq.
  - destruct Wa as [Ha Fa], Wb as [Hb Fb].
    destruct (len x =? len y) eqn:El.
    + apply Nat.eqb_eq in El. pose proof El as El'. rewrite !len_pairs in El' by done.
      destruct (zip_all_forall2 n (fun d p q => if key_eqb p.1 q.1 then identical st d p.2 q.2 else Ret false)
        (fun p q => p.1 = q.1 /\ same n p.2 q.2) (iter x) (iter y) El') as (i & Hi & HF).
      { intros [k1 v1] [k2 v2] H1' H2'. cbn [fst snd].
        destruct (IH v1 v2) as (i & Hi & HS);
          [by apply (proj1 (Forall_forall _ _) Fa (k1, v1))|by apply (proj1 (Forall_forall _ _) Fb (k2, v2))|].
        unfold key_eqb. destruct (bool_decide_reflect (k1 = k2)) as [->|Hne].
        - exists i. split; [done|]. rewrite HS. tauto.
        - exists false. split; [done|]. split; [done|]. by intros [? _]. }
      exists i. split; [|done]. intros [|d] Hd; [lia|]. cbn [identical]. unfold arrays_identical.
      rewrite El, Nat.eqb_refl. apply Hi. lia.
    + exists false. split.
      * intros [|d] Hd; [lia|]. cbn [identical]. unfold arrays_identical. by rewrite El.
      * split; [done|]. intros HF%Forall2_length. apply Nat.eqb_neq in El. rewrite !len_pairs in El by done. done.
  - apply N.eqb_eq.
  - apply N.eqb_eq.
Qed.

Lemma same_sym n a b : same n a b -> same n b a.
Proof.
  revert a b. induction n as [|n IH]; intros a b; [done|]. destruct a, b; cbn [same]; try done.
  - rewrite !f64_eq_cases. intros [[-> ?]|(s & t & -> & ->)]; [by left|right; eauto].
  - intros HF. apply Forall2_flip. eapply Forall2_impl; [exact HF|]. intros p q [E Hs]. split; [done|by apply IH].
Qed.

Lemma same_trans n a b c : same n a b -> same n b c -> same n a c.
Proof.
  revert a b c. induction n as [|n IH]; intros a b c; [done|].
  destruct a; try done; destruct b; try done; destruct c; cbn [same]; try done; try congruence.
  - rewrite !f64_eq_cases. intros [[E1 ?]|(s & t & E1 & E2)] [[E3 ?]|(s' & t' & E3 & E4)]; simplify_eq;
      first [by left | right; by eauto].
  - generalize (iter a0) as l1, (iter a) as l2, (iter a1) as l3. induction l1 as [|p l1 IHl]; intros l2 l3 H12 H23.
    + inversion H12; subst. by inversion H23; subst; constructor.
    + inversion H12 as [|? ? ? l2' [E1 S1] F1]; subst. inversion H23 as [|? ? ? l3' [E2 S2] F2]; subst.
      constructor; [split; [congruence|by eapply IH]|by eapply IHl].
Qed.

(** Data without NaN. *)
Definition clean_node (v : Value C) : Prop :=
  data_node v /\ match v with Float x => f64_is_nan x = false | _ => True end.

Lemma wf_weaken (P Q : Value C -> Prop) n v : (forall v, P v -> Q v) -> wf st P n v -> wf st Q n v.
Proof.
  intros HPQ. revert v. induction n as [|n IH]; intros v Hv; [done|].
  destruct Hv as [HP Hv]. split; [by apply HPQ|].
  destruct v; try done.
  - destruct Hv as [Ha Hf]. split; [done|]. eapply Forall_impl; [exact Hf|]. intros p. apply IH.
  - destruct Hv as (o & E & Hf). exists o. split; [done|]. eapply Forall_impl; [exact Hf|]. intros p. apply IH.
  - destruct Hv as (w & E & Hw). exists w. split; [done|]. by apply IH.
Qed.

Lemma same_refl n a : wf st clean_node n a -> same n a a.
Proof.
  revert a. induction n as [|n IH]; intros a Ha; [done|]. destruct Ha as [[Da Ca] Wa].
  destruct a; try done; cbn [same].
  - apply f64_eq_cases. by left.
  - destruct Wa as [_ Fa]. clear Da Ca. induction Fa as [|p l Hp Hl IHl]; constructor; [split; [done|by apply IH]|done].
Qed.

Lemma get_of_elem (a : ArrayStorage (V := Value C)) k w : array_ok a -> (k, w) ∈ iter a -> get a k = Some w.
Proof.
  intros Ha Hin. rewrite get_ok by done. unfold lookup_key.
  apply list_elem_of_lookup_1 in Hin as [i Hi].
  destruct (find_pos k (iter a)) as [j|] eqn:Ef.
  - apply position_Some in Ef as [([k' w'] & Ej & Hp) _]. cbn [fst] in Hp. apply bool_decide_eq_true in Hp as ->.
    rewrite Ej. cbn. pose proof (keys_nodup a (layout_consistent a Ha)) as Hnd.
    assert (i = j) as ->.
    { eapply (proj1 (NoDup_alt _) Hnd _ _ k); rewrite list_lookup_fmap; [by rewrite Hi|by rewrite Ej]. }
    congruence.
  - apply position_None in Ef. apply (proj1 (Forall_lookup _ _) Ef) in Hi. cbn [fst] in Hi.
    by rewrite bool_decide_true in Hi.
Qed.

Lemma arrays_loop_equal (g : Value C -> Value C -> Res comparison) l r :
  (forall k v, (k, v) ∈ l -> exists w, get r k = Some w /\ g v w = ok Eq) ->
  arrays_compare_loop g l r = ok Eq.
Proof.
  induction l as [|[k v] l IH]; intros Hl; cbn [arrays_compare_loop]; [done|].
  destruct (Hl k v) as (w & -> & ->); [by left|]. cbn [rbind ok obind]. apply IH. intros k' v' Hin. apply Hl. by right.
Qed.

Lemma same_equal n a b d :
  wf st clean_node n a -> wf st clean_node n b -> same n a b -> n <= d -> compare bk st d a b = ok Eq.
Proof.
  revert a b d. induction n as [|n IH]; intros a b d Ha Hb Hs Hd; [done|]. destruct d as [|d]; [lia|].
  destruct Ha as [[Da Ca] Wa], Hb as [[Db Cb] Wb].
  change (compare_step bk st (equal bk st d) (compare bk st d) (S d) a b = ok Eq).
  destruct a as [|x| |x|x| |x| | | | | |]; try done; destruct b as [|y| |y|y| |y| | | | | |]; cbn [same] in Hs; try done;
    try subst y; try (subst z0; cbn; by rewrite Z.compare_refl).
  - by destruct x.
  - cbn [compare_step to_number rbind ok obind]. unfold compare_numbers. cbn [number_as_f64]. rewrite Ca, Cb. cbn [orb].
    unfold f64_partial_cmp. unfold f64_eq, SFeqb in Hs. by destruct (SFcompare x y) as [[]|].
  - destruct (scalar_order (Str x) (Str x) I I) as (c & Hc & Ec). rewrite (Ec eq_refl) in Hc. apply (Hc d).
  - destruct Wa as [Ha Fa], Wb as [Hb Fb]. cbn [compare_step]. unfold arrays_compare.
    rewrite !len_pairs by done. rewrite (Forall2_length _ _ _ Hs), Nat.compare_refl. apply arrays_loop_equal.
    intros k v Hin. apply list_elem_of_lookup_1 in Hin as [i Hi].
    destruct (Forall2_lookup_l _ _ _ _ _ Hs Hi) as ([k' w] & Hi' & E & Hs'). cbn [fst snd] in *. subst k'.
    exists w. split; [apply get_of_elem; [done|by eapply list_elem_of_lookup_2]|]. apply IH; [..|lia]; try done.
    + by apply (proj1 (Forall_lookup _ _) Fa i (k, v)).
    + by apply (proj1 (Forall_lookup _ _) Fb i (k, w)).
  - subst id0. cbn [compare_step]. unfold objects_compare, objects_equal. by rewrite N.eqb_refl.
  - subst id0. cbn [compare_step]. by rewrite N.compare_refl.
Qed.

(** ** Claims *)

(** The loose order of scalars other than NaN (null, booleans, integers,
    floats, strings, resources, in any combination) is total and antisymmetric
    and every scalar is equal to itself: [a <=> b] and [b <=> a] are opposite,
    whether strings are compared as numbers or as text. *)
Theorem scalar_order_laws l r :
  ordered_scalar l -> ordered_scalar r ->
  exists c, (forall d, compare bk st (S d) l r = ok c /\ compare bk st (S d) r l = ok (CompOpp c)) /\
            (l = r -> c = Eq).
Proof. apply scalar_order. Qed.

(** The recursive comparisons terminate: on values of depth [n] and [m]
    whose handles are alive and whose arrays are consistent, [identical],
    [equal] and [compare] return, never panic, and give the same answer for
    every bound on the recursion from [2 (n + m) + 1] on. *)
Theorem comparisons_return n m l r :
  wf st (fun _ => True) n l -> wf st (fun _ => True) m r ->
  exists i e c, forall d, 2 * (n + m) + 1 <= d ->
    identical st d l r = Ret i /\ equal bk st d l r = Ret e /\ compare bk st d l r = Ret c.
Proof.
  intros Hl Hr. destruct (identical_settles st _ n l m r Hl Hr) as [i Hi].
  destruct (comparisons_settle bk st _ (n + m) n m l r ltac:(lia) Hl Hr) as [[c Hc] [e He]].
  exists i, e, c. intros d Hd. split_and!; [apply Hi|apply He|apply Hc]; lia.
Qed.

(** C17: on data (scalars, and arrays and objects of data, nested to any depth)
    [a == b] holds exactly when [a <=> b] is 0, and neither is an error: the two
    recursions of the code, which treat sizes, missing keys, classes and
    properties separately, agree. *)
Theorem equality_is_order n m l r :
  wf st data_node n l -> wf st data_node m r ->
  exists c, forall d, 2 * (n + m) + 1 <= d ->
    compare bk st d l r = ok c /\ equal bk st d l r = ok (is_eq c).
Proof.
  intros Hl Hr. destruct (equality_settles (n + m) n m l r ltac:(lia) Hl Hr) as (c & Hc & He).
  exists c. intros d Hd. split; [apply Hc; lia|by apply He].
Qed.

(** Identity is an equivalence on data without NaN, and identical values are
    loosely equal. *)
Theorem identity_laws n a b c :
  wf st clean_node n a -> wf st clean_node n b -> wf st clean_node n c ->
  exists i j k, forall d, n <= d ->
    identical st d a a = Ret true /\ identical st d a b = Ret i /\ identical st d b a = Ret i /\
    identical st d b c = Ret j /\ identical st d a c = Ret k /\
    (i = true -> j = true -> k = true) /\ (i = true -> compare bk st d a b = ok Eq).
Proof.
  intros Ha Hb Hc. assert (forall v, wf st clean_node n v -> wf st data_node n v) as Hw.
  { intros v. apply wf_weaken. by intros ? [? _]. }
  destruct (identical_same n a a) as (r & Hr & Er); [auto..|].
  destruct (identical_same n a b) as (i & Hi & Ei); [auto..|]. destruct (identical_same n b a) as (i' & Hi' & Ei'); [auto..|].
  destruct (identical_same n b c) as (j & Hj & Ej); [auto..|]. destruct (identical_same n a c) as (k & Hk & Ek); [auto..|].
  assert (r = true) as -> by (by apply Er, same_refl).
  assert (i' = i) as -> by (apply eq_bool_prop_intro; destruct i, i'; cbn; naive_solver eauto using same_sym).
  exists i, j, k. intros d Hd. split_and!; auto.
  - intros H1'%Ei H2'%Ej. apply Ek. by eapply same_trans.
  - intros Hs%Ei. by apply (same_equal n).
Qed.
End Agree.

(** A reference to an array is loosely unequal to every array, also to the
    very array it refers to, although identity and the order follow the
    reference: [equal] tests for arrays (and objects) before it looks through
    references. *)
Theorem reference_equality_lost {C} `{CallableEq C} bk `{FloatEnv} (st : Store C) cell a b d :
  cells st !! cell = Some (Array a) ->
  equal bk st (S d) (Reference cell) (Array b) = ok false /\
  identical st (S d) (Reference cell) (Array b) = identical st d (Array a) (Array b) /\
  compare bk st (S d) (Reference cell) (Array b) = compare bk st d (Array a) (Array b).
Proof.
  intros E. split_and!; [done| |].
  - cbn [identical]. unfold deref. by rewrite E.
  - change (compare bk st (S d) (Reference cell) (Array b)) with
      (obind (deref st cell) (fun v => compare bk st d v (Array b))).
    unfold deref. by rewrite E.
Qed.

(** ** Witnesses *)

Section Witnesses.
#[local] Instance unit_callables : CallableEq unit := fun _ _ => true.

Definition one_array : ArrayStorage (V := Value unit) := from_packed 1 [Int 1; Str (lit "a")].
Definition sample_store : Store unit := mk_store {[0%N := Array one_array]} ∅.

Lemma one_array_wf P : P (Array one_array) -> P (Int 1) -> P (Str (lit "a")) -> wf sample_store P 2 (Array one_array).
Proof.
  intros Pa Pi Ps. split; [done|]. split; [apply from_packed_ok; by vm_compute|]. by repeat constructor.
Qed.

Lemma scalar_order_laws_witness :
  exists c, (forall d, compare BAvx2 sample_store (S d) (Int 10) (Str (lit "9.5")) = ok c /\
                       compare BAvx2 sample_store (S d) (Str (lit "9.5")) (Int 10) = ok (CompOpp c)) /\
            (Int 10 = Str (C := unit) (lit "9.5") -> c = Eq).
Proof. exact (scalar_order_laws BAvx2 sample_store (Int 10) (Str (lit "9.5")) I I). Defined.

Lemma comparisons_return_witness :
  exists i e c, forall d, 2 * (3 + 2) + 1 <= d ->
    identical sample_store d (Reference 0) (Array one_array) = Ret i /\
    equal BAvx2 sample_store d (Reference 0) (Array one_array) = Ret e /\
    compare BAvx2 sample_store d (Reference 0) (Array one_array) = Ret c.
Proof.
  apply (comparisons_return BAvx2 sample_store 3 2); [|by apply one_array_wf]. split; [done|]. exists (Array one_array).
  split; [done|by apply one_array_wf].
Defined.

Lemma equality_is_order_witness :
  exists c, forall d, 2 * (2 + 2) + 1 <= d ->
    compare BAvx2 sample_store d (Array one_array) (Array one_array) = ok c /\
    equal BAvx2 sample_store d (Array one_array) (Array one_array) = ok (is_eq c).
Proof. apply (equality_is_order BAvx2 sample_store 2 2); by apply one_array_wf. Defined.

Lemma identity_laws_witness :
  exists i j k, forall d, 2 <= d ->
    identical sample_store d (Array one_array) (Array one_array) = Ret true /\
    identical sample_store d (Array one_array) (Array one_array) = Ret i /\
    identical sample_store d (Array one_array) (Array one_array) = Ret i /\
    identical sample_store d (Array one_array) (Array one_array) = Ret j /\
    identical sample_store d (Array one_array) (Array one_array) = Ret k /\
    (i = true -> j = true -> k = true) /\
    (i = true -> compare BAvx2 sample_store d (Array one_array) (Array one_array) = ok Eq).
Proof. apply (identity_laws BAvx2 sample_store 2); by apply one_array_wf. Defined.

Lemma reference_equality_lost_witness :
  equal BAvx2 sample_store 9 (Reference 0) (Array one_array) = ok false /\
  identical sample_store 9 (Reference 0) (Array one_array) = Ret true /\
  compare BAvx2 sample_store 9 (Reference 0) (Array one_array) = ok Eq.
Proof.
  destruct (reference_equality_lost BAvx2 sample_store 0 one_array one_array 8) as (E1 & E2 & E3); [done|].
  split_and!; [exact E1|rewrite E2; by vm_compute|rewrite E3; by vm_compute].
Defined.
End Witnesses.
