(* ===== verification/NativeOps.v ===== *)
(** * NativeOps: the typed operations called by compiled code

    [php_runtime/src/native_ops.rs]: the operators, comparisons, casts and echo
    that both compiler tiers call.  An operation has a context for failures and
    an output slot; here it takes both and returns them with the status.  The
    comparisons, conversions, arrays and output are those of [Compare],
    [Convert], [PhpArray] and [Output].  The registry of operation descriptors
    is left out. *)

From Stdlib Require Import Strings.String Strings.Byte ZArith Floats.SpecFloat.
From stdpp Require Import base list option numbers gmap fin_maps.
From S2P Require Import Prelude RustStd RustNum RustFloat FloatText Simd PhpString NumericString PhpArray Output Convert Compare.

Inductive NativeOperationStatus := StatusOk | RuntimeError | Throw | CallUserland | Suspend | Unsupported.

Record NativeOperationContext := mk_context {
  diagnostic_id : option string;
  message : option string;
  userland_call_requested : bool;
  safepoints : N;
}.

Inductive NativeUnaryOp := Plus | Minus | Not | BitNot.
Inductive NativeBinaryOp :=
| Add | Sub | Mul | Div | Mod | Concat | Pow | BitAnd | BitOr | BitXor | ShiftLeft | ShiftRight.
Inductive NativeCompareOp :=
| Equal | NotEqual | Identical | NotIdentical | Less | LessEqual | Greater | GreaterEqual | Spaceship.
Inductive NativeCastOp := CastBool | CastInt | CastFloat | CastString | CastArray | CastObject | CastVoid.

(** ** Integer operations of the standard library *)

(** [u64::saturating_add] *)
Definition saturating_add_u64 (n m : N) : N := N.min (n + m) (2 ^ 64 - 1).

(** [lhs % rhs] and [lhs / rhs] panic on a zero divisor and on overflow. *)
Definition division_panics (a b : Z) : bool := (b =? 0)%Z || ((a =? I64_MIN)%Z && (b =? -1)%Z).
Definition i64_rem (a b : Z) : outcome Z := if division_panics a b then Panic else Ret (Z.rem a b).
Definition i64_div (a b : Z) : outcome Z := if division_panics a b then Panic else Ret (Z.quot a b).
Definition checked_rem (a b : Z) : option Z := if division_panics a b then None else Some (Z.rem a b).

(** [i64::checked_pow]: exponentiation by squaring on the bits of the exponent. *)
Fixpoint checked_pow_loop (base acc : Z) (exp : positive) : option Z :=
  match exp with
  | xH => checked_i64 (acc * base)
  | xO exp => base ← checked_i64 (base * base); checked_pow_loop base acc exp
  | xI exp =>
      acc ← checked_i64 (acc * base);
      base ← checked_i64 (base * base); checked_pow_loop base acc exp
  end%Z.
Definition checked_pow (base exp : Z) : option Z :=
  match exp with Zpos exp => checked_pow_loop base 1 exp | _ => Some 1%Z end.

(** [u32::try_from] *)
Definition u32_try_from (z : Z) : option Z := if ((0 <=? z) && (z <? 2 ^ 32))%Z then Some z else None.

(** [wrapping_shl] and [wrapping_shr] use the low six bits of the amount. *)
Definition shift_amount (n : Z) : Z := ((n mod 2 ^ 32) mod 64)%Z.
Definition wrapping_shl (a n : Z) : Z := wrap_i64 (Z.shiftl a (shift_amount n)).
Definition wrapping_shr (a n : Z) : Z := Z.shiftr a (shift_amount n).

Definition byte_op (f : N -> N -> N) (x y : byte) : byte := byte_of_N (f (u8 x) (u8 y)).
Definition byte_not (x : byte) : byte := byte_of_N (255 - u8 x).

(** ** Results *)

Definition fail (context : NativeOperationContext) (id : string) (text : string) :
    NativeOperationStatus * NativeOperationContext :=
  (RuntimeError, mk_context (Some id) (Some text) (userland_call_requested context) (safepoints context)).

Definition safepoint (context : NativeOperationContext) : NativeOperationContext :=
  mk_context (diagnostic_id context) (message context) (userland_call_requested context)
    (saturating_add_u64 (safepoints context) 1).

Section NativeOps.
Context {C : Type} `{CallableEq C} (bk : backend) `{FloatEnv} `{KeyClassifier} (st : Store C).

Abbreviation Published := (NativeOperationStatus * NativeOperationContext * Value C)%type.

Definition publish (context : NativeOperationContext) (r : result (Value C)) (out : Value C) : Published :=
  let context := safepoint context in
  match r with
  | Ok value => (StatusOk, context, value)
  | Err text => (fail context "E_NATIVE_RUNTIME_OPERATION" text, out)
  end.
Definition publish_operation (context : NativeOperationContext) (compute : Res (Value C)) (out : Value C) :
    outcome Published :=
  olet r := compute in Ret (publish context r out).

(** A match on a pair of results evaluates both. *)
Definition both {A B} (l : Res A) (r : Res B) : Res (A * B) :=
  olet l := l in
  olet r := r in
  match l, r with
  | Ok l, Ok r => ok (l, r)
  | Err e, _ | _, Err e => Ret (Err e)
  end.

Fixpoint effective_value (depth : nat) (v : Value C) : outcome (Value C) :=
  match depth with
  | O => Timeout
  | S depth => match v with
               | Reference c => olet v := deref st c in effective_value depth v
               | _ => Ret v
               end
  end.

Definition number_value (n : NumericValue) : Value C :=
  match n with NInt z => Int z | NFloat x => Float x end.

(** ** Arithmetic *)

Definition checked_numeric (l r : NumericValue) (integer : Z -> Z -> option Z) (float : f64 -> f64 -> f64) : Value C :=
  match l, r with
  | NInt a, NInt b =>
      match integer a b with
      | Some z => Int z
      | None => Float (float (i64_as_f64 a) (i64_as_f64 b))
      end
  | _, _ => Float (float (number_as_f64 l) (number_as_f64 r))
  end.

Definition native_arithmetic (op : NativeBinaryOp) (l r : NumericValue) : Res (Value C) :=
  match op with
  | Add => ok (checked_numeric l r (fun a b => checked_i64 (a + b)) f64_add)
  | Sub => ok (checked_numeric l r (fun a b => checked_i64 (a - b)) f64_sub)
  | Mul => ok (checked_numeric l r (fun a b => checked_i64 (a * b)) f64_mul)
  | Div =>
      if f64_eq (number_as_f64 r) (S754_zero false) then err "division by zero"
      else
        let quotient := ok (Float (f64_div (number_as_f64 l) (number_as_f64 r))) in
        match l, r with
        | NInt a, NInt b =>
            olet m := i64_rem a b in
            if (m =? 0)%Z then olet q := i64_div a b in ok (Int q) else quotient
        | _, _ => quotient
        end
  | Mod =>
      let b := f64_as_i64 (number_as_f64 r) in
      if (b =? 0)%Z then err "modulo by zero"
      else
        let a := f64_as_i64 (number_as_f64 l) in
        ok (Int (default 0%Z (checked_rem a b)))
  | Concat | Pow | BitAnd | BitOr | BitXor | ShiftLeft | ShiftRight => err "operation is not arithmetic"
  end%Z.

Definition native_power (l r : NumericValue) : Value C :=
  let float := Float (powf (number_as_f64 l) (number_as_f64 r)) in
  match l, r with
  | NInt a, NInt b =>
      if (0 <=? b)%Z then
        match u32_try_from b with
        | Some exponent => match checked_pow a exponent with Some z => Int z | None => float end
        | None => float
        end
      else float
  | _, _ => float
  end.

(** ** Bits *)

(** The loop of [bitwise_string_or] reads both strings up to the longer length. *)
Fixpoint bitwise_or_loop (l r : bytes) (i : nat) (n : nat) (acc : bytes) : bytes :=
  match n with
  | O => acc
  | S n =>
      match l !! i, r !! i with
      | Some x, Some y => bitwise_or_loop l r (i + 1) n (acc ++ [byte_op N.lor x y])
      | Some x, None => bitwise_or_loop l r (i + 1) n (acc ++ [x])
      | None, Some y => bitwise_or_loop l r (i + 1) n (acc ++ [y])
      | None, None => acc
      end
  end.
Definition bitwise_string_or (l r : bytes) : bytes :=
  bitwise_or_loop l r 0 (length l `max` length r) [].

Definition native_bitwise (depth : nat) (op : NativeBinaryOp) (l r : Value C) : Res (Value C) :=
  let integers :=
    rlet a := to_int bk st depth l in
    rlet b := to_int bk st depth r in
    match op with
    | BitAnd => ok (Int (Z.land a b))
    | BitOr => ok (Int (Z.lor a b))
    | BitXor => ok (Int (Z.lxor a b))
    | ShiftLeft => if (b <? 0)%Z then err "bit shift by negative number" else ok (Int (wrapping_shl a b))
    | ShiftRight => if (b <? 0)%Z then err "bit shift by negative number" else ok (Int (wrapping_shr a b))
    | _ => err "operation is not bitwise"
    end in
  match l, r with
  | Str x, Str y =>
      match op with
      | BitAnd => ok (Str (zip_with (byte_op N.land) x y))
      | BitXor => ok (Str (zip_with (byte_op N.lxor) x y))
      | BitOr => ok (Str (bitwise_string_or x y))
      | _ => integers
      end
  | _, _ => integers
  end.

(** ** Array union *)

(** The left array is shared with its operand: the first insertion separates it
    as the storage [id].  The keys of the right one are cloned. *)
Fixpoint union_loop (depth : nat) (id : N) (result : ArrayStorage) (r : list (ArrayKey * Value C)) :
    outcome (ArrayStorage (V := Value C)) :=
  match r with
  | [] => Ret result
  | (k, v) :: r =>
      match get result k with
      | Some _ => union_loop depth id result r
      | None =>
          olet v := effective_value depth v in
          olet (_, result) := insert (set_storage_id result id) k true v in
          union_loop depth id result r
      end
  end.

Definition array_union (depth : nat) (id : N) (l r : Value C) : outcome (option (Value C)) :=
  olet l := effective_value depth l in
  match l with
  | Array a =>
      olet r := effective_value depth r in
      match r with
      | Array b => olet u := union_loop depth id a (iter b) in Ret (Some (Array u))
      | _ => Ret None
      end
  | _ => Ret None
  end.

(** ** The operations *)

Definition compute_unary (depth : nat) (op : NativeUnaryOp) (src : Value C) : Res (Value C) :=
  match op with
  | Plus => rmap number_value (to_number bk st depth src)
  | Minus =>
      rmap (fun n => match n with
                     | NInt z => match checked_i64 (- z) with
                                 | Some z => Int z
                                 | None => Float (f64_neg (i64_as_f64 z))
                                 end
                     | NFloat x => Float (f64_neg x)
                     end) (to_number bk st depth src)
  | Not => rmap (fun b => Bool (negb b)) (to_bool st depth src)
  | BitNot =>
      olet v := effective_value depth src in
      match v with
      | Int z => ok (Int (Z.lnot z))
      | Str l => ok (Str (byte_not <$> l))
      | Float x => ok (Int (Z.lnot (php_float_to_int x)))
      | _ => err "bitwise not requires int or string"
      end
  end.

Definition compute_arithmetic (depth : nat) (op : NativeBinaryOp) (l r : Value C) : Res (Value C) :=
  rlet p := both (to_number bk st depth l) (to_number bk st depth r) in native_arithmetic op p.1 p.2.

Definition compute_binary (depth : nat) (id : N) (op : NativeBinaryOp) (l r : Value C) : Res (Value C) :=
  match op with
  | Concat => rmap (fun p => Str (p.1 ++ p.2)) (both (to_string st depth l) (to_string st depth r))
  | BitAnd | BitOr | BitXor | ShiftLeft | ShiftRight => native_bitwise depth op l r
  | Pow => rmap (fun p => native_power p.1 p.2) (both (to_number bk st depth l) (to_number bk st depth r))
  | Add =>
      olet u := array_union depth id l r in
      match u with
      | Some u => ok u
      | None => compute_arithmetic depth op l r
      end
  | Sub | Mul | Div | Mod => compute_arithmetic depth op l r
  end.

Definition is_lt (c : comparison) : bool := match c with Lt => true | _ => false end.
Definition is_gt (c : comparison) : bool := match c with Gt => true | _ => false end.
Definition order_value (c : comparison) : Z := match c with Lt => -1 | Eq => 0 | Gt => 1 end.

Definition compute_compare (depth : nat) (op : NativeCompareOp) (l r : Value C) : Res (Value C) :=
  match op with
  | Identical => olet b := identical st depth l r in ok (Bool b)
  | NotIdentical => olet b := identical st depth l r in ok (Bool (negb b))
  | Equal => rmap Bool (equal bk st depth l r)
  | NotEqual => rmap (fun b => Bool (negb b)) (equal bk st depth l r)
  | Less => rmap (fun c => Bool (is_lt c)) (compare bk st depth l r)
  | LessEqual => rmap (fun c => Bool (negb (is_gt c))) (compare bk st depth l r)
  | Greater =>
      olet u := numeric_comparison_is_unordered st depth l r in
      if u then ok (Bool false) else rmap (fun c => Bool (is_gt c)) (compare bk st depth l r)
  | GreaterEqual =>
      olet u := numeric_comparison_is_unordered st depth l r in
      if u then ok (Bool false) else rmap (fun c => Bool (negb (is_lt c))) (compare bk st depth l r)
  | Spaceship => rmap (fun c => Int (order_value c)) (compare bk st depth l r)
  end.

Definition compute_cast (depth : nat) (id : N) (op : NativeCastOp) (src : Value C) : Res (Value C) :=
  match op with
  | CastBool => rmap Bool (to_bool st depth src)
  | CastInt => rmap Int (to_int bk st depth src)
  | CastFloat => rmap Float (to_float bk st depth src)
  | CastString => rmap Str (to_string st depth src)
  | CastArray => rmap Array (to_array_php bk st id depth src)
  | CastObject => to_object_php st depth src
  | CastVoid => ok Null
  end.

Definition baseline_unary (depth : nat) context op src out : outcome Published :=
  publish_operation context (compute_unary depth op src) out.
Definition baseline_binary (depth : nat) (id : N) context op l r out : outcome Published :=
  publish_operation context (compute_binary depth id op l r) out.
Definition baseline_compare (depth : nat) context op l r out : outcome Published :=
  publish_operation context (compute_compare depth op l r) out.
Definition baseline_cast (depth : nat) (id : N) context op src out : outcome Published :=
  publish_operation context (compute_cast depth id op src) out.

Definition native_echo (depth : nat) context (output : OutputBuffer) (v : Value C) :
    outcome (NativeOperationStatus * NativeOperationContext * OutputBuffer) :=
  let context := safepoint context in
  olet r := to_string st depth v in
  Ret (match r with
       | Ok text => (StatusOk, context, write_php_string output text)
       | Err text => (fail context "E_NATIVE_ECHO" text, output)
       end).
End NativeOps.
