(* ===== verification/NativeOpsProofs.v ===== *)
(** * NativeOpsProofs: the native operations on integers, arrays and errors *)

From Stdlib Require Import Strings.String Strings.Byte ZArith Floats.SpecFloat.
From stdpp Require Import base list option numbers gmap fin_maps.
From S2P Require Import Prelude RustStd RustNum RustFloat FloatText Simd ByteKernel ByteKernelProofs PhpString NumericString NumericStringProofs PhpArray PhpArrayProofs PhpArraySpec PhpArrayClaims Output Convert ConvertProofs Compare CompareProofs CompareClaims NativeOps.

#[local] Open Scope Z_scope.

(** ** Integers *)

Lemma in_i64_range z : in_i64 z = true <-> - 2 ^ 63 <= z < 2 ^ 63.
Proof. unfold in_i64, I64_MIN, I64_MAX. rewrite andb_true_iff, !Z.leb_le. lia. Qed.

Lemma checked_range z : checked_i64 z = Some z <-> - 2 ^ 63 <= z < 2 ^ 63.
Proof.
  unfold checked_i64. rewrite <- in_i64_range. by destruct (in_i64 z).
Qed.

Lemma checked_out z : z < - 2 ^ 63 \/ 2 ^ 63 <= z -> checked_i64 z = None.
Proof.
  intros Hz. unfold checked_i64. destruct (in_i64 z) eqn:E; [|done]. apply in_i64_range in E. lia.
Qed.

Lemma checked_Some z w : checked_i64 z = Some w -> w = z /\ - 2 ^ 63 <= z < 2 ^ 63.
Proof.
  unfold checked_i64. destruct (in_i64 z) eqn:E; [|done]. apply in_i64_range in E. by intros [= <-].
Qed.

Lemma wrap_range z : - 2 ^ 63 <= wrap_i64 z < 2 ^ 63.
Proof. unfold wrap_i64. pose proof (Z.mod_pos_bound (z + 2 ^ 63) (2 ^ 64)). lia. Qed.

(** A factor of a product in range is in range. *)
Lemma factor_range a b : b <> 0 -> - 2 ^ 63 <= a * b < 2 ^ 63 -> Z.abs a <= 2 ^ 63.
Proof. intros Hb H. assert (Z.abs a * Z.abs b <= 2 ^ 63) by (rewrite <- Z.abs_mul; lia). nia. Qed.

Lemma square_not_pow63 z : z * z <> 2 ^ 63.
Proof.
  intros E. assert (Z.abs z < 3037000500 \/ 3037000500 <= Z.abs z) as [H|H] by lia;
    rewrite <- (Z.abs_square z) in E; nia.
Qed.

Lemma square_checked b : Z.abs (b * b) <= 2 ^ 63 -> checked_i64 (b * b) = Some (b * b).
Proof.
  intros H. apply checked_range. pose proof (square_not_pow63 b). pose proof (Z.square_nonneg b). lia.
Qed.

Lemma pow_even b e : b ^ Zpos (xO e) = (b * b) ^ Zpos e.
Proof. rewrite Z.pow_mul_l, <- Z.pow_add_r by lia. f_equal. lia. Qed.
Lemma pow_odd b e : b ^ Zpos (xI e) = b * (b * b) ^ Zpos e.
Proof.
  rewrite Z.pow_mul_l, <- Z.pow_add_r by lia. rewrite <- Z.pow_succ_r by lia. f_equal. lia.
Qed.

Lemma pow_loop_zero e : checked_pow_loop 0 0 e = Some 0.
Proof.
  induction e as [e IH|e IH|]; cbn [checked_pow_loop]; change (checked_i64 (0 * 0)) with (Some 0); done.
Qed.

(** Squaring the base and multiplying the accumulator overflow only when the
    power does. *)
Lemma pow_loop_exact e : forall b acc,
  acc <> 0 -> (b = -1 -> Z.abs acc = 1) -> - 2 ^ 63 <= acc < 2 ^ 63 ->
  checked_pow_loop b acc e = checked_i64 (acc * b ^ Zpos e).
Proof.
  assert (forall b e, b <> 0 -> 0 < Z.abs (b ^ Zpos e)) as Hnz.
  { intros b e' Hb. pose proof (Z.pow_nonzero b (Zpos e')). lia. }
  assert (forall (b acc : Z) e, acc <> 0 -> b <> 0 -> checked_i64 (b * b) = None ->
            checked_i64 (acc * (b * b) ^ Zpos e) = None) as Hsq.
  { intros b acc e' Ha Hb Hn. destruct (checked_i64 (acc * (b * b) ^ Zpos e')) as [z|] eqn:E; [|done].
    apply checked_Some in E as [_ Hr]. exfalso. enough (checked_i64 (b * b) = Some (b * b)) by congruence.
    apply square_checked. replace (Zpos e') with (Z.succ (Zpos e' - 1)) in Hr by lia.
    rewrite Z.pow_succ_r, (Z.mul_comm (b * b)), Z.mul_assoc, Z.mul_comm in Hr by lia.
    apply factor_range in Hr; [done|]. pose proof (Z.pow_nonzero (b * b) (Zpos e' - 1)). nia. }
  induction e as [e IH|e IH|]; intros b acc Ha Hm Hr; cbn [checked_pow_loop mbind option_bind].
  - rewrite pow_odd. destruct (Z.eq_dec b 0) as [->|Hb].
    { rewrite Z.mul_0_r. change (0 * _) with 0. rewrite Z.mul_0_r. change (checked_i64 0) with (Some 0). cbn [mbind option_bind].
      apply pow_loop_zero. }
    rewrite Z.mul_assoc. destruct (checked_i64 (acc * b)) as [z|] eqn:E.
    + apply checked_Some in E as [-> Hr']. cbn [mbind option_bind].
      destruct (checked_i64 (b * b)) as [z|] eqn:E2; [|by rewrite (Hsq b (acc * b)) by (nia || done)].
      apply checked_Some in E2 as [-> _]. apply IH; [nia|nia|done].
    + symmetry. destruct (checked_i64 (acc * b * (b * b) ^ Zpos e)) as [z|] eqn:E2; [|done]. exfalso.
      apply checked_Some in E2 as [_ Hr2]. pose proof Hr2 as Hf. apply factor_range in Hf; [|apply Z.pow_nonzero; nia].
      enough (acc * b <> 2 ^ 63) by (assert (checked_i64 (acc * b) = Some (acc * b)) by (apply checked_range; lia); congruence).
      intros E3. rewrite E3 in Hr2. destruct (Z.eq_dec b (-1)) as [->|Hb1]; [specialize (Hm eq_refl); lia|].
      destruct (Z.eq_dec b 1) as [->|Hb2]; [lia|].
      assert (4 <= (b * b) ^ Zpos e); [|lia]. transitivity ((b * b) ^ 1); [nia|]. apply Z.pow_le_mono_r; nia.
  - rewrite pow_even. destruct (Z.eq_dec b 0) as [->|Hb].
    { cbn [mbind option_bind]. change (checked_i64 (0 * 0)) with (Some 0). cbn [mbind option_bind].
      rewrite (IH 0 acc) by lia. done. }
    destruct (checked_i64 (b * b)) as [z|] eqn:E2; [|by rewrite Hsq].
    apply checked_Some in E2 as [-> _]. cbn [mbind option_bind]. apply IH; [done|nia|done].
  - f_equal. lia.
Qed.

Lemma checked_pow_exact a e :
  0 <= e -> - 2 ^ 63 <= a < 2 ^ 63 -> checked_pow a e = checked_i64 (a ^ e).
Proof.
  intros He Ha. destruct e as [|e|e]; [done| |lia]. unfold checked_pow.
  rewrite pow_loop_exact by lia. by rewrite Z.mul_1_l.
Qed.

(** ** A non-zero integer is a non-zero double *)

Lemma shr_1_half r : 0 <= shr_m r -> shr_m (shr_1 r) = shr_m r / 2.
Proof.
  destruct r as [[|[p|p|]|[p|p|]] b s]; cbn [shr_1 shr_m]; intros H; try lia; try done;
    [apply (Z.div_unique_pos _ 2 _ 1)|apply (Z.div_unique_pos _ 2 _ 0)]; lia.
Qed.

Lemma shr_divides r e n : 0 <= shr_m r -> shr_m (shr r e n).1 = shr_m r / 2 ^ Z.max 0 n.
Proof.
  intros Hr. destruct n as [|p|p]; cbn [shr fst]; try (by rewrite Z.div_1_r).
  replace (Z.max 0 (Zpos p)) with (Zpos p) by lia. revert r Hr.
  assert (forall p r, 0 <= shr_m r -> 0 <= shr_m (SpecFloat.iter_pos shr_1 p r)) as Hnn.
  { intros q r Hr. apply (shr_nonneg r 0 (Zpos q) Hr). }
  induction p as [p IH|p IH|]; intros r Hr; cbn [SpecFloat.iter_pos]; [..|by rewrite shr_1_half].
  - pose proof (shr_1_nonneg r Hr). rewrite !IH, shr_1_half by auto.
    rewrite !Z.div_div by (try apply Z.pow_pos_nonneg; try apply Z.pow_nonzero; lia).
    f_equal. replace (Zpos p~1) with (1 + Zpos p + Zpos p) by lia. rewrite !Z.pow_add_r by lia. lia.
  - rewrite !IH by auto. rewrite Z.div_div by (try apply Z.pow_pos_nonneg; try apply Z.pow_nonzero; lia).
    f_equal. replace (Zpos p~0) with (Zpos p + Zpos p) by lia. by rewrite Z.pow_add_r by lia.
Qed.

Lemma shr_fexp_pos m e l :
  0 < m -> -1074 <= e -> 0 < shr_m (shr_fexp 53 1024 m e l).1 /\ -1074 <= (shr_fexp 53 1024 m e l).2.
Proof.
  intros Hm He. destruct m as [|p|p]; [lia| |lia]. unfold shr_fexp.
  assert (shr_m (shr_record_of_loc (Zpos p) l) = Zpos p) as El by (by destruct l as [|[]]).
  rewrite shr_divides by (rewrite El; lia). rewrite El. unfold fexp, emin. cbn [Zdigits2].
  pose proof (digits2_pos_spec p) as [Hd _]. set (d := Zpos (digits2_pos p)) in *. split.
  - apply Z.div_str_pos. split; [apply Z.pow_pos_nonneg; lia|]. etransitivity; [|exact Hd].
    apply Z.pow_le_mono_r; lia.
  - set (n := _ - e). assert ((shr (shr_record_of_loc (Zpos p) l) e n).2 = e + Z.max 0 n) as ->; [|lia].
    destruct n; cbn [shr snd]; lia.
Qed.

Lemma round_aux_nonzero s m e l b : 0 < m -> -1074 <= e -> binary_round_aux 53 1024 s m e l <> S754_zero b.
Proof.
  intros Hm He. unfold binary_round_aux. pose proof (shr_fexp_pos m e l Hm He) as [H1 H1'].
  destruct (shr_fexp 53 1024 m e l) as [r e']. cbn [fst snd] in *.
  set (m' := round_nearest_even _ _). assert (0 < m') as Hm' by (subst m'; unfold round_nearest_even; repeat case_match; lia).
  pose proof (shr_fexp_pos m' e' loc_Exact Hm' H1') as [H2 _]. destruct (shr_fexp 53 1024 m' e' loc_Exact) as [r' e''].
  cbn [fst] in H2. destruct (shr_m r') as [|p|p]; [lia|by case_match|lia].
Qed.

Lemma i64_as_f64_zero n : f64_eq (i64_as_f64 n) (S754_zero false) = (n =? 0).
Proof.
  assert (n <> 0 -> forall b, i64_as_f64 n <> S754_zero b) as H.
  { intros Hn b. unfold i64_as_f64, binary_normalize, binary_round. destruct n as [|p|p]; [done|..].
    all: set (f := fexp _ _ _); destruct (Z.le_ge_cases f 0) as [Hle|Hge];
      [destruct (shl_align_down p 0 f Hle) as [_ E2]|rewrite (shl_align_up p 0 f Hge)].
    all: try (destruct (shl_align p 0 f) as [mz ez]; cbn [snd] in E2; subst ez).
    all: apply round_aux_nonzero; [lia|unfold f, fexp, emin in *; lia]. }
  destruct (n =? 0) eqn:E; [by apply Z.eqb_eq in E as ->|]. apply Z.eqb_neq in E. specialize (H E).
  unfold f64_eq, SFeqb. destruct (i64_as_f64 n) as [[]|[]| |[] m e]; try done; by edestruct H.
Qed.

(** ** Operators on integers *)

Section Integers.
Context {C : Type} `{CallableEq C} (bk : backend) `{FloatEnv} `{KeyClassifier} (st : Store C).

Definition succeeds (context : NativeOperationContext) (v : Value C) :
    outcome (NativeOperationStatus * NativeOperationContext * Value C) :=
  Ret (StatusOk, safepoint context, v).
Definition fails (context : NativeOperationContext) (out : Value C) (text : string) :
    outcome (NativeOperationStatus * NativeOperationContext * Value C) :=
  Ret (RuntimeError, mk_context (Some "E_NATIVE_RUNTIME_OPERATION"%string) (Some text)
                       (userland_call_requested context) (safepoints (safepoint context)), out).

(** The exact integer when it fits, else the double. *)
Definition int_or_float (z : Z) (x : f64) : Value C := if in_i64 z then Int z else Float x.

Lemma checked_or_float z x : match checked_i64 z with Some z => Int z | None => Float x end = int_or_float z x.
Proof. unfold checked_i64, int_or_float. by destruct (in_i64 z). Qed.

Lemma division_cases a b context out :
  in_i64 a = true -> in_i64 b = true ->
  publish_operation context (native_arithmetic Div (NInt a) (NInt b)) out =
  if b =? 0 then fails context out "division by zero"
  else if (a =? - 2 ^ 63) && (b =? -1) then Panic
  else if a mod b =? 0 then succeeds context (Int (a / b))
  else succeeds context (Float (f64_div (i64_as_f64 a) (i64_as_f64 b))).
Proof.
  intros Ha Hb. cbn [native_arithmetic number_as_f64]. rewrite i64_as_f64_zero.
  destruct (b =? 0) eqn:Eb; [done|]. unfold i64_rem, i64_div, division_panics. rewrite Eb. cbn [orb].
  change I64_MIN with (- 2 ^ 63). apply Z.eqb_neq in Eb.
  destruct ((a =? - 2 ^ 63) && (b =? -1)); [done|]. cbn [obind].
  assert ((Z.rem a b =? 0) = (a mod b =? 0)) as ->.
  { apply eq_true_iff_eq. rewrite !Z.eqb_eq, Z.rem_divide, Z.mod_divide by done. done. }
  destruct (a mod b =? 0) eqn:Em; [|done]. apply Z.eqb_eq in Em.
  assert (Z.quot a b = a / b) as ->; [|done].
  apply Z.mod_divide in Em as [q ->]; [|done]. by rewrite Z.quot_mul, Z.div_mul.
Qed.

(** A double conversion keeps integers of at most 53 bits. *)
Lemma modulo_cases a b context out :
  Z.abs a <= 2 ^ 53 -> Z.abs b <= 2 ^ 53 ->
  publish_operation context (native_arithmetic Mod (NInt a) (NInt b)) out =
  if b =? 0 then fails context out "modulo by zero" else succeeds context (Int (Z.rem a b)).
Proof.
  intros Ha Hb. cbn [native_arithmetic number_as_f64]. rewrite !i64_f64_i64 by done.
  destruct (b =? 0) eqn:Eb; [done|]. unfold checked_rem, division_panics. rewrite Eb.
  destruct (a =? I64_MIN) eqn:E; [|done]. apply Z.eqb_eq in E. unfold I64_MIN in E. lia.
Qed.

Lemma shift_small n : 0 <= n -> shift_amount n = n mod 64.
Proof.
  intros Hn. unfold shift_amount. rewrite <- (Z.mod_mod_divide n (2 ^ 32) 64); [done|]. by exists (2 ^ 26).
Qed.

Lemma shift_cases a b d context out id :
  baseline_binary bk st (S d) id context ShiftLeft (Int a) (Int b) out =
    (if b <? 0 then fails context out "bit shift by negative number"
     else succeeds context (Int (wrap_i64 (a * 2 ^ (b mod 64))))) /\
  baseline_binary bk st (S d) id context ShiftRight (Int a) (Int b) out =
    (if b <? 0 then fails context out "bit shift by negative number"
     else succeeds context (Int (a / 2 ^ (b mod 64)))).
Proof.
  unfold baseline_binary. cbn [compute_binary]. unfold native_bitwise. cbn [to_int].
  unfold ok, rbind. cbn [obind]. destruct (b <? 0) eqn:Eb; [done|]. apply Z.ltb_ge in Eb.
  unfold wrapping_shl, wrapping_shr. rewrite shift_small by done.
  pose proof (Z.mod_pos_bound b 64). by rewrite Z.shiftl_mul_pow2, Z.shiftr_div_pow2 by lia.
Qed.


(** The remainder operator converts both integers to doubles and back.  It
    is exact for operands of at most 53 bits; beyond, it is not: the remainder of
    9007199254740993 by 10 comes out as 2.  Shifts use the amount modulo 64, so a
    shift by 64 is no shift, and a negative amount is an error. *)
Theorem native_modulo_and_shifts a b d id context out :
  let run op a b := baseline_binary bk st (S d) id context op (Int a) (Int b) out in
  (Z.abs a <= 2 ^ 53 -> Z.abs b <= 2 ^ 53 ->
   run Mod a b = if b =? 0 then fails context out "modulo by zero" else succeeds context (Int (Z.rem a b))) /\
  run Mod 9007199254740993 10 = succeeds context (Int 2) /\
  run ShiftLeft a b = (if b <? 0 then fails context out "bit shift by negative number"
                       else succeeds context (Int (wrap_i64 (a * 2 ^ (b mod 64))))) /\
  run ShiftRight a b = (if b <? 0 then fails context out "bit shift by negative number"
                        else succeeds context (Int (a / 2 ^ (b mod 64)))).
Proof.
  split_and!; try apply shift_cases.
  - intros Ha Hb. unfold baseline_binary. cbn [compute_binary].
    change (compute_arithmetic bk st (S d) Mod (Int a) (Int b)) with (native_arithmetic (C := C) Mod (NInt a) (NInt b)).
    by apply modulo_cases.
  - unfold baseline_binary. cbn [compute_binary].
    change (compute_arithmetic bk st (S d) Mod (Int ?a) (Int ?b)) with (native_arithmetic (C := C) Mod (NInt a) (NInt b)).
    cbn [native_arithmetic number_as_f64].
    assert (f64_as_i64 (i64_as_f64 9007199254740993) = 9007199254740992) as -> by (vm_compute; reflexivity).
    assert (f64_as_i64 (i64_as_f64 10) = 10) as -> by (vm_compute; reflexivity). done.
Qed.
End Integers.

Section Witnesses.
#[local] Instance any_callables : CallableEq unit := fun _ _ => true.
Definition no_context : NativeOperationContext := mk_context None None false 0.
Definition no_store : Store unit := mk_store ∅ ∅.


Lemma native_modulo_and_shifts_witness :
  baseline_binary BScalar no_store 1 7 no_context Mod (Int (-7)) (Int 3) Null = succeeds no_context (Int (-1)) /\
  baseline_binary BScalar no_store 1 7 no_context ShiftLeft (Int 5) (Int 64) Null = succeeds no_context (Int 5).
Proof.
  split.
  - by apply (native_modulo_and_shifts BScalar no_store (-7) 3 0 7 no_context Null).
  - by apply (native_modulo_and_shifts BScalar no_store 5 64 0 7 no_context Null).
Defined.
End Witnesses.
