(* ===== verification/NativeOpsClaims.v ===== *)
(** * NativeOpsClaims: what the native operations promise *)

From Stdlib Require Import Strings.String Strings.Byte ZArith Floats.SpecFloat.
From stdpp Require Import base list option numbers gmap fin_maps.
From S2P Require Import Prelude RustStd RustNum RustFloat FloatText Simd ByteKernel ByteKernelProofs PhpString NumericString NumericStringProofs PhpArray PhpArrayProofs PhpArraySpec PhpArrayClaims Output Convert ConvertProofs Compare CompareProofs CompareClaims NativeOps NativeOpsProofs.

(** ** Keys *)

Section Keys.
Context {V : Type}.
Implicit Types l : list (ArrayKey * V).

Definition has_key (k : ArrayKey) l : bool := bool_decide (k ∈ l.*1).

Lemma find_pos_key k l : find_pos k l = None <-> has_key k l = false.
Proof.
  unfold find_pos, has_key. rewrite position_None, bool_decide_eq_false. unfold none_is. split.
  - intros Hf Hin. apply list_elem_of_fmap in Hin as ([k' v] & -> & Hin).
    apply (proj1 (Forall_forall _ _) Hf) in Hin. cbn in Hin. by rewrite bool_decide_true in Hin.
  - intros Hn. apply Forall_forall. intros [k' v] Hin. cbn. apply bool_decide_eq_false. intros ->.
    apply Hn. apply list_elem_of_fmap. by exists (k, v).
Qed.

Lemma lookup_key_none k l : lookup_key k l = None <-> has_key k l = false.
Proof.
  rewrite <- find_pos_key. unfold lookup_key. destruct (find_pos k l) as [i|] eqn:E; [|done].
  apply position_Some in E as [(p & Ei & _) _]. rewrite Ei. done.
Qed.

Lemma has_key_snoc k k' v l : k <> k' -> has_key k (l ++ [(k', v)]) = has_key k l.
Proof.
  intros Hk. apply bool_decide_ext. rewrite fmap_app, elem_of_app. cbn. rewrite list_elem_of_singleton. naive_solver.
Qed.
End Keys.

(** ** Array union *)

Section Union.
Context {C : Type} `{KeyClassifier} (st : Store C).

(** The value behind the references. *)
Definition resolved (d : nat) (v : Value C) : Value C :=
  match effective_value st d v with Ret w => w | _ => v end.

Lemma effective_settles P n v : wf st P n v -> settles n (fun d => effective_value st d v).
Proof.
  revert v. induction n as [|n IH]; intros v Hv; [done|]. destruct v as [| | | | | | | | | | | |c];
    try (eexists; intros [|d] Hd; [lia|]; reflexivity).
  destruct Hv as (_ & w & E & Hw). destruct (IH w Hw) as [r Hr]. exists r. intros [|d] Hd; [lia|].
  cbn [effective_value]. unfold deref. rewrite E. apply Hr. lia.
Qed.

Lemma effective_resolved P n v d : wf st P n v -> n <= d -> effective_value st d v = Ret (resolved n v).
Proof.
  intros Hv Hd. destruct (effective_settles P n v Hv) as [r Hr]. unfold resolved.
  rewrite (Hr n) by lia. by apply Hr.
Qed.

Lemma effective_direct d v : (forall c, v <> Reference c) -> effective_value st (S d) v = Ret v.
Proof. destruct v; try done. intros Hn. by edestruct Hn. Qed.

Lemma set_id_ok (a : ArrayStorage (V := Value C)) id : array_ok a -> array_ok (set_storage_id a id).
Proof. intros [H1 H2 H3 H4]. by split. Qed.

Definition missing (a : ArrayStorage (V := Value C)) (r : list (ArrayKey * Value C)) : list (ArrayKey * Value C) :=
  List.filter (fun p => negb (has_key p.1 (iter a))) r.

Lemma union_loop_ok P n id r a :
  array_ok a -> Forall key_ok r.*1 -> NoDup r.*1 -> Forall (fun p => wf st P n p.2) r ->
  exists u, (forall d, n <= d -> union_loop st d id a r = Ret u) /\ array_ok u /\
            iter u = iter a ++ ((fun p => (p.1, resolved n p.2)) <$> missing a r).
Proof.
  revert a. induction r as [|[k v] r IH]; intros a Ha Hk Hnd Hw.
  { exists a. split_and!; [done..|]. cbn. by rewrite app_nil_r. }
  apply Forall_cons in Hk as [Hk Hks]. apply NoDup_cons in Hnd as [Hni Hnd]. apply Forall_cons in Hw as [Hv Hw].
  unfold missing. cbn [List.filter fst]. destruct (has_key k (iter a)) eqn:Eh; cbn [negb].
  - destruct (IH a Ha Hks Hnd Hw) as (u & Hu & Hok & Hit). exists u. split_and!; [|done..].
    intros d Hd. cbn [union_loop]. rewrite get_ok by done.
    destruct (lookup_key k (iter a)) eqn:El; [by apply Hu|]. apply lookup_key_none in El. congruence.
  - destruct (insert_ok (set_storage_id a id) k true (resolved n v) (set_id_ok a id Ha) Hk) as (x & a' & Ei & Ha' & Hs).
    assert (iter a' = iter a ++ [(k, resolved n v)]) as Hit'.
    { unfold spec_insert in Hs. cbn [abs pairs] in Hs. change (iter (set_storage_id a id)) with (iter a) in Hs.
      rewrite (proj2 (find_pos_key k (iter a)) Eh) in Hs. injection Hs as _ E _. done. }
    destruct (IH a' Ha' Hks Hnd Hw) as (u & Hu & Hok & Hit). exists u. split_and!; [|done|].
    + intros d Hd. cbn [union_loop]. rewrite get_ok by done. rewrite (proj2 (lookup_key_none k (iter a)) Eh).
      rewrite (effective_resolved P n v d Hv Hd). cbn [obind]. rewrite Ei. cbn [obind]. by apply Hu.
    + rewrite Hit, Hit', <- app_assoc. f_equal. cbn. f_equal. unfold missing. f_equal.
      apply List.filter_ext_in. intros [k' v'] Hin. cbn [fst]. rewrite Hit', has_key_snoc; [done|].
      intros ->. apply Hni, list_elem_of_fmap. exists (k, v'). split; [done|]. by apply list_elem_of_In.
Qed.

Lemma union_settles P n m id l r :
  wf st P n l -> wf st P m r ->
  exists o, (forall d, n + m <= d -> array_union st d id l r = Ret o) /\
    (forall a b, l = Array a -> r = Array b ->
       exists u, o = Some (Array u) /\ array_ok u /\
                 iter u = iter a ++ ((fun p => (p.1, resolved m p.2)) <$> missing a (iter b))).
Proof.
  intros Hl Hr. unfold array_union.
  assert (forall x v, wf st P x v -> exists y, wf st P y (resolved x v) /\ 0 < y <= x /\ forall c, resolved x v <> Reference c) as Hres.
  { intros x. induction x as [|x IH]; intros v Hv; [done|]. unfold resolved. destruct v; try (exists (S x); split_and!; done || lia).
    destruct Hv as (_ & w & E & Hw). cbn [effective_value]. unfold deref. rewrite E. cbn [obind].
    destruct (IH w Hw) as (y & Hy & Hle & Hne). unfold resolved in *. rewrite (effective_resolved P x w x Hw ltac:(lia)) in *.
    unfold resolved in *. exists y. split_and!; [done|lia..|done]. }
  destruct (Hres n l Hl) as (n' & Hl' & Hn' & _). destruct (Hres m r Hr) as (m' & Hr' & Hm' & _).
  assert (forall d, n + m <= d -> effective_value st d l = Ret (resolved n l) /\ effective_value st d r = Ret (resolved m r)) as He.
  { intros d Hd. split; eapply effective_resolved; eauto; lia. }
  assert (forall a b, resolved n l = Array a -> resolved m r = Array b ->
    exists u, (forall d, n + m <= d -> union_loop st d id a (iter b) = Ret u) /\ array_ok u /\
              iter u = iter a ++ ((fun p => (p.1, resolved m p.2)) <$> missing a (iter b))) as Hu.
  { intros a b Ea Eb. rewrite Ea in Hl'. rewrite Eb in Hr'. destruct n' as [|n']; [done|]. destruct m' as [|m']; [done|].
    destruct Hl' as (_ & Ha & _). destruct Hr' as (_ & Hb & Fb).
    destruct (union_loop_ok P m id (iter b) a) as (u & H1 & H2 & H3); [done|by apply (keys_ok b Hb)|by apply keys_nodup, layout_consistent| |].
    - eapply Forall_impl; [exact Fb|]. intros p Hp. assert (m' < m) as Hlt by lia. clear -Hp Hlt.
      induction Hlt; by apply wf_S.
    - exists u. split_and!; [|done..]. intros d Hd. apply H1. lia. }
  assert (forall v x, 0 < x -> (forall c, v <> Reference c) -> resolved x v = v) as Hdir.
  { intros v [|x] Hx Hne; [lia|]. unfold resolved. by rewrite effective_direct. }
  assert (forall a b, l = Array a -> r = Array b -> resolved n l = Array a /\ resolved m r = Array b) as Hab.
  { intros a b -> ->. split; apply Hdir; (lia || done). }
  destruct (resolved n l) as [| | | | | |a| | | | | |] eqn:El;
    try (exists None; split; [intros d Hd; destruct (He d Hd) as [-> _]; done | intros a' b' E1 E2; destruct (Hab a' b' E1 E2); done]).
  destruct (resolved m r) as [| | | | | |b| | | | | |] eqn:Er;
    try (exists None; split; [intros d Hd; destruct (He d Hd) as [-> ->]; done | intros a' b' E1 E2; destruct (Hab a' b' E1 E2); done]).
  destruct (Hu a b eq_refl eq_refl) as (u & H1 & H2 & H3). exists (Some (Array u)). split.
  - intros d Hd. destruct (He d Hd) as [-> ->]. cbn [obind]. by rewrite H1.
  - intros a' b' E1 E2. destruct (Hab a' b' E1 E2) as [[= <-] [= <-]]. by exists u.
Qed.
End Union.

(** ** Every operation returns *)

Section Total.
Context {C : Type} `{CallableEq C} (bk : backend) `{FloatEnvLaws} `{KeyClassifier} (st : Store C).

Ltac settle_value IH :=
  match goal with
  | Hv : wf st _ (S _) (Reference _) |- _ =>
      destruct Hv as (_ & w & E & Hw); destruct (IH w Hw) as [r Hr]; exists r; intros [|d] Hd; [lia|];
      cbn; unfold deref; rewrite E; cbn; apply Hr; lia
  | _ => eexists; intros [|d] Hd; [lia|]; reflexivity
  end.

Lemma to_int_settles P n v : wf st P n v -> settles n (fun d => to_int bk st d v).
Proof.
  revert v. induction n as [|n IH]; intros v Hv; [done|]. destruct v as [|[]| | |l| | | | | | | |];
    try settle_value IH.
  destruct (classify_returns bk l) as [x Ex]. eexists. intros [|d] Hd; [lia|]. cbn. by rewrite Ex.
Qed.

Lemma to_float_settles P n v : wf st P n v -> settles n (fun d => to_float bk st d v).
Proof.
  revert v. induction n as [|n IH]; intros v Hv; [done|]. destruct v as [|[]| | |l| | | | | | | |];
    try settle_value IH.
  destruct (classify_returns bk l) as [x Ex]. eexists. intros [|d] Hd; [lia|]. cbn. by rewrite Ex.
Qed.

Lemma to_object_settles P n v : wf st P n v -> settles n (fun d => to_object_php st d v).
Proof.
  revert v. induction n as [|n IH]; intros v Hv; [done|]. destruct v; settle_value IH.
Qed.

Lemma new_array_ok id : array_ok (V := Value C) (new_array id).
Proof. apply (from_packed_ok id []). unfold start_ok, I64_MAX. cbn. lia. Qed.

Lemma php_key_ok l : exists k, from_php_string bk l = Ret k /\ key_ok k.
Proof.
  destruct (array_key_spec bk l) as (r & E & Hr). unfold from_php_string. rewrite E. eexists. split; [done|].
  destruct r as [z|]; [|done]. by apply Hr.
Qed.

Lemma insert_properties_ok ps (a : ArrayStorage (V := Value C)) :
  array_ok a -> exists u, insert_properties bk a ps = Ret u /\ array_ok u.
Proof.
  revert a. induction ps as [|[name v] ps IH]; intros a Ha; cbn [insert_properties]; [by exists a|].
  destruct (php_key_ok name) as (k & -> & Hk). cbn [obind].
  destruct (insert_ok a k false v Ha Hk) as (r & u & -> & Hu & _). cbn [obind]. by apply IH.
Qed.

Lemma append_returns (a : ArrayStorage (V := Value C)) v : array_ok a -> exists k u, append a v = Ret (k, u).
Proof.
  intros Ha. unfold append. destruct (try_append_ok a v Ha) as (k & u & -> & _). cbn [obind]. eauto.
Qed.

Lemma to_array_settles P n id v : wf st P n v -> settles n (fun d => to_array_php bk st id d v).
Proof.
  revert v. induction n as [|n IH]; intros v Hv; [done|].
  assert (exists k u, append (new_array id) v = Ret (k, u)) as (k & u & Ea) by apply append_returns, new_array_ok.
  destruct v as [| | | | | |a|o| | | | |c]; try settle_value IH;
    try (eexists; intros [|d] Hd; [lia|]; cbn [to_array_php]; by rewrite Ea).
  destruct Hv as (_ & s & E & _).
  destruct (insert_properties_ok (array_cast_snapshot s) (new_array id) (new_array_ok id)) as (w & Ew & _).
  eexists. intros [|d] Hd; [lia|]. cbn [to_array_php]. unfold object. rewrite E. cbn [obind]. by rewrite Ew.
Qed.

Lemma unordered_settles P n l m r :
  wf st P n l -> wf st P m r -> settles (n + m) (fun d => numeric_comparison_is_unordered st d l r).
Proof.
  remember (n + m) as k eqn:Ek. revert n m l r Ek. induction k as [|k IH]; intros n m l r Ek Hl Hr.
  { destruct n; [done|lia]. }
  destruct n as [|n]; [done|]. destruct m as [|m]; [done|]. apply settles_S.
  assert (forall c, l = Reference c -> settles k (fun d => obind (deref st c) (fun v => numeric_comparison_is_unordered st d v r))) as Hleft.
  { intros c ->. destruct Hl as (_ & w & E & Hw). eapply deref_settles; [done|]. apply (IH n (S m)); [lia|done..]. }
  assert (forall c, r = Reference c -> settles k (fun d => obind (deref st c) (fun v => numeric_comparison_is_unordered st d l v))) as Hright.
  { intros c ->. destruct Hr as (_ & w & E & Hw). eapply deref_settles; [done|]. apply (IH (S n) m); [lia|done..]. }
  destruct l; destruct r; cbn [numeric_comparison_is_unordered]; try apply settles_ret;
    try (apply Hright; reflexivity); apply Hleft; reflexivity.
Qed.

Lemma both_settles {A B} D (f : nat -> Res A) (g : nat -> Res B) :
  settles D f -> settles D g -> settles D (fun d => both (f d) (g d)).
Proof.
  intros Hf Hg. unfold both. apply (settles_obind D f); [done|]. intros x. apply (settles_obind D g); [done|].
  intros y. destruct x, y; apply settles_ret.
Qed.

Lemma compute_unary_settles P n op v : wf st P n v -> settles n (fun d => compute_unary bk st d op v).
Proof.
  intros Hv. destruct op; cbn [compute_unary].
  - by eapply settles_rmap, to_number_settles.
  - by eapply settles_rmap, to_number_settles.
  - by eapply settles_rmap, to_bool_settles.
  - apply settles_obind; [by eapply effective_settles|]. intros w. destruct w; apply settles_ret.
Qed.

Lemma compute_compare_settles P n m op l r :
  wf st P n l -> wf st P m r -> settles (2 * (n + m) + 1) (fun d => compute_compare bk st d op l r).
Proof.
  intros Hl Hr. destruct (comparisons_settle bk st P (n + m) n m l r ltac:(lia) Hl Hr) as [Hc He].
  pose proof (identical_settles st P n l m r Hl Hr) as Hi.
  apply (settles_mono _ (2 * (n + m) + 1)) in Hc, Hi; [|lia..].
  pose proof (unordered_settles P n l m r Hl Hr) as Hu. apply (settles_mono _ (2 * (n + m) + 1)) in Hu; [|lia].
  destruct op; cbn [compute_compare]; try (by apply settles_rmap);
    try (apply settles_obind; [done|]; intros b; apply settles_ret).
  all: apply settles_obind; [done|]; intros []; [apply settles_ret|by apply settles_rmap].
Qed.

Lemma compute_cast_settles P n id op v : wf st P n v -> settles n (fun d => compute_cast bk st d id op v).
Proof.
  intros Hv. destruct op; cbn [compute_cast]; try apply settles_ret; try apply settles_rmap.
  - by eapply to_bool_settles.
  - by eapply to_int_settles.
  - by eapply to_float_settles.
  - by eapply to_string_settles.
  - by eapply to_array_settles.
  - by eapply to_object_settles.
Qed.

Lemma bitwise_settles P n m op l r :
  wf st P n l -> wf st P m r -> settles (n + m) (fun d => native_bitwise bk st d op l r).
Proof.
  intros Hl Hr. unfold native_bitwise.
  assert (forall k : Z -> Z -> Res (Value C), (forall a b, exists x, k a b = Ret x) ->
    settles (n + m) (fun d => rbind (to_int bk st d l) (fun a => rbind (to_int bk st d r) (fun b => k a b)))) as Hk.
  { intros k Hk. apply settles_rbind; [eapply settles_mono; [by eapply to_int_settles|lia]|]. intros a.
    apply settles_rbind; [eapply settles_mono; [by eapply to_int_settles|lia]|]. intros b.
    destruct (Hk a b) as [x Ex]. by exists x. }
  assert (forall a b, exists x : result (Value C), match op with
    | BitAnd => ok (Int (Z.land a b)) | BitOr => ok (Int (Z.lor a b)) | BitXor => ok (Int (Z.lxor a b))
    | ShiftLeft => if (b <? 0)%Z then err "bit shift by negative number" else ok (Int (wrapping_shl a b))
    | ShiftRight => if (b <? 0)%Z then err "bit shift by negative number" else ok (Int (wrapping_shr a b))
    | _ => err "operation is not bitwise" end = Ret x) as Hx.
  { intros a b. destruct op; try case_match; by eexists. }
  destruct l; try exact (Hk _ Hx). destruct r; try exact (Hk _ Hx).
  destruct op; try exact (Hk _ Hx); apply settles_ret.
Qed.

(** Division panics only on the smallest integer by minus one. *)
Lemma arithmetic_returns op x y :
  (exists r, native_arithmetic (C := C) op x y = Ret r) \/
  op = Div /\ x = NInt I64_MIN /\ y = NInt (-1) /\ native_arithmetic (C := C) op x y = Panic.
Proof.
  destruct op; cbn [native_arithmetic]; try (left; by eexists); [|left; case_match; by eexists].
  destruct (f64_eq (number_as_f64 y) (S754_zero false)) eqn:Ez; [left; by eexists|].
  destruct x as [a|x], y as [b|y]; try (left; by eexists). unfold i64_rem, i64_div.
  destruct (division_panics a b) eqn:E.
  - right. unfold division_panics in E. cbn [number_as_f64] in Ez. rewrite i64_as_f64_zero in Ez. rewrite Ez in E.
    apply andb_true_iff in E as [->%Z.eqb_eq ->%Z.eqb_eq]. done.
  - left. cbn [obind]. case_match; by eexists.
Qed.

Lemma compute_arithmetic_settles P n m op l r :
  wf st P n l -> wf st P m r ->
  settles (n + m) (fun d => compute_arithmetic bk st d op l r) \/
  op = Div /\ forall d, n + m <= d ->
    to_number bk st d l = ok (NInt I64_MIN) /\ to_number bk st d r = ok (NInt (-1)) /\
    compute_arithmetic bk st d op l r = Panic.
Proof.
  intros Hl Hr. destruct (to_number_settles bk st P n l Hl) as [x Hx]. destruct (to_number_settles bk st P m r Hr) as [y Hy].
  assert (forall d, n + m <= d -> compute_arithmetic bk st d op l r =
    rbind (both (Ret x) (Ret y)) (fun p => native_arithmetic op p.1 p.2)) as Hc.
  { intros d Hd. unfold compute_arithmetic. by rewrite Hx, Hy by lia. }
  destruct x as [x|e]; [|left; exists (Err e); intros d Hd; by rewrite Hc].
  destruct y as [y|e]; [|left; exists (Err e); intros d Hd; by rewrite Hc].
  destruct (arithmetic_returns op x y) as [[v Hv]|(-> & -> & -> & Hp)].
  - left. exists v. intros d Hd. rewrite Hc by done. exact Hv.
  - right. split; [done|]. intros d Hd. rewrite Hx, Hy, Hc by lia. done.
Qed.

Lemma compute_binary_settles P n m id op l r :
  wf st P n l -> wf st P m r ->
  settles (n + m) (fun d => compute_binary bk st d id op l r) \/
  op = Div /\ forall d, n + m <= d ->
    to_number bk st d l = ok (NInt I64_MIN) /\ to_number bk st d r = ok (NInt (-1)) /\
    compute_binary bk st d id op l r = Panic.
Proof.
  intros Hl Hr. pose proof (compute_arithmetic_settles P n m op l r Hl Hr) as Ha.
  destruct op; cbn [compute_binary]; try exact Ha; try (left; by eapply bitwise_settles); left.
  - destruct (union_settles st P n m id l r Hl Hr) as (o & Ho & _).
    apply (settles_obind (n + m) (fun d => array_union st d id l r)); [by exists o|].
    intros [u|]; [apply settles_ret|]. by destruct Ha as [Ha|[? _]].
  - apply settles_rmap, both_settles; (eapply settles_mono; [by eapply to_string_settles|lia]).
  - apply settles_rmap, both_settles; (eapply settles_mono; [by eapply to_number_settles|lia]).
Qed.
End Total.

(** ** Integer results are in range *)

Section Range.
Context {C : Type} `{CallableEq C} (bk : backend) `{FloatEnv} `{KeyClassifier} (st : Store C).
#[local] Open Scope Z_scope.

Lemma f64_as_i64_range x : in_i64 (f64_as_i64 x) = true.
Proof.
  apply in_i64_range. unfold f64_as_i64, saturate_i64, I64_MIN, I64_MAX. destruct x as [|[]| |[]]; lia.
Qed.

Lemma float_to_int_range x : in_i64 (php_float_to_int x) = true.
Proof. unfold php_float_to_int. repeat case_match; try apply f64_as_i64_range. done. Qed.

Lemma wrap_in_i64 z : in_i64 (wrap_i64 z) = true.
Proof. apply in_i64_range, wrap_range. Qed.

Lemma classified_range l n z : classified l n -> NumericString.value n = Some (VInt z) -> in_i64 z = true.
Proof.
  intros [Hn|w s i f e r n' El Hw Hs Hi Hf He Hne Hmax Hv _ _]; [done|]. rewrite Hv. unfold numeric_value.
  destruct f, e; cbn [parsed_value]; try done. unfold checked_i64.
  destruct (in_i64 (signed s (digits_val i))) eqn:E; cbn [parsed_value]; [|done]. by intros [= <-].
Qed.

Lemma classify_range l n z : classify bk l = Ret n -> NumericString.value n = Some (VInt z) -> in_i64 z = true.
Proof.
  intros E. destruct (classify_classified bk l) as (n' & E' & Hc). rewrite E in E'. injection E' as <-.
  by apply (classified_range l).
Qed.

Lemma to_number_range P n v d z : wf st P n v -> to_number bk st d v = ok (NInt z) -> in_i64 z = true.
Proof.
  revert n v. induction d as [|d IH]; intros n v Hv; [done|]. destruct n as [|n]; [done|].
  destruct v as [|[]|a| |l| | | | | | | |c]; cbn [to_number]; try (by intros [= <-]); try done.
  - destruct Hv as [_ Hz]. by intros [= <-].
  - unfold arithmetic_numeric_string, arithmetic_numeric_string_with_warning, rmap, rbind.
    destruct (classify bk l) as [x| |] eqn:E; try done. cbn [obind].
    destruct (kind x), (NumericString.value x) as [[w|w]|] eqn:Ev; cbn; intros [= <-]; by apply (classify_range l x).
  - intros [= <-]. apply wrap_in_i64.
  - destruct Hv as (_ & w & E & Hw). unfold deref. rewrite E. by apply (IH n).
Qed.

Lemma to_int_range P n v d z : wf st P n v -> to_int bk st d v = ok z -> in_i64 z = true.
Proof.
  revert n v. induction d as [|d IH]; intros n v Hv; [done|]. destruct n as [|n]; [done|].
  destruct v as [|[]|a|x|l| |a| | | | | |c]; cbn [to_int]; try (by intros [= <-]); try done.
  - destruct Hv as [_ Hz]. by intros [= <-].
  - intros [= <-]. apply float_to_int_range.
  - destruct (classify bk l) as [x| |] eqn:E; try done. cbn [obind]. intros [= <-].
    destruct (NumericString.value x) as [[w|w]|] eqn:Ev; cbn; [by apply (classify_range l x)|apply f64_as_i64_range|done].
  - intros [= <-]. by destruct (is_empty a).
  - intros [= <-]. apply wrap_in_i64.
  - destruct Hv as (_ & w & E & Hw). unfold deref. rewrite E. by apply (IH n).
Qed.

(** A number is in range when all its bits from the 63rd on are equal. *)
Lemma range_shiftr z : in_i64 z = true <-> Z.shiftr z 63 = 0 \/ Z.shiftr z 63 = -1.
Proof.
  rewrite in_i64_range, Z.shiftr_div_pow2 by lia. pose proof (Z.div_mod z (2 ^ 63) ltac:(lia)).
  pose proof (Z.mod_pos_bound z (2 ^ 63) ltac:(lia)). split; [|lia]. intros Hz.
  assert (z / 2 ^ 63 < 1) by (apply Z.div_lt_upper_bound; lia). assert (-1 <= z / 2 ^ 63) by (apply Z.div_le_lower_bound; lia). lia.
Qed.

Lemma bit_ops_range a b : in_i64 a = true -> in_i64 b = true ->
  in_i64 (Z.land a b) = true /\ in_i64 (Z.lor a b) = true /\ in_i64 (Z.lxor a b) = true /\ in_i64 (Z.lnot a) = true.
Proof.
  rewrite !range_shiftr, Z.shiftr_land, Z.shiftr_lor, Z.shiftr_lxor.
  intros Ha Hb. split_and!; [destruct Ha as [-> | ->], Hb as [-> | ->]; auto..|].
  apply range_shiftr. apply range_shiftr, in_i64_range in Ha. apply in_i64_range. unfold Z.lnot. lia.
Qed.

Lemma shiftr_range a n : in_i64 a = true -> in_i64 (wrapping_shr a n) = true.
Proof.
  rewrite !in_i64_range. intros Ha. unfold wrapping_shr, shift_amount.
  pose proof (Z.mod_pos_bound (n mod 2 ^ 32) 64 ltac:(lia)) as Hn. set (k := (_ mod 64)) in *.
  rewrite Z.shiftr_div_pow2 by lia. pose proof (Z.pow_pos_nonneg 2 k ltac:(lia) ltac:(lia)).
  split; [apply Z.div_le_lower_bound|apply Z.div_lt_upper_bound]; nia.
Qed.

Lemma quot_rem_range a b : in_i64 a = true -> division_panics a b = false ->
  in_i64 (Z.quot a b) = true /\ in_i64 (Z.rem a b) = true.
Proof.
  rewrite !in_i64_range. unfold division_panics. intros Ha Hp. apply orb_false_iff in Hp as [Hb%Z.eqb_neq Hp].
  split.
  - assert (a <> I64_MIN \/ b <> -1) as Hne by (destruct (a =? I64_MIN) eqn:E; [right; by apply Z.eqb_neq|left; by apply Z.eqb_neq]).
    unfold I64_MIN in Hne. pose proof (Z.quot_abs a b Hb) as Hq. assert (Z.quot (Z.abs a) (Z.abs b) <= Z.abs a) by (apply Z.quot_le_upper_bound; nia).
    destruct (Z.eq_dec a (- 2 ^ 63)) as [->|Hmin]; [|lia].
    destruct (Z.eq_dec (Z.abs b) 1) as [Hb1|Hb1]; [assert (b = 1) as -> by lia; by rewrite Z.quot_1_r|].
    assert (Z.quot (Z.abs (- 2 ^ 63)) (Z.abs b) <= 2 ^ 62); [|lia].
    apply Z.quot_le_upper_bound; lia.
  - pose proof (Z.rem_bound_abs a b Hb). pose proof (Z.rem_sign_mul a b Hb). pose proof (Z.quot_rem' a b) as E.
    assert (Z.abs (Z.rem a b) <= Z.abs a). { rewrite <- Z.rem_abs by done. apply Z.rem_le; lia. } nia.
Qed.
End Range.

(** The integers that the computations give. *)
Section RangeOf.
Context {C : Type} `{CallableEq C} (bk : backend) `{FloatEnv} `{KeyClassifier} (st : Store C).

Definition int_ok (v : Value C) : Prop := forall z, v = Int z -> in_i64 z = true.

Lemma rmap_ok {A B} (f : A -> B) (m : Res A) b : rmap f m = ok b -> exists a, m = ok a /\ b = f a.
Proof.
  unfold rmap, rbind. destruct m as [[a|e]| |]; try done. cbn. intros [= <-]. by exists a.
Qed.

Lemma both_ok {A B} (l : Res A) (r : Res B) p : both l r = ok p -> l = ok p.1 /\ r = ok p.2.
Proof.
  unfold both. destruct l as [[a|e]| |]; try done; destruct r as [[b|e']| |]; try done. cbn. by intros [= <-].
Qed.

Lemma checked_int_ok z x : int_ok (match checked_i64 z with Some z => Int z | None => Float x end).
Proof. unfold checked_i64. destruct (in_i64 z) eqn:E; by intros w [= <-]. Qed.

Lemma checked_numeric_ok l r g float : int_ok (checked_numeric l r (fun a b => checked_i64 (g a b)) float).
Proof. unfold checked_numeric. destruct l, r; try done. apply checked_int_ok. Qed.

Lemma arithmetic_int_ok op x y v :
  (forall z, x = NInt z -> in_i64 z = true) -> native_arithmetic op x y = ok v -> int_ok v.
Proof.
  intros Hx. destruct op; cbn [native_arithmetic]; try (intros [= <-]; apply checked_numeric_ok); try done.
  - destruct (f64_eq _ _); [done|]. destruct x as [a|x], y as [b|y]; try (by intros [= <-]). unfold i64_rem, i64_div.
    destruct (division_panics a b) eqn:E; [done|]. cbn [obind].
    destruct (_ =? 0)%Z; intros [= <-]; [|done]. intros w [= <-]. by apply quot_rem_range; [apply Hx|].
  - destruct (_ =? 0)%Z; [done|]. intros [= <-] w [= <-]. unfold checked_rem.
    destruct (division_panics _ _) eqn:E; [done|]. by apply quot_rem_range; [apply f64_as_i64_range|].
Qed.

Lemma power_int_ok x y : (forall z, x = NInt z -> in_i64 z = true) -> int_ok (native_power (C := C) x y).
Proof.
  intros Hx. unfold native_power. destruct x as [a|x], y as [b|y]; try done.
  destruct (0 <=? b)%Z eqn:Eb; [|done]. unfold u32_try_from. destruct (_ && _); [|done].
  apply Z.leb_le in Eb. rewrite checked_pow_exact by (done || by apply in_i64_range, Hx). apply checked_int_ok.
Qed.

Lemma bitwise_int_ok P n m d op l r v :
  wf st P n l -> wf st P m r -> native_bitwise bk st d op l r = ok v -> int_ok v.
Proof.
  intros Hl Hr. unfold native_bitwise.
  assert (forall k : Z -> Z -> Res (Value C), (forall a b, in_i64 a = true -> in_i64 b = true -> k a b = ok v -> int_ok v) ->
    rbind (to_int bk st d l) (fun a => rbind (to_int bk st d r) (fun b => k a b)) = ok v -> int_ok v) as Hk.
  { intros k Hk. unfold rbind. destruct (to_int bk st d l) as [[a|e]| |] eqn:Ea; try done. cbn [obind].
    destruct (to_int bk st d r) as [[b|e]| |] eqn:Eb; try done. cbn [obind]. apply Hk.
    - by eapply (to_int_range bk st P n l d).
    - by eapply (to_int_range bk st P m r d). }
  match goal with |- context [rbind _ (fun a => rbind _ (fun b => @?k a b))] => specialize (Hk k) end.
  cbv beta in Hk. match type of Hk with _ -> ?R => assert R as Hi end.
  { apply Hk. intros a b Ha Hb. pose proof (bit_ops_range a b Ha Hb) as (H1' & H2' & H3' & _).
    destruct op; try done; try case_match; try done; intros [= <-] w [= <-]; try done;
      [apply wrap_in_i64|by apply shiftr_range]. }
  destruct l; try exact Hi. destruct r; try exact Hi. destruct op; try exact Hi; intros [= <-]; done.
Qed.

Lemma binary_int_ok P n m d id op l r v :
  wf st P n l -> wf st P m r -> compute_binary bk st d id op l r = ok v -> int_ok v.
Proof.
  intros Hl Hr. assert (compute_arithmetic bk st d op l r = ok v -> int_ok v) as Ha.
  { unfold compute_arithmetic, rbind. destruct (both _ _) as [[p|e]| |] eqn:E; try done. cbn [obind].
    apply both_ok in E as [E1 E2]. apply arithmetic_int_ok. intros z Ez. rewrite Ez in E1.
    by apply (to_number_range bk st P n l d). }
  destruct op; cbn [compute_binary]; try exact Ha; try (by eapply bitwise_int_ok).
  - unfold array_union. destruct (effective_value st d l) as [w| |]; try done. cbn [obind]. destruct w; try exact Ha.
    destruct (effective_value st d r) as [w| |]; try done. cbn [obind]. destruct w; try exact Ha.
    destruct (union_loop _ _ _ _ _) as [u| |]; try done. cbn. by intros [= <-].
  - intros (p & _ & ->)%rmap_ok. done.
  - intros (p & E & ->)%rmap_ok. apply both_ok in E as [E1 _]. apply power_int_ok. intros z Ez. rewrite Ez in E1.
    by apply (to_number_range bk st P n l d).
Qed.

Lemma unary_int_ok P n d op l v : wf st P n l -> compute_unary bk st d op l = ok v -> int_ok v.
Proof.
  intros Hl. destruct op; cbn [compute_unary].
  - intros ([z|x] & E & ->)%rmap_ok; [|done]. intros w [= <-]. by apply (to_number_range bk st P n l d).
  - intros ([z|x] & E & ->)%rmap_ok; [|done]. apply checked_int_ok.
  - intros (b & _ & ->)%rmap_ok. done.
  - destruct (effective_value st d l) as [w| |] eqn:E; try done. cbn [obind]. destruct w; try done; intros [= <-]; try done.
    + intros w [= <-]. assert (in_i64 z = true) as Hz.
      { apply (to_number_range bk st P n l d); [done|]. revert n l Hl E. clear.
        induction d as [|d IH]; intros n l Hl; [done|]. destruct l; cbn [effective_value to_number]; try done.
        - by intros [= ->].
        - destruct n as [|n]; [done|]. destruct Hl as (_ & w & E & Hw). unfold deref. rewrite E. by apply (IH n). }
      by apply (bit_ops_range z 0).
    + intros w [= <-]. by apply (bit_ops_range _ 0); [apply float_to_int_range|].
Qed.

Lemma published_int context (compute : Res (Value C)) out context' z :
  publish_operation context compute out = Ret (StatusOk, context', Int z) ->
  (forall v, compute = ok v -> int_ok v) -> in_i64 z = true.
Proof.
  unfold publish_operation. destruct compute as [[v|e]| |]; try done. cbn. intros [= <- ->] Hv.
  by apply (Hv (Int z)).
Qed.
End RangeOf.

(** ** NaN *)

Section NaN.
Context {C : Type} `{CallableEq C} (bk : backend) `{FloatEnvLaws} (st : Store C).

Definition number_or_text (v : Value C) : Prop := match v with Int _ | Float _ | Str _ => True | _ => False end.

(** A comparison with NaN reports [Greater]. *)
Lemma nan_compare l r d :
  number_or_text l -> number_or_text r -> is_nan_number l || is_nan_number r = true ->
  compare bk st (S d) l r = ok Gt.
Proof.
  intros Hl Hr Hn. change (compare bk st (S d) l r) with (compare_step bk st (equal bk st d) (compare bk st d) (S d) l r).
  destruct l as [| |a|x|s| | | | | | | |]; try done; destruct r as [| |b|y|t| | | | | | | |]; try done;
    cbn [is_nan_number orb] in Hn; rewrite ?orb_false_r in Hn; cbn [compare_step to_number]; unfold rbind, ok; cbn [obind].
  1-3: unfold compare_numbers; cbn [number_as_f64]; rewrite ?i64_as_f64_not_nan, ?Hn; done.
  - destruct (numeric_string_returns bk t) as [o Eo]. cbn [compare_number_and_string]. rewrite Eo. cbn [obind].
    destruct o as [z|]; [|cbn [is_nan_number]; by rewrite Hn]. unfold rbind. cbn [to_number ok obind]. unfold compare_numbers.
    cbn [number_as_f64]. by rewrite Hn.
  - destruct (numeric_string_returns bk s) as [o Eo]. cbn [compare_number_and_string]. rewrite Eo. cbn [obind].
    destruct o as [z|]; [|cbn [is_nan_number]; by rewrite Hn]. unfold rbind. cbn [to_number ok obind]. unfold compare_numbers.
    cbn [number_as_f64]. rewrite Hn, orb_true_r. by destruct z.
Qed.
End NaN.

(** ** Claims *)

Section Claims.
Context {C : Type} `{CallableEq C} (bk : backend) `{FloatEnvLaws} `{KeyClassifier} (st : Store C).

(** What an operation leaves behind: a value and the status of success, or a
    diagnostic, a message and the output slot as it was. *)
Definition reports (context : NativeOperationContext) (out : Value C)
    (p : NativeOperationStatus * NativeOperationContext * Value C) : Prop :=
  (exists v, succeeds context v = Ret p) \/ (exists text, fails context out text = Ret p).

Lemma publish_settles D context out (f : nat -> Res (Value C)) :
  settles D f -> exists p, (forall d, D <= d -> publish_operation context (f d) out = Ret p) /\ reports context out p.
Proof.
  intros [r Hr]. exists (publish context r out). split.
  - intros d Hd. unfold publish_operation. by rewrite Hr.
  - destruct r as [v|text]; [left; by exists v|right; by exists text].
Qed.

(** C16: on values of depth [n] and [m] with live handles, consistent arrays and
    numbers in range, every native operator, comparison and cast returns, with
    success and a value or with a diagnostic and the output slot untouched, and
    counts one safepoint; the only exception is the division of the smallest
    integer by minus one, which panics. *)
Theorem native_operations_return n m l r id context out :
  wf st (fun _ => True) n l -> wf st (fun _ => True) m r ->
  (forall op, exists p, (forall d, n <= d -> baseline_unary bk st d context op l out = Ret p) /\ reports context out p) /\
  (forall op, exists p, (forall d, n <= d -> baseline_cast bk st d id context op l out = Ret p) /\ reports context out p) /\
  (forall op, exists p, (forall d, 2 * (n + m) + 1 <= d -> baseline_compare bk st d context op l r out = Ret p) /\ reports context out p) /\
  (forall op, (exists p, (forall d, n + m <= d -> baseline_binary bk st d id context op l r out = Ret p) /\ reports context out p) \/
     op = Div /\ forall d, n + m <= d ->
       to_number bk st d l = ok (NInt I64_MIN) /\ to_number bk st d r = ok (NInt (-1)) /\
       baseline_binary bk st d id context op l r out = Panic).
Proof.
  intros Hl Hr. split_and!; intros op.
  - by eapply publish_settles, compute_unary_settles.
  - by eapply publish_settles, compute_cast_settles.
  - by eapply publish_settles, compute_compare_settles.
  - destruct (compute_binary_settles bk st _ n m id op l r Hl Hr) as [Hs|[-> Hp]].
    + left. by apply publish_settles.
    + right. split; [done|]. intros d Hd. destruct (Hp d Hd) as (-> & -> & E). split_and!; [done..|].
      unfold baseline_binary, publish_operation. by rewrite E.
Qed.

(** The sum of two arrays is the left array followed by the elements of the
    right one whose keys the left one does not have, in their order, with
    references in the added elements replaced by their values; it is a
    consistent array. *)
Theorem array_union_ordered n m a b id context out :
  wf st (fun _ => True) n (Array a) -> wf st (fun _ => True) m (Array b) ->
  exists u, (forall d, n + m <= d ->
      baseline_binary bk st d id context Add (Array a) (Array b) out = succeeds context (Array u)) /\
    array_ok u /\
    iter u = iter a ++ ((fun p => (p.1, resolved st m p.2)) <$> List.filter (fun p => negb (has_key p.1 (iter a))) (iter b)).
Proof.
  intros Ha Hb. destruct (union_settles st _ n m id _ _ Ha Hb) as (o & Ho & Hu).
  destruct (Hu a b eq_refl eq_refl) as (u & -> & Hok & Hit). exists u. split_and!; [|done..].
  intros d Hd. unfold baseline_binary. cbn [compute_binary]. by rewrite Ho.
Qed.


(** On scalars other than NaN the comparison operators are one consistent
    order: [a > b] is [b < a], [a >= b] is the opposite of [a < b], [a <= b] the
    opposite of [a > b], and the spaceship operators of both directions are
    opposite.  As soon as an operand is NaN and both are numbers or strings, the
    four ordering operators give false. *)
Theorem native_order_operators l r d context out :
  let run op a b := baseline_compare bk st (S d) context op a b out in
  (ordered_scalar l -> ordered_scalar r ->
   exists c, run Less l r = succeeds context (Bool (is_lt c)) /\ run Greater r l = succeeds context (Bool (is_lt c)) /\
     run GreaterEqual l r = succeeds context (Bool (negb (is_lt c))) /\
     run Greater l r = succeeds context (Bool (is_gt c)) /\
     run LessEqual l r = succeeds context (Bool (negb (is_gt c))) /\
     run Spaceship l r = succeeds context (Int (order_value c)) /\
     run Spaceship r l = succeeds context (Int (- order_value c))) /\
  (number_or_text l -> number_or_text r -> is_nan_number l || is_nan_number r = true ->
   forall op, op = Less \/ op = LessEqual \/ op = Greater \/ op = GreaterEqual ->
   run op l r = succeeds context (Bool false)).
Proof.
  intros run. split.
  - intros Hl Hr. destruct (scalar_order bk st l r Hl Hr) as (c & Hc & _). destruct (Hc d) as [E1 E2].
    exists c. assert (forall a b, ordered_scalar a -> ordered_scalar b -> numeric_comparison_is_unordered st (S d) a b = Ret false) as Hu.
    { intros a b Ha Hb. pose proof (is_nan_ordered a Ha) as Na. pose proof (is_nan_ordered b Hb) as Nb.
      destruct a; try done; destruct b; try done; cbn [numeric_comparison_is_unordered]; by rewrite ?Na, ?Nb. }
    unfold run, baseline_compare. cbn [compute_compare]. rewrite (Hu l r Hl Hr), (Hu r l Hr Hl). cbn [obind].
    rewrite E1, E2. unfold succeeds. by destruct c.
  - intros Hl Hr Hn. assert (numeric_comparison_is_unordered st (S d) l r = Ret true) as Hu.
    { destruct l; try done; destruct r; try done; cbn [numeric_comparison_is_unordered]; by rewrite Hn. }
    pose proof (nan_compare bk st l r d Hl Hr Hn) as Hc.
    intros op [-> | [-> | [-> | ->]]]; unfold run, baseline_compare; cbn [compute_compare]; rewrite ?Hu, ?Hc; done.
Qed.

(** Echo returns.  The text of a value that converts to a string is added
    at the end of the output, behind everything written before; otherwise the
    output is as it was and the failure is reported. *)
Theorem echo_output n v context (output : OutputBuffer) :
  wf st (fun _ => True) n v ->
  exists r, (forall d, n <= d -> to_string st d v = Ret r) /\
  match r with
  | Ok text => exists output', (forall d, n <= d -> native_echo st d context output v = Ret (StatusOk, safepoint context, output')) /\
      all_output output' = all_output output ++ text /\ levels output' = spec_write (levels output) text
  | Err text => forall d, n <= d ->
      native_echo st d context output v = Ret (fail (safepoint context) "E_NATIVE_ECHO" text, output)
  end.
Proof.
  intros Hv. destruct (to_string_settles st _ n v Hv) as [r Hr]. exists r. split; [done|].
  destruct r as [text|e].
  - exists (write_php_string output text). split_and!.
    + intros d Hd. unfold native_echo. by rewrite Hr.
    + by rewrite !all_output_levels, levels_write, spec_all_write.
    + apply levels_write.
  - intros d Hd. unfold native_echo. by rewrite Hr.
Qed.
End Claims.

Section Witnesses.
#[local] Instance any_callables' : CallableEq unit := fun _ _ => true.

Lemma native_operations_return_witness :
  exists p, (forall d, 2 * (2 + 2) + 1 <= d ->
    baseline_compare BScalar sample_store d no_context Spaceship (Array one_array) (Array one_array) Null = Ret p) /\
    reports no_context Null p.
Proof. apply (native_operations_return BScalar sample_store 2 2 _ _ 7 no_context Null); by apply one_array_wf. Defined.

Lemma array_union_ordered_witness :
  exists u, (forall d, 2 + 2 <= d ->
      baseline_binary BScalar sample_store d 7 no_context Add (Array one_array) (Array one_array) Null = succeeds no_context (Array u)) /\
    array_ok u /\ iter u = iter one_array.
Proof.
  destruct (array_union_ordered BScalar sample_store 2 2 one_array one_array 7 no_context Null) as (u & H1 & H2 & H3);
    [by apply one_array_wf..|]. exists u. split_and!; [done..|]. rewrite H3. by vm_compute.
Defined.


Lemma native_order_operators_witness :
  baseline_compare BScalar sample_store 1 no_context LessEqual (Float S754_nan) (Int 1) Null =
  succeeds no_context (Bool false).
Proof. apply (native_order_operators BScalar sample_store (Float S754_nan) (Int 1) 0 no_context Null); [done..|]. auto. Defined.

Lemma echo_output_witness :
  exists r, (forall d, 1 <= d -> to_string sample_store d (Int 12) = Ret r) /\
  match r with
  | Ok text => exists output', (forall d, 1 <= d -> native_echo sample_store d no_context new_output (Int 12) = Ret (StatusOk, safepoint no_context, output')) /\
      all_output output' = all_output new_output ++ text /\ levels output' = spec_write (levels new_output) text
  | Err text => forall d, 1 <= d ->
      native_echo sample_store d no_context new_output (Int 12) = Ret (fail (safepoint no_context) "E_NATIVE_ECHO" text, new_output)
  end.
Proof. apply (echo_output sample_store 1 (Int 12) no_context new_output). done. Defined.
End Witnesses.
