(* ===== verification/Names.v ===== *)
(** * Names: source names, imports, declarations and their resolution

    [php_semantics/src/hir/names.rs] and [symbols/]: qualified names with their
    canonical spellings, the interner, the import table and the collection of
    [use] clauses from the syntax tree, the declaration table, and the resolver.

    A [HashMap] is a [gmap]; the tables keep their entries in a list that the map
    indexes, and a method that takes [&mut self] returns the changed table.  The
    cursor over a [use] declaration is a state; the loop over the clauses of a
    group takes a bound on its rounds. *)

From Stdlib Require Import Strings.String Strings.Byte.
From stdpp Require Import base list option numbers gmap fin_maps.
From S2P Require Import Prelude RustStd RustText Source Token SyntaxTree PhpString.

Definition lowercase (l : bytes) : bytes := to_ascii_lowercase <$> l.

(** [text.split(x)] and [parts.join(x)] of one ASCII character *)
Fixpoint split (x : byte) (l : bytes) : list bytes :=
  match l with
  | [] => [[]]
  | y :: l =>
      if y =b x then [] :: split x l
      else match split x l with
           | part :: parts => (y :: part) :: parts
           | [] => [[y]]
           end
  end.
Fixpoint join (x : byte) (parts : list bytes) : bytes :=
  match parts with
  | [] => []
  | [part] => part
  | part :: parts => part ++ x :: join x parts
  end.

(** ** [hir/names.rs] *)

Inductive NameKind := ClassLike | Function | Constant | Namespace | Label | VariableName.
#[export] Instance NameKind_eq_dec : EqDecision NameKind.
Proof. solve_decision. Defined.
Definition NameKind_code (k : NameKind) : nat :=
  match k with ClassLike => 0 | Function => 1 | Constant => 2 | Namespace => 3 | Label => 4 | VariableName => 5 end.
Definition NameKind_decode (n : nat) : option NameKind :=
  match n with 0 => Some ClassLike | 1 => Some Function | 2 => Some Constant | 3 => Some Namespace | 4 => Some Label | 5 => Some VariableName | _ => None end.
#[export] Program Instance NameKind_countable : Countable NameKind := inj_countable NameKind_code NameKind_decode _.
Next Obligation. by intros []. Qed.

Definition is_case_insensitive (k : NameKind) : bool :=
  match k with ClassLike | Function | Namespace | Label => true | Constant | VariableName => false end.

Record NamePart := mk_part { part_original : bytes; ascii_lowercase : bytes }.
Definition NamePart_new (original : bytes) : NamePart := mk_part original (lowercase original).
Definition part_canonical (kind : NameKind) (p : NamePart) : bytes :=
  if is_case_insensitive kind then ascii_lowercase p else part_original p.

Record QualifiedName := mk_qualified {
  raw : bytes; parts : list NamePart; leading_slash : bool; namespace_relative : bool }.
Record FullyQualifiedName := mk_fqn { fqn_parts : list NamePart }.

Definition backslash : byte := x5c.

Module QualifiedName.
Definition parse (text : bytes) : QualifiedName :=
  let leading_slash := starts_with [backslash] text in
  let without_leading := default text (strip_prefix [backslash] text) in
  let raw_parts := List.filter (fun part => negb (length part =? 0)%nat) (split backslash without_leading) in
  let namespace_relative :=
    negb leading_slash && (1 <? length raw_parts)%nat &&
    match head raw_parts with Some part => eq_ignore_ascii_case part (lit "namespace") | None => false end in
  let semantic_parts := if namespace_relative then drop 1 raw_parts else raw_parts in
  mk_qualified text (NamePart_new <$> semantic_parts) leading_slash namespace_relative.

Definition original (n : QualifiedName) : bytes := raw n.
Definition is_fully_qualified (n : QualifiedName) : bool := leading_slash n.
Definition is_namespace_relative (n : QualifiedName) : bool := namespace_relative n.

(** The loop puts a separator before every part but the first. *)
Fixpoint canonical_loop (kind : NameKind) (first : bool) (ps : list NamePart) (out : bytes) : bytes :=
  match ps with
  | [] => out
  | p :: ps => canonical_loop kind false ps ((if first then out else out ++ [backslash]) ++ part_canonical kind p)
  end.
Definition canonical (kind : NameKind) (n : QualifiedName) : bytes :=
  canonical_loop kind true (parts n)
    (if leading_slash n then [backslash] else if namespace_relative n then lit "namespace" ++ [backslash] else []).

Definition to_fully_qualified (n : QualifiedName) : option FullyQualifiedName :=
  if leading_slash n then Some (mk_fqn (parts n)) else None.

(** [from_ast_name]: the text of the tokens that are not trivia. *)
Fixpoint significant_text (n : SyntaxNode) : bytes :=
  match n with
  | SyntaxNode_new _ _ children =>
      (fix go (cs : list SyntaxElement) : bytes :=
         match cs with
         | [] => []
         | ElementNode n :: cs => significant_text n ++ go cs
         | ElementToken t :: cs => (if SyntaxKind.is_trivia (st_kind t) then [] else st_text t) ++ go cs
         end) children
  end.
Definition from_ast_name (n : SyntaxNode) : QualifiedName := parse (significant_text n).
End QualifiedName.

Module FullyQualifiedName.
Definition from_parts (ps : list NamePart) : FullyQualifiedName := mk_fqn ps.
Definition parse (text : bytes) : FullyQualifiedName := mk_fqn (parts (QualifiedName.parse text)).
Definition canonical (kind : NameKind) (n : FullyQualifiedName) : bytes :=
  join backslash (part_canonical kind <$> fqn_parts n).
Definition display (n : FullyQualifiedName) : bytes := join backslash (part_original <$> fqn_parts n).
End FullyQualifiedName.

(** ** [symbols/interner.rs] *)

Module NameInterner.
Record InternedName := mk_interned { id : nat; kind : NameKind; original : bytes; canonical : bytes }.
Record t := mk { names : list InternedName; lookup : gmap (NameKind * bytes) nat }.

Definition new : t := mk [] ∅.
Definition intern_qualified (s : t) (name : QualifiedName) (kind : NameKind) : nat * t :=
  let canonical := QualifiedName.canonical kind name in
  match lookup s !! (kind, canonical) with
  | Some id => (id, s)
  | None =>
      let id := length (names s) in
      (id, mk (names s ++ [mk_interned id kind (QualifiedName.original name) canonical]) (<[(kind, canonical) := id]> (lookup s)))
  end.
Definition intern_raw (s : t) (raw : bytes) (kind : NameKind) : nat * t :=
  intern_qualified s (QualifiedName.parse raw) kind.
Definition get (s : t) (id : nat) : option InternedName := names s !! id.
Definition len (s : t) : nat := length (names s).
End NameInterner.

(** ** [symbols/imports.rs] *)

Inductive ImportKind := ImportClassLike | ImportFunction | ImportConst.
#[export] Instance ImportKind_eq_dec : EqDecision ImportKind.
Proof. solve_decision. Defined.

Definition alias_name_kind (k : ImportKind) : NameKind :=
  match k with ImportClassLike => ClassLike | ImportFunction => Function | ImportConst => Constant end.
Definition alias_canonical_text (k : ImportKind) (alias : bytes) : bytes :=
  if is_case_insensitive (alias_name_kind k) then lowercase alias else alias.

Record ImportEntry := mk_import {
  import_kind : ImportKind; import_name : FullyQualifiedName; alias : bytes;
  alias_canonical : bytes; explicit_alias : bool; import_span : TextRange }.
Definition ImportEntry_new kind name alias explicit_alias span : ImportEntry :=
  mk_import kind name alias (alias_canonical_text kind alias) explicit_alias span.

Record DuplicateImportAlias := mk_duplicate_alias {
  dup_kind : ImportKind; dup_alias : bytes; previous_span : TextRange; duplicate_span : TextRange }.

Module ImportTable.
Record t := mk {
  entries : list ImportEntry;
  class_like_aliases : gmap bytes nat; function_aliases : gmap bytes nat; const_aliases : gmap bytes nat }.
Definition new : t := mk [] ∅ ∅ ∅.

Definition aliases (s : t) (k : ImportKind) : gmap bytes nat :=
  match k with
  | ImportClassLike => class_like_aliases s
  | ImportFunction => function_aliases s
  | ImportConst => const_aliases s
  end.
Definition with_aliases (s : t) (k : ImportKind) (m : gmap bytes nat) (es : list ImportEntry) : t :=
  match k with
  | ImportClassLike => mk es m (function_aliases s) (const_aliases s)
  | ImportFunction => mk es (class_like_aliases s) m (const_aliases s)
  | ImportConst => mk es (class_like_aliases s) (function_aliases s) m
  end.

(** [insert]: the error, if any, and the table. *)
Definition insert (s : t) (entry : ImportEntry) : outcome (option DuplicateImportAlias * t) :=
  match aliases s (import_kind entry) !! alias_canonical entry with
  | Some previous_index =>
      olet previous := Prelude.index (entries s) previous_index in
      Ret (Some (mk_duplicate_alias (import_kind entry) (alias entry) (import_span previous) (import_span entry)), s)
  | None =>
      let index := length (entries s) in
      Ret (None, with_aliases s (import_kind entry)
                   (<[alias_canonical entry := index]> (aliases s (import_kind entry))) (entries s ++ [entry]))
  end.

Definition lookup (s : t) (kind : ImportKind) (alias : bytes) : option ImportEntry :=
  index ← aliases s kind !! alias_canonical_text kind alias; entries s !! index.
End ImportTable.

Definition append_import_name (prefix suffix : QualifiedName) : FullyQualifiedName :=
  mk_fqn (parts prefix ++ parts suffix).

Definition cover_ranges (left right : TextRange) : TextRange :=
  TextRange_new (to_usize (start left) `min` to_usize (start right)) (to_usize (end_ left) `max` to_usize (end_ right)).

(** *** The cursor over a [use] declaration *)

Inductive UseElement :=
| UseName (name : QualifiedName) (span : TextRange)
| UseToken (kind text : bytes) (span : TextRange).

Definition is_name_node (n : SyntaxNode) : bool :=
  match node_kind n with SyntaxKind.Node SyntaxNodeKind.Name => true | _ => false end.

Definition use_element (child : SyntaxElement) : option UseElement :=
  match child with
  | ElementNode node => if is_name_node node then Some (UseName (QualifiedName.from_ast_name node) (node_range node)) else None
  | ElementToken token =>
      if SyntaxKind.is_trivia (st_kind token) then None
      else Some (UseToken (SyntaxKind.name (st_kind token)) (st_text token) (st_range token))
  end.
(** [UseCursor::new] *)
Definition use_elements (use_decl : SyntaxNode) : list UseElement := omap use_element (node_children use_decl).

Record ParsedImport := mk_parsed_import {
  parsed_kind : ImportKind; parsed_name : QualifiedName; parsed_alias : bytes;
  parsed_explicit : bool; parsed_span : TextRange }.

Module UseCursor.
Section Cursor.
(** The elements do not change; the state is the index. *)
Context (elements : list UseElement).

Definition is_done (index : nat) : bool := length elements <=? index.
Definition token_is (e : option UseElement) (text_or_kind : bytes) : bool :=
  match e with
  | Some (UseToken kind text _) => bytes_eqb kind text_or_kind || bytes_eqb text text_or_kind
  | _ => false
  end.
Definition at_token (index : nat) (t : bytes) : bool := token_is (elements !! index) t.
Definition peek_token (index offset : nat) (t : bytes) : bool := token_is (elements !! (index + offset)) t.
Definition skip_token (index : nat) (t : bytes) : nat := if at_token index t then index + 1 else index.

Definition take_import_kind (index : nat) : option ImportKind * nat :=
  if at_token index (lit "T_FUNCTION") then (Some ImportFunction, index + 1)
  else if at_token index (lit "T_CONST") then (Some ImportConst, index + 1)
  else (None, index).

Definition take_name (index : nat) : option (QualifiedName * TextRange * nat) :=
  match elements !! index with
  | Some (UseName name span) => Some (name, span, index + 1)
  | _ => None
  end.

Definition take_alias (index : nat) (span : TextRange) : option bytes * bool * TextRange * nat :=
  if negb (at_token index (lit "T_AS")) then (None, false, span, index)
  else
    let index := index + 1 in
    match elements !! index with
    | Some (UseToken kind text alias_span) =>
        if bytes_eqb kind (lit "T_STRING") then (Some text, true, cover_ranges span alias_span, index + 1)
        else (None, true, span, index)
    | _ => (None, true, span, index)
    end.

(** The index moves past an import kind even when no name follows it. *)
Definition parse_single_clause (index : nat) (default_kind : ImportKind) (allow_item_kind : bool) :
    option ParsedImport * nat :=
  let '(kind, index) :=
    if allow_item_kind then let '(k, index) := take_import_kind index in (default default_kind k, index)
    else (default_kind, index) in
  match take_name index with
  | None => (None, index)
  | Some (name, span, index) =>
      let '(alias, explicit_alias, span, index) := take_alias index span in
      let alias := default (match list.last (parts name) with Some p => part_original p | None => [] end) alias in
      (Some (mk_parsed_import kind name alias explicit_alias span), index)
  end.

Definition entry_of (p : ParsedImport) (name : FullyQualifiedName) : ImportEntry :=
  ImportEntry_new (parsed_kind p) name (parsed_alias p) (parsed_explicit p) (parsed_span p).

(** A clause within a group: [parse_clause] with a prefix. *)
Definition parse_group_clause (index : nat) (default_kind : ImportKind) (prefix : QualifiedName) : list ImportEntry * nat :=
  match parse_single_clause index default_kind true with
  | (None, index) => ([], index)
  | (Some p, index) => ([entry_of p (append_import_name prefix (parsed_name p))], index)
  end.

Fixpoint group_loop (fuel : nat) (default_kind : ImportKind) (prefix : QualifiedName) (index : nat) (entries : list ImportEntry) :
    outcome (list ImportEntry * nat) :=
  match fuel with
  | O => Timeout
  | S fuel =>
      if is_done index || at_token index (lit "}") || at_token index (lit ";") then Ret (entries, index)
      else
        let index := skip_token index (lit ",") in
        if at_token index (lit "}") then Ret (entries, index)
        else
          let '(more, index) := parse_group_clause index default_kind prefix in
          group_loop fuel default_kind prefix (skip_token index (lit ",")) (entries ++ more)
  end.

(** [parse_clause] without a prefix. *)
Definition parse_clause (fuel : nat) (index : nat) (default_kind : ImportKind) : outcome (list ImportEntry * nat) :=
  match parse_single_clause index default_kind false with
  | (None, index) => Ret ([], index)
  | (Some p, index) =>
      if at_token index [backslash] && peek_token index 1 (lit "{") then
        olet (entries, index) := group_loop fuel default_kind (parsed_name p) (index + 2) [] in
        Ret (entries, skip_token index (lit "}"))
      else Ret ([entry_of p (mk_fqn (parts (parsed_name p)))], index)
  end.

Fixpoint clauses_loop (fuel : nat) (default_kind : ImportKind) (index : nat) (entries : list ImportEntry) :
    outcome (list ImportEntry) :=
  match fuel with
  | O => Timeout
  | S fuel' =>
      if is_done index || at_token index (lit ";") then Ret entries
      else
        let index := skip_token index (lit ",") in
        if is_done index || at_token index (lit ";") then Ret entries
        else
          olet (more, index) := parse_clause fuel index default_kind in
          if at_token index (lit ",") then clauses_loop fuel' default_kind index (entries ++ more)
          else Ret (entries ++ more)
  end.

Definition collect (fuel : nat) : outcome (list ImportEntry) :=
  let index := skip_token 0 (lit "T_USE") in
  let '(kind, index) := take_import_kind index in
  clauses_loop fuel (default ImportClassLike kind) index [].
End Cursor.
End UseCursor.

Definition collect_use_imports (fuel : nat) (use_decl : SyntaxNode) : outcome (list ImportEntry) :=
  UseCursor.collect (use_elements use_decl) fuel.

(** ** [symbols/declarations.rs] *)

Inductive DeclarationKind :=
| DeclFunction | DeclConstant | DeclClass | DeclInterface | DeclTrait | DeclEnum | ConditionalFunction | ConditionalClassLike.
Definition is_conditional (k : DeclarationKind) : bool :=
  match k with ConditionalFunction | ConditionalClassLike => true | _ => false end.
Definition duplicate_name_kind (k : DeclarationKind) : NameKind :=
  match k with
  | DeclFunction | ConditionalFunction => Function
  | DeclConstant => Constant
  | DeclClass | DeclInterface | DeclTrait | DeclEnum | ConditionalClassLike => ClassLike
  end.

Record DeclarationEntry := mk_declaration {
  decl_id : nat; symbol_id : nat; decl_kind : DeclarationKind; decl_name : bytes;
  decl_fqn : FullyQualifiedName; decl_span : TextRange }.
Record DuplicateDeclaration := mk_duplicate_declaration {
  dd_name : bytes; dd_kind : DeclarationKind; dd_previous : TextRange; dd_duplicate : TextRange }.

Module DeclarationTable.
Record t := mk { entries : list DeclarationEntry; unconditional_lookup : gmap (NameKind * bytes) nat }.
Definition new : t := mk [] ∅.
Definition key (e : DeclarationEntry) : NameKind * bytes :=
  let name_kind := duplicate_name_kind (decl_kind e) in (name_kind, FullyQualifiedName.canonical name_kind (decl_fqn e)).

Definition insert (s : t) (entry : DeclarationEntry) : outcome (option DuplicateDeclaration * t) :=
  olet (duplicate, lookup) :=
    (if negb (is_conditional (decl_kind entry)) then
       match unconditional_lookup s !! key entry with
       | Some previous_index =>
           olet previous := Prelude.index (entries s) previous_index in
           Ret (Some (mk_duplicate_declaration (decl_name entry) (decl_kind entry) (decl_span previous) (decl_span entry)),
                unconditional_lookup s)
       | None => Ret (None, <[key entry := length (entries s)]> (unconditional_lookup s))
       end
     else Ret (None, unconditional_lookup s)) in
  Ret (duplicate, mk (entries s ++ [entry]) lookup).
End DeclarationTable.

(** ** [symbols/resolution.rs] *)

Inductive ResolveContext := CtxClassLike | FunctionCall | ConstantFetch | NamespaceName | AttributeClass | TypeName.
Definition context_import_kind (c : ResolveContext) : option ImportKind :=
  match c with
  | CtxClassLike | AttributeClass | TypeName => Some ImportClassLike
  | FunctionCall => Some ImportFunction
  | ConstantFetch => Some ImportConst
  | NamespaceName => None
  end.
Definition context_name_kind (c : ResolveContext) : NameKind :=
  match c with
  | CtxClassLike | AttributeClass | TypeName => ClassLike
  | FunctionCall => Function
  | ConstantFetch => Constant
  | NamespaceName => Namespace
  end.

Inductive ResolvedName :=
| FullyQualified (name : FullyQualifiedName)
| MaybeRuntimeFallback (namespaced fallback : FullyQualifiedName)
| Dynamic
| Unresolved.

Module NameResolver.
Section Resolver.
Context (current_namespace : option bytes) (imports : ImportTable.t).

Definition with_current_namespace (ps : list NamePart) : FullyQualifiedName :=
  mk_fqn (match current_namespace with Some text => parts (QualifiedName.parse text) | None => [] end ++ ps).

Definition imported (name : QualifiedName) (context : ResolveContext) : option ImportEntry :=
  first ← head (parts name);
  kind ← context_import_kind context;
  ImportTable.lookup imports kind (part_original first).

Definition resolve (name : QualifiedName) (context : ResolveContext) : ResolvedName :=
  if (length (parts name) =? 0)%nat then Dynamic
  else if QualifiedName.is_fully_qualified name then FullyQualified (mk_fqn (parts name))
  else if QualifiedName.is_namespace_relative name then FullyQualified (with_current_namespace (parts name))
  else
    match imported name context with
    | Some import => FullyQualified (mk_fqn (fqn_parts (import_name import) ++ drop 1 (parts name)))
    | None =>
        match context with
        | FunctionCall | ConstantFetch =>
            if (length (parts name) =? 1)%nat && bool_decide (is_Some current_namespace)
            then MaybeRuntimeFallback (with_current_namespace (parts name)) (mk_fqn (parts name))
            else FullyQualified (mk_fqn (parts name))
        | CtxClassLike | AttributeClass | TypeName | NamespaceName => FullyQualified (with_current_namespace (parts name))
        end
    end.
End Resolver.
End NameResolver.
