(* ===== verification/NamesProofs.v ===== *)
(** * NamesProofs: names are told apart up to case, tables keep the first entry *)

From Stdlib Require Import Strings.String Strings.Byte.
From stdpp Require Import base list option numbers gmap fin_maps.
From S2P Require Import Prelude RustStd RustText Source Token SyntaxTree PhpString Names.

(** ** Names *)

(** A part of a parsed name: not empty, without a separator, with its own lower
    case. *)
Definition part_wf (p : NamePart) : Prop :=
  part_original p <> [] /\ backslash ∉ part_original p /\ ascii_lowercase p = lowercase (part_original p).

Definition is_namespace_word (p : NamePart) : bool := eq_ignore_ascii_case (part_original p) (lit "namespace").

Record name_wf (n : QualifiedName) : Prop := {
  wf_parts : Forall part_wf (parts n);
  wf_relative : namespace_relative n = true -> leading_slash n = false /\ parts n <> [];
  wf_plain : namespace_relative n = false -> leading_slash n = false ->
    forall p q r, parts n = p :: q :: r -> is_namespace_word p = false;
}.

Lemma split_no_separator x l : Forall (fun part => x ∉ part) (split x l).
Proof.
  induction l as [|y l IH]; cbn [split]; [constructor; [set_solver|constructor]|].
  destruct (y =b x) eqn:E; [constructor; [set_solver|done]|]. apply beq_neq in E.
  destruct (split x l) as [|part ps]; [constructor; [set_solver|constructor]|].
  inversion_clear IH. constructor; [set_solver|done].
Qed.

Lemma parse_parts_wf (ps : list bytes) : Forall (fun part => backslash ∉ part) ps ->
  Forall (fun p => p <> []) ps -> Forall part_wf (NamePart_new <$> ps).
Proof. induction 1; inversion_clear 1; cbn; constructor; [done|auto]. Qed.

Lemma parse_wf text : name_wf (QualifiedName.parse text).
Proof.
  set (rp := List.filter (fun part => negb (length part =? 0)%nat)
               (split backslash (default text (strip_prefix [backslash] text)))).
  assert (Forall (fun part => backslash ∉ part) rp /\ Forall (fun p => p <> []) rp) as [H1 H2].
  { unfold rp. generalize (split_no_separator backslash (default text (strip_prefix [backslash] text))).
    generalize (split backslash (default text (strip_prefix [backslash] text))). intros ps Hps.
    induction Hps as [|p ps Hp Hps IH]; cbn; [done|]. destruct p as [|x p]; cbn; [done|].
    destruct IH as [IH1 IH2]. split; constructor; done. }
  unfold QualifiedName.parse. fold rp. cbv zeta.
  destruct (_ && _ && _) eqn:E.
  - rewrite !andb_true_iff, negb_true_iff, Nat.ltb_lt in E. destruct E as [[El Elen] Eh].
    split; cbn [parts namespace_relative leading_slash]; [|intros _|done].
    + apply parse_parts_wf; by apply Forall_drop.
    + split; [done|]. destruct rp as [|p [|q r]]; cbn in *; [lia..|done].
  - split; cbn [parts namespace_relative leading_slash]; [by apply parse_parts_wf|done|].
    intros _ El p q r Hp. destruct rp as [|x [|y ps]]; try done. cbn in Hp. injection Hp as <- _ _.
    rewrite El in E. cbn in E. done.
Qed.

(** Two source names are the same name of a kind: the same prefix and the same
    parts up to what the kind ignores. *)
Definition same_name (kind : NameKind) (n m : QualifiedName) : Prop :=
  leading_slash n = leading_slash m /\ namespace_relative n = namespace_relative m /\
  part_canonical kind <$> parts n = part_canonical kind <$> parts m.

#[export] Instance same_name_equivalence kind : Equivalence (same_name kind).
Proof.
  split.
  - intros n. done.
  - intros n m (H1 & H2 & H3). done.
  - intros n m o (H1 & H2 & H3) (H4 & H5 & H6). split_and!; congruence.
Qed.

Lemma lowercase_backslash l : backslash ∉ l -> backslash ∉ lowercase l.
Proof.
  intros H. unfold lowercase. rewrite list_elem_of_fmap. intros (x & Hx & Hin). apply H.
  enough (x = backslash) by congruence. revert Hx. clear. unfold backslash. by destruct x.
Qed.

Lemma part_canonical_wf kind p : part_wf p -> part_canonical kind p <> [] /\ backslash ∉ part_canonical kind p.
Proof.
  intros (H1 & H2 & H3). unfold part_canonical. destruct (is_case_insensitive kind); [|done]. rewrite H3.
  split; [|by apply lowercase_backslash]. unfold lowercase. by destruct (part_original p).
Qed.

Lemma join_cons x p ps : ps <> [] -> join x (p :: ps) = p ++ x :: join x ps.
Proof. by destruct ps. Qed.

Lemma canonical_loop_join kind first ps out :
  QualifiedName.canonical_loop kind first ps out =
  match ps with
  | [] => out
  | _ => (if first then out else out ++ [backslash]) ++ join backslash (part_canonical kind <$> ps)
  end.
Proof.
  revert first out. induction ps as [|p ps IH]; intros first out; [done|]. cbn [QualifiedName.canonical_loop]. rewrite IH.
  destruct ps as [|q ps]; [done|]. cbn [fmap list_fmap]. rewrite (join_cons backslash (part_canonical kind p)) by done. by rewrite <- !app_assoc.
Qed.

(** The separator tells the parts. *)
Lemma app_separator {A} (x : A) p q r s : x ∉ p -> x ∉ q -> p ++ x :: r = q ++ x :: s -> p = q /\ r = s.
Proof.
  revert q. induction p as [|y p IH]; intros [|z q] Hp Hq E; cbn in *.
  - by injection E.
  - injection E as <- _. set_solver.
  - injection E as -> _. set_solver.
  - injection E as <- E. destruct (IH q) as [-> ->]; [set_solver..|done|done].
Qed.
Lemma no_separator {A} (x : A) p q r : x ∉ p -> p <> q ++ x :: r.
Proof. intros Hp ->. set_solver. Qed.

Definition word (l : bytes) : Prop := l <> [] /\ backslash ∉ l.

Lemma join_injective ps qs : Forall word ps -> Forall word qs -> join backslash ps = join backslash qs -> ps = qs.
Proof.
  intros Hp. revert qs. induction Hp as [|p ps [Hp0 Hp1] Hps IH]; intros qs Hq E.
  - destruct Hq as [|q qs [Hq0 _] _]; [done|]. destruct qs; cbn in E; [done|]. by destruct q.
  - destruct Hq as [|q qs [Hq0 Hq1] Hqs]; [destruct ps; cbn in E; [done|]; by destruct p|].
    destruct (decide (ps = [])) as [->|Hps0], (decide (qs = [])) as [->|Hqs0].
    + cbn in E. by subst.
    + rewrite (join_cons _ q) in E by done. cbn [join] in E. exfalso. exact (no_separator _ _ _ _ Hp1 E).
    + rewrite (join_cons _ p) in E by done. cbn [join] in E. exfalso. exact (no_separator _ _ _ _ Hq1 (eq_sym E)).
    + rewrite !join_cons in E by done. apply app_separator in E as [-> E]; [|done..]. by rewrite (IH qs).
Qed.

Lemma canonical_words kind n : name_wf n -> Forall word (part_canonical kind <$> parts n).
Proof.
  intros [H _ _]. induction H; cbn; constructor; [by apply part_canonical_wf|done].
Qed.

Lemma canonical_form kind n :
  QualifiedName.canonical kind n =
  (if leading_slash n then [backslash] else if namespace_relative n then lit "namespace" ++ [backslash] else [])
  ++ join backslash (part_canonical kind <$> parts n).
Proof.
  unfold QualifiedName.canonical. rewrite canonical_loop_join. destruct (parts n); [cbn; by rewrite app_nil_r|done].
Qed.

Lemma join_head ps : Forall word ps -> head (join backslash ps) <> Some backslash.
Proof.
  intros H. destruct H as [|p ps [H1 H2] _]; [done|]. destruct p as [|x p]; [done|].
  assert (x <> backslash) by (intros ->; apply H2; left). destruct ps; cbn; congruence.
Qed.

(** A name whose text starts with [namespace\ ] is relative. *)
Lemma plain_not_relative kind n m : name_wf n -> name_wf m -> leading_slash n = false -> namespace_relative n = false ->
  parts m <> [] ->
  join backslash (part_canonical kind <$> parts n) <>
  (lit "namespace" ++ [backslash]) ++ join backslash (part_canonical kind <$> parts m).
Proof.
  intros Hn Hm Hl Hr Hne E. pose proof (canonical_words kind n Hn) as Hw. destruct Hn as [Hp _ Hplain].
  specialize (Hplain Hr Hl). destruct (parts n) as [|p [|q ps]] eqn:Ep; [done|..]; cbn [fmap list_fmap] in E.
  - inversion Hw as [|? ? [_ Hw1] _]; subst. cbn [join] in E. rewrite <- app_assoc in E. cbn [app] in E. exact (no_separator _ _ _ _ Hw1 E).
  - cbn [fmap list_fmap] in Hw. rewrite join_cons in E by done. rewrite <- app_assoc in E. cbn [app] in E.
    inversion Hw as [|? ? [_ Hw1] _]; subst. apply app_separator in E as [E _]; [|done|vm_compute; set_solver].
    specialize (Hplain p q ps eq_refl). inversion Hp as [|? ? (_ & _ & Hlow) _]; subst.
    assert (lowercase (part_original p) = lit "namespace") as E'.
    { unfold part_canonical in E. destruct (is_case_insensitive kind); [congruence|]. by rewrite E. }
    unfold is_namespace_word in Hplain. rewrite eq_ignore_ascii_case_map in Hplain. unfold lowercase in E'. by rewrite E' in Hplain.
Qed.

Lemma canonical_exact kind n m : name_wf n -> name_wf m ->
  QualifiedName.canonical kind n = QualifiedName.canonical kind m <-> same_name kind n m.
Proof.
  intros Hn Hm. rewrite !canonical_form. pose proof (canonical_words kind n Hn) as Wn. pose proof (canonical_words kind m Hm) as Wm.
  split; [|by intros (-> & -> & ->)].
  pose proof (wf_relative n Hn) as Rn. pose proof (wf_relative m Hm) as Rm.
  pose proof (join_head _ Wn) as Hh. pose proof (join_head _ Wm) as Hh'. intros E. unfold same_name.
  destruct (leading_slash n) eqn:Ln, (leading_slash m) eqn:Lm.
  - cbn in E. injection E as E. apply join_injective in E as ->; [|done..].
    destruct (namespace_relative n); [by destruct Rn|]. destruct (namespace_relative m); [by destruct Rm|done].
  - exfalso. destruct (namespace_relative m); [done|]. cbn in E. rewrite <- E in Hh'. done.
  - exfalso. destruct (namespace_relative n); [done|]. cbn in E. rewrite E in Hh. done.
  - destruct (namespace_relative n) eqn:En, (namespace_relative m) eqn:Em.
    + apply app_inv_head in E. apply join_injective in E as ->; done.
    + exfalso. exact (plain_not_relative kind m n Hm Hn Lm Em (proj2 (Rn eq_refl)) (eq_sym E)).
    + exfalso. exact (plain_not_relative kind n m Hn Hm Ln En (proj2 (Rm eq_refl)) E).
    + cbn in E. apply join_injective in E as ->; done.
Qed.

(** ** The interner *)

Section Interner.
Import NameInterner.

Definition key_of (r : bytes * NameKind) : NameKind * bytes :=
  (snd r, QualifiedName.canonical (snd r) (QualifiedName.parse (fst r))).
Definition entry_key (e : InternedName) : NameKind * bytes := (kind e, canonical e).

Fixpoint intern_all (s : t) (reqs : list (bytes * NameKind)) : list nat * t :=
  match reqs with
  | [] => ([], s)
  | (text, kind) :: reqs =>
      let '(id, s) := intern_raw s text kind in
      let '(ids, s) := intern_all s reqs in (id :: ids, s)
  end.

(** The map is the inverse of the list, and entries know their place. *)
Definition interner_inv (s : t) : Prop :=
  (forall k i, lookup s !! k = Some i <-> exists e, names s !! i = Some e /\ entry_key e = k) /\
  (forall i e, names s !! i = Some e -> NameInterner.id e = i).

Lemma interner_new_inv : interner_inv new.
Proof. split; [|done]. intros k i. split; [done|]. by intros (e & He & _). Qed.

Lemma intern_raw_step s r : interner_inv s ->
  let '(i, s') := intern_raw s (fst r) (snd r) in
  interner_inv s' /\ (exists e, names s' !! i = Some e /\ entry_key e = key_of r) /\
  (s' = s /\ i < length (names s) \/
   i = length (names s) /\ names s' = names s ++ [mk_interned i (snd r) (fst r) (snd (key_of r))]).
Proof.
  destruct r as [text k]. cbn [fst snd]. intros [H1 H2]. unfold intern_raw, intern_qualified.
  change (k, QualifiedName.canonical k (QualifiedName.parse text)) with (key_of (text, k)).
  destruct (lookup s !! key_of (text, k)) as [i|] eqn:E.
  { split; [done|]. pose proof (proj1 (H1 _ _) E) as (e & He & Hk). split; [by exists e|]. left.
    split; [done|]. by eapply lookup_lt_Some. }
  split; [|split; [|by right]].
  2: { eexists. cbn [names]. rewrite list_lookup_middle by done. done. }
  split; cbn [names lookup].
  - intros key i. destruct (decide (key = key_of (text, k))) as [->|Hne].
    + rewrite lookup_insert_eq. split; [intros [= <-]; eexists; by rewrite list_lookup_middle|].
      intros (e & He & Hk). apply lookup_app_Some in He as [He|[Hge He]].
      * exfalso. enough (lookup s !! key_of (text, k) = Some i) by congruence. apply H1. eauto.
      * destruct (i - length (names s)) eqn:Ei; [|done]. f_equal. lia.
    + rewrite lookup_insert_ne by done. rewrite H1. split; intros (e & He & Hk); exists e; (split; [|done]).
      * by apply lookup_app_l_Some.
      * apply lookup_app_Some in He as [He|[Hge He]]; [done|]. destruct (i - length (names s)); [|done].
        cbn in He. injection He as <-. cbn in Hk. by subst key.
  - intros i e He. apply lookup_app_Some in He as [He|[Hge He]]; [by apply H2|].
    destruct (i - length (names s)) eqn:Ei; [|done]. injection He as <-. cbn. lia.
Qed.

Lemma intern_all_spec reqs s : interner_inv s ->
  let '(ids, s') := intern_all s reqs in
  interner_inv s' /\ names s `prefix_of` names s' /\
  Forall2 (fun r i => exists e, names s' !! i = Some e /\ entry_key e = key_of r) reqs ids /\
  (forall i e, length (names s) <= i -> names s' !! i = Some e ->
     exists j, reqs !! j = Some (original e, kind e) /\ ids !! j = Some i /\ forall j', j' < j -> ids !! j' <> Some i).
Proof.
  revert s. induction reqs as [|[text k] reqs IH]; intros s Hs; cbn [intern_all].
  { split_and!; [done|done|constructor|]. intros i e Hi He. apply lookup_lt_Some in He. lia. }
  pose proof (intern_raw_step s (text, k) Hs) as Hstep. cbn [fst snd] in Hstep.
  destruct (intern_raw s text k) as [i s1]. destruct Hstep as (H1 & (e1 & He1 & Hk1) & Hcase).
  specialize (IH s1 H1). destruct (intern_all s1 reqs) as [ids s'] eqn:E. destruct IH as (H2 & Hpre & Hall & Hfirst).
  split_and!; [done| |constructor; [|done]|].
  - etransitivity; [|exact Hpre]. destruct Hcase as [[-> _]|[_ ->]]; [done|by apply prefix_app_r].
  - exists e1. split; [by eapply prefix_lookup_Some|done].
  - intros n e Hn He. destruct Hcase as [[-> Hlt]|[-> Hnames]].
    + destruct (Hfirst n e Hn He) as (j & Hj & Hid & Hmin). exists (S j). split_and!; [done..|].
      intros [|j'] Hj'; cbn; [intros [= <-]; lia|]. apply Hmin. lia.
    + destruct (decide (n = length (names s))) as [->|Hne].
      * exists 0. rewrite (prefix_lookup_Some _ _ _ _ He1 Hpre) in He. rewrite Hnames in He1.
        rewrite list_lookup_middle in He1 by done. injection He1 as <-. injection He as <-. split_and!; [done..|lia].
      * destruct (Hfirst n e) as (j & Hj & Hid & Hmin); [rewrite Hnames, length_app; cbn; lia|done|].
        exists (S j). split_and!; [done..|]. intros [|j'] Hj'; cbn; [congruence|]. apply Hmin. lia.
Qed.
End Interner.

(** C22: the interner: after any sequence of requests two of them have the same
    number exactly when they have the same kind and are the same name of that
    kind, with the prefix and, where the kind ignores case, up to case; the entry
    of a number keeps the spelling of the first request for it. *)
Theorem names_interned reqs :
  let '(ids, s) := intern_all NameInterner.new reqs in
  length ids = length reqs /\
  (forall i j x k y k' a b, reqs !! i = Some (x, k) -> reqs !! j = Some (y, k') -> ids !! i = Some a -> ids !! j = Some b ->
     a = b <-> k = k' /\ same_name k (QualifiedName.parse x) (QualifiedName.parse y)) /\
  (forall a e, NameInterner.get s a = Some e ->
     exists j, reqs !! j = Some (NameInterner.original e, NameInterner.kind e) /\ ids !! j = Some a /\
       forall j', j' < j -> ids !! j' <> Some a).
Proof.
  pose proof (intern_all_spec reqs NameInterner.new interner_new_inv) as H.
  destruct (intern_all NameInterner.new reqs) as [ids s]. destruct H as ([H1 H2] & _ & Hall & Hfirst).
  split_and!; [symmetry; by eapply Forall2_length| |intros a e He; apply Hfirst; [cbn; lia|done]].
  intros i j x k y k' a b Hi Hj Ha Hb.
  destruct (Forall2_lookup_lr _ _ _ _ _ _ Hall Hi Ha) as (ea & Hea & Hka).
  destruct (Forall2_lookup_lr _ _ _ _ _ _ Hall Hj Hb) as (eb & Heb & Hkb).
  transitivity (key_of (x, k) = key_of (y, k')).
  - split; [intros ->; congruence|]. intros E. enough (Some a = Some b) by congruence.
    rewrite <- (proj2 (H1 (key_of (x, k)) a)) by eauto. rewrite E. apply H1. eauto.
  - unfold key_of. cbn [fst snd]. split; [intros [= -> E]; split; [done|]|intros [-> E]; f_equal];
      by apply canonical_exact; auto using parse_wf.
Qed.
