(* ===== verification/NamesClaims.v ===== *)
(** * NamesClaims: tables, [use] declarations and resolution *)

From Stdlib Require Import Strings.String Strings.Byte.
From stdpp Require Import base list option numbers gmap fin_maps.
From S2P Require Import Prelude RustStd RustText Source Token SyntaxTree PhpString Names NamesProofs.

(** ** Tables that keep the first entry of a key *)

Lemma find_snoc {A} (p : A -> bool) l x :
  List.find p (l ++ [x]) = match List.find p l with Some y => Some y | None => if p x then Some x else None end.
Proof. induction l as [|y l IH]; cbn; [done|]. by destruct (p y). Qed.

Lemma index_of_lookup {A} (l : list A) i x : l !! i = Some x -> Prelude.index l i = Ret x.
Proof. intros E. unfold Prelude.index. by rewrite E. Qed.

Section Tables.
Context {T E D : Type} (insert : T -> E -> outcome (option D * T)).

Fixpoint insert_all (s : T) (es : list E) : outcome (list (option D) * T) :=
  match es with
  | [] => Ret ([], s)
  | e :: es =>
      olet (d, s) := insert s e in
      olet (ds, s) := insert_all s es in Ret (d :: ds, s)
  end.

(** What an insertion reports is determined by the entries before it. *)
Context (inv : T -> list E -> Prop) (report : list E -> E -> option D).
Hypothesis step : forall s done e, inv s done -> exists s', insert s e = Ret (report done e, s') /\ inv s' (done ++ [e]).

Fixpoint reports (done es : list E) : list (option D) :=
  match es with [] => [] | e :: es => report done e :: reports (done ++ [e]) es end.

Lemma insert_all_inv s done es : inv s done ->
  exists s', insert_all s es = Ret (reports done es, s') /\ inv s' (done ++ es).
Proof.
  revert s done. induction es as [|e es IH]; intros s done H; cbn [insert_all reports].
  - exists s. by rewrite app_nil_r.
  - destruct (step s done e H) as (s1 & E1 & H1). destruct (IH s1 (done ++ [e]) H1) as (s2 & E2 & H2).
    exists s2. rewrite E1. cbn [obind]. rewrite E2. cbn [obind]. by rewrite <- app_assoc in H2.
Qed.
End Tables.

(** *** Imports *)

Definition import_is (k : ImportKind) (c : bytes) (e : ImportEntry) : bool :=
  bool_decide (import_kind e = k) && bool_decide (alias_canonical e = c).

Definition import_report (done : list ImportEntry) (e : ImportEntry) : option DuplicateImportAlias :=
  (fun previous => mk_duplicate_alias (import_kind e) (alias e) (import_span previous) (import_span e))
    <$> List.find (import_is (import_kind e) (alias_canonical e)) done.

Definition imports_inv (s : ImportTable.t) (done : list ImportEntry) : Prop :=
  forall k c, match ImportTable.aliases s k !! c with
              | Some i => exists e, ImportTable.entries s !! i = Some e /\ List.find (import_is k c) done = Some e
              | None => List.find (import_is k c) done = None
              end.

Lemma aliases_with_same s k m es : ImportTable.aliases (ImportTable.with_aliases s k m es) k = m.
Proof. by destruct k. Qed.
Lemma aliases_with_other s k k' m es : k <> k' -> ImportTable.aliases (ImportTable.with_aliases s k m es) k' = ImportTable.aliases s k'.
Proof. by destruct k, k'. Qed.
Lemma entries_with s k m es : ImportTable.entries (ImportTable.with_aliases s k m es) = es.
Proof. by destruct k. Qed.

Lemma import_step s done e : imports_inv s done ->
  exists s', ImportTable.insert s e = Ret (import_report done e, s') /\ imports_inv s' (done ++ [e]).
Proof.
  intros H. unfold ImportTable.insert, import_report. pose proof (H (import_kind e) (alias_canonical e)) as He.
  destruct (ImportTable.aliases s (import_kind e) !! alias_canonical e) as [i|] eqn:E.
  - destruct He as (p & Hp & Hf). rewrite (index_of_lookup _ _ _ Hp), Hf. cbn [obind fmap option_fmap option_map].
    eexists. split; [done|]. intros k c. specialize (H k c). rewrite find_snoc. destruct (_ !! c); [|].
    + destruct H as (x & Hx & ->). eauto.
    + rewrite H. destruct (import_is k c e) eqn:Ei; [|done]. exfalso. unfold import_is in Ei.
      apply andb_true_iff in Ei as [<-%bool_decide_eq_true <-%bool_decide_eq_true]. congruence.
  - rewrite He. cbn [fmap option_fmap option_map]. eexists. split; [done|]. intros k c. rewrite entries_with, find_snoc.
    specialize (H k c). destruct (decide (import_kind e = k)) as [<-|Hk].
    + rewrite aliases_with_same. destruct (decide (alias_canonical e = c)) as [<-|Hc].
      * rewrite lookup_insert_eq. exists e. rewrite list_lookup_middle by done. rewrite He. unfold import_is.
        by rewrite !bool_decide_eq_true_2.
      * rewrite lookup_insert_ne by done. destruct (_ !! c).
        -- destruct H as (x & Hx & ->). exists x. split; [by apply lookup_app_l_Some|done].
        -- rewrite H. unfold import_is. by rewrite (bool_decide_eq_false_2 (alias_canonical e = c)), andb_false_r.
    + rewrite aliases_with_other by done. destruct (_ !! c).
      * destruct H as (x & Hx & ->). exists x. split; [by apply lookup_app_l_Some|done].
      * rewrite H. unfold import_is. by rewrite (bool_decide_eq_false_2 (import_kind e = k)).
Qed.

(** *** Declarations *)

Definition declaration_is (key : NameKind * bytes) (e : DeclarationEntry) : bool :=
  negb (is_conditional (decl_kind e)) && bool_decide (DeclarationTable.key e = key).

Definition declaration_report (done : list DeclarationEntry) (e : DeclarationEntry) : option DuplicateDeclaration :=
  if is_conditional (decl_kind e) then None
  else (fun previous => mk_duplicate_declaration (decl_name e) (decl_kind e) (decl_span previous) (decl_span e))
         <$> List.find (declaration_is (DeclarationTable.key e)) done.

Definition declarations_inv (s : DeclarationTable.t) (done : list DeclarationEntry) : Prop :=
  DeclarationTable.entries s = done /\
  forall key, match DeclarationTable.unconditional_lookup s !! key with
              | Some i => exists e, done !! i = Some e /\ List.find (declaration_is key) done = Some e
              | None => List.find (declaration_is key) done = None
              end.

Lemma declaration_step s done e : declarations_inv s done ->
  exists s', DeclarationTable.insert s e = Ret (declaration_report done e, s') /\ declarations_inv s' (done ++ [e]).
Proof.
  intros [He H]. unfold DeclarationTable.insert, declaration_report. rewrite He.
  assert (forall m, (forall key i, m !! key = Some i -> DeclarationTable.unconditional_lookup s !! key = Some i \/
                        (key = DeclarationTable.key e /\ i = length done /\ is_conditional (decl_kind e) = false /\
                         DeclarationTable.unconditional_lookup s !! key = None)) ->
            (forall key, m !! key = None -> DeclarationTable.unconditional_lookup s !! key = None /\ declaration_is key e = false) ->
            declarations_inv (DeclarationTable.mk (done ++ [e]) m) (done ++ [e])) as Hinv.
  { intros m H1 H2. split; [done|]. intros key. cbn [DeclarationTable.unconditional_lookup]. rewrite find_snoc.
    specialize (H key). destruct (m !! key) as [i|] eqn:Em.
    - destruct (H1 key i Em) as [Es|(-> & -> & Hc & Es)]; rewrite Es in H.
      + destruct H as (x & Hx & ->). exists x. split; [by apply lookup_app_l_Some|done].
      + rewrite H. exists e. rewrite list_lookup_middle by done. unfold declaration_is. rewrite Hc.
        by rewrite bool_decide_eq_true_2.
    - destruct (H2 key Em) as [Es ->]. rewrite Es in H. by rewrite H. }
  pose proof (H (DeclarationTable.key e)) as Hk. destruct (is_conditional (decl_kind e)) eqn:Ec; cbn [negb].
  - cbn [obind]. eexists. split; [done|]. apply Hinv; [auto|]. intros key Hn. split; [done|]. unfold declaration_is. by rewrite Ec.
  - destruct (DeclarationTable.unconditional_lookup s !! DeclarationTable.key e) as [i|] eqn:Es.
    + destruct Hk as (p & Hp & Hf). rewrite (index_of_lookup _ _ _ Hp). cbn [obind]. rewrite Hf. eexists. split; [done|].
      apply Hinv; [auto|]. intros key Hn. split; [done|]. unfold declaration_is.
      rewrite (bool_decide_eq_false_2 (_ = key)) by (intros <-; congruence). by rewrite andb_false_r.
    + cbn [obind]. rewrite Hk. eexists. split; [done|]. apply Hinv.
      * intros key i. destruct (decide (DeclarationTable.key e = key)) as [<-|Hne].
        -- rewrite lookup_insert_eq. intros [= <-]. by right.
        -- rewrite lookup_insert_ne by done. auto.
      * intros key. destruct (decide (DeclarationTable.key e = key)) as [<-|Hne]; [by rewrite lookup_insert_eq|].
        rewrite lookup_insert_ne by done. intros Hn. split; [done|]. unfold declaration_is.
        by rewrite (bool_decide_eq_false_2 (_ = key)), andb_false_r.
Qed.

(** Symbol tables keep the first: inserting any sequence of imports or of
    declarations never goes out of range.  A look-up of an alias finds the first
    import of its kind with that alias, up to case where the kind ignores it, and
    an insertion reports a duplicate exactly when there was one before, with the
    span of the first.  Every declaration is kept in order; a duplicate is
    reported for unconditional declarations only, against the first
    unconditional declaration of the same name and name space. *)
Theorem tables_keep_first imports declarations :
  (exists s, insert_all ImportTable.insert ImportTable.new imports = Ret (reports import_report [] imports, s) /\
     forall kind a, ImportTable.lookup s kind a = List.find (import_is kind (alias_canonical_text kind a)) imports) /\
  (exists s, insert_all DeclarationTable.insert DeclarationTable.new declarations =
       Ret (reports declaration_report [] declarations, s) /\ DeclarationTable.entries s = declarations).
Proof.
  split.
  - destruct (insert_all_inv _ imports_inv import_report import_step ImportTable.new [] imports) as (s & E & H).
    { intros [] c; cbn; done. }
    exists s. split; [done|]. intros kind a. specialize (H kind (alias_canonical_text kind a)). unfold ImportTable.lookup.
    cbn [app] in H. destruct (_ !! alias_canonical_text kind a); [|by symmetry]. destruct H as (e & He & Hf). cbn. by rewrite He, Hf.
  - destruct (insert_all_inv _ declarations_inv declaration_report declaration_step DeclarationTable.new [] declarations) as (s & E & H).
    { split; [done|]. intros key. cbn. done. }
    exists s. split; [done|]. apply H.
Qed.

(** ** Resolution *)

(** The rules of the PHP manual.  The first part of a qualified name is looked up
    among the class imports whatever the name is for; a qualified name that no
    import changes is relative to the current name space. *)
Definition php_resolve (ns : option bytes) (imports : ImportTable.t) (n : QualifiedName) (c : ResolveContext) : ResolvedName :=
  let qualified := (1 <? length (parts n))%nat in
  let prefixed := NameResolver.with_current_namespace ns (parts n) in
  let table := if qualified then match c with NamespaceName => None | _ => Some ImportClassLike end else context_import_kind c in
  match parts n with
  | [] => Dynamic
  | first :: rest =>
      if leading_slash n then FullyQualified (mk_fqn (parts n))
      else if namespace_relative n then FullyQualified prefixed
      else match (k ← table; ImportTable.lookup imports k (part_original first)) with
           | Some import => FullyQualified (mk_fqn (fqn_parts (import_name import) ++ rest))
           | None =>
               match c with
               | FunctionCall | ConstantFetch =>
                   if qualified then FullyQualified prefixed
                   else match ns with
                        | Some _ => MaybeRuntimeFallback prefixed (mk_fqn (parts n))
                        | None => FullyQualified prefixed
                        end
               | _ => FullyQualified prefixed
               end
           end
  end.

Definition is_call_context (c : ResolveContext) : bool := match c with FunctionCall | ConstantFetch => true | _ => false end.

(** Resolved names up to case. *)
Definition same_fqn (kind : NameKind) (n m : FullyQualifiedName) : Prop :=
  FullyQualifiedName.canonical kind n = FullyQualifiedName.canonical kind m.
Definition same_resolved (kind : NameKind) (r r' : ResolvedName) : Prop :=
  match r, r' with
  | FullyQualified n, FullyQualified m => same_fqn kind n m
  | MaybeRuntimeFallback n f, MaybeRuntimeFallback m g => same_fqn kind n m /\ same_fqn kind f g
  | Dynamic, Dynamic | Unresolved, Unresolved => True
  | _, _ => False
  end.

Lemma same_fqn_app kind ps qs ps' qs' : part_canonical kind <$> ps = part_canonical kind <$> ps' ->
  part_canonical kind <$> qs = part_canonical kind <$> qs' -> same_fqn kind (mk_fqn (ps ++ qs)) (mk_fqn (ps' ++ qs')).
Proof. intros H1 H2. unfold same_fqn, FullyQualifiedName.canonical. cbn [fqn_parts]. by rewrite !fmap_app, H1, H2. Qed.
Lemma same_fqn_parts kind ps ps' : part_canonical kind <$> ps = part_canonical kind <$> ps' ->
  same_fqn kind (mk_fqn ps) (mk_fqn ps').
Proof. intros H. unfold same_fqn, FullyQualifiedName.canonical. cbn [fqn_parts]. by rewrite H. Qed.

(** The alias of a part depends on its canonical spelling only. *)
Lemma alias_of_part k p q : part_wf p -> part_wf q ->
  part_canonical (alias_name_kind k) p = part_canonical (alias_name_kind k) q ->
  alias_canonical_text k (part_original p) = alias_canonical_text k (part_original q).
Proof.
  intros (_ & _ & Hp) (_ & _ & Hq). unfold part_canonical, alias_canonical_text.
  destruct (is_case_insensitive (alias_name_kind k)); congruence.
Qed.

Lemma resolve_same ns imports c n m : name_wf n -> name_wf m -> same_name (context_name_kind c) n m ->
  same_resolved (context_name_kind c) (NameResolver.resolve ns imports n c) (NameResolver.resolve ns imports m c).
Proof.
  intros [Wn _ _] [Wm _ _] (H1 & H2 & H3). pose proof (f_equal length H3) as Hl. rewrite !length_fmap in Hl.
  assert (NameResolver.imported imports n c = NameResolver.imported imports m c) as Hi.
  { unfold NameResolver.imported. destruct (parts n) as [|p ps], (parts m) as [|q qs]; try done. cbn [head mbind option_bind].
    destruct (context_import_kind c) as [k|] eqn:Ek; [|done]. cbn [mbind option_bind]. unfold ImportTable.lookup.
    rewrite (alias_of_part k p q); [done|by inversion Wn|by inversion Wm|].
    replace (alias_name_kind k) with (context_name_kind c) by (by destruct c; cbn in Ek |- *; simplify_eq). by injection H3. }
  unfold NameResolver.resolve. rewrite Hl, Hi. unfold QualifiedName.is_fully_qualified, QualifiedName.is_namespace_relative.
  rewrite H1, H2. unfold NameResolver.with_current_namespace.
  destruct (length (parts m) =? 0)%nat; [done|]. destruct (leading_slash m); [by apply same_fqn_parts|].
  destruct (namespace_relative m); [by apply same_fqn_app|].
  destruct (NameResolver.imported imports m c).
  { apply same_fqn_app; [done|]. by rewrite !fmap_drop, H3. }
  destruct c; try (by apply same_fqn_app); destruct (_ && _); cbn [same_resolved];
    auto using same_fqn_app, same_fqn_parts.
Qed.

