(* ===== verification/UseClaims.v ===== *)
(** * UseClaims: the imports of [use] declarations *)

From Stdlib Require Import Strings.String Strings.Byte.
From stdpp Require Import base list option numbers gmap fin_maps.
From S2P Require Import Prelude RustStd RustText Simd ByteKernel Source Token SyntaxTree Parser Grammar LexerProofs PhpString Names.

(** ** Declarations as data *)

Record Item := mk_item {
  item_name : QualifiedName; item_span : TextRange; item_alias : option (bytes * TextRange) }.
Inductive Clause :=
| Single (i : Item)
| Group (prefix : Item) (items : list (option ImportKind * Item)).

Section Use.
(** The spans of keywords and punctuation do not matter. *)
Context (z : TextRange).

Definition token (kind text : string) : UseElement := UseToken (lit kind) (lit text) z.

Definition print_kind (k : option ImportKind) : list UseElement :=
  match k with
  | Some ImportFunction => [token "T_FUNCTION" "function"]
  | Some ImportConst => [token "T_CONST" "const"]
  | _ => []
  end.
Definition print_item (i : Item) : list UseElement :=
  UseName (item_name i) (item_span i) ::
  match item_alias i with
  | Some (text, span) => [token "T_AS" "as"; UseToken (lit "T_STRING") text span]
  | None => []
  end.
Definition print_group_item (i : option ImportKind * Item) : list UseElement := print_kind (fst i) ++ print_item (snd i).
Fixpoint print_list {A} (f : A -> list UseElement) (l : list A) : list UseElement :=
  match l with
  | [] => []
  | [x] => f x
  | x :: l => f x ++ token "," "," :: print_list f l
  end.
Definition print_clause (c : Clause) : list UseElement :=
  match c with
  | Single i => print_item i
  | Group prefix items =>
      UseName (item_name prefix) (item_span prefix) :: UseToken (lit "T_NS_SEPARATOR") [backslash] z :: token "{" "{" ::
      print_list print_group_item items ++ [token "}" "}"]
  end.
Definition print_use (kind : option ImportKind) (cs : list Clause) : list UseElement :=
  token "T_USE" "use" :: print_kind kind ++ print_list print_clause cs ++ [token ";" ";"].

(** What they import. *)
Definition last_part (n : QualifiedName) : bytes := match list.last (parts n) with Some p => part_original p | None => [] end.
Definition item_entry (kind : ImportKind) (name : FullyQualifiedName) (i : Item) : ImportEntry :=
  match item_alias i with
  | Some (text, span) => ImportEntry_new kind name text true (cover_ranges (item_span i) span)
  | None => ImportEntry_new kind name (last_part (item_name i)) false (item_span i)
  end.
(** Only [function] and [const] are written; a kind of the item wins. *)
Definition written (k : option ImportKind) : option ImportKind :=
  match k with Some ImportClassLike => None | k => k end.
Definition clause_entries (kind : ImportKind) (c : Clause) : list ImportEntry :=
  match c with
  | Single i => [item_entry kind (mk_fqn (parts (item_name i))) i]
  | Group prefix items =>
      (fun i => item_entry (default kind (written (fst i))) (append_import_name (item_name prefix) (item_name (snd i))) (snd i))
        <$> items
  end.
Definition use_entries (kind : option ImportKind) (cs : list Clause) : list ImportEntry :=
  flat_map (clause_entries (default ImportClassLike (written kind))) cs.

(** ** Reading what was printed *)

Section Read.
Context (els : list UseElement).
Import UseCursor.

Lemma at_drop i e t : drop i els = e :: t -> els !! i = Some e /\ drop (i + 1) els = t /\ i < length els.
Proof.
  intros H. assert (els !! i = Some e) as E by (rewrite <- (Nat.add_0_r i), <- lookup_drop, H; done).
  split_and!; [done| |by eapply lookup_lt_Some]. rewrite (drop_S _ _ _ E), <- Nat.add_1_r in H. by injection H.
Qed.

(** An element that ends an item. *)
Definition ends_item (t : list UseElement) : Prop :=
  exists kind text r, t = token kind text :: r /\ token_is (Some (token kind text)) (lit "T_AS") = false.

Lemma take_kind_at i k t : drop i els = print_kind k ++ t ->
  (forall e r, t = e :: r -> token_is (Some e) (lit "T_FUNCTION") = false /\ token_is (Some e) (lit "T_CONST") = false) ->
  t <> [] -> take_import_kind els i = (written k, i + length (print_kind k)) /\ drop (i + length (print_kind k)) els = t.
Proof.
  intros H Ht Hne. unfold take_import_kind, at_token.
  destruct k as [[]|]; cbn [print_kind app length written] in *; rewrite ?Nat.add_0_r;
    try (destruct t as [|e r]; [done|]; destruct (at_drop _ _ _ H) as (-> & _ & _);
         destruct (Ht e r eq_refl) as [-> ->]; done);
    destruct (at_drop _ _ _ H) as (-> & H1 & _); done.
Qed.

Lemma single_at i (item : Item) t kind : drop i els = print_item item ++ t -> ends_item t ->
  exists p, parse_single_clause els i kind false = (Some p, i + length (print_item item)) /\
    parsed_name p = item_name item /\ (forall name, entry_of p name = item_entry kind name item) /\
    drop (i + length (print_item item)) els = t.
Proof.
  intros H (k & text & r & -> & Hnot). unfold print_item, item_entry in *. cbn [app] in H.
  destruct (at_drop _ _ _ H) as (E & H1 & _). unfold parse_single_clause, take_name. rewrite E.
  unfold take_alias, at_token. destruct (item_alias item) as [[a sp]|]; cbn [app length] in *.
  - destruct (at_drop _ _ _ H1) as (-> & H2 & _). destruct (at_drop _ _ _ H2) as (E2 & H3 & _).
    change (token_is (Some (token "T_AS" "as")) (lit "T_AS")) with true. cbn [negb]. rewrite E2.
    change (bytes_eqb (lit "T_STRING") (lit "T_STRING")) with true. cbv iota.
    eexists. split; [f_equal; lia|]. split_and!; [done|done|]. by replace (i + 3) with (i + 1 + 1 + 1) by lia.
  - destruct (at_drop _ _ _ H1) as (-> & _ & _). rewrite Hnot. cbn [negb]. eexists. split; [done|]. done.
Qed.

Lemma group_item_at i (it : option ImportKind * Item) t kind prefix :
  drop i els = print_group_item it ++ t -> ends_item t ->
  parse_group_clause els i kind prefix =
    ([item_entry (default kind (written (fst it))) (append_import_name prefix (item_name (snd it))) (snd it)],
     i + length (print_group_item it)) /\
  drop (i + length (print_group_item it)) els = t.
Proof.
  intros H Ht. destruct it as [k item]. unfold print_group_item in *. cbn [fst snd] in *. rewrite <- app_assoc in H.
  destruct (take_kind_at i k (print_item item ++ t) H) as [Ek H1]; [|done|].
  { intros e r He. unfold print_item in He. cbn [app] in He. injection He as <- _. done. }
  destruct (single_at _ item t (default kind (written k)) H1 Ht) as (p & Ep & Hn & He & Hd).
  unfold parse_group_clause, parse_single_clause in *. rewrite Ek.
  destruct (take_name els (i + length (print_kind k))) as [[[n sp] j]|]; [|done].
  destruct (take_alias els j sp) as [[[a ex] sp'] j']. injection Ep as <- ->. rewrite <- He. cbn [parsed_name] in *.
  rewrite length_app, Nat.add_assoc. cbn in Hn. subst n. done.
Qed.

(** The first element of an item is not punctuation. *)
Definition no_punctuation (e : UseElement) : Prop :=
  token_is (Some e) (lit "}") = false /\ token_is (Some e) (lit ";") = false /\ token_is (Some e) (lit ",") = false.

Lemma group_item_head it : exists e r, print_group_item it = e :: r /\ no_punctuation e.
Proof. destruct it as [[[]|] item]; eexists _, _; (split; [reflexivity|done]). Qed.
Lemma clause_head c : exists e r, print_clause c = e :: r /\ no_punctuation e.
Proof. destruct c; eexists _, _; (split; [reflexivity|done]). Qed.

(** The rest of a list after its first element, up to the closing element. *)
Definition print_rest {A} (f : A -> list UseElement) (l : list A) : list UseElement :=
  match l with [] => [] | _ => token "," "," :: print_list f l end.
Lemma print_list_cons {A} (f : A -> list UseElement) x l : print_list f (x :: l) = f x ++ print_rest f l.
Proof. destruct l; [|done]. by rewrite app_nil_r. Qed.
Lemma rest_ends {A} (f : A -> list UseElement) l kind text r :
  token_is (Some (token kind text)) (lit "T_AS") = false -> ends_item (print_rest f l ++ token kind text :: r).
Proof. intros H. destruct l; cbn [print_rest app]; eexists _, _, _; split; done. Qed.

Lemma group_loop_at fuel i items r kind prefix acc :
  drop i els = print_list print_group_item items ++ token "}" "}" :: r -> length items < fuel ->
  group_loop els fuel kind prefix i acc =
    Ret (acc ++ ((fun it => item_entry (default kind (written (fst it))) (append_import_name prefix (item_name (snd it))) (snd it)) <$> items),
         i + length (print_list print_group_item items)) /\
  drop (i + length (print_list print_group_item items)) els = token "}" "}" :: r.
Proof.
  revert fuel i acc. induction items as [|it items IH]; intros fuel i acc H Hf; (destruct fuel as [|fuel]; [cbn in Hf; lia|]).
  - cbn [print_list app length] in *. rewrite Nat.add_0_r. destruct (at_drop _ _ _ H) as (E & _ & _).
    split; [|done]. cbn [group_loop]. unfold at_token. rewrite E. change (token_is (Some (token "}" "}")) (lit "}")) with true.
    rewrite orb_true_r. cbn [orb fmap list_fmap]. by rewrite app_nil_r.
  - rewrite print_list_cons, <- app_assoc in H. destruct (group_item_head it) as (e & r0 & He & P1 & P2 & P3).
    pose proof H as H0. rewrite He in H0. cbn [app] in H0. destruct (at_drop _ _ _ H0) as (E & _ & Hlt).
    destruct (group_item_at i it _ kind prefix H (rest_ends _ _ "}" "}" _ eq_refl)) as [Eg H1].
    cbn [group_loop]. unfold skip_token, at_token, is_done. rewrite E, P1, P2, P3. rewrite (proj2 (Nat.leb_gt _ _)) by lia.
    cbn [orb]. rewrite E, P1, Eg. rewrite print_list_cons, length_app. destruct items as [|it2 items].
    + cbn [print_rest app] in *. destruct (at_drop _ _ _ H1) as (E1 & _ & _). rewrite E1.
      change (token_is (Some (token "}" "}")) (lit ",")) with false. cbv iota. cbn [length] in *.
      destruct (IH fuel (i + length (print_group_item it)) (acc ++ [item_entry (default kind (written (fst it)))
        (append_import_name prefix (item_name (snd it))) (snd it)])) as [Er Hr]; [done|lia|].
      cbn [print_list length] in Er, Hr. rewrite Er. rewrite !Nat.add_0_r in *. split; [by rewrite <- app_assoc|done].
    + cbn [print_rest app] in H1. destruct (at_drop _ _ _ H1) as (E1 & H2 & _). rewrite E1.
      change (token_is (Some (token "," ",")) (lit ",")) with true. cbv iota.
      destruct (IH fuel (i + length (print_group_item it) + 1) (acc ++ [item_entry (default kind (written (fst it)))
        (append_import_name prefix (item_name (snd it))) (snd it)])) as [Er Hr]; [done|cbn in *; lia|].
      rewrite Er. cbn [print_rest length].
      replace (i + (length (print_group_item it) + S (length (print_list print_group_item (it2 :: items)))))
        with (i + length (print_group_item it) + 1 + length (print_list print_group_item (it2 :: items))) by lia.
      split; [by rewrite <- app_assoc|done].
Qed.

Lemma clause_at fuel i c kind t : drop i els = print_clause c ++ t -> ends_item t ->
  (forall e r, t = e :: r -> token_is (Some e) [backslash] = false) ->
  length (print_clause c) < fuel ->
  parse_clause els fuel i kind = Ret (clause_entries kind c, i + length (print_clause c)) /\
  drop (i + length (print_clause c)) els = t.
Proof.
  intros H Ht Hb Hf. unfold parse_clause. destruct c as [item|prefix items]; cbn [print_clause clause_entries] in *.
  - destruct (single_at _ item t kind H Ht) as (p & -> & Hn & He & Hd). destruct Ht as (k & text & r & -> & _).
    unfold at_token. destruct (at_drop _ _ _ Hd) as (-> & _ & _). rewrite (Hb _ _ eq_refl). cbn [andb].
    by rewrite Hn, He.
  - cbn [app] in H. destruct (at_drop _ _ _ H) as (E0 & H0 & _). destruct (at_drop _ _ _ H0) as (E1 & H1 & _).
    destruct (at_drop _ _ _ H1) as (E2 & H2 & _). unfold parse_single_clause, take_name. rewrite E0.
    unfold take_alias, at_token, peek_token. rewrite E1. change (token_is _ (lit "T_AS")) with false. cbn [negb].
    rewrite E1, E2. change (token_is (Some (UseToken _ [backslash] z)) [backslash]) with true.
    change (token_is (Some (token "{" "{")) (lit "{")) with true. cbn [andb parsed_name].
    rewrite <- app_assoc in H2. cbn [app] in H2. replace (i + 1 + 2) with (i + 1 + 1 + 1) by lia.
    cbn [length] in Hf. rewrite length_app in Hf. cbn [length] in Hf.
    assert (length items <= length (print_list print_group_item items)) as Hlen.
    { clear. induction items as [|it items IH]; [done|]. rewrite print_list_cons, length_app.
      destruct (group_item_head it) as (e & r & -> & _). destruct items; cbn [print_rest length] in *; lia. }
    destruct (group_loop_at fuel _ items t kind (item_name prefix) [] H2 ltac:(lia)) as [-> H3]. cbn [obind app].
    destruct (at_drop _ _ _ H3) as (E3 & H4 & _). unfold skip_token, at_token. rewrite E3.
    change (token_is (Some (token "}" "}")) (lit "}")) with true. cbv iota. cbn [length]. rewrite length_app. cbn [length].
    replace (i + S (S (S (length (print_list print_group_item items) + 1))))
      with (i + 1 + 1 + 1 + length (print_list print_group_item items) + 1) by lia. done.
Qed.

(** The loop over the clauses enters a round at a clause or at the comma before it. *)
Lemma clause_start (comma : bool) i c t :
  drop i els = (if comma then [token "," ","] else []) ++ print_clause c ++ t ->
  exists j, is_done els i = false /\ at_token els i (lit ";") = false /\ skip_token els i (lit ",") = j /\
    is_done els j = false /\ at_token els j (lit ";") = false /\ drop j els = print_clause c ++ t.
Proof.
  intros H. destruct (clause_head c) as (e & r0 & He & P1 & P2 & P3). unfold is_done, skip_token, at_token.
  destruct comma; cbn [app] in H.
  - destruct (at_drop _ _ _ H) as (E & H1 & L). exists (i + 1). pose proof H1 as H2. rewrite He in H2. cbn [app] in H2.
    destruct (at_drop _ _ _ H2) as (E1 & _ & L1). rewrite E, E1, P2. rewrite !(proj2 (Nat.leb_gt _ _)) by lia. done.
  - exists i. pose proof H as H2. rewrite He in H2. cbn [app] in H2.
    destruct (at_drop _ _ _ H2) as (E1 & _ & L1). rewrite E1, P2, P3. rewrite !(proj2 (Nat.leb_gt _ _)) by lia. done.
Qed.

Lemma clauses_loop_at fuel (comma : bool) i c cs kind acc r :
  drop i els = (if comma then [token "," ","] else []) ++ print_list print_clause (c :: cs) ++ token ";" ";" :: r ->
  length (print_list print_clause (c :: cs)) < fuel ->
  clauses_loop els fuel kind i acc = Ret (acc ++ flat_map (clause_entries kind) (c :: cs)).
Proof.
  revert fuel comma i c acc. induction cs as [|c2 cs IH]; intros fuel comma i c acc H Hf; (destruct fuel as [|fuel]; [lia|]);
    rewrite print_list_cons in H, Hf; rewrite <- app_assoc in H; rewrite length_app in Hf;
    destruct (clause_start comma i c _ H) as (j & D1 & D2 & D3 & D4 & D5 & Hj);
    cbn [clauses_loop]; rewrite D1, D2; cbn [orb]; rewrite D3, D4, D5; cbn [orb];
    (destruct (clause_at (S fuel) j c kind _ Hj (rest_ends _ _ ";" ";" _ eq_refl)) as [Ec H1];
      [by cbn; intros ? ? [= <- _]|lia|]); rewrite Ec; cbn [obind flat_map]; unfold at_token;
    cbn [print_rest app] in H1; destruct (at_drop _ _ _ H1) as (Ee & _ & _); rewrite Ee.
  - change (token_is (Some (token ";" ";")) (lit ",")) with false. cbv iota. by rewrite app_nil_r.
  - change (token_is (Some (token "," ",")) (lit ",")) with true. cbv iota.
    rewrite (IH fuel true _ c2 _ H1) by (cbn [print_rest length] in Hf; lia). cbn [flat_map]. by rewrite <- !app_assoc.
Qed.

Lemma collect_at kind cs fuel : els = print_use kind cs -> length els <= fuel ->
  collect els fuel = Ret (use_entries kind cs).
Proof.
  intros H Hf. unfold collect, skip_token, at_token. destruct (at_drop 0 (token "T_USE" "use") (print_kind kind ++ print_list print_clause cs ++ [token ";" ";"])) as (E & H1 & _); [by rewrite drop_0|].
  rewrite E. change (token_is (Some (token "T_USE" "use")) (lit "T_USE")) with true. cbv iota.
  destruct (take_kind_at _ kind _ H1) as [-> H2].
  { intros e r He. destruct cs as [|c cs]; [cbn in He; by injection He as <- _|]. rewrite print_list_cons, <- app_assoc in He.
    destruct (clause_head c) as (e0 & r0 & He0 & _). destruct c; cbn in He; by injection He as <- _. }
  { by destruct cs as [|[] []]. }
  rewrite H in Hf. unfold print_use in Hf. cbn [length] in Hf. rewrite !length_app in Hf. cbn [length] in Hf.
  unfold use_entries. destruct cs as [|c cs].
  - destruct fuel as [|fuel]; [lia|]. cbn [clauses_loop print_list app] in *. unfold at_token.
    destruct (at_drop _ _ _ H2) as (-> & _ & _). change (token_is (Some (token ";" ";")) (lit ";")) with true. by rewrite orb_true_r.
  - by rewrite (clauses_loop_at _ false _ c cs _ [] [] H2) by lia.
Qed.
End Read.
End Use.

(** Imports of [use] declarations: from the elements of a declaration with
    any clauses, groups, kinds and aliases the collector returns exactly the
    imports that it states, in order, and does not run into its bound. *)
Theorem use_imports_collected z kind cs fuel :
  length (print_use z kind cs) <= fuel ->
  UseCursor.collect (print_use z kind cs) fuel = Ret (use_entries kind cs).
Proof. by apply (collect_at z). Qed.

Definition sample_span : TextRange := TextRange_new 0 1.
Definition sample_item (name : string) (alias : option string) : Item :=
  mk_item (QualifiedName.parse (lit name)) sample_span ((fun a => (lit a, sample_span)) <$> alias).

(** [use A\{B, function c as d}, E;] *)
Definition sample_use : list Clause :=
  [Group (sample_item "A" None) [(None, sample_item "B" None); (Some ImportFunction, sample_item "c" (Some "d"%string))];
   Single (sample_item "E" None)].

Lemma use_imports_collected_witness :
  UseCursor.collect (print_use sample_span None sample_use) 14 =
  Ret [ImportEntry_new ImportClassLike (mk_fqn [NamePart_new (lit "A"); NamePart_new (lit "B")]) (lit "B") false sample_span;
       ImportEntry_new ImportFunction (mk_fqn [NamePart_new (lit "A"); NamePart_new (lit "c")]) (lit "d") true
         (cover_ranges sample_span sample_span);
       ImportEntry_new ImportClassLike (mk_fqn [NamePart_new (lit "E")]) (lit "E") false sample_span].
Proof. apply (use_imports_collected sample_span None sample_use 14). vm_compute. lia. Defined.

(** ** A group that never ends *)

(** A token that neither ends the group nor separates its items nor states a
    kind is not consumed. *)
Definition stuck_token (e : UseElement) : bool :=
  match e with
  | UseToken _ _ _ =>
      forallb (fun t => negb (UseCursor.token_is (Some e) (lit t))) ["}"; ";"; ","; "T_FUNCTION"; "T_CONST"]%string
  | UseName _ _ => false
  end.

Lemma group_loop_stuck els e kind prefix i acc fuel :
  els !! i = Some e -> stuck_token e = true -> UseCursor.group_loop els fuel kind prefix i acc = Timeout.
Proof.
  intros E Hs. destruct e as [|k t sp]; [done|]. unfold stuck_token in Hs. cbn [forallb] in Hs.
  rewrite !andb_true_iff, !negb_true_iff in Hs. destruct Hs as (H1 & H2 & H3 & H4 & H5 & _).
  revert acc. induction fuel as [|fuel IH]; intros acc; [done|]. cbn [UseCursor.group_loop].
  unfold UseCursor.skip_token, UseCursor.at_token, UseCursor.is_done. rewrite E, H1, H2, H3.
  rewrite (proj2 (Nat.leb_gt _ _)) by by eapply lookup_lt_Some. cbn [orb]. rewrite E, H1.
  unfold UseCursor.parse_group_clause, UseCursor.parse_single_clause, UseCursor.take_import_kind, UseCursor.at_token, UseCursor.take_name.
  repeat rewrite ?E, ?H3, ?H4, ?H5. apply IH.
Qed.

(** An item before such a token is read, and then the loop stays. *)
Lemma group_loop_stuck_after els e kind prefix i j es acc fuel :
  UseCursor.is_done els i || UseCursor.at_token els i (lit "}") || UseCursor.at_token els i (lit ";") = false ->
  UseCursor.at_token els i (lit ",") = false ->
  UseCursor.parse_group_clause els i kind prefix = (es, j) -> els !! j = Some e -> stuck_token e = true ->
  UseCursor.group_loop els fuel kind prefix i acc = Timeout.
Proof.
  intros H1 H2 Ep E Hs. destruct fuel as [|fuel]; [done|]. cbn [UseCursor.group_loop]. rewrite H1.
  assert (UseCursor.skip_token els i (lit ",") = i) as -> by (unfold UseCursor.skip_token; by rewrite H2). rewrite orb_false_iff, orb_false_iff in H1. destruct H1 as [[_ H1] _]. rewrite H1, Ep.
  assert (UseCursor.at_token els j (lit ",") = false) as Hc.
  { unfold UseCursor.at_token. rewrite E. destruct e; [done|]. unfold stuck_token in Hs. cbn [forallb] in Hs.
    rewrite !andb_true_iff, !negb_true_iff in Hs. apply Hs. }
  unfold UseCursor.skip_token. rewrite Hc. by eapply group_loop_stuck.
Qed.

(** The first clause is such a group. *)
Lemma collect_stuck els fuel p j i es e :
  UseCursor.parse_single_clause els 1 ImportClassLike false = (Some p, j) ->
  UseCursor.at_token els 0 (lit "T_USE") = true -> UseCursor.take_import_kind els 1 = (None, 1) ->
  UseCursor.is_done els 1 || UseCursor.at_token els 1 (lit ";") = false -> UseCursor.at_token els 1 (lit ",") = false ->
  UseCursor.at_token els j [backslash] && UseCursor.peek_token els j 1 (lit "{") = true ->
  UseCursor.is_done els (j + 2) || UseCursor.at_token els (j + 2) (lit "}") || UseCursor.at_token els (j + 2) (lit ";") = false ->
  UseCursor.at_token els (j + 2) (lit ",") = false ->
  UseCursor.parse_group_clause els (j + 2) ImportClassLike (parsed_name p) = (es, i) ->
  els !! i = Some e -> stuck_token e = true -> UseCursor.collect els fuel = Timeout.
Proof.
  intros H1 H2 H3 H4 H5 H6 H7 H8 H9 H10 H11. unfold UseCursor.collect. unfold UseCursor.skip_token. rewrite H2.
  change (0 + 1) with 1. rewrite H3. cbn [default]. destruct fuel as [|fuel]; [done|]. cbn [UseCursor.clauses_loop from_option id].
  rewrite H4. unfold UseCursor.skip_token. rewrite H5, H4. unfold UseCursor.parse_clause. rewrite H1, H6.
  by rewrite (group_loop_stuck_after els e ImportClassLike (parsed_name p) (j + 2) i es [] (S fuel)).
Qed.

(** The declarations of a tree. *)
Fixpoint use_declarations (depth : nat) (n : SyntaxNode) : list SyntaxNode :=
  match depth with
  | O => []
  | S depth =>
      (match node_kind n with SyntaxKind.Node SyntaxNodeKind.UseDecl => [n] | _ => [] end) ++
      flat_map (fun c => match c with ElementNode n => use_declarations depth n | ElementToken _ => [] end) (node_children n)
  end.

Definition hanging_source : bytes := lit "<?php use A\{B C};".
Definition hanging_parse : Parse :=
  match parse_source_file (mc := memchr_naive) BScalar 40 hanging_source with
  | Ret p => p
  | _ => mkParse (SyntaxNode_new SyntaxKind.ERROR (TextRange_empty 0) []) [] []
  end.

(** A misspelt group import hangs the analysis: the parser reads
    [<?php use A\{B C};] with an error, and leaves the second name in the
    declaration as a token; on that declaration the collection of imports never
    returns.  The loop over the items of a group does not move past any token
    that is not one of its own. *)
Theorem use_group_hangs :
  (forall els e kind prefix i acc fuel, els !! i = Some e -> stuck_token e = true ->
     UseCursor.group_loop els fuel kind prefix i acc = Timeout) /\
  parse_source_file (mc := memchr_naive) BScalar 40 hanging_source = Ret hanging_parse /\
  exists declaration, use_declarations 5 (parse_root hanging_parse) = [declaration] /\
    forall fuel, collect_use_imports fuel declaration = Timeout.
Proof.
  split; [intros; by eapply group_loop_stuck|]. split; [vm_compute; reflexivity|].
  destruct (use_declarations 5 (parse_root hanging_parse)) as [|d []] eqn:E; [vm_compute in E; done| |vm_compute in E; done].
  exists d. split; [done|]. vm_compute in E. injection E as <-. intros fuel. unfold collect_use_imports.
  match goal with |- UseCursor.collect ?els _ = _ => let v := eval vm_compute in els in change els with v end.
  eapply collect_stuck; vm_compute; reflexivity.
Qed.
