(* ===== verification/IrConst.v ===== *)
(** * IrConst: constants folded during lowering

    [php_ir/src/lower/mod.rs]: the values of literals and of constant
    expressions, with the constants of classes, and
    [cold_value_materialization.rs] of the virtual machine, which turns a
    constant into a value.

    The arenas of a module are lists, an identifier is an index.  The stack of
    class constants under evaluation is restored on every path, so it is an
    argument.  Evaluation follows expression and constant references and takes a
    bound on its depth.  An overflow of a plain [+] or [-] panics, as with
    overflow checks. *)

From Stdlib Require Import Strings.String Strings.Byte ZArith Floats.SpecFloat.
From stdpp Require Import base list option numbers gmap fin_maps.
From S2P Require Import Prelude RustStd RustNum RustFloat RustText FloatText Simd PhpString PhpArray LiteralText Convert NativeOps Names.

(** ** [constants.rs] *)

Module IrConstant.
Inductive t :=
| Null
| Bool (value : bool)
| Int (value : Z)
| Float (value : f64)
| String (value : bytes)
| StringBytes (value : bytes)
| NamedConstant (name : bytes)
| ClassConstant (class_name display_class_name constant_name : bytes)
| Array (entries : list (option t * t)).

(** The derived [PartialEq]. *)
Fixpoint eqb (a b : t) {struct a} : bool :=
  match a, b with
  | Null, Null => true
  | Bool x, Bool y => Bool.eqb x y
  | Int x, Int y => (x =? y)%Z
  | Float x, Float y => f64_eq x y
  | String x, String y | StringBytes x, StringBytes y | NamedConstant x, NamedConstant y => bytes_eqb x y
  | ClassConstant x y z, ClassConstant x' y' z' => bytes_eqb x x' && bytes_eqb y y' && bytes_eqb z z'
  | Array l, Array r =>
      (fix go (l r : list (option t * t)) : bool :=
         match l, r with
         | [], [] => true
         | (k, v) :: l, (k', v') :: r =>
             match k, k' with Some k, Some k' => eqb k k' | None, None => true | _, _ => false end && eqb v v' && go l r
         | _, _ => false
         end) l r
  | _, _ => false
  end.
End IrConstant.
Abbreviation IrConstant := IrConstant.t.

Module CastKind.
Inductive t := Bool | Int | Float | String | Array | Object | Void.
End CastKind.

(** [cast_kind] of [lower/expressions.rs] *)
Definition cast_kind (kind : bytes) : option CastKind.t :=
  let normalized := lowercase (trim_end_matches ")"%byte (trim_start_matches "("%byte (trim kind))) in
  let op_is text := bytes_eqb normalized (lit text) in
  if op_is "bool"%string || op_is "boolean"%string then Some CastKind.Bool
  else if op_is "int"%string || op_is "integer"%string then Some CastKind.Int
  else if op_is "float"%string || op_is "double"%string || op_is "real"%string then Some CastKind.Float
  else if op_is "string"%string then Some CastKind.String
  else if op_is "array"%string then Some CastKind.Array
  else if op_is "object"%string then Some CastKind.Object
  else if op_is "void"%string then Some CastKind.Void
  else None.

(** [binary_op] of [lower/expressions.rs] *)
Definition binary_op (operator : bytes) : option NativeBinaryOp :=
  let op_is text := bytes_eqb operator (lit text) in
  if op_is "+"%string then Some Add else if op_is "-"%string then Some Sub else if op_is "*"%string then Some Mul
  else if op_is "/"%string then Some Div else if op_is "%"%string then Some Mod else if op_is "**"%string then Some Pow
  else if op_is "."%string then Some Concat else if op_is "&"%string then Some BitAnd else if op_is "|"%string then Some BitOr
  else if op_is "^"%string then Some BitXor else if op_is "<<"%string then Some ShiftLeft
  else if op_is ">>"%string then Some ShiftRight else None.

(** ** Operators *)

Definition checked_shl (a n : Z) : option Z := if (n <? 64)%Z then Some (wrap_i64 (Z.shiftl a n)) else None.
Definition checked_shr (a n : Z) : option Z := if (n <? 64)%Z then Some (Z.shiftr a n) else None.

Definition negate_ir_constant (value : IrConstant) : option IrConstant :=
  match value with
  | IrConstant.Int z => IrConstant.Int <$> checked_i64 (- z)
  | IrConstant.Float x => Some (IrConstant.Float (f64_neg x))
  | _ => None
  end.

Definition bitnot_ir_constant (value : IrConstant) : option IrConstant :=
  match value with IrConstant.Int z => Some (IrConstant.Int (Z.lnot z)) | _ => None end.

Definition binary_ir_constant (operator : bytes) (left right : IrConstant) : option IrConstant :=
  let op_is text := bytes_eqb operator (lit text) in
  if op_is "??"%string then match left with IrConstant.Null => Some right | _ => Some left end
  else
    match left, right with
    | IrConstant.Int l, IrConstant.Int r =>
        if op_is "+"%string then IrConstant.Int <$> checked_i64 (l + r)
        else if op_is "-"%string then IrConstant.Int <$> checked_i64 (l - r)
        else if op_is "*"%string then IrConstant.Int <$> checked_i64 (l * r)
        else if op_is "&"%string then Some (IrConstant.Int (Z.land l r))
        else if op_is "|"%string then Some (IrConstant.Int (Z.lor l r))
        else if op_is "^"%string then Some (IrConstant.Int (Z.lxor l r))
        else if op_is "<<"%string then IrConstant.Int <$> (u32_try_from r ≫= checked_shl l)
        else if op_is ">>"%string then IrConstant.Int <$> (u32_try_from r ≫= checked_shr l)
        else None
    | IrConstant.String l, IrConstant.String r => if op_is "."%string then Some (IrConstant.String (l ++ r)) else None
    | IrConstant.StringBytes l, IrConstant.StringBytes r => if op_is "."%string then Some (IrConstant.StringBytes (l ++ r)) else None
    | _, _ => None
    end.

(** ** Conversions *)

Definition ir_constant_truthy (value : IrConstant) : option bool :=
  match value with
  | IrConstant.Null => Some false
  | IrConstant.Bool b => Some b
  | IrConstant.Int z => Some (negb (z =? 0)%Z)
  | IrConstant.Float x => Some (negb (f64_eq x (S754_zero false)) && negb (f64_is_nan x))
  | IrConstant.String l | IrConstant.StringBytes l => Some (negb (length l =? 0)%nat && negb (bytes_eqb l (lit "0")))
  | IrConstant.Array entries => Some (negb (length entries =? 0)%nat)
  | IrConstant.NamedConstant _ | IrConstant.ClassConstant _ _ _ => None
  end.

(** The digits of [ir_constant_bytes_to_int]; [None] is an overflow. *)
Fixpoint int_digits (l : bytes) (value : Z) : option Z :=
  match l with
  | x :: l =>
      if is_ascii_digit x then
        value ← checked_i64 (value * 10); value ← checked_i64 (value + digit_val x); int_digits l value
      else Some value
  | [] => Some value
  end.
Definition ir_constant_bytes_to_int (l : bytes) : Z :=
  let index := default (length l) (position (fun x => negb (is_ascii_whitespace x)) l) in
  let '(negative, digits) := strip_sign (drop index l) in
  match int_digits digits 0 with
  | None => if negative then I64_MIN else I64_MAX
  | Some value => if negative then default I64_MIN (checked_i64 (- value)) else value
  end.

Definition ir_constant_to_int (value : IrConstant) : option Z :=
  match value with
  | IrConstant.Null => Some 0%Z
  | IrConstant.Bool b => Some (if b then 1 else 0)%Z
  | IrConstant.Int z => Some z
  | IrConstant.Float x => Some (f64_as_i64 x)
  | IrConstant.String l | IrConstant.StringBytes l => Some (ir_constant_bytes_to_int l)
  | IrConstant.Array entries => Some (if (length entries =? 0)%nat then 0 else 1)%Z
  | IrConstant.NamedConstant _ | IrConstant.ClassConstant _ _ _ => None
  end.

Definition ir_constant_to_float (value : IrConstant) : option f64 :=
  match value with
  | IrConstant.Null => Some (S754_zero false)
  | IrConstant.Bool b => Some (if b then i64_as_f64 1 else S754_zero false)
  | IrConstant.Int z => Some (i64_as_f64 z)
  | IrConstant.Float x => Some x
  | IrConstant.String l => Some (default (S754_zero false) (parse_f64 (trim_start l)))
  | IrConstant.StringBytes l => Some (default (S754_zero false) (parse_f64 (trim_start (from_utf8_lossy l))))
  | IrConstant.Array entries => Some (if (length entries =? 0)%nat then S754_zero false else i64_as_f64 1)
  | IrConstant.NamedConstant _ | IrConstant.ClassConstant _ _ _ => None
  end.

(** [f64::to_string] *)
Definition f64_to_string (x : f64) : bytes :=
  match x with
  | S754_nan => lit "NaN"
  | S754_infinity s => sign_text s ++ lit "inf"
  | _ => fmt_display x
  end.

Definition ir_constant_to_string (value : IrConstant) : option bytes :=
  match value with
  | IrConstant.Null => Some []
  | IrConstant.Bool b => Some (if b then lit "1" else [])
  | IrConstant.Int z => Some (print_i64 z)
  | IrConstant.Float x => Some (f64_to_string x)
  | IrConstant.String l => Some l
  | IrConstant.StringBytes l => Some (from_utf8_lossy l)
  | IrConstant.Array _ | IrConstant.NamedConstant _ | IrConstant.ClassConstant _ _ _ => None
  end.

Definition ir_constant_cast (kind : CastKind.t) (value : IrConstant) : option IrConstant :=
  match kind with
  | CastKind.Bool => IrConstant.Bool <$> ir_constant_truthy value
  | CastKind.Int => IrConstant.Int <$> ir_constant_to_int value
  | CastKind.Float => IrConstant.Float <$> ir_constant_to_float value
  | CastKind.String => IrConstant.String <$> ir_constant_to_string value
  | CastKind.Array | CastKind.Object | CastKind.Void => None
  end.

(** ** Element access *)

Definition ir_constant_array_key_matches_int (index : Z) (dim : IrConstant) : bool :=
  match dim with
  | IrConstant.Int z => (index =? z)%Z
  | IrConstant.Bool b => (index =? (if b then 1 else 0))%Z
  | _ => false
  end.

Definition ir_constant_array_key_matches (key dim : IrConstant) : bool :=
  match key, dim with
  | IrConstant.Int l, _ => ir_constant_array_key_matches_int l dim
  | IrConstant.String l, IrConstant.String r => bytes_eqb l r
  | IrConstant.StringBytes l, IrConstant.StringBytes r => bytes_eqb l r
  | IrConstant.Bool b, _ => ir_constant_array_key_matches_int (if b then 1 else 0)%Z dim
  | IrConstant.Null, IrConstant.String r => (length r =? 0)%nat
  | _, _ => IrConstant.eqb key dim
  end.

(** [i64] addition that is not checked in the source. *)
Definition i64_add (a b : Z) : outcome Z := match checked_i64 (a + b) with Some z => Ret z | None => Panic end.
Definition i64_neg (a : Z) : outcome Z := match checked_i64 (- a) with Some z => Ret z | None => Panic end.

Fixpoint dim_entries (entries : list (option IrConstant * IrConstant)) (dim : IrConstant) (next_index : Z) :
    outcome (option IrConstant) :=
  match entries with
  | [] => Ret None
  | (key, value) :: entries =>
      olet (key, next_index) :=
        match key with
        | Some key => Ret (key, next_index)
        | None => olet next := i64_add next_index 1 in Ret (IrConstant.Int next_index, next)
        end in
      match key with
      | IrConstant.Int index =>
          let next_index := Z.max next_index (saturate_i64 (index + 1)) in
          if ir_constant_array_key_matches_int index dim then Ret (Some value)
          else dim_entries entries dim next_index
      | _ => if ir_constant_array_key_matches key dim then Ret (Some value) else dim_entries entries dim next_index
      end
  end.

(** The byte of a string at an index that may count from the end. *)
Definition byte_at (l : bytes) (index : Z) : option byte :=
  let n := Z.of_nat (length l) in
  let resolved := if (index <? 0)%Z then (index + n)%Z else index in
  if ((resolved <? 0) || (n <=? resolved))%Z then None else l !! Z.to_nat resolved.

Definition ir_constant_dim_fetch (receiver dim : IrConstant) : outcome (option IrConstant) :=
  match receiver with
  | IrConstant.Array entries => dim_entries entries dim 0
  | IrConstant.String l =>
      Ret (match dim with IrConstant.Int index => (fun x => IrConstant.String (char_of_byte x)) <$> byte_at l index | _ => None end)
  | IrConstant.StringBytes l =>
      Ret (match dim with IrConstant.Int index => (fun x => IrConstant.StringBytes [x]) <$> byte_at l index | _ => None end)
  | _ => Ret None
  end.

(** ** Literals *)

Definition strip_literal_sign (text : bytes) : bool * bytes :=
  match strip_prefix (lit "-") text with
  | Some body => (true, body)
  | None => match strip_prefix (lit "+") text with Some body => (false, body) | None => (false, text) end
  end.

Definition decimal_integer_literal (text : bytes) : option bytes :=
  let '(_, body) := strip_literal_sign text in
  if negb (length body =? 0)%nat && forallb is_ascii_digit body then Some text else None.

Definition is_php_float_literal_candidate (text : bytes) : bool :=
  let '(_, body) := strip_literal_sign text in
  let lower := lowercase body in
  if starts_with (lit "0x") lower || starts_with (lit "0b") lower then false
  else existsb (fun x => (x =b "."%byte) || (x =b "e"%byte) || (x =b "E"%byte)) body.

Definition parse_php_int_literal (text : bytes) : outcome (option Z) :=
  let '(negative, body) := strip_literal_sign text in
  if (length body =? 0)%nat then Ret None
  else
    let lower := lowercase body in
    let parsed :=
      match strip_prefix (lit "0x") lower with
      | Some digits => from_str_radix 16 digits
      | None =>
          match strip_prefix (lit "0b") lower with
          | Some digits => from_str_radix 2 digits
          | None =>
              if (1 <? length body)%nat && starts_with (lit "0") body && forallb is_octal body
              then from_str_radix 8 body else parse_i64 body
          end
      end in
    match parsed with
    | None => Ret None
    | Some z => if negative then olet z := i64_neg z in Ret (Some z) else Ret (Some z)
    end.

Definition ir_string_constant (l : bytes) : IrConstant :=
  if utf8_valid l then IrConstant.String l else IrConstant.StringBytes l.

Definition number_literal (numeric : bytes) : outcome (option IrConstant) :=
  if is_php_float_literal_candidate numeric then Ret (IrConstant.Float <$> parse_f64 numeric)
  else
    olet n := parse_php_int_literal numeric in
    match n with
    | Some z => Ret (Some (IrConstant.Int z))
    | None => Ret (text ← decimal_integer_literal numeric; IrConstant.Float <$> parse_f64 text)
    end.

Definition literal_constant (text : bytes) : outcome (option IrConstant) :=
  let trimmed := trim text in
  if eq_ignore_ascii_case trimmed (lit "null") then Ret (Some IrConstant.Null)
  else if eq_ignore_ascii_case trimmed (lit "true") then Ret (Some (IrConstant.Bool true))
  else if eq_ignore_ascii_case trimmed (lit "false") then Ret (Some (IrConstant.Bool false))
  else
    olet quoted := quoted_literal_body trimmed in
    match quoted with
    | Some l => Ret (Some (ir_string_constant l))
    | None =>
        olet heredoc := heredoc_literal_body trimmed in
        match heredoc with
        | Some l => Ret (Some (ir_string_constant l))
        | None => number_literal (List.filter (fun x => negb (x =b "_"%byte)) trimmed)
        end
    end.

(** ** The HIR of constant expressions *)

(** [php_semantics/src/hir/expr.rs] *)
Record HirNameResolution := mk_resolution {
  source : bytes; context : bytes; classification : bytes;
  resolved : option bytes; resolved_display : option bytes; fallback : option bytes }.
Record HirCallArg := mk_arg { arg_name : option bytes; arg_value : nat; arg_unpack : bool }.
Record HirMatchArm := mk_arm { arm_conditions : list nat; arm_result : option nat; arm_is_default : bool }.
Record DeferredEffects := mk_effects {
  may_load_file : bool; may_define_symbols : bool; may_execute_code : bool; scope_effect_deferred : bool }.

Module HirExprKind.
Inductive t :=
| Missing
| Literal (text : bytes)
| Variable_ (name : bytes) (sigil_count : nat) (dynamic : option nat)
| Name (resolution : HirNameResolution)
| Array (elements : list nat)
| ArrayPair (key value : option nat) (unpack by_ref : bool)
| List (elements : list nat)
| Unary (operator : bytes) (expr : option nat)
| Binary (operator : bytes) (left right : option nat)
| Assign (operator : bytes) (left right : option nat)
| Ternary (condition if_true if_false : option nat)
| Call (callee : option nat) (args : list HirCallArg)
| BuiltinCall (name : bytes) (args : list HirCallArg)
| MethodCall (receiver method : option nat) (args : list HirCallArg) (nullsafe : bool)
| PropertyFetch (receiver property : option nat) (nullsafe : bool)
| StaticAccess (target member : option nat)
| DimFetch (receiver dim : option nat)
| Closure (body : list nat)
| ArrowFunction (expr : option nat)
| New (class : option nat) (args : list HirCallArg)
| Clone (expr : option nat)
| Pipe (input callable : option nat)
| CloneWith (expr : option nat) (replacements : list nat)
| Match (subject : option nat) (arms : list HirMatchArm)
| Yield (key value : option nat)
| YieldFrom (expr : option nat)
| Include (kind : bytes) (expr : option nat) (deferred_effects : DeferredEffects)
| Eval (expr : option nat) (deferred_effects : DeferredEffects)
| Exit (expr : option nat)
| Cast (kind : bytes) (expr : option nat)
| FirstClassCallable (callee : option nat)
| Unlowered (syntax_kind : bytes).
End HirExprKind.

(** [php_semantics/src/hir/const_expr.rs] *)
Inductive ConstExprContext :=
| GlobalConstInitializer | ClassConstInitializer | EnumCaseBackingValue | ParameterDefault | AttributeArgument
| StaticLocalInitializer | PropertyDefault | PromotedPropertyDefault.
#[export] Instance ConstExprContext_eq_dec : EqDecision ConstExprContext.
Proof. solve_decision. Defined.

Module ConstExprKind.
Inductive t :=
| Missing | ScalarLiteral | Array | Unary | Binary | Ternary | Name | ClassConstFetch | Closure | ArrowFunction
| FirstClassCallable | Cast | New | Dim | Disallowed.
End ConstExprKind.

Module ConstValue.
Inductive t :=
| Null | Bool (value : bool) | Int (value : Z) | String (value : bytes) | UnresolvedRef (name : bytes) | ClosureConst | CallableConst.
End ConstValue.

Record ConstExpr := mk_const_expr {
  ce_context : ConstExprContext; ce_kind : ConstExprKind.t; ce_expr_id : nat; ce_allowed : bool;
  ce_folded_value : option ConstValue.t }.

(** Of a module, the arenas that constants read; the spans of the resolved names
    of a namespace are left out. *)
Record ResolvedNameRecord := mk_resolved_record {
  record_source : QualifiedName; record_context : ResolveContext; record_result : ResolvedName }.
Record HirModule := mk_module {
  expressions : list HirExprKind.t; const_exprs : list ConstExpr; namespaces : list (list ResolvedNameRecord) }.

(** ** Names of constants and classes *)

(** [normalize_class_name] of [module.rs] *)
Definition normalize_class_name (name : bytes) : bytes := lowercase (trim_start_matches backslash name).

Definition strip_suffix (p l : bytes) : option bytes := @rev byte <$> strip_prefix (rev p) (rev l).
Definition local_name (name : bytes) : bytes :=
  let plain := default name (strip_prefix (lit "$") name) in
  match strip_prefix (lit "${") name ≫= strip_suffix (lit "}") with
  | Some inner => if negb (length inner =? 0)%nat && forallb is_ascii_digit inner then inner else plain
  | None => plain
  end.

Definition error_levels : list (string * Z) :=
  [("E_ERROR", 1); ("E_WARNING", 2); ("E_PARSE", 4); ("E_NOTICE", 8); ("E_CORE_ERROR", 16); ("E_CORE_WARNING", 32);
   ("E_COMPILE_ERROR", 64); ("E_COMPILE_WARNING", 128); ("E_USER_ERROR", 256); ("E_USER_WARNING", 512);
   ("E_USER_NOTICE", 1024); ("E_STRICT", 2048); ("E_RECOVERABLE_ERROR", 4096); ("E_DEPRECATED", 8192);
   ("E_USER_DEPRECATED", 16384); ("E_ALL", 30719)]%string%Z.

Definition language_constant (name : bytes) : option IrConstant :=
  let normalized := trim_start_matches backslash name in
  let named text := eq_ignore_ascii_case normalized (lit text) in
  if named "null"%string then Some IrConstant.Null
  else if named "true"%string then Some (IrConstant.Bool true)
  else if named "false"%string then Some (IrConstant.Bool false)
  else if named "PHP_INT_MAX"%string then Some (IrConstant.Int I64_MAX)
  else if named "PHP_INT_MIN"%string then Some (IrConstant.Int I64_MIN)
  else if named "PHP_INT_SIZE"%string then Some (IrConstant.Int 8)
  else (fun p => IrConstant.Int (snd p)) <$> List.find (fun p => named (fst p)) error_levels.

(** The spellings under which a constant is looked up. *)
Definition constant_candidates (r : HirNameResolution) : list bytes :=
  omap id [resolved r; fallback r; Some (source r); strip_prefix [backslash] (source r)].

Fixpoint find_map {A B} (f : A -> option B) (l : list A) : option B :=
  match l with [] => None | x :: l => match f x with Some y => Some y | None => find_map f l end end.

Definition named_constant_value (named_constants : gmap bytes IrConstant) (r : HirNameResolution) : option IrConstant :=
  find_map (fun name => named_constants !! name) (constant_candidates r).
Definition runtime_named_constant_name (r : HirNameResolution) : option bytes :=
  List.find (fun name => negb (length name =? 0)%nat) (constant_candidates r).

Definition ir_constant_from_const_value (value : ConstValue.t) : option IrConstant :=
  match value with
  | ConstValue.Null => Some IrConstant.Null
  | ConstValue.Bool b => Some (IrConstant.Bool b)
  | ConstValue.Int z => Some (IrConstant.Int z)
  | ConstValue.String l => Some (IrConstant.String l)
  | ConstValue.UnresolvedRef _ | ConstValue.ClosureConst | ConstValue.CallableConst => None
  end.

Section Constants.
Context (module : HirModule) (named_constants : gmap bytes IrConstant)
  (class_constants : gmap bytes (gmap bytes nat)) (class_parents : gmap bytes (option bytes)).

Definition name_of (expr_id : nat) : option HirNameResolution :=
  match expressions module !! expr_id with Some (HirExprKind.Name r) => Some r | _ => None end.
Definition parent_of (class : bytes) : option bytes := mjoin (class_parents !! class).
Definition is_self (source : bytes) : bool := eq_ignore_ascii_case source (lit "self") || eq_ignore_ascii_case source (lit "static").

Definition class_constant_initializer_target_class (expr_id : nat) (current_class : option bytes) : option bytes :=
  r ← name_of expr_id;
  if is_self (source r) then normalize_class_name <$> current_class
  else if eq_ignore_ascii_case (source r) (lit "parent") then (normalize_class_name <$> current_class) ≫= parent_of
  else Some (normalize_class_name (default (default (source r) (fallback r)) (resolved r))).

Definition resolved_class_like_display_name (r : HirNameResolution) : option bytes :=
  resolved ← normalize_class_name <$> resolved r;
  find_map (find_map (fun record =>
    match record_context record, record_result record with
    | CtxClassLike, FullyQualified name =>
        if bytes_eqb (QualifiedName.original (record_source record)) (source r)
           && bytes_eqb (FullyQualifiedName.canonical ClassLike name) resolved
        then Some (FullyQualifiedName.display name) else None
    | _, _ => None
    end)) (namespaces module).

Definition class_constant_initializer_target_display_class (expr_id : nat) (current_class : option bytes) : option bytes :=
  r ← name_of expr_id;
  if is_self (source r) then current_class
  else if eq_ignore_ascii_case (source r) (lit "parent") then (normalize_class_name <$> current_class) ≫= parent_of
  else match resolved_class_like_display_name r with
       | Some name => Some name
       | None => Some (trim_start_matches backslash (source r))
       end.

Definition class_constant_initializer_member_name (expr_id : nat) : option bytes :=
  let member text := if starts_with (lit "$") text then None else Some (local_name text) in
  match expressions module !! expr_id with
  | Some (HirExprKind.Literal text) => member text
  | Some (HirExprKind.Name r) => member (source r)
  | _ => None
  end.

(** ** Evaluation *)

Definition sbind {A B} (m : outcome (option A)) (k : A -> outcome (option B)) : outcome (option B) :=
  olet r := m in match r with Some a => k a | None => Ret None end.
Definition some_or {A B} (o : option A) (k : A -> outcome (option B)) : outcome (option B) :=
  match o with Some a => k a | None => Ret None end.

Definition unary_constant (operator : bytes) (value : IrConstant) : option IrConstant :=
  let op_is text := bytes_eqb operator (lit text) in
  if op_is "parenthesized"%string || op_is "+"%string then Some value
  else if op_is "-"%string then negate_ir_constant value
  else if op_is "~"%string then bitnot_ir_constant value
  else kind ← cast_kind operator; ir_constant_cast kind value.

(** The cases that both evaluators share, given the evaluation of a
    subexpression, of a name and of a class constant. *)
Section Kind.
Context (eval : nat -> outcome (option IrConstant)) (on_name : HirNameResolution -> option IrConstant)
  (on_static : nat -> option nat -> outcome (option IrConstant)).

Fixpoint array_entries (elements : list nat) : outcome (option (list (option IrConstant * IrConstant))) :=
  match elements with
  | [] => Ret (Some [])
  | element :: elements =>
      some_or (expressions module !! element) (fun kind =>
      sbind (match kind with
             | HirExprKind.ArrayPair key value unpack by_ref =>
                 if unpack || by_ref then Ret None
                 else
                   olet key := match key with Some key => eval key | None => Ret None end in
                   some_or value (fun value => sbind (eval value) (fun value => Ret (Some (key, value))))
             | _ => sbind (eval element) (fun value => Ret (Some (None, value)))
             end) (fun entry =>
      sbind (array_entries elements) (fun entries => Ret (Some (entry :: entries)))))
  end.

Definition constant_of_kind (kind : HirExprKind.t) : outcome (option IrConstant) :=
  match kind with
  | HirExprKind.Literal text => literal_constant text
  | HirExprKind.Name r => Ret (on_name r)
  | HirExprKind.Unary operator expr =>
      some_or expr (fun expr => sbind (eval expr) (fun value => Ret (unary_constant operator value)))
  | HirExprKind.Cast kind expr =>
      some_or expr (fun expr => sbind (eval expr) (fun value => Ret (kind ← cast_kind kind; ir_constant_cast kind value)))
  | HirExprKind.Binary operator lhs rhs =>
      some_or lhs (fun lhs => sbind (eval lhs) (fun lhs =>
      some_or rhs (fun rhs => sbind (eval rhs) (fun rhs => Ret (binary_ir_constant operator lhs rhs)))))
  | HirExprKind.Ternary condition if_true if_false =>
      some_or condition (fun condition => sbind (eval condition) (fun value =>
      some_or (ir_constant_truthy value) (fun truthy =>
      if truthy then eval (default condition if_true) else some_or if_false eval)))
  | HirExprKind.Array elements =>
      sbind (array_entries elements) (fun entries => Ret (Some (IrConstant.Array entries)))
  | HirExprKind.StaticAccess target member => some_or target (fun target => on_static target member)
  | HirExprKind.DimFetch receiver dim =>
      some_or receiver (fun receiver => sbind (eval receiver) (fun receiver =>
      some_or dim (fun dim => sbind (eval dim) (fun dim => ir_constant_dim_fetch receiver dim))))
  | _ => Ret None
  end.
End Kind.

(** [resolve_class_constant_initializer]: the search through the parents.  A class
    is searched once, so two more rounds than there are classes are enough. *)
Section Resolve.
Context (eval : nat -> option bytes -> list (bytes * bytes) -> outcome (option IrConstant)).

Fixpoint class_search (fuel : nat) (class_name : option bytes) (constant_name : bytes) (seen_classes : list bytes)
    (visiting : list (bytes * bytes)) : outcome (option IrConstant) :=
  match fuel with
  | O => Timeout
  | S fuel =>
      some_or class_name (fun search_class =>
      if existsb (bytes_eqb search_class) seen_classes then Ret None
      else
        match class_constants !! search_class ≫= (fun constants => constants !! constant_name) with
        | Some const_expr_id =>
            if bool_decide ((search_class, constant_name) ∈ visiting) then Ret None
            else
              some_or (const_exprs module !! const_expr_id) (fun const_expr =>
              if negb (bool_decide (ce_context const_expr = ClassConstInitializer)) || negb (ce_allowed const_expr) then Ret None
              else
                olet result := eval (ce_expr_id const_expr) (Some search_class) (visiting ++ [(search_class, constant_name)]) in
                Ret (match result with
                     | Some value => Some value
                     | None => ce_folded_value const_expr ≫= ir_constant_from_const_value
                     end))
        | None => class_search fuel (parent_of search_class) constant_name (seen_classes ++ [search_class]) visiting
        end)
  end.
Definition resolve_class_constant_initializer (class_name constant_name : bytes) (visiting : list (bytes * bytes)) :
    outcome (option IrConstant) :=
  class_search (S (S (size class_parents))) (Some (normalize_class_name class_name)) constant_name [] visiting.
End Resolve.

Definition is_class_member (member : bytes) : bool := eq_ignore_ascii_case member (lit "class").

(** [constant_from_expr_with_class_constants] *)
Fixpoint constant_from_expr_with_class_constants (fuel : nat) (expr_id : nat) (current_class : option bytes)
    (visiting : list (bytes * bytes)) : outcome (option IrConstant) :=
  match fuel with
  | O => Timeout
  | S fuel =>
      some_or (expressions module !! expr_id)
        (constant_of_kind (fun id => constant_from_expr_with_class_constants fuel id current_class visiting)
           (fun r => match language_constant (source r) with
                     | Some value => Some value
                     | None => named_constant_value named_constants r
                     end)
           (fun target member =>
              some_or (class_constant_initializer_target_class target current_class) (fun target_class =>
              some_or (member ≫= class_constant_initializer_member_name) (fun member =>
              if is_class_member member then
                Ret (Some (IrConstant.String
                  (default target_class (class_constant_initializer_target_display_class target current_class))))
              else
                resolve_class_constant_initializer
                  (fun id class visiting => constant_from_expr_with_class_constants fuel id class visiting)
                  target_class member visiting))))
  end.

(** [constant_from_expr_with_runtime_constants]: names and class constants that
    are not known stay as references; magic constants come first. *)
Context (magic_constant : nat -> option IrConstant).

Fixpoint constant_from_expr_with_runtime_constants (fuel : nat) (expr_id : nat) (current_class : option bytes)
    (visiting : list (bytes * bytes)) : outcome (option IrConstant) :=
  match fuel with
  | O => Timeout
  | S fuel =>
      match magic_constant expr_id with
      | Some value => Ret (Some value)
      | None =>
          some_or (expressions module !! expr_id)
            (constant_of_kind (fun id => constant_from_expr_with_runtime_constants fuel id current_class visiting)
               (fun r => match language_constant (source r) with
                         | Some value => Some value
                         | None => match named_constant_value named_constants r with
                                   | Some value => Some value
                                   | None => IrConstant.NamedConstant <$> runtime_named_constant_name r
                                   end
                         end)
               (fun target member =>
                  some_or (class_constant_initializer_target_class target current_class) (fun target_class =>
                  some_or (member ≫= class_constant_initializer_member_name) (fun member =>
                  let display_class_name := default target_class (class_constant_initializer_target_display_class target current_class) in
                  if is_class_member member then Ret (Some (IrConstant.String display_class_name))
                  else
                    olet value := resolve_class_constant_initializer
                      (fun id class visiting => constant_from_expr_with_class_constants fuel id class visiting)
                      target_class member visiting in
                    Ret (match value with
                         | Some value => Some value
                         | None => Some (IrConstant.ClassConstant target_class display_class_name member)
                         end)))))
      end
  end.
End Constants.

(** ** Constants that a script defines *)

(** [constant_from_expr_with_names] *)
Definition constant_from_expr_with_names (module : HirModule) (depth expr_id : nat) (named_constants : gmap bytes IrConstant) :
    outcome (option IrConstant) :=
  constant_from_expr_with_class_constants module named_constants ∅ ∅ depth expr_id None [].

(** The name and the value of the calls of [define]. *)
Definition define_call (module : HirModule) (kind : HirExprKind.t) : option (nat * nat) :=
  match kind with
  | HirExprKind.Call (Some callee) args =>
      r ← name_of module callee;
      if negb (eq_ignore_ascii_case (source r) (lit "define")) || (length args <? 2) then None
      else match args with name :: value :: _ => Some (arg_value name, arg_value value) | _ => None end
  | _ => None
  end.
Definition definitions (module : HirModule) : list (nat * nat) := omap (define_call module) (expressions module).

Section Defines.
Context (module : HirModule) (depth : nat) (named_constants : gmap bytes IrConstant).

(** One pass over the calls. *)
Fixpoint define_pass (available : gmap bytes IrConstant) (calls : list (nat * nat)) (resolved : gmap bytes IrConstant) :
    outcome (gmap bytes IrConstant) :=
  match calls with
  | [] => Ret resolved
  | (name, value) :: calls =>
      olet name := constant_from_expr_with_names module depth name available in
      match name with
      | Some (IrConstant.String name) =>
          olet value := constant_from_expr_with_names module depth value available in
          match value with
          | Some value => define_pass available calls (<[name := value]> resolved)
          | None => define_pass available calls resolved
          end
      | _ => define_pass available calls resolved
      end
  end.
(** The passes, until one adds no name. *)
Fixpoint define_loop (rounds : nat) (resolved : gmap bytes IrConstant) : outcome (gmap bytes IrConstant) :=
  match rounds with
  | O => Timeout
  | S rounds =>
      olet next := define_pass (resolved ∪ named_constants) (definitions module) resolved in
      if (size next =? size resolved)%nat then Ret next else define_loop rounds next
  end.
Definition define_constant_initializers_from_hir (rounds : nat) : outcome (gmap bytes IrConstant) := define_loop rounds ∅.
End Defines.

(** ** Constants as values *)

(** [ir_constant_value] of the virtual machine.  A new array takes the next
    storage identity.  The debug text of the constant is left out of the last
    message. *)
Section Value.
Context {C : Type} (bk : backend) `{FloatEnv} `{KeyClassifier}.

(** The loop over the entries, given the value of a constant. *)
Definition array_value (value : IrConstant -> N -> Res (Value C * N)) :
    list (option IrConstant * IrConstant) -> ArrayStorage (V := Value C) -> N -> Res (Value C * N) :=
  fix go entries array next :=
    match entries with
    | [] => ok (Array array, next)
    | (k, v) :: entries =>
        rlet p := value v next in
        match k with
        | Some k =>
            rlet q := value k (snd p) in
            olet k := from_value bk (fst q) in
            match k with
            | None => err "native constant array key is invalid"
            | Some k => olet (_, array) := insert array k false (fst p) in go entries array (snd q)
            end
        | None =>
            olet (k, array) := try_append array (fst p) in
            match k with
            | Some _ => go entries array (snd p)
            | None => err "E_PHP_THROW:Error:Cannot add element to the array as the next element is already occupied"
            end
        end
    end.

Fixpoint ir_constant_value (constant : IrConstant) (next : N) : Res (Value C * N) :=
  match constant with
  | IrConstant.Null => ok (Null, next)
  | IrConstant.Bool b => ok (Bool b, next)
  | IrConstant.Int z => ok (Int z, next)
  | IrConstant.Float x => ok (Float x, next)
  | IrConstant.String l | IrConstant.StringBytes l => ok (Str l, next)
  | IrConstant.Array entries => array_value ir_constant_value entries (new_array next) (next + 1)%N
  | IrConstant.NamedConstant _ | IrConstant.ClassConstant _ _ _ => err "native constant requires runtime resolution"
  end.
End Value.
