(* ===== verification/IrConstProofs.v ===== *)
(** * IrConstProofs: folded constants and the values computed at run time *)

From Stdlib Require Import Strings.String Strings.Byte ZArith Floats.SpecFloat.
From stdpp Require Import base list option numbers gmap fin_maps.
From S2P Require Import Prelude RustStd RustNum RustFloat RustText FloatText Simd PhpString NumericString NumericStringProofs PhpArray PhpArrayProofs PhpArraySpec.
From S2P Require Import LiteralText Convert ConvertProofs Compare NativeOps NativeOpsClaims Names IrConst.

(** Comparisons of texts that are known. *)
Ltac eval_eqb H :=
  repeat match type of H with context [bytes_eqb ?a ?b] =>
    let v := eval vm_compute in (bytes_eqb a b) in change (bytes_eqb a b) with v in H end.

Section Fold.
Context {C : Type} `{CallableEq C} (bk : backend) `{FloatEnv} `{KeyClassifier} (st : Store C).

(** A scalar constant as a value. *)
Definition scalar_value (c : IrConstant) : option (Value C) :=
  match c with
  | IrConstant.Null => Some Null
  | IrConstant.Bool b => Some (Bool b)
  | IrConstant.Int z => Some (Int z)
  | IrConstant.Float x => Some (Float x)
  | IrConstant.String l | IrConstant.StringBytes l => Some (Str l)
  | IrConstant.NamedConstant _ | IrConstant.ClassConstant _ _ _ | IrConstant.Array _ => None
  end.

Lemma scalar_value_spec c v next : scalar_value c = Some v -> ir_constant_value bk c next = ok (v, next).
Proof. by destruct c; cbn; intros [= <-]. Qed.

(** *** Operators *)

Lemma shift_amount_small n : (0 <= n < 64)%Z -> shift_amount n = n.
Proof. intros Hn. unfold shift_amount. rewrite (Z.mod_small n) by lia. by rewrite Z.mod_small. Qed.

Lemma checked_shift l r s : u32_try_from r ≫= checked_shl l = Some s -> (0 <= r < 64)%Z /\ s = wrapping_shl l r.
Proof.
  unfold u32_try_from. destruct (_ && _) eqn:E; [|done]. rewrite andb_true_iff, Z.leb_le, Z.ltb_lt in E. cbn.
  unfold checked_shl. destruct (Z.ltb_spec r 64); [|done]. intros [= <-]. unfold wrapping_shl. rewrite shift_amount_small by lia.
  split; [lia|done].
Qed.
Lemma checked_shift_right l r s : u32_try_from r ≫= checked_shr l = Some s -> (0 <= r < 64)%Z /\ s = wrapping_shr l r.
Proof.
  unfold u32_try_from. destruct (_ && _) eqn:E; [|done]. rewrite andb_true_iff, Z.leb_le, Z.ltb_lt in E. cbn.
  unfold checked_shr. destruct (Z.ltb_spec r 64); [|done]. intros [= <-]. unfold wrapping_shr. rewrite shift_amount_small by lia.
  split; [lia|done].
Qed.

Lemma binary_int_fold operator op l r c depth id :
  binary_op operator = Some op -> binary_ir_constant operator (IrConstant.Int l) (IrConstant.Int r) = Some c ->
  exists v, scalar_value c = Some v /\ compute_binary bk st (S depth) id op (Int l) (Int r) = ok v.
Proof.
  unfold binary_op, binary_ir_constant. cbv zeta. intros Hop Hf.
  repeat match type of Hop with (if bytes_eqb operator ?t then _ else _) = _ =>
    let E := fresh "E" in destruct (bytes_eqb operator t) eqn:E;
    [apply bytes_eqb_eq in E as ->; injection Hop as <-; eval_eqb Hf; cbv iota in Hf|] end; try done.
  all: try (match type of Hf with _ <$> checked_i64 ?z = _ =>
              destruct (checked_i64 z) as [w|] eqn:Ew; [|done]; cbn in Hf; injection Hf as <-;
              eexists; split; [done|]; cbn; unfold ok; by rewrite ?Ew end).
  all: try (injection Hf as <-; eexists; split; done).
  - destruct (u32_try_from r ≫= checked_shl l) as [s|] eqn:Es; [|done]. injection Hf as <-.
    apply checked_shift in Es as [Hr ->]. eexists. split; [done|]. cbn. by rewrite (proj2 (Z.ltb_ge _ _)) by lia.
  - destruct (u32_try_from r ≫= checked_shr l) as [s|] eqn:Es; [|done]. injection Hf as <-.
    apply checked_shift_right in Es as [Hr ->]. eexists. split; [done|]. cbn. by rewrite (proj2 (Z.ltb_ge _ _)) by lia.
Qed.

(** *** Arrays of constants *)

(** The integers of a constant are 64-bit. *)
Fixpoint constant_ok (c : IrConstant) : Prop :=
  match c with
  | IrConstant.Int z => in_i64 z = true
  | IrConstant.Float x => valid x
  | IrConstant.Array entries =>
      (fix go (l : list (option IrConstant * IrConstant)) : Prop :=
         match l with
         | [] => True
         | (k, v) :: l => match k with Some k => constant_ok k | None => True end /\ constant_ok v /\ go l
         end) entries
  | _ => True
  end.

Lemma rbind_ok {A B} (m : Res A) (k : A -> Res B) b : rbind m k = ok b -> exists a, m = ok a /\ k a = ok b.
Proof. destruct m as [[a|e]| |]; try done. by exists a. Qed.
Lemma obind_ok {A B} (m : outcome A) (k : A -> Res B) b : obind m k = ok b -> exists a, m = Ret a /\ k a = ok b.
Proof. destruct m as [a| |]; try done. by exists a. Qed.

(** One entry of the loop. *)
Lemma array_value_cons (f : IrConstant -> N -> Res (Value C * N)) k v entries (a : ArrayStorage (V := Value C)) next r :
  array_value bk f ((k, v) :: entries) a next = ok r ->
  exists w n a' n', f v next = ok (w, n) /\ array_value bk f entries a' n' = ok r /\
    ((exists key kv o, k = Some key /\ f key n = ok (kv, n') /\ exists x, from_value bk kv = Ret (Some x) /\ insert a x false w = Ret (o, a')) \/
     (exists x, k = None /\ n' = n /\ try_append a w = Ret (Some x, a'))).
Proof.
  cbn [array_value]. intros ((w & n) & Hv & Hr)%rbind_ok. cbn [fst snd] in Hr. destruct k as [key|].
  - apply rbind_ok in Hr as ((kv & n') & Hk & Hr). cbn [fst snd] in Hr. apply obind_ok in Hr as ([x|] & Hx & Hr); [|done].
    apply obind_ok in Hr as ((o & a') & Hi & Hr). exists w, n, a', n'. split_and!; [done..|]. left. exists key, kv, o. eauto 10.
  - apply obind_ok in Hr as (([x|] & a') & Ha & Hr); [|done]. exists w, n, a', n. split_and!; [done..|]. right. eauto.
Qed.

Lemma array_value_shape f entries a next v n : array_value bk f entries a next = ok (v, n) -> exists a', v = Array (C := C) a'.
Proof.
  revert a next. induction entries as [|[k e] entries IH]; intros a next Hv; [cbn in Hv; injection Hv as <- _; eauto|].
  apply array_value_cons in Hv as (w & m & a' & n' & _ & Hr & _). eauto.
Qed.

Lemma constant_key c next v n k : constant_ok c -> ir_constant_value bk c next = ok (v, n) ->
  from_value (C := C) bk v = Ret (Some k) -> key_ok k.
Proof.
  intros Hc Hv Hk. destruct c; cbn in Hv; try done; try (injection Hv as <- <-); cbn in Hk; try (by injection Hk as <-).
  - injection Hk as <-. by destruct value.
  - injection Hk as <-. apply float_to_int_range.
  - destruct (php_key_ok bk value) as (k' & E & Hok). rewrite E in Hk. cbn in Hk. by injection Hk as <-.
  - destruct (php_key_ok bk value) as (k' & E & Hok). rewrite E in Hk. cbn in Hk. by injection Hk as <-.
  - apply array_value_shape in Hv as [a ->]. done.
Qed.

Lemma add_length (o : Ordered (V := Value C)) k v : length (pairs (spec_add o k v)) = S (length (pairs o)).
Proof. unfold spec_add. cbn [pairs]. rewrite length_app. cbn. lia. Qed.

(** The array of a constant is consistent, and empty only without entries. *)
Lemma array_value_ok entries a next v n :
  constant_ok (IrConstant.Array entries) -> array_ok a ->
  array_value bk (ir_constant_value bk) entries a next = ok (v, n) ->
  exists a', v = Array (C := C) a' /\ array_ok a' /\ length (iter a) <= length (iter a') /\ (entries <> [] -> 0 < length (iter a')).
Proof.
  revert a next. induction entries as [|[k e] entries IH]; intros a next Hc Ha Hv.
  { cbn in Hv. injection Hv as <- _. exists a. split_and!; [done..|lia|done]. }
  destruct Hc as (Hk & He & Hc). apply array_value_cons in Hv as (w & m & a' & n' & Hw & Hr & Hcase).
  assert (array_ok a' /\ length (iter a) <= length (iter a') /\ 0 < length (iter a')) as (Ha' & Hl & Hpos).
  { enough (array_ok a' /\ length (pairs (abs a)) <= length (pairs (abs a')) /\ 0 < length (pairs (abs a'))) by done.
    destruct Hcase as [(key & kv & o & -> & Hkey & x & Hx & Hi)|(x & -> & _ & Hi)].
    - pose proof (constant_key _ _ _ _ _ Hk Hkey Hx) as Hok. destruct (insert_ok a x false w Ha Hok) as (o' & s' & E & Hs & Habs).
      rewrite E in Hi. injection Hi as -> ->. split; [done|]. unfold spec_insert in Habs. destruct (find_pos x (pairs (abs a))) as [i|] eqn:Ef.
      + apply (f_equal snd) in Habs. cbn [snd] in Habs. rewrite <- Habs. cbn [pairs]. rewrite length_insert. split; [done|].
        apply position_lt in Ef. lia.
      + apply (f_equal snd) in Habs. cbn [snd] in Habs. rewrite <- Habs, add_length. lia.
    - destruct (try_append_ok a w Ha) as (o' & s' & E & Hs & Habs). rewrite E in Hi. injection Hi as -> ->. split; [done|].
      unfold spec_append in Habs. destruct (bool_decide _); [done|].
      apply (f_equal snd) in Habs. cbn [snd] in Habs. rewrite <- Habs, add_length. lia. }
  destruct (IH a' n' Hc Ha' Hr) as (b & -> & Hb & Hlb & _). exists b. split_and!; [done..|lia|lia].
Qed.

Lemma array_constant_empty entries next v n :
  constant_ok (IrConstant.Array entries) -> ir_constant_value bk (IrConstant.Array entries) next = ok (v, n) ->
  exists a, v = Array (C := C) a /\ is_empty a = (length entries =? 0)%nat.
Proof.
  intros Hc Hv. cbn [ir_constant_value] in Hv.
  destruct (array_value_ok entries _ _ v n Hc (new_array_ok next) Hv) as (a & -> & Ha & _ & Hpos). exists a. split; [done|].
  destruct entries as [|e entries]; [cbn in Hv; by injection Hv as <- _|].
  unfold is_empty. rewrite (len_iter a _ (layout_consistent a Ha)). destruct (Nat.eqb_spec (length (iter a)) 0) as [E|_]; [|done].
  specialize (Hpos ltac:(done)). lia.
Qed.

(** *** Casts *)

Definition cast_op (kind : CastKind.t) : NativeCastOp :=
  match kind with
  | CastKind.Bool => CastBool | CastKind.Int => CastInt | CastKind.Float => CastFloat | CastKind.String => CastString
  | CastKind.Array => CastArray | CastKind.Object => CastObject | CastKind.Void => CastVoid
  end.

(** The casts that fold to what the run time computes. *)
Definition cast_exact (kind : CastKind.t) (c : IrConstant) : bool :=
  match kind, c with
  | CastKind.Bool, IrConstant.Float x => negb (f64_is_nan x)
  | CastKind.Int, IrConstant.Float x => float_fits_int x || f64_is_nan x
  | (CastKind.Int | CastKind.Float), (IrConstant.String _ | IrConstant.StringBytes _) => false
  | CastKind.String, (IrConstant.Float _ | IrConstant.StringBytes _) => false
  | _, _ => true
  end.

Lemma cast_fold kind c c' v next n depth id :
  constant_ok c -> cast_exact kind c = true -> ir_constant_cast kind c = Some c' -> ir_constant_value bk c next = ok (v, n) ->
  exists v', scalar_value c' = Some v' /\ compute_cast bk st (S depth) id (cast_op kind) v = ok v'.
Proof.
  intros Hc He Hf Hv. destruct c as [|b|z|x|l|l|name|cl d m|entries].
  9: { destruct (array_constant_empty entries next v n Hc Hv) as (a & -> & Ea).
       destruct kind; cbn in Hf; try done; injection Hf as <-; eexists; (split; [done|]); cbn; by rewrite Ea. }
  all: cbn in Hv; try done; injection Hv as <- <-; destruct kind; cbn in Hf; try done; injection Hf as <-;
    eexists; (split; [done|]); cbn; try done.
  - by destruct b.
  - by destruct b.
  - by destruct b.
  - cbn in He. by rewrite He, andb_true_r.
  - cbn in He. apply orb_true_iff in He as [He|He].
    + unfold php_float_to_int. by rewrite He.
    + by destruct x.
Qed.

Lemma unary_fold c v next n depth :
  ir_constant_value bk c next = ok (v, n) ->
  (forall c', negate_ir_constant c = Some c' -> exists v', scalar_value c' = Some v' /\ compute_unary bk st (S depth) Minus v = ok v') /\
  (forall c', bitnot_ir_constant c = Some c' -> exists v', scalar_value c' = Some v' /\ compute_unary bk st (S depth) BitNot v = ok v').
Proof.
  intros Hv. split; intros c' Hf; destruct c; cbn in Hf; try done; cbn in Hv; injection Hv as <- <-.
  - destruct (checked_i64 (- value)) as [z|] eqn:E; [|done]. cbn in Hf. injection Hf as <-. eexists. split; [done|].
    cbn. by rewrite E.
  - injection Hf as <-. by eexists.
  - injection Hf as <-. by eexists.
Qed.

Lemma binary_fold operator op l r c vl vr n1 n2 m1 m2 depth id :
  binary_op operator = Some op -> binary_ir_constant operator l r = Some c ->
  ir_constant_value bk l n1 = ok (vl, m1) -> ir_constant_value bk r n2 = ok (vr, m2) ->
  exists v, scalar_value c = Some v /\ compute_binary bk st (S depth) id op vl vr = ok v.
Proof.
  intros Hop Hf Hl Hr.
  assert (bytes_eqb operator (lit "??") = false) as Hq.
  { destruct (bytes_eqb operator (lit "??")) eqn:E; [|done]. apply bytes_eqb_eq in E as ->. by vm_compute in Hop. }
  destruct l; try (unfold binary_ir_constant in Hf; rewrite Hq in Hf; done);
    destruct r; try (unfold binary_ir_constant in Hf; rewrite Hq in Hf; done); cbn in Hl, Hr; injection Hl as <- _; injection Hr as <- _.
  - by eapply binary_int_fold.
  - unfold binary_ir_constant in Hf. rewrite Hq in Hf. destruct (bytes_eqb operator (lit ".")) eqn:E; [|done].
    apply bytes_eqb_eq in E as ->. vm_compute in Hop. injection Hop as <-. injection Hf as <-. by eexists.
  - unfold binary_ir_constant in Hf. rewrite Hq in Hf. destruct (bytes_eqb operator (lit ".")) eqn:E; [|done].
    apply bytes_eqb_eq in E as ->. vm_compute in Hop. injection Hop as <-. injection Hf as <-. by eexists.
Qed.

End Fold.

(** ** Where folding differs *)

#[local] Instance no_callables : CallableEq unit := fun _ _ => true.
#[local] Instance plain_keys : KeyClassifier := {| ambiguous := fun _ => false |}.
Definition no_store : Store unit := mk_store ∅ ∅.


(** What a cast folds to, and what the run time computes for the same value. *)
Definition cast_both (kind : CastKind.t) (c : IrConstant) : option IrConstant * Res (Value unit) :=
  (ir_constant_cast kind c, rlet p := ir_constant_value BScalar c 0 in compute_cast BScalar no_store 1 0 (cast_op kind) (fst p)).

Definition number (text : string) : IrConstant := IrConstant.Float (default S754_nan (parse_f64 (lit text))).

(** The element of an array constant, folded and at run time. *)
Definition element_both (entries : list (option IrConstant * IrConstant)) (index : Z) : outcome (option IrConstant) * option (Value unit) :=
  (ir_constant_dim_fetch (IrConstant.Array entries) (IrConstant.Int index),
   match ir_constant_value BScalar (IrConstant.Array entries) 0 with
   | Ret (Ok (Array a, _)) => get a (KInt index)
   | _ => None
   end).

