(* ===== verification/IrConstClaims.v ===== *)
(** * IrConstClaims: evaluation of constants ends, number literals are read back *)

From Stdlib Require Import Strings.String Strings.Byte ZArith Floats.SpecFloat.
From stdpp Require Import base list option numbers gmap fin_maps.
From S2P Require Import Prelude RustStd RustNum RustFloat RustText PhpString LiteralText LiteralScan Names IrConst.

(** ** Evaluation ends *)

Definition settled {A} (o : outcome A) : Prop := o <> Timeout.

Lemma settled_ret {A} (a : A) : settled (Ret a).
Proof. done. Qed.
Lemma settled_obind {A B} (m : outcome A) (k : A -> outcome B) :
  settled m -> (forall a, m = Ret a -> settled (k a)) -> settled (obind m k).
Proof. destruct m as [a| |]; cbn; intros Hm Hk; [by apply Hk|done..]. Qed.
Lemma settled_sbind {A B} (m : outcome (option A)) (k : A -> outcome (option B)) :
  settled m -> (forall a, settled (k a)) -> settled (sbind m k).
Proof. intros Hm Hk. apply settled_obind; [done|]. intros [a|] _; [apply Hk|done]. Qed.
Lemma settled_some_or {A B} (o : option A) (k : A -> outcome (option B)) :
  (forall a, o = Some a -> settled (k a)) -> settled (some_or o k).
Proof. destruct o; cbn; intros Hk; [by apply Hk|done]. Qed.
#[local] Hint Resolve settled_ret settled_sbind settled_some_or : settled.

Lemma number_literal_settled l : settled (number_literal l).
Proof.
  unfold number_literal. case_match; [done|]. apply settled_obind; [|by intros [] _].
  unfold parse_php_int_literal. destruct (strip_literal_sign l) as [neg body]. case_match; [done|].
  match goal with |- settled (match ?o with _ => _ end) => destruct o end; [|done].
  destruct neg; [|done]. apply settled_obind; [|done]. unfold i64_neg. by destruct (checked_i64 _).
Qed.

Lemma literal_settled text : settled (literal_constant text).
Proof.
  unfold literal_constant. destruct (quoted_returns (trim text)) as [q Hq]. destruct (heredoc_returns (trim text)) as [h Hh].
  rewrite Hq, Hh. repeat (case_match; try done). cbn [obind]. destruct q; [done|]. cbn [obind]. destruct h; [done|].
  apply number_literal_settled.
Qed.

Lemma dim_entries_settled entries dim next : settled (dim_entries entries dim next).
Proof.
  revert next. induction entries as [|[key value] entries IH]; intros next; [done|]. cbn [dim_entries].
  apply settled_obind.
  - destruct key; [done|]. apply settled_obind; [|done]. unfold i64_add. by destruct (checked_i64 _).
  - intros [k n] _. destruct k; case_match; auto with settled; done.
Qed.
Lemma dim_fetch_settled receiver dim : settled (ir_constant_dim_fetch receiver dim).
Proof. destruct receiver; try done. apply dim_entries_settled. Qed.

Section Terminate.
Context (module : HirModule) (named_constants : gmap bytes IrConstant)
  (class_constants : gmap bytes (gmap bytes nat)) (class_parents : gmap bytes (option bytes)).

(** The expressions that the evaluation of an expression evaluates. *)
Definition subexpressions (kind : HirExprKind.t) : list nat :=
  match kind with
  | HirExprKind.Unary _ e | HirExprKind.Cast _ e => omap id [e]
  | HirExprKind.Binary _ l r | HirExprKind.DimFetch l r | HirExprKind.ArrayPair l r _ _ => omap id [l; r]
  | HirExprKind.Ternary c t f => omap id [c; t; f]
  | HirExprKind.Array elements => elements
  | _ => []
  end.

(** Expressions form a graph without cycles, of a bounded height. *)
Context (rank : nat -> nat) (height : nat).
Definition acyclic : Prop :=
  (forall i kind e, expressions module !! i = Some kind -> e ∈ subexpressions kind -> rank e < rank i) /\
  (forall i, rank i <= height).

(** *** The search for a class constant *)

Lemma class_search_settled eval fuel class name seen visiting :
  (forall c const_expr_id ce, class_constants !! c ≫= (fun m => m !! name) = Some const_expr_id ->
     const_exprs module !! const_expr_id = Some ce -> (c, name) ∉ visiting ->
     settled (eval (ce_expr_id ce) (Some c) (visiting ++ [(c, name)]))) ->
  NoDup seen -> (forall c, c ∈ seen -> is_Some (class_parents !! c)) -> size class_parents + 2 <= fuel + length seen ->
  settled (class_search module class_constants class_parents eval fuel (Some class) name seen visiting).
Proof.
  intros He. revert class seen. induction fuel as [|fuel IH]; intros class seen Hnd Hdom Hf.
  - exfalso. enough (length seen <= size class_parents) by lia.
    rewrite <- (size_list_to_set (C := gset bytes) seen Hnd), <- (size_dom (D := gset bytes) class_parents).
    apply subseteq_size. intros c Hc. apply elem_of_list_to_set in Hc. apply elem_of_dom. by apply Hdom.
  - cbn [class_search some_or]. destruct (existsb (bytes_eqb class) seen) eqn:Es; [done|].
    assert (class ∉ seen) as Hnew.
    { intros Hin. assert (existsb (bytes_eqb class) seen = true); [|congruence]. apply existsb_exists. exists class.
      split; [by apply list_elem_of_In|by apply bytes_eqb_eq]. }
    destruct (class_constants !! class ≫= _) as [ce_id|] eqn:Ec.
    + case_bool_decide as Hv; [done|]. apply settled_some_or. intros ce Hce. case_match; [done|].
      apply settled_obind; [by eapply He|]. by intros [] _.
    + destruct (parent_of class_parents class) as [p|] eqn:Ep.
      * unfold parent_of in Ep. destruct (class_parents !! class) as [o|] eqn:Eo; [|done].
        apply IH; [apply NoDup_app; split_and!; [done|set_solver|apply NoDup_singleton]| |rewrite length_app; cbn; lia].
        intros c Hc. apply elem_of_app in Hc as [Hc|Hc]; [by apply Hdom|]. apply list_elem_of_singleton in Hc as ->. by rewrite Eo.
      * destruct fuel as [|fuel]; [|done]. exfalso. enough (length seen <= size class_parents) by lia.
        rewrite <- (size_list_to_set (C := gset bytes) seen Hnd), <- (size_dom (D := gset bytes) class_parents).
        apply subseteq_size. intros c Hc. apply elem_of_list_to_set in Hc. apply elem_of_dom. by apply Hdom.
Qed.

(** *** Evaluation of an expression *)

Lemma array_entries_settled eval r elements :
  acyclic -> (forall e, rank e < r -> settled (eval e)) -> (forall e, e ∈ elements -> rank e < r) ->
  settled (array_entries module eval elements).
Proof.
  intros [Hsub _] He. induction elements as [|element elements IH]; intros Hr; [done|].
  cbn [array_entries]. apply settled_some_or. intros kind Hkind. assert (rank element < r) as Hlt by (apply Hr; left).
  assert (forall e, e ∈ subexpressions kind -> settled (eval e)) as Hs.
  { intros e Hin. apply He. pose proof (Hsub _ _ _ Hkind Hin). lia. }
  apply settled_sbind.
  - destruct kind; try (apply settled_sbind; [by apply He|done]). case_match; [done|]. apply settled_obind.
    + destruct key as [key|]; [|done]. apply Hs. cbn. left.
    + intros o _. apply settled_some_or. intros v ->. apply settled_sbind; [|done]. apply Hs. destruct key; cbn; set_solver.
  - intros entry. apply settled_sbind; [|done]. apply IH. intros e Hin. apply Hr. by right.
Qed.

Lemma constant_of_kind_settled eval on_name on_static i kind :
  acyclic -> expressions module !! i = Some kind -> (forall e, rank e < rank i -> settled (eval e)) ->
  (forall target member, settled (on_static target member)) -> settled (constant_of_kind module eval on_name on_static kind).
Proof.
  intros Hac Hk He Hst.
  assert (forall e, e ∈ subexpressions kind -> settled (eval e)) as Hs.
  { intros e Hin. apply He. by apply (proj1 Hac i kind). }
  destruct kind; cbn [constant_of_kind]; try done; [apply literal_settled|..].
  - apply settled_sbind; [|done]. apply (array_entries_settled _ (rank i)); [done..|]. intros e Hin. by apply (proj1 Hac i _ e Hk).
  - apply settled_some_or. intros e ->. apply settled_sbind; [|done]. apply Hs. cbn. set_solver.
  - apply settled_some_or. intros l ->. apply settled_sbind; [apply Hs; cbn; set_solver|]. intros a.
    apply settled_some_or. intros r ->. apply settled_sbind; [apply Hs; cbn; set_solver|done].
  - apply settled_some_or. intros c ->. apply settled_sbind; [apply Hs; cbn; set_solver|]. intros a.
    apply settled_some_or. intros [] _.
    + apply Hs. destruct if_true; cbn; set_solver.
    + apply settled_some_or. intros f ->. apply Hs. destruct if_true; cbn; set_solver.
  - apply settled_some_or. auto.
  - apply settled_some_or. intros l ->. apply settled_sbind; [apply Hs; cbn; set_solver|]. intros a.
    apply settled_some_or. intros r ->. apply settled_sbind; [apply Hs; cbn; set_solver|]. intros b. apply dim_fetch_settled.
  - apply settled_some_or. intros e ->. apply settled_sbind; [|done]. apply Hs. cbn. set_solver.
Qed.

(** *** The constants under evaluation *)

(** The constants that the classes declare. *)
Definition declared_constants : list (bytes * bytes) :=
  map_to_list class_constants ≫= (fun p => (fun q => (fst p, fst q)) <$> map_to_list (snd p)).

Lemma declared_spec class name const_expr_id :
  class_constants !! class ≫= (fun m => m !! name) = Some const_expr_id -> (class, name) ∈ declared_constants.
Proof.
  destruct (class_constants !! class) as [m|] eqn:Em; [|done]. cbn. intros Hn.
  apply list_elem_of_bind. exists (class, m). split; [|by apply elem_of_map_to_list].
  apply list_elem_of_fmap. exists (name, const_expr_id). split; [done|]. by apply elem_of_map_to_list.
Qed.

(** A stack of distinct declared constants. *)
Definition stack_ok (visiting : list (bytes * bytes)) : Prop := NoDup visiting /\ visiting ⊆ declared_constants.

Lemma stack_push visiting class name const_expr_id :
  stack_ok visiting -> (class, name) ∉ visiting -> class_constants !! class ≫= (fun m => m !! name) = Some const_expr_id ->
  stack_ok (visiting ++ [(class, name)]) /\ length visiting < length declared_constants.
Proof.
  intros [Hnd Hsub] Hnew Hc%declared_spec. assert (stack_ok (visiting ++ [(class, name)])) as [Hnd' Hsub'].
  { split; [apply NoDup_app; split_and!; [done|set_solver|apply NoDup_singleton]|].
    intros p Hp. apply elem_of_app in Hp as [Hp|Hp]; [by apply Hsub|]. by apply list_elem_of_singleton in Hp as ->. }
  split; [done|]. apply (NoDup_submseteq _ _ Hnd') in Hsub'. apply submseteq_length in Hsub'. rewrite length_app in Hsub'. cbn in Hsub'. lia.
Qed.

(** A depth that is enough for an expression. *)
Definition enough (fuel i : nat) (visiting : list (bytes * bytes)) : Prop :=
  (length declared_constants - length visiting) * S height + rank i < fuel.

Lemma resolve_settled fuel i visiting class name :
  acyclic -> enough (S fuel) i visiting -> stack_ok visiting ->
  (forall e class visiting, enough fuel e visiting -> stack_ok visiting ->
     settled (constant_from_expr_with_class_constants module named_constants class_constants class_parents fuel e class visiting)) ->
  settled (resolve_class_constant_initializer module class_constants class_parents
    (constant_from_expr_with_class_constants module named_constants class_constants class_parents fuel) class name visiting).
Proof.
  intros [_ Hh] Hf Hst IH. unfold resolve_class_constant_initializer.
  apply class_search_settled; [|constructor|set_solver|cbn; lia]. intros c id ce Hc _ Hnew.
  destruct (stack_push _ _ _ _ Hst Hnew Hc) as [Hst' Hlen]. apply IH; [|done].
  unfold enough in *. rewrite length_app. cbn [length]. pose proof (Hh (ce_expr_id ce)).
  replace (length declared_constants - length visiting) with (S (length declared_constants - (length visiting + 1))) in Hf by lia.
  lia.
Qed.

Lemma enough_sub fuel i e visiting : enough (S fuel) i visiting -> rank e < rank i -> enough fuel e visiting.
Proof. unfold enough. lia. Qed.

Lemma class_constants_settled fuel i class visiting :
  acyclic -> enough fuel i visiting -> stack_ok visiting ->
  settled (constant_from_expr_with_class_constants module named_constants class_constants class_parents fuel i class visiting).
Proof.
  intros Hac. revert i class visiting. induction fuel as [|fuel IH]; intros i class visiting Hf Hst; [by apply Nat.nlt_0_r in Hf|].
  cbn [constant_from_expr_with_class_constants]. apply settled_some_or. intros kind Hkind.
  apply (constant_of_kind_settled _ _ _ i); [done..| |].
  - intros e He. apply IH; [by eapply enough_sub|done].
  - intros target member. apply settled_some_or. intros tc _. apply settled_some_or. intros m _. case_match; [done|].
    by apply (resolve_settled fuel i).
Qed.

Context (magic_constant : nat -> option IrConstant).

Lemma runtime_constants_settled fuel i class visiting :
  acyclic -> enough fuel i visiting -> stack_ok visiting ->
  settled (constant_from_expr_with_runtime_constants module named_constants class_constants class_parents magic_constant fuel i class visiting).
Proof.
  intros Hac. revert i class visiting. induction fuel as [|fuel IH]; intros i class visiting Hf Hst; [by apply Nat.nlt_0_r in Hf|].
  cbn [constant_from_expr_with_runtime_constants]. case_match; [done|]. apply settled_some_or. intros kind Hkind.
  apply (constant_of_kind_settled _ _ _ i); [done..| |].
  - intros e He. apply IH; [by eapply enough_sub|done].
  - intros target member. apply settled_some_or. intros tc _. apply settled_some_or. intros m _. cbv zeta. case_match; [done|].
    apply settled_obind; [|done]. apply (resolve_settled fuel i); [done..|]. intros. by apply class_constants_settled.
Qed.

(** C37: evaluation of constant expressions ends, also where class constants refer
    to each other in a cycle and where the parents of classes form one: in a
    module whose expressions are acyclic, a depth of one more than the height of
    the expressions for each declared class constant and for the expression
    itself is enough, for both evaluators. *)
Theorem constants_terminate i class fuel :
  acyclic -> (S (length declared_constants)) * S height <= fuel ->
  settled (constant_from_expr_with_class_constants module named_constants class_constants class_parents fuel i class []) /\
  settled (constant_from_expr_with_runtime_constants module named_constants class_constants class_parents magic_constant fuel i class []).
Proof.
  intros Hac Hf. assert (enough fuel i []) as He.
  { unfold enough. pose proof (proj2 Hac i). cbn [length]. rewrite Nat.sub_0_r. lia. }
  assert (stack_ok []) as Hst by (split; [constructor|set_solver]).
  split; [by apply class_constants_settled|by apply runtime_constants_settled].
Qed.
End Terminate.

(** [class A extends B { const X = self::Y; } class B extends A { const Y = self::X; }] *)
Definition cyclic_name (text : string) : HirExprKind.t :=
  HirExprKind.Name (mk_resolution (lit text) (lit "class_like") (lit "special") None None None).
Definition cyclic_module : HirModule := mk_module
  [cyclic_name "self"; HirExprKind.Literal (lit "Y"); HirExprKind.StaticAccess (Some 0) (Some 1);
   cyclic_name "parent"; HirExprKind.Literal (lit "X"); HirExprKind.StaticAccess (Some 3) (Some 4);
   HirExprKind.Binary (lit "??") (Some 5) (Some 1)]
  [mk_const_expr ClassConstInitializer ConstExprKind.ClassConstFetch 2 true None;
   mk_const_expr ClassConstInitializer ConstExprKind.ClassConstFetch 5 true None] [].
Definition cyclic_constants : gmap bytes (gmap bytes nat) :=
  {[ lit "a" := {[ lit "X" := 0 ]}; lit "b" := {[ lit "Y" := 1 ]} ]}.
Definition cyclic_parents : gmap bytes (option bytes) :=
  {[ lit "a" := Some (lit "b"); lit "b" := Some (lit "a") ]}.

Lemma cyclic_acyclic : acyclic cyclic_module (fun i => Nat.min i 7) 7.
Proof.
  split; [|intros; lia]. intros i kind e Hi Hin.
  do 7 (destruct i as [|i]; [cbn in Hi; injection Hi as <-; cbn in Hin; rewrite ?elem_of_cons, ?elem_of_nil in Hin; lia|]).
  by destruct i.
Qed.

Lemma constants_terminate_witness :
  settled (constant_from_expr_with_class_constants cyclic_module ∅ cyclic_constants cyclic_parents 24 2 (Some (lit "A")) []) /\
  settled (constant_from_expr_with_runtime_constants cyclic_module ∅ cyclic_constants cyclic_parents (fun _ => None) 24 2 (Some (lit "A")) []).
Proof. apply (constants_terminate _ _ _ _ (fun i => Nat.min i 7) 7); [apply cyclic_acyclic|vm_compute; lia]. Defined.

(** A constant that depends on itself has no folded value; the second evaluator
    keeps the reference. *)
Example cyclic_unfolded :
  constant_from_expr_with_class_constants cyclic_module ∅ cyclic_constants cyclic_parents 24 2 (Some (lit "A")) [] = Ret None /\
  constant_from_expr_with_runtime_constants cyclic_module ∅ cyclic_constants cyclic_parents (fun _ => None) 24 2 (Some (lit "A")) [] =
    Ret (Some (IrConstant.ClassConstant (lit "a") (lit "A") (lit "Y"))).
Proof. split; vm_compute; reflexivity. Qed.
