(* ===== verification/IrLiterals.v ===== *)
(** * IrLiterals: the values of integer literals *)

From Stdlib Require Import Strings.String Strings.Byte ZArith Floats.SpecFloat.
From stdpp Require Import base list option numbers.
From S2P Require Import Prelude RustStd RustNum RustText NumericStringProofs LiteralText Names IrConst.

(** ** Texts that start with a digit *)

Definition word_byte (x : byte) : bool := is_ascii_digit x || in_range x 65 90 || in_range x 97 122 || (x =b "_"%byte).
(** The token of a number without a point: a digit, then digits, letters and underscores. *)
Definition number_text (text : bytes) : bool :=
  match text with x :: _ => is_ascii_digit x | [] => false end && forallb word_byte text.
Definition without_separators (text : bytes) : bytes := List.filter (fun x => negb (x =b "_"%byte)) text.

Lemma word_not_blank x l : word_byte x = true ->
  first_stripped whitespace_chars (x :: l) = None /\ first_stripped (@rev byte <$> whitespace_chars) (x :: l) = None.
Proof. destruct x; intros H; try discriminate H; split; reflexivity. Qed.

Lemma trim_number text : number_text text = true -> trim text = text.
Proof.
  unfold number_text. destruct text as [|x l]; [done|]. intros [_ Hw]%andb_true_iff.
  assert (word_byte x = true) as Hx by (cbn in Hw; by apply andb_true_iff in Hw as [? _]).
  unfold trim, trim_start. cbn [length trim_loop]. rewrite (proj1 (word_not_blank x l Hx)).
  unfold trim_end. destruct (rev (x :: l)) as [|y r] eqn:E; [apply (f_equal length) in E; rewrite length_rev in E; done|].
  assert (word_byte y = true) as Hy.
  { rewrite forallb_forall in Hw. apply Hw, in_rev. rewrite E. by left. }
  cbn [length trim_loop]. rewrite (proj2 (word_not_blank y r Hy)), <- E. apply rev_involutive.
Qed.

(** Such a text is the text of a number. *)
Lemma number_text_literal text : number_text text = true -> literal_constant text = number_literal (without_separators text).
Proof.
  intros H. unfold literal_constant. rewrite (trim_number _ H). unfold number_text in H. destruct text as [|x l]; [done|].
  apply andb_true_iff in H as [Hd _].
  assert (forall w, head w <> None -> forallb (fun y => negb (is_ascii_digit y)) (lowercase w) = true ->
            eq_ignore_ascii_case (x :: l) w = false) as Hk.
  { intros [|y w]; [done|]. intros _ Hw. cbn in Hw |- *. apply andb_true_iff in Hw as [Hy _].
    assert (byte_eq_ignore_ascii_case x y = false) as ->; [|done]. unfold byte_eq_ignore_ascii_case.
    apply not_true_is_false. intros E%beq_eq. rewrite <- E in Hy. by destruct x. }
  rewrite !Hk by done. assert (quoted_literal_body (x :: l) = Ret None) as ->.
  { unfold quoted_literal_body. destruct l as [|y l]; [by destruct x|]. by destruct x. }
  cbn [obind]. assert (heredoc_literal_body (x :: l) = Ret None) as ->; [|done].
  unfold heredoc_literal_body, heredoc_body_info. by destruct x.
Qed.

(** ** Digits *)

(** The number that digits stand for, most significant first. *)
Fixpoint place_value (radix : N) (digits : list N) : Z :=
  match digits with
  | [] => 0
  | d :: digits => Z.of_N d * Z.of_N radix ^ Z.of_nat (length digits) + place_value radix digits
  end.

Lemma radix_value_place radix l digits v : mapM (to_digit radix) l = Some digits ->
  radix_value radix v l = Some (v * Z.of_N radix ^ Z.of_nat (length digits) + place_value radix digits)%Z.
Proof.
  intros H%mapM_Some. revert v. induction H as [|x d l digits Hx H IH]; intros v; cbn [radix_value place_value length].
  { f_equal. lia. }
  rewrite Hx, IH. f_equal. rewrite Nat2Z.inj_succ, Z.pow_succ_r by lia. ring.
Qed.

Lemma to_digit_lower radix x : to_digit radix (to_ascii_lowercase x) = to_digit radix x.
Proof. by destruct x. Qed.
Lemma to_digit_unsigned radix x d : to_digit radix x = Some d -> strip_sign [x] = (false, [x]) /\ (x =b "_"%byte) = false.
Proof. by destruct x. Qed.
Lemma strip_sign_head x l : strip_sign [x] = (false, [x]) -> strip_sign (x :: l) = (false, x :: l).
Proof. by destruct x. Qed.

Lemma digits_radix radix l digits : l <> [] -> mapM (to_digit radix) l = Some digits ->
  from_str_radix radix l = checked_i64 (place_value radix digits).
Proof.
  intros Hl Hd. destruct l as [|x l]; [done|]. unfold from_str_radix.
  pose proof Hd as Hd'. apply mapM_Some in Hd'. inversion Hd' as [|? d ? ? Hx]; subst.
  rewrite (strip_sign_head x l (proj1 (to_digit_unsigned _ _ _ Hx))). rewrite (radix_value_place _ _ _ _ Hd). done.
Qed.

Lemma digits_lower radix l digits : mapM (to_digit radix) l = Some digits -> mapM (to_digit radix) (lowercase l) = Some digits.
Proof.
  intros H%mapM_Some. apply mapM_Some. unfold lowercase. apply Forall2_fmap_l. eapply Forall2_impl; [|exact H].
  intros x d Hx. cbn. by rewrite to_digit_lower.
Qed.

Lemma decimal_digits l : forallb is_ascii_digit l = true -> exists digits, mapM (to_digit 10) l = Some digits /\ digits_val l = place_value 10 digits.
Proof.
  intros Hl. assert (exists digits, mapM (to_digit 10) l = Some digits) as [digits Hd].
  { induction l as [|x l IH]; [by exists []|]. cbn in Hl. apply andb_true_iff in Hl as [Hx Hl]. destruct (IH Hl) as [ds Hds].
    exists ((u8 x - 48)%N :: ds). cbn [mapM]. rewrite Hds. by destruct x. }
  exists digits. split; [done|]. pose proof (radix_value_place _ _ _ 0 Hd) as Hv. rewrite Z.mul_0_l, Z.add_0_l in Hv.
  enough (forall v, radix_value 10 v l = Some (fold_left (fun v x => 10 * v + digit_val x)%Z l v)) as H.
  { rewrite (H 0%Z) in Hv. by injection Hv. }
  clear - Hl. induction l as [|x l IH]; intros v; [done|]. cbn in Hl. apply andb_true_iff in Hl as [Hx Hl].
  cbn [radix_value fold_left]. rewrite <- (IH Hl). assert (to_digit 10 x = Some (u8 x - 48)%N) as -> by (by destruct x).
  f_equal. unfold digit_val. rewrite N2Z.inj_sub by (by destruct x). lia.
Qed.

(** ** The value of a literal *)

Definition radix_prefixes : list (N * bytes) := [(16, lit "0x"); (16, lit "0X"); (2, lit "0b"); (2, lit "0B")]%N.

Lemma not_nil_lower l : l <> [] -> lowercase l <> [].
Proof. by destruct l. Qed.

(** A literal with a prefix for its radix. *)
Lemma prefixed_literal radix p l digits :
  (radix, p) ∈ radix_prefixes -> l <> [] -> mapM (to_digit radix) l = Some digits ->
  number_literal (p ++ l) = Ret (IrConstant.Int <$> checked_i64 (place_value radix digits)).
Proof.
  intros Hp Hl Hd. apply digits_lower in Hd. apply not_nil_lower in Hl.
  pose proof (digits_radix _ _ _ Hl Hd) as Hr. unfold radix_prefixes in Hp. rewrite !elem_of_cons, elem_of_nil in Hp.
  assert (is_php_float_literal_candidate (p ++ l) = false /\ decimal_integer_literal (p ++ l) = None /\
          parse_php_int_literal (p ++ l) = match from_str_radix radix (lowercase l) with Some z => Ret (Some z) | None => Ret None end)
    as (E1 & E2 & E3).
  { destruct Hp as [[= -> ->]|[[= -> ->]|[[= -> ->]|[[= -> ->]|[]]]]]; split_and!; reflexivity. }
  unfold number_literal. rewrite E1, E3, Hr. destruct (checked_i64 _); [done|]. cbn [obind]. by rewrite E2.
Qed.

(** *** Digits without a prefix *)

Lemma no_float_digits l : forallb is_ascii_digit l = true -> is_php_float_literal_candidate l = false.
Proof.
  intros Hl. unfold is_php_float_literal_candidate.
  assert (strip_literal_sign l = (false, l)) as -> by (destruct l as [|x l]; [done|]; cbn in Hl; by destruct x).
  case_match; [done|]. apply not_true_is_false. intros (x & Hin & Hx)%existsb_exists.
  rewrite forallb_forall in Hl. specialize (Hl x Hin). by destruct x.
Qed.

Lemma digits_f64 l : forallb is_ascii_digit l = true -> l <> [] -> parse_f64 l = Some (round_decimal false (digits_val l) 0).
Proof.
  intros Hl Hn. unfold parse_f64. destruct l as [|x l]; [done|]. pose proof Hl as Hx. cbn in Hx. apply andb_true_iff in Hx as [Hx _].
  rewrite strip_sign_digit by done.
  assert (run_len is_ascii_digit (x :: l) = length (x :: l)) as Hrun.
  { pose proof (run_len_prefix _ _ [] Hl) as H. rewrite app_nil_r, Nat.add_0_r in H. exact H. }
  rewrite Hrun, firstn_all, drop_all. cbn [app length]. rewrite app_nil_r. destruct x; try done; reflexivity.
Qed.

Lemma plain_literal l parsed : forallb is_ascii_digit l = true -> l <> [] ->
  (if (1 <? length l)%nat && starts_with (lit "0") l && forallb is_octal l then from_str_radix 8 l else parse_i64 l) = parsed ->
  number_literal l = Ret (Some (match parsed with Some z => IrConstant.Int z | None => IrConstant.Float (round_decimal false (digits_val l) 0) end)).
Proof.
  intros Hl Hn Hp. unfold number_literal. rewrite no_float_digits by done.
  assert (strip_literal_sign l = (false, l)) as Es by (destruct l as [|x l']; [done|]; cbn in Hl; by destruct x).
  assert (parse_php_int_literal l = match parsed with Some z => Ret (Some z) | None => Ret None end) as ->.
  { unfold parse_php_int_literal. rewrite Es. destruct l as [|x l]; [done|].
    change (length (x :: l) =? 0)%nat with false. cbv iota zeta.
    assert (strip_prefix (lit "0x") (lowercase (x :: l)) = None /\ strip_prefix (lit "0b") (lowercase (x :: l)) = None) as [-> ->].
    { cbn in Hl. apply andb_true_iff in Hl as [Hx Hl]. destruct x; try done. destruct l as [|y l]; [done|].
      cbn in Hl. apply andb_true_iff in Hl as [Hy _]. by destruct y. }
    rewrite Hp. done. }
  destruct parsed; [done|]. cbn [obind]. unfold decimal_integer_literal. rewrite Es, Hl.
  assert (negb (length l =? 0)%nat = true) as -> by (by destruct l). cbn [andb]. cbv iota. cbn [mbind option_bind].
  by rewrite digits_f64.
Qed.

Lemma octal_is_digit l : forallb is_octal l = true -> forallb is_ascii_digit l = true /\ exists digits, mapM (to_digit 8) l = Some digits.
Proof.
  induction l as [|x l IH]; [split; [done|by exists []]|]. cbn [forallb]. intros [Hx Hl]%andb_true_iff.
  destruct (IH Hl) as (-> & ds & Hds). rewrite andb_true_r. split; [by destruct x|]. cbn [mapM]. rewrite Hds. exists ((u8 x - 48)%N :: ds).
  by destruct x.
Qed.

Lemma parse_digits l : forallb is_ascii_digit l = true -> l <> [] -> parse_i64 l = checked_i64 (digits_val l).
Proof.
  intros Hl Hn. destruct l as [|x l]; [done|]. unfold parse_i64. pose proof Hl as Hx. cbn in Hx. apply andb_true_iff in Hx as [Hx _].
  rewrite strip_sign_digit by done. by rewrite Hl.
Qed.
Lemma canonical_not_octal l : canonical_digits l -> (1 <? length l)%nat && starts_with (lit "0") l = false.
Proof.
  intros (_ & _ & Hz). destruct (Nat.ltb_spec 1 (length l)) as [H1|]; [|done]. specialize (Hz H1). cbn.
  destruct l as [|x l]; [done|]. by destruct x.
Qed.

Lemma octal_prefix_unread o l : o ∈ [lit "0o"; lit "0O"] -> forallb is_octal l = true -> number_literal (o ++ l) = Ret None.
Proof.
  intros Ho Hl. apply octal_is_digit in Hl as [Hl _]. assert (is_php_float_literal_candidate (o ++ l) = false) as Ef.
  { pose proof (no_float_digits l Hl) as Hf. unfold is_php_float_literal_candidate in Hf |- *.
    assert (existsb (fun x => (x =b "."%byte) || (x =b "e"%byte) || (x =b "E"%byte)) l = false) as E.
    { apply not_true_is_false. intros (x & Hin & Hx)%existsb_exists. rewrite forallb_forall in Hl. specialize (Hl x Hin). by destruct x. }
    rewrite !elem_of_cons, elem_of_nil in Ho. destruct Ho as [->|[->|[]]]; exact E. }
  unfold number_literal. rewrite Ef. rewrite !elem_of_cons, elem_of_nil in Ho. destruct Ho as [->|[->|[]]]; reflexivity.
Qed.

(** C38: the value of an integer literal, with separators anywhere and digits of
    either case: a hexadecimal or binary literal is the number its digits stand
    for, and is not folded when that exceeds 64 bits; a decimal literal is that
    number, and beyond 64 bits the double nearest to it; an octal literal is the
    number its digits stand for to base eight, but beyond 64 bits it is the
    double nearest to its digits read to base ten; and an octal literal with the
    prefix [0o], which the lexer accepts, has no value at all. *)
Theorem integer_literals text : number_text text = true ->
  (forall radix p l digits, (radix, p) ∈ radix_prefixes -> without_separators text = p ++ l -> l <> [] ->
     mapM (to_digit radix) l = Some digits ->
     literal_constant text = Ret (IrConstant.Int <$> checked_i64 (place_value radix digits))) /\
  (canonical_digits (without_separators text) ->
     exists digits, mapM (to_digit 10) (without_separators text) = Some digits /\
     literal_constant text = Ret (Some (if in_i64 (place_value 10 digits) then IrConstant.Int (place_value 10 digits)
                                        else IrConstant.Float (round_decimal false (place_value 10 digits) 0)))) /\
  (forall l, without_separators text = "0"%byte :: l -> l <> [] -> forallb is_octal l = true ->
     exists octal decimal, mapM (to_digit 8) l = Some octal /\ mapM (to_digit 10) l = Some decimal /\
     literal_constant text = Ret (Some (if in_i64 (place_value 8 octal) then IrConstant.Int (place_value 8 octal)
                                        else IrConstant.Float (round_decimal false (place_value 10 decimal) 0)))) /\
  (forall o l, o ∈ [lit "0o"; lit "0O"] -> without_separators text = o ++ l -> forallb is_octal l = true -> literal_constant text = Ret None).
Proof.
  intros Ht. rewrite (number_text_literal _ Ht). split_and!.
  - intros radix p l digits Hp -> Hl Hd. by apply prefixed_literal.
  - intros Hc. pose proof Hc as (Hdig & Hn & _). destruct (decimal_digits _ Hdig) as (digits & Hd & Hv). exists digits. split; [done|].
    rewrite (plain_literal _ (checked_i64 (place_value 10 digits)) Hdig Hn).
    + unfold checked_i64. destruct (in_i64 _); [done|]. by rewrite Hv.
    + rewrite canonical_not_octal by done. cbv iota. by rewrite parse_digits, Hv.
  - intros l -> Hl Ho. destruct (octal_is_digit l Ho) as (Hdig & octal & Hd). destruct (decimal_digits _ Hdig) as (decimal & Hd' & Hv).
    exists octal, decimal. split_and!; [done..|].
    rewrite (plain_literal _ (checked_i64 (place_value 8 octal))); [|done..|].
    + unfold checked_i64. destruct (in_i64 _); [done|]. by rewrite <- Hv.
    + destruct l as [|x l]; [done|]. cbn [length]. change (starts_with (lit "0") _) with true.
      change (forallb is_octal ("0"%byte :: x :: l)) with (forallb is_octal (x :: l)). rewrite Ho. cbv beta iota.
      rewrite (digits_radix 8 _ (0%N :: octal)); [by cbn [place_value]; rewrite Z.mul_0_l|done|].
      change (mapM (to_digit 8) ("0"%byte :: x :: l)) with (ds ← mapM (to_digit 8) (x :: l); Some (0%N :: ds)). by rewrite Hd.
  - intros o l Ho -> Hl. by apply octal_prefix_unread.
Qed.

Lemma integer_literals_witness :
  literal_constant (lit "0xDead_BEEF") = Ret (Some (IrConstant.Int 3735928559)) /\
  literal_constant (lit "0xFFFF_FFFF_FFFF_FFFF") = Ret None /\
  literal_constant (lit "9_223_372_036_854_775_807") = Ret (Some (IrConstant.Int I64_MAX)) /\
  literal_constant (lit "0777") = Ret (Some (IrConstant.Int 511)) /\
  literal_constant (lit "0o777") = Ret None /\
  literal_constant (lit "01000000000000000000000") = Ret (Some (IrConstant.Float (round_decimal false (10 ^ 21) 0))).
Proof.
  split_and!.
  - apply (proj1 (integer_literals (lit "0xDead_BEEF") eq_refl) 16%N (lit "0x") (lit "DeadBEEF") [13; 14; 10; 13; 11; 14; 14; 15]%N);
      [left|done..].
  - apply (proj1 (integer_literals (lit "0xFFFF_FFFF_FFFF_FFFF") eq_refl) 16%N (lit "0x") (lit "FFFFFFFFFFFFFFFF") (replicate 16 15%N));
      [left|done..].
  - destruct (proj1 (proj2 (integer_literals (lit "9_223_372_036_854_775_807") eq_refl))) as (ds & Hd & E); [by split_and!; vm_compute|].
    rewrite E. vm_compute in Hd. injection Hd as <-. reflexivity.
  - destruct (proj1 (proj2 (proj2 (integer_literals (lit "0777") eq_refl))) (lit "777")) as (o & d & Ho & Hd & E); [done..|].
    rewrite E. vm_compute in Ho, Hd. injection Ho as <-. injection Hd as <-. reflexivity.
  - apply (proj2 (proj2 (proj2 (integer_literals (lit "0o777") eq_refl))) (lit "0o") (lit "777")); [left|done..].
  - destruct (proj1 (proj2 (proj2 (integer_literals (lit "01000000000000000000000") eq_refl))) (lit "1000000000000000000000"))
      as (o & d & Ho & Hd & E); [done..|].
    rewrite E. vm_compute in Ho, Hd. injection Ho as <-. injection Hd as <-. reflexivity.
Defined.
