(* ===== verification/IrDefines.v ===== *)
(** * IrDefines: the constants that the calls of define introduce *)

From Stdlib Require Import Strings.String Strings.Byte ZArith.
From stdpp Require Import base list option numbers gmap fin_maps.
From S2P Require Import Prelude RustStd RustText PhpString LiteralText Names IrConst IrConstClaims.

Lemma omap_length_le {A B} (f : A -> option B) (l : list A) : length (omap f l) <= length l.
Proof. induction l as [|x l IH]; [done|]. cbn. destruct (f x); cbn; lia. Qed.
Lemma set_of_list_size (l : list bytes) : size (list_to_set (C := gset bytes) l) <= length l.
Proof.
  induction l as [|x l IH]; [done|]. cbn [list_to_set length].
  pose proof (size_union_alt (C := gset bytes) {[x]} (list_to_set l)) as H.
  pose proof (subseteq_size (list_to_set l ∖ {[x]}) (list_to_set (C := gset bytes) l) ltac:(set_solver)). rewrite size_singleton in H. lia.
Qed.

Section Defines.
Context (module : HirModule) (rank : nat -> nat) (height depth : nat).
Hypothesis module_acyclic : acyclic module rank height.
Hypothesis deep : height < depth.

Lemma with_names_settled id named : settled (constant_from_expr_with_names module depth id named).
Proof.
  apply (class_constants_settled _ _ _ _ rank height); [done| |split; [constructor|set_solver]].
  unfold enough. pose proof (proj2 module_acyclic id). change (declared_constants ∅) with (@nil (bytes * bytes)). cbn. lia.
Qed.

(** *** Names that are literals *)

Definition literal_name (id : nat) : Prop := exists text, expressions module !! id = Some (HirExprKind.Literal text).
Definition name_text (id : nat) : option bytes :=
  match expressions module !! id with
  | Some (HirExprKind.Literal text) => match literal_constant text with Ret (Some (IrConstant.String name)) => Some name | _ => None end
  | _ => None
  end.

Lemma literal_name_spec id named name : literal_name id ->
  constant_from_expr_with_names module depth id named = Ret (Some (IrConstant.String name)) -> name_text id = Some name.
Proof.
  intros [text Ht] E. unfold constant_from_expr_with_names in E. destruct depth as [|d]; [done|].
  cbn [constant_from_expr_with_class_constants] in E. rewrite Ht in E. cbn [some_or constant_of_kind] in E.
  unfold name_text. by rewrite Ht, E.
Qed.

(** A pass adds names of its calls and removes none. *)
Lemma define_pass_names available calls resolved next :
  Forall (fun p => literal_name (fst p)) calls -> define_pass module depth available calls resolved = Ret next ->
  dom resolved ⊆ dom next /\ dom next ⊆ dom resolved ∪ list_to_set (omap name_text calls.*1).
Proof.
  intros Hl. revert resolved. induction Hl as [|[n v] calls Hn Hl IH]; intros resolved; cbn [define_pass]; [intros [= <-]; set_solver|].
  destruct (constant_from_expr_with_names module depth n available) as [o| |] eqn:En; [|done..]. cbn [obind].
  assert (forall r, define_pass module depth available calls r = Ret next -> dom r ⊆ dom next /\
            dom next ⊆ dom r ∪ list_to_set (omap name_text (n :: calls.*1))) as Hskip.
  { intros r Hr. destruct (IH r Hr) as [H1 H2]. split; [done|]. cbn. destruct (name_text n); set_solver. }
  intros Hp. cbn [fmap list_fmap fst]. destruct o as [[]|]; try (by apply Hskip).
  destruct (constant_from_expr_with_names module depth v available) as [[w|]| |]; cbn [obind] in Hp; try done; [|by apply Hskip].
  pose proof (literal_name_spec n available value Hn En) as Ename. destruct (IH _ Hp) as [H1 H2].
  rewrite dom_insert_L in H1, H2. cbn. rewrite Ename. set_solver.
Qed.

Lemma define_pass_settled available calls resolved : settled (define_pass module depth available calls resolved).
Proof.
  revert resolved. induction calls as [|[n v] calls IH]; intros resolved; [done|]. cbn [define_pass].
  apply settled_obind; [apply with_names_settled|]. intros [[]|] _; try done.
  apply settled_obind; [apply with_names_settled|]. by intros [] _.
Qed.

Lemma define_loop_settled named rounds resolved :
  Forall (fun p => literal_name (fst p)) (definitions module) ->
  dom resolved ⊆ list_to_set (omap name_text (definitions module).*1) ->
  length (definitions module) < rounds + size resolved -> settled (define_loop module depth named rounds resolved).
Proof.
  intros Hl. assert (forall m : gmap bytes IrConstant, dom m ⊆ list_to_set (omap name_text (definitions module).*1) ->
    size m <= length (definitions module)) as Hsize.
  { intros m Hm. rewrite <- (size_dom (D := gset bytes) m). etrans; [by apply subseteq_size|]. etrans; [apply set_of_list_size|].
    etrans; [apply omap_length_le|]. by rewrite length_fmap. }
  revert resolved. induction rounds as [|rounds IH]; intros resolved Hd Hr; [specialize (Hsize _ Hd); lia|].
  cbn [define_loop]. apply settled_obind; [apply define_pass_settled|]. intros next Hn.
  apply define_pass_names in Hn as [H1 H2]; [|done]. destruct (Nat.eqb_spec (size next) (size resolved)) as [|Hne]; [done|].
  apply IH; [set_solver|]. assert (size resolved <= size next).
  { rewrite <- (size_dom (D := gset bytes) next), <- (size_dom (D := gset bytes) resolved). by apply subseteq_size. }
  lia.
Qed.
End Defines.

(** ** A name that grows *)

(** [define('X', 'a'); define('X', X . 'a'); define(X, 1);] *)
Definition growing_name (text : string) : HirExprKind.t :=
  HirExprKind.Name (mk_resolution (lit text) (lit "constant") (lit "unqualified") (Some (lit text)) (Some (lit text)) None).
Definition growing_call (name value : nat) : HirExprKind.t := HirExprKind.Call (Some 0) [mk_arg None name false; mk_arg None value false].
Definition growing_module : HirModule := mk_module
  [growing_name "define"; HirExprKind.Literal (lit "'X'"); HirExprKind.Literal (lit "'a'"); growing_call 1 2;
   growing_name "X"; HirExprKind.Binary (lit ".") (Some 4) (Some 2); growing_call 1 5;
   HirExprKind.Literal (lit "1"); growing_call 4 7] [] [].

Definition X : bytes := lit "X".
Definition a_text (n : nat) : bytes := replicate n "a"%byte.
Lemma a_text_X n : a_text n <> X.
Proof. destruct n as [|[]]; done. Qed.
Lemma a_text_inj n m : a_text n = a_text m -> n = m.
Proof. intros E%(f_equal length). unfold a_text in E. by rewrite !length_replicate in E. Qed.

(** The values of the expressions. *)
Lemma growing_values depth available : 2 <= depth ->
  constant_from_expr_with_names growing_module depth 1 available = Ret (Some (IrConstant.String X)) /\
  constant_from_expr_with_names growing_module depth 2 available = Ret (Some (IrConstant.String (a_text 1))) /\
  constant_from_expr_with_names growing_module depth 4 available = Ret (available !! X) /\
  constant_from_expr_with_names growing_module depth 5 available =
    Ret (c ← available !! X; binary_ir_constant (lit ".") c (IrConstant.String (a_text 1))) /\
  constant_from_expr_with_names growing_module depth 7 available = Ret (Some (IrConstant.Int 1)).
Proof.
  intros Hd. destruct depth as [|[|depth]]; [lia..|]. unfold constant_from_expr_with_names.
  assert (forall d, constant_from_expr_with_class_constants growing_module available ∅ ∅ (S d) 4 None [] = Ret (available !! X)) as H4.
  { intros d. change (constant_from_expr_with_class_constants growing_module available ∅ ∅ (S d) 4 None [])
      with (Ret (named_constant_value available (mk_resolution X (lit "constant") (lit "unqualified") (Some X) (Some X) None))).
    unfold named_constant_value. change (constant_candidates _) with [X; X]. cbn [find_map]. by destruct (available !! X). }
  split_and!; [reflexivity..|apply H4| |reflexivity].
  change (constant_from_expr_with_class_constants growing_module available ∅ ∅ (S (S depth)) 5 None []) with
    (sbind (constant_from_expr_with_class_constants growing_module available ∅ ∅ (S depth) 4 None []) (fun lhs =>
      Ret (binary_ir_constant (lit ".") lhs (IrConstant.String (a_text 1))))).
  rewrite H4. unfold sbind. cbn [obind]. destruct (available !! X); reflexivity.
Qed.

(** One pass from the state after [n + 1] of them. *)
Lemma growing_pass depth available resolved n : 2 <= depth -> available !! X = Some (IrConstant.String (a_text n)) ->
  define_pass growing_module depth available (definitions growing_module) resolved =
  Ret (<[a_text n := IrConstant.Int 1]> (<[X := IrConstant.String (a_text (S n))]> resolved)).
Proof.
  intros Hd HX. destruct (growing_values depth available Hd) as (E1 & E2 & E4 & E5 & E7).
  change (definitions growing_module) with [(1, 2); (1, 5); (4, 7)]. cbn [define_pass].
  rewrite E1, E2, E4, E5, E7, HX. cbn [obind mbind option_bind].
  change (binary_ir_constant (lit ".") (IrConstant.String (a_text n)) (IrConstant.String (a_text 1)))
    with (Some (IrConstant.String (a_text n ++ a_text 1))). cbn [obind].
  assert (a_text n ++ a_text 1 = a_text (S n)) as -> by (unfold a_text; rewrite <- replicate_add; f_equal; lia).
  by rewrite insert_insert_eq.
Qed.

Lemma growing_loop depth named n resolved rounds : 2 <= depth ->
  resolved !! X = Some (IrConstant.String (a_text n)) -> (forall m, n <= m -> resolved !! a_text m = None) ->
  define_loop growing_module depth named rounds resolved = Timeout.
Proof.
  intros Hd. revert n resolved. induction rounds as [|rounds IH]; intros n resolved HX Hnew; [done|]. cbn [define_loop].
  rewrite (growing_pass depth _ resolved n Hd) by (by apply lookup_union_Some_l). cbn [obind].
  rewrite map_size_insert_None by (rewrite lookup_insert_ne by (intros E; by apply (a_text_X n)); by apply Hnew).
  rewrite map_size_insert, HX. cbv beta iota delta [id]. destruct (Nat.eqb_spec (S (size resolved)) (size resolved)); [lia|].
  apply (IH (S n)).
  - rewrite lookup_insert_ne by (apply a_text_X). apply lookup_insert_eq.
  - intros m Hm. rewrite !lookup_insert_ne; [apply Hnew; lia|intros E; by apply (a_text_X m)|]. intros E%a_text_inj. lia.
Qed.

Lemma growing_hangs depth named rounds : 2 <= depth -> named !! X = None ->
  define_constant_initializers_from_hir growing_module depth named rounds = Timeout.
Proof.
  intros Hd Hn. unfold define_constant_initializers_from_hir. destruct rounds as [|rounds]; [done|]. cbn [define_loop].
  rewrite map_empty_union. destruct (growing_values depth named Hd) as (E1 & E2 & E4 & E5 & _).
  change (definitions growing_module) with [(1, 2); (1, 5); (4, 7)]. cbn [define_pass].
  rewrite E1, E2, E4, E5, Hn. cbn [obind mbind option_bind]. change (size _ =? size _)%nat with false. cbv iota.
  apply (growing_loop _ _ 1); [done|apply lookup_insert_eq|]. intros m _. rewrite lookup_insert_ne by (intros E; by apply (a_text_X m)). done.
Qed.

(** ** The claim *)

(** C39: the constants that calls of [define] introduce are collected in passes
    until no name is added.  When the names are literals this ends: one pass more
    than there are calls is enough.  A name may also be a constant, and then it
    may not end: on [define('X', 'a'); define('X', X . 'a'); define(X, 1);] every
    pass defines one name more, whatever other constants there are, so
    compilation hangs. *)
Theorem define_passes module rank height depth named rounds :
  acyclic module rank height -> height < depth -> length (definitions module) < rounds ->
  Forall (fun p => literal_name module (fst p)) (definitions module) ->
  settled (define_constant_initializers_from_hir module depth named rounds) /\
  forall depth named rounds, 2 <= depth -> named !! X = None ->
    define_constant_initializers_from_hir growing_module depth named rounds = Timeout.
Proof.
  intros Hac Hd Hr Hl. split; [|exact growing_hangs].
  apply (define_loop_settled _ rank height); [done..|set_solver|]. rewrite map_size_empty. lia.
Qed.

(** The later definition of a name counts; the language keeps the first. *)
Definition twice_module : HirModule := mk_module
  [growing_name "define"; HirExprKind.Literal (lit "'X'"); HirExprKind.Literal (lit "1"); growing_call 1 2;
   HirExprKind.Literal (lit "2"); growing_call 1 4] [] [].
Lemma define_passes_witness :
  settled (define_constant_initializers_from_hir twice_module 1 ∅ 3) /\
  define_constant_initializers_from_hir growing_module 100 ∅ 1000 = Timeout.
Proof.
  assert (acyclic twice_module (fun _ => 0) 0) as Hac.
  { split; [|intros; lia]. intros i kind e Hi Hin. do 6 (destruct i as [|i]; [cbn in Hi; injection Hi as <-; cbn in Hin; by apply elem_of_nil in Hin|]).
    by destruct i. }
  destruct (define_passes twice_module (fun _ => 0) 0 1 ∅ 3 Hac) as [H1 H2]; [lia|vm_compute; lia| |].
  - repeat constructor; eexists; reflexivity.
  - split; [exact H1|]. apply H2; [lia|reflexivity].
Defined.
Example define_last : 
  (olet m := define_constant_initializers_from_hir twice_module 1 ∅ 3 in Ret (m !! X)) = Ret (Some (IrConstant.Int 2)).
Proof. vm_compute. reflexivity. Qed.
