(* ===== verification/Objects.v ===== *)
(** * Objects: class layouts and property storage

    [php_runtime/src/object]: the layout of the declared properties of a class,
    shared through a cache and numbered by an interner, the storage of an object
    with its declared slots and dynamic properties, the numbers of objects, and
    the native representation of the properties that generated code works on.

    An object reference is the address of its cell in a [Heap]; the number that a
    script sees is a field of the cell.  Of the class metadata the fields that
    this code reads are kept.  Borrow errors of a [RefCell] arise only from
    re-entrant calls and are left out, as are the counters of [layout_stats] and
    the pointer of a native cell to the order clock of its object.  An abort of
    the process is a [Panic]. *)

From Stdlib Require Import Strings.String Strings.Byte ZArith.
From stdpp Require Import base list option numbers gmap fin_maps sorting.
From S2P Require Import Prelude RustStd RustNum RustText Simd PhpString PhpArray Convert Names IrConst.

(** [text.split_once(x)] of one ASCII character *)
Definition split_once (x : byte) (l : bytes) : option (bytes * bytes) :=
  (fun i => (take i l, drop (S i) l)) <$> position (Byte.eqb x) l.

Definition NUL : byte := x00.
Definition DQUOTE : byte := x22.

(** ** Class metadata *)

Module Obj.
Inductive ClassEnumBackingType := BackedInt | BackedString.

Record ClassPropertyFlags := mk_property_flags {
  is_static : bool; is_private : bool; is_protected : bool; set_is_private : bool; set_is_protected : bool;
  is_readonly : bool; is_typed : bool }.
Record ClassPropertyHooks := mk_property_hooks { get_function_id : option N; set_function_id : option N; backed : bool }.
Record ClassFlags := mk_class_flags {
  has_complete_method_table : bool; implements_countable : bool; implements_traversable : bool;
  allows_dynamic_properties : bool; is_abstract : bool; is_final : bool; is_readonly_class : bool;
  is_interface : bool; is_enum : bool }.
Definition no_flags : ClassFlags := mk_class_flags false false false false false false false false false.

(** [display_class_name] *)
Definition display_class_name (name : bytes) : bytes :=
  let name := trim_start_matches backslash name in
  if eq_ignore_ascii_case name (lit "stdclass") then lit "stdClass" else name.

Section Objects.
Context {C : Type}.

Record ClassPropertyEntry := mk_property_entry {
  property_name : bytes; property_default : Value C; property_flags : ClassPropertyFlags; property_hooks : ClassPropertyHooks }.
Record ClassEntry := mk_class_entry {
  entry_name : bytes; interfaces : list bytes; method_names : list bytes; properties : list ClassPropertyEntry;
  entry_backing_type : option ClassEnumBackingType; class_flags : ClassFlags }.

(** ** Layouts *)

Record PropertyLayout := mk_layout {
  layout_id : N; slot_names : list bytes; slot_by_name : gmap bytes nat; public_slot_names : gset bytes;
  array_cast_names : list bytes; debug_labels : gmap bytes bytes }.
(** [PropertyLayoutIdentity]: class name, slot names, cast names, sorted labels. *)
Definition PropertyLayoutIdentity : Type := bytes * list bytes * list bytes * list (bytes * bytes).

Record Layouts := mk_layouts {
  layout_cache : gmap bytes (list PropertyLayout); identities : gmap PropertyLayoutIdentity N; next_layout_id : N }.

Definition U64 : N := 2 ^ 64.

Definition intern_layout_id (identity : PropertyLayoutIdentity) (st : Layouts) : outcome (N * Layouts) :=
  match identities st !! identity with
  | Some id => Ret (id, st)
  | None =>
      let id := next_layout_id st in
      if (id =? 0)%N then Panic
      else Ret (id, mk_layouts (layout_cache st) (<[identity := id]> (identities st)) ((id + 1) mod U64))
  end.

Definition is_backed_instance_property (p : ClassPropertyEntry) : bool :=
  negb (is_static (property_flags p)) &&
  negb ((bool_decide (is_Some (get_function_id (property_hooks p))) || bool_decide (is_Some (set_function_id (property_hooks p))))
        && negb (backed (property_hooks p))).

(** The owner and the name of a private property of an ancestor. *)
Definition private_parts (storage_name : bytes) : option (bytes * bytes) :=
  strip_prefix (lit "private:") storage_name ≫= split_once ":"%byte.

(** [property_debug_label] of [debug.rs] *)
Definition quoted (l : bytes) : bytes := DQUOTE :: l ++ [DQUOTE].
Definition property_debug_label (p : ClassPropertyEntry) (display_class : bytes) : bytes :=
  if is_private (property_flags p) then
    match private_parts (property_name p) with
    | Some (owner, name) => quoted name ++ lit ":" ++ quoted owner ++ lit ":private"
    | None => quoted (property_name p) ++ lit ":" ++ quoted display_class ++ lit ":private"
    end
  else if is_protected (property_flags p) then quoted (property_name p) ++ lit ":protected"
  else quoted (property_name p).

(** The key of a property in an array made of the object. *)
Definition cast_name (class : ClassEntry) (display_name : bytes) (p : ClassPropertyEntry) : bytes :=
  if is_private (property_flags p) then
    match private_parts (property_name p) with
    | None => NUL :: display_name ++ NUL :: property_name p
    | Some (owner, name) =>
        NUL :: (if eq_ignore_ascii_case owner (entry_name class) then display_name else owner) ++ NUL :: name
    end
  else if is_protected (property_flags p) then NUL :: "*"%byte :: NUL :: property_name p
  else property_name p.

Fixpoint collect_slots (class : ClassEntry) (display_name : bytes) (l : list ClassPropertyEntry) (slots casts : list bytes) :
    list bytes * list bytes :=
  match l with
  | [] => (slots, casts)
  | p :: l =>
      if is_backed_instance_property p && negb (existsb (bytes_eqb (property_name p)) slots)
      then collect_slots class display_name l (slots ++ [property_name p]) (casts ++ [cast_name class display_name p])
      else collect_slots class display_name l slots casts
  end.

Definition pair_le (p q : bytes * bytes) : Prop :=
  match bytes_cmp p.1 q.1 with Lt => True | Gt => False | Eq => match bytes_cmp p.2 q.2 with Gt => False | _ => True end end.
#[global] Instance pair_le_dec : RelDecision pair_le.
Proof. intros p q. unfold pair_le. repeat case_match; apply _. Defined.

Definition slot_index (slots : list bytes) : gmap bytes nat := list_to_map (reverse (zip slots (seq 0 (length slots)))).
Definition class_labels (class : ClassEntry) (display_name : bytes) : gmap bytes bytes :=
  fold_left (fun m p => <[property_name p := property_debug_label p display_name]> m) (properties class) ∅.
Definition public_names (class : ClassEntry) : gset bytes :=
  list_to_set (property_name <$> List.filter (fun p =>
    is_backed_instance_property p && negb (is_private (property_flags p)) && negb (is_protected (property_flags p))) (properties class)).

Definition class_layout (class : ClassEntry) (display_name : bytes) (st : Layouts) : outcome (PropertyLayout * Layouts) :=
  let '(slots, casts) := collect_slots class display_name (properties class) [] [] in
  let labels := class_labels class display_name in
  let public := public_names class in
  let candidates := default [] (layout_cache st !! entry_name class) in
  let st := mk_layouts (<[entry_name class := candidates]> (layout_cache st)) (identities st) (next_layout_id st) in
  match List.find (fun layout =>
          bool_decide (slot_names layout = slots) && bool_decide (array_cast_names layout = casts)
          && bool_decide (public_slot_names layout = public) && bool_decide (debug_labels layout = labels)) candidates with
  | Some existing => Ret (existing, st)
  | None =>
      olet (id, st) := intern_layout_id (entry_name class, slots, casts, merge_sort pair_le (map_to_list labels)) st in
      let layout := mk_layout id slots (slot_index slots) public casts labels in
      Ret (layout, mk_layouts (<[entry_name class := candidates ++ [layout]]> (layout_cache st)) (identities st) (next_layout_id st))
  end.

Definition build_declared_slots (class : ClassEntry) (layout : PropertyLayout) : outcome (list (option (Value C))) :=
  (fix go (l : list ClassPropertyEntry) (slots : list (option (Value C))) : outcome (list (option (Value C))) :=
     match l with
     | [] => Ret slots
     | p :: l =>
         if negb (is_backed_instance_property p) then go l slots
         else match slot_by_name layout !! property_name p with
              | Some slot => if (slot <? length slots)%nat then go l (<[slot := Some (property_default p)]> slots) else Panic
              | None => go l slots
              end
     end) (properties class) (replicate (length (slot_names layout)) None).
(** ** Storage *)

Record NativeDeclaredPropertySlot := mk_native_slot { initialized : N; reserved : N; native_value : Z }.
Definition empty_native_slot : NativeDeclaredPropertySlot := mk_native_slot 0 0 0.
Definition active_slot (s : NativeDeclaredPropertySlot) : bool := negb (initialized s =? 0)%N.
Record NativeDynamicPropertyCell := mk_native_cell { cell_slot : NativeDeclaredPropertySlot; insertion_order : N }.
Definition active (c : NativeDynamicPropertyCell) : bool := active_slot (cell_slot c).
Abbreviation NativeDynamicPropertySlots := (gmap bytes NativeDynamicPropertyCell).

Record ObjectStorage := mk_storage {
  class_name : bytes; display_name : bytes; storage_is_enum : bool; enum_backing_type : option ClassEnumBackingType;
  native_magic_isset : option bool; native_countable : bool; native_traversable : bool;
  native_allows_dynamic_properties : bool; id_guard : option N; layout : PropertyLayout;
  declared_slots : list (option (Value C)); native_declared_slots : option (list NativeDeclaredPropertySlot);
  dynamic_properties : gmap bytes (Value C); native_dynamic_properties : option NativeDynamicPropertySlots;
  native_dynamic_next_order : option N; dynamic_order : list bytes; dynamic_debug_labels : gmap bytes bytes }.

Definition with_rust (s : ObjectStorage) slots dynamic order : ObjectStorage :=
  mk_storage (class_name s) (display_name s) (storage_is_enum s) (enum_backing_type s) (native_magic_isset s)
    (native_countable s) (native_traversable s) (native_allows_dynamic_properties s) (id_guard s) (layout s)
    slots (native_declared_slots s) dynamic (native_dynamic_properties s) (native_dynamic_next_order s) order
    (dynamic_debug_labels s).
Definition with_native (s : ObjectStorage) slots dynamic next order labels : ObjectStorage :=
  mk_storage (class_name s) (display_name s) (storage_is_enum s) (enum_backing_type s) (native_magic_isset s)
    (native_countable s) (native_traversable s) (native_allows_dynamic_properties s) (id_guard s) (layout s)
    (declared_slots s) slots (dynamic_properties s) dynamic next order labels.

Definition slot_of (s : ObjectStorage) (name : bytes) : option nat := slot_by_name (layout s) !! name.
Definition slot_at {A} (l : list A) (i : nat) : outcome A := match l !! i with Some x => Ret x | None => Panic end.
Definition slot_put {A} (l : list A) (i : nat) (x : A) : outcome (list A) :=
  if (i <? length l)%nat then Ret (<[i := x]> l) else Panic.

Definition get (s : ObjectStorage) (name : bytes) : outcome (option (Value C)) :=
  match slot_of s name with
  | Some slot => slot_at (declared_slots s) slot
  | None => if bool_decide (dynamic_properties s = ∅) then Ret None else Ret (dynamic_properties s !! name)
  end.

Definition set (s : ObjectStorage) (name : bytes) (value : Value C) : outcome ObjectStorage :=
  match slot_of s name with
  | Some slot =>
      olet slots := slot_put (declared_slots s) slot (Some value) in
      Ret (with_rust s slots (dynamic_properties s) (dynamic_order s))
  | None =>
      let order := match dynamic_properties s !! name with Some _ => dynamic_order s | None => dynamic_order s ++ [name] end in
      Ret (with_rust s (declared_slots s) (<[name := value]> (dynamic_properties s)) order)
  end.

(** [get_mut], given what is done with the value that is found. *)
Definition get_mut (s : ObjectStorage) (name : bytes) (f : Value C -> Value C) : outcome (option ObjectStorage) :=
  match slot_of s name with
  | Some slot =>
      olet v := slot_at (declared_slots s) slot in
      match v with
      | None => Ret None
      | Some v =>
          olet slots := slot_put (declared_slots s) slot (Some (f v)) in
          Ret (Some (with_rust s slots (dynamic_properties s) (dynamic_order s)))
      end
  | None =>
      if bool_decide (dynamic_properties s = ∅) then Ret None
      else match dynamic_properties s !! name with
           | None => Ret None
           | Some v => Ret (Some (with_rust s (declared_slots s) (<[name := f v]> (dynamic_properties s)) (dynamic_order s)))
           end
  end.

(** [order.retain(|entry| entry != name)] *)
Definition without (name : bytes) (l : list bytes) : list bytes := List.filter (fun entry => negb (bytes_eqb entry name)) l.

Definition unset (s : ObjectStorage) (name : bytes) : outcome (bool * ObjectStorage) :=
  match slot_of s name with
  | Some slot =>
      olet v := slot_at (declared_slots s) slot in
      match v with
      | None => Ret (false, s)
      | Some _ =>
          olet slots := slot_put (declared_slots s) slot None in
          Ret (true, with_rust s slots (dynamic_properties s) (dynamic_order s))
      end
  | None =>
      match dynamic_properties s !! name with
      | None => Ret (false, s)
      | Some _ =>
          Ret (true, with_rust s (declared_slots s) (delete name (dynamic_properties s))
                       (without name (dynamic_order s)))
      end
  end.

Definition named_slot (p : bytes * option (Value C)) : option (bytes * Value C) := (fun v => (p.1, v)) <$> p.2.
Definition is_initialized (p : bytes * option (Value C)) : bool := match p.2 with Some Uninitialized => false | _ => true end.
Definition dynamic_snapshot (s : ObjectStorage) : list (bytes * Value C) :=
  omap (fun name => (fun v => (name, v)) <$> dynamic_properties s !! name) (dynamic_order s).
Definition snapshot (s : ObjectStorage) : list (bytes * Value C) :=
  omap named_slot (zip (slot_names (layout s)) (declared_slots s)) ++ dynamic_snapshot s.
Definition array_cast_snapshot (s : ObjectStorage) : list (bytes * Value C) :=
  omap named_slot (List.filter is_initialized (zip (array_cast_names (layout s)) (declared_slots s))) ++ dynamic_snapshot s.

(** [ObjectRef::property_debug_label] *)
Definition debug_label (s : ObjectStorage) (name : bytes) : bytes :=
  match debug_labels (layout s) !! name with
  | Some label => label
  | None => default (quoted name) (dynamic_debug_labels s !! name)
  end.

(** [ObjectRef::gc_clear_properties] *)
Definition gc_clear_properties (s : ObjectStorage) : outcome ObjectStorage :=
  if bool_decide (native_dynamic_properties s = None)
  then Ret (with_rust s ((fun _ => None) <$> declared_slots s) ∅ [])
  else Panic.

(** ** The native representation *)

Definition no_native (s : ObjectStorage) : bool :=
  bool_decide (native_declared_slots s = None) && bool_decide (native_dynamic_properties s = None)
  && bool_decide (native_dynamic_next_order s = None).
Definition no_rust (s : ObjectStorage) : bool :=
  (length (declared_slots s) =? 0)%nat && bool_decide (dynamic_properties s = ∅).

(** [take_property_slots_for_native] *)
Definition take_property_slots_for_native (s : ObjectStorage) (id : N) :
    option (list (option (Value C)) * gmap bytes (Value C)) * ObjectStorage :=
  if negb (layout_id (layout s) =? id)%N || negb (no_native s) then (None, s)
  else (Some (declared_slots s, dynamic_properties s), with_rust s [] ∅ (dynamic_order s)).

(** The orders given to the active cells when they are installed. *)
Fixpoint number_cells (order : N) (names : list bytes) (dynamic : NativeDynamicPropertySlots) : NativeDynamicPropertySlots :=
  match names with
  | [] => dynamic
  | name :: names =>
      number_cells (order + 1) names
        match dynamic !! name with
        | Some cell => if active cell then <[name := mk_native_cell (cell_slot cell) order]> dynamic else dynamic
        | None => dynamic
        end
  end.
Definition saturating_succ (n : N) : N := if (n =? U64 - 1)%N then n else (n + 1)%N.
Definition active_cells (dynamic : NativeDynamicPropertySlots) : list (bytes * NativeDynamicPropertyCell) :=
  List.filter (fun p => active p.2) (map_to_list dynamic).
Definition next_order (dynamic : NativeDynamicPropertySlots) : N :=
  match active_cells dynamic with
  | [] => 0
  | p :: l => saturating_succ (fold_left (fun m q => N.max m (insertion_order q.2)) l (insertion_order p.2))
  end.

Definition install_native_property_slots (s : ObjectStorage) (id : N) (declared : list NativeDeclaredPropertySlot)
    (dynamic : NativeDynamicPropertySlots) : bool * ObjectStorage :=
  if negb (layout_id (layout s) =? id)%N || negb (no_native s) || negb (no_rust s)
     || negb (length declared =? length (slot_names (layout s)))%nat
     || existsb (fun p => active p.2 && negb (existsb (bytes_eqb p.1) (dynamic_order s))) (map_to_list dynamic)
  then (false, s)
  else
    let dynamic := number_cells 0 (dynamic_order s) dynamic in
    (true, with_native s (Some declared) (Some dynamic) (Some (next_order dynamic)) (dynamic_order s) (dynamic_debug_labels s)).
Definition install_native_declared_slots (s : ObjectStorage) (id : N) (slots : list NativeDeclaredPropertySlot) : bool * ObjectStorage :=
  install_native_property_slots s id slots ∅.

(** The guard of the operations on native dynamic properties. *)
Definition native_dynamic_ready (s : ObjectStorage) (id : N) : bool :=
  (layout_id (layout s) =? id)%N && bool_decide (is_Some (native_declared_slots s)) && no_rust s.

Definition native_dynamic_property_slot (s : ObjectStorage) (id : N) (name : bytes) : option (option NativeDeclaredPropertySlot) :=
  if negb (native_dynamic_ready s id) then None
  else
    dynamic ← native_dynamic_properties s;
    Some (cell ← dynamic !! name; if active cell then Some (cell_slot cell) else None).

(** [ensure_native_dynamic_property_slot_location]; the location is the name. *)
Definition ensure_native_dynamic_property_slot (s : ObjectStorage) (id : N) (name : bytes) : bool * ObjectStorage :=
  if negb (native_dynamic_ready s id) || bool_decide (is_Some (slot_of s name)) then (false, s)
  else
    match native_dynamic_next_order s, native_dynamic_properties s with
    | Some next, Some dynamic =>
        let dynamic := match dynamic !! name with Some _ => dynamic | None => <[name := mk_native_cell empty_native_slot 0]> dynamic end in
        (true, with_native s (native_declared_slots s) (Some dynamic) (Some next) (dynamic_order s) (dynamic_debug_labels s))
    | _, _ => (false, s)
    end.

(** The result is [None] on rejection, else what was replaced. *)
Definition set_native_dynamic_property (s : ObjectStorage) (id : N) (name : bytes) (value : NativeDeclaredPropertySlot) :
    outcome (option (option NativeDeclaredPropertySlot) * ObjectStorage) :=
  if negb (native_dynamic_ready s id) || bool_decide (is_Some (slot_of s name)) then Ret (None, s)
  else
    match native_dynamic_next_order s with
    | None => Ret (None, s)
    | Some clock =>
        match native_dynamic_properties s with
        | None => Panic
        | Some dynamic =>
            let found := dynamic !! name in
            let cell := default (mk_native_cell empty_native_slot 0) found in
            let is_active := match found with Some cell => active cell | None => false end in
            let order := if is_active then insertion_order cell else clock in
            let clock := if is_active then clock else saturating_succ clock in
            let names := if is_active then dynamic_order s else without name (dynamic_order s) ++ [name] in
            Ret (Some (if active cell then Some (cell_slot cell) else None),
                 with_native s (native_declared_slots s) (Some (<[name := mk_native_cell value order]> dynamic)) (Some clock)
                   names (dynamic_debug_labels s))
        end
    end.

Definition unset_native_dynamic_property (s : ObjectStorage) (id : N) (name : bytes) :
    option (option NativeDeclaredPropertySlot) * ObjectStorage :=
  if negb (native_dynamic_ready s id) || bool_decide (is_Some (slot_of s name)) then (None, s)
  else
    match native_dynamic_properties s with
    | None => (None, s)
    | Some dynamic =>
        match dynamic !! name with
        | Some cell =>
            if active cell then
              (Some (Some (cell_slot cell)),
               with_native s (native_declared_slots s)
                 (Some (<[name := mk_native_cell empty_native_slot (insertion_order cell)]> dynamic)) (native_dynamic_next_order s)
                 (without name (dynamic_order s)) (delete name (dynamic_debug_labels s)))
            else (Some None, s)
        | None => (Some None, s)
        end
    end.

(** The active names by insertion order: a stable sort of the map. *)
Definition order_le (p q : bytes * NativeDynamicPropertyCell) : Prop := (insertion_order p.2 <= insertion_order q.2)%N.
#[global] Instance order_le_dec : RelDecision order_le.
Proof. intros p q. unfold order_le. apply _. Defined.
Definition native_order (dynamic : NativeDynamicPropertySlots) : list bytes := fst <$> merge_sort order_le (active_cells dynamic).

Definition take_native_property_slots (s : ObjectStorage) (id : N) :
    option (list NativeDeclaredPropertySlot * NativeDynamicPropertySlots) * ObjectStorage :=
  if negb (layout_id (layout s) =? id)%N || negb (no_rust s) then (None, s)
  else
    match native_declared_slots s, native_dynamic_properties s, native_dynamic_next_order s with
    | Some slots, Some dynamic, Some _ =>
        (Some (slots, dynamic), with_native s None None None (native_order dynamic) (dynamic_debug_labels s))
    | _, _, _ => (None, s)
    end.

Definition restore_property_slots_from_native (s : ObjectStorage) (id : N) (declared : list (option (Value C)))
    (dynamic : gmap bytes (Value C)) : bool * ObjectStorage :=
  if negb (layout_id (layout s) =? id)%N || negb (no_native s) || negb (no_rust s)
     || negb (length declared =? length (slot_names (layout s)))%nat
  then (false, s)
  else (true, with_rust s declared dynamic (dynamic_order s)).

(** ** Promotion and demotion

    [promote_direct_object_property_slots] and
    [demote_direct_object_property_slots] of the virtual machine, without the
    descriptor of the object and the reference counts of the encoded values.  The
    codec of values is a parameter; [None] is its error. *)
Section Codec.
Context (encode_baseline_value : Value C -> option Z) (decode_baseline_value : Z -> option (Value C)).

Inductive transition := Moved | Unchanged | Failed.

Definition encode_slot (v : option (Value C)) : option NativeDeclaredPropertySlot :=
  match v with
  | Some v => (fun z => mk_native_slot 1 0 z) <$> encode_baseline_value v
  | None => Some empty_native_slot
  end.
Definition encode_entry (p : bytes * Value C) : option (bytes * NativeDynamicPropertyCell) :=
  (fun z => (p.1, mk_native_cell (mk_native_slot 1 0 z) 0)) <$> encode_baseline_value p.2.
Definition promote (s : ObjectStorage) : transition * ObjectStorage :=
  let id := layout_id (layout s) in
  if bool_decide (is_Some (native_declared_slots s)) then (Moved, s)
  else
    match take_property_slots_for_native s id with
    | (None, s) => (Unchanged, s)
    | (Some (slots, dynamic), s) =>
        match mapM encode_slot slots, mapM encode_entry (map_to_list dynamic) with
        | Some native_slots, Some native_dynamic =>
            match install_native_property_slots s id native_slots (list_to_map native_dynamic) with
            | (true, s) => (Moved, s)
            | (false, s) => (Unchanged, snd (restore_property_slots_from_native s id slots dynamic))
            end
        | _, _ => (Failed, snd (restore_property_slots_from_native s id slots dynamic))
        end
    end.

Definition decode_slot (slot : NativeDeclaredPropertySlot) : option (option (Value C)) :=
  if active_slot slot then Some <$> decode_baseline_value (native_value slot) else Some None.
Definition decode_entry (p : bytes * NativeDynamicPropertyCell) : option (bytes * Value C) :=
  (fun v => (p.1, v)) <$> decode_baseline_value (native_value (cell_slot p.2)).
Definition demote (s : ObjectStorage) (id : N) : transition * ObjectStorage :=
  match take_native_property_slots s id with
  | (None, s) => (Failed, s)
  | (Some (slots, dynamic), s) =>
      match mapM decode_slot slots, mapM decode_entry (active_cells dynamic) with
      | Some rust_slots, Some rust_dynamic =>
          match restore_property_slots_from_native s id rust_slots (list_to_map rust_dynamic) with
          | (true, s) => (Moved, s)
          | (false, s) => (Failed, snd (install_native_property_slots s id slots dynamic))
          end
      | _, _ => (Failed, snd (install_native_property_slots s id slots dynamic))
      end
  end.
End Codec.

(** ** Objects and their numbers *)

Record ObjectCell := mk_cell { cell_id : N; storage : ObjectStorage }.
Record Heap := mk_heap {
  layouts : Layouts; next_object_id : N; free_object_ids : list N; object_cells : gmap N ObjectCell; next_address : N }.

(** [next_object_id]: the number freed last, or a new one. *)
Definition take_object_id (h : Heap) : outcome (N * Heap) :=
  match rev (free_object_ids h) with
  | id :: rest => Ret (id, mk_heap (layouts h) (next_object_id h) (rev rest) (object_cells h) (next_address h))
  | [] =>
      let id := next_object_id h in
      if (id + 1 <? U64)%N then Ret (id, mk_heap (layouts h) (id + 1) [] (object_cells h) (next_address h)) else Panic
  end.
(** [ObjectIdGuard::drop] *)
Definition drop_guard (guard : option N) (h : Heap) : Heap :=
  match guard with
  | Some id => mk_heap (layouts h) (next_object_id h) (free_object_ids h ++ [id]) (object_cells h) (next_address h)
  | None => h
  end.
(** A new cell. *)
Definition allocate (cell : ObjectCell) (h : Heap) : N * Heap :=
  (next_address h,
   mk_heap (layouts h) (next_object_id h) (free_object_ids h) (<[next_address h := cell]> (object_cells h)) (next_address h + 1)).
Definition put_cell (address : N) (cell : ObjectCell) (h : Heap) : Heap :=
  mk_heap (layouts h) (next_object_id h) (free_object_ids h) (<[address := cell]> (object_cells h)) (next_address h).
Definition cell_at (h : Heap) (address : N) : outcome ObjectCell :=
  match object_cells h !! address with Some cell => Ret cell | None => Panic end.
Definition with_layouts (h : Heap) (l : Layouts) : Heap :=
  mk_heap l (next_object_id h) (free_object_ids h) (object_cells h) (next_address h).

(** [assemble_with_slots] *)
Definition assemble_with_slots (class : ClassEntry) (display : bytes) (l : PropertyLayout) (slots : list (option (Value C)))
    (native : option (list NativeDeclaredPropertySlot)) (h : Heap) : outcome (N * Heap) :=
  olet (id, h) := take_object_id h in
  let has names text := existsb (fun name => eq_ignore_ascii_case name (lit text)) names in
  Ret (allocate (mk_cell id (mk_storage (entry_name class) display (is_enum (class_flags class)) (entry_backing_type class)
    (if has (method_names class) "__isset"%string then Some true
     else if has_complete_method_table (class_flags class) then Some false else None)
    (implements_countable (class_flags class) || has (interfaces class) "countable"%string)
    (implements_traversable (class_flags class) || has (interfaces class) "traversable"%string
     || has (interfaces class) "iterator"%string || has (interfaces class) "iteratoraggregate"%string)
    (allows_dynamic_properties (class_flags class) || eq_ignore_ascii_case (entry_name class) (lit "stdClass"))
    (Some id) l slots native ∅ ((fun _ => ∅) <$> native) ((fun _ => 0%N) <$> native) [] ∅)) h).

(** [ObjectRef::new_with_display_name] *)
Definition new_with_display_name (class : ClassEntry) (display : bytes) (h : Heap) : outcome (N * Heap) :=
  olet (l, ls) := class_layout class display (layouts h) in
  olet slots := build_declared_slots class l in
  assemble_with_slots class display l slots None (with_layouts h ls).
Definition new (class : ClassEntry) (h : Heap) : outcome (N * Heap) := new_with_display_name class (entry_name class) h.

(** [ObjectRef::from_layout_slots]; the assertion is one of debug builds. *)
Definition from_layout_slots (class : ClassEntry) (display : bytes) (slots : list (option (Value C))) (h : Heap) : outcome (N * Heap) :=
  olet (l, ls) := class_layout class display (layouts h) in
  if (length slots =? length (slot_names l))%nat
  then assemble_with_slots class display l slots None (with_layouts h ls) else Panic.
Definition default_declared_slots (class : ClassEntry) (display : bytes) (h : Heap) : outcome (list (option (Value C)) * Heap) :=
  olet (l, ls) := class_layout class display (layouts h) in
  olet slots := build_declared_slots class l in Ret (slots, with_layouts h ls).
Definition from_layout_native_slots (class : ClassEntry) (display : bytes) (slots : list NativeDeclaredPropertySlot) (h : Heap) :
    outcome (N * Heap) :=
  olet (l, ls) := class_layout class display (layouts h) in
  if (length slots =? length (slot_names l))%nat
  then assemble_with_slots class display l [] (Some slots) (with_layouts h ls) else Panic.

(** [ObjectRef::clone_shallow] *)
Definition clone_shallow (address : N) (h : Heap) : outcome (N * Heap) :=
  olet cell := cell_at h address in
  let s := storage cell in
  olet (id, h) := take_object_id h in
  Ret (allocate (mk_cell id (mk_storage (class_name s) (display_name s) (storage_is_enum s) (enum_backing_type s)
    (native_magic_isset s) (native_countable s) (native_traversable s) (native_allows_dynamic_properties s) (Some id) (layout s)
    (declared_slots s) None (dynamic_properties s) None None
    (match native_dynamic_properties s with Some dynamic => native_order dynamic | None => dynamic_order s end)
    (dynamic_debug_labels s))) h).

Definition get_property (address : N) (name : bytes) (h : Heap) : outcome (option (Value C)) :=
  olet cell := cell_at h address in get (storage cell) name.
Definition set_property (address : N) (name : bytes) (value : Value C) (h : Heap) : outcome Heap :=
  olet cell := cell_at h address in
  olet s := set (storage cell) name value in Ret (put_cell address (mk_cell (cell_id cell) s) h).
Definition unset_property (address : N) (name : bytes) (h : Heap) : outcome (bool * Heap) :=
  olet cell := cell_at h address in
  olet (removed, s) := unset (storage cell) name in Ret (removed, put_cell address (mk_cell (cell_id cell) s) h).
Definition properties_snapshot (address : N) (h : Heap) : outcome (list (bytes * Value C)) :=
  olet cell := cell_at h address in Ret (snapshot (storage cell)).

(** [ObjectRef::eq] *)
Definition object_eq (h : Heap) (address address' : N) : outcome bool :=
  olet cell := cell_at h address in
  olet cell' := cell_at h address' in Ret (cell_id cell =? cell_id cell')%N.

(** [try_modify_property_value]: the value is moved out while [f] runs. *)
Definition try_modify_property_value {R} (address : N) (name : bytes) (f : Value C -> R * Value C) (h : Heap) : outcome (option R * Heap) :=
  olet cell := cell_at h address in
  olet value := get (storage cell) name in
  olet taken := get_mut (storage cell) name (fun _ => Uninitialized) in
  match value, taken with
  | Some value, Some s =>
      let '(result, value) := f value in
      olet restored := get_mut s name (fun _ => value) in
      olet s := match restored with Some s => Ret s | None => set s name value end in
      Ret (Some result, put_cell address (mk_cell (cell_id cell) s) h)
  | _, _ => Ret (None, h)
  end.

Definition without_guard (s : ObjectStorage) : ObjectStorage :=
  mk_storage (class_name s) (display_name s) (storage_is_enum s) (enum_backing_type s) (native_magic_isset s)
    (native_countable s) (native_traversable s) (native_allows_dynamic_properties s) None (layout s)
    (declared_slots s) (native_declared_slots s) (dynamic_properties s) (native_dynamic_properties s)
    (native_dynamic_next_order s) (dynamic_order s) (dynamic_debug_labels s).
Definition release_php_handle (address : N) (h : Heap) : outcome Heap :=
  olet cell := cell_at h address in
  Ret (drop_guard (id_guard (storage cell)) (put_cell address (mk_cell (cell_id cell) (without_guard (storage cell))) h)).
(** The last reference to a cell is dropped. *)
Definition drop_cell (address : N) (h : Heap) : outcome Heap :=
  olet cell := cell_at h address in
  Ret (drop_guard (id_guard (storage cell))
    (mk_heap (layouts h) (next_object_id h) (free_object_ids h) (delete address (object_cells h)) (next_address h))).
End Objects.
End Obj.
