(* ===== verification/ObjectProofs.v ===== *)
(** * ObjectProofs: property storage is an ordered map

    The declared properties of an object stand in the order of the class, the
    dynamic ones in the order of their insertion. *)

From Stdlib Require Import Strings.String Strings.Byte ZArith.
From stdpp Require Import base list option numbers gmap fin_maps sorting.
From S2P Require Import Prelude RustStd RustNum RustText PhpString PhpArray Convert Names IrConst Objects.

(** ** The specification *)

(** The properties of an object with values in [A]. *)
Record Properties (A : Type) := mk_properties { declared : list (bytes * option A); dynamic : list (bytes * A) }.
Arguments mk_properties {A}.
Arguments declared {A}.
Arguments dynamic {A}.

Section Spec.
Context {A : Type}.

Fixpoint assoc {B} (l : list (bytes * B)) (name : bytes) : option B :=
  match l with [] => None | (n, b) :: l => if bytes_eqb n name then Some b else assoc l name end.
(** Replaces the entry of a name that is there. *)
Definition replace {B} (l : list (bytes * B)) (name : bytes) (b : B) : list (bytes * B) :=
  (fun p => if bytes_eqb p.1 name then (p.1, b) else p) <$> l.
Definition remove {B} (l : list (bytes * B)) (name : bytes) : list (bytes * B) := List.filter (fun p => negb (bytes_eqb p.1 name)) l.

Definition spec_get (p : Properties A) (name : bytes) : option A :=
  match assoc (declared p) name with Some v => v | None => assoc (dynamic p) name end.
Definition spec_set (p : Properties A) (name : bytes) (v : A) : Properties A :=
  match assoc (declared p) name with
  | Some _ => mk_properties (replace (declared p) name (Some v)) (dynamic p)
  | None =>
      mk_properties (declared p)
        match assoc (dynamic p) name with Some _ => replace (dynamic p) name v | None => dynamic p ++ [(name, v)] end
  end.
Definition spec_unset (p : Properties A) (name : bytes) : bool * Properties A :=
  match assoc (declared p) name with
  | Some None => (false, p)
  | Some (Some _) => (true, mk_properties (replace (declared p) name None) (dynamic p))
  | None => match assoc (dynamic p) name with
            | Some _ => (true, mk_properties (declared p) (remove (dynamic p) name))
            | None => (false, p)
            end
  end.
Definition spec_all (p : Properties A) : list (bytes * A) := omap (fun q => (fun v => (q.1, v)) <$> q.2) (declared p) ++ dynamic p.
End Spec.

(** ** Association lists *)

Section Assoc.
Context {B : Type}.
Implicit Types l : list (bytes * B).

Lemma bytes_eqb_true a b : bytes_eqb a b = true <-> a = b.
Proof. apply bytes_eqb_eq. Qed.
Lemma bytes_eqb_false a b : bytes_eqb a b = false <-> a <> b.
Proof. rewrite <- not_true_iff_false, bytes_eqb_true. done. Qed.
Lemma bytes_eqb_spec a b : reflect (a = b) (bytes_eqb a b).
Proof. apply iff_reflect. symmetry. apply bytes_eqb_true. Qed.

Lemma assoc_None l name : assoc l name = None <-> name ∉ l.*1.
Proof.
  induction l as [|[n b] l IH]; cbn; [split; [intros _; set_solver|done]|]. destruct (bytes_eqb_spec n name) as [->|Hn].
  - split; [done|]. intros H. exfalso. apply H. left.
  - rewrite IH, not_elem_of_cons. split; [intros; split; [congruence|done]|by intros []].
Qed.
Lemma assoc_Some l name b : NoDup l.*1 -> assoc l name = Some b <-> (name, b) ∈ l.
Proof.
  induction l as [|[n c] l IH]; cbn; [split; [done|intros []%elem_of_nil]|]. intros [Hn Hnd]%NoDup_cons.
  rewrite elem_of_cons. destruct (bytes_eqb_spec n name) as [->|Hne].
  - split; [intros [= ->]; by left|]. intros [[= ->]|Hin]; [done|]. exfalso. apply Hn. apply list_elem_of_fmap. by exists (name, b).
  - rewrite IH by done. split; [by right|]. intros [[= -> ->]|]; done.
Qed.
Lemma replace_names l name b : (replace l name b).*1 = l.*1.
Proof. induction l as [|[n c] l IH]; [done|]. cbn. f_equal; [by destruct (bytes_eqb n name)|exact IH]. Qed.
Lemma replace_id l name b : name ∉ l.*1 -> replace l name b = l.
Proof.
  induction l as [|[n c] l IH]; [done|]. cbn. intros [Hn H]%not_elem_of_cons. f_equal; [|by apply IH].
  by destruct (bytes_eqb_spec n name) as [->|].
Qed.
Lemma remove_id l name : name ∉ l.*1 -> remove l name = l.
Proof.
  induction l as [|[n c] l IH]; [done|]. cbn. intros [Hn H]%not_elem_of_cons.
  destruct (bytes_eqb_spec n name) as [->|]; [done|]. cbn. f_equal. by apply IH.
Qed.
End Assoc.

Lemma without_elem name n (l : list bytes) : n ∈ Obj.without name l <-> n ∈ l /\ n <> name.
Proof.
  unfold Obj.without. rewrite !list_elem_of_In, filter_In, negb_true_iff, bytes_eqb_false. done.
Qed.
Lemma without_NoDup name (l : list bytes) : NoDup l -> NoDup (Obj.without name l).
Proof.
  induction 1 as [|n l Hn Hl IH]; [constructor|]. cbn. destruct (negb _); [|done]. constructor; [|done].
  by intros [Hin _]%without_elem.
Qed.

(** The entries of the names of a list, in its order. *)
Section Entries.
Context {B : Type} (f : bytes -> option B).
Definition entries (names : list bytes) : list (bytes * B) := omap (fun name => (fun v => (name, v)) <$> f name) names.

Lemma entries_elem names n b : (n, b) ∈ entries names <-> n ∈ names /\ f n = Some b.
Proof.
  unfold entries. rewrite list_elem_of_omap. split.
  - intros (m & Hm & E). destruct (f m) eqn:Em; [|done]. cbn in E. injection E as -> ->. done.
  - intros [Hn E]. exists n. rewrite E. done.
Qed.
Lemma entries_names names : (forall n, n ∈ names -> is_Some (f n)) -> (entries names).*1 = names.
Proof.
  induction names as [|n names IH]; intros Hf; [done|]. unfold entries in *. cbn.
  destruct (Hf n) as [b E]; [by left|]. rewrite E. cbn. f_equal. apply IH. intros m Hm. apply Hf. by right.
Qed.
Lemma entries_assoc names n : NoDup names -> (forall n, n ∈ names <-> is_Some (f n)) -> assoc (entries names) n = f n.
Proof.
  intros Hnd Hf. assert (NoDup (entries names).*1) as Hnd'. { rewrite entries_names; [done|]. intros m. by apply Hf. }
  destruct (f n) as [b|] eqn:E.
  - apply assoc_Some; [done|]. apply entries_elem. split; [apply Hf; by rewrite E|done].
  - apply assoc_None. intros Hin. rewrite entries_names in Hin by (intros m; by apply Hf). apply Hf in Hin. rewrite E in Hin. by destruct Hin.
Qed.
End Entries.

Lemma entries_ext {B} (f g : bytes -> option B) names : (forall n, n ∈ names -> f n = g n) -> entries f names = entries g names.
Proof.
  induction names as [|n names IH]; intros H; [done|]. unfold entries in *. cbn. rewrite (H n) by left.
  destruct (g n); cbn; [f_equal|]; apply IH; intros m Hm; apply H; by right.
Qed.
Lemma entries_app {B} (f : bytes -> option B) l l' : entries f (l ++ l') = entries f l ++ entries f l'.
Proof. apply omap_app. Qed.
Lemma entries_without {B} (f : bytes -> option B) names n :
  entries f (Obj.without n names) = remove (entries f names) n.
Proof.
  induction names as [|m names IH]; [done|]. unfold entries, Obj.without, remove in *. cbn.
  destruct (bytes_eqb_spec m n) as [->|Hne]; cbn.
  - rewrite IH. destruct (f n); cbn; [|done]. by rewrite (proj2 (bytes_eqb_true n n)).
  - destruct (f m); cbn; [|done]. rewrite (proj2 (bytes_eqb_false m n)) by done. cbn. by f_equal.
Qed.
Lemma entries_insert {B} (f : bytes -> option B) names n b :
  is_Some (f n) -> entries (fun m => if bytes_eqb m n then Some b else f m) names = replace (entries f names) n b.
Proof.
  intros [c Hc]. induction names as [|m names IH]; [done|]. unfold entries, replace in *. cbn.
  destruct (bytes_eqb_spec m n) as [->|Hne]; cbn.
  - rewrite Hc. cbn. rewrite (proj2 (bytes_eqb_true n n)) by done. by f_equal.
  - destruct (f m); cbn; [|done]. rewrite (proj2 (bytes_eqb_false m n)) by done. by f_equal.
Qed.

(** A list of values beside a list of names. *)
Section Zip.
Context {B : Type}.
Implicit Types (names : list bytes) (l : list B).
Lemma zip_names names l : length l = length names -> (zip names l).*1 = names.
Proof. intros H. apply fst_zip. lia. Qed.
Lemma assoc_zip names l i n b : NoDup names -> names !! i = Some n -> l !! i = Some b -> assoc (zip names l) n = Some b.
Proof.
  revert l i. induction names as [|m names IH]; intros l i Hnd Hn Hb; [done|]. apply NoDup_cons in Hnd as [Hm Hnd].
  destruct l as [|c l]; [done|]. cbn. destruct i as [|i]; cbn in Hn, Hb.
  - injection Hn as ->. injection Hb as ->. by rewrite (proj2 (bytes_eqb_true n n)).
  - rewrite (proj2 (bytes_eqb_false m n)); [by eapply IH|]. intros ->. apply Hm. by eapply list_elem_of_lookup_2.
Qed.
Lemma replace_zip names l i n b : NoDup names -> names !! i = Some n -> replace (zip names l) n b = zip names (<[i := b]> l).
Proof.
  revert l i. induction names as [|m names IH]; intros l i Hnd Hn; [done|]. apply NoDup_cons in Hnd as [Hm Hnd].
  destruct l as [|c l]; [by destruct i|]. destruct i as [|i]; cbn in Hn; cbn.
  - injection Hn as ->. rewrite (proj2 (bytes_eqb_true n n)) by done. f_equal. apply replace_id.
    intros (p & -> & Hp)%list_elem_of_fmap. apply Hm. destruct p. by apply elem_of_zip_l in Hp.
  - rewrite (proj2 (bytes_eqb_false m n)); [f_equal; by apply IH|]. intros ->. apply Hm. by eapply list_elem_of_lookup_2.
Qed.
End Zip.

(** ** Storage in the Rust representation *)

Section Storage.
Context {C : Type}.
Implicit Types s : Obj.ObjectStorage (C := C).

(** The index of a layout is that of its names. *)
Definition layout_ok (l : Obj.PropertyLayout) : Prop :=
  NoDup (Obj.slot_names l) /\ (forall n i, Obj.slot_by_name l !! n = Some i <-> Obj.slot_names l !! i = Some n) /\
  length (Obj.array_cast_names l) = length (Obj.slot_names l).

(** Dynamic names are listed once each and none of them is declared. *)
Definition dynamic_ok s (has : bytes -> Prop) : Prop :=
  NoDup (Obj.dynamic_order s) /\ (forall n, n ∈ Obj.dynamic_order s <-> has n) /\
  (forall n, has n -> Obj.slot_of s n = None).
Definition storage_ok s : Prop :=
  layout_ok (Obj.layout s) /\ Obj.no_native s = true /\
  length (Obj.declared_slots s) = length (Obj.slot_names (Obj.layout s)) /\
  dynamic_ok s (fun n => is_Some (Obj.dynamic_properties s !! n)).

(** What a storage stands for. *)
Definition abs s : Properties (Value C) :=
  mk_properties (zip (Obj.slot_names (Obj.layout s)) (Obj.declared_slots s)) (Obj.dynamic_snapshot s).

Lemma abs_dynamic s : dynamic (abs s) = entries (fun n => Obj.dynamic_properties s !! n) (Obj.dynamic_order s).
Proof. done. Qed.
Lemma abs_with_rust s slots m order :
  abs (Obj.with_rust s slots m order) = mk_properties (zip (Obj.slot_names (Obj.layout s)) slots) (entries (fun n => m !! n) order).
Proof. done. Qed.
Lemma snapshot_abs s : Obj.snapshot s = spec_all (abs s).
Proof. done. Qed.

Lemma slot_of_names s n i : layout_ok (Obj.layout s) -> Obj.slot_of s n = Some i -> Obj.slot_names (Obj.layout s) !! i = Some n.
Proof. intros (_ & H & _). apply H. Qed.
Lemma slot_of_None s n : layout_ok (Obj.layout s) -> Obj.slot_of s n = None -> n ∉ Obj.slot_names (Obj.layout s).
Proof. intros (_ & H & _) E [i Hi]%list_elem_of_lookup. apply H in Hi. unfold Obj.slot_of in E. congruence. Qed.

Lemma declared_assoc s n i v : layout_ok (Obj.layout s) -> Obj.slot_of s n = Some i -> Obj.declared_slots s !! i = Some v ->
  assoc (declared (abs s)) n = Some v.
Proof. intros Hl Hi Hv. apply (assoc_zip _ _ i); [apply Hl|by apply slot_of_names|done]. Qed.
Lemma undeclared_assoc s n : layout_ok (Obj.layout s) -> length (Obj.declared_slots s) = length (Obj.slot_names (Obj.layout s)) ->
  Obj.slot_of s n = None -> assoc (declared (abs s)) n = None.
Proof. intros Hl Hlen Hn. apply assoc_None. cbn. rewrite zip_names by done. by apply slot_of_None. Qed.
Lemma dynamic_assoc s n : storage_ok s -> assoc (dynamic (abs s)) n = Obj.dynamic_properties s !! n.
Proof.
  intros (_ & _ & _ & Hnd & Hin & _). apply (entries_assoc (fun n => Obj.dynamic_properties s !! n)); [done|].
  intros m. apply Hin.
Qed.
Lemma slot_exists s n i : storage_ok s -> Obj.slot_of s n = Some i -> exists v, Obj.declared_slots s !! i = Some v /\ (i <? length (Obj.declared_slots s))%nat = true.
Proof.
  intros (Hl & _ & Hlen & _) Hi. apply slot_of_names in Hi; [|done]. apply lookup_lt_Some in Hi. rewrite <- Hlen in Hi.
  destruct (lookup_lt_is_Some_2 _ _ Hi) as [v Hv]. exists v. split; [done|]. by apply Nat.ltb_lt.
Qed.

Lemma get_spec s n : storage_ok s -> Obj.get s n = Ret (spec_get (abs s) n).
Proof.
  intros Hok. unfold Obj.get, spec_get. destruct (Obj.slot_of s n) as [i|] eqn:Ei.
  - destruct (slot_exists s n i Hok Ei) as (v & Hv & _). rewrite (declared_assoc s n i v (proj1 Hok) Ei Hv).
    unfold Obj.slot_at. by rewrite Hv.
  - rewrite undeclared_assoc by (done || apply Hok). rewrite dynamic_assoc by done. case_bool_decide as E; [|done]. by rewrite E, lookup_empty.
Qed.

Lemma with_slots_ok s slots : storage_ok s -> length slots = length (Obj.declared_slots s) ->
  storage_ok (Obj.with_rust s slots (Obj.dynamic_properties s) (Obj.dynamic_order s)).
Proof. intros (Hl & Hn & Hlen & Hd) E. split_and!; try done. cbn. by rewrite E. Qed.

Lemma set_spec s n v : storage_ok s -> exists s', Obj.set s n v = Ret s' /\ storage_ok s' /\ abs s' = spec_set (abs s) n v.
Proof.
  intros Hok. pose proof Hok as (Hl & Hnat & Hlen & Hnd & Hin & Hun). unfold Obj.set, spec_set.
  destruct (Obj.slot_of s n) as [i|] eqn:Ei.
  - destruct (slot_exists s n i Hok Ei) as (w & Hw & Hlt). unfold Obj.slot_put. rewrite Hlt. cbn [obind]. eexists. split; [done|].
    split; [apply with_slots_ok; [done|apply length_insert]|]. rewrite (declared_assoc s n i w Hl Ei Hw).
    rewrite abs_with_rust. f_equal. symmetry. apply replace_zip; [apply Hl|by apply slot_of_names].
  - rewrite undeclared_assoc, dynamic_assoc by done. eexists. split; [done|].
    destruct (Obj.dynamic_properties s !! n) as [w|] eqn:Ew.
    + split.
      * split_and!; try done; unfold dynamic_ok; cbn; split_and!; try done.
        -- intros m. rewrite Hin. destruct (decide (m = n)) as [->|Hne]; [by rewrite lookup_insert_eq, Ew|by rewrite lookup_insert_ne].
        -- intros m Hm. apply Hun. destruct (decide (m = n)) as [->|Hne]; [by rewrite Ew|by rewrite lookup_insert_ne in Hm].
      * rewrite abs_with_rust. f_equal. rewrite abs_dynamic.
        rewrite <- (entries_insert (fun m => Obj.dynamic_properties s !! m)) by (by rewrite Ew). apply entries_ext. intros m _.
        destruct (bytes_eqb_spec m n) as [->|Hne]; [apply lookup_insert_eq|by apply lookup_insert_ne].
    + assert (n ∉ Obj.dynamic_order s) as Hnew. { rewrite Hin, Ew. by intros []. }
      split.
      * split_and!; try done; unfold dynamic_ok; cbn; split_and!; try done.
        -- apply NoDup_app. split_and!; [done| |apply NoDup_singleton]. set_solver.
        -- intros m. rewrite elem_of_app, list_elem_of_singleton, Hin. destruct (decide (m = n)) as [->|Hne].
           ++ rewrite lookup_insert_eq. naive_solver.
           ++ rewrite lookup_insert_ne by done. naive_solver.
        -- intros m Hm. destruct (decide (m = n)) as [->|Hne]; [done|]. apply Hun. by rewrite lookup_insert_ne in Hm.
      * rewrite abs_with_rust. f_equal. rewrite abs_dynamic. rewrite entries_app. f_equal.
        -- apply entries_ext. intros m Hm. apply lookup_insert_ne. set_solver.
        -- unfold entries. cbn. by rewrite lookup_insert_eq.
Qed.

Lemma unset_spec s n : storage_ok s ->
  exists s' b, Obj.unset s n = Ret (b, s') /\ storage_ok s' /\ (b, abs s') = spec_unset (abs s) n.
Proof.
  intros Hok. pose proof Hok as (Hl & Hnat & Hlen & Hnd & Hin & Hun). unfold Obj.unset, spec_unset.
  destruct (Obj.slot_of s n) as [i|] eqn:Ei.
  - destruct (slot_exists s n i Hok Ei) as (w & Hw & Hlt). rewrite (declared_assoc s n i w Hl Ei Hw).
    unfold Obj.slot_at, Obj.slot_put. rewrite Hw, Hlt. cbn [obind]. destruct w as [w|]; [|by exists s, false].
    eexists _, true. split; [done|]. split; [apply with_slots_ok; [done|apply length_insert]|].
    rewrite abs_with_rust. do 2 f_equal. symmetry. apply replace_zip; [apply Hl|by apply slot_of_names].
  - rewrite undeclared_assoc, dynamic_assoc by done. destruct (Obj.dynamic_properties s !! n) as [w|] eqn:Ew; [|by exists s, false].
    eexists _, true. split; [done|]. split.
    + split_and!; try done; unfold dynamic_ok; cbn; split_and!; try done.
      * by apply without_NoDup.
      * intros m. rewrite without_elem, Hin. destruct (decide (m = n)) as [->|Hne].
        -- rewrite lookup_delete_eq. split; [by intros []|by intros []].
        -- rewrite lookup_delete_ne by done. naive_solver.
      * intros m Hm. apply Hun. destruct (decide (m = n)) as [->|Hne]; [by rewrite Ew|by rewrite lookup_delete_ne in Hm].
    + rewrite abs_with_rust. do 2 f_equal. rewrite abs_dynamic.
      rewrite <- (entries_without (fun m => Obj.dynamic_properties s !! m)). apply entries_ext.
      intros m [_ Hne]%without_elem. by apply lookup_delete_ne.
Qed.
End Storage.
