(* ===== verification/ObjectLayouts.v ===== *)
(** * ObjectLayouts: class layouts are well formed and numbered by their shape *)

From Stdlib Require Import Strings.String Strings.Byte ZArith.
From stdpp Require Import base list option numbers gmap fin_maps sorting.
From S2P Require Import Prelude RustStd RustNum RustText PhpString PhpArray Convert Names IrConst Objects ObjectProofs.

Section Layouts.
Context {C : Type}.
Implicit Types (class : Obj.ClassEntry (C := C)) (p : Obj.ClassPropertyEntry (C := C)).

(** ** Slots *)

Lemma existsb_names n (l : list bytes) : existsb (bytes_eqb n) l = true <-> n ∈ l.
Proof.
  rewrite existsb_exists. split.
  - intros (m & Hm & ->%bytes_eqb_true). by apply list_elem_of_In.
  - intros H. exists n. split; [by apply list_elem_of_In|by apply bytes_eqb_true].
Qed.

Lemma collect_slots_ok class display l slots casts :
  NoDup slots -> length casts = length slots ->
  let r := Obj.collect_slots class display l slots casts in
  NoDup r.1 /\ length r.2 = length r.1 /\
  (forall n, n ∈ r.1 <-> n ∈ slots \/ exists p, p ∈ l /\ Obj.is_backed_instance_property p = true /\ Obj.property_name p = n).
Proof.
  revert slots casts. induction l as [|p l IH]; intros slots casts Hnd Hlen; cbn zeta.
  { split_and!; [done..|]. intros n. split; [by left|]. intros [|(q & Hq & _)]; [done|]. by apply elem_of_nil in Hq. }
  cbn [Obj.collect_slots]. destruct (Obj.is_backed_instance_property p) eqn:Eb; cbn [andb].
  1: destruct (existsb _ slots) eqn:Ee; cbn [negb].
  - destruct (IH slots casts Hnd Hlen) as (H1 & H2 & H3). split_and!; [done..|]. intros n. rewrite H3. split.
    + intros [|(q & Hq & ?)]; [by left|]. right. exists q. split; [by right|done].
    + intros [|(q & [ -> | Hq ]%elem_of_cons & Hb & Hn)]; [by left| |right; by exists q]. left. subst n. by apply existsb_names.
  - assert (Obj.property_name p ∉ slots) as Hnew. { rewrite <- existsb_names. by rewrite Ee. }
    destruct (IH (slots ++ [Obj.property_name p]) (casts ++ [Obj.cast_name class display p])) as (H1 & H2 & H3).
    { apply NoDup_app. split_and!; [done|set_solver|apply NoDup_singleton]. }
    { rewrite !length_app. cbn. lia. }
    split_and!; [done..|]. intros n. rewrite H3, elem_of_app, list_elem_of_singleton. split.
    + intros [[ | -> ]|(q & Hq & ?)]; [by left|right; exists p; split; [by left|done]|]. right. exists q. split; [by right|done].
    + intros [|(q & [ -> | Hq ]%elem_of_cons & Hb & Hn)]; [by left; left|left; by right|right; by exists q].
  - destruct (IH slots casts Hnd Hlen) as (H1 & H2 & H3). split_and!; [done..|]. intros n. rewrite H3. split.
    + intros [|(q & Hq & ?)]; [by left|]. right. exists q. split; [by right|done].
    + intros [|(q & [ -> | Hq ]%elem_of_cons & Hb & Hn)]; [by left|congruence|right; by exists q].
Qed.

Lemma slot_index_spec slots n i : NoDup slots -> Obj.slot_index slots !! n = Some i <-> slots !! i = Some n.
Proof.
  intros Hnd. unfold Obj.slot_index. rewrite <- elem_of_list_to_map.
  2: { rewrite fmap_reverse, reverse_Permutation, fst_zip; [done|]. rewrite length_seq. lia. }
  rewrite elem_of_reverse. rewrite list_elem_of_lookup. split.
  - intros (j & Hj). apply lookup_zip_Some in Hj as [H1 H2]. apply lookup_seq in H2 as [-> _]. done.
  - intros Hi. exists i. apply lookup_zip_Some. split; [done|]. apply lookup_seq. split; [done|]. by eapply lookup_lt_Some.
Qed.

(** ** The cache and the numbers *)

(** The identity under which a layout of a class is numbered. *)
Definition identity (name : bytes) (l : Obj.PropertyLayout) : Obj.PropertyLayoutIdentity :=
  (name, Obj.slot_names l, Obj.array_cast_names l, merge_sort Obj.pair_le (map_to_list (Obj.debug_labels l))).

Record layouts_ok (st : Obj.Layouts) : Prop := {
  numbers_positive : (0 < Obj.next_layout_id st < Obj.U64)%N;
  numbers_below : forall k id, Obj.identities st !! k = Some id -> (0 < id < Obj.next_layout_id st)%N;
  numbers_injective : forall k k' id, Obj.identities st !! k = Some id -> Obj.identities st !! k' = Some id -> k = k';
  cached_ok : forall name ls l, Obj.layout_cache st !! name = Some ls -> l ∈ ls ->
    layout_ok l /\ Obj.identities st !! identity name l = Some (Obj.layout_id l) }.

Definition no_layouts : Obj.Layouts := Obj.mk_layouts ∅ ∅ 1.
Lemma no_layouts_ok : layouts_ok no_layouts.
Proof. by split. Qed.

Lemma labels_sorted (m m' : gmap bytes bytes) :
  merge_sort Obj.pair_le (map_to_list m) = merge_sort Obj.pair_le (map_to_list m') -> m = m'.
Proof.
  intros E. apply map_to_list_inj. rewrite <- (merge_sort_Permutation Obj.pair_le (map_to_list m)), E. apply merge_sort_Permutation.
Qed.

(** What a class asks of its layout. *)
Definition layout_for class (display : bytes) (l : Obj.PropertyLayout) : Prop :=
  (Obj.slot_names l, Obj.array_cast_names l) = Obj.collect_slots class display (Obj.properties class) [] [] /\
  Obj.debug_labels l = Obj.class_labels class display /\ Obj.public_slot_names l = Obj.public_names class.

Lemma find_layout (ls : list Obj.PropertyLayout) slots casts public labels :
  match List.find (fun l => bool_decide (Obj.slot_names l = slots) && bool_decide (Obj.array_cast_names l = casts)
          && bool_decide (Obj.public_slot_names l = public) && bool_decide (Obj.debug_labels l = labels)) ls with
  | Some l => l ∈ ls /\ Obj.slot_names l = slots /\ Obj.array_cast_names l = casts /\ Obj.public_slot_names l = public /\
      Obj.debug_labels l = labels
  | None => True
  end.
Proof.
  destruct (List.find _ ls) as [l|] eqn:E; [|done]. apply find_some in E as [Hin H]. apply list_elem_of_In in Hin.
  rewrite !andb_true_iff in H. destruct H as [[[H1 H2] H3] H4]. by rewrite bool_decide_eq_true in H1, H2, H3, H4.
Qed.

(** Room for one more number. *)
Definition room (st : Obj.Layouts) : Prop := (Obj.next_layout_id st + 1 < Obj.U64)%N.

Lemma intern_layout_ok (key : Obj.PropertyLayoutIdentity) cache st : layouts_ok st -> room st ->
  exists id ids next, (match Obj.identities st !! key with
      | Some id => Ret (id, Obj.mk_layouts cache (Obj.identities st) (Obj.next_layout_id st))
      | None => if (Obj.next_layout_id st =? 0)%N then Panic
                else Ret (Obj.next_layout_id st, Obj.mk_layouts cache
                  (<[key := Obj.next_layout_id st]> (Obj.identities st)) ((Obj.next_layout_id st + 1) mod Obj.U64)%N)
      end) = Ret (id, Obj.mk_layouts cache ids next) /\
    ids !! key = Some id /\ Obj.identities st ⊆ ids /\ layouts_ok (Obj.mk_layouts (Obj.layout_cache st) ids next) /\
    (next <= Obj.next_layout_id st + 1)%N.
Proof.
  intros Hok Hroom. pose proof Hok as [Hpos Hbelow Hinj Hcache]. unfold room in Hroom. destruct (Obj.identities st !! key) as [id|] eqn:Ek.
  - eexists id, _, _. split; [done|]. split_and!; [done..| |lia]. by split.
  - destruct (N.eqb_spec (Obj.next_layout_id st) 0) as [E|_]; [lia|]. eexists _, _, _. split; [done|].
    rewrite N.mod_small by lia. split_and!; [apply lookup_insert_eq|by apply insert_subseteq| |lia].
    split; cbn.
    + lia.
    + intros k id Hk. destruct (decide (k = key)) as [->|Hne].
      * rewrite lookup_insert_eq in Hk. injection Hk as <-. lia.
      * rewrite lookup_insert_ne in Hk by done. specialize (Hbelow _ _ Hk). lia.
    + intros k k' id Hk Hk'. destruct (decide (k = key)) as [->|Hne], (decide (k' = key)) as [->|Hne']; [done|..].
      * rewrite lookup_insert_eq in Hk. injection Hk as <-. rewrite lookup_insert_ne in Hk' by done. specialize (Hbelow _ _ Hk'). lia.
      * rewrite lookup_insert_eq in Hk'. injection Hk' as <-. rewrite lookup_insert_ne in Hk by done. specialize (Hbelow _ _ Hk). lia.
      * rewrite lookup_insert_ne in Hk, Hk' by done. by eapply Hinj.
    + intros name ls l Hls Hl. destruct (Hcache name ls l Hls Hl) as [H1 H2]. split; [done|].
      rewrite lookup_insert_ne; [done|]. intros ->. congruence.
Qed.

Lemma class_layout_ok class display st : layouts_ok st -> room st ->
  exists l st', Obj.class_layout class display st = Ret (l, st') /\ layouts_ok st' /\ layout_ok l /\ layout_for class display l /\
    Obj.identities st' !! identity (Obj.entry_name class) l = Some (Obj.layout_id l) /\ Obj.identities st ⊆ Obj.identities st' /\
    (Obj.next_layout_id st' <= Obj.next_layout_id st + 1)%N.
Proof.
  intros Hok Hroom. unfold Obj.class_layout.
  destruct (collect_slots_ok class display (Obj.properties class) [] []) as (Hnd & Hlen & _); [constructor|done|].
  destruct (Obj.collect_slots _ _ _ _ _) as [slots casts] eqn:Ec. cbn [fst snd] in Hnd, Hlen.
  set (labels := Obj.class_labels class display). set (public := Obj.public_names class).
  set (candidates := default [] (Obj.layout_cache st !! Obj.entry_name class)).
  assert (forall l, l ∈ candidates -> layout_ok l /\ Obj.identities st !! identity (Obj.entry_name class) l = Some (Obj.layout_id l)) as Hcand.
  { intros l Hl. unfold candidates in Hl. destruct (Obj.layout_cache st !! Obj.entry_name class) eqn:E; [|by apply elem_of_nil in Hl].
    by eapply cached_ok. }
  cbv zeta. pose proof (find_layout candidates slots casts public labels) as Hf.
  destruct (List.find _ candidates) as [l|].
  - destruct Hf as (Hin & H1 & H2 & H3 & H4). destruct (Hcand l Hin) as [Hl Hid].
    assert (layout_for class display l) as Hfor by (split; [by rewrite H1, H2, Ec|done]).
    eexists l, _. split; [done|]. refine (conj _ (conj Hl (conj Hfor (conj Hid (conj _ _))))); [|done|cbn; lia].
    destruct Hok. split; cbn; try done. intros name ls m Hls Hm.
    destruct (decide (name = Obj.entry_name class)) as [->|Hne]; [|rewrite lookup_insert_ne in Hls by done; by eapply cached_ok0].
    rewrite lookup_insert_eq in Hls. injection Hls as <-. by apply Hcand.
  - clear Hf. unfold Obj.intern_layout_id. cbn [Obj.identities Obj.next_layout_id Obj.layout_cache].
    set (key := (Obj.entry_name class, slots, casts, merge_sort Obj.pair_le (map_to_list labels)) : Obj.PropertyLayoutIdentity).
    assert (forall id, layout_ok (Obj.mk_layout id slots (Obj.slot_index slots) public casts labels)) as Hnew.
    { intros id. split_and!; [done| |done]. intros n i. by apply slot_index_spec. }
    assert (forall id, layout_for class display (Obj.mk_layout id slots (Obj.slot_index slots) public casts labels)) as Hfor
      by (intros id; split; [by rewrite Ec|done]).
    destruct (intern_layout_ok key (<[Obj.entry_name class := candidates]> (Obj.layout_cache st)) st Hok Hroom)
      as (id & ids & next & -> & Hkey & Hsub & Hok' & Hnext).
    cbn [obind]. eexists _, _. split; [done|].
    refine (conj _ (conj (Hnew id) (conj (Hfor id) (conj Hkey (conj Hsub Hnext))))).
    destruct Hok'. split; cbn in *; try done. intros name ls m Hls Hm.
    destruct (decide (name = Obj.entry_name class)) as [->|Hne].
    + rewrite lookup_insert_eq in Hls. injection Hls as <-. apply elem_of_app in Hm as [Hm|Hm%list_elem_of_singleton].
      * destruct (Hcand m Hm) as [Hm1 Hm2]. split; [done|]. by eapply lookup_weaken.
      * subst m. by split.
    + rewrite !lookup_insert_ne in Hls by done. by eapply cached_ok0.
Qed.

(** ** A sequence of requests *)

Fixpoint layout_run (requests : list (Obj.ClassEntry (C := C) * bytes)) (st : Obj.Layouts) :
    outcome (list Obj.PropertyLayout * Obj.Layouts) :=
  match requests with
  | [] => Ret ([], st)
  | (class, display) :: requests =>
      olet (l, st) := Obj.class_layout class display st in
      olet (ls, st) := layout_run requests st in Ret (l :: ls, st)
  end.

Lemma layout_run_ok requests st : layouts_ok st -> (Obj.next_layout_id st + N.of_nat (length requests) < Obj.U64)%N ->
  exists ls st', layout_run requests st = Ret (ls, st') /\ layouts_ok st' /\ Obj.identities st ⊆ Obj.identities st' /\
    Forall2 (fun r l => layout_ok l /\ layout_for r.1 r.2 l /\
      Obj.identities st' !! identity (Obj.entry_name r.1) l = Some (Obj.layout_id l)) requests ls.
Proof.
  revert st. induction requests as [|[class display] requests IH]; intros st Hok Hroom; [by exists [], st|].
  cbn [length] in Hroom. cbn [layout_run].
  destruct (class_layout_ok class display st Hok) as (l & st1 & -> & Hok1 & Hl & Hfor & Hid & Hsub & Hnext); [unfold room; lia|].
  destruct (IH st1 Hok1) as (ls & st2 & E & Hok2 & Hsub2 & Hall); [lia|]. cbn [obind]. rewrite E. cbn [obind].
  eexists _, _. split; [done|]. split; [done|]. split; [by etrans|]. constructor; [|done].
  split; [done|]. split; [done|]. by eapply lookup_weaken.
Qed.

(** ** The slots of a new object *)

(** The default that counts for a name: that of its last declaration. *)
Definition last_default class (n : bytes) : option (Value C) :=
  fold_left (fun acc p => if Obj.is_backed_instance_property p && bytes_eqb (Obj.property_name p) n then Some (Obj.property_default p) else acc)
    (Obj.properties class) None.

Lemma build_slots_ok class l : layout_ok l ->
  exists slots, Obj.build_declared_slots class l = Ret slots /\ length slots = length (Obj.slot_names l) /\
    forall i n, Obj.slot_names l !! i = Some n -> slots !! i = Some (last_default class n).
Proof.
  intros (Hnd & Hidx & _). unfold Obj.build_declared_slots, last_default. remember (Obj.properties class) as ps eqn:E. clear E.
  assert (forall (acc : bytes -> option (Value C)) slots, length slots = length (Obj.slot_names l) ->
    (forall i n, Obj.slot_names l !! i = Some n -> slots !! i = Some (acc n)) ->
    exists slots', (fix go (ps : list Obj.ClassPropertyEntry) (slots : list (option (Value C))) : outcome (list (option (Value C))) :=
     match ps with
     | [] => Ret slots
     | p :: ps =>
         if negb (Obj.is_backed_instance_property p) then go ps slots
         else match Obj.slot_by_name l !! Obj.property_name p with
              | Some slot => if (slot <? length slots)%nat then go ps (<[slot := Some (Obj.property_default p)]> slots) else Panic
              | None => go ps slots
              end
     end) ps slots = Ret slots' /\ length slots' = length (Obj.slot_names l) /\
     forall i n, Obj.slot_names l !! i = Some n -> slots' !! i = Some (fold_left (fun acc p =>
       if Obj.is_backed_instance_property p && bytes_eqb (Obj.property_name p) n then Some (Obj.property_default p) else acc) ps (acc n))) as H.
  2: { apply (H (fun _ => None)); [apply length_replicate|]. intros i n Hi. apply lookup_replicate. split; [done|]. by eapply lookup_lt_Some. }
  induction ps as [|p ps IH]; intros acc slots Hlen Hs; [by exists slots|]. cbn [fold_left].
  destruct (Obj.is_backed_instance_property p); cbn [negb andb]; [|by apply (IH acc)].
  destruct (Obj.slot_by_name l !! Obj.property_name p) as [slot|] eqn:Ep.
  - apply Hidx in Ep. pose proof (lookup_lt_Some _ _ _ Ep). rewrite (proj2 (Nat.ltb_lt _ _)) by lia.
    apply (IH (fun n => if bytes_eqb (Obj.property_name p) n then Some (Obj.property_default p) else acc n)); [by rewrite length_insert|].
    intros i n Hi. destruct (bytes_eqb_spec (Obj.property_name p) n) as [<-|Hne].
    + assert (i = slot) as -> by (by eapply NoDup_lookup). apply list_lookup_insert_eq. lia.
    + rewrite list_lookup_insert_ne; [by apply Hs|]. intros ->. congruence.
  - apply (IH (fun n => if bytes_eqb (Obj.property_name p) n then Some (Obj.property_default p) else acc n)); [done|].
    intros i n Hi. destruct (bytes_eqb_spec (Obj.property_name p) n) as [<-|Hne]; [|by apply Hs].
    apply Hidx in Hi. congruence.
Qed.
End Layouts.
