(* ===== verification/ObjectClaims.v ===== *)
(** * ObjectClaims: what layouts, objects and their numbers promise *)

From Stdlib Require Import Strings.String Strings.Byte ZArith Relations.Relation_Operators.
From stdpp Require Import base list option numbers gmap fin_maps sorting.
From S2P Require Import Prelude RustStd RustNum RustText PhpString PhpArray Convert Names IrConst Objects ObjectProofs ObjectLayouts.

(** ** Programs on one object *)

Section Programs.
Context {C : Type}.

Inductive property_op := PGet (name : bytes) | PSet (name : bytes) (value : Value C) | PUnset (name : bytes) | PAll.
Inductive answer := AValue (v : option (Value C)) | ADone | ARemoved (b : bool) | AAll (l : list (bytes * Value C)).

Definition run_op (address : N) (op : property_op) (h : Obj.Heap (C := C)) : outcome (answer * Obj.Heap) :=
  match op with
  | PGet name => olet v := Obj.get_property address name h in Ret (AValue v, h)
  | PSet name value => olet h := Obj.set_property address name value h in Ret (ADone, h)
  | PUnset name => olet (b, h) := Obj.unset_property address name h in Ret (ARemoved b, h)
  | PAll => olet l := Obj.properties_snapshot address h in Ret (AAll l, h)
  end.
Fixpoint run_ops (address : N) (ops : list property_op) (h : Obj.Heap) : outcome (list answer * Obj.Heap) :=
  match ops with
  | [] => Ret ([], h)
  | op :: ops =>
      olet (a, h) := run_op address op h in
      olet (l, h) := run_ops address ops h in Ret (a :: l, h)
  end.

Definition spec_op (op : property_op) (p : Properties (Value C)) : answer * Properties (Value C) :=
  match op with
  | PGet name => (AValue (spec_get p name), p)
  | PSet name value => (ADone, spec_set p name value)
  | PUnset name => let '(b, p) := spec_unset p name in (ARemoved b, p)
  | PAll => (AAll (spec_all p), p)
  end.
Fixpoint spec_ops (ops : list property_op) (p : Properties (Value C)) : list answer :=
  match ops with [] => [] | op :: ops => let '(a, p) := spec_op op p in a :: spec_ops ops p end.

Definition object_at (h : Obj.Heap) (address : N) (p : Properties (Value C)) : Prop :=
  exists cell, Obj.object_cells h !! address = Some cell /\ storage_ok (Obj.storage cell) /\ abs (Obj.storage cell) = p.

(** Everything but one object. *)
Definition same_elsewhere (address : N) (h h' : Obj.Heap (C := C)) : Prop :=
  forall a, a <> address -> Obj.object_cells h' !! a = Obj.object_cells h !! a.

Lemma run_op_spec address op h p : object_at h address p ->
  exists h', run_op address op h = Ret (fst (spec_op op p), h') /\ object_at h' address (snd (spec_op op p)) /\ same_elsewhere address h h'.
Proof.
  intros (cell & Hc & Hok & <-). destruct op as [n|n v|n|]; cbn [run_op spec_op].
  - unfold Obj.get_property, Obj.cell_at. rewrite Hc. cbn [obind]. rewrite get_spec by done. exists h. split; [done|]. split; [by exists cell|done].
  - unfold Obj.set_property, Obj.cell_at. rewrite Hc. cbn [obind]. destruct (set_spec _ n v Hok) as (s & -> & Hs & Habs). cbn [obind].
    eexists. split; [done|]. split; [|intros a Ha; by apply lookup_insert_ne].
    eexists. split; [apply lookup_insert_eq|]. by split.
  - unfold Obj.unset_property, Obj.cell_at. rewrite Hc. cbn [obind]. destruct (unset_spec _ n Hok) as (s & b & -> & Hs & Habs). cbn [obind].
    rewrite <- Habs. eexists. split; [done|]. split; [|intros a Ha; by apply lookup_insert_ne].
    eexists. split; [apply lookup_insert_eq|]. by split.
  - unfold Obj.properties_snapshot, Obj.cell_at. rewrite Hc. cbn [obind]. exists h. split; [done|]. split; [by exists cell|done].
Qed.

Lemma run_ops_spec address ops h p : object_at h address p ->
  exists h', run_ops address ops h = Ret (spec_ops ops p, h') /\ same_elsewhere address h h'.
Proof.
  revert h p. induction ops as [|op ops IH]; intros h p Hp; [by exists h|]. cbn [run_ops spec_ops].
  destruct (run_op_spec address op h p Hp) as (h1 & -> & Hp1 & Hs1). cbn [obind]. destruct (spec_op op p) as [a q]. cbn [fst snd] in *.
  destruct (IH h1 q Hp1) as (h2 & -> & Hs2). cbn [obind]. exists h2. split; [done|]. intros b Hb. by rewrite Hs2, Hs1.
Qed.

(** The properties of a new object of a class. *)
Definition initial (class : Obj.ClassEntry (C := C)) (display : bytes) : Properties (Value C) :=
  mk_properties ((fun n => (n, last_default class n)) <$> fst (Obj.collect_slots class display (Obj.properties class) [] [])) [].

Lemma zip_defaults (names : list bytes) (slots : list (option (Value C))) f : length slots = length names ->
  (forall i n, names !! i = Some n -> slots !! i = Some (f n)) -> zip names slots = (fun n => (n, f n)) <$> names.
Proof.
  revert slots. induction names as [|n names IH]; intros [|v slots] Hlen Hs; try done. cbn. f_equal.
  - specialize (Hs 0 n eq_refl). cbn in Hs. by injection Hs as ->.
  - apply IH; [by injection Hlen|]. intros i m Hi. apply (Hs (S i) m Hi).
Qed.

(** Room for one more number of an object. *)
Definition id_room (h : Obj.Heap (C := C)) : Prop := (Obj.next_object_id h + 1 < Obj.U64)%N.

Lemma take_id_ok h : id_room h -> exists id h', Obj.take_object_id h = Ret (id, h') /\ Obj.object_cells h' = Obj.object_cells h /\
  Obj.next_address h' = Obj.next_address h /\ Obj.layouts h' = Obj.layouts h /\ (Obj.next_object_id h' <= Obj.next_object_id h + 1)%N.
Proof.
  intros Hr. unfold Obj.take_object_id. destruct (rev (Obj.free_object_ids h)) as [|id rest].
  - rewrite (proj2 (N.ltb_lt _ _)) by exact Hr. by eexists _, _.
  - eexists _, _. split_and!; try done. cbn. lia.
Qed.

Lemma new_cell class display h : layouts_ok (Obj.layouts h) -> room (Obj.layouts h) -> id_room h ->
  exists cell h', Obj.new_with_display_name class display h = Ret (Obj.next_address h, h') /\
    Obj.object_cells h' = <[Obj.next_address h := cell]> (Obj.object_cells h) /\ Obj.next_address h' = (Obj.next_address h + 1)%N /\
    storage_ok (Obj.storage cell) /\ abs (Obj.storage cell) = initial class display /\
    layout_for class display (Obj.layout (Obj.storage cell)) /\ Obj.class_name (Obj.storage cell) = Obj.entry_name class /\
    Obj.display_name (Obj.storage cell) = display /\ Obj.dynamic_debug_labels (Obj.storage cell) = ∅ /\
    layouts_ok (Obj.layouts h') /\ (Obj.next_layout_id (Obj.layouts h') <= Obj.next_layout_id (Obj.layouts h) + 1)%N /\
    (Obj.next_object_id h' <= Obj.next_object_id h + 1)%N.
Proof.
  intros Hl Hr Hid. unfold Obj.new_with_display_name.
  destruct (class_layout_ok class display _ Hl Hr) as (l & ls & -> & Hls & Hlok & Hfor & _ & _ & Hnext). pose proof Hfor as (Hs & _). cbn [obind].
  destruct (build_slots_ok class l Hlok) as (slots & -> & Hlen & Hslots). cbn [obind].
  unfold Obj.assemble_with_slots. destruct (take_id_ok (Obj.with_layouts h ls) Hid) as (id & h1 & -> & Ec & Ea & El & Eid). cbn [obind].
  cbn in Ec, Ea, El, Eid. unfold Obj.allocate. rewrite Ea, Ec. eexists _, _. split; [done|]. split; [done|]. split; [done|].
  cbn [Obj.storage Obj.layout Obj.class_name Obj.display_name Obj.dynamic_debug_labels Obj.layouts Obj.next_object_id].
  rewrite El. split; [|split; [|by split_and!]].
  - split; [done|]. split; [done|]. split; [done|]. split; [constructor|]. cbn [Obj.dynamic_properties Obj.dynamic_order].
    split; [|by intros n [? E]; rewrite lookup_empty in E].
    intros n. split; [by intros ?%elem_of_nil|by intros [? E]; rewrite lookup_empty in E].
  - unfold abs, initial. cbn [Obj.layout Obj.declared_slots]. f_equal. rewrite <- Hs. by apply zip_defaults.
Qed.
Lemma new_ok class display h : layouts_ok (Obj.layouts h) -> room (Obj.layouts h) -> id_room h ->
  exists address h', Obj.new_with_display_name class display h = Ret (address, h') /\ object_at h' address (initial class display) /\
    same_elsewhere address h h' /\ address = Obj.next_address h.
Proof.
  intros Hl Hr Hid. destruct (new_cell class display h Hl Hr Hid) as (cell & h' & E & Ec & _ & Hok & Habs & _).
  exists (Obj.next_address h), h'. split; [done|]. split; [|split; [|done]].
  - exists cell. rewrite Ec, lookup_insert_eq. done.
  - intros a Ha. by rewrite Ec, lookup_insert_ne.
Qed.
End Programs.



(** ** Numbers of objects *)

Section Numbers.
Context {C : Type}.
Implicit Types h : Obj.Heap (C := C).

(** The steps of a program on its objects. *)
Inductive heap_step : Obj.Heap (C := C) -> Obj.Heap (C := C) -> Prop :=
| step_new class display address h h' : Obj.new_with_display_name class display h = Ret (address, h') -> heap_step h h'
| step_template class display slots address h h' : Obj.from_layout_slots class display slots h = Ret (address, h') -> heap_step h h'
| step_native class display slots address h h' : Obj.from_layout_native_slots class display slots h = Ret (address, h') -> heap_step h h'
| step_clone address address' h h' : Obj.clone_shallow address h = Ret (address', h') -> heap_step h h'
| step_set address name value h h' : Obj.set_property address name value h = Ret h' -> heap_step h h'
| step_unset address name b h h' : Obj.unset_property address name h = Ret (b, h') -> heap_step h h'
| step_release address h h' : Obj.release_php_handle address h = Ret h' -> heap_step h h'
| step_drop address h h' : Obj.drop_cell address h = Ret h' -> heap_step h h'.

Definition no_objects : Obj.Heap (C := C) := Obj.mk_heap no_layouts 1 [] ∅ 0.
Definition reachable : Obj.Heap -> Prop := clos_refl_trans_n1 _ heap_step no_objects.

(** The number that the cell at an address holds. *)
Definition holds h (address id : N) : Prop :=
  exists cell, Obj.object_cells h !! address = Some cell /\ Obj.id_guard (Obj.storage cell) = Some id.

Record numbers_ok h : Prop := {
  held_ok : forall a cell id, Obj.object_cells h !! a = Some cell -> Obj.id_guard (Obj.storage cell) = Some id ->
    id = Obj.cell_id cell /\ (0 < id < Obj.next_object_id h)%N /\ id ∉ Obj.free_object_ids h;
  held_once : forall a b id, holds h a id -> holds h b id -> a = b;
  free_ok : NoDup (Obj.free_object_ids h) /\ forall id, id ∈ Obj.free_object_ids h -> (0 < id < Obj.next_object_id h)%N;
  fresh_address : forall a, (Obj.next_address h <= a)%N -> Obj.object_cells h !! a = None;
  next_positive : (0 < Obj.next_object_id h)%N }.

(** A number that nobody has. *)
Lemma take_id_numbers h id h' : numbers_ok h -> Obj.take_object_id h = Ret (id, h') ->
  numbers_ok h' /\ (0 < id < Obj.next_object_id h')%N /\ id ∉ Obj.free_object_ids h' /\ (forall a, ~ holds h' a id) /\
  Obj.object_cells h' = Obj.object_cells h.
Proof.
  intros [Hheld Honce [Hnd Hfree] Hfresh Hpos]. unfold Obj.take_object_id.
  destruct (rev (Obj.free_object_ids h)) as [|i rest] eqn:Er.
  - apply (f_equal (@rev N)) in Er. rewrite rev_involutive in Er. cbn in Er. rewrite Er in *.
    destruct (N.ltb_spec (Obj.next_object_id h + 1) Obj.U64); [|done]. intros [= <- <-].
    assert (forall a, ~ holds h a (Obj.next_object_id h)) as Hno.
    { intros a (cell & Hc & Hg). destruct (Hheld _ _ _ Hc Hg) as (_ & ? & _). lia. }
    split; [|split; [cbn; lia|split; [cbn; set_solver|split; [exact Hno|done]]]]. split; cbn; try done.
    + intros a cell j Hc Hg. destruct (Hheld _ _ _ Hc Hg) as (? & ? & ?). split; [done|]. split; [lia|set_solver].
    + split; [constructor|set_solver].
    + lia.
  - apply (f_equal (@rev N)) in Er. rewrite rev_involutive in Er. cbn in Er. intros [= <- <-].
    rewrite Er in *. apply NoDup_app in Hnd as (Hnd & Hni & _).
    assert (i ∉ rev rest) as Hi. { intros Hin. apply (Hni i Hin). left. }
    assert (forall a, ~ holds h a i) as Hno.
    { intros a (cell & Hc & Hg). destruct (Hheld _ _ _ Hc Hg) as (_ & _ & Hn). apply Hn. apply elem_of_app. right. left. }
    split; [|split; [apply Hfree; apply elem_of_app; right; left|split; [done|split; [exact Hno|done]]]].
    split; cbn; try done.
    + intros a cell j Hc Hg. destruct (Hheld _ _ _ Hc Hg) as (? & ? & Hn). split; [done|]. split; [done|].
      intros Hin. apply Hn. apply elem_of_app. by left.
    + split; [done|]. intros j Hj. apply Hfree. apply elem_of_app. by left.
Qed.

Lemma allocate_numbers h id cell : numbers_ok h -> (0 < id < Obj.next_object_id h)%N -> id ∉ Obj.free_object_ids h ->
  (forall a, ~ holds h a id) -> Obj.cell_id cell = id -> Obj.id_guard (Obj.storage cell) = Some id ->
  numbers_ok (snd (Obj.allocate cell h)).
Proof.
  intros [Hheld Honce Hfree Hfresh Hpos] Hid Hnf Hno Ecell Eg.
  assert (forall a c, <[Obj.next_address h := cell]> (Obj.object_cells h) !! a = Some c ->
    (a = Obj.next_address h /\ c = cell) \/ (a <> Obj.next_address h /\ Obj.object_cells h !! a = Some c)) as Hcases.
  { intros a c Hc. destruct (decide (a = Obj.next_address h)) as [->|Hne].
    - rewrite lookup_insert_eq in Hc. injection Hc as <-. by left.
    - rewrite lookup_insert_ne in Hc by done. by right. }
  split; cbn; try done.
  - intros a c j Hc Hg. apply Hcases in Hc as [[-> ->]|[_ Hc]]; [|by eapply Hheld]. assert (j = id) as -> by congruence. done.
  - intros a b j (c & Hc & Hg) (c' & Hc' & Hg'). cbn in Hc, Hc'.
    apply Hcases in Hc as [[-> ->]|[_ Hc]]; apply Hcases in Hc' as [[-> ->]|[_ Hc']]; [done|..].
    + assert (j = id) as -> by congruence. exfalso. apply (Hno b). by exists c'.
    + assert (j = id) as -> by congruence. exfalso. apply (Hno a). by exists c.
    + apply (Honce a b j); [by exists c|by exists c'].
  - intros a Ha. rewrite lookup_insert_ne by lia. apply Hfresh. lia.
Qed.

Lemma with_layouts_numbers h ls : numbers_ok h -> numbers_ok (Obj.with_layouts h ls).
Proof. by intros []. Qed.

(** A cell is replaced by one that holds the same number or none. *)
Lemma put_numbers h address cell cell' : numbers_ok h -> Obj.object_cells h !! address = Some cell ->
  Obj.cell_id cell' = Obj.cell_id cell -> (forall id, Obj.id_guard (Obj.storage cell') = Some id -> Obj.id_guard (Obj.storage cell) = Some id) ->
  numbers_ok (Obj.put_cell address cell' h).
Proof.
  intros [Hheld Honce Hfree Hfresh Hpos] Hcell Eid Hg'.
  assert (forall a c id, <[address := cell']> (Obj.object_cells h) !! a = Some c -> Obj.id_guard (Obj.storage c) = Some id ->
    exists c0, Obj.object_cells h !! a = Some c0 /\ Obj.id_guard (Obj.storage c0) = Some id /\ Obj.cell_id c0 = Obj.cell_id c) as Hback.
  { intros a c id Hc Hg. destruct (decide (a = address)) as [->|Hne].
    - rewrite lookup_insert_eq in Hc. injection Hc as <-. exists cell. auto.
    - rewrite lookup_insert_ne in Hc by done. by exists c. }
  split; cbn; try done.
  - intros a c id Hc Hg. destruct (Hback a c id Hc Hg) as (c0 & H0 & Hg0 & E0). destruct (Hheld _ _ _ H0 Hg0) as (-> & ? & ?). done.
  - intros a b id (c & Hc & Hg) (c' & Hc' & Hgc'). destruct (Hback a c id Hc Hg) as (c0 & H0 & Hg0 & _).
    destruct (Hback b c' id Hc' Hgc') as (c1 & H1 & Hg1 & _). apply (Honce a b id); [by exists c0|by exists c1].
  - intros a Ha. destruct (decide (a = address)) as [->|Hne]; [|rewrite lookup_insert_ne by done; by apply Hfresh].
    rewrite Hfresh in Hcell by done. done.
Qed.

(** A number that nobody holds is given back. *)
Lemma drop_guard_numbers h guard : numbers_ok h ->
  (forall id, guard = Some id -> (0 < id < Obj.next_object_id h)%N /\ id ∉ Obj.free_object_ids h /\ forall a, ~ holds h a id) ->
  numbers_ok (Obj.drop_guard guard h).
Proof.
  intros [Hheld Honce [Hnd Hfree] Hfresh Hpos] Hg. destruct guard as [id|]; [|by split]. destruct (Hg id eq_refl) as (Hid & Hnf & Hno).
  split; cbn; try done.
  - intros a c j Hc Hgc. destruct (Hheld _ _ _ Hc Hgc) as (? & ? & ?). split; [done|]. split; [done|].
    rewrite elem_of_app, list_elem_of_singleton. intros [ | -> ]; [done|]. apply (Hno a). by exists c.
  - split.
    + apply NoDup_app. split_and!; [done|set_solver|apply NoDup_singleton].
    + intros j. rewrite elem_of_app, list_elem_of_singleton. intros [ | -> ]; auto.
Qed.

Lemma delete_numbers h address cell : numbers_ok h -> Obj.object_cells h !! address = Some cell ->
  numbers_ok (Obj.mk_heap (Obj.layouts h) (Obj.next_object_id h) (Obj.free_object_ids h) (delete address (Obj.object_cells h)) (Obj.next_address h)).
Proof.
  intros [Hheld Honce Hfree Hfresh Hpos] Hcell. split; cbn; try done.
  - intros a c id Hc. apply lookup_delete_Some in Hc as [_ Hc]. by apply (Hheld a).
  - intros a b id (c & Hc & Hg) (c' & Hc' & Hg'). cbn in Hc, Hc'. apply lookup_delete_Some in Hc as [_ Hc], Hc' as [_ Hc'].
    apply (Honce a b id); [by exists c|by exists c'].
  - intros a Ha. apply lookup_delete_None. right. by apply Hfresh.
Qed.

(** What a cell holds is held by no other. *)
Lemma guard_once h address cell id a c : numbers_ok h -> Obj.object_cells h !! address = Some cell ->
  Obj.id_guard (Obj.storage cell) = Some id -> Obj.object_cells h !! a = Some c -> a <> address -> Obj.id_guard (Obj.storage c) <> Some id.
Proof. intros Hok Hc Hg Ha Hne E. apply Hne. apply (held_once _ Hok a address id); [by exists c|by exists cell]. Qed.

Lemma assemble_numbers class display l slots native h address h' : numbers_ok h ->
  Obj.assemble_with_slots class display l slots native h = Ret (address, h') -> numbers_ok h'.
Proof.
  intros Hok. unfold Obj.assemble_with_slots. destruct (Obj.take_object_id h) as [[id h1]| |] eqn:Et; [|done..]. cbn [obind].
  destruct (take_id_numbers h id h1 Hok Et) as (Hok1 & Hid & Hnf & Hno & _). intros [= <- <-].
  apply (allocate_numbers h1 id _ Hok1 Hid Hnf Hno); done.
Qed.

Lemma cell_at_inv {A} h address (k : Obj.ObjectCell -> outcome A) r : (olet cell := Obj.cell_at h address in k cell) = Ret r ->
  exists cell, Obj.object_cells h !! address = Some cell /\ k cell = Ret r.
Proof. unfold Obj.cell_at. destruct (Obj.object_cells h !! address) as [cell|]; [|done]. cbn [obind]. eauto. Qed.
Lemma obind_inv {A B} (m : outcome A) (k : A -> outcome B) r : obind m k = Ret r -> exists a, m = Ret a /\ k a = Ret r.
Proof. destruct m; cbn; [eauto|done..]. Qed.

Lemma set_guard (s s' : Obj.ObjectStorage (C := C)) n v : Obj.set s n v = Ret s' -> Obj.id_guard s' = Obj.id_guard s.
Proof.
  unfold Obj.set. destruct (Obj.slot_of s n); [|by intros [= <-]]. intros (l & _ & [= <-])%obind_inv. done.
Qed.
Lemma unset_guard (s s' : Obj.ObjectStorage (C := C)) n b : Obj.unset s n = Ret (b, s') -> Obj.id_guard s' = Obj.id_guard s.
Proof.
  unfold Obj.unset. destruct (Obj.slot_of s n).
  - intros ([v|] & _ & H)%obind_inv; [|by injection H as _ <-]. apply obind_inv in H as (l & _ & [= _ <-]). done.
  - destruct (Obj.dynamic_properties s !! n); by intros [= _ <-].
Qed.

Lemma step_numbers h h' : numbers_ok h -> heap_step h h' -> numbers_ok h'.
Proof.
  intros Hok Hs. destruct Hs as [class display address h h' E|class display slots address h h' E|class display slots address h h' E
    |address address' h h' E|address name value h h' E|address name b h h' E|address h h' E|address h h' E].
  - apply obind_inv in E as ([l ls] & _ & (slots & _ & E)%obind_inv). eapply assemble_numbers; [|exact E]. by apply with_layouts_numbers.
  - apply obind_inv in E as ([l ls] & _ & E). cbn beta iota in E. destruct (_ =? _)%nat; [|done].
    eapply assemble_numbers; [|exact E]. by apply with_layouts_numbers.
  - apply obind_inv in E as ([l ls] & _ & E). cbn beta iota in E. destruct (_ =? _)%nat; [|done].
    eapply assemble_numbers; [|exact E]. by apply with_layouts_numbers.
  - apply cell_at_inv in E as (cell & _ & E). apply obind_inv in E as ([id h1] & Et & [= <- <-]).
    destruct (take_id_numbers h id h1 Hok Et) as (Hok1 & Hid & Hnf & Hno & _). apply (allocate_numbers h1 id _ Hok1 Hid Hnf Hno); done.
  - apply cell_at_inv in E as (cell & Hc & (s & Es & [= <-])%obind_inv). apply (put_numbers h address cell); [done..|].
    cbn. by rewrite (set_guard _ _ _ _ Es).
  - apply cell_at_inv in E as (cell & Hc & ([b' s] & Es & [= <- <-])%obind_inv). apply (put_numbers h address cell); [done..|].
    cbn. by rewrite (unset_guard _ _ _ _ Es).
  - apply cell_at_inv in E as (cell & Hc & [= <-]).
    apply drop_guard_numbers; [by apply (put_numbers h address cell)|]. intros id Hg. destruct (held_ok _ Hok _ _ _ Hc Hg) as (_ & ? & ?).
    split; [done|]. split; [done|]. intros a (c & Ha & Hgc). cbn in Ha. destruct (decide (a = address)) as [->|Hne].
    + rewrite lookup_insert_eq in Ha. injection Ha as <-. done.
    + rewrite lookup_insert_ne in Ha by done. by apply (guard_once h address cell id a c).
  - apply cell_at_inv in E as (cell & Hc & [= <-]).
    apply drop_guard_numbers; [by apply (delete_numbers h address cell)|]. intros id Hg. destruct (held_ok _ Hok _ _ _ Hc Hg) as (_ & ? & ?).
    split; [done|]. split; [done|]. intros a (c & Ha & Hgc). cbn in Ha. apply lookup_delete_Some in Ha as [Hne Ha].
    apply (guard_once h address cell id a c); congruence.
Qed.

Lemma no_objects_ok : numbers_ok no_objects.
Proof.
  split; cbn; try done.
  - intros a b id (c & Hc & _). cbn in Hc. by rewrite lookup_empty in Hc.
  - split; [constructor|set_solver].
Qed.
Lemma reachable_numbers h : reachable h -> numbers_ok h.
Proof. induction 1 as [|h h' Hs _ IH]; [apply no_objects_ok|by eapply step_numbers]. Qed.
End Numbers.

(** C30: the numbers of objects: in every state that creating, cloning, writing,
    releasing and dropping objects reaches, two objects that hold their numbers
    have different ones, so comparing the numbers compares the objects; no held
    number waits to be given out again, and the next object gets a number that
    nobody holds. *)
Theorem object_numbers {C} (h : Obj.Heap (C := C)) a b i j : reachable h -> holds h a i -> holds h b j ->
  (i = j <-> a = b) /\ Obj.object_eq h a b = Ret (bool_decide (a = b)) /\ i ∉ Obj.free_object_ids h /\
  (forall id h', Obj.take_object_id h = Ret (id, h') -> id <> i /\ id <> j).
Proof.
  intros Hr%reachable_numbers (c & Hc & Hg) (c' & Hc' & Hg').
  destruct (held_ok _ Hr _ _ _ Hc Hg) as (Ei & _ & Hnf). destruct (held_ok _ Hr _ _ _ Hc' Hg') as (Ej & _ & _).
  assert (i = j <-> a = b) as Hiff.
  { split; [intros <-; apply (held_once _ Hr a b i); [by exists c|by exists c']|intros <-; congruence]. }
  split; [done|]. split; [|split; [done|]].
  - unfold Obj.object_eq, Obj.cell_at. rewrite Hc, Hc'. cbn [obind]. rewrite <- Ei, <- Ej. f_equal.
    case_bool_decide as E; [by rewrite (proj2 (N.eqb_eq i j)) by (by apply Hiff)|]. apply N.eqb_neq. by rewrite Hiff.
  - intros id h' Ht. destruct (take_id_numbers h id h' Hr Ht) as (_ & _ & _ & Hno & Ecells).
    split; intros ->; [apply (Hno a); exists c|apply (Hno b); exists c']; by rewrite Ecells.
Qed.

(** ** Witnesses *)

Definition plain_flags : Obj.ClassPropertyFlags := Obj.mk_property_flags false false false false false false false.
Definition protected_flags : Obj.ClassPropertyFlags := Obj.mk_property_flags false false true false false false false.
Definition plain_hooks : Obj.ClassPropertyHooks := Obj.mk_property_hooks None None false.
Definition a_property (name : string) (flags : Obj.ClassPropertyFlags) (v : Value unit) : Obj.ClassPropertyEntry :=
  Obj.mk_property_entry (lit name) v flags plain_hooks.
(** [class Point { public $x = 1; protected $y = 2; }] *)
Definition point_class : Obj.ClassEntry (C := unit) :=
  Obj.mk_class_entry (lit "point") [] [] [a_property "x" plain_flags (Int 1); a_property "y" protected_flags (Int 2)] None Obj.no_flags.
Definition point_ops : list (property_op (C := unit)) :=
  [PUnset (lit "x"); PSet (lit "d") (Int 5); PSet (lit "e") (Int 6); PUnset (lit "d"); PSet (lit "d") (Int 7); PSet (lit "x") (Int 8); PAll].


(** [class P { public $x = 1; }] *)
Definition visible_class : Obj.ClassEntry (C := unit) := Obj.mk_class_entry (lit "p") [] [] [a_property "x" plain_flags (Int 1)] None Obj.no_flags.

(** A class without properties. *)
Definition bare_class : Obj.ClassEntry (C := unit) := Obj.mk_class_entry (lit "p") [] [] [] None Obj.no_flags.
Definition one_heap : Obj.Heap (C := unit) := match Obj.new bare_class no_objects with Ret (_, h) => h | _ => no_objects end.
Definition two_heap : Obj.Heap (C := unit) := match Obj.clone_shallow 0 one_heap with Ret (_, h) => h | _ => no_objects end.

(** Runs are checked without writing out their heaps. *)
Lemma returned {A} (o : outcome (N * A)) d n :
  match o with Ret (x, _) => (x =? n)%N | _ => false end = true -> o = Ret (n, match o with Ret (_, h) => h | _ => d end).
Proof. destruct o as [[x h]| |]; try done. by intros ->%N.eqb_eq. Qed.
Lemma holds_check {C} (h : Obj.Heap (C := C)) a id :
  match Obj.object_cells h !! a with Some cell => bool_decide (Obj.id_guard (Obj.storage cell) = Some id) | None => false end = true -> holds h a id.
Proof. unfold holds. destruct (Obj.object_cells h !! a) as [cell|]; [|done]. intros H%bool_decide_eq_true. by exists cell. Qed.

Lemma object_numbers_witness : Obj.object_eq two_heap 0 1 = Ret false.
Proof.
  assert (reachable two_heap) as Hr.
  { apply (rtn1_trans _ _ _ one_heap); [apply (step_clone 0%N 1%N), returned; vm_compute; reflexivity|].
    apply (rtn1_trans _ _ _ no_objects); [|apply rtn1_refl]. apply (step_new bare_class (lit "p") 0%N), returned. vm_compute. reflexivity. }
  assert (holds two_heap 0 1) as H1 by (apply holds_check; vm_compute; reflexivity).
  assert (holds two_heap 1 2) as H2 by (apply holds_check; vm_compute; reflexivity).
  destruct (object_numbers two_heap 0 1 1 2 Hr H1 H2) as (_ & E & _). exact E.
Defined.

(** A released number goes to the next object, and the two compare equal. *)
Example released_number :
  (olet (a, h) := Obj.new bare_class no_objects in
   olet h := Obj.release_php_handle a h in
   olet (b, h) := Obj.new bare_class h in Obj.object_eq h a b) = Ret true.
Proof. vm_compute. reflexivity. Qed.
