(* ===== verification/ObjectNative.v ===== *)
(** * ObjectNative: the native representation of properties

    While generated code works on an object its properties are native cells, the
    dynamic ones with an insertion order and tombstones.  Promotion, writes and
    demotion do what the same writes do on the Rust representation. *)

From Stdlib Require Import Strings.String Strings.Byte ZArith.
From stdpp Require Import base list option numbers gmap fin_maps sorting.
From S2P Require Import Prelude RustStd RustNum RustText PhpString PhpArray Convert Names IrConst Objects ObjectProofs.

Section Native.
Context {C : Type}.
Implicit Types (s : Obj.ObjectStorage (C := C)) (m : gmap bytes Obj.NativeDynamicPropertyCell).

(** ** Insertion orders *)

Definition live m (n : bytes) : option Obj.NativeDynamicPropertyCell := c ← m !! n; if Obj.active c then Some c else None.
Definition order_of m (n : bytes) : N := match m !! n with Some c => Obj.insertion_order c | None => 0 end.
Definition before m (n n' : bytes) : Prop := (order_of m n < order_of m n')%N.
Definition orders_distinct m : Prop := forall n n', is_Some (live m n) -> is_Some (live m n') -> order_of m n = order_of m n' -> n = n'.

(** The live names in the order of their insertion. *)
Definition ordered m (names : list bytes) : Prop := (forall n, n ∈ names <-> is_Some (live m n)) /\ StronglySorted (before m) names.

Lemma sorted_NoDup m names : StronglySorted (before m) names -> NoDup names.
Proof.
  induction 1 as [|n names Hs IH Hall]; [constructor|]. constructor; [|done]. intros Hin.
  rewrite Forall_forall in Hall. specialize (Hall n Hin). unfold before in Hall. lia.
Qed.
Lemma ordered_unique m l l' : ordered m l -> ordered m l' -> l = l'.
Proof.
  intros [H1 S1] [H2 S2]. assert (AntiSymm (=) (before m)) by (intros x y Hx Hy; unfold before in *; lia).
  apply (StronglySorted_unique (before m)); [done..|].
  apply NoDup_Permutation; [by eapply sorted_NoDup..|]. intros n. by rewrite H1, H2.
Qed.

Lemma live_elem m n c : (n, c) ∈ Obj.active_cells m <-> live m n = Some c.
Proof.
  unfold Obj.active_cells, live. rewrite list_elem_of_In, filter_In, <- list_elem_of_In, elem_of_map_to_list. cbn.
  destruct (m !! n) as [d|]; cbn; [|by split; [intros [? _]|]]. destruct (Obj.active d) eqn:Ed; split; try done.
  - by intros [[= ->] _].
  - by intros [= ->].
  - intros [[= ->] ?]. congruence.
Qed.
Lemma active_NoDup m : NoDup (Obj.active_cells m).*1.
Proof.
  unfold Obj.active_cells. pose proof (NoDup_fst_map_to_list m) as H. induction (map_to_list m) as [|p l IH]; [constructor|].
  cbn in H |- *. apply NoDup_cons in H as [Hp Hl]. destruct (Obj.active p.2); [|by apply IH]. cbn. constructor; [|by apply IH].
  intros (q & E & Hq)%list_elem_of_fmap. apply Hp. rewrite E. apply list_elem_of_fmap. exists q. split; [done|].
  apply list_elem_of_In in Hq. apply filter_In in Hq as [Hq _]. by apply list_elem_of_In.
Qed.

#[local] Instance order_le_total : Total Obj.order_le.
Proof. intros p q. unfold Obj.order_le. lia. Qed.
#[local] Instance order_le_trans : Transitive Obj.order_le.
Proof. intros p q r. unfold Obj.order_le. lia. Qed.

Lemma native_order_ordered m : orders_distinct m -> ordered m (Obj.native_order m).
Proof.
  intros Hd. unfold Obj.native_order. set (l := merge_sort Obj.order_le (Obj.active_cells m)).
  assert (l ≡ₚ Obj.active_cells m) as Hp by apply merge_sort_Permutation.
  assert (forall n c, (n, c) ∈ l <-> live m n = Some c) as Hl. { intros n c. rewrite Hp. apply live_elem. }
  split.
  - intros n. rewrite list_elem_of_fmap. split.
    + intros ([n' c] & -> & Hin). apply Hl in Hin. cbn. by rewrite Hin.
    + intros [c Hc]. exists (n, c). split; [done|]. by apply Hl.
  - assert (NoDup l.*1) as Hnd. { rewrite Hp. apply active_NoDup. }
    pose proof (StronglySorted_merge_sort Obj.order_le (Obj.active_cells m)) as Hs. fold l in Hs.
    assert (forall n c, (n, c) ∈ l -> live m n = Some c) as Hl' by (intros; by apply Hl). clear Hl Hp. clearbody l.
    induction Hs as [|[n c] l Hs IH Hall]; [constructor|]. cbn in Hnd |- *. apply NoDup_cons in Hnd as [Hn Hnd].
    constructor; [apply IH; [done|intros; apply Hl'; by right]|].
    apply Forall_forall. rewrite Forall_forall in Hall. intros n' ([n'' c'] & -> & Hin)%list_elem_of_fmap. specialize (Hall _ Hin). cbn.
    assert (live m n = Some c) as E by (apply Hl'; left). assert (live m n'' = Some c') as E' by (apply Hl'; by right).
    assert (order_of m n = Obj.insertion_order c /\ order_of m n'' = Obj.insertion_order c') as [O O'].
    { unfold live, order_of in *. destruct (m !! n), (m !! n''); cbn in E, E'; try done.
      repeat case_match; try done. by injection E as ->; injection E' as ->. }
    unfold before, Obj.order_le in *. cbn in Hall. rewrite O, O'. enough (Obj.insertion_order c <> Obj.insertion_order c') by lia.
    intros Eo. apply Hn. apply list_elem_of_fmap. exists (n'', c'). split; [|done]. cbn. apply Hd; [by rewrite E|by rewrite E'|congruence].
Qed.
Lemma native_order_is m l : ordered m l -> Obj.native_order m = l.
Proof.
  intros Hl. apply (ordered_unique m); [|done]. apply native_order_ordered. intros n n' Hn Hn' E.
  destruct Hl as [Hin Hs]. apply Hin in Hn, Hn'. destruct (decide (n = n')) as [|Hne]; [done|]. exfalso.
  apply list_elem_of_lookup in Hn as [i Hi], Hn' as [j Hj]. assert (i <> j) as Hij by congruence.
  assert (forall i j a b, i < j -> l !! i = Some a -> l !! j = Some b -> before m a b) as Hlt.
  { clear -Hs. induction Hs as [|x l Hs IH Hall]; [done|]. intros [|i] [|j] a b Hij Ha Hb; try lia; cbn in Ha, Hb.
    - injection Ha as ->. rewrite Forall_forall in Hall. apply Hall. by eapply list_elem_of_lookup_2.
    - eapply IH; [|done..]. lia. }
  unfold before in Hlt. destruct (Nat.lt_ge_cases i j) as [H|H].
  - specialize (Hlt i j n n' H Hi Hj). lia.
  - specialize (Hlt j i n' n ltac:(lia) Hj Hi). lia.
Qed.

(** ** Operations on native dynamic properties *)

Lemma live_insert m n c k : live (<[n := c]> m) k = if bytes_eqb k n then (if Obj.active c then Some c else None) else live m k.
Proof.
  unfold live. destruct (bytes_eqb_spec k n) as [->|Hne]; [by rewrite lookup_insert_eq|by rewrite lookup_insert_ne].
Qed.
Lemma live_insert_eq m n c : live (<[n := c]> m) n = if Obj.active c then Some c else None.
Proof. rewrite live_insert. by rewrite (proj2 (bytes_eqb_true n n)). Qed.
Lemma live_insert_ne m n c k : k <> n -> live (<[n := c]> m) k = live m k.
Proof. intros H. rewrite live_insert. by rewrite (proj2 (bytes_eqb_false k n)). Qed.
Lemma order_insert m n c k : order_of (<[n := c]> m) k = if bytes_eqb k n then Obj.insertion_order c else order_of m k.
Proof.
  unfold order_of. destruct (bytes_eqb_spec k n) as [->|Hne]; [by rewrite lookup_insert_eq|by rewrite lookup_insert_ne].
Qed.

Record native_ok s (slots : list Obj.NativeDeclaredPropertySlot) m (clock : N) (names : list bytes) : Prop := {
  n_layout : layout_ok (Obj.layout s);
  n_rust : Obj.no_rust s = true;
  n_slots : Obj.native_declared_slots s = Some slots;
  n_aligned : length slots = length (Obj.slot_names (Obj.layout s));
  n_dynamic : Obj.native_dynamic_properties s = Some m;
  n_clock : Obj.native_dynamic_next_order s = Some clock;
  n_ordered : ordered m names;
  n_below : forall n, n ∈ names -> (order_of m n < clock)%N;
  n_undeclared : forall n, n ∈ names -> Obj.slot_of s n = None }.

Definition slot_value (d : Obj.NativeDeclaredPropertySlot) : option Obj.NativeDeclaredPropertySlot :=
  if Obj.active_slot d then Some d else None.
Definition live_slot m (n : bytes) : option Obj.NativeDeclaredPropertySlot := Obj.cell_slot <$> live m n.
(** The properties that native cells stand for. *)
Definition native_abs s (slots : list Obj.NativeDeclaredPropertySlot) m (names : list bytes) : Properties Obj.NativeDeclaredPropertySlot :=
  mk_properties (zip (Obj.slot_names (Obj.layout s)) (slot_value <$> slots)) (entries (live_slot m) names).

Lemma names_live m names n : ordered m names -> n ∈ names <-> is_Some (live_slot m n).
Proof. intros [H _]. rewrite H. unfold live_slot. by rewrite fmap_is_Some. Qed.
Lemma native_assoc m names n : ordered m names -> assoc (entries (live_slot m) names) n = live_slot m n.
Proof. intros H. apply entries_assoc; [eapply sorted_NoDup; apply H|]. intros k. by apply names_live. Qed.
Lemma native_undeclared s slots m clock names n : native_ok s slots m clock names -> Obj.slot_of s n = None ->
  assoc (declared (native_abs s slots m names)) n = None.
Proof.
  intros [Hl _ _ Hlen _ _ _ _ _] Hn. apply assoc_None. cbn. rewrite zip_names by (by rewrite length_fmap). by apply slot_of_None.
Qed.
Lemma native_ready s slots m clock names : native_ok s slots m clock names -> Obj.native_dynamic_ready s (Obj.layout_id (Obj.layout s)) = true.
Proof. intros [_ Hr Hs _ _ _ _ _ _]. unfold Obj.native_dynamic_ready. by rewrite N.eqb_refl, Hs, Hr. Qed.

Lemma native_get_spec s slots m clock names n : native_ok s slots m clock names -> Obj.slot_of s n = None ->
  Obj.native_dynamic_property_slot s (Obj.layout_id (Obj.layout s)) n = Some (spec_get (native_abs s slots m names) n).
Proof.
  intros Hok Hn. unfold Obj.native_dynamic_property_slot. rewrite (native_ready _ _ _ _ _ Hok). cbn [negb].
  rewrite (n_dynamic _ _ _ _ _ Hok). unfold spec_get. rewrite (native_undeclared _ _ _ _ _ _ Hok Hn).
  cbn [dynamic native_abs]. rewrite native_assoc by apply Hok. unfold live_slot, live. cbn. f_equal.
  destruct (m !! n) as [c|]; [|done]. cbn. by destruct (Obj.active c).
Qed.

Lemma sorted_ext m m' names : StronglySorted (before m) names -> (forall k, k ∈ names -> order_of m' k = order_of m k) ->
  StronglySorted (before m') names.
Proof.
  induction 1 as [|n names Hs IH Hall]; intros He; [constructor|]. constructor; [apply IH; intros k Hk; apply He; by right|].
  apply Forall_forall. rewrite Forall_forall in Hall. intros k Hk. unfold before. rewrite !He by (by left || by right). by apply Hall.
Qed.
Lemma sorted_without m names n : StronglySorted (before m) names -> StronglySorted (before m) (Obj.without n names).
Proof.
  induction 1 as [|k names Hs IH Hall]; [constructor|]. cbn. destruct (negb _); [|done]. constructor; [done|].
  apply Forall_forall. rewrite Forall_forall in Hall. intros j [Hj _]%without_elem. by apply Hall.
Qed.

(** A live cell is written in place. *)
Lemma ordered_replace m names n c : ordered m names -> is_Some (live m n) -> Obj.active c = true -> Obj.insertion_order c = order_of m n ->
  ordered (<[n := c]> m) names.
Proof.
  intros [Hin Hs] Hn Hc Ho. assert (forall k, order_of (<[n := c]> m) k = order_of m k) as Hord.
  { intros k. rewrite order_insert. by destruct (bytes_eqb_spec k n) as [->|]. }
  split.
  - intros k. rewrite Hin, live_insert, Hc. by destruct (bytes_eqb_spec k n) as [->|].
  - apply (sorted_ext m); [done|]. intros k _. apply Hord.
Qed.
(** A new cell comes last. *)
Lemma ordered_append m names n c : ordered m names -> live m n = None -> Obj.active c = true ->
  (forall k, k ∈ names -> (order_of m k < Obj.insertion_order c)%N) -> ordered (<[n := c]> m) (names ++ [n]).
Proof.
  intros [Hin Hs] Hn Hc Hlt. assert (n ∉ names) as Hnew. { rewrite Hin, Hn. by intros []. }
  assert (forall k, k ∈ names -> order_of (<[n := c]> m) k = order_of m k) as Hord.
  { intros k Hk. rewrite order_insert. destruct (bytes_eqb_spec k n) as [->|]; done. }
  split.
  - intros k. rewrite elem_of_app, list_elem_of_singleton, Hin, live_insert, Hc.
    destruct (bytes_eqb_spec k n) as [->|Hne]; [|naive_solver]. rewrite Hn. split; [eauto|by right].
  - apply StronglySorted_app. split_and!; [|by apply (sorted_ext m)|repeat constructor].
    intros x y Hx ->%list_elem_of_singleton. unfold before. rewrite Hord by done. rewrite order_insert.
    rewrite (proj2 (bytes_eqb_true n n)) by done. by apply Hlt.
Qed.
(** A tombstone leaves the order. *)
Lemma ordered_remove m names n c : ordered m names -> Obj.active c = false -> ordered (<[n := c]> m) (Obj.without n names).
Proof.
  intros [Hin Hs] Hc. split.
  - intros k. rewrite without_elem, Hin, live_insert, Hc. destruct (bytes_eqb_spec k n) as [->|Hne]; [|naive_solver].
    split; [by intros []|by intros []].
  - apply (sorted_ext m); [by apply sorted_without|]. intros k [_ Hk]%without_elem. rewrite order_insert.
    by rewrite (proj2 (bytes_eqb_false k n)).
Qed.

Lemma native_set_spec s slots m clock names n value : native_ok s slots m clock names -> Obj.slot_of s n = None ->
  Obj.active_slot value = true -> (clock + 1 < Obj.U64)%N ->
  exists s' m' clock' names', Obj.set_native_dynamic_property s (Obj.layout_id (Obj.layout s)) n value =
      Ret (Some (spec_get (native_abs s slots m names) n), s') /\
    native_ok s' slots m' clock' names' /\ Obj.layout s' = Obj.layout s /\ (clock' <= clock + 1)%N /\
    native_abs s' slots m' names' = spec_set (native_abs s slots m names) n value.
Proof.
  intros Hok Hn Hv Hc. pose proof Hok as [Hl Hr Hs Hlen Hd Hk Hord Hlt Hun].
  unfold Obj.set_native_dynamic_property. rewrite (native_ready _ _ _ _ _ Hok), Hn, Hk, Hd. cbn [negb orb].
  rewrite bool_decide_eq_false_2 by (by intros []). unfold spec_get, spec_set. rewrite (native_undeclared _ _ _ _ _ _ Hok Hn).
  cbn [dynamic declared native_abs]. rewrite native_assoc by done.
  assert (Obj.saturating_succ clock = clock + 1)%N as Esat.
  { unfold Obj.saturating_succ. destruct (N.eqb_spec clock (Obj.U64 - 1)); [lia|done]. }
  destruct (live m n) as [c|] eqn:El.
  - assert (m !! n = Some c /\ Obj.active c = true) as [En Ea].
    { unfold live in El. destruct (m !! n) as [d|]; [|done]. cbn in El. destruct (Obj.active d) eqn:Ed; [|done]. by injection El as ->. }
    rewrite En. change (default _ (Some c)) with c. cbv zeta. rewrite Ea. unfold live_slot. rewrite El. cbn [fmap option_fmap option_map].
    eexists _, (<[n := Obj.mk_native_cell value (Obj.insertion_order c)]> m), clock, names. split; [done|].
    split; [|split; [done|split; [lia|]]].
    + split; try done. all: cbn.
      * apply ordered_replace; [done|by rewrite El|done|]. unfold order_of. by rewrite En.
      * intros k Hkin. rewrite order_insert. destruct (bytes_eqb_spec k n) as [->|]; [|by apply Hlt]. cbn.
        specialize (Hlt n Hkin). unfold order_of in Hlt. by rewrite En in Hlt.
    + unfold native_abs. cbn [Obj.layout Obj.with_native]. f_equal. rewrite <- entries_insert by (unfold live_slot; rewrite El; eauto).
      apply entries_ext. intros k _. unfold live_slot. rewrite live_insert. destruct (bytes_eqb k n); [|done].
      unfold Obj.active. cbn. by rewrite Hv.
  - assert (match m !! n with Some cell => Obj.active cell | None => false end = false /\
            Obj.active (default (Obj.mk_native_cell Obj.empty_native_slot 0) (m !! n)) = false) as [-> ->].
    { unfold live in El. destruct (m !! n) as [d|]; [|done]. cbn in El |- *. by destruct (Obj.active d). }
    unfold live_slot. rewrite El, Esat. cbn [fmap option_fmap option_map].
    eexists _, (<[n := Obj.mk_native_cell value clock]> m), (clock + 1)%N, (names ++ [n]). split; [done|].
    assert (n ∉ names) as Hnew. { intros Hin. apply (names_live _ _ _ Hord) in Hin. unfold live_slot in Hin. rewrite El in Hin. by destruct Hin. }
    split; [|split; [done|split; [lia|]]].
    + split; try done. all: cbn.
      * by apply ordered_append.
      * intros k. rewrite elem_of_app, list_elem_of_singleton, order_insert. intros [Hkin| ->].
        -- destruct (bytes_eqb_spec k n) as [->|]; [done|]. specialize (Hlt k Hkin). lia.
        -- rewrite (proj2 (bytes_eqb_true n n)) by done. cbn. lia.
      * intros k. rewrite elem_of_app, list_elem_of_singleton. intros [Hkin| ->]; [by apply Hun|done].
    + unfold native_abs. cbn [Obj.layout Obj.with_native]. f_equal. rewrite entries_app. f_equal.
      * apply entries_ext. intros k Hkin. unfold live_slot. rewrite live_insert_ne; [done|]. by intros ->.
      * unfold entries, live_slot. cbn. rewrite live_insert_eq. unfold Obj.active. cbn. by rewrite Hv.
Qed.

Lemma native_unset_spec s slots m clock names n : native_ok s slots m clock names -> Obj.slot_of s n = None ->
  exists s' m' names', Obj.unset_native_dynamic_property s (Obj.layout_id (Obj.layout s)) n =
      (Some (spec_get (native_abs s slots m names) n), s') /\
    native_ok s' slots m' clock names' /\ Obj.layout s' = Obj.layout s /\
    native_abs s' slots m' names' = snd (spec_unset (native_abs s slots m names) n).
Proof.
  intros Hok Hn. pose proof Hok as [Hl Hr Hs Hlen Hd Hk Hord Hlt Hun].
  unfold Obj.unset_native_dynamic_property. rewrite (native_ready _ _ _ _ _ Hok), Hn, Hd. cbn [negb orb].
  rewrite bool_decide_eq_false_2 by (by intros []). unfold spec_get, spec_unset. rewrite (native_undeclared _ _ _ _ _ _ Hok Hn).
  cbn [dynamic declared native_abs]. rewrite native_assoc by done.
  destruct (live m n) as [c|] eqn:El.
  - assert (m !! n = Some c /\ Obj.active c = true) as [En Ea].
    { unfold live in El. destruct (m !! n) as [d|]; [|done]. cbn in El. destruct (Obj.active d) eqn:Ed; [|done]. by injection El as ->. }
    rewrite En, Ea. unfold live_slot. rewrite El. cbn [fmap option_fmap option_map].
    eexists _, (<[n := Obj.mk_native_cell Obj.empty_native_slot (Obj.insertion_order c)]> m), (Obj.without n names). split; [done|].
    split; [|split; [done|]].
    + split; try done. all: cbn.
      * by apply ordered_remove.
      * intros k [Hkin Hne]%without_elem. rewrite order_insert, (proj2 (bytes_eqb_false k n)) by done. by apply Hlt.
      * intros k [Hkin _]%without_elem. by apply Hun.
    + unfold native_abs. cbn [Obj.layout Obj.with_native snd]. f_equal. rewrite <- entries_without. apply entries_ext.
      intros k [_ Hne]%without_elem. unfold live_slot. by rewrite live_insert_ne.
  - assert (forall (A : Type) (f : Obj.NativeDynamicPropertyCell -> A) (x : A),
        match m !! n with Some cell => if Obj.active cell then f cell else x | None => x end = x) as Hskip.
    { intros A f x. unfold live in El. destruct (m !! n) as [d|]; [|done]. cbn in El. by destruct (Obj.active d). }
    rewrite Hskip. unfold live_slot. rewrite El. cbn. by exists s, m, names.
Qed.
End Native.
