(* ===== verification/ObjectNativeClaims.v ===== *)
(** * ObjectNativeClaims: a trip through the native representation *)

From Stdlib Require Import Strings.String Strings.Byte ZArith.
From stdpp Require Import base list option numbers gmap fin_maps sorting.
From S2P Require Import Prelude RustStd RustNum RustText PhpString PhpArray Convert Names IrConst Objects ObjectProofs ObjectNative.

(** ** Related properties *)

Section Related.
Context {A B : Type} (R : A -> B -> Prop).

Definition same_entry {A B} (R : A -> B -> Prop) (p : bytes * A) (q : bytes * B) : Prop := p.1 = q.1 /\ R p.2 q.2.
Definition opt_rel (a : option A) (b : option B) : Prop :=
  match a, b with Some a, Some b => R a b | None, None => True | _, _ => False end.
Definition related (p : Properties A) (q : Properties B) : Prop :=
  Forall2 (same_entry opt_rel) (declared p) (declared q) /\ Forall2 (same_entry R) (dynamic p) (dynamic q).
End Related.

Section Assoc.
Context {A B : Type} (R : A -> B -> Prop).

Lemma related_assoc l l' n : Forall2 (same_entry R) l l' -> opt_rel R (assoc l n) (assoc l' n).
Proof. induction 1 as [|[k a] [k' b] l l' [E H] Hl IH]; [done|]. cbn in *. subst k'. by destruct (bytes_eqb k n). Qed.
Lemma related_replace l l' n a b : R a b -> Forall2 (same_entry R) l l' -> Forall2 (same_entry R) (replace l n a) (replace l' n b).
Proof.
  intros Hab. induction 1 as [|[k x] [k' y] l l' [E H] Hl IH]; [constructor|]. cbn in *. subst k'. constructor; [|exact IH].
  by destruct (bytes_eqb k n).
Qed.
Lemma related_remove l l' n : Forall2 (same_entry R) l l' -> Forall2 (same_entry R) (remove l n) (remove l' n).
Proof.
  induction 1 as [|[k x] [k' y] l l' [E H] Hl IH]; [constructor|]. cbn in *. subst k'. destruct (bytes_eqb k n); [exact IH|].
  by constructor.
Qed.
End Assoc.

Section RelatedOps.
Context {A B : Type} (R : A -> B -> Prop).

Lemma related_get p q n : related R p q -> opt_rel R (spec_get p n) (spec_get q n).
Proof.
  intros [Hd Hy]. unfold spec_get. pose proof (related_assoc _ _ _ n Hd) as H. destruct (assoc (declared p) n), (assoc (declared q) n); try done.
  by apply related_assoc.
Qed.
Lemma related_set p q n a b : related R p q -> R a b -> related R (spec_set p n a) (spec_set q n b).
Proof.
  intros [Hd Hy] Hab. unfold spec_set. pose proof (related_assoc _ _ _ n Hd) as H.
  destruct (assoc (declared p) n), (assoc (declared q) n); try done.
  - split; [by apply related_replace|done].
  - split; [done|]. cbn. pose proof (related_assoc _ _ _ n Hy) as H'. destruct (assoc (dynamic p) n), (assoc (dynamic q) n); try done.
    + by apply related_replace.
    + apply Forall2_app; [done|]. constructor; [done|constructor].
Qed.
Lemma related_unset p q n : related R p q -> related R (snd (spec_unset p n)) (snd (spec_unset q n)).
Proof.
  intros [Hd Hy]. unfold spec_unset. pose proof (related_assoc _ _ _ n Hd) as H.
  destruct (assoc (declared p) n) as [[|]|], (assoc (declared q) n) as [[|]|]; try done; cbn.
  - split; [by apply related_replace|done].
  - pose proof (related_assoc _ _ _ n Hy) as H'. destruct (assoc (dynamic p) n), (assoc (dynamic q) n); try done.
    split; [done|]. by apply related_remove.
Qed.
End RelatedOps.

(** ** Numbering the cells *)

Section Number.
Implicit Types m : gmap bytes Obj.NativeDynamicPropertyCell.

Lemma number_cells_other k names m n : n ∉ names -> Obj.number_cells k names m !! n = m !! n.
Proof.
  revert k m. induction names as [|x names IH]; intros k m Hn; [done|]. cbn [Obj.number_cells]. apply not_elem_of_cons in Hn as [Hx Hn].
  rewrite IH by done. destruct (m !! x) as [c|]; [|done]. destruct (Obj.active c); [|done]. by rewrite lookup_insert_ne.
Qed.
Lemma number_cells_at k names m i n : NoDup names -> (forall n, n ∈ names -> is_Some (live m n)) -> names !! i = Some n ->
  exists c, m !! n = Some c /\ Obj.active c = true /\
    Obj.number_cells k names m !! n = Some (Obj.mk_native_cell (Obj.cell_slot c) (k + N.of_nat i)).
Proof.
  revert k m i. induction names as [|x names IH]; intros k m i Hnd Hlive Hi; [done|]. apply NoDup_cons in Hnd as [Hx Hnd].
  cbn [Obj.number_cells]. destruct (Hlive x) as [c Hc]; [by left|]. unfold live in Hc. destruct (m !! x) as [d|] eqn:Ed; [|done].
  cbn in Hc. destruct (Obj.active d) eqn:Ea; [|done]. injection Hc as ->. destruct i as [|i]; cbn in Hi.
  - injection Hi as ->. exists c. rewrite number_cells_other by done. rewrite lookup_insert_eq. split_and!; [done..|]. do 2 f_equal. lia.
  - assert (n ∈ names) as Hn by (by eapply list_elem_of_lookup_2). assert (n <> x) as Hne by (by intros ->).
    destruct (IH (k + 1)%N (<[x := Obj.mk_native_cell (Obj.cell_slot c) k]> m) i Hnd) as (e & He & Hae & E).
    + intros y Hy. rewrite live_insert_ne; [apply Hlive; by right|]. by intros ->.
    + done.
    + rewrite lookup_insert_ne in He by done. exists e. split_and!; [done..|]. rewrite E. do 2 f_equal. lia.
Qed.

Definition max_order (l : list (bytes * Obj.NativeDynamicPropertyCell)) (x : N) : N :=
  fold_left (fun acc (q : bytes * Obj.NativeDynamicPropertyCell) => N.max acc (Obj.insertion_order q.2)) l x.
Lemma max_order_spec l x bound : (forall p, p ∈ l -> Obj.insertion_order p.2 < bound)%N -> (x < bound)%N ->
  (x <= max_order l x < bound)%N /\ forall p, p ∈ l -> (Obj.insertion_order p.2 <= max_order l x)%N.
Proof.
  revert x. induction l as [|q l IH]; intros x Hl Hx; [split; [cbn; lia|by intros p ?%elem_of_nil]|]. cbn [max_order fold_left].
  assert (Obj.insertion_order q.2 < bound)%N by (apply Hl; left).
  destruct (IH (N.max x (Obj.insertion_order q.2))) as [H1 H2]; [intros p Hp; apply Hl; by right|lia|]. unfold max_order in *.
  split; [lia|]. intros p [-> | Hp]%elem_of_cons; [lia|by apply H2].
Qed.
Lemma next_order_spec m bound : (forall n c, live m n = Some c -> Obj.insertion_order c < bound)%N -> (bound < Obj.U64)%N ->
  (Obj.next_order m <= bound)%N /\ forall n c, live m n = Some c -> (Obj.insertion_order c < Obj.next_order m)%N.
Proof.
  intros Hb Hu. assert (forall p, p ∈ Obj.active_cells m -> (Obj.insertion_order p.2 < bound)%N) as Hb'.
  { intros [k d] Hin. apply live_elem in Hin. by apply (Hb k). }
  assert (forall n c, live m n = Some c -> (n, c) ∈ Obj.active_cells m) as Hin by (intros; by apply live_elem).
  unfold Obj.next_order. destruct (Obj.active_cells m) as [|p l].
  { split; [lia|]. intros n c Hc. apply Hin in Hc. by apply elem_of_nil in Hc. }
  destruct (max_order_spec l (Obj.insertion_order p.2) bound) as [H1 H2]; [intros q Hq; apply Hb'; by right|apply Hb'; left|].
  fold (max_order l (Obj.insertion_order p.2)). unfold Obj.saturating_succ.
  destruct (N.eqb_spec (max_order l (Obj.insertion_order p.2)) (Obj.U64 - 1)); [lia|]. split; [lia|].
  intros n0 c Hc. apply Hin in Hc. apply elem_of_cons in Hc as [E|Hc]; [|specialize (H2 _ Hc); cbn [snd] in H2; lia].
  subst p. cbn [snd] in *. lia.
Qed.
End Number.

(** ** Promotion and demotion *)

Section Trip.
Context {C : Type} (encode : Value C -> option Z) (decode : Z -> option (Value C)).
Hypothesis codec : forall v z, encode v = Some z -> decode z = Some v.
Implicit Types s : Obj.ObjectStorage (C := C).

(** A native cell that holds a value. *)
Definition encodes (d : Obj.NativeDeclaredPropertySlot) (v : Value C) : Prop := Obj.active_slot d = true /\ decode (Obj.native_value d) = Some v.
(** Every property can be encoded. *)
Definition encodable s : Prop :=
  Forall (fun o => forall v, o = Some v -> is_Some (encode v)) (Obj.declared_slots s) /\
  forall n v, Obj.dynamic_properties s !! n = Some v -> is_Some (encode v).

Lemma encode_slots (l : list (option (Value C))) : Forall (fun o => forall v, o = Some v -> is_Some (encode v)) l ->
  exists ds, mapM (Obj.encode_slot encode) l = Some ds /\ Forall2 (opt_rel encodes) (slot_value <$> ds) l.
Proof.
  induction 1 as [|o l Ho Hl (ds & E & IH)]; [by exists []|]. cbn [mapM]. destruct o as [v|].
  - destruct (Ho v eq_refl) as [z Ez]. cbn [Obj.encode_slot]. rewrite Ez. cbn. rewrite E. eexists. split; [done|]. constructor; [|done].
    split; [done|]. by apply codec.
  - cbn. rewrite E. eexists. split; [done|]. by constructor.
Qed.

Lemma encode_entries (m : gmap bytes (Value C)) : (forall n v, m !! n = Some v -> is_Some (encode v)) ->
  exists l, mapM (Obj.encode_entry encode) (map_to_list m) = Some l /\
    let m' : gmap bytes Obj.NativeDynamicPropertyCell := list_to_map l in
    forall n, opt_rel encodes (live_slot m' n) (m !! n) /\ (m' !! n = None <-> m !! n = None).
Proof.
  intros Hm. assert (forall l, NoDup l.*1 -> (forall p, p ∈ l -> is_Some (encode p.2)) ->
    exists l', mapM (Obj.encode_entry encode) l = Some l' /\
      let m' : gmap bytes Obj.NativeDynamicPropertyCell := list_to_map l' in
      forall n, opt_rel encodes (live_slot m' n) ((list_to_map l : gmap bytes (Value C)) !! n) /\
        (m' !! n = None <-> (list_to_map l : gmap bytes (Value C)) !! n = None)) as H.
  { induction l as [|[k v] l IH]; intros Hnd Hl; [by exists []|]. cbn in Hnd. apply NoDup_cons in Hnd as [Hk Hnd].
    destruct IH as (l' & E & Hl'); [done|intros p Hp; apply Hl; by right|]. destruct (Hl (k, v)) as [z Ez]; [left|]. cbn in Ez.
    cbn [mapM].
    assert (Obj.encode_entry encode (k, v) = Some (k, Obj.mk_native_cell (Obj.mk_native_slot 1 0 z) 0)) as -> by (unfold Obj.encode_entry; cbn; by rewrite Ez).
    rewrite E. eexists. split; [done|]. cbn. intros n. specialize (Hl' n). cbn in Hl'.
    destruct (decide (n = k)) as [->|Hne].
    - rewrite !lookup_insert_eq. unfold live_slot. rewrite live_insert_eq. cbn. split; [|done]. split; [done|]. by apply codec.
    - rewrite !lookup_insert_ne by done. unfold live_slot in *. by rewrite live_insert_ne. }
  destruct (H (map_to_list m)) as (l & E & Hl); [apply NoDup_fst_map_to_list| |].
  { intros [n v] Hin. apply elem_of_map_to_list in Hin. by apply (Hm n). }
  exists l. split; [done|]. by rewrite list_to_map_to_list in Hl.
Qed.

Lemma index_sorted (m : gmap bytes Obj.NativeDynamicPropertyCell) names k :
  (forall i n, names !! i = Some n -> order_of m n = N.of_nat (k + i)) -> StronglySorted (before m) names.
Proof.
  revert k. induction names as [|x names IH]; intros k Hk; [constructor|]. constructor.
  - apply (IH (S k)). intros i n Hi. rewrite (Hk (S i) n Hi). f_equal. lia.
  - apply Forall_forall. intros y [j Hj]%list_elem_of_lookup. unfold before. rewrite (Hk 0 x eq_refl), (Hk (S j) y Hj). lia.
Qed.
Lemma numbered_ordered (m : gmap bytes Obj.NativeDynamicPropertyCell) names : NoDup names -> (forall n, n ∈ names <-> is_Some (live m n)) ->
  let m' := Obj.number_cells 0 names m in
  ordered m' names /\ (forall n c, live m' n = Some c -> (Obj.insertion_order c < N.of_nat (length names))%N) /\
  (forall n, live_slot m' n = live_slot m n).
Proof.
  intros Hnd Hin m'. assert (forall i n, names !! i = Some n -> exists c, m !! n = Some c /\ Obj.active c = true /\
      m' !! n = Some (Obj.mk_native_cell (Obj.cell_slot c) (N.of_nat i))) as Hat.
  { intros i n Hi. apply (number_cells_at 0 names m i n Hnd); [|done]. intros k. apply Hin. }
  assert (forall n, live_slot m' n = live_slot m n) as Hslot.
  { intros n. destruct (decide (n ∈ names)) as [[i Hi]%list_elem_of_lookup|Hn].
    - destruct (Hat i n Hi) as (c & Hc & Ha & E). unfold live_slot, live. rewrite Hc, E. cbn. rewrite Ha. unfold Obj.active in *. cbn. by rewrite Ha.
    - unfold live_slot, live, m'. by rewrite number_cells_other. }
  assert (forall n, is_Some (live m' n) <-> is_Some (live m n)) as Hsome.
  { intros n. specialize (Hslot n). unfold live_slot in Hslot. destruct (live m' n), (live m n); try done; split; eauto. }
  split; [split|split; [|done]].
  - intros n. by rewrite Hin, Hsome.
  - assert (forall i n, names !! i = Some n -> order_of m' n = N.of_nat i) as Hord.
    { intros i n Hi. destruct (Hat i n Hi) as (c & _ & _ & E). unfold order_of. by rewrite E. }
    by apply (index_sorted m' names 0).
  - intros n c Hc. assert (n ∈ names) as [i Hi]%list_elem_of_lookup. { apply Hin, Hsome. by rewrite Hc. }
    destruct (Hat i n Hi) as (d & _ & _ & E). unfold live in Hc. rewrite E in Hc. cbn in Hc. case_match; [|done].
    injection Hc as <-. cbn. apply lookup_lt_Some in Hi. lia.
Qed.

Lemma promote_ok s : storage_ok s -> encodable s -> (N.of_nat (length (Obj.dynamic_order s)) < Obj.U64)%N ->
  exists s' slots m clock, Obj.promote encode s = (Obj.Moved, s') /\ native_ok s' slots m clock (Obj.dynamic_order s) /\
    Obj.layout s' = Obj.layout s /\ (clock <= N.of_nat (length (Obj.dynamic_order s)))%N /\
    related encodes (native_abs s' slots m (Obj.dynamic_order s)) (abs s).
Proof.
  intros (Hl & Hnat & Hlen & Hnd & Hin & Hun) [Hes Hed] Hu. unfold Obj.promote.
  assert (Obj.native_declared_slots s = None /\ Obj.native_dynamic_properties s = None /\ Obj.native_dynamic_next_order s = None) as (E1 & E2 & E3).
  { unfold Obj.no_native in Hnat. rewrite !andb_true_iff, !bool_decide_eq_true in Hnat. tauto. }
  rewrite bool_decide_eq_false_2 by (rewrite E1; by intros []).
  unfold Obj.take_property_slots_for_native. rewrite N.eqb_refl, Hnat. cbn [negb orb].
  destruct (encode_slots _ Hes) as (ds & -> & Hds). destruct (encode_entries _ Hed) as (l & -> & Hm). cbn zeta in Hm.
  set (m := list_to_map l : gmap bytes Obj.NativeDynamicPropertyCell) in *.
  assert (length ds = length (Obj.declared_slots s)) as Hlen' by (apply Forall2_length in Hds; by rewrite length_fmap in Hds).
  assert (forall n, n ∈ Obj.dynamic_order s <-> is_Some (live m n)) as Hlive.
  { intros n. rewrite Hin. destruct (Hm n) as [Hr _]. unfold live_slot in Hr. destruct (live m n), (Obj.dynamic_properties s !! n); try done; split; eauto. }
  destruct (numbered_ordered m (Obj.dynamic_order s) Hnd Hlive) as (Hord & Hbound & Hslots).
  destruct (next_order_spec _ _ Hbound Hu) as [Hnext Hbelow].
  unfold Obj.install_native_property_slots. cbn [Obj.layout Obj.with_rust]. rewrite N.eqb_refl.
  change (Obj.no_native (Obj.with_rust _ _ _ _)) with (Obj.no_native s). rewrite Hnat.
  assert (Obj.no_rust (Obj.with_rust s [] ∅ (Obj.dynamic_order s)) = true) as ->.
  { unfold Obj.no_rust. cbn [Obj.declared_slots Obj.dynamic_properties Obj.with_rust length]. by rewrite bool_decide_eq_true_2. }
  rewrite Hlen', Hlen, Nat.eqb_refl. cbn [negb orb Obj.dynamic_order Obj.with_rust].
  assert (existsb (fun p => Obj.active p.2 && negb (existsb (bytes_eqb p.1) (Obj.dynamic_order s))) (map_to_list m) = false) as ->.
  { apply not_true_is_false. intros ([n c] & Hc & [Ha Hno]%andb_true_iff)%existsb_exists. cbn in Ha, Hno.
    apply list_elem_of_In, elem_of_map_to_list in Hc. rewrite negb_true_iff in Hno.
    assert (existsb (bytes_eqb n) (Obj.dynamic_order s) = true); [|congruence]. apply existsb_exists. exists n.
    split; [|by apply bytes_eqb_true]. apply list_elem_of_In, Hlive. unfold live. rewrite Hc. cbn. rewrite Ha. eauto. }
  eexists _, ds, _, _. split; [done|]. split; [|split; [done|split; [exact Hnext|]]].
  - split; try done.
    + cbn. by rewrite Hlen', Hlen.
    + cbn. intros n Hn. apply Hord in Hn as [c Hc]. pose proof (Hbelow n c Hc) as Hb. unfold live in Hc. unfold order_of.
      destruct (Obj.number_cells _ _ m !! n) as [d|]; [|done]. cbn in Hc. case_match; [|done]. by injection Hc as ->.
    + intros n Hn. apply Hun. by apply Hin.
  - split.
    + cbn [declared native_abs abs Obj.layout Obj.with_native Obj.with_rust]. clear -Hds. generalize (Obj.slot_names (Obj.layout s)) as names. remember (slot_value <$> ds) as vs eqn:E. clear E.
      induction Hds as [|x y vs l Hxy _ IH]; intros [|n names]; try constructor; [done|apply IH].
    + rewrite abs_dynamic. cbn [dynamic native_abs]. rewrite (entries_ext _ (live_slot m)) by (intros; apply Hslots). clear -Hm.
      induction (Obj.dynamic_order s) as [|n names IH]; [constructor|]. destruct (Hm n) as [Hr _]. unfold entries in *. cbn.
      destruct (live_slot m n), (Obj.dynamic_properties s !! n); try done; cbn. constructor; [done|exact IH].
Qed.

(** A value that cannot be encoded leaves the object as it was. *)
Lemma promote_fails s : storage_ok s -> mapM (Obj.encode_slot encode) (Obj.declared_slots s) = None \/
    mapM (Obj.encode_entry encode) (map_to_list (Obj.dynamic_properties s)) = None ->
  Obj.promote encode s = (Obj.Failed, s).
Proof.
  intros (_ & Hnat & Hlen & _) Hf. unfold Obj.promote.
  assert (Obj.native_declared_slots s = None) as E1. { unfold Obj.no_native in Hnat. rewrite !andb_true_iff, !bool_decide_eq_true in Hnat. tauto. }
  rewrite bool_decide_eq_false_2 by (rewrite E1; by intros []).
  unfold Obj.take_property_slots_for_native. rewrite N.eqb_refl, Hnat. cbn [negb orb].
  assert (snd (Obj.restore_property_slots_from_native (Obj.with_rust s [] ∅ (Obj.dynamic_order s)) (Obj.layout_id (Obj.layout s))
    (Obj.declared_slots s) (Obj.dynamic_properties s)) = s) as Hback.
  { unfold Obj.restore_property_slots_from_native. cbn [Obj.layout Obj.with_rust]. rewrite N.eqb_refl.
    change (Obj.no_native (Obj.with_rust _ _ _ _)) with (Obj.no_native s). rewrite Hnat.
    assert (Obj.no_rust (Obj.with_rust s [] ∅ (Obj.dynamic_order s)) = true) as ->.
    { unfold Obj.no_rust. cbn [Obj.declared_slots Obj.dynamic_properties Obj.with_rust length]. by rewrite bool_decide_eq_true_2. }
    rewrite Hlen, Nat.eqb_refl. cbn. by destruct s. }
  destruct (mapM (Obj.encode_slot encode) _), (mapM (Obj.encode_entry encode) _); try (by rewrite Hback). by destruct Hf.
Qed.

Lemma decode_slots (ds : list Obj.NativeDeclaredPropertySlot) vs : Forall2 (opt_rel encodes) (slot_value <$> ds) vs ->
  mapM (Obj.decode_slot decode) ds = Some vs.
Proof.
  revert vs. induction ds as [|d ds IH]; intros vs H; inversion H as [|? v ? vs' Hv Hvs]; subst; [done|]. cbn [mapM].
  assert (Obj.decode_slot decode d = Some v) as ->; [|cbn; by rewrite (IH _ Hvs)].
  unfold slot_value in Hv. unfold Obj.decode_slot. destruct (Obj.active_slot d); destruct v as [v|]; try done. destruct Hv as [_ Hv]. cbn. by rewrite Hv.
Qed.

Lemma decode_cells (m : gmap bytes Obj.NativeDynamicPropertyCell) (f : bytes -> option (Value C)) :
  (forall n, opt_rel encodes (live_slot m n) (f n)) ->
  exists l, mapM (Obj.decode_entry decode) (Obj.active_cells m) = Some l /\ forall n, (list_to_map l : gmap bytes (Value C)) !! n = f n.
Proof.
  intros Hf. assert (forall l : list (bytes * Obj.NativeDynamicPropertyCell), NoDup l.*1 ->
    (forall n c, (n, c) ∈ l -> exists v, f n = Some v /\ decode (Obj.native_value (Obj.cell_slot c)) = Some v) ->
    exists l', mapM (Obj.decode_entry decode) l = Some l' /\
      (forall n, n ∈ l.*1 -> (list_to_map l' : gmap bytes (Value C)) !! n = f n) /\
      (forall n, n ∉ l.*1 -> (list_to_map l' : gmap bytes (Value C)) !! n = None)) as H.
  { induction l as [|[k c] l IH]; intros Hnd Hl; [exists []; split_and!; [done|by intros n ?%elem_of_nil|done]|].
    cbn in Hnd. apply NoDup_cons in Hnd as [Hk Hnd]. destruct IH as (l' & E & H1 & H2); [done|intros; apply Hl; by right|].
    destruct (Hl k c) as (v & Ev & Ed); [left|]. exists ((k, v) :: l'). cbn [mapM].
    assert (Obj.decode_entry decode (k, c) = Some (k, v)) as -> by (unfold Obj.decode_entry; cbn; by rewrite Ed). rewrite E.
    split; [done|]. cbn [list_to_map foldr fmap list_fmap fst uncurry curry]. split.
    - intros n [-> | Hn]%elem_of_cons; [by rewrite lookup_insert_eq|]. rewrite lookup_insert_ne by (by intros ->). by apply H1.
    - intros n [Hne Hn]%not_elem_of_cons. rewrite lookup_insert_ne by done. by apply H2. }
  destruct (H (Obj.active_cells m) (active_NoDup m)) as (l & E & H1 & H2).
  { intros n c Hc. apply live_elem in Hc. specialize (Hf n). unfold live_slot in Hf. rewrite Hc in Hf. cbn in Hf.
    destruct (f n) as [v|]; [|done]. exists v. split; [done|]. apply Hf. }
  exists l. split; [done|]. intros n. destruct (live m n) as [c|] eqn:El.
  - apply H1, list_elem_of_fmap. exists (n, c). split; [done|]. by apply live_elem.
  - rewrite H2; [|intros ([k c] & -> & Hc)%list_elem_of_fmap; apply live_elem in Hc; cbn in El; congruence].
    specialize (Hf n). unfold live_slot in Hf. rewrite El in Hf. cbn in Hf. by destruct (f n).
Qed.

Lemma related_names {A B} (R : A -> B -> Prop) l l' : Forall2 (same_entry R) l l' -> l.*1 = l'.*1.
Proof. induction 1 as [|p q l l' [E _] _ IH]; [done|]. cbn. by rewrite E, IH. Qed.

Lemma related_zip (names : list bytes) (ds : list (option Obj.NativeDeclaredPropertySlot)) (l : list (bytes * option (Value C))) :
  length ds = length names -> Forall2 (same_entry (opt_rel encodes)) (zip names ds) l ->
  Forall2 (opt_rel encodes) ds l.*2 /\ l = zip names l.*2.
Proof.
  revert ds l. induction names as [|n names IH]; intros [|d ds] l Hlen H; try done; cbn in H; inversion H as [|? [k v] ? l' [E Hv] Hl]; subst; [done|].
  cbn in E, Hv. subst k. destruct (IH ds l') as [H1 H2]; [by injection Hlen|done|]. split; [by constructor|]. cbn. by f_equal.
Qed.

Lemma demote_ok s slots m clock names q : native_ok s slots m clock names -> related encodes (native_abs s slots m names) q ->
  exists s', Obj.demote decode s (Obj.layout_id (Obj.layout s)) = (Obj.Moved, s') /\ storage_ok s' /\ abs s' = q /\ Obj.layout s' = Obj.layout s.
Proof.
  intros [Hl Hr Hs Hlen Hd Hk Hord Hlt Hun] [Hdec Hdyn]. unfold Obj.demote, Obj.take_native_property_slots.
  rewrite N.eqb_refl, Hr, Hs, Hd, Hk. cbn [negb orb].
  cbn [declared dynamic native_abs] in Hdec, Hdyn. apply related_zip in Hdec as [Hdec Eq]; [|by rewrite length_fmap].
  rewrite (decode_slots _ _ Hdec).
  assert (NoDup names) as Hnd by (eapply sorted_NoDup; apply Hord).
  assert ((entries (live_slot m) names).*1 = names) as Hnames by (apply entries_names; intros n Hn; by apply (names_live m names)).
  destruct (decode_cells m (assoc (dynamic q))) as (l & -> & Hlook).
  { intros n. rewrite <- (native_assoc m names n Hord). by apply related_assoc. }
  rewrite (native_order_is m names Hord). unfold Obj.restore_property_slots_from_native.
  cbn [Obj.layout Obj.with_native]. rewrite N.eqb_refl.
  assert (Obj.no_native (Obj.with_native s None None None names (Obj.dynamic_debug_labels s)) = true) as -> by done.
  change (Obj.no_rust (Obj.with_native s None None None names (Obj.dynamic_debug_labels s))) with (Obj.no_rust s). rewrite Hr.
  assert (length (declared q).*2 = length (Obj.slot_names (Obj.layout s))) as Hlq.
  { apply Forall2_length in Hdec. by rewrite <- Hdec, length_fmap. }
  rewrite Hlq, Nat.eqb_refl. cbn [negb orb]. eexists. split; [done|].
  assert ((dynamic q).*1 = names) as Hqn. { by rewrite <- (related_names _ _ _ Hdyn). }
  split; [|split; [|done]].
  - split; [done|]. split; [done|]. split; [done|]. split; [done|]. cbn. split.
    + intros n. rewrite Hlook. rewrite <- Hqn. destruct (assoc (dynamic q) n) eqn:Ea.
      * split; [eauto|]. intros _. rewrite Hqn in *. destruct (decide (n ∈ names)) as [|Hn]; [done|]. rewrite <- Hqn in Hn.
        apply assoc_None in Hn. congruence.
      * apply assoc_None in Ea. split; [done|by intros []].
    + intros n [v Hv]. apply Hun. rewrite Hlook in Hv. destruct (decide (n ∈ names)) as [|Hn]; [done|]. rewrite <- Hqn in Hn.
      apply assoc_None in Hn. congruence.
  - rewrite abs_with_rust. cbn [Obj.layout Obj.with_native Obj.dynamic_order]. destruct q as [qd qy]. cbn [declared dynamic] in *. f_equal; [done|].
    rewrite (entries_ext _ (assoc qy)) by (intros; apply Hlook). rewrite <- Hqn in Hnd |- *. clear -Hnd.
    assert (forall l', (forall p, p ∈ l' -> p ∈ qy) -> entries (assoc qy) l'.*1 = l') as H; [|by apply H].
    induction l' as [|[n v] l' IH]; intros Hl; [done|]. unfold entries in *. cbn.
    rewrite (proj2 (assoc_Some qy n v Hnd)) by (apply Hl; left). cbn. f_equal. apply IH. intros p Hp. apply Hl. by right.
Qed.

(** ** Programs on native properties *)

Inductive native_op := NGet (name : bytes) | NSet (name : bytes) (value : Value C) | NUnset (name : bytes).
Definition op_name (op : native_op) : bytes := match op with NGet n | NSet n _ | NUnset n => n end.

(** The answer is the value read, replaced or removed. *)
Definition run_native (op : native_op) (s : Obj.ObjectStorage (C := C)) :
    outcome (option (option Obj.NativeDeclaredPropertySlot) * Obj.ObjectStorage) :=
  let id := Obj.layout_id (Obj.layout s) in
  match op with
  | NGet name => Ret (Obj.native_dynamic_property_slot s id name, s)
  | NSet name value =>
      match encode value with
      | Some z => Obj.set_native_dynamic_property s id name (Obj.mk_native_slot 1 0 z)
      | None => Ret (None, s)
      end
  | NUnset name => Ret (Obj.unset_native_dynamic_property s id name)
  end.
Fixpoint run_natives (ops : list native_op) (s : Obj.ObjectStorage (C := C)) :
    outcome (list (option (option Obj.NativeDeclaredPropertySlot)) * Obj.ObjectStorage) :=
  match ops with
  | [] => Ret ([], s)
  | op :: ops => olet (a, s) := run_native op s in olet (l, s) := run_natives ops s in Ret (a :: l, s)
  end.

Definition spec_native (op : native_op) (p : Properties (Value C)) : option (Value C) * Properties (Value C) :=
  match op with
  | NGet name => (spec_get p name, p)
  | NSet name value => (spec_get p name, spec_set p name value)
  | NUnset name => (spec_get p name, snd (spec_unset p name))
  end.
Fixpoint spec_natives (ops : list native_op) (p : Properties (Value C)) : list (option (Value C)) * Properties (Value C) :=
  match ops with
  | [] => ([], p)
  | op :: ops => let '(a, p) := spec_native op p in let '(l, p) := spec_natives ops p in (a :: l, p)
  end.

(** An undeclared name, and a value that can be encoded. *)
Definition op_ok (l : Obj.PropertyLayout) (op : native_op) : Prop :=
  Obj.slot_by_name l !! op_name op = None /\ match op with NSet _ v => is_Some (encode v) | _ => True end.
(** The answer of the native code, decoded. *)
Definition answers (a : option (option Obj.NativeDeclaredPropertySlot)) (b : option (Value C)) : Prop :=
  exists o, a = Some o /\ opt_rel encodes o b.

Lemma run_native_spec op s slots m clock names q : native_ok s slots m clock names -> related encodes (native_abs s slots m names) q ->
  op_ok (Obj.layout s) op -> (clock + 1 < Obj.U64)%N ->
  exists a s' m' clock' names', run_native op s = Ret (a, s') /\ answers a (fst (spec_native op q)) /\ native_ok s' slots m' clock' names' /\
    Obj.layout s' = Obj.layout s /\ (clock' <= clock + 1)%N /\ related encodes (native_abs s' slots m' names') (snd (spec_native op q)).
Proof.
  intros Hok Hrel [Hname Hv] Hc. pose proof (related_get _ _ _ (op_name op) Hrel) as Hget. destruct op as [n|n v|n]; cbn [op_name] in *; cbn [run_native spec_native fst snd].
  - rewrite (native_get_spec _ _ _ _ _ n Hok Hname). eexists _, s, m, clock, names. split; [done|]. split; [by eexists|]. split; [done|]. split; [done|]. split; [lia|done].
  - destruct Hv as [z Ez]. rewrite Ez. destruct (native_set_spec _ _ _ _ _ n (Obj.mk_native_slot 1 0 z) Hok Hname eq_refl Hc) as (s' & m' & clock' & names' & -> & Hok' & El & Hc' & Eabs).
    eexists _, s', m', clock', names'. split; [done|]. split; [by eexists|]. split; [done|]. split; [done|]. split; [done|].
    rewrite Eabs. apply related_set; [done|]. split; [done|]. by apply codec.
  - destruct (native_unset_spec _ _ _ _ _ n Hok Hname) as (s' & m' & names' & -> & Hok' & El & Eabs).
    eexists _, s', m', clock, names'. split; [done|]. split; [by eexists|]. split; [done|]. split; [done|]. split; [lia|]. rewrite Eabs. by apply related_unset.
Qed.

Lemma run_natives_spec ops s slots m clock names q : native_ok s slots m clock names -> related encodes (native_abs s slots m names) q ->
  Forall (op_ok (Obj.layout s)) ops -> (clock + N.of_nat (length ops) < Obj.U64)%N ->
  exists l s' m' clock' names', run_natives ops s = Ret (l, s') /\ Forall2 answers l (fst (spec_natives ops q)) /\ native_ok s' slots m' clock' names' /\
    Obj.layout s' = Obj.layout s /\ related encodes (native_abs s' slots m' names') (snd (spec_natives ops q)).
Proof.
  revert s m clock names q. induction ops as [|op ops IH]; intros s m clock names q Hok Hrel Hops Hc.
  { exists [], s, m, clock, names. split; [done|]. split; [constructor|]. done. }
  apply Forall_cons in Hops as [Hop Hops]. cbn [length] in Hc. cbn [run_natives spec_natives].
  destruct (run_native_spec op s slots m clock names q Hok Hrel Hop) as (a & s1 & m1 & c1 & n1 & -> & Ha & Hok1 & El & Hc1 & Hrel1); [lia|].
  cbn [obind]. destruct (spec_native op q) as [b q1]. cbn [fst snd] in *.
  destruct (IH s1 m1 c1 n1 q1 Hok1 Hrel1) as (l & s2 & m2 & c2 & n2 & -> & Hl & Hok2 & El2 & Hrel2); [by rewrite El|lia|].
  cbn [obind]. destruct (spec_natives ops q1) as [lb q2]. cbn [fst snd] in *.
  exists (a :: l), s2, m2, c2, n2. split; [done|]. split; [by constructor|]. split; [done|]. split; [congruence|done].
Qed.

End Trip.

(** ** A witness *)

(** Integers as their own encodings. *)
Definition int_encode (v : Value unit) : option Z := match v with Int z => Some z | _ => None end.
Definition int_decode (z : Z) : option (Value unit) := Some (Int z).
Lemma int_codec v z : int_encode v = Some z -> int_decode z = Some v.
Proof. destruct v; try done. by intros [= ->]. Qed.

Definition sample_layout : Obj.PropertyLayout := Obj.mk_layout 1 [lit "x"] {[lit "x" := 0]} ∅ [lit "x"] ∅.
Definition sample : Obj.ObjectStorage (C := unit) :=
  Obj.mk_storage (lit "point") (lit "Point") false None None false false true None sample_layout [Some (Int 1)] None
    {[lit "a" := Int 2; lit "b" := Int 3]} None None [lit "b"; lit "a"] ∅.

Lemma sample_ok : storage_ok sample.
Proof.
  split; [split; [|split]|].
  - repeat constructor. set_solver.
  - intros n i. change (({[lit "x" := 0]} : gmap bytes nat) !! n = Some i <-> [lit "x"] !! i = Some n).
    destruct (decide (n = lit "x")) as [->|Hne].
    + rewrite lookup_singleton_eq. destruct i as [|i]; [done|]. split; [done|]. cbn. done.
    + rewrite lookup_singleton_ne by done. split; [done|]. intros E%list_elem_of_lookup_2%list_elem_of_singleton. done.
  - done.
  - split; [reflexivity|]. split; [reflexivity|]. split; [|split].
    + cbn. repeat (constructor; [set_solver|]). constructor.
    + intros n. cbn [Obj.dynamic_order Obj.dynamic_properties sample].
      rewrite !elem_of_cons, elem_of_nil, lookup_insert_is_Some, lookup_singleton_is_Some.
      destruct (decide (n = lit "a")) as [->|]; naive_solver.
    + intros n Hn. cbn [Obj.dynamic_properties sample] in Hn. rewrite lookup_insert_is_Some, lookup_singleton_is_Some in Hn.
      change (({[lit "x" := 0]} : gmap bytes nat) !! n = None). apply lookup_singleton_ne. by destruct Hn as [<-|[_ <-]].
Qed.

Definition sample_ops : list (native_op (C := unit)) := [NUnset (lit "b"); NSet (lit "b") (Int 4); NGet (lit "a"); NSet (lit "c") (Int 5)].
