(* ===== verification/Serialization.v ===== *)
(** * Serialization: the wire format of values

    [php_runtime/src/serialization.rs].  A writer returns the bytes it appends;
    the parser is a state and error monad over the input.  The depth counts down
    from the limit: a level is refused when none is left.  References are cells
    of a map, objects those of an [Obj.Heap]; a new array takes the next storage
    identity.  A byte string that grows beyond [usize] does not exist, so lengths
    of outputs are unbounded; the sum of an offset and a length that the input
    claims is checked: with overflow checks it panics, and without them the
    slice that follows does. *)

From Stdlib Require Import Strings.String Strings.Byte ZArith Floats.SpecFloat.
From stdpp Require Import base list option numbers gmap fin_maps.
From S2P Require Import Prelude RustStd RustNum RustFloat RustText FloatText Simd PhpString NumericString PhpArray Convert Names IrConst Objects.

Definition DEFAULT_MAX_DEPTH : nat := 64.
Definition DEFAULT_MAX_ITEMS : N := 16384.
Definition DEFAULT_MAX_BYTES : N := 1048576.
Definition HASH_CONTEXT_CLASS : bytes := lit "HashContext".
Definition HASH_CONTEXT_ALGORITHM : bytes := lit "__phrust_hash_algorithm".
Definition HASH_CONTEXT_FLAGS : bytes := lit "__phrust_hash_flags".
Definition HASH_CONTEXT_FINALIZED : bytes := lit "__phrust_hash_finalized".
Definition HASH_HMAC_FLAG : Z := 1.
Definition XML_PARSER_CLASS : bytes := lit "XMLParser".

Record UnserializeOptions := mk_options { max_depth : nat; max_items : N; max_bytes : N }.
Definition default_options : UnserializeOptions := mk_options DEFAULT_MAX_DEPTH DEFAULT_MAX_ITEMS DEFAULT_MAX_BYTES.

(** An error message with bytes in it. *)
Definition text_of (l : bytes) : string := string_of_list_byte l.

(** ** Floats *)

(** Decimal digits of numbers of any size. *)
Definition wide_digits (n : Z) : bytes := dec_digits (S (Z.to_nat (Z.log2 n))) n [].
Definition wide_fixed_point (n : Z) (d : nat) : bytes :=
  let digits := wide_digits n in
  let digits := zeros (S d - length digits) ++ digits in
  let k := (length digits - d)%nat in
  take k digits ++ (if (d =? 0)%nat then [] else "."%byte :: drop k digits).
(** [format!("{value:.d$}")] and [format!("{value:.d$E}")] of a positive value *)
Definition format_fixed (value : f64) (d : nat) : bytes :=
  wide_fixed_point (div_half_even (Z.abs (scaled value) * 10 ^ Z.of_nat d) (2 ^ 1074)) d.
Definition format_exp (value : f64) (d : nat) : bytes :=
  let k := decimal_exponent value in
  let '(a, b) := shifted value (k - Z.of_nat d) in
  let n := div_half_even a b in
  let '(n, k) := if (10 ^ (Z.of_nat d + 1) <=? n)%Z then ((n / 10)%Z, (k + 1)%Z) else (n, k) in
  wide_fixed_point n d ++ "E"%byte :: print_i64 k.

Definition trim_zeros_and_point (l : bytes) : bytes := trim_end_matches "."%byte (trim_end_matches "0"%byte l).

Definition php_gcvt (value : f64) (ndigit : nat) : bytes :=
  let ndigit := Nat.max ndigit 1 in
  if f64_eq value (S754_zero false) then lit "0"
  else
    let negative := f64_lt value (S754_zero false) in
    let abs := f64_abs value in
    let scientific := format_exp abs (ndigit - 1) in
    let parts := split_once "E"%byte scientific in
    let exponent := default 0%Z (p ← parts; parse_i64 p.2) in
    let decimal_point := (exponent + 1)%Z in
    (if negative then lit "-" else []) ++
    (if (exponent <? -4)%Z || (Z.of_nat ndigit <=? exponent)%Z then
       let mantissa := trim_zeros_and_point (default scientific (fst <$> parts)) in
       let mantissa := if existsb (Byte.eqb "."%byte) mantissa then mantissa else mantissa ++ lit ".0" in
       mantissa ++ lit "E" ++ (if (exponent <? 0)%Z then lit "-" else lit "+") ++ print_i64 (Z.abs exponent)
     else
       let fixed := format_fixed abs (Z.to_nat (Z.max 0 (Z.of_nat ndigit - decimal_point))) in
       if existsb (Byte.eqb "."%byte) fixed then trim_zeros_and_point fixed else fixed).

Definition serialize_float (value : f64) (serialize_precision : Z) : bytes :=
  if f64_is_nan value then lit "NAN"
  else match value with
       | S754_infinity negative => if negative then lit "-INF" else lit "INF"
       | _ => if (1 <=? serialize_precision)%Z then php_gcvt value (Z.to_nat serialize_precision) else f64_to_string value
       end.

Definition print_usize (n : nat) : bytes := print_i64 (Z.of_nat n).
Definition quote_bytes (l : bytes) : bytes := DQUOTE :: l ++ [DQUOTE].

Section Serialize.
Context {C : Type} (bk : backend) `{KeyClassifier}.

(** ** The writer *)

Section Writer.
Context (heap : Obj.Heap (C := C)) (cells : gmap N (Value C)) (serialize_precision : Z).

Definition write_string (l : bytes) : bytes := lit "s:" ++ print_usize (length l) ++ lit ":" ++ quote_bytes l ++ lit ";".
Definition write_int (z : Z) : bytes := lit "i:" ++ print_i64 z ++ lit ";".
Definition write_key (k : ArrayKey) : bytes := match k with KInt z => write_int z | KString l => write_string l end.

Definition hash_context_serialization_error (s : Obj.ObjectStorage (C := C)) : outcome (option bytes) :=
  if negb (bytes_eqb (normalize_class_name (Obj.class_name s)) (normalize_class_name HASH_CONTEXT_CLASS)) then Ret None
  else
    olet flags := Obj.get s HASH_CONTEXT_FLAGS in
    if match flags with Some (Int flags) => negb (Z.land flags HASH_HMAC_FLAG =? 0)%Z | _ => false end
    then Ret (Some (lit "HashContext with HASH_HMAC option cannot be serialized"))
    else
      olet finalized := Obj.get s HASH_CONTEXT_FINALIZED in
      match finalized with
      | Some (Bool true) =>
          olet algorithm := Obj.get s HASH_CONTEXT_ALGORITHM in
          let algorithm := match algorithm with Some (Str l) => from_utf8_lossy l | _ => [] end in
          Ret (Some (lit "HashContext for algorithm " ++ quote_bytes algorithm ++ lit " cannot be serialized"))
      | _ => Ret None
      end.
Definition object_serialization_error (s : Obj.ObjectStorage (C := C)) : outcome (option bytes) :=
  if bytes_eqb (normalize_class_name (Obj.class_name s)) (normalize_class_name XML_PARSER_CLASS)
  then Ret (Some (lit "Serialization of '" ++ Obj.display_name s ++ lit "' is not allowed"))
  else hash_context_serialization_error s.

Definition protected_suffix : bytes := DQUOTE :: lit ":protected".
Definition serialized_object_property_name (s : Obj.ObjectStorage (C := C)) (storage_name : bytes) : bytes :=
  match Obj.private_parts storage_name with
  | Some (owner, name) => NUL :: owner ++ NUL :: name
  | None =>
      match strip_prefix [DQUOTE] (Obj.debug_label s storage_name) ≫= strip_suffix protected_suffix with
      | Some name => NUL :: "*"%byte :: NUL :: name
      | None => storage_name
      end
  end.

(** The elements of a container, given the writer of a value. *)
Section Elements.
Context (write : Value C -> Res bytes).
Fixpoint write_pairs {A} (name : A -> Res bytes) (l : list (A * Value C)) : Res bytes :=
  match l with
  | [] => ok []
  | (k, v) :: l =>
      rlet k := name k in
      rlet v := write v in
      rlet rest := write_pairs name l in ok (k ++ v ++ rest)
  end.
Definition write_object_properties (s : Obj.ObjectStorage (C := C)) (properties : list (bytes * Value C)) : Res bytes :=
  let class := Obj.display_name s in
  rlet body := write_pairs (fun name => write (Str (serialized_object_property_name s name))) properties in
  ok (lit "O:" ++ print_usize (length class) ++ lit ":" ++ quote_bytes class ++ lit ":" ++ print_usize (length properties) ++ lit ":{"
      ++ body ++ lit "}").
End Elements.

(** [write_value]; [room] is the number of levels that are left. *)
Fixpoint write_value (room : nat) (active_references : list N) (v : Value C) : Res bytes :=
  match room with
  | O => err "serialization depth limit exceeded"
  | S room =>
      match v with
      | Null | Uninitialized => ok (lit "N;")
      | Bool b => ok (if b then lit "b:1;" else lit "b:0;")
      | Int z => ok (write_int z)
      | Float x => ok (lit "d:" ++ serialize_float x serialize_precision ++ lit ";")
      | Str l => ok (write_string l)
      | Array a =>
          rlet body := write_pairs (write_value room active_references) (fun k => ok (write_key k)) (iter a) in
          ok (lit "a:" ++ print_usize (len a) ++ lit ":{" ++ body ++ lit "}")
      | Object address =>
          olet cell := Obj.cell_at heap address in
          olet error := object_serialization_error (Obj.storage cell) in
          match error with
          | Some message => Ret (Err (text_of message))
          | None => write_object_properties (write_value room active_references) (Obj.storage cell) (Obj.snapshot (Obj.storage cell))
          end
      | Fiber _ | Generator _ | Callable _ => err "serialization for this object-like runtime value is not implemented"
      | Resource _ => ok (lit "i:0;")
      | Reference cell =>
          if existsb (N.eqb cell) active_references then ok (lit "N;")
          else
            match cells !! cell with
            | None => Panic
            | Some v => write_value room (active_references ++ [cell]) v
            end
      end
  end.
Definition serialize_with_precision (v : Value C) : Res bytes := write_value (S DEFAULT_MAX_DEPTH) [] v.
End Writer.
Definition serialize (heap : Obj.Heap) (cells : gmap N (Value C)) (v : Value C) : Res bytes := serialize_with_precision heap cells (-1) v.

(** ** The parser *)

Record Parser := mk_parser { offset : nat; parsed_items : N; p_heap : Obj.Heap (C := C); next_array : N }.
Definition with_offset (p : Parser) (n : nat) : Parser := mk_parser n (parsed_items p) (p_heap p) (next_array p).
Definition with_heap (p : Parser) (h : Obj.Heap) : Parser := mk_parser (offset p) (parsed_items p) h (next_array p).

(** State and errors. *)
Definition P (A : Type) : Type := Parser -> Res (A * Parser).
Definition pret {A} (a : A) : P A := fun p => ok (a, p).
Definition pbind {A B} (m : P A) (k : A -> P B) : P B := fun p => rlet r := m p in k (fst r) (snd r).
Definition perr {A} (message : string) : P A := fun _ => err message.
Definition plift {A} (m : outcome A) : P A := fun p => olet a := m in ok (a, p).

Notation "'do' x <- m ; k" := (pbind m (fun x => k)) (at level 200, x name, m at level 100, k at level 200, right associativity).
Notation "'do_' m ; k" := (pbind m (fun _ => k)) (at level 200, m at level 100, k at level 200, right associativity).

Section Parse.
Context (input : bytes) (options : UnserializeOptions).

Definition take_byte : P byte := fun p =>
  match input !! offset p with
  | Some x => ok (x, with_offset p (S (offset p)))
  | None => err "unexpected end of serialized input"
  end.
Definition expect (expected : byte) : P unit :=
  do actual <- take_byte;
  if actual =b expected then pret tt
  else fun _ => Ret (Err (text_of (lit "expected byte `" ++ char_of_byte expected ++ lit "` in serialized input"))).
Definition take_bool : P bool :=
  do x <- take_byte;
  if x =b "0"%byte then pret false else if x =b "1"%byte then pret true else perr "invalid serialized bool".

Definition take_ascii_until (delimiter : byte) : P bytes := fun p =>
  match position (Byte.eqb delimiter) (drop (offset p) input) with
  | None => err "unterminated serialized scalar"
  | Some n =>
      let text := take n (drop (offset p) input) in
      if utf8_valid text then ok (text, with_offset p (offset p + n + 1)) else err "serialized scalar is not ASCII"
  end.
Definition or_error {A} (o : option A) (message : string) : P A := match o with Some a => pret a | None => perr message end.
Definition take_i64_until (delimiter : byte) : P Z := do text <- take_ascii_until delimiter; or_error (parse_i64 text) "invalid serialized integer".
Definition take_f64_until (delimiter : byte) : P f64 := do text <- take_ascii_until delimiter; or_error (parse_f64 text) "invalid serialized float".

(** [text.parse::<usize>()] *)
Definition parse_usize (l : bytes) : option N :=
  let digits := match l with "+"%byte :: rest => rest | _ => l end in
  match digits with
  | [] => None
  | _ => if forallb is_ascii_digit digits && (digits_val digits <? 2 ^ 64)%Z then Some (Z.to_N (digits_val digits)) else None
  end.
Definition take_usize_until (delimiter : byte) : P N := do text <- take_ascii_until delimiter; or_error (parse_usize text) "invalid serialized length".

Definition count_items (count : N) : P unit := fun p =>
  let n := (parsed_items p + count)%N in
  if (Obj.U64 <=? n)%N then err "serialized item count overflow"
  else if (max_items options <? n)%N then err "serialized input exceeds item limit"
  else ok (tt, mk_parser (offset p) n (p_heap p) (next_array p)).

Definition take_quoted_bytes (length_ : N) : P bytes :=
  do_ expect DQUOTE;
  fun p =>
    let e := (N.of_nat (offset p) + length_)%N in
    if (Obj.U64 <=? e)%N then Panic
    else if (N.of_nat (length input) <? e)%N then err "serialized string length exceeds input"
    else
      (do_ expect DQUOTE; pret (take (N.to_nat length_) (drop (offset p) input))) (with_offset p (N.to_nat e)).

Definition parse_string : P bytes :=
  do_ expect ":"%byte;
  do length_ <- take_usize_until ":"%byte;
  do value <- take_quoted_bytes length_;
  do_ expect ";"%byte; pret value.

Definition empty_class (name : bytes) : Obj.ClassEntry (C := C) := Obj.mk_class_entry (normalize_class_name name) [] [] [] None Obj.no_flags.

Section Containers.
Context (parse : P (Value C)).

Fixpoint parse_elements (n : nat) (a : ArrayStorage (V := Value C)) : P (ArrayStorage (V := Value C)) :=
  match n with
  | O => pret a
  | S n =>
      do key <- parse;
      do value <- parse;
      do key <- plift (from_value bk key);
      do key <- or_error key "invalid serialized array key";
      do r <- plift (insert a key false value);
      parse_elements n (snd r)
  end.
Definition parse_array : P (Value C) :=
  do_ expect ":"%byte;
  do length_ <- take_usize_until ":"%byte;
  do_ count_items length_;
  do_ expect "{"%byte;
  fun p => (do a <- parse_elements (N.to_nat length_) (new_array (next_array p)); do_ expect "}"%byte; pret (Array a))
             (mk_parser (offset p) (parsed_items p) (p_heap p) (next_array p + 1)).

Fixpoint parse_properties (n : nat) (address : N) : P unit :=
  match n with
  | O => pret tt
  | S n =>
      do name <- parse;
      match name with
      | Str name =>
          do property <- parse;
          fun p => olet h := Obj.set_property address (from_utf8_lossy name) property (p_heap p) in
                   parse_properties n address (with_heap p h)
      | _ => perr "serialized object property name must be a string"
      end
  end.
Definition parse_object : P (Value C) :=
  do_ expect ":"%byte;
  do class_len <- take_usize_until ":"%byte;
  do class <- take_quoted_bytes class_len;
  do_ expect ":"%byte;
  do length_ <- take_usize_until ":"%byte;
  do_ count_items length_;
  do_ expect "{"%byte;
  let class_name := from_utf8_lossy class in
  fun p =>
    olet (address, h) := Obj.new_with_display_name (empty_class class_name) (Obj.display_class_name class_name) (p_heap p) in
    (do_ parse_properties (N.to_nat length_) address; do_ expect "}"%byte; pret (Object address)) (with_heap p h).
End Containers.

(** [parse_value]; [room] is the number of levels that are left. *)
Fixpoint parse_value (room : nat) : P (Value C) :=
  match room with
  | O => perr "serialized value exceeds depth limit"
  | S room =>
      do tag <- take_byte;
      match tag with
      | "N" => do_ expect ";"%byte; pret Null
      | "b" => do_ expect ":"%byte; do b <- take_bool; do_ expect ";"%byte; pret (Bool b)
      | "i" => do_ expect ":"%byte; do z <- take_i64_until ";"%byte; pret (Int z)
      | "d" => do_ expect ":"%byte; do x <- take_f64_until ";"%byte; pret (Float x)
      | "s" => do l <- parse_string; pret (Str l)
      | "a" => parse_array (parse_value room)
      | "O" => parse_object (parse_value room)
      | "R" | "r" => perr "serialized reference records are a standard-library known gap"
      | _ => perr "unsupported serialized type tag"
      end%byte
  end.

Definition unserialize_prefix (heap : Obj.Heap) (next : N) : Res (Value C * Parser) :=
  if (max_bytes options <? N.of_nat (length input))%N then err "serialized input exceeds byte limit"
  else parse_value (S (max_depth options)) (mk_parser 0 0 heap next).
Definition unserialize (heap : Obj.Heap) (next : N) : Res (Value C * Parser) :=
  rlet r := unserialize_prefix heap next in
  if (offset (snd r) =? length input)%nat then ok r else err "trailing bytes after serialized value".
End Parse.
End Serialize.

(** ** The examples of the unit tests *)

Definition test_heap : Obj.Heap (C := unit) := Obj.mk_heap (Obj.mk_layouts ∅ ∅ 1) 1 [] ∅ 0.
#[local] Instance test_keys : KeyClassifier := {| ambiguous := fun _ => false |}.
Definition test_bytes (l : list string) : bytes := flat_map (fun s => lit s) l.

Example serialize_list :
  serialize test_heap ∅ (Array (from_packed 0 [Int 1; Str (lit "x")])) = ok (lit "a:2:{i:0;i:1;i:1;s:1:" ++ quote_bytes (lit "x") ++ lit ";}").
Proof. vm_compute. reflexivity. Qed.
Example serialize_cycle :
  serialize test_heap {[0%N := Array (from_packed 0 [Reference 0])]} (Reference 0) = ok (lit "a:1:{i:0;N;}").
Proof. vm_compute. reflexivity. Qed.
Example gcvt_shape : (fun x => php_gcvt x 100) <$> parse_f64 (lit "12.3456789e-10") =
  Some (lit "1.2345678899999999145113427164344339914681114578343112953007221221923828125E-9").
Proof. vm_compute. reflexivity. Qed.
Example unserialize_short :
  (rlet r := unserialize BScalar (lit "s:99:" ++ quote_bytes (lit "x") ++ lit ";") default_options test_heap 0 in ok tt)
  = err "serialized string length exceeds input".
Proof. vm_compute. reflexivity. Qed.
