(* ===== verification/SerializationProofs.v ===== *)
(** * SerializationProofs: the data that a text carries

    A value stands for a tree of data: references are followed, a cycle ends in
    null, objects are their classes with their properties.  The writer prints the
    tree of its value, and the parser reads back what was printed, building new
    arrays and objects. *)

From Stdlib Require Import Strings.String Strings.Byte ZArith Floats.SpecFloat.
From stdpp Require Import base list option numbers gmap fin_maps.
From S2P Require Import Prelude RustStd RustNum RustFloat RustText FloatText Simd PhpString NumericString PhpArray PhpArrayProofs PhpArraySpec Convert Names IrConst Objects ObjectProofs ObjectLayouts ObjectClaims Serialization.

(** ** Trees of data *)

Inductive Data :=
| DNull | DBool (b : bool) | DInt (z : Z) | DFloat (x : f64) | DStr (l : bytes)
| DArray (l : list (ArrayKey * Data)) | DObject (class : bytes) (l : list (bytes * Data)).

Section DataInd.
Context (P : Data -> Prop) (Hnull : P DNull) (Hbool : forall b, P (DBool b)) (Hint : forall z, P (DInt z))
  (Hfloat : forall x, P (DFloat x)) (Hstr : forall l, P (DStr l))
  (Harray : forall l, Forall (fun p => P p.2) l -> P (DArray l))
  (Hobject : forall c l, Forall (fun p => P p.2) l -> P (DObject c l)).
Fixpoint Data_rect' (d : Data) : P d :=
  match d with
  | DNull => Hnull | DBool b => Hbool b | DInt z => Hint z | DFloat x => Hfloat x | DStr l => Hstr l
  | DArray l => Harray l ((fix go l : Forall (fun p => P p.2) l :=
      match l with [] => Forall_nil_2 _ | p :: l => Forall_cons_2 _ p l (Data_rect' p.2) (go l) end) l)
  | DObject c l => Hobject c l ((fix go l : Forall (fun p => P p.2) l :=
      match l with [] => Forall_nil_2 _ | p :: l => Forall_cons_2 _ p l (Data_rect' p.2) (go l) end) l)
  end.
End DataInd.

(** The text of a tree; [text] is that of the name or key of an element. *)
Definition print_pairs {A B} (text : A -> bytes) (print : B -> bytes) (l : list (A * B)) : bytes :=
  foldr (fun p rest => text p.1 ++ print p.2 ++ rest) [] l.
Definition total {A B} (f : B -> nat) (l : list (A * B)) : nat := foldr (fun p n => f p.2 + n) 0 l.
Definition highest {A B} (f : B -> nat) (l : list (A * B)) : nat := foldr (fun p n => Nat.max (f p.2) n) 0 l.
Fixpoint print (d : Data) : bytes :=
  match d with
  | DNull => lit "N;"
  | DBool b => if b then lit "b:1;" else lit "b:0;"
  | DInt z => write_int z
  | DFloat x => lit "d:" ++ serialize_float x (-1) ++ lit ";"
  | DStr l => write_string l
  | DArray l => lit "a:" ++ print_usize (length l) ++ lit ":{" ++ print_pairs write_key print l ++ lit "}"
  | DObject c l =>
      lit "O:" ++ print_usize (length c) ++ lit ":" ++ quote_bytes c ++ lit ":" ++ print_usize (length l) ++ lit ":{"
      ++ print_pairs write_string print l ++ lit "}"
  end.

(** Levels, elements counted against the limit, and objects of a tree. *)
Fixpoint height (d : Data) : nat :=
  match d with
  | DArray l => S (highest height l)
  | DObject _ l => S (highest height l)
  | _ => 1
  end.
Fixpoint items (d : Data) : nat :=
  match d with
  | DArray l => length l + total items l
  | DObject _ l => length l + total items l
  | _ => 0
  end.
Fixpoint objects (d : Data) : nat :=
  match d with
  | DArray l => total objects l
  | DObject _ l => S (total objects l)
  | _ => 0
  end.

(** ** The data of a value *)

Section DataOf.
Context {C : Type} (heap : Obj.Heap (C := C)) (cells : gmap N (Value C)).

Definition pairs_of {A A' B B'} (name : A -> A') (f : B -> option B') (l : list (A * B)) : option (list (A' * B')) :=
  mapM (fun p => (fun d => (name p.1, d)) <$> f p.2) l.

(** Follows the references, with the levels that the writer may use.  An array
    that miscounts its elements stands for nothing. *)
Fixpoint data_of (room : nat) (active : list N) (v : Value C) : option Data :=
  match room with
  | O => None
  | S room =>
      match v with
      | Null | Uninitialized => Some DNull
      | Bool b => Some (DBool b)
      | Int z => Some (DInt z)
      | Float x => Some (DFloat x)
      | Str l => Some (DStr l)
      | Array a => if len a =? length (iter a) then DArray <$> pairs_of id (data_of room active) (iter a) else None
      | Object address =>
          cell ← Obj.object_cells heap !! address;
          match object_serialization_error (Obj.storage cell) with
          | Ret None =>
              l ← pairs_of (serialized_object_property_name (Obj.storage cell)) (data_of room active) (Obj.snapshot (Obj.storage cell));
              Some (DObject (Obj.display_name (Obj.storage cell)) l)
          | _ => None
          end
      | Fiber _ | Generator _ | Callable _ => None
      | Resource _ => Some (DInt 0)
      | Reference cell =>
          if existsb (N.eqb cell) active then Some DNull
          else v ← cells !! cell; data_of room (active ++ [cell]) v
      end
  end.

Lemma write_pairs_spec {A A'} (name : A -> A') (text : A -> Res bytes) (text' : A' -> bytes) write (f : Value C -> option Data) l l' :
  (forall v d k, f v = Some d -> text k = ok (text' (name k))) -> (forall v d, f v = Some d -> write v = ok (print d)) ->
  pairs_of name f l = Some l' -> write_pairs write text l = ok (print_pairs text' print l').
Proof.
  intros Ht Hw. revert l'. induction l as [|[k v] l IH]; intros l' E; cbn in E.
  - by injection E as <-.
  - destruct (f v) as [d|] eqn:Ev; [|done]. cbn in E. destruct (mapM _ l) as [m|] eqn:El; [|done]. cbn in E. injection E as <-.
    cbn [write_pairs]. rewrite (Ht _ _ k Ev). cbn [rbind ok obind]. rewrite (Hw _ _ Ev). cbn [rbind ok obind]. by rewrite (IH m El).
Qed.

Lemma pairs_of_cons {A A' B B'} (name : A -> A') (f : B -> option B') k v d l l' :
  f v = Some d -> pairs_of name f l = Some l' -> pairs_of name f ((k, v) :: l) = Some ((name k, d) :: l').
Proof. intros Hv Hl. unfold pairs_of in *. cbn [mapM fst snd]. rewrite Hv. cbn [fmap option_fmap option_map mbind option_bind]. by rewrite Hl. Qed.
Lemma pairs_of_length {A A' B B'} (name : A -> A') (f : B -> option B') l l' : pairs_of name f l = Some l' -> length l' = length l.
Proof. intros E. symmetry. by eapply length_mapM. Qed.

Lemma write_value_spec room active v d :
  data_of room active v = Some d -> write_value heap cells (-1) room active v = ok (print d).
Proof.
  revert active v d. induction room as [|room IH]; intros active v d E; [done|].
  assert (forall v d k, data_of room active v = Some d -> write_value heap cells (-1) room active (Str k) = ok (write_string k)) as Hstr.
  { intros w e k. by destruct room. }
  destruct v; cbn [data_of] in E; try (by injection E as <-); try done; cbn [write_value].
  - case_match eqn:Hlen; [|done]. apply Nat.eqb_eq in Hlen. destruct (pairs_of id _ _) as [l|] eqn:El; [|done]. injection E as <-.
    erewrite (write_pairs_spec id _ write_key) by (done || by intros; apply IH || exact El). cbn [rbind ok obind print].
    by rewrite Hlen, (pairs_of_length _ _ _ _ El).
  - unfold Obj.cell_at. destruct (Obj.object_cells heap !! _) as [cell|]; [|done]. cbn in E. cbn [obind].
    destruct (object_serialization_error _) as [[m|]| |]; try done. cbn [obind].
    destruct (pairs_of _ _ _) as [l|] eqn:El; [|done]. injection E as <-. unfold write_object_properties.
    erewrite (write_pairs_spec (serialized_object_property_name (Obj.storage cell)) _ write_string); [|intros w e k Hw; by eapply Hstr|by intros; apply IH|exact El].
    cbn [rbind ok obind print]. by rewrite (pairs_of_length _ _ _ _ El).
  - destruct (existsb _ _); [by injection E as <-|]. destruct (cells !! _); [|done]. cbn in E. by apply IH.
Qed.

(** The data of a value is not higher than the levels that were left. *)
Lemma pairs_height {A A'} (name : A -> A') (f : Value C -> option Data) room vs l :
  (forall v d, f v = Some d -> height d <= room) -> pairs_of name f vs = Some l -> highest height l <= room.
Proof.
  intros Hf. revert l. induction vs as [|[n v] vs IH]; intros l E; unfold pairs_of in E; cbn [mapM fst snd] in E; [injection E as <-; cbn; lia|].
  destruct (f v) as [d|] eqn:Ev; [|done]. cbn [fmap option_fmap option_map mbind option_bind] in E.
  destruct (mapM _ vs) as [m|] eqn:Em; [|done]. injection E as <-. pose proof (Hf _ _ Ev). specialize (IH m Em). unfold highest in *. cbn [foldr snd]. lia.
Qed.
Lemma data_height room active v d : data_of room active v = Some d -> height d <= room.
Proof.
  revert active v d. induction room as [|room IH]; intros active v d E; [done|].
  destruct v; cbn [data_of] in E; try done; try (injection E as <-; cbn; lia).
  - destruct (_ =? _); [|done]. destruct (pairs_of _ _ _) as [l|] eqn:El; [|done]. injection E as <-. cbn [height].
    apply le_n_S. eapply pairs_height; [|exact El]. apply IH.
  - destruct (Obj.object_cells heap !! _) as [cell|]; [|done]. cbn [mbind option_bind] in E. destruct (object_serialization_error _) as [[]| |]; try done.
    destruct (pairs_of _ _ _) as [l|] eqn:El; [|done]. injection E as <-. cbn [height]. apply le_n_S. eapply pairs_height; [|exact El]. apply IH.
  - destruct (existsb _ _); [injection E as <-; cbn; lia|]. destruct (cells !! _); [|done]. cbn in E. apply IH in E. lia.
Qed.
End DataOf.

(** ** Texts of numbers *)

Lemma print_usize_digits n : (Z.of_nat n < 2 ^ 63)%Z ->
  canonical_digits (print_usize n) /\ digits_val (print_usize n) = Z.of_nat n.
Proof.
  intros Hn. unfold print_usize. destruct (print_i64_cases (Z.of_nat n)) as [(_ & H)|(H & _)]; [|done|lia].
  unfold in_i64, I64_MIN, I64_MAX. rewrite andb_true_iff, !Z.leb_le. lia.
Qed.
Lemma parse_usize_print n : (Z.of_nat n < 2 ^ 63)%Z -> parse_usize (print_usize n) = Some (N.of_nat n).
Proof.
  intros Hn. destruct (print_usize_digits n Hn) as ((Hd & Hne & _) & Hv). unfold parse_usize.
  destruct (print_usize n) as [|x l]; [done|].
  assert (match x :: l with "+"%byte :: rest => rest | _ => x :: l end = x :: l) as ->.
  { cbn [forallb] in Hd. apply andb_true_iff in Hd as [Hx _]. by destruct x. }
  rewrite Hd, Hv, (proj2 (Z.ltb_lt _ _)) by lia. cbn [andb]. f_equal. lia.
Qed.

(** No digit and no sign ends a number. *)
Lemma print_usize_free n x : (Z.of_nat n < 2 ^ 63)%Z -> is_ascii_digit x = false -> x ∉ print_usize n.
Proof.
  intros Hn Hx Hin. destruct (print_usize_digits n Hn) as ((Hd & _) & _). rewrite forallb_forall in Hd.
  apply list_elem_of_In, Hd in Hin. congruence.
Qed.
Lemma print_i64_free z x : in_i64 z = true -> is_ascii_digit x = false -> x <> "-"%byte -> x ∉ print_i64 z.
Proof.
  intros Hz Hx Hm Hin. assert (exists l, forallb is_ascii_digit l = true /\ x ∈ l) as (l & Hd & Hl).
  { destruct (print_i64_cases z Hz) as [(_ & (Hd & _) & _)|(_ & l & E & (Hd & _) & _)]; [by exists (print_i64 z)|].
    exists l. split; [done|]. rewrite E in Hin. by apply elem_of_cons in Hin as [ -> |]. }
  rewrite forallb_forall in Hd. apply list_elem_of_In, Hd in Hl. congruence.
Qed.

(** ** Valid UTF-8 is kept *)

Lemma in_range_iff x lo hi : in_range x lo hi = true <-> (lo <= u8 x <= hi)%N.
Proof. unfold in_range. by rewrite andb_true_iff, !N.leb_le. Qed.
Lemma utf8_front_valid a l : utf8_valid (a :: l) = true ->
  exists n, utf8_front (a :: l) = (true, S n) /\ n <= length l /\ utf8_valid (drop n l) = true.
Proof.
  intros H. cbn [utf8_valid] in H. unfold utf8_front. destruct (N.ltb_spec (u8 a) 128) as [Ha|Ha]; [by exists 0; split_and!; [|lia|]|].
  destruct l as [|c1 l]; [done|]. destruct (in_range a 194 223) eqn:H2.
  { apply andb_true_iff in H as [Hc H]. cbn [lookup list_lookup]. rewrite Hc. exists 1. cbn. split_and!; [done|lia|by rewrite drop_0]. }
  destruct l as [|c2 l]; [done|]. destruct (in_range a 224 239) eqn:H3.
  { apply in_range_iff in H3. apply andb_true_iff in H as [[Hc1 Hc2]%andb_true_iff H]. exists 2. cbn [lookup list_lookup].
    split; [|by cbn; rewrite drop_0; split; [lia|]]. rewrite Hc2.
    destruct (u8 a =? 224)%N eqn:E1; [by rewrite Hc1|]. destruct (u8 a =? 237)%N eqn:E2; [by rewrite Hc1|].
    apply N.eqb_neq in E1. rewrite (proj2 (in_range_iff a 225 239)) by lia. by rewrite Hc1. }
  destruct l as [|c3 l]; [done|].
  apply andb_true_iff in H as [[[[H4 Hc1]%andb_true_iff Hc2]%andb_true_iff Hc3]%andb_true_iff H].
  apply in_range_iff in H4. assert (in_range a 225 239 = false) as E3.
  { apply not_true_iff_false. rewrite in_range_iff. lia. }
  rewrite (proj2 (N.eqb_neq _ 224)), (proj2 (N.eqb_neq _ 237)), E3 by lia. exists 3. cbn [lookup list_lookup].
  split; [|by cbn; rewrite drop_0; split; [lia|]]. rewrite Hc2, Hc3.
  destruct (u8 a =? 240)%N eqn:E1; [by rewrite Hc1|]. destruct (u8 a =? 244)%N eqn:E2; [by rewrite Hc1|].
  apply N.eqb_neq in E1, E2. rewrite (proj2 (in_range_iff a 241 243)) by lia. by rewrite Hc1.
Qed.
Lemma lossy_valid l : utf8_valid l = true -> from_utf8_lossy l = l.
Proof.
  unfold from_utf8_lossy. assert (length l <= length l) as Hf by done. revert Hf. generalize (length l) at 2 3 as fuel. intros fuel. revert l.
  induction fuel as [|fuel IH]; intros l Hf H; [by destruct l; [|cbn in Hf; lia]|]. destruct l as [|a l]; [done|].
  destruct (utf8_front_valid a l H) as (n & E & Hn & Hv). cbn [lossy_loop]. rewrite E. cbn [length] in Hf.
  change (drop (S n) (a :: l)) with (drop n l). rewrite IH; [|rewrite length_drop; lia|done]. cbn. f_equal. apply take_drop.
Qed.

(** ** Steps of the parser *)

Section Steps.
Context {C : Type} (input : bytes) (Hinput : (Z.of_nat (length input) < 2 ^ 63)%Z).
Implicit Types p : Parser (C := C).

(** The text ahead of the parser starts with [l]. *)
Definition ahead p (l rest : bytes) : Prop := drop (offset p) input = l ++ rest.
(** [m] reads [l], returns [a] and changes nothing but the offset. *)
Definition reads {A} (m : P (C := C) A) (l : bytes) (a : A) : Prop :=
  forall p rest, ahead p l rest -> m p = ok (a, with_offset p (offset p + length l)).

Lemma ahead_app p l l' rest : ahead p (l ++ l') rest -> ahead p l (l' ++ rest) /\ ahead (with_offset p (offset p + length l)) l' rest.
Proof.
  unfold ahead. cbn [with_offset offset]. intros E. rewrite <- app_assoc in E. split; [done|]. rewrite <- drop_drop, E. by rewrite drop_app_length.
Qed.
Lemma ahead_length p l rest : ahead p l rest -> offset p + length l <= Nat.max (offset p) (length input).
Proof. intros E. apply (f_equal length) in E. rewrite length_drop, length_app in E. lia. Qed.

Lemma reads_ret {A} (a : A) : reads (pret a) [] a.
Proof. intros p rest _. unfold pret. cbn. rewrite Nat.add_0_r. by destruct p. Qed.
Lemma reads_bind {A B} (m : P A) (k : A -> P B) l l' a b : reads m l a -> reads (k a) l' b -> reads (pbind m k) (l ++ l') b.
Proof.
  intros Hm Hk p rest [H1 H2]%ahead_app. unfold pbind. rewrite (Hm _ _ H1). cbn [rbind ok obind fst snd]. rewrite (Hk _ _ H2).
  unfold with_offset. cbn. by rewrite length_app, Nat.add_assoc.
Qed.
Lemma reads_then {A B} (m : P (C := C) A) (k : A -> P B) l a b : reads m l a -> k a = pret b -> reads (pbind m k) l b.
Proof. intros Hm E. rewrite <- (app_nil_r l). apply (reads_bind m k l [] a b); [done|]. rewrite E. apply reads_ret. Qed.
Lemma reads_byte (x : byte) : reads (take_byte input) [x] x.
Proof.
  intros p rest E. unfold take_byte. unfold ahead in E. assert (input !! offset p = Some x) as ->.
  { rewrite <- (Nat.add_0_r (offset p)), <- lookup_drop, E. done. }
  cbn [length]. by rewrite Nat.add_1_r.
Qed.
Lemma reads_expect x : reads (expect input x) [x] tt.
Proof. apply (reads_then _ _ _ x); [apply reads_byte|]. by rewrite (proj2 (beq_eq x x) eq_refl). Qed.
Lemma reads_bool (b : bool) : reads (take_bool input) [if b then "1"%byte else "0"%byte] b.
Proof. apply (reads_then _ _ _ (if b then "1"%byte else "0"%byte)); [apply reads_byte|]. by destruct b. Qed.
Lemma reads_until x l : x ∉ l -> utf8_valid l = true -> reads (take_ascii_until input x) (l ++ [x]) l.
Proof.
  intros Hx Hu p rest E. unfold take_ascii_until. unfold ahead in E. rewrite E, <- app_assoc.
  assert (position (Byte.eqb x) (l ++ [x] ++ rest) = Some (length l)) as ->.
  { clear -Hx. induction l as [|y l IH]; cbn; [by rewrite (proj2 (beq_eq x x) eq_refl)|].
    apply not_elem_of_cons in Hx as [Hne Hx]. specialize (IH Hx). cbn in IH. rewrite IH. destruct (Byte.eqb x y) eqn:E; [|done].
    apply beq_eq in E. congruence. }
  rewrite take_app_length, Hu, length_app. cbn [length]. by rewrite Nat.add_assoc.
Qed.
Lemma ascii_valid l : ascii l -> utf8_valid l = true.
Proof. intros H. by apply utf8_ascii, ascii_forallb. Qed.
Lemma reads_i64 z : in_i64 z = true -> reads (take_i64_until input ";"%byte) (print_i64 z ++ [";"%byte]) z.
Proof.
  intros Hz. eapply reads_then; [apply reads_until|].
  - by apply print_i64_free.
  - apply ascii_valid, ascii_print.
  - unfold or_error. by rewrite parse_print_i64.
Qed.
Lemma reads_f64 x l : ";"%byte ∉ l -> utf8_valid l = true -> parse_f64 l = Some x -> reads (take_f64_until input ";"%byte) (l ++ [";"%byte]) x.
Proof. intros Hl Hu Hp. eapply reads_then; [by apply reads_until|]. unfold or_error. by rewrite Hp. Qed.
Lemma reads_usize n x : (Z.of_nat n < 2 ^ 63)%Z -> is_ascii_digit x = false -> reads (take_usize_until input x) (print_usize n ++ [x]) (N.of_nat n).
Proof.
  intros Hn Hx. eapply reads_then; [apply reads_until|].
  - by apply print_usize_free.
  - apply ascii_valid, ascii_print.
  - unfold or_error. by rewrite parse_usize_print.
Qed.

Lemma reads_quoted l : reads (take_quoted_bytes input (N.of_nat (length l))) (quote_bytes l) l.
Proof.
  change (quote_bytes l) with ([DQUOTE] ++ (l ++ [DQUOTE])). apply (reads_bind _ _ _ _ tt); [apply reads_expect|].
  intros p rest Hp. pose proof Hp as [H1 H2]%ahead_app. unfold Obj.U64.
  destruct (decide (offset p <= length input)) as [Ho|Ho].
  2: { exfalso. unfold ahead in H1. rewrite drop_ge in H1 by lia. by destruct l. }
  pose proof (ahead_length _ _ _ Hp) as Hlen. rewrite length_app in Hlen. cbn [length] in Hlen.
  rewrite (proj2 (N.leb_gt _ _)) by lia. rewrite (proj2 (N.ltb_ge _ _)) by lia.
  replace (N.to_nat (N.of_nat (offset p) + N.of_nat (length l))) with (offset p + length l) by lia.
  unfold ahead in H1. rewrite Nat2N.id, H1, take_app_length.
  erewrite (reads_then _ _ [DQUOTE] tt l (reads_expect _)); [|done|exact H2].
  unfold with_offset. cbn. by rewrite length_app, Nat.add_assoc.
Qed.

Lemma ahead_bound p l rest : ahead p l rest -> l <> [] -> (Z.of_nat (length l) < 2 ^ 63)%Z.
Proof.
  intros Hp Hl. pose proof (f_equal length Hp) as E. rewrite length_drop, length_app in E. destruct l; [done|]. cbn [length] in *. lia.
Qed.
Lemma reads_string l : reads (parse_string input) (lit ":" ++ print_usize (length l) ++ lit ":" ++ quote_bytes l ++ lit ";") l.
Proof.
  intros p rest Hp. assert (Z.of_nat (length l) < 2 ^ 63)%Z as Hl.
  { eapply (ahead_bound p) in Hp; [|done]. rewrite !length_app in Hp. cbn in Hp. rewrite length_app in Hp. lia. }
  revert p rest Hp. apply (reads_bind _ _ _ _ tt); [apply reads_expect|].
  rewrite app_assoc. eapply reads_bind; [by apply reads_usize|]. eapply reads_bind; [apply reads_quoted|].
  eapply reads_then; [apply reads_expect|done].
Qed.
End Steps.
