(* ===== verification/SerializationParse.v ===== *)
(** * SerializationParse: the parser reads what the writer prints

    The parser on the text of a tree of data builds a value that stands for the
    tree.  The objects that it makes have new addresses, so what was parsed before
    still stands for its part of the tree. *)

From Stdlib Require Import Strings.String Strings.Byte ZArith Floats.SpecFloat.
From stdpp Require Import base list option numbers gmap fin_maps.
From S2P Require Import Prelude RustStd RustNum RustFloat RustText FloatText Simd PhpString NumericString PhpArray PhpArrayProofs PhpArraySpec Convert NativeOpsClaims Names IrConst Objects ObjectProofs ObjectLayouts ObjectClaims Serialization SerializationProofs.

#[export] Instance f64_eq_dec : EqDecision f64.
Proof. solve_decision. Defined.

(** ** Data that the format can carry *)

Section Wf.
Context (bk : backend).

(** The text of the float is read back as the same float. *)
Definition float_reads (x : f64) : bool :=
  let l := serialize_float x (-1) in
  bool_decide (parse_f64 l = Some x) && utf8_valid l && bool_decide (";"%byte ∉ l).
(** Array keys as they are after the conversion of decimal strings. *)
Definition wf_key (k : ArrayKey) : bool :=
  match k with
  | KInt z => in_i64 z
  | KString l => match array_key_integer_bytes bk l with Ret None => true | _ => false end
  end.
Definition wf_name (n : bytes) : bool := utf8_valid n && bool_decide (Obj.private_parts n = None).
Definition wf_class (c : bytes) : bool :=
  utf8_valid c && bytes_eqb (Obj.display_class_name c) c
  && negb (bytes_eqb (normalize_class_name c) (normalize_class_name XML_PARSER_CLASS))
  && negb (bytes_eqb (normalize_class_name c) (normalize_class_name HASH_CONTEXT_CLASS)).
Fixpoint wf_data (d : Data) : bool :=
  match d with
  | DNull | DBool _ | DStr _ => true
  | DInt z => in_i64 z
  | DFloat x => float_reads x
  | DArray l => forallb (fun p => wf_key p.1 && wf_data p.2) l && bool_decide (NoDup l.*1)
  | DObject c l => wf_class c && forallb (fun p => wf_name p.1 && wf_data p.2) l && bool_decide (NoDup l.*1)
  end.
End Wf.

Lemma normalize_idemp c : normalize_class_name (normalize_class_name c) = normalize_class_name c.
Proof.
  unfold normalize_class_name, trim_start_matches. induction c as [|x c IH]; [done|]. cbn [run_len].
  destruct (Byte.eqb backslash x) eqn:E; [exact IH|]. cbn [drop lowercase fmap list_fmap run_len].
  assert (Byte.eqb backslash (to_ascii_lowercase x) = false) as -> by by destruct x. cbn. rewrite to_ascii_lowercase_idemp. f_equal.
  rewrite <- list_fmap_compose. apply list_fmap_ext. intros _ y _. apply to_ascii_lowercase_idemp.
Qed.

(** ** Heaps *)

Section Heaps.
Context {C : Type}.
Implicit Types h : Obj.Heap (C := C).

(** Numbers are left for [n] more objects and their layouts. *)
Definition heap_room (n : nat) h : Prop :=
  layouts_ok (Obj.layouts h) /\ (Obj.next_layout_id (Obj.layouts h) + N.of_nat n < Obj.U64)%N /\
  (Obj.next_object_id h + N.of_nat n < Obj.U64)%N.
(** The objects of an interval of addresses are the same. *)
Definition agrees (lo hi : N) h h' : Prop :=
  forall a, (lo <= a < hi)%N -> Obj.object_cells h' !! a = Obj.object_cells h !! a.

Lemma heap_room_le n m h : m <= n -> heap_room n h -> heap_room m h.
Proof. intros Hm (H1 & H2 & H3). split_and!; [done|lia..]. Qed.
Lemma agrees_sub lo hi lo' hi' h h' : (lo <= lo')%N -> (hi' <= hi)%N -> agrees lo hi h h' -> agrees lo' hi' h h'.
Proof. intros H1 H2 H a Ha. apply H. lia. Qed.
Lemma agrees_trans lo hi h h' h'' : agrees lo hi h h' -> agrees lo hi h' h'' -> agrees lo hi h h''.
Proof. intros H1 H2 a Ha. by rewrite H2, H1. Qed.

Lemma heap_room_new n h : heap_room (S n) h -> room (Obj.layouts h) /\ id_room h.
Proof. intros (_ & H2 & H3). unfold room, id_room. lia. Qed.
End Heaps.

(** ** What a parser does *)

Section Parsed.
Context {C : Type} (input : bytes) (Hinput : (Z.of_nat (length input) < 2 ^ 63)%Z) (options : UnserializeOptions)
  (Hitems : (max_items options < 2 ^ 63)%N).
Implicit Types p : Parser (C := C).

(** From [p] to [p'] the text [l] is read, [n] elements are counted, [k] objects
    are made, and the objects of before, [except] apart, are as they were. *)
Record after (except : N -> Prop) (l : bytes) (n k : nat) p p' : Prop := {
  after_offset : offset p' = offset p + length l;
  after_items : parsed_items p' = (parsed_items p + N.of_nat n)%N;
  after_old a : (a < Obj.next_address (p_heap p))%N -> ~ except a -> Obj.object_cells (p_heap p') !! a = Obj.object_cells (p_heap p) !! a;
  after_next : (Obj.next_address (p_heap p) <= Obj.next_address (p_heap p'))%N;
  after_room j : heap_room (k + j) (p_heap p) -> heap_room j (p_heap p') }.

Lemma after_trans except l l' n n' k k' p1 p2 p3 :
  after except l n k p1 p2 -> after except l' n' k' p2 p3 -> after except (l ++ l') (n + n') (k + k') p1 p3.
Proof.
  intros H1 H2. split.
  - rewrite (after_offset _ _ _ _ _ _ H2), (after_offset _ _ _ _ _ _ H1), length_app. lia.
  - rewrite (after_items _ _ _ _ _ _ H2), (after_items _ _ _ _ _ _ H1). lia.
  - intros a Ha He. pose proof (after_next _ _ _ _ _ _ H1).
    rewrite (after_old _ _ _ _ _ _ H2) by (done || lia). by apply (after_old _ _ _ _ _ _ H1).
  - pose proof (after_next _ _ _ _ _ _ H1). pose proof (after_next _ _ _ _ _ _ H2). lia.
  - intros j Hj. apply (after_room _ _ _ _ _ _ H2), (after_room _ _ _ _ _ _ H1). by rewrite Nat.add_assoc.
Qed.
Lemma after_weaken (except except' : N -> Prop) l n k p p' :
  (forall a, except a -> except' a) -> after except l n k p p' -> after except' l n k p p'.
Proof. intros H [H1 H2 H3 H4 H5]. split; try done. intros a Ha He. apply H3; [done|]. intros ?. by apply He, H. Qed.
Lemma after_offset_only except l p n : n = offset p + length l -> after except l 0 0 p (with_offset p n).
Proof. intros ->. split; cbn; [done|lia|done|done|done]. Qed.

(** [ahead] after a part was read. *)
Lemma ahead_after except l l' rest n k p p' : ahead input p (l ++ l') rest -> after except l n k p p' -> ahead input p' l' rest.
Proof.
  intros [_ H]%ahead_app Ha. unfold ahead in *. by rewrite (after_offset _ _ _ _ _ _ Ha).
Qed.

(** Where the text [l] is ahead, and [n] more elements and [k] more objects are
    possible, [m] reads it and returns a result that is in [Q] with the heaps
    before and after. *)
Definition runs (except : N -> Prop) {A} (m : P (C := C) A) (l : bytes) (n k : nat) (Q : A -> Obj.Heap -> Obj.Heap -> Prop) : Prop :=
  forall p rest, ahead input p l rest -> heap_room k (p_heap p) -> (parsed_items p + N.of_nat n <= max_items options)%N ->
    exists a p', m p = ok (a, p') /\ after except l n k p p' /\ Q a (p_heap p) (p_heap p').

Lemma runs_reads except {A B} (m : P A) (f : A -> P B) l l' n k Q a :
  reads input m l a -> runs except (f a) l' n k Q -> runs except (pbind m f) (l ++ l') n k Q.
Proof.
  intros Hm Hf p rest Hp Hr Hn. pose proof (ahead_app _ _ _ _ _ Hp) as [H1 H2].
  destruct (Hf _ _ H2 Hr Hn) as (b & p' & E & Ha & HQ). exists b, p'. split; [|split; [|done]].
  - unfold pbind. rewrite (Hm _ _ H1). exact E.
  - apply (after_trans except l l' 0 n 0 k p (with_offset p (offset p + length l))); [by apply after_offset_only|exact Ha].
Qed.
Lemma runs_count except {B} (f : unit -> P B) l c n k Q :
  runs except (f tt) l n k Q -> runs except (pbind (count_items options (N.of_nat c)) f) l (c + n) k Q.
Proof.
  intros Hf p rest Hp Hr Hn. unfold pbind, count_items. unfold Obj.U64 in *.
  rewrite (proj2 (N.leb_gt _ _)), (proj2 (N.ltb_ge _ _)) by lia. cbn [rbind ok obind fst snd].
  destruct (Hf (mk_parser (offset p) (parsed_items p + N.of_nat c) (p_heap p) (next_array p)) rest Hp Hr) as (b & p' & E & Ha & HQ).
  { cbn. lia. }
  exists b, p'. split; [done|]. split; [|done]. destruct Ha as [H1 H2 H3 H4 H5]. split; [exact H1| |exact H3|exact H4|exact H5].
  rewrite H2. cbn. lia.
Qed.
Lemma runs_then except {A B} (m : P A) (f : A -> P B) (g : A -> B) l l' n k Q R :
  runs except m l n k Q -> (forall a, reads input (f a) l' (g a)) -> (forall a h h', Q a h h' -> R (g a) h h') ->
  runs except (pbind m f) (l ++ l') n k R.
Proof.
  intros Hm Hf HR p rest Hp Hr Hn. destruct (ahead_app _ _ _ _ _ Hp) as [H1 _].
  destruct (Hm _ _ H1 Hr Hn) as (a & p' & E & Ha & HQ).
  pose proof (ahead_after _ _ _ _ _ _ _ _ Hp Ha) as H2. exists (g a), (with_offset p' (offset p' + length l')).
  split; [unfold pbind; rewrite E; cbn [rbind ok obind fst snd]; by apply (Hf a _ rest)|].
  split; [|by apply HR]. rewrite <- (Nat.add_0_r n), <- (Nat.add_0_r k).
  apply (after_trans except l l' n 0 k 0 p p'); [done|by apply after_offset_only].
Qed.

(** The value stands for [d] in every heap that has the objects made meanwhile. *)
Definition stands (d : Data) (v : Value C) (h h' : Obj.Heap (C := C)) : Prop :=
  forall room h'', height d <= room -> agrees (Obj.next_address h) (Obj.next_address h') h' h'' -> data_of h'' ∅ room [] v = Some d.
(** [m] parses the data [d]. *)
Definition parses (m : P (C := C) (Value C)) (d : Data) : Prop :=
  runs (fun _ => False) m (print d) (items d) (objects d) (stands d).

(** Parsers of scalars. *)
Lemma reads_parses m d v : reads input m (print d) v -> items d = 0 -> objects d = 0 -> 0 < height d ->
  (forall h room, data_of h ∅ (S room) [] v = Some d) -> parses m d.
Proof.
  intros Hm Hi Ho Hh Hd p rest Hp Hr Hn. rewrite (Hm _ _ Hp). eexists _, _. split; [done|]. rewrite Hi, Ho. split.
  - by apply after_offset_only.
  - intros room h' Hroom _. destruct room; [lia|]. apply Hd.
Qed.

(** ** Arrays *)

Context (bk : backend) `{KeyClassifier}.

Definition key_value (k : ArrayKey) : Value C := match k with KInt z => Int z | KString l => Str l end.

Lemma insert_fresh (a : ArrayStorage (V := Value C)) k v : array_ok a -> key_ok k -> k ∉ (iter a).*1 ->
  exists a' r, insert a k false v = Ret (r, a') /\ array_ok a' /\ iter a' = iter a ++ [(k, v)].
Proof.
  intros Ha Hk Hnew. destruct (insert_ok a k false v Ha Hk) as (r & a' & E & Ha' & Es). exists a', r. split; [done|]. split; [done|].
  unfold spec_insert in Es. assert (find_pos k (pairs (PhpArraySpec.abs a)) = None) as Hnone.
  { apply position_None. apply Forall_forall. intros [k' w] Hin. apply bool_decide_eq_false. cbn. intros ->. apply Hnew.
    apply list_elem_of_fmap. by exists (k, w). }
  rewrite Hnone in Es. apply (f_equal (fun q => pairs q.2)) in Es. by symmetry.
Qed.

(** What is needed of an element with its key. *)
Definition element_parses (parse : P (C := C) (Value C)) (q : ArrayKey * Data) : Prop :=
  reads input parse (write_key q.1) (key_value q.1) /\ from_value bk (key_value q.1) = Ret (Some q.1) /\ key_ok q.1 /\ parses parse q.2.

Definition elements_stand {A} (l : list (A * Data)) (vs : list (A * Value C)) (h h' : Obj.Heap (C := C)) : Prop :=
  forall room h'', highest height l <= room -> agrees (Obj.next_address h) (Obj.next_address h') h' h'' ->
    pairs_of id (data_of h'' ∅ room []) vs = Some l.

Lemma elements_parse parse l : Forall (element_parses parse) l -> forall a, array_ok a -> NoDup ((iter a).*1 ++ l.*1) ->
  runs (fun _ => False) (parse_elements bk parse (length l) a) (print_pairs write_key print l) (total items l) (total objects l)
    (fun a' h h' => exists vs, array_ok a' /\ iter a' = iter a ++ vs /\ elements_stand l vs h h').
Proof.
  induction 1 as [|[k d] l (Hk & Hkey & Hkok & Hd) _ IH]; intros a Ha Hnd p rest Hp Hr Hn.
  { exists a, p. split; [done|]. split; [|exists []; rewrite app_nil_r; done].
    replace p with (with_offset p (offset p)) at 2 by (by destruct p). apply after_offset_only. cbn. lia. }
  change (print_pairs write_key print ((k, d) :: l)) with (write_key k ++ print d ++ print_pairs write_key print l) in *.
  change (total objects ((k, d) :: l)) with (objects d + total objects l) in *.
  change (total items ((k, d) :: l)) with (items d + total items l) in *. cbn [fst snd] in *.
  pose proof (ahead_app _ _ _ _ _ Hp) as [Hp1 _]. set (p1 := with_offset p (offset p + length (write_key k))).
  assert (after (fun _ => False) (write_key k) 0 0 p p1) as A1 by by apply after_offset_only.
  pose proof (ahead_after _ _ _ _ _ _ _ _ Hp A1) as Hp2. pose proof (ahead_app _ _ _ _ _ Hp2) as [Hp2' _].
  destruct (Hd p1 _ Hp2') as (v & p2 & Ev & A2 & Dv); [eapply heap_room_le; [|exact Hr]; lia|cbn; lia|].
  destruct (insert_fresh a k v Ha Hkok) as (a1 & r & Ei & Ha1 & Eit).
  { intros Hin. apply NoDup_app in Hnd as (_ & Hdis & _). apply (Hdis k Hin). cbn. left. }
  pose proof (ahead_after _ _ _ _ _ _ _ _ Hp2 A2) as Hp3.
  destruct (IH a1 Ha1 ltac:(rewrite Eit, fmap_app, <- app_assoc; exact Hnd) p2 rest Hp3) as (a' & p' & Ee & A3 & vs & Ha' & Eit' & Dvs).
  { apply (after_room _ _ _ _ _ _ A2). exact Hr. }
  { rewrite (after_items _ _ _ _ _ _ A2). cbn. lia. }
  exists a', p'. split.
  { cbn [length parse_elements]. unfold pbind. rewrite (Hk _ _ Hp1). cbn [rbind ok obind fst snd]. fold p1. rewrite Ev.
    cbn [rbind ok obind fst snd plift]. unfold plift. rewrite Hkey. cbn [rbind ok obind fst snd or_error pret]. rewrite Ei.
    cbn [rbind ok obind fst snd]. exact Ee. }
  split.
  { exact (after_trans _ _ _ 0 _ 0 _ _ _ _ A1 (after_trans _ _ _ _ _ _ _ _ _ _ A2 A3)). }
  exists ((k, v) :: vs). split; [done|]. split; [by rewrite Eit', Eit, <- app_assoc|]. intros room h' Hroom Hag.
  change (highest height ((k, d) :: l)) with (Nat.max (height d) (highest height l)) in Hroom.
  pose proof (after_next _ _ _ _ _ _ A2) as N2. pose proof (after_next _ _ _ _ _ _ A3) as N3. cbn in N2.
  apply (pairs_of_cons id); [apply Dv; [lia|]|apply Dvs; [lia|]].
  2: { eapply agrees_sub; [|reflexivity|exact Hag]. lia. }
  - apply (agrees_trans _ _ _ (p_heap p')).
    + intros b Hb. apply (after_old _ _ _ _ _ _ A3); [lia|tauto].
    + eapply agrees_sub; [reflexivity| |exact Hag]. lia.
Qed.

Lemma array_parses parse l : Forall (element_parses parse) l -> NoDup l.*1 ->
  runs (fun _ => False) (parse_array bk input options parse)
    (lit ":" ++ print_usize (length l) ++ lit ":{" ++ print_pairs write_key print l ++ lit "}")
    (items (DArray l)) (objects (DArray l)) (stands (DArray l)).
Proof.
  intros Hl Hnd p rest Hp Hr Hn. assert (Z.of_nat (length l) < 2 ^ 63)%Z as Hlen by (cbn [items] in Hn; lia). revert p rest Hp Hr Hn.
  apply (runs_reads _ _ _ _ _ _ _ _ tt); [apply reads_expect|]. change (lit ":{") with ([":"%byte] ++ lit "{"). rewrite !app_assoc, <- !app_assoc.
  rewrite (app_assoc (print_usize _)). apply (runs_reads _ _ _ _ _ _ _ _ (N.of_nat (length l))); [by apply reads_usize|].
  apply runs_count. apply (runs_reads _ _ _ _ _ _ _ _ tt); [apply reads_expect|].
  intros p rest Hp Hr Hn. set (p0 := mk_parser (offset p) (parsed_items p) (p_heap p) (next_array p + 1)).
  enough (runs (fun _ => False) (pbind (parse_elements bk parse (N.to_nat (N.of_nat (length l))) (new_array (next_array p)))
    (fun a => pbind (expect input "}"%byte) (fun _ => pret (Array a)))) (print_pairs write_key print l ++ lit "}") (total items l) (total objects l) (stands (DArray l))) as Hruns.
  { destruct (Hruns p0 rest Hp Hr Hn) as (v & p' & E & Ha & HQ). exists v, p'. split; [exact E|]. split; [|exact HQ].
    destruct Ha as [H1 H2 H3 H4 H5]. by split. }
  rewrite Nat2N.id. eapply (runs_then _ _ _ (fun a => Array a)).
  - apply elements_parse; [done|apply NativeOpsClaims.new_array_ok|exact Hnd].
  - intros a. eapply reads_then; [apply reads_expect|done].
  - intros a h h' (vs & Ha & Eit & Hvs) room h'' Hroom Hag. cbn [height] in Hroom. destruct room as [|room]; [lia|]. cbn [data_of].
    rewrite (len_iter a _ (layout_consistent a Ha)), Nat.eqb_refl, Eit. change (iter (new_array (next_array p)) ++ vs) with vs.
    rewrite (Hvs room h''); [done|lia|done].
Qed.

(** ** Objects *)

(** What writing properties leaves as it is. *)
Definition shape (s : Obj.ObjectStorage (C := C)) := (Obj.class_name s, Obj.display_name s, Obj.layout s, Obj.dynamic_debug_labels s).
Lemma set_shape s n v s' : Obj.set s n v = Ret s' -> shape s' = shape s.
Proof.
  unfold Obj.set, Obj.slot_put. destruct (Obj.slot_of s n); [|intros [= <-]; done]. destruct (_ <? _); [|done]. by intros [= <-].
Qed.

(** The object has the dynamic properties [l], in this order, and no others. *)
Definition holds (h : Obj.Heap (C := C)) (address : N) (s : Obj.ObjectStorage (C := C)) (l : list (bytes * Value C)) : Prop :=
  exists cell, Obj.object_cells h !! address = Some cell /\ storage_ok (Obj.storage cell) /\ shape (Obj.storage cell) = shape s /\
    declared (ObjectProofs.abs (Obj.storage cell)) = [] /\ dynamic (ObjectProofs.abs (Obj.storage cell)) = l.

Lemma set_new h address s l n v : holds h address s l -> n ∉ l.*1 ->
  exists h', Obj.set_property address n v h = Ret h' /\ holds h' address s (l ++ [(n, v)]) /\
    (forall a, a <> address -> Obj.object_cells h' !! a = Obj.object_cells h !! a) /\
    Obj.next_address h' = Obj.next_address h /\ (forall k, heap_room k h -> heap_room k h').
Proof.
  intros (cell & Hc & Hok & Hsh & Hdecl & Hdyn) Hn. unfold Obj.set_property, Obj.cell_at. rewrite Hc. cbn [obind].
  destruct (set_spec _ n v Hok) as (s' & E & Hok' & Habs). rewrite E. cbn [obind]. eexists. split; [done|].
  split; [|split; [|done]].
  - exists (Obj.mk_cell (Obj.cell_id cell) s'). cbn [Obj.put_cell Obj.object_cells Obj.storage]. rewrite lookup_insert_eq.
    split; [done|]. split; [done|]. split; [by rewrite (set_shape _ _ _ _ E)|]. rewrite Habs. unfold spec_set. rewrite Hdecl, Hdyn. cbn [assoc].
    by rewrite (proj2 (assoc_None l n) Hn).
  - intros a Ha. by apply lookup_insert_ne.
Qed.

Definition property_parses (parse : P (C := C) (Value C)) (q : bytes * Data) : Prop :=
  reads input parse (write_string q.1) (Str q.1) /\ from_utf8_lossy q.1 = q.1 /\ parses parse q.2.

Lemma after_set except l n k p p' address h :
  after (eq address) l n k p p' -> (forall a, a <> address -> Obj.object_cells h !! a = Obj.object_cells (p_heap p') !! a) ->
  Obj.next_address h = Obj.next_address (p_heap p') -> (forall j, heap_room j (p_heap p') -> heap_room j h) ->
  (forall a, except a <-> address = a) -> after except l n k p (with_heap p' h).
Proof.
  intros [H1 H2 H3 H4 H5] Hc Hnext Hroom He. split; cbn [with_heap offset parsed_items p_heap]; [done|done| | |].
  - intros a Ha Hne. rewrite Hc by (intros ->; by apply Hne, He). apply H3; [done|]. intros ->. by apply Hne, He.
  - by rewrite Hnext.
  - intros j Hj. by apply Hroom, H5.
Qed.

Lemma properties_parse parse l s : Forall (property_parses parse) l -> forall old address p rest,
  ahead input p (print_pairs write_string print l) rest -> heap_room (total objects l) (p_heap p) ->
  (parsed_items p + N.of_nat (total items l) <= max_items options)%N ->
  holds (p_heap p) address s old -> (address < Obj.next_address (p_heap p))%N -> NoDup (old.*1 ++ l.*1) ->
  exists p', parse_properties parse (length l) address p = ok (tt, p') /\
    after (eq address) (print_pairs write_string print l) (total items l) (total objects l) p p' /\
    exists vs, holds (p_heap p') address s (old ++ vs) /\ elements_stand l vs (p_heap p) (p_heap p').
Proof.
  induction 1 as [|[n d] l (Hn & Hutf & Hd) _ IH]; intros old address p rest Hp Hr Hi Ho Had Hnd.
  { exists p. split; [done|]. split; [|exists []; by rewrite app_nil_r].
    replace p with (with_offset p (offset p)) at 2 by (by destruct p). apply after_offset_only. cbn. lia. }
  change (print_pairs write_string print ((n, d) :: l)) with (write_string n ++ print d ++ print_pairs write_string print l) in *.
  change (total objects ((n, d) :: l)) with (objects d + total objects l) in *.
  change (total items ((n, d) :: l)) with (items d + total items l) in *. cbn [fst snd] in *.
  pose proof (ahead_app _ _ _ _ _ Hp) as [Hp1 _]. set (p1 := with_offset p (offset p + length (write_string n))).
  assert (after (eq address) (write_string n) 0 0 p p1) as A1 by by apply after_offset_only.
  pose proof (ahead_after _ _ _ _ _ _ _ _ Hp A1) as Hp2. pose proof (ahead_app _ _ _ _ _ Hp2) as [Hp2' _].
  destruct (Hd p1 _ Hp2') as (v & p2 & Ev & A2 & Dv); [eapply heap_room_le; [|exact Hr]; lia|cbn; lia|].
  assert (holds (p_heap p2) address s old) as Ho2.
  { destruct Ho as (cell & Hc & Ho). exists cell. split; [|done]. rewrite (after_old _ _ _ _ _ _ A2); [done|done|by intros []]. }
  destruct (set_new (p_heap p2) address s old n v Ho2) as (h & Es & Ho3 & Hother & Hnext & Hroom).
  { intros Hin. apply NoDup_app in Hnd as (_ & Hdis & _). apply (Hdis n Hin). cbn. left. }
  set (p3 := with_heap p2 h). assert (after (eq address) (print d) (items d) (objects d) p1 p3) as A3.
  { apply (after_set _ _ _ _ _ _ address); [|done..]. eapply after_weaken; [|exact A2]. by intros a []. }
  pose proof (ahead_after _ _ _ _ _ _ _ _ Hp2 A3) as Hp3. pose proof (after_next _ _ _ _ _ _ A2) as N2. cbn in N2.
  destruct (IH (old ++ [(n, v)]) address p3 rest Hp3) as (p' & Ee & A4 & vs & Ho' & Dvs).
  { apply (after_room _ _ _ _ _ _ A3). exact Hr. }
  { rewrite (after_items _ _ _ _ _ _ A3). cbn. lia. }
  { done. }
  { cbn. rewrite Hnext. lia. }
  { rewrite fmap_app, <- app_assoc. exact Hnd. }
  exists p'. split.
  { cbn [length parse_properties]. unfold pbind. rewrite (Hn _ _ Hp1). cbn [rbind ok obind fst snd]. fold p1. rewrite Ev.
    cbn [rbind ok obind fst snd]. rewrite Hutf, Es. cbn [obind]. exact Ee. }
  split; [exact (after_trans _ _ _ 0 _ 0 _ _ _ _ A1 (after_trans _ _ _ _ _ _ _ _ _ _ A3 A4))|].
  exists ((n, v) :: vs). split; [by rewrite <- app_assoc in Ho'|]. intros room h' Hroom' Hag.
  change (highest height ((n, d) :: l)) with (Nat.max (height d) (highest height l)) in Hroom'.
  pose proof (after_next _ _ _ _ _ _ A4) as N4. cbn in N4. rewrite Hnext in N4.
  apply (pairs_of_cons id); [apply Dv; [lia|]|apply Dvs; [lia|]].
  - apply (agrees_trans _ _ _ (p_heap p')).
    + intros b Hb. cbn in Hb. rewrite (after_old _ _ _ _ _ _ A4); [|cbn; rewrite Hnext; lia|lia]. cbn. apply Hother. lia.
    + eapply agrees_sub; [reflexivity| |exact Hag]. lia.
  - eapply agrees_sub; [|reflexivity|exact Hag]. cbn. rewrite Hnext. lia.
Qed.

(** The name of a property in a new object is its serialized name. *)
Lemma plain_name (s : Obj.ObjectStorage (C := C)) n : Obj.debug_labels (Obj.layout s) = ∅ -> Obj.dynamic_debug_labels s = ∅ ->
  Obj.private_parts n = None -> serialized_object_property_name s n = n.
Proof.
  intros H1 H2 Hn. unfold serialized_object_property_name. rewrite Hn. unfold Obj.debug_label. rewrite H1, H2, !lookup_empty. cbn [default].
  destruct (strip_prefix [DQUOTE] (Obj.quoted n)) as [r|] eqn:E; [|done]. apply strip_prefix_Some in E.
  unfold Obj.quoted in E. injection E as <-. cbn [mbind option_bind]. unfold strip_suffix. rewrite rev_app_distr.
  by destruct (strip_prefix _ _) eqn:E'; [apply strip_prefix_Some in E'|].
Qed.
Lemma plain_names (s : Obj.ObjectStorage (C := C)) (f : Value C -> option Data) vs l : Obj.debug_labels (Obj.layout s) = ∅ -> Obj.dynamic_debug_labels s = ∅ ->
  Forall (fun q => Obj.private_parts q.1 = None) l -> pairs_of id f vs = Some l -> pairs_of (serialized_object_property_name s) f vs = Some l.
Proof.
  intros H1 H2 Hl. revert l Hl. induction vs as [|[n v] vs IH]; intros l Hl E; [done|]. unfold pairs_of in E. cbn [mapM fst snd] in E.
  destruct (f v) as [d|] eqn:Ev; [|done]. cbn [fmap option_fmap option_map mbind option_bind] in E.
  destruct (mapM _ vs) as [m|] eqn:Em; [|done]. injection E as <-. apply Forall_cons in Hl as [Hn Hl].
  rewrite <- (plain_name s n H1 H2 Hn) at 2. apply pairs_of_cons; [done|]. by apply IH.
Qed.

Lemma no_error (s : Obj.ObjectStorage (C := C)) c : wf_class c = true -> Obj.class_name s = normalize_class_name c ->
  object_serialization_error s = Ret None.
Proof.
  unfold wf_class, object_serialization_error, hash_context_serialization_error. rewrite !andb_true_iff, !negb_true_iff. intros [[_ Hx] Hh] E.
  by rewrite E, normalize_idemp, Hx, Hh.
Qed.

(** An object with the properties that were read. *)
Lemma object_stands c l vs address h h1 h2 cell : wf_class c = true -> Forall (fun q => Obj.private_parts q.1 = None) l ->
  address = Obj.next_address h -> Obj.next_address h1 = (address + 1)%N -> (Obj.next_address h1 <= Obj.next_address h2)%N ->
  layout_for (C := C) (empty_class c) c (Obj.layout (Obj.storage cell)) -> Obj.class_name (Obj.storage cell) = normalize_class_name c ->
  Obj.display_name (Obj.storage cell) = c -> Obj.dynamic_debug_labels (Obj.storage cell) = ∅ ->
  holds h2 address (Obj.storage cell) vs -> elements_stand l vs h1 h2 -> stands (DObject c l) (Object address) h h2.
Proof.
  intros Hc Hl -> Hn1 Hn2 Hlay Hcn Hdn Hlab (cell2 & Hcell & _ & Hsh & Hdecl & Hdyn) Hvs room h'' Hroom Hag.
  cbn [height] in Hroom. destruct room as [|room]; [lia|]. cbn [data_of]. rewrite (Hag _) by lia. rewrite Hcell. cbn [mbind option_bind].
  unfold shape in Hsh. injection Hsh as Ecn Edn Elay Elab. rewrite (no_error _ c Hc) by congruence.
  assert (Obj.snapshot (Obj.storage cell2) = vs) as ->. { rewrite snapshot_abs. unfold spec_all. by rewrite Hdecl, Hdyn. }
  rewrite (plain_names _ _ vs l); [by rewrite Edn, Hdn| | |done|].
  - rewrite Elay. by destruct Hlay as (_ & -> & _).
  - congruence.
  - apply Hvs; [lia|]. eapply agrees_sub; [|reflexivity|exact Hag]. lia.
Qed.

Lemma object_body c parse l : wf_class c = true -> Forall (property_parses parse) l ->
  Forall (fun q => Obj.private_parts q.1 = None) l -> NoDup l.*1 ->
  runs (fun _ => False) (fun p =>
      olet (address, h) := Obj.new_with_display_name (empty_class (from_utf8_lossy c)) (Obj.display_class_name (from_utf8_lossy c)) (p_heap p) in
      pbind (parse_properties parse (length l) address) (fun _ => pbind (expect input "}"%byte) (fun _ => pret (Object address))) (with_heap p h))
    (print_pairs write_string print l ++ lit "}") (total items l) (S (total objects l)) (stands (DObject c l)).
Proof.
  intros Hc Hl Hpr Hnd p rest Hp Hr Hn. pose proof Hc as Hc'. unfold wf_class in Hc'. rewrite !andb_true_iff in Hc'. destruct Hc' as [[[Hu Hd%bytes_eqb_true] _] _].
  rewrite lossy_valid, Hd by done. destruct (heap_room_new _ _ Hr) as [Hroom Hid].
  destruct (new_cell (empty_class c) c (p_heap p) (proj1 Hr) Hroom Hid)
    as (cell & h1 & E & Hcells & Hnext & Hok & Habs & Hlay & Hcn & Hdn & Hlab & Hlok & Hlid & Hoid). rewrite E. cbn [obind].
  set (p1 := with_heap p h1). assert (forall j, heap_room (S j) (p_heap p) -> heap_room j h1) as Hj.
  { intros j (_ & Hj1 & Hj2). split; [done|]. lia. }
  destruct (ahead_app _ _ _ _ _ Hp) as [Hp1 _].
  destruct (properties_parse parse l (Obj.storage cell) Hl [] (Obj.next_address (p_heap p)) p1 _ Hp1 (Hj _ Hr) Hn)
    as (p2 & Ep & A & vs & Hholds & Hvs).
  { exists cell. change (p_heap p1) with h1. rewrite Hcells, lookup_insert_eq, Habs. done. }
  { cbn. rewrite Hnext. lia. }
  { exact Hnd. }
  assert (after (fun _ => False) (print_pairs write_string print l) (total items l) (S (total objects l)) p p2) as A'.
  { destruct A as [A1 A2 A3 A4 A5]. cbn in A4. rewrite Hnext in A4. split; [exact A1|exact A2| |lia|intros j Hj'; by apply A5, Hj].
    intros a Ha _. rewrite A3; [|cbn; rewrite Hnext; lia|lia]. cbn. rewrite Hcells. apply lookup_insert_ne. lia. }
  pose proof (ahead_after _ _ _ _ _ _ _ _ Hp A') as Hp2. exists (Object (Obj.next_address (p_heap p))), (with_offset p2 (offset p2 + 1)). split.
  { unfold pbind at 1. rewrite Ep. cbn [rbind ok obind fst snd]. eapply (reads_then _ _ _ ["}"%byte]); [apply reads_expect|done|exact Hp2]. }
  split.
  - rewrite <- (Nat.add_0_r (total items l)), <- (Nat.add_0_r (S _)). eapply after_trans; [exact A'|by apply after_offset_only].
  - eapply (object_stands c l vs _ _ h1); try done. cbn. exact (after_next _ _ _ _ _ _ A).
Qed.

Lemma object_parses parse c l : wf_class c = true -> Forall (property_parses parse) l ->
  Forall (fun q => Obj.private_parts q.1 = None) l -> NoDup l.*1 ->
  runs (fun _ => False) (parse_object input options parse)
    (lit ":" ++ print_usize (length c) ++ lit ":" ++ quote_bytes c ++ lit ":" ++ print_usize (length l) ++ lit ":{"
      ++ print_pairs write_string print l ++ lit "}")
    (items (DObject c l)) (objects (DObject c l)) (stands (DObject c l)).
Proof.
  intros Hc Hl Hpr Hnd p rest Hp Hr Hn. assert (Z.of_nat (length l) < 2 ^ 63)%Z as Hlen by (cbn [items] in Hn; lia).
  assert (Z.of_nat (length c) < 2 ^ 63)%Z as Hlen'.
  { pose proof (ahead_bound input Hinput p _ _ Hp ltac:(done)) as Hb. rewrite !length_app in Hb. unfold quote_bytes in Hb. cbn [length] in Hb. rewrite length_app in Hb. lia. }
  revert p rest Hp Hr Hn. apply (runs_reads _ _ _ _ _ _ _ _ tt); [apply reads_expect|].
  rewrite (app_assoc (print_usize (length c))). apply (runs_reads _ _ _ _ _ _ _ _ (N.of_nat (length c))); [by apply reads_usize|].
  apply (runs_reads _ _ _ _ _ _ _ _ c); [by apply reads_quoted|].
  apply (runs_reads _ _ _ _ _ _ _ _ tt); [apply reads_expect|]. change (lit ":{") with ([":"%byte] ++ lit "{").
  rewrite <- (app_assoc [":"%byte]), (app_assoc (print_usize (length l))).
  apply (runs_reads _ _ _ _ _ _ _ _ (N.of_nat (length l))); [by apply reads_usize|].
  apply runs_count. apply (runs_reads _ _ _ _ _ _ _ _ tt); [apply reads_expect|]. rewrite Nat2N.id. by apply object_body.
Qed.
End Parsed.
