(* ===== verification/SerializationClaims.v ===== *)
(** * SerializationClaims: what serialization promises *)

From Stdlib Require Import Strings.String Strings.Byte ZArith Floats.SpecFloat.
From stdpp Require Import base list option numbers gmap fin_maps.
From S2P Require Import Prelude RustStd RustNum RustFloat RustText FloatText Simd PhpString NumericString PhpArray PhpArrayProofs PhpArraySpec Convert NativeOpsClaims Names IrConst Objects ObjectProofs ObjectLayouts ObjectClaims Serialization SerializationProofs SerializationParse.

Section Trip.
Context {C : Type} (bk : backend) `{KeyClassifier} (input : bytes) (Hinput : (Z.of_nat (length input) < 2 ^ 63)%Z)
  (options : UnserializeOptions) (Hitems : (max_items options < 2 ^ 63)%N).

Abbreviation parser := (parse_value (C := C) bk input options).

Lemma reads_null room : reads input (parser (S room)) (lit "N;") Null.
Proof. apply (reads_bind _ _ _ ["N"%byte] [";"%byte] "N"%byte); [apply reads_byte|]. eapply reads_then; [apply reads_expect|done]. Qed.
Lemma reads_boolean room (b : bool) : reads input (parser (S room)) (if b then lit "b:1;" else lit "b:0;") (Bool b).
Proof.
  replace (if b then lit "b:1;" else lit "b:0;") with (["b"%byte] ++ [":"%byte] ++ [if b then "1"%byte else "0"%byte] ++ [";"%byte]) by by destruct b.
  eapply reads_bind; [apply reads_byte|]. eapply reads_bind; [apply reads_expect|]. eapply reads_bind; [apply reads_bool|].
  eapply reads_then; [apply reads_expect|done].
Qed.
Lemma reads_integer room z : in_i64 z = true -> reads input (parser (S room)) (write_int z) (Int z).
Proof.
  intros Hz. apply (reads_bind _ _ _ ["i"%byte] (":"%byte :: print_i64 z ++ [";"%byte]) "i"%byte); [apply reads_byte|].
  apply (reads_bind _ _ _ [":"%byte] _ tt); [apply reads_expect|]. eapply reads_then; [by apply reads_i64|done].
Qed.
Lemma reads_double room x : float_reads x = true -> reads input (parser (S room)) (print (DFloat x)) (Float x).
Proof.
  unfold float_reads. rewrite !andb_true_iff, !bool_decide_eq_true. intros [[Hx Hu] Hl].
  apply (reads_bind _ _ _ ["d"%byte] (":"%byte :: serialize_float x (-1) ++ [";"%byte]) "d"%byte); [apply reads_byte|].
  apply (reads_bind _ _ _ [":"%byte] _ tt); [apply reads_expect|]. eapply reads_then; [by apply reads_f64|done].
Qed.
Lemma reads_text room l : reads input (parser (S room)) (write_string l) (Str l).
Proof.
  apply (reads_bind _ _ _ ["s"%byte] (":"%byte :: print_usize (length l) ++ lit ":" ++ quote_bytes l ++ lit ";") "s"%byte); [apply reads_byte|].
  eapply reads_then; [by apply reads_string|done].
Qed.

Lemma height_pos d : 0 < height d.
Proof. destruct d; cbn; lia. Qed.
Lemma highest_elem {A} (l : list (A * Data)) q : q ∈ l -> height q.2 <= highest height l.
Proof. induction 1; unfold highest in *; cbn [foldr]; lia. Qed.

Lemma parser_parses d : wf_data bk d = true -> forall room, height d <= room -> parses input options (parser room) d.
Proof.
  induction d as [|b|z|x|l|l IH|c l IH] using Data_rect'; intros Hd room Hh; (destruct room as [|room]; [cbn in Hh; lia|]).
  - apply (reads_parses _ _ Hitems _ _ Null); [apply reads_null|done|done|cbn; lia|done].
  - apply (reads_parses _ _ Hitems _ _ (Bool b)); [apply reads_boolean|done|done|cbn; lia|done].
  - apply (reads_parses _ _ Hitems _ _ (Int z)); [by apply reads_integer|done|done|cbn; lia|done].
  - apply (reads_parses _ _ Hitems _ _ (Float x)); [by apply reads_double|done|done|cbn; lia|done].
  - apply (reads_parses _ _ Hitems _ _ (Str l)); [by apply reads_text|done|done|cbn; lia|done].
  - cbn [wf_data] in Hd. apply andb_true_iff in Hd as [Hl Hnd%bool_decide_eq_true]. cbn [height] in Hh.
    apply (runs_reads _ _ Hitems _ _ _ ["a"%byte] _ _ _ _ "a"%byte); [apply reads_byte|]. apply array_parses; [done..| |done].
    apply Forall_forall. intros [k d] Hin. rewrite forallb_forall in Hl. pose proof (Hl _ (proj1 (list_elem_of_In _ _) Hin)) as [Hk Hd]%andb_true_iff.
    pose proof (highest_elem l _ Hin) as Hhd. pose proof (height_pos d) as Hpos. cbn [fst snd] in *. destruct room as [|room]; [lia|].
    unfold element_parses. cbn [fst snd]. split; [|split; [|split]].
    + destruct k; [by apply reads_integer|by apply reads_text].
    + destruct k as [z|s]; [done|]. cbn [wf_key] in Hk. cbn [key_value from_value]. unfold from_php_string. by destruct (array_key_integer_bytes bk s) as [[]| |].
    + by destruct k.
    + rewrite Forall_forall in IH. exact (IH _ Hin Hd (S room) ltac:(cbn; lia)).
  - cbn [wf_data] in Hd. rewrite !andb_true_iff in Hd. destruct Hd as [[Hc Hl] Hnd%bool_decide_eq_true]. cbn [height] in Hh.
    rewrite forallb_forall in Hl. rewrite Forall_forall in IH.
    assert (forall q, q ∈ l -> utf8_valid q.1 = true /\ Obj.private_parts q.1 = None /\ wf_data bk q.2 = true) as Hq.
    { intros q Hin. pose proof (Hl _ (proj1 (list_elem_of_In _ _) Hin)) as [Hn Hd]%andb_true_iff.
      apply andb_true_iff in Hn as [? ?%bool_decide_eq_true]. done. }
    apply (runs_reads _ _ Hitems _ _ _ ["O"%byte] _ _ _ _ "O"%byte); [apply reads_byte|].
    apply object_parses; [done..| | |done]; apply Forall_forall; intros q Hin; destruct (Hq q Hin) as (Hu & Hpp & Hd); [|done].
    pose proof (highest_elem l _ Hin) as Hhd. pose proof (height_pos q.2) as Hpos. destruct room as [|room]; [lia|].
    split; [apply reads_text|]. split; [by apply lossy_valid|]. exact (IH _ Hin Hd (S room) ltac:(lia)).
Qed.

End Trip.


(** A point with a public and a protected coordinate, and a dynamic property. *)
Definition sample_property (name : bytes) (protected : bool) (v : Value unit) : Obj.ClassPropertyEntry (C := unit) :=
  Obj.mk_property_entry name v (Obj.mk_property_flags false false protected false false false false) (Obj.mk_property_hooks None None false).
Definition sample_class : Obj.ClassEntry (C := unit) :=
  Obj.mk_class_entry (lit "point") [] [] [sample_property (lit "x") false (Int 3); sample_property (lit "y") true (Int (-4))] None Obj.no_flags.
Definition sample_heap : Obj.Heap (C := unit) :=
  match (olet (a, h) := Obj.new_with_display_name sample_class (lit "Point") test_heap in Obj.set_property a (lit "tag") (Reference 0) h) with
  | Ret h => h | _ => test_heap end.
Definition sample_cells : gmap N (Value unit) := {[0%N := Array (from_packed 1 [Bool true; Reference 0; Float (S754_finite false 6755399441055744 (-52))])]}.
Definition sample_value : Value unit := Array (from_packed 2 [Object 0; Str (lit "a;b"); Null]).
Definition sample_data : Data :=
  DArray [(KInt 0, DObject (lit "Point") [(lit "x", DInt 3); (NUL :: lit "*" ++ NUL :: lit "y", DInt (-4));
                    (lit "tag", DArray [(KInt 0, DBool true); (KInt 1, DNull); (KInt 2, DFloat (S754_finite false 6755399441055744 (-52)))])]);
          (KInt 1, DStr (lit "a;b")); (KInt 2, DNull)].

#[local] Instance sample_keys : KeyClassifier := {| ambiguous := fun _ => false |}.
