(* ===== verification/SerializationSafety.v ===== *)
(** * SerializationSafety: the parser returns on every text

    Whatever the text, the parser returns a value or an error, unless the text
    spells a number of twenty digits. *)

From Stdlib Require Import Strings.String Strings.Byte ZArith Floats.SpecFloat.
From stdpp Require Import base list option numbers gmap fin_maps.
From S2P Require Import Prelude RustStd RustNum RustFloat RustText FloatText Simd PhpString NumericString PhpArray PhpArrayProofs PhpArraySpec Convert NativeOpsClaims Names IrConst IrConstProofs Objects ObjectProofs ObjectLayouts ObjectClaims Serialization SerializationProofs SerializationParse.

(** No twenty digits in a row. *)
Definition short_numbers (l : bytes) : bool := forallb (fun i => run_len is_ascii_digit (drop i l) <? 20) (seq 0 (length l)).

Section Returns.
Context {C : Type} (bk : backend) `{KeyClassifier} (input : bytes) (Hinput : (Z.of_nat (length input) <= 2 ^ 62)%Z)
  (Hshort : short_numbers input = true) (options : UnserializeOptions).
Implicit Types p : Parser (C := C).

(** A value in [Q] or an error. *)
Definition returns {A} (o : Res (A * Parser (C := C))) (Q : A -> Parser -> Prop) : Prop :=
  match o with Ret (Ok (a, p)) => Q a p | Ret (Err _) => True | _ => False end.
Lemma returns_bind {A B} (m : P (C := C) A) (f : A -> P B) p Q R :
  returns (m p) Q -> (forall a p', Q a p' -> returns (f a p') R) -> returns (pbind m f p) R.
Proof. unfold returns, pbind. destruct (m p) as [[[a p']|]| |]; try done. cbn. intros HQ HR. by apply HR. Qed.
Lemma returns_impl {A} (o : Res (A * Parser)) (Q R : A -> Parser -> Prop) : returns o Q -> (forall a p, Q a p -> R a p) -> returns o R.
Proof. unfold returns. destruct o as [[[a p]|]| |]; try done. intros HQ HR. by apply HR. Qed.

(** ** Steps that leave the heap alone *)

Definition moved p p' : Prop := p_heap p' = p_heap p /\ offset p <= offset p' <= length input.
Lemma parser_moved_refl p : offset p <= length input -> moved p p.
Proof. intros Hp. by split. Qed.
Lemma parser_moved_trans p1 p2 p3 : moved p1 p2 -> moved p2 p3 -> moved p1 p3.
Proof. intros [H1 H2] [H3 H4]. split; [congruence|lia]. Qed.
(** [m] moves ahead and returns something in [Q]. *)
Definition moves {A} (m : P (C := C) A) (Q : A -> Prop) : Prop :=
  forall p, offset p <= length input -> returns (m p) (fun a p' => moved p p' /\ Q a).

Lemma moves_bind {A B} (m : P A) (f : A -> P B) (Q : A -> Prop) R :
  moves m Q -> (forall a, Q a -> moves (f a) R) -> moves (pbind m f) R.
Proof.
  intros Hm Hf p Hp. eapply returns_bind; [by apply Hm|]. intros a p' [Hmv Ha]. eapply returns_impl; [apply (Hf a Ha); apply Hmv|].
  intros b p2 [Hmv2 Hb]. split; [by eapply parser_moved_trans|done].
Qed.
Lemma moves_ret {A} (a : A) (Q : A -> Prop) : Q a -> moves (pret a) Q.
Proof. intros Ha p Hp. split; [by apply parser_moved_refl|done]. Qed.
Lemma moves_err {A} message (Q : A -> Prop) : moves (perr message) Q.
Proof. by intros p Hp. Qed.
Lemma moves_or_error {A} (o : option A) message (Q : A -> Prop) : (forall a, o = Some a -> Q a) -> moves (or_error o message) Q.
Proof. intros Ho. destruct o; [by apply moves_ret, Ho|apply moves_err]. Qed.

Lemma byte_moves p : offset p <= length input -> returns (take_byte input p) (fun _ p' => moved p p' /\ offset p < offset p').
Proof.
  intros Hp. unfold take_byte. destruct (input !! offset p) eqn:E; [|done]. apply lookup_lt_Some in E. cbn. split; [split; [done|cbn; lia]|lia].
Qed.
Lemma expect_moves x : moves (expect input x) (fun _ => True).
Proof.
  intros p Hp. eapply returns_bind; [by apply byte_moves|]. intros y p' [Hm _]. destruct (y =b x)%byte; [|done]. by split.
Qed.
Lemma bool_moves : moves (take_bool input) (fun _ => True).
Proof.
  intros p Hp. eapply returns_bind; [by apply byte_moves|]. intros y p' [Hm _]. repeat case_match; done.
Qed.
(** The text is a part of the input. *)
Lemma until_moves x : moves (take_ascii_until input x) (fun l => exists i, i < length input /\ take (length l) (drop i input) = l).
Proof.
  intros p Hp. unfold take_ascii_until. destruct (position _ _) as [n|] eqn:E; [|done]. apply position_lt in E. rewrite length_drop in E.
  destruct (utf8_valid _); [|done]. cbn. split; [split; cbn; [done|lia]|]. exists (offset p). split; [lia|]. rewrite length_take, length_drop.
  by replace (n `min` (length input - offset p)) with n by lia.
Qed.
Lemma run_of_digits (l : bytes) n : forallb is_ascii_digit (take n l) = true -> length (take n l) <= run_len is_ascii_digit l.
Proof.
  revert n. induction l as [|x l IH]; intros n Hl; [by rewrite take_nil|]. destruct n as [|n]; [cbn; lia|]. cbn in *.
  apply andb_true_iff in Hl as [-> Hl]. apply le_n_S. by apply IH.
Qed.
Lemma digits_short i n : i < length input -> forallb is_ascii_digit (take n (drop i input)) = true ->
  (0 <= digits_val (take n (drop i input)) < 10 ^ 19)%Z.
Proof.
  intros Hi Hd. pose proof (digits_val_bound _ Hd) as Hb. pose proof (run_of_digits _ _ Hd) as Hr.
  unfold short_numbers in Hshort. rewrite forallb_forall in Hshort. specialize (Hshort i ltac:(apply in_seq; lia)). apply Nat.ltb_lt in Hshort.
  pose proof (Z.pow_le_mono_r 10 (Z.of_nat (length (take n (drop i input)))) 19). lia.
Qed.

Lemma usize_digits l n : parse_usize l = Some n -> exists k, (k = 0 \/ k = 1) /\ drop k l <> [] /\
  forallb is_ascii_digit (drop k l) = true /\ n = Z.to_N (digits_val (drop k l)).
Proof.
  unfold parse_usize. intros E. assert (exists k, (k = 0 \/ k = 1) /\ match l with "+"%byte :: rest => rest | _ => l end = drop k l) as (k & Hk & El).
  { destruct l as [|x l]; [exists 0; split; [by left|done]|].
    destruct x; solve [exists 0; split; [by left|done]|exists 1; split; [by right|done]]. }
  rewrite El in E. clear El. exists k. split; [done|]. destruct (drop k l) as [|x r] eqn:Er; [done|]. case_match eqn:Ed; [|done].
  apply andb_true_iff in Ed as [Hd _]. by injection E as <-.
Qed.
Lemma usize_moves x : moves (take_usize_until input x) (fun n => (n < 10 ^ 19)%N).
Proof.
  eapply moves_bind; [apply until_moves|]. intros l (i & Hi & El). apply moves_or_error. intros n Hn.
  destruct (usize_digits l n Hn) as (k & Hk & Hne & Hd & ->).
  assert (drop k l = take (length l - k) (drop (i + k) input)) as Er. { rewrite <- El at 1. by rewrite skipn_firstn_comm, drop_drop. }
  rewrite Er in *. assert (i + k < length input) as Hik.
  { destruct (decide (i + k < length input)); [done|]. rewrite drop_ge in Hne by lia. by rewrite take_nil in Hne. }
  pose proof (digits_short _ _ Hik Hd). lia.
Qed.
Lemma i64_moves x : moves (take_i64_until input x) (fun z => in_i64 z = true).
Proof.
  eapply moves_bind; [apply until_moves|]. intros l _. apply moves_or_error. intros z. unfold parse_i64, checked_i64.
  destruct (strip_sign l) as [s r]. destruct r; [done|]. repeat case_match; try done; by intros [= <-].
Qed.
Lemma f64_moves x : moves (take_f64_until input x) (fun _ => True).
Proof. eapply moves_bind; [apply until_moves|]. intros l _. by apply moves_or_error. Qed.
Lemma count_moves n : moves (count_items options n) (fun _ => True).
Proof. intros p Hp. unfold count_items. repeat case_match; done. Qed.
Lemma quoted_moves n : (n < 10 ^ 19)%N -> moves (take_quoted_bytes input n) (fun _ => True).
Proof.
  intros Hn. eapply moves_bind; [apply expect_moves|]. intros _ _ p Hp. unfold Obj.U64. rewrite (proj2 (N.leb_gt _ _)) by lia.
  destruct (N.ltb_spec (N.of_nat (length input)) (N.of_nat (offset p) + n)) as [|Hle]; [done|].
  eapply returns_impl; [apply (moves_bind (expect input DQUOTE) (fun _ => pret (take (N.to_nat n) (drop (offset p) input))) (fun _ => True) (fun _ => True))|].
  - apply expect_moves.
  - intros _ _. by apply moves_ret.
  - cbn. lia.
  - intros a p' [[Hh Ho] _]. split; [|done]. split; [done|]. cbn in Ho. lia.
Qed.
Lemma string_moves : moves (parse_string input) (fun _ => True).
Proof.
  eapply moves_bind; [apply expect_moves|]. intros _ _. eapply moves_bind; [apply usize_moves|]. intros n Hn.
  eapply moves_bind; [by apply quoted_moves|]. intros l _. eapply moves_bind; [apply expect_moves|]. intros _ _. by apply moves_ret.
Qed.

(** ** Steps that make objects *)

(** Enough numbers for an object per byte ahead, and [k] more. *)
Definition ample (k : nat) p : Prop := offset p <= length input /\ heap_room (k + (length input - offset p)) (p_heap p).
(** Old objects, [except] apart, are as they were. *)
Record grown (except : N -> Prop) p p' : Prop := {
  grown_old a : (a < Obj.next_address (p_heap p))%N -> ~ except a -> Obj.object_cells (p_heap p') !! a = Obj.object_cells (p_heap p) !! a;
  grown_next : (Obj.next_address (p_heap p) <= Obj.next_address (p_heap p'))%N }.
Lemma grown_trans except p1 p2 p3 : grown except p1 p2 -> grown except p2 p3 -> grown except p1 p3.
Proof.
  intros [H1 H2] [H3 H4]. split; [|lia]. intros a Ha He. rewrite H3 by (done || lia). by apply H1.
Qed.
Lemma moved_grown except p p' : moved p p' -> grown except p p'.
Proof. intros [E _]. split; rewrite E; done. Qed.
Lemma moved_ample k p p' : moved p p' -> ample k p -> ample k p'.
Proof. intros [E Ho] [_ Hr]. split; [lia|]. rewrite E. eapply heap_room_le; [|exact Hr]. lia. Qed.

Definition value_ok (v : Value C) : Prop := match v with Int z => in_i64 z = true | _ => True end.
Lemma key_returns v : value_ok v -> exists o, from_value bk v = Ret o /\ forall k, o = Some k -> key_ok k.
Proof.
  intros Hv. destruct v as [|b|z|x|l| |a|id|id|id|id|c|cell]; cbn [from_value]; try (eexists; split; [reflexivity|]; try done; by intros k [= <-]).
  - eexists. split; [reflexivity|]. intros k [= <-]. by destruct b.
  - eexists. split; [reflexivity|]. intros k [= <-]. apply float_to_int_range.
  - destruct (php_key_ok bk l) as (k & E & Hk). rewrite E. eexists. split; [reflexivity|]. by intros k' [= <-].
  - eexists. split; [reflexivity|]. unfold checked_i64. intros k. case_match; [|done]. by intros [= <-].
Qed.

Definition nothing : N -> Prop := fun _ => False.
Definition good {A} (except : N -> Prop) (Q : A -> Prop) p (a : A) p' : Prop := ample 0 p' /\ grown except p p' /\ Q a.
(** [m] returns where [k] objects more than bytes are possible. *)
Definition safe {A} (k : nat) (m : P (C := C) A) (Q : A -> Prop) : Prop := forall p, ample k p -> returns (m p) (good nothing Q p).

Lemma ample_le j k p : j <= k -> ample k p -> ample j p.
Proof. intros Hjk [Ho Hr]. split; [done|]. eapply heap_room_le; [|exact Hr]. lia. Qed.
Lemma moves_safe {A} k (m : P A) Q : moves m Q -> safe k m Q.
Proof.
  intros Hm p Hp. eapply returns_impl; [apply Hm, Hp|]. intros a p' [Hmv Ha]. split; [|split; [by apply moved_grown|done]].
  apply (ample_le 0 k); [lia|]. by eapply moved_ample.
Qed.
Lemma move_then {A B} k (m : P A) (f : A -> P B) (Q : A -> Prop) R :
  moves m Q -> (forall a, Q a -> safe k (f a) R) -> safe k (pbind m f) R.
Proof.
  intros Hm Hf p Hp. eapply returns_bind; [apply Hm, Hp|]. intros a p' [Hmv Ha].
  eapply returns_impl; [apply (Hf a Ha); by eapply moved_ample|]. intros b p2 (H1 & H2 & H3). split; [done|]. split; [|done].
  eapply grown_trans; [by apply moved_grown|done].
Qed.

Lemma elements_safe parse : safe 0 parse value_ok -> forall n a, array_ok a -> safe 0 (parse_elements bk parse n a) (fun _ => True).
Proof.
  intros Hparse. induction n as [|n IH]; intros a Ha; [apply moves_safe; by apply moves_ret|]. intros p Hp. cbn [parse_elements].
  eapply returns_bind; [by apply Hparse|]. intros k p1 (H1 & G1 & Hk). eapply returns_bind; [by apply Hparse|]. intros v p2 (H2 & G2 & _).
  pose proof (grown_trans _ _ _ _ G1 G2) as G. destruct (key_returns k Hk) as (o & Eo & Hko).
  unfold pbind, plift. rewrite Eo. cbn [obind rbind ok fst snd]. destruct o as [key|]; [|done]. cbn [or_error pret rbind ok obind fst snd].
  destruct (insert_ok a key false v Ha (Hko _ eq_refl)) as (r & a' & -> & Ha' & _). cbn [obind rbind ok fst snd].
  eapply returns_impl; [by apply IH|]. intros b p3 (H3 & G3 & _). split; [done|]. split; [by eapply grown_trans|done].
Qed.
Lemma array_safe parse : safe 0 parse value_ok -> safe 0 (parse_array bk input options parse) value_ok.
Proof.
  intros Hparse. eapply move_then; [apply expect_moves|]. intros _ _. eapply move_then; [apply usize_moves|]. intros n _.
  eapply move_then; [apply count_moves|]. intros _ _. eapply move_then; [apply expect_moves|]. intros _ _ p Hp.
  set (p0 := mk_parser (offset p) (parsed_items p) (p_heap p) (next_array p + 1)).
  eapply returns_bind; [apply (elements_safe parse Hparse _ (new_array (next_array p)) (NativeOpsClaims.new_array_ok _) p0 Hp)|]. intros a p1 (H1 & G1 & _).
  eapply returns_bind; [apply expect_moves, H1|]. intros _ p2 [M2 _]. split; [by eapply moved_ample|]. split; [|done].
  eapply grown_trans; [|by apply moved_grown]. by destruct G1.
Qed.

(** The object is there, in order. *)
Definition sound (h : Obj.Heap (C := C)) (address : N) : Prop :=
  (address < Obj.next_address h)%N /\ exists cell, Obj.object_cells h !! address = Some cell /\ storage_ok (Obj.storage cell).
Lemma grown_sound p p' address : grown nothing p p' -> sound (p_heap p) address -> sound (p_heap p') address.
Proof. intros [H1 H2] [Ha (cell & Hc & Hok)]. split; [lia|]. exists cell. split; [|done]. rewrite H1; [done|done|by intros []]. Qed.
Lemma grown_weaken except p p' : grown nothing p p' -> grown except p p'.
Proof. intros [H1 H2]. split; [|done]. intros a Ha _. apply H1; [done|by intros []]. Qed.

Lemma set_sound p address name v : ample 0 p -> sound (p_heap p) address ->
  exists h, Obj.set_property address name v (p_heap p) = Ret h /\ sound h address /\ ample 0 (with_heap p h) /\ grown (eq address) p (with_heap p h).
Proof.
  intros [Ho Hr] [Ha (cell & Hc & Hok)]. unfold Obj.set_property, Obj.cell_at. rewrite Hc. cbn [obind].
  destruct (set_spec _ name v Hok) as (s' & -> & Hok' & _). cbn [obind]. eexists. split; [done|]. split; [|split; [done|]].
  - split; [done|]. eexists. split; [apply lookup_insert_eq|done].
  - split; [|done]. intros a _ Hne. apply lookup_insert_ne. done.
Qed.

Lemma properties_safe parse address : safe 0 parse value_ok -> forall n p, ample 0 p -> sound (p_heap p) address ->
  returns (parse_properties parse n address p) (good (eq address) (fun _ => True) p).
Proof.
  intros Hparse. induction n as [|n IH]; intros p Hp Hs; [split; [done|]; split; [by apply moved_grown, parser_moved_refl, Hp|done]|]. cbn [parse_properties].
  eapply returns_bind; [by apply Hparse|]. intros name p1 (H1 & G1 & _). destruct name; try done.
  eapply returns_bind; [by apply Hparse|]. intros v p2 (H2 & G2 & _). pose proof (grown_trans _ _ _ _ G1 G2) as G.
  destruct (set_sound p2 address (from_utf8_lossy l) v H2 (grown_sound _ _ _ G Hs)) as (h & -> & Hs3 & H3 & G3). cbn [obind].
  eapply returns_impl; [by apply IH|]. intros b p4 (H4 & G4 & _). split; [done|]. split; [|done].
  eapply grown_trans; [by apply grown_weaken|]. by eapply grown_trans.
Qed.

Lemma new_sound class display p : ample 1 p ->
  exists h, Obj.new_with_display_name class display (p_heap p) = Ret (Obj.next_address (p_heap p), h) /\
    sound h (Obj.next_address (p_heap p)) /\ ample 0 (with_heap p h) /\ grown nothing p (with_heap p h).
Proof.
  intros [Ho Hr]. destruct (heap_room_new _ _ Hr) as [Hroom Hid].
  destruct (new_cell class display (p_heap p) (proj1 Hr) Hroom Hid)
    as (cell & h & E & Hcells & Hnext & Hok & _ & _ & _ & _ & _ & Hlok & Hlid & Hoid).
  exists h. split; [done|]. split; [|split; [|split]].
  - split; [lia|]. exists cell. by rewrite Hcells, lookup_insert_eq.
  - split; [done|]. destruct Hr as (_ & Hr1 & Hr2). split; [done|]. cbn. lia.
  - intros a Ha _. cbn. rewrite Hcells. apply lookup_insert_ne. lia.
  - cbn. lia.
Qed.
Lemma object_safe parse : safe 0 parse value_ok -> safe 1 (parse_object input options parse) value_ok.
Proof.
  intros Hparse. eapply move_then; [apply expect_moves|]. intros _ _. eapply move_then; [apply usize_moves|]. intros cn Hcn.
  eapply move_then; [by apply quoted_moves|]. intros c _. eapply move_then; [apply expect_moves|]. intros _ _.
  eapply move_then; [apply usize_moves|]. intros n _. eapply move_then; [apply count_moves|]. intros _ _.
  eapply move_then; [apply expect_moves|]. intros _ _ p Hp.
  cbn beta zeta. destruct (new_sound (empty_class (from_utf8_lossy c)) (Obj.display_class_name (from_utf8_lossy c)) p Hp) as (h & -> & Hs & H1 & G1). cbn [obind].
  eapply returns_bind; [by apply (properties_safe parse _ Hparse)|]. intros _ p2 (H2 & G2 & _).
  eapply returns_bind; [apply expect_moves, H2|]. intros _ p3 [M3 _]. split; [by eapply moved_ample|]. split; [|done].
  eapply grown_trans; [|by apply moved_grown]. destruct G1 as [G11 G12], G2 as [G21 G22]. split; [|lia].
  intros a Ha _. rewrite G21; [apply G11; [done|by intros []]|cbn in *; lia|intros E; cbn in *; lia].
Qed.

Lemma value_safe room : safe 0 (parse_value (C := C) bk input options room) value_ok.
Proof.
  induction room as [|room IH]; [done|]. intros p Hp. cbn [parse_value]. eapply returns_bind; [apply byte_moves, Hp|]. intros tag p1 [M1 Hlt].
  assert (ample 1 p1) as H1. { destruct M1 as [E Ho], Hp as [_ Hr]. split; [lia|]. rewrite E. eapply heap_room_le; [|exact Hr]. lia. }
  assert (grown nothing p p1) as G1 by by apply moved_grown.
  eapply (returns_impl _ (good nothing value_ok p1)).
  2: { intros v p2 (H2 & G2 & Hv). split; [done|]. split; [by eapply grown_trans|done]. }
  assert (ample 0 p1) as H0 by (eapply ample_le; [|exact H1]; lia). destruct tag; try done.
  - by apply (move_then 0 _ _ _ _ (expect_moves _)); [intros _ _; apply moves_safe, moves_ret|].
  - by apply object_safe.
  - by apply array_safe.
  - apply (move_then 0 _ _ _ _ (expect_moves _)); [|done]. intros _ _. eapply move_then; [apply bool_moves|]. intros b _.
    eapply move_then; [apply expect_moves|]. intros _ _. by apply moves_safe, moves_ret.
  - apply (move_then 0 _ _ _ _ (expect_moves _)); [|done]. intros _ _. eapply move_then; [apply f64_moves|]. intros x _. by apply moves_safe, moves_ret.
  - apply (move_then 0 _ _ _ _ (expect_moves _)); [|done]. intros _ _. eapply move_then; [apply i64_moves|]. intros z Hz. by apply moves_safe, moves_ret.
  - apply (move_then 0 _ _ _ _ string_moves); [|done]. intros l _. by apply moves_safe, moves_ret.
Qed.
End Returns.

(** C31: [unserialize] on hostile text: with any limits it returns a value or an
    error for every text without twenty digits in a row, whatever its tags,
    lengths and nesting, while numbers for objects are left; it never asks for a
    byte out of range, and old objects are not changed.  A length of twenty digits
    is not refused: adding it to the offset overflows, and the process panics. *)
Theorem unserialize_returns {C} (bk : backend) `{KeyClassifier} (options : UnserializeOptions) (heap : Obj.Heap (C := C)) next :
  (forall input, (max_bytes options <= 2 ^ 62)%N -> short_numbers input = true -> heap_room (length input) heap ->
     (exists message, unserialize bk input options heap next = err message) \/
     (exists v p, unserialize bk input options heap next = ok (v, p) /\ offset p = length input /\
        forall a, (a < Obj.next_address heap)%N -> Obj.object_cells (p_heap p) !! a = Obj.object_cells heap !! a)) /\
  ((40 <= max_bytes options)%N -> unserialize bk (lit "s:18446744073709551615:" ++ [DQUOTE]) options heap next = Panic).
Proof.
  split.
  - intros input Hmax Hshort Hroom. unfold unserialize, unserialize_prefix. destruct (N.ltb_spec (max_bytes options) (N.of_nat (length input))) as [|Hle].
    { left. by eexists. }
    pose proof (value_safe bk input ltac:(lia) Hshort options (S (max_depth options)) (mk_parser 0 0 heap next)) as Hs.
    destruct (parse_value _ _ _ _ _) as [[[v p]|message]| |]; cbn [rbind obind ok fst snd]; [|left; by eexists|exfalso; apply Hs..].
    + destruct Hs as (_ & [Hold _] & _); [split; [cbn; lia|by cbn; rewrite Nat.sub_0_r]|]. cbn [fst snd]. destruct (Nat.eqb_spec (offset p) (length input)) as [Ho|]; [|left; by eexists].
      right. exists v, p. split; [done|]. split; [done|]. intros a Ha. apply Hold; [done|by intros []].
    + split; [cbn; lia|by cbn; rewrite Nat.sub_0_r].
    + split; [cbn; lia|by cbn; rewrite Nat.sub_0_r].
  - intros Hmax. unfold unserialize, unserialize_prefix. cbn [length app lit]. change (N.of_nat _) with 24%N.
    rewrite (proj2 (N.ltb_ge _ _)) by lia. vm_compute. reflexivity.
Qed.

(** A text with a wrong length. *)
Definition hostile_text : bytes := lit "a:2:{i:0;O:1:" ++ quote_bytes (lit "P") ++ lit ":0:{}i:1;s:9:" ++ quote_bytes (lit "x") ++ lit ";}".
#[local] Instance plain_keys : KeyClassifier := {| ambiguous := fun _ => false |}.
Lemma unserialize_returns_witness :
  ((exists message, unserialize BScalar hostile_text default_options test_heap 0 = err message) \/
   (exists v p, unserialize BScalar hostile_text default_options test_heap 0 = ok (v, p) /\ offset p = length hostile_text /\
      forall a, (a < Obj.next_address test_heap)%N -> Obj.object_cells (p_heap p) !! a = Obj.object_cells test_heap !! a)) /\
  unserialize BScalar (lit "s:18446744073709551615:" ++ [DQUOTE]) default_options test_heap 0 = Panic.
Proof.
  destruct (unserialize_returns BScalar default_options test_heap 0) as [Hreturns Hpanics]. split.
  - apply Hreturns; [vm_compute; discriminate|vm_compute; reflexivity|]. split; [exact no_layouts_ok|]. split; vm_compute; reflexivity.
  - apply Hpanics. vm_compute. discriminate.
Defined.
