(* ===== verification/Tokenizer.v ===== *)
(** * Tokenizer: [token_get_all] and [PhpToken]

    [php_runtime/src/tokenizer.rs]: the tokens of the lexer as the tokenizer
    extension shows them, the checks of [TOKEN_PARSE] with the parser behind
    them, the names that it reclassifies, and the publication of tokens to
    compiled code.  The loops with an index walk down the list of tokens or bytes
    that are left; their fuel is its length.  The parser takes its own fuel. *)

From Stdlib Require Import Strings.String Strings.Byte ZArith.
From stdpp Require Import base list option numbers gmap fin_maps.
From S2P Require Import Prelude RustStd Simd ByteKernel Source Token Lexer SyntaxTree Grammar RustNum RustText PhpString PhpArray Convert IrConst.

Definition TOKEN_PARSE : Z := 1.

Record TokenizerToken := mk_tokenizer_token {
  tk_id : Z; tk_name : bytes; tk_text : bytes; tk_line : N; tk_pos : N; tk_named : bool; tk_token_name : option TokenName.t }.
(** [BuiltinError]: identifier, message, and of the context the line. *)
Record BuiltinError := mk_builtin_error { diagnostic_id : string; error_message : bytes; tokenizer_parse_line : option Z }.
(** [RuntimeDiagnostic] of severity and classification deprecation. *)
Record RuntimeDiagnostic := mk_deprecation { deprecation_id : string; deprecation_message : bytes; deprecation_line : N }.
Record TokenizeResult := mk_tokenize_result { result_tokens : list TokenizerToken; result_diagnostics : list RuntimeDiagnostic }.

Definition is_named (t : Token) (name : TokenName.t) : bool :=
  match token_kind t with TokenKind.Named n => TokenName.eqb n name | _ => false end.
Definition name_in (name : option TokenName.t) (l : list TokenName.t) : bool :=
  match name with Some n => existsb (TokenName.eqb n) l | None => false end.
(** [token.text(source).unwrap_or_default()] *)
Definition text_of_token (source : bytes) (t : Token) : bytes := default [] (token_text t source).

(** ** [format!("{diagnostic:?}")] *)

Definition DQ : byte := x22.
Definition debug_char (x : byte) : bytes :=
  match x with
  | x09 => lit "\t" | x0a => lit "\n" | x0d => lit "\r" | x00 => lit "\0"
  | x22 | x5c => [x5c; x]
  | _ => [x]
  end.
Definition debug_string (s : string) : bytes := DQ :: flat_map debug_char (lit s) ++ [DQ].
Definition debug_kind (k : LexDiagnosticKind.t) : bytes :=
  lit match k with
      | LexDiagnosticKind.InvalidInput => "InvalidInput"
      | LexDiagnosticKind.UnterminatedBlockComment => "UnterminatedBlockComment"
      | LexDiagnosticKind.UnterminatedString => "UnterminatedString"
      | LexDiagnosticKind.UnterminatedHeredoc => "UnterminatedHeredoc"
      | LexDiagnosticKind.BadCharacter => "BadCharacter"
      end.
Definition debug_pos (n : nat) : bytes := lit "BytePos(" ++ print_i64 (Z.of_nat n) ++ lit ")".
Definition debug_diagnostic (d : LexDiagnostic) : bytes :=
  lit "LexDiagnostic { kind: " ++ debug_kind (diag_kind d) ++ lit ", message: " ++ debug_string (diag_message d)
  ++ lit ", span: TextRange { start: " ++ debug_pos (to_usize (start (diag_span d))) ++ lit ", end: "
  ++ debug_pos (to_usize (end_ (diag_span d))) ++ lit " }, line: " ++ print_i64 (Z.of_N (diag_line d)) ++ lit " }".

(** ** Errors *)

Definition token_parse_error (message : bytes) : BuiltinError := mk_builtin_error "E_PHP_RUNTIME_TOKENIZER_PARSE" message None.
Definition token_parse_error_at_line (message : bytes) (line : Z) : BuiltinError :=
  mk_builtin_error "E_PHP_RUNTIME_TOKENIZER_PARSE" message (Some line).
Definition source_line_count (source : bytes) : Z := 1 + Z.of_nat (length (List.filter (Byte.eqb x0a) source)).
Definition token_parse_lex_error (source : bytes) (d : LexDiagnostic) : BuiltinError :=
  match diag_kind d with
  | LexDiagnosticKind.UnterminatedHeredoc =>
      token_parse_error_at_line
        (lit "syntax error, unexpected end of file, expecting variable or heredoc end or " ++ [DQ] ++ lit "${" ++ [DQ]
         ++ lit " or " ++ [DQ] ++ lit "{$" ++ [DQ]) (source_line_count source)
  | _ => token_parse_error_at_line (lit (diag_message d)) (Z.of_N (diag_line d))
  end.
Definition is_recoverable_tokenizer_diagnostic (kind : LexDiagnosticKind.t) (token_parse : bool) : bool :=
  match kind with
  | LexDiagnosticKind.BadCharacter => true
  | LexDiagnosticKind.UnterminatedHeredoc => negb token_parse
  | _ => false
  end.

(** ** Tokens *)

Definition tokenizer_token (source : bytes) (t : Token) : TokenizerToken :=
  let text := text_of_token source t in
  let pos := (N.of_nat (to_usize (start (token_range t))) mod 2 ^ 32)%N in
  match token_kind t with
  | TokenKind.Named name =>
      mk_tokenizer_token (token_name_id name) (lit (TokenName.as_php_name name)) text (token_line t) pos true (Some name)
  | TokenKind.Symbol symbol =>
      mk_tokenizer_token (match text with x :: _ => Z.of_N (u8 x) | [] => 0 end) (SymbolKind.reference_name symbol) text (token_line t) pos
        false None
  | TokenKind.Eof => mk_tokenizer_token 0 (lit "EOF") text (token_line t) pos false None
  end.
Definition is_ignorable_name (name : option TokenName.t) : bool :=
  name_in name [TokenName.OpenTag; TokenName.Whitespace; TokenName.Comment; TokenName.DocComment].
Definition is_ignorable_id (id : Z) : bool := is_ignorable_name (token_name_kind_for_id id).

(** ** Reclassification *)

Definition is_trivia_name (name : option TokenName.t) : bool := name_in name [TokenName.Whitespace; TokenName.Comment; TokenName.DocComment].
Definition is_identifier_like_token (t : TokenizerToken) : bool :=
  tk_named t && match tk_text t with x :: _ => is_ascii_alphabetic x || (x =b "_"%byte) || (128 <=? u8 x)%N | [] => false end.
Definition reclassify_as_string (t : TokenizerToken) : TokenizerToken :=
  mk_tokenizer_token (token_name_id TokenName.String) (lit (TokenName.as_php_name TokenName.String)) (tk_text t) (tk_line t) (tk_pos t)
    (tk_named t) (Some TokenName.String).
Definition next_significant_name (rest : list TokenizerToken) : option TokenName.t :=
  List.find (fun t => negb (is_trivia_name (tk_token_name t))) rest ≫= tk_token_name.
Definition member_operators : list TokenName.t := [TokenName.DoubleColon; TokenName.ObjectOperator; TokenName.NullsafeObjectOperator].
Definition named (t : TokenizerToken) (name : TokenName.t) : bool := name_in (tk_token_name t) [name].

(** The loop, with its three flags. *)
Fixpoint reclassify (expect_member_name expect_const_name const_declaration_name : bool) (l : list TokenizerToken) : list TokenizerToken :=
  match l with
  | [] => []
  | t :: rest =>
      let name := tk_token_name t in
      let renamed := if is_identifier_like_token t then reclassify_as_string t else t in
      if name_in name member_operators then t :: reclassify true expect_const_name const_declaration_name rest
      else if expect_member_name then
        if is_trivia_name name then t :: reclassify true expect_const_name const_declaration_name rest
        else renamed :: reclassify false expect_const_name const_declaration_name rest
      else if expect_const_name then
        if is_trivia_name name then t :: reclassify false true const_declaration_name rest
        else renamed :: reclassify false false const_declaration_name rest
      else if named t TokenName.Const then t :: reclassify false true true rest
      else
        let '(expect_const, declaration) :=
          if const_declaration_name then
            if bytes_eqb (tk_text t) (lit "=") || bytes_eqb (tk_text t) (lit ";") then (false, false)
            else (bytes_eqb (tk_text t) (lit ","), true)
          else (false, false) in
        (if named t TokenName.Namespace && name_in (next_significant_name rest) [TokenName.As] then reclassify_as_string t else t)
          :: reclassify false expect_const declaration rest
  end.
Definition apply_token_parse_reclassification (tokens : list TokenizerToken) : list TokenizerToken := reclassify false false false tokens.

(** ** Deprecated casts *)

Definition token_text_cast_name (text : bytes) : option bytes :=
  inner ← strip_prefix (lit "(") (trim text) ≫= strip_suffix (lit ")");
  let inner := trim inner in
  if forallb is_ascii_alphabetic inner then Some (to_ascii_lowercase <$> inner) else None.
Definition non_canonical_cast_deprecation (t : TokenizerToken) : option RuntimeDiagnostic :=
  cast ← token_text_cast_name (tk_text t);
  replacement ←
    (if named t TokenName.IntCast && bytes_eqb cast (lit "integer") then Some (lit "int")
     else if named t TokenName.DoubleCast && bytes_eqb cast (lit "double") then Some (lit "float")
     else if named t TokenName.BoolCast && bytes_eqb cast (lit "boolean") then Some (lit "bool") else None);
  Some (mk_deprecation "E_PHP_RUNTIME_TOKENIZER_NON_CANONICAL_CAST_DEPRECATED"
    (lit "Non-canonical cast (" ++ cast ++ lit ") is deprecated, use the (" ++ replacement ++ lit ") cast instead") (tk_line t)).
Definition token_parse_deprecations (tokens : list TokenizerToken) : list RuntimeDiagnostic := omap non_canonical_cast_deprecation tokens.

(** ** Literals *)

Definition is_invalid_legacy_octal_literal (text : bytes) : bool :=
  match text with
  | "0" :: second :: _ =>
      negb (existsb (Byte.eqb second) ["x"; "X"; "b"; "B"; "o"; "O"]) && existsb (fun x => (x =b "8") || (x =b "9")) (drop 1 text)
  | _ => false
  end%byte.

(** [digit]s of [parse_unicode_escape_body], with the saturation of [u32]. *)
Definition U32_MAX : N := 2 ^ 32 - 1.
Definition hex_digit (x : byte) : option N :=
  if is_ascii_digit x then Some (u8 x - 48)%N
  else if in_range x 97 102 then Some (u8 x - 97 + 10)%N
  else if in_range x 65 70 then Some (u8 x - 65 + 10)%N else None.
Fixpoint escape_value (value : N) (l : bytes) : option N :=
  match l with
  | [] => Some value
  | x :: l => digit ← hex_digit x; escape_value (N.min U32_MAX (N.min U32_MAX (value * 16) + digit)) l
  end.
Definition parse_unicode_escape_body (l : bytes) : option N := match l with [] => None | _ => escape_value 0 l end.
Definition find_unicode_escape_start (l : bytes) : option nat :=
  position (fun window => bytes_eqb window [x5c; "u"%byte; "{"%byte]) (windows 3 l).

Fixpoint escapes_loop (fuel : nat) (l : bytes) : outcome (option BuiltinError) :=
  match fuel with
  | O => Timeout
  | S fuel =>
      match find_unicode_escape_start l with
      | None => Ret None
      | Some relative =>
          let rest := drop (relative + 3) l in
          match position (Byte.eqb "}"%byte) rest with
          | None => Ret (Some (token_parse_error (lit "Invalid UTF-8 codepoint escape sequence")))
          | Some close =>
              match parse_unicode_escape_body (take close rest) with
              | None => Ret (Some (token_parse_error (lit "Invalid UTF-8 codepoint escape sequence")))
              | Some codepoint =>
                  if (1114111 <? codepoint)%N
                  then Ret (Some (token_parse_error (lit "Invalid UTF-8 codepoint escape sequence: Codepoint too large")))
                  else escapes_loop fuel (drop (close + 1) rest)
              end
          end
      end
  end.
Definition validate_unicode_codepoint_escapes (text : bytes) : outcome (option BuiltinError) := escapes_loop (S (length text)) text.

Fixpoint validate_token_parse_literals (source : bytes) (tokens : list Token) : outcome (option BuiltinError) :=
  match tokens with
  | [] => Ret None
  | t :: tokens =>
      let text := text_of_token source t in
      if is_named t TokenName.LNumber && is_invalid_legacy_octal_literal text
      then Ret (Some (token_parse_error (lit "Invalid numeric literal")))
      else if is_named t TokenName.ConstantEncapsedString then
        olet error := validate_unicode_codepoint_escapes text in
        match error with Some _ => Ret error | None => validate_token_parse_literals source tokens end
      else validate_token_parse_literals source tokens
  end.

(** ** Heredoc indentation *)

Definition is_blank (x : byte) : bool := (x =b " "%byte) || (x =b x09).
Definition leading_heredoc_indent (text : bytes) : bytes := take (run_len is_blank text) text.
Definition heredoc_indent_is_mixed (indent : bytes) : bool := existsb (Byte.eqb " "%byte) indent && existsb (Byte.eqb x09) indent.
Definition first_heredoc_body_line (heredoc_start : Token) (body : list Token) : Z :=
  match List.find (fun t => is_named t TokenName.EncapsedAndWhitespace) body with
  | Some t => Z.of_N (token_line t)
  | None => Z.of_N (token_line heredoc_start) + 1
  end.
Definition heredoc_body_line_is_blank (line : bytes) : bool := forallb (fun x => is_blank x || (x =b x0d) || (x =b x0a)) line.
Fixpoint underindented_loop (fuel : nat) (indent text : bytes) (line_offset : nat) : outcome (option nat) :=
  match fuel, text with
  | _, [] => Ret None
  | O, _ => Timeout
  | S fuel, _ =>
      let line_end := match position (Byte.eqb x0a) text with Some i => i + 1 | None => length text end in
      let line := take line_end text in
      if negb (heredoc_body_line_is_blank line) && negb (RustStd.starts_with line indent) then Ret (Some line_offset)
      else underindented_loop fuel indent (drop line_end text) (S line_offset)
  end.
Definition first_underindented_heredoc_body_line (text indent : bytes) : outcome (option nat) :=
  underindented_loop (length text) indent text 0.

Fixpoint body_indentation (source indent : bytes) (body : list Token) : outcome (option BuiltinError) :=
  match body with
  | [] => Ret None
  | t :: body =>
      if negb (is_named t TokenName.EncapsedAndWhitespace) then body_indentation source indent body
      else
        olet line := first_underindented_heredoc_body_line (text_of_token source t) indent in
        match line with
        | Some line =>
            Ret (Some (token_parse_error_at_line
              (lit "Invalid body indentation level (expecting an indentation level of at least "
               ++ print_i64 (Z.of_nat (length indent)) ++ lit ")") (Z.of_N (token_line t) + Z.of_nat line)))
        | None => body_indentation source indent body
        end
  end.
Fixpoint heredoc_loop (fuel : nat) (source : bytes) (tokens : list Token) : outcome (option BuiltinError) :=
  match fuel, tokens with
  | _, [] => Ret None
  | O, _ => Timeout
  | S fuel, t :: rest =>
      if negb (is_named t TokenName.StartHeredoc) then heredoc_loop fuel source rest
      else
        match position (fun t => is_named t TokenName.EndHeredoc) rest with
        | None => heredoc_loop fuel source rest
        | Some end_index =>
            let body := take end_index rest in
            let end_text := match rest !! end_index with Some t => text_of_token source t | None => [] end in
            let indent := leading_heredoc_indent end_text in
            if heredoc_indent_is_mixed indent
            then Ret (Some (token_parse_error_at_line (lit "Invalid indentation - tabs and spaces cannot be mixed")
                              (first_heredoc_body_line t body)))
            else
              olet error := (match indent with [] => Ret None | _ => body_indentation source indent body end) in
              match error with Some _ => Ret error | None => heredoc_loop fuel source (drop (end_index + 1) rest) end
        end
  end.
Definition validate_token_parse_heredoc_indentation (source : bytes) (tokens : list Token) : outcome (option BuiltinError) :=
  heredoc_loop (length tokens) source tokens.

(** ** The parser behind [TOKEN_PARSE] *)

(** A character outside ASCII has only bytes outside ASCII. *)
Definition diagnostic_identifier_text (source : bytes) (d : ParseDiagnostic) : option bytes :=
  text ← str_get source (to_usize (start (pd_span d))) (to_usize (end_ (pd_span d)));
  match text with
  | [] => None
  | x :: rest =>
      if ((x =b "_"%byte) || is_ascii_alphabetic x || negb (is_ascii x))
         && forallb (fun x => (x =b "_"%byte) || is_ascii_alphabetic x || is_ascii_digit x || negb (is_ascii x)) rest
      then Some text else None
  end.
Definition token_parse_diagnostic_message (source : bytes) (d : ParseDiagnostic) : bytes :=
  match pd_id d, existsb (fun expected => bool_decide (expected = ";"%string)) (pd_expected d), diagnostic_identifier_text source d with
  | ParseDiagnosticId.ExpectedToken, true, Some identifier =>
      lit "syntax error, unexpected identifier " ++ [DQ] ++ identifier ++ [DQ]
  | _, _, _ => lit (pd_message d)
  end.

Section Tokenize.
Context {mc : Memchr} (bk : backend).

Definition validate_token_parse_source (fuel : nat) (source : bytes) : outcome (option BuiltinError) :=
  olet parse := parse_source_file bk fuel source in
  Ret (match parse_diagnostics parse with
       | d :: _ => Some (token_parse_error (token_parse_diagnostic_message source d))
       | [] => None
       end).

Definition default_config (token_parse : bool) : LexerConfig :=
  {| short_open_tag := false; Lexer.token_parse := token_parse; emit_eof := false |}.

Definition is_eof (t : Token) : bool := match token_kind t with TokenKind.Eof => true | _ => false end.

(** [?] on a check *)
Definition checked {A} (check : outcome (option BuiltinError)) (k : outcome (A + BuiltinError)) : outcome (A + BuiltinError) :=
  olet error := check in match error with Some e => Ret (inr e) | None => k end.

Definition tokenize_with_diagnostics (fuel : nat) (source : bytes) (flags : Z) : outcome (TokenizeResult + BuiltinError) :=
  let token_parse := negb (Z.land flags TOKEN_PARSE =? 0)%Z in
  olet result := lex_all bk source (default_config token_parse) in
  match List.find (fun d => negb (is_recoverable_tokenizer_diagnostic (diag_kind d) token_parse)) (Lexer.diagnostics result) with
  | Some d =>
      Ret (inr (if token_parse then token_parse_lex_error source d
                else mk_builtin_error "E_PHP_RUNTIME_TOKENIZER_LEX" (debug_diagnostic d) None))
  | None =>
      let tokens := tokenizer_token source <$> List.filter (fun t => negb (is_eof t)) (Lexer.tokens result) in
      if token_parse then
        checked (validate_token_parse_literals source (Lexer.tokens result))
          (checked (validate_token_parse_heredoc_indentation source (Lexer.tokens result))
            (checked (validate_token_parse_source fuel source)
              (let tokens := apply_token_parse_reclassification tokens in
               Ret (inl (mk_tokenize_result tokens (token_parse_deprecations tokens))))))
      else Ret (inl (mk_tokenize_result tokens []))
  end.
Definition tokenize (fuel : nat) (source : bytes) (flags : Z) : outcome (list TokenizerToken + BuiltinError) :=
  olet r := tokenize_with_diagnostics fuel source flags in
  Ret (match r with inl r => inl (result_tokens r) | inr e => inr e end).

(** ** Values *)

Section Values.
Context {C : Type} `{KeyClassifier}.

(** [token_get_all_entry]; [id] is the storage identity of a new array. *)
Definition token_get_all_entry (id : N) (t : TokenizerToken) : outcome (Value C) :=
  if negb (tk_named t) then Ret (Str (tk_text t))
  else
    olet r := insert (new_array id) (KInt 0) false (Int (tk_id t)) in
    olet r := insert (snd r) (KInt 1) false (Str (tk_text t)) in
    olet r := insert (snd r) (KInt 2) false (Int (Z.of_N (tk_line t))) in Ret (Array (snd r)).
Fixpoint token_entries (id : N) (l : list TokenizerToken) : outcome (list (Value C)) :=
  match l with
  | [] => Ret []
  | t :: l => olet v := token_get_all_entry id t in olet rest := token_entries (id + 1) l in Ret (v :: rest)
  end.
Definition baseline_token_get_all_value (id : N) (tokens : list TokenizerToken) : outcome (Value C) :=
  olet entries := token_entries (id + 1) tokens in Ret (Array (from_packed id entries)).
End Values.

(** ** Publication *)

(** [NativeStructuredValuePublisher]: a publisher with its state, of which the
    tokenizer uses three methods.  The state of the closure that builds the
    elements is passed along. *)
Class Publisher (S O : Type) := {
  publish_int : Z -> S -> option O * S;
  publish_string : bytes -> S -> option O * S;
  publish_array_with : forall {T : Set}, nat -> (nat -> T -> S -> option O * T * S) -> T -> S -> option O * S }.

Section Native.
Context {S O : Type} `{Publisher S O}.

Definition publish_token (source : bytes) (tokens : list Token) (s : S) : option O * list Token * S :=
  match tokens with
  | [] => (None, [], s)
  | t :: tokens =>
      let text := text_of_token source t in
      match token_kind t with
      | TokenKind.Named name =>
          let '(o, s) := publish_array_with 3 (fun index (_ : unit) s =>
            let '(o, s) := match index with
                           | 0 => publish_int (token_name_id name) s
                           | 1 => publish_string text s
                           | 2 => publish_int (Z.of_N (token_line t)) s
                           | _ => (None, s)
                           end in (o, tt, s)) tt s in (o, tokens, s)
      | TokenKind.Symbol _ => let '(o, s) := publish_string text s in (o, tokens, s)
      | TokenKind.Eof => (None, tokens, s)
      end
  end.
Definition native_tokenize_default_into (source : bytes) (s : S) : outcome (option O * S) :=
  let source := from_utf8_lossy source in
  olet result := lex_all bk source (default_config false) in
  if existsb (fun d => negb (is_recoverable_tokenizer_diagnostic (diag_kind d) false)) (Lexer.diagnostics result) then Ret (None, s)
  else
    let tokens := List.filter (fun t => negb (is_eof t)) (Lexer.tokens result) in
    Ret (publish_array_with (length tokens) (fun _ tokens s => publish_token source tokens s) tokens s).
End Native.
End Tokenize.

(** ** The examples of the unit tests *)

Definition test_tokenize (source : bytes) (flags : Z) : outcome (list (TokenName.t * bytes) + bytes * option Z) :=
  olet r := tokenize (mc := memchr_naive) BScalar 400 source flags in
  Ret (match r with
       | inl tokens => inl (omap (fun t => n ← tk_token_name t; if TokenName.eqb n TokenName.Whitespace then None else Some (n, tk_text t)) tokens)
       | inr e => inr (error_message e, tokenizer_parse_line e)
       end).
Example members_become_strings :
  test_tokenize (lit "<?php X::continue; $x->__halt_compiler();") TOKEN_PARSE =
  Ret (inl [(TokenName.OpenTag, lit "<?php "); (TokenName.String, lit "X"); (TokenName.DoubleColon, lit "::"); (TokenName.String, lit "continue");
            (TokenName.Variable_, lit "$x"); (TokenName.ObjectOperator, lit "->"); (TokenName.String, lit "__halt_compiler")]).
Proof. vm_compute. reflexivity. Qed.
Example alias_becomes_string :
  (olet r := test_tokenize (lit "<?php class C { use A { namespace as bar; } }") TOKEN_PARSE in
   Ret (match r with inl l => drop 4 l | inr _ => [] end)) =
  Ret [(TokenName.String, lit "A"); (TokenName.String, lit "namespace"); (TokenName.As, lit "as"); (TokenName.String, lit "bar")].
Proof. vm_compute. reflexivity. Qed.
Example parse_error_message :
  test_tokenize (lit "<?php invalid code;") TOKEN_PARSE =
  Ret (inr (lit "syntax error, unexpected identifier " ++ [DQ] ++ lit "code" ++ [DQ], None)).
Proof. vm_compute. reflexivity. Qed.
Example octal_error : test_tokenize (lit "<?php var_dump(078);") TOKEN_PARSE = Ret (inr (lit "Invalid numeric literal", None)).
Proof. vm_compute. reflexivity. Qed.
Example escape_error :
  test_tokenize (lit "<?php var_dump(" ++ [DQ; x5c] ++ lit "u{ffffff}" ++ [DQ] ++ lit ");") TOKEN_PARSE =
  Ret (inr (lit "Invalid UTF-8 codepoint escape sequence: Codepoint too large", None)).
Proof. vm_compute. reflexivity. Qed.
Example heredoc_indentation_error :
  test_tokenize (lit "<?php <<<TXT" ++ [x0a] ++ lit "abc" ++ [x0a] ++ lit "   TXT;") TOKEN_PARSE =
  Ret (inr (lit "Invalid body indentation level (expecting an indentation level of at least 3)", Some 2%Z)).
Proof. vm_compute. reflexivity. Qed.
Example heredoc_tabs_error :
  test_tokenize (lit "<?php" ++ [x0a; x20; x09] ++ lit "<<<'DOC'" ++ [x0a; x20; x09] ++ lit "XXX" ++ [x0a; x20; x09] ++ lit "DOC;") TOKEN_PARSE =
  Ret (inr (lit "Invalid indentation - tabs and spaces cannot be mixed", Some 3%Z)).
Proof. vm_compute. reflexivity. Qed.
