(* ===== verification/TokenizerClaims.v ===== *)
(** * TokenizerClaims: what [token_get_all] promises *)

From Stdlib Require Import Strings.String Strings.Byte ZArith.
From stdpp Require Import base list option numbers gmap fin_maps.
From S2P Require Import Prelude RustStd Simd ByteKernel ByteKernelProofs Source Token Lexer LexerCursor LexerProofs LexerUtf8 SyntaxTree Grammar ParserProofs RustNum RustText PhpString PhpArray PhpArrayProofs PhpArraySpec Convert NativeOpsClaims IrConst Tokenizer.

(** ** The checks end *)

Lemma windows_position l i (p : list byte -> bool) : position p (windows 3 l) = Some i -> i + 3 <= length l.
Proof.
  intros H%position_lt. unfold windows in H. rewrite length_fmap, length_seq in H. lia.
Qed.
Lemma escapes_return fuel l : length l < fuel -> exists r, escapes_loop fuel l = Ret r.
Proof.
  revert l. induction fuel as [|fuel IH]; intros l Hl; [lia|]. cbn [escapes_loop].
  destruct (find_unicode_escape_start l) as [i|] eqn:Ei; [|by eexists]. apply windows_position in Ei.
  destruct (position _ _) as [j|]; [|by eexists]. destruct (parse_unicode_escape_body _) as [c|]; [|by eexists].
  destruct (_ <? _)%N; [by eexists|]. apply IH. rewrite !length_drop. lia.
Qed.
Lemma literal_checks_return source tokens : exists r, validate_token_parse_literals source tokens = Ret r.
Proof.
  induction tokens as [|t tokens [r IH]]; [by eexists|]. cbn [validate_token_parse_literals]. destruct (_ && _); [by eexists|].
  destruct (is_named _ _); [|by eexists]. unfold validate_unicode_codepoint_escapes.
  destruct (escapes_return (S (length (text_of_token source t))) (text_of_token source t)) as [[e|] ->]; [lia|by eexists..].
Qed.
Lemma underindented_return fuel indent text n : length text <= fuel -> exists r, underindented_loop fuel indent text n = Ret r.
Proof.
  revert text n. induction fuel as [|fuel IH]; intros text n Hf; (destruct text as [|x text]; [by eexists|]); [cbn in Hf; lia|].
  cbn [underindented_loop]. set (e := match position _ _ with Some i => i + 1 | None => _ end).
  assert (0 < e) as He by (subst e; destruct (position _ _); cbn; lia). destruct (_ && _); [by eexists|]. apply IH.
  rewrite length_drop. cbn [length] in *. lia.
Qed.
Lemma body_return source indent body : exists r, body_indentation source indent body = Ret r.
Proof.
  induction body as [|t body [r IH]]; [by eexists|]. cbn [body_indentation]. destruct (negb _); [by eexists|].
  unfold first_underindented_heredoc_body_line.
  destruct (underindented_return (length (text_of_token source t)) indent (text_of_token source t) 0) as [[n|] ->]; [lia|by eexists..].
Qed.
Lemma heredoc_return fuel source tokens : length tokens <= fuel -> exists r, heredoc_loop fuel source tokens = Ret r.
Proof.
  revert tokens. induction fuel as [|fuel IH]; intros tokens Hf; (destruct tokens as [|t rest]; [by eexists|]); cbn [length] in Hf; [lia|].
  cbn [heredoc_loop]. destruct (negb _); [apply IH; lia|]. destruct (position _ rest) as [i|]; [|apply IH; lia].
  destruct (heredoc_indent_is_mixed _); [by eexists|].
  assert (exists r, heredoc_loop fuel source (drop (i + 1) rest) = Ret r) as Hrest by (apply IH; rewrite length_drop; lia).
  destruct (leading_heredoc_indent _) as [|x indent]; [exact Hrest|].
  destruct (body_return source (x :: indent) (take i rest)) as [[e|] ->]; [by eexists|exact Hrest].
Qed.

(** ** Reclassification *)

Definition flags : Type := bool * bool * bool.
Definition emit (f : flags) (t : TokenizerToken) (rest : list TokenizerToken) : TokenizerToken :=
  let '(member, const, declaration) := f in
  let renamed := if is_identifier_like_token t then reclassify_as_string t else t in
  if name_in (tk_token_name t) member_operators then t
  else if member || const then if is_trivia_name (tk_token_name t) then t else renamed
  else if named t TokenName.Const then t
  else if named t TokenName.Namespace && name_in (next_significant_name rest) [TokenName.As] then reclassify_as_string t else t.
Definition step (f : flags) (t : TokenizerToken) : flags :=
  let '(member, const, declaration) := f in
  if name_in (tk_token_name t) member_operators then (true, const, declaration)
  else if member then (is_trivia_name (tk_token_name t), const, declaration)
  else if const then (false, is_trivia_name (tk_token_name t), declaration)
  else if named t TokenName.Const then (false, true, true)
  else if declaration then
    if bytes_eqb (tk_text t) (lit "=") || bytes_eqb (tk_text t) (lit ";") then (false, false, false)
    else (false, bytes_eqb (tk_text t) (lit ","), true)
  else (false, false, false).

Lemma reclassify_cons (f : flags) t rest :
  reclassify f.1.1 f.1.2 f.2 (t :: rest) = emit f t rest :: (let g := step f t in reclassify g.1.1 g.1.2 g.2 rest).
Proof.
  destruct f as [[member const] declaration]. cbn [reclassify emit step fst snd]. destruct (name_in _ member_operators); [done|].
  destruct member; cbn [orb]; [by destruct (is_trivia_name _)|]. destruct const; [by destruct (is_trivia_name _)|].
  destruct (named t TokenName.Const); [done|]. destruct declaration; [|done]. by destruct (_ || _).
Qed.
Lemma reclassify_lookup f l i t : l !! i = Some t ->
  reclassify f.1.1 f.1.2 f.2 l !! i = Some (emit (fold_left step (take i l) f) t (drop (S i) l)).
Proof.
  revert f i. induction l as [|u l IH]; intros f i Hi; [done|]. rewrite reclassify_cons. destruct i as [|i]; cbn in Hi |- *.
  - by injection Hi as ->.
  - by apply IH.
Qed.

(** The last token that is not trivia. *)
Definition previous (l : list TokenizerToken) : option TokenName.t :=
  List.find (fun t => negb (is_trivia_name (tk_token_name t))) (rev l) ≫= tk_token_name.
Lemma previous_snoc l t : previous (l ++ [t]) = if is_trivia_name (tk_token_name t) then previous l else tk_token_name t.
Proof. unfold previous. rewrite rev_app_distr. cbn. by destruct (is_trivia_name _). Qed.
Lemma operator_not_trivia n : name_in n member_operators = true -> is_trivia_name n = false.
Proof. destruct n as [[]|]; done. Qed.

Lemma member_flag l : (fold_left step l (false, false, false)).1.1 = name_in (previous l) member_operators.
Proof.
  induction l as [|t l IH] using rev_ind; [done|]. rewrite fold_left_app, previous_snoc. cbn [fold_left].
  destruct (fold_left step l _) as [[member const] declaration]. cbn [fst snd] in IH. unfold step.
  destruct (name_in (tk_token_name t) member_operators) eqn:Eo; [by rewrite (operator_not_trivia _ Eo), Eo|].
  destruct (is_trivia_name (tk_token_name t)) eqn:Et; [|rewrite Eo].
  - rewrite <- IH. destruct member; [done|]. destruct const; [done|]. destruct (named _ _); [done|]. destruct declaration; [|done]. by destruct (_ || _).
  - destruct member; [done|]. destruct const; [done|]. destruct (named _ _); [done|]. destruct declaration; [|done]. by destruct (_ || _).
Qed.

(** A name of a constant is expected only in a declaration. *)
Lemma const_flag l : let f := fold_left step l (false, false, false) in
  f.1.2 = true \/ f.2 = true -> exists c, c ∈ l /\ named c TokenName.Const = true.
Proof.
  induction l as [|t l IH] using rev_ind; cbn zeta in *; [by intros []|]. rewrite fold_left_app. cbn [fold_left].
  destruct (fold_left step l _) as [[member const] declaration]. cbn [fst snd] in IH. unfold step. intros H.
  destruct (named t TokenName.Const) eqn:Et; [exists t; split; [apply elem_of_app; right; left|done]|].
  assert (const = true \/ declaration = true) as Hold.
  { destruct const; [by left|]. destruct declaration; [by right|]. exfalso.
    destruct (name_in (tk_token_name t) member_operators), member; cbn in H; by destruct H. }
  destruct (IH Hold) as (c & Hc & Hn). exists c. split; [apply elem_of_app; by left|done].
Qed.

Lemma emit_cases f t rest : emit f t rest = t \/
  (emit f t rest = reclassify_as_string t /\
   ((is_identifier_like_token t = true /\ (f.1.1 = true \/ f.1.2 = true)) \/
    (named t TokenName.Namespace = true /\ name_in (next_significant_name rest) [TokenName.As] = true))).
Proof.
  destruct f as [[member const] declaration]. cbn [emit fst snd]. destruct (name_in _ member_operators); [by left|].
  destruct (member || const) eqn:E.
  - destruct (is_trivia_name _); [by left|]. destruct (is_identifier_like_token t); [|by left]. right. split; [done|]. left.
    split; [done|]. by apply orb_true_iff.
  - destruct (named t TokenName.Const); [by left|]. destruct (_ && _) eqn:En; [|by left]. right. split; [done|]. right. by apply andb_true_iff.
Qed.
Lemma emit_name f t rest : f.1.1 = true \/ f.1.2 = true -> is_trivia_name (tk_token_name t) = false ->
  name_in (tk_token_name t) member_operators = false ->
  emit f t rest = if is_identifier_like_token t then reclassify_as_string t else t.
Proof. destruct f as [[member const] declaration]. cbn [emit fst snd]. intros H%orb_true_iff -> ->. by rewrite H. Qed.
Lemma named_iff t n : named t n = true <-> tk_token_name t = Some n.
Proof.
  unfold named, name_in. destruct (tk_token_name t) as [m|]; [|done]. cbn. rewrite orb_false_r, TokenName.eqb_eq. naive_solver.
Qed.
Lemma trivia_run l f : f = (false, true, true) -> Forall (fun t => is_trivia_name (tk_token_name t) = true) l -> fold_left step l f = f.
Proof.
  intros ->. induction 1 as [|t l Ht _ IH]; [done|]. cbn [fold_left]. unfold step at 2.
  destruct (name_in (tk_token_name t) member_operators) eqn:E; [by rewrite (operator_not_trivia _ E) in Ht|]. by rewrite Ht.
Qed.


(** ** Tokens in the source *)

(** The tokens stand one after the other from [pos] to the end of the source. *)
Fixpoint placed (source : bytes) (pos : nat) (l : list TokenizerToken) : Prop :=
  match l with
  | [] => pos = length source
  | t :: l =>
      tk_pos t = N.of_nat pos /\ tk_line t = line_at source pos /\ tk_text t <> [] /\
      take (length (tk_text t)) (drop pos source) = tk_text t /\ placed source (pos + length (tk_text t)) l
  end.
(** Number, name and kind of a token agree. *)
Definition consistent (t : TokenizerToken) : Prop :=
  match tk_token_name t with
  | Some n => tk_named t = true /\ tk_id t = token_name_id n /\ tk_name t = lit (TokenName.as_php_name n)
  | None => tk_named t = false
  end.

Lemma placed_text source pos l : placed source pos l -> concat (tk_text <$> l) = drop pos source.
Proof.
  revert pos. induction l as [|t l IH]; intros pos; cbn [placed fmap list_fmap concat]; [intros ->; by rewrite drop_all|].
  intros (_ & _ & _ & Ht & Hl). rewrite (IH _ Hl), <- Ht at 1. rewrite <- drop_drop.
  assert (length (take (length (tk_text t)) (drop pos source)) = length (tk_text t)) as E by by rewrite Ht. apply take_drop.
Qed.
Lemma tokens_placed source a ts : (N.of_nat (length source) + 1 < 2 ^ 32)%N -> tiles a ts (length source) -> Forall (source_token_ok source) ts ->
  Forall (fun t => token_text t source = Some (token_bytes source t)) ts -> placed source a (tokenizer_token source <$> ts).
Proof.
  intros Hsize. revert a. induction ts as [|t ts IH]; intros a Ht Hok Htext; [done|]. destruct Ht as (Hs & Hlt & Hrest).
  apply Forall_cons in Hok as [[He Hline] Hok]. apply Forall_cons in Htext as [Et Htext]. pose proof (tiles_le _ _ _ Hrest) as Hle.
  assert (tk_text (tokenizer_token source t) = take (tok_end t - a) (drop a source)) as Etext.
  { unfold tokenizer_token, text_of_token. rewrite Et. unfold token_bytes. rewrite Hs, skipn_firstn_comm. by destruct (token_kind t). }
  assert (length (tk_text (tokenizer_token source t)) = tok_end t - a) as Elen by (rewrite Etext, length_take, length_drop; lia).
  cbn [fmap list_fmap placed]. rewrite Elen. split; [|split; [|split; [|split]]].
  - unfold tokenizer_token. fold (tok_start t). rewrite Hs. rewrite N.mod_small by lia. by destruct (token_kind t).
  - rewrite <- Hs, <- Hline. unfold tokenizer_token. by destruct (token_kind t).
  - intros E. rewrite E in Elen. cbn in Elen. lia.
  - by rewrite Etext.
  - replace (a + (tok_end t - a)) with (tok_end t) by lia. by apply IH.
Qed.
Lemma tokenizer_consistent source t : consistent (tokenizer_token source t).
Proof. unfold tokenizer_token, consistent. by destruct (token_kind t). Qed.

Lemma reclassify_kept (f : flags) source pos l : placed source pos l -> Forall consistent l ->
  placed source pos (reclassify f.1.1 f.1.2 f.2 l) /\ Forall consistent (reclassify f.1.1 f.1.2 f.2 l).
Proof.
  revert f pos. induction l as [|t l IH]; intros f pos Hp Hc; [done|]. rewrite reclassify_cons. cbn zeta. apply Forall_cons in Hc as [Ht Hc].
  destruct Hp as (H1 & H2 & H3 & H4 & Hp). destruct (IH (step f t) _ Hp Hc) as [Hp' Hc'].
  assert (consistent (emit f t l) /\ tk_pos (emit f t l) = tk_pos t /\ tk_line (emit f t l) = tk_line t /\ tk_text (emit f t l) = tk_text t) as (E1 & E2 & E3 & E4).
  { destruct (emit_cases f t l) as [->|(-> & Hcase)]; [done|]. split; [|done]. split; [|done]. cbn [reclassify_as_string tk_named].
    destruct Hcase as [[Hid _]|[Hn%named_iff _]].
    - unfold is_identifier_like_token in Hid. by apply andb_true_iff in Hid as [? _].
    - unfold consistent in Ht. rewrite Hn in Ht. apply Ht. }
  split; [|by constructor]. cbn [placed]. rewrite E2, E3, E4. done.
Qed.

(** ** The whole tokenizer *)

Section Tokenizer.
Context {mc : Memchr} {laws : MemchrLaws mc} (bk : backend) (fuel : nat).

Lemma body_of_result source config r : (N.of_nat (length source) + 1 < 2 ^ 32)%N -> utf8_valid source = true -> emit_eof config = false ->
  lex_all bk source config = Ret r ->
  placed source (skipped_bom source config) (tokenizer_token source <$> List.filter (fun t => negb (is_eof t)) (Lexer.tokens r)).
Proof.
  intros Hsize Hu He Hr. destruct (lex_all_lexed bk source config Hsize) as (r' & Hr' & body & Htok & Ht & Hb & _).
  assert (r' = r) as -> by congruence. pose proof (lex_all_texts bk source config Hsize r Hu Hr) as Htext.
  rewrite He, app_nil_r in Htok. rewrite Htok in *. replace (List.filter _ body) with body; [by apply tokens_placed|].
  clear -Hb. induction Hb as [|t body [Hne _] _ IH]; [done|]. cbn. unfold is_eof at 1. destruct (token_kind t); [by f_equal..|done].
Qed.

End Tokenizer.

(** ** The native path *)

(** The publisher of the tests ([TestPublisher]): it builds what it is told to. *)
Inductive Native : Set := NInt (z : Z) | NString (l : bytes) | NArray (l : list Native).
Fixpoint build_all {T : Set} (build : nat -> T -> unit -> option Native * T * unit) (index n : nat) (t : T) (s : unit) :
    option (list Native) * unit :=
  match n with
  | O => (Some [], s)
  | S n =>
      match build index t s with
      | (None, _, s) => (None, s)
      | (Some v, t, s) => let '(rest, s) := build_all build (S index) n t s in ((fun l => v :: l) <$> rest, s)
      end
  end.
#[export] Instance test_publisher : Publisher unit Native := {|
  publish_int z s := (Some (NInt z), s);
  publish_string l s := (Some (NString l), s);
  publish_array_with _ n build t s := let '(l, s) := build_all build 0 n t s in (NArray <$> l, s) |}.

(** A published tree is the list of the values of a PHP array, and so on. *)
Inductive shows {C} : Native -> Value C -> Prop :=
| shows_int z : shows (NInt z) (Int z)
| shows_string l : shows (NString l) (Str l)
| shows_array l a vs : iter a = packed_pairs vs -> Forall2 shows l vs -> shows (NArray l) (Array a).

Definition native_of (source : bytes) (t : Token) : Native :=
  match token_kind t with
  | TokenKind.Named name => NArray [NInt (token_name_id name); NString (text_of_token source t); NInt (Z.of_N (token_line t))]
  | _ => NString (text_of_token source t)
  end.
Lemma publish_one source t ts : is_eof t = false -> publish_token source (t :: ts) tt = (Some (native_of source t), ts, tt).
Proof. unfold is_eof, publish_token, native_of. by destruct (token_kind t). Qed.
Lemma publish_all source index ts : Forall (fun t => is_eof t = false) ts ->
  build_all (fun _ tokens s => publish_token source tokens s) index (length ts) ts tt = (Some (native_of source <$> ts), tt).
Proof.
  intros Hts. revert index. induction Hts as [|t ts Ht _ IH]; intros index; [done|]. cbn [length build_all].
  rewrite (publish_one _ _ _ Ht), IH. done.
Qed.

Section Entries.
Context {C : Type} `{KeyClassifier}.

Lemma entry_shows source id t : is_eof t = false ->
  exists v : Value C, token_get_all_entry id (tokenizer_token source t) = Ret v /\ shows (native_of source t) v.
Proof.
  intros Ht. unfold is_eof in Ht. unfold token_get_all_entry, tokenizer_token, native_of. destruct (token_kind t) as [name|symbol|]; [|eexists; by split; [|constructor]|done].
  cbn [tk_named tk_id tk_text tk_line negb]. eexists. split; [cbv; reflexivity|].
  apply (shows_array _ _ [Int (token_name_id name); Str (text_of_token source t); Int (Z.of_N (token_line t))]); [done|].
  repeat constructor.
Qed.
Lemma entries_show source id ts : Forall (fun t => is_eof t = false) ts ->
  exists vs : list (Value C), token_entries id (tokenizer_token source <$> ts) = Ret vs /\ Forall2 shows (native_of source <$> ts) vs.
Proof.
  intros Hts. revert id. induction Hts as [|t ts Ht _ IH]; intros id; [exists []; split; [done|constructor]|]. cbn [fmap list_fmap token_entries].
  destruct (entry_shows source id t Ht) as (v & -> & Hv). destruct (IH (id + 1)%N) as (vs & E & Hvs). cbn [obind].
  change (list_fmap _ _ (tokenizer_token source) ts) with (tokenizer_token source <$> ts). rewrite E. cbn [obind]. exists (v :: vs).
  split; [done|by constructor].
Qed.
End Entries.


(** ** Witnesses *)

Definition sample_text : bytes := lit "<?php X :: list; const FOR = 1;".
Definition sample_tokens : list TokenizerToken :=
  match lex_all (mc := memchr_naive) BScalar sample_text (default_config true) with
  | Ret r => tokenizer_token sample_text <$> Lexer.tokens r | _ => [] end.

#[local] Instance sample_classifier : KeyClassifier := {| ambiguous := fun _ => false |}.

(** The second constant of a declaration is not reclassified: the flag of the
    declaration is gone after the first equals sign. *)
Example second_constant_keeps_keyword :
  (olet r := test_tokenize (lit "<?php class C { const A = 1, LIST = 2; }") TOKEN_PARSE in
   Ret (match r with inl l => drop 4 l | inr _ => [] end)) =
  Ret [(TokenName.String, lit "A"); (TokenName.LNumber, lit "1"); (TokenName.List, lit "LIST"); (TokenName.LNumber, lit "2")].
Proof. vm_compute. reflexivity. Qed.
